(* ===== verification/_CoqProject ===== *)
-Q . S2P
Prelude.v
PyStr.v
FileSys.v
Storage.v
DiskOffload.v
DiskOffloadProofs.v
RadixKey.v
TreeNode.v
EvictPolicy.v
Allocator.v
AllocatorProofs.v
BatchAlloc.v
RowTable.v
KVEvents.v
RadixTree.v
RadixInv.v
RadixPaths.v
RadixSlots.v
RadixWalk.v
RadixProofs.v
RadixLocks.v
RadixEvict.v
RadixClaims.v
Lifecycle.v
Json.v
Gateway.v
AnthropicProxy.v
GatewayProofs.v
HiCacheFile.v
HiCacheFileProofs.v
ReasoningParser.v
ReasoningProofs.v
MemAlloc.v
ReqPool.v
MemBatch.v
LiveSet.v
ExtendLive.v
Serving.v
HiController.v
HiRadix.v
HiInv.v
HiPrims.v
HiProofs.v
HiLocks.v
HiRes.v
HiHost.v
HiBackup.v
HiEvict.v
HiLoad.v
HiChecks.v
HiInsert.v
HiOps.v
HiClaims.v
HiBugs.v
PyNum.v
DecodeBatch.v
WaitQueue.v
BatchShape.v
DecodeProofs.v
UpdateBatch.v
PrefixCache.v
CacheLaws.v
SchedPolicy.v
SchedProofs.v
SchedClaims.v
PrefillAdder.v
PrefillProofs.v
Scheduler.v
SchedulerProofs.v
Preemption.v
PrefillDelayer.v
Detokenizer.v
DetokProofs.v
DetokStream.v
FinishCheck.v
FinishProofs.v
FinishRuns.v
StopRegex.v
Responses.v
ResponsesProofs.v
