(* ===== verification/Prelude.v ===== *)
(** * LnaLang4U: a verification development for the serving core and the API gateways

    LnaLang4U serves language models with a fork of sglang whose KV cache spans device memory
    (L1), host memory (L2) and disk (L3), behind gateways that translate the Anthropic and
    OpenAI protocols.  This library models that core: the cache hierarchy from slot
    allocation to the disk store, the scheduling of requests and of their memory, the stop
    conditions, the detokenizer, the parser of reasoning output, and both gateways.  Below,
    [srt/] is src/sglang-diskkv/sglang-source/python/sglang/srt/.

    ** The program and its model

    Requests come in through a gateway and wait in the queue of the scheduler.  A prefill
    pass orders the queue by a policy, asks the prefix cache for the longest cached prefix of
    each prompt, admits requests while memory suffices and allocates KV slots for the rest of
    their tokens; decode steps allocate one slot per request and retract requests when slots
    run short.  What was computed is inserted into the cache, which locks what is in use and
    evicts unlocked leaves.  The hierarchical cache copies nodes to the host and from there
    to a storage backend, loads them back, and prefetches from storage.  New tokens are
    checked against the stop conditions and streamed to the detokenizer, which sends text to
    the tokenizer manager; there the coroutine of the request yields it to the client.

    - Prelude: Python outcomes (a value, an exception, or exhausted fuel), the state monad
      [PyM] of the modelled methods, dictionaries that keep insertion order, stable sorting.
      PyStr, Json, FileSys: strings, JSON values and the file system as Python sees them.
    - Storage, DiskOffload(Proofs): srt/mem_cache/hicache_storage.py (the storage interface)
      and srt/mem_cache/storage/disk_offload/disk_offload_backend.py (the SSD page store).
      The state is the index, the running total and the disk; every file-system call may
      fail when a fault oracle says so.
    - HiCacheFile(Proofs): the file backend of srt/mem_cache/hicache_storage.py.
    - RadixKey, TreeNode, EvictPolicy, KVEvents: keys, nodes, strategies and hashes or events
      of srt/mem_cache/radix_cache.py, evict_policy.py, utils.py and events.py.
    - Allocator(Proofs): srt/mem_cache/allocator.py with its Triton kernels; the class
      [KVAllocator] states what the caches use of an allocator, and both allocators are
      instances.
    - RadixTree, and RadixInv to RadixClaims: RadixCache of srt/mem_cache/radix_cache.py.
      Nodes live in a store under their number, as Python objects do; the state is the
      store, the counters, the leaf set, the event queue and the pool.  RadixInv states the
      invariant on an abstraction of the state, RadixPaths what a tree has cached, and the
      later files follow matching, insertion, locks and eviction.
    - HiController, HiRadix, and HiInv to HiClaims: srt/managers/cache_controller.py and
      srt/mem_cache/hiradix_cache.py.  HiInv extends the radix invariant to two tiers, HiRes
      accounts for device and host slots, HiOps states the requests and what callers owe,
      HiClaims the guarantees.  HiBugs has runs that violate them outside that setting.
    - MemAlloc, ReqPool, BatchAlloc, RowTable: slot allocation in srt/mem_cache/common.py,
      ReqToTokenPool of memory_pool.py, the slot allocator of memory_pool_host.py,
      ChunkCache of chunk_cache.py, and the writes to the table of rows (the Triton kernel
      and the torch loop).
    - RadixSlots, Lifecycle, MemBatch, LiveSet, ExtendLive, Serving: the
      memory of requests from alloc_for_extend and alloc_for_decode over
      cache_unfinished_req to release_kv_cache.  Serving has the step relation of a serving
      system, who owns which slot in it, and a run that frees slots of the tree.
    - PrefixCache, CacheLaws: the interface BasePrefixCache as a class with the radix and the
      hierarchical cache as instances, and the laws that the radix cache meets.
      SchedPolicy, SchedProofs, SchedClaims: the policies of
      srt/managers/schedule_policy.py.  PrefillAdder, PrefillProofs, Preemption:
      the admission of requests there.  Scheduler, SchedulerProofs: the prefill pass of
      scheduler.py.  PrefillDelayer: prefill_delayer.py.  PyNum: the numbers Python computes
      with there.
    - DecodeBatch, WaitQueue, BatchShape, DecodeProofs, UpdateBatch: filtering, merging, the
      memory check, retraction and the decode step of ScheduleBatch
      (srt/managers/schedule_batch.py), and of scheduler.py update_running_batch and
      _add_request_to_queue with its priorities, its limit and its abort messages.
    - FinishCheck, FinishProofs, FinishRuns, StopRegex: the stop conditions of Req, what
      stream_output_generation (scheduler_output_processor_mixin.py) sends of a request, and
      the stop strings and regexes of srt/sampling/sampling_params.py.
    - Detokenizer, DetokProofs, DetokStream: srt/managers/detokenizer_manager.py with
      find_printable_text of sglang/utils.py.
    - Responses, ResponsesProofs: the shared state of requests in
      srt/managers/tokenizer_manager.py, as a step relation of the loop that receives
      batches and abort messages and the coroutines that wait for them.
    - ReasoningParser, ReasoningProofs: srt/parser/reasoning_parser.py.
    - Gateway, AnthropicProxy, GatewayProofs: src/gateway/lna_agent_gateway and
      src/scripts/anthropic_proxy.py.

    ** What the theorems show

    - The radix cache, on every state reachable from [reset]: its invariant, lookups that
      return the longest cached prefix, insertion followed by lookup, eviction that
      implements an abstract specification (least priority first, no more than needed,
      locked prefixes and slots kept), locks that invert.
    - The two-tier cache under the write-through policies without a storage backend, on
      every reachable state: no request raises or runs out of fuel, device and host slots
      are conserved, the tiers are closed under parents, lookups cover both tiers, loading
      back is all or nothing, finished transfers release their locks.
    - Allocators: the kernels compute the reference loop, batches get distinct slots, the
      pools, request rows and host slots are conserved; [alloc_token_slots] succeeds exactly
      when free and evictable slots suffice.
    - The disk store: the accounting invariant under faults, least-recently-used eviction
      within the budget, round trips of pages and of the saved index, longest-prefix queries,
      recovery, and the cases in which a page is lost.  The file backend: round trips, the
      one-scan prefix query, and a failed write that poisons a key.
    - Serving, with strip_thinking_cache off: through any interleaving of arrivals, prefix
      matches, prefill and decode batches, caching and releases no slot is lost or owned
      twice, and an idle system has every slot and row back.  (Serving ends with a
      run that breaks this with that option on.)  The Triton kernel and the torch loop write the same rows.
    - Scheduling: policies permute the queue into the order they name; a prefill pass with
      no chunked request in progress and no preemption builds a batch that fits into memory;
      preemption takes all it needs or nothing; the delayer waits for a bounded number of
      passes; update_running_batch gives every request that stays its slot, takes back
      everything from those it retracts and puts them into the waiting queue or sends an
      abort message; batches keep their vectors aligned with their requests.
    - Requests: they stop within their limit, at the first stop token when a step accepts
      one token; the text searched for a stop regex is that of more tokens than a match has
      characters; a batch is detokenized as its requests would be alone, and, without CJK
      characters and for a tokenizer with the stated laws, the texts it sends add up to the
      text of the generated tokens; under every interleaving the coroutine of a request that
      is not aborted yields all of them.
    - Reasoning parser: streaming loses nothing but tags and the white space before end
      tags, for every chunking, and agrees with one-shot parsing when tags come in chunks of
      their own.  Gateways: requests (a top-level system field apart, which is dropped) and
      streams are translated faithfully, the two servers agree, and for requests that do not
      stream the proxy turns upstream failures into its 502 and 504 answers.

    ** Fuel

    Loops that are not structural take fuel and return [OutOfFuel] without it; the theorems
    show that the fuel given by the methods suffices.  Descents (match, insert) get one more
    than the key's length, since every step consumes a page; walks to the root (locks,
    climbs, the path of [load_back]) one more than the number of nodes ever created, which
    bounds the depth; eviction loops one more than the number of stored nodes, each being
    taken once; hash and storage loops one more than the list they consume.

    ** Parameters

    The digest function, the clock, [torch.save] and [torch.load], the HTTP clients, the
    Harmony parser, the heap of [heapq] (a class with a list instance), which transfers have
    finished and what an all-reduce over the ranks returns, the shuffle of the random
    policy, the rounding of floats, the tokenizer, [re.search] and the parser of regexes, the
    grammar of a request.  What a theorem assumes of one
    of them is a hypothesis in its statement or a law of a class with an instance.

    ** Not modelled

    The scheduler's event loop and its incoming messages, disaggregation, sampling state, model execution, kernels and
    weights, tokenization and the HTTP layers of sglang: device and process glue around
    the modelled core.  Decode steps are those without speculative decoding (its memory
    estimate and steps that accept several tokens are modelled), and requests are released
    outside a free group of the allocator, with events off.  The text of a stream is
    followed for texts without CJK characters, which may be sent twice (DetokStream).
    Characters are code points below 256 in the parser of reasoning output and in the
    gateways; the theorems on its streams are about the parse_streaming_increment that most
    detectors inherit.
    The sliding-window and Mamba caches, attaching and detaching a storage backend at run
    time, draft-model pools, zero-copy page IO, metrics and logging.
    src/sglang-diskkv/hiradix_cache_patched.py overrides classes of another sglang version
    that is not in the repository.  With a storage backend or the write-back policy the
    invariants of HiClaims do not hold (HiBugs). *)

From stdpp Require Import base tactics list gmap strings sorting.
From Stdlib Require Import ZArith Lia Permutation.

#[global] Open Scope Z_scope.
#[global] Set Default Goal Selector "!".

Create HintDb pydb.

(** ** Python exceptions and outcomes *)

(** The classes of the [requests] package that callers tell apart: a connect timeout is a
    [ConnectionError] and a [Timeout] at once. *)
Inductive RequestsExc :=
  | ReadTimeout | ConnectTimeout | ConnectionError | HTTPError | OtherRequestException.

#[global] Instance RequestsExc_eq_dec : EqDecision RequestsExc.
Proof. solve_decision. Defined.

(** The exception classes that the modelled code raises or catches. *)
Inductive PyExc :=
  | ValueError | IndexError | KeyError | TypeError | AttributeError
  | AssertionError | OverflowError | ZeroDivisionError | RuntimeError | NotImplementedError
  | FileNotFoundError | OSError | JSONDecodeError
  | HTTPException (status_code : Z) (detail : string)
  | RequestsError (kind : RequestsExc) (text : string)
  | HttpxError (text : string).

#[global] Instance PyExc_eq_dec : EqDecision PyExc.
Proof. solve_decision. Defined.

(** The outcome of running a statement: a value, an exception, or a loop that did not
    end within the fuel given to it. *)
Inductive Outcome (A : Type) :=
  | Ret (a : A)
  | Raise (e : PyExc)
  | OutOfFuel.
Arguments Ret {A} a.
Arguments Raise {A} e.
Arguments OutOfFuel {A}.

#[global] Instance Outcome_eq_dec {A} `{EqDecision A} : EqDecision (Outcome A).
Proof. solve_decision. Defined.

#[global] Instance Outcome_ret : MRet Outcome := fun A a => Ret a.
#[global] Instance Outcome_bind : MBind Outcome := fun A B f o =>
  match o with Ret a => f a | Raise e => Raise e | OutOfFuel => OutOfFuel end.

(** Stateful Python code: the state survives an exception, as mutations do in Python. *)
Definition PyM (S A : Type) : Type := S -> Outcome A * S.

#[global] Instance PyM_ret {S} : MRet (PyM S) := fun A a s => (Ret a, s).
#[global] Instance PyM_bind {S} : MBind (PyM S) := fun A B f m s =>
  match m s with
  | (Ret a, s') => f a s'
  | (Raise e, s') => (Raise e, s')
  | (OutOfFuel, s') => (OutOfFuel, s')
  end.

Definition py_get {S} : PyM S S := fun s => (Ret s, s).
Definition py_put {S} (s' : S) : PyM S unit := fun _ => (Ret tt, s').
Definition py_modify {S} (f : S -> S) : PyM S unit := fun s => (Ret tt, f s).
Definition py_raise {S A} (e : PyExc) : PyM S A := fun s => (Raise e, s).
Definition py_lift {S A} (o : Outcome A) : PyM S A := fun s => (o, s).
Definition py_assert {S} (b : bool) : PyM S unit :=
  if b then mret tt else py_raise AssertionError.

(** [py_try m h]: run [m]; an exception runs the handler on it. *)
Definition py_try {S A} (m : PyM S A) (h : PyExc -> PyM S A) : PyM S A := fun s =>
  match m s with
  | (Raise e, s') => h e s'
  | r => r
  end.

(** The state after running, whatever the outcome. *)
Definition py_exec {S A} (m : PyM S A) (s : S) : S := snd (m s).

Lemma py_bind_ret_inv {S A B} (m : PyM S A) (f : A -> PyM S B) s b s' :
  (m ≫= f) s = (Ret b, s') ->
  exists a s1, m s = (Ret a, s1) /\ f a s1 = (Ret b, s').
Proof.
  unfold mbind, PyM_bind. destruct (m s) as [[a|e|] s1]; [|discriminate..]. eauto.
Qed.

Lemma py_bind_Ret {S A B} (m : PyM S A) (f : A -> PyM S B) s a s1 :
  m s = (Ret a, s1) -> (m ≫= f) s = f a s1.
Proof. intros H. unfold mbind, PyM_bind. by rewrite H. Qed.

(** A predicate on states that a computation keeps on every outcome. *)
Definition preserves {S A} (P : S -> Prop) (m : PyM S A) : Prop :=
  forall s, P s -> P (snd (m s)).

Lemma preserves_ret {S A} (P : S -> Prop) (a : A) : preserves P (mret a : PyM S A).
Proof. by intros s Hs. Qed.

Lemma preserves_raise {S A} (P : S -> Prop) e : preserves P (py_raise e : PyM S A).
Proof. by intros s Hs. Qed.

Lemma preserves_bind {S A B} (P : S -> Prop) (m : PyM S A) (f : A -> PyM S B) :
  preserves P m -> (forall a, preserves P (f a)) -> preserves P (m ≫= f).
Proof.
  intros Hm Hf s Hs. specialize (Hm s Hs). unfold mbind, PyM_bind.
  destruct (m s) as [[a|e|] s1]; simpl in *; auto. by apply Hf.
Qed.

Lemma preserves_try {S A} (P : S -> Prop) (m : PyM S A) (h : PyExc -> PyM S A) :
  preserves P m -> (forall e, preserves P (h e)) -> preserves P (py_try m h).
Proof.
  intros Hm Hh s Hs. specialize (Hm s Hs). unfold py_try.
  destruct (m s) as [[a|e|] s1]; simpl in *; auto. by apply Hh.
Qed.

Lemma preserves_get {S} (P : S -> Prop) : preserves P (py_get : PyM S S).
Proof. by intros s Hs. Qed.

Lemma preserves_modify {S} (P : S -> Prop) (f : S -> S) :
  (forall s, P s -> P (f s)) -> preserves P (py_modify f).
Proof. intros Hf s Hs. by apply Hf. Qed.

Lemma preserves_if {S A} (P : S -> Prop) (b : bool) (m1 m2 : PyM S A) :
  preserves P m1 -> preserves P m2 -> preserves P (if b then m1 else m2).
Proof. by destruct b. Qed.

#[export] Hint Resolve preserves_ret preserves_raise preserves_bind preserves_try
  preserves_get preserves_modify preserves_if : pydb.

(** ** Python dictionaries: association lists in insertion order *)

Section dict.
Context {K V : Type} `{EqDecision K}.
Implicit Types (d : list (K * V)) (k : K) (v : V).

Fixpoint dict_get k d : option V :=
  match d with
  | [] => None
  | (k', v) :: d' => if decide (k = k') then Some v else dict_get k d'
  end.

(** Assignment keeps the position of a key that is present and appends a new one. *)
Fixpoint dict_set k v d : list (K * V) :=
  match d with
  | [] => [(k, v)]
  | (k', v') :: d' =>
      if decide (k = k') then (k', v) :: d' else (k', v') :: dict_set k v d'
  end.

Fixpoint dict_pop k d : list (K * V) :=
  match d with
  | [] => []
  | (k', v') :: d' => if decide (k = k') then d' else (k', v') :: dict_pop k d'
  end.

Definition dict_keys d : list K := d.*1.

Definition dict_mem k d : bool :=
  match dict_get k d with Some _ => true | None => false end.

(** [d1.update(d2)] *)
Definition dict_update d1 (d2 : list (K * V)) : list (K * V) :=
  foldl (fun d kv => dict_set kv.1 kv.2 d) d1 d2.

Lemma dict_get_None k d : dict_get k d = None <-> k ∉ dict_keys d.
Proof.
  induction d as [|[k' v'] d IH]; simpl; [set_solver|].
  case_decide; subst; [split; [done|set_solver]|]. rewrite IH. set_solver.
Qed.

Lemma dict_get_Some_in k v d : dict_get k d = Some v -> (k, v) ∈ d.
Proof.
  induction d as [|[k' v'] d IH]; simpl; [done|].
  case_decide; intros; simplify_eq; [left|right; auto].
Qed.

Lemma dict_in_get k v d : NoDup (dict_keys d) -> (k, v) ∈ d -> dict_get k d = Some v.
Proof.
  induction d as [|[k' v'] d IH]; simpl; [set_solver|].
  rewrite NoDup_cons. intros [Hk Hd] [?|Hin]%elem_of_cons; simplify_eq.
  - by rewrite decide_True.
  - rewrite decide_False; [by apply IH|].
    intros ->. apply Hk. apply list_elem_of_fmap. by exists (k', v).
Qed.

Lemma dict_get_set_eq k v d : dict_get k (dict_set k v d) = Some v.
Proof.
  induction d as [|[k' v'] d IH]; simpl; [by rewrite decide_True|].
  case_decide; simpl; [by rewrite decide_True by done|by rewrite decide_False by done].
Qed.

Lemma dict_get_set_ne k k' v d : k ≠ k' -> dict_get k' (dict_set k v d) = dict_get k' d.
Proof.
  intros Hne. induction d as [|[k1 v1] d IH]; simpl; [by rewrite decide_False|].
  case_decide; simpl; [|by rewrite IH].
  subst. by rewrite !decide_False by done.
Qed.

Lemma dict_set_keys_new k v d :
  k ∉ dict_keys d -> dict_set k v d = d ++ [(k, v)].
Proof.
  induction d as [|[k' v'] d IH]; simpl; [done|]. intros Hk.
  rewrite decide_False by set_solver. rewrite IH by set_solver. done.
Qed.

Lemma dict_set_keys_old k v d :
  k ∈ dict_keys d -> dict_keys (dict_set k v d) = dict_keys d.
Proof.
  induction d as [|[k' v'] d IH]; simpl; [set_solver|]. intros Hk.
  case_decide; simpl; [done|]. f_equal. apply IH. set_solver.
Qed.

Lemma dict_set_NoDup k v d : NoDup (dict_keys d) -> NoDup (dict_keys (dict_set k v d)).
Proof.
  intros Hd. destruct (decide (k ∈ dict_keys d)) as [Hk|Hk].
  - by rewrite dict_set_keys_old.
  - rewrite dict_set_keys_new by done. unfold dict_keys in *. rewrite fmap_app.
    apply NoDup_app. split_and!; [done| |simpl; apply NoDup_singleton].
    intros x Hx ->%list_elem_of_singleton. done.
Qed.

Lemma dict_pop_sublist k d : dict_pop k d `sublist_of` d.
Proof.
  induction d as [|[k' v'] d IH]; simpl; [constructor|].
  case_decide; [by constructor|by constructor].
Qed.

Lemma dict_pop_NoDup k d : NoDup (dict_keys d) -> NoDup (dict_keys (dict_pop k d)).
Proof.
  intros Hd. eapply sublist_NoDup; [done|]. unfold dict_keys. by rewrite dict_pop_sublist.
Qed.

Lemma dict_get_pop_eq k d : NoDup (dict_keys d) -> dict_get k (dict_pop k d) = None.
Proof.
  induction d as [|[k' v'] d IH]; simpl; [done|]. rewrite NoDup_cons. intros [Hk Hd].
  case_decide; simpl; subst; [by apply dict_get_None|].
  rewrite decide_False by done. auto.
Qed.

Lemma dict_get_pop_ne k k' d : k ≠ k' -> dict_get k' (dict_pop k d) = dict_get k' d.
Proof.
  intros Hne. induction d as [|[k1 v1] d IH]; simpl; [done|].
  case_decide; simpl; [|by rewrite IH].
  subst. by rewrite decide_False by done.
Qed.

Lemma dict_pop_absent k d : dict_get k d = None -> dict_pop k d = d.
Proof.
  induction d as [|[k' v'] d IH]; simpl; [done|].
  case_decide; [done|]. intros. by rewrite IH.
Qed.

Lemma dict_pop_perm k v d : dict_get k d = Some v -> d ≡ₚ (k, v) :: dict_pop k d.
Proof.
  induction d as [|[k' v'] d IH]; simpl; [done|].
  case_decide; intros; simplify_eq; [done|]. rewrite IH at 1 by done. constructor.
Qed.

Lemma dict_mem_spec k d : dict_mem k d = true <-> is_Some (dict_get k d).
Proof. unfold dict_mem. destruct (dict_get k d); naive_solver. Qed.

(** The sum of a measure over the values of a dictionary. *)
Definition dict_sum (f : V -> Z) d : Z := foldr (fun kv acc => f kv.2 + acc) 0 d.

Lemma dict_sum_app f d1 d2 : dict_sum f (d1 ++ d2) = dict_sum f d1 + dict_sum f d2.
Proof. induction d1 as [|[k v] d1 IH]; simpl; [done|]. unfold dict_sum in *. simpl. lia. Qed.

Lemma dict_sum_pop f k v d :
  dict_get k d = Some v -> dict_sum f (dict_pop k d) = dict_sum f d - f v.
Proof.
  induction d as [|[k' v'] d IH]; simpl; [done|].
  case_decide; intros; simplify_eq; [lia|]. unfold dict_sum in *; simpl in *.
  rewrite IH by done. lia.
Qed.

Lemma dict_sum_set f k v v' d :
  dict_get k d = Some v -> dict_sum f (dict_set k v' d) = dict_sum f d - f v + f v'.
Proof.
  induction d as [|[k1 v1] d IH]; simpl; [done|].
  case_decide; intros; simplify_eq; simpl; [lia|]. unfold dict_sum in *; simpl in *.
  rewrite IH by done. lia.
Qed.

Lemma dict_sum_perm f d1 d2 : d1 ≡ₚ d2 -> dict_sum f d1 = dict_sum f d2.
Proof. induction 1; unfold dict_sum in *; simpl; lia. Qed.

Lemma dict_sum_nonneg f d : (forall kv, kv ∈ d -> 0 <= f kv.2) -> 0 <= dict_sum f d.
Proof.
  induction d as [|[k v] d IH]; intros H; simpl; [lia|].
  assert (0 <= f v) by (apply (H (k, v)); left).
  assert (0 <= dict_sum f d) by (apply IH; intros; apply H; by right).
  unfold dict_sum in *. lia.
Qed.
End dict.

(** ** Lists *)

Lemma list_fmap_injective {A B} (f : A -> B) (l l' : list A) :
  (forall x y, f x = f y -> x = y) -> f <$> l = f <$> l' -> l = l'.
Proof.
  intros Hf. revert l'. induction l as [|x l IH]; intros [|y l'] H; simplify_eq/=; [done|].
  f_equal; auto.
Qed.

(** ** [sorted(l, key=f)]: Python's stable sort, here by insertion *)

Section sorted.
Context {A : Type} (key : A -> Z).

Fixpoint sorted_insert (x : A) (l : list A) : list A :=
  match l with
  | [] => [x]
  | y :: ys => if key x <=? key y then x :: y :: ys else y :: sorted_insert x ys
  end.

Definition py_sorted (l : list A) : list A := foldr sorted_insert [] l.

Lemma sorted_insert_perm x l : sorted_insert x l ≡ₚ x :: l.
Proof.
  induction l as [|y l IH]; simpl; [done|].
  case_match; [done|]. rewrite IH. constructor.
Qed.

Lemma py_sorted_perm l : py_sorted l ≡ₚ l.
Proof.
  induction l as [|x l IH]; simpl; [done|]. rewrite sorted_insert_perm. by rewrite IH.
Qed.

Definition key_le (x y : A) : Prop := key x <= key y.

Lemma sorted_insert_sorted x l :
  StronglySorted key_le l -> StronglySorted key_le (sorted_insert x l).
Proof.
  unfold key_le. induction 1 as [|y l Hl IH Hy]; simpl.
  - by repeat constructor.
  - destruct (Z.leb_spec (key x) (key y)).
    + constructor; [by constructor|]. constructor; [done|].
      eapply Forall_impl; [done|]. simpl. lia.
    + constructor; [done|]. apply Forall_forall. intros z.
      rewrite sorted_insert_perm. intros [->|Hz]%elem_of_cons; [lia|].
      rewrite Forall_forall in Hy. auto.
Qed.

Lemma py_sorted_sorted l : StronglySorted key_le (py_sorted l).
Proof. induction l; simpl; [constructor|]. by apply sorted_insert_sorted. Qed.
End sorted.
