(* ===== verification/PyStr.v ===== *)
(** * Python strings and paths

    The string operations of the Python standard library that the modelled code calls:
    [str.startswith], [str.endswith], slicing from either end, [str.split], [str.strip],
    [str.join], membership of a substring character, and [os.path.join].  A Python [str] is
    a Rocq [string]; every character the code compares with is ASCII. *)

From stdpp Require Import base tactics list gmap strings.
From Stdlib Require Import ZArith Lia Ascii.
From S2P Require Import Prelude.

Abbreviation chars := String.list_ascii_of_string.
Abbreviation of_chars := String.string_of_list_ascii.

Lemma chars_app s t : chars (s +:+ t) = chars s ++ chars t.
Proof. induction s as [|c s IH]; [done|]. simpl. by rewrite <-IH. Qed.

Lemma of_chars_chars s : of_chars (chars s) = s.
Proof. apply String.string_of_list_ascii_of_string. Qed.

Lemma chars_of_chars l : chars (of_chars l) = l.
Proof. apply String.list_ascii_of_string_of_list_ascii. Qed.

Lemma chars_inj s t : chars s = chars t -> s = t.
Proof. intros H. by rewrite <-(of_chars_chars s), <-(of_chars_chars t), H. Qed.

Lemma str_app_inj_l s t u : s +:+ t = s +:+ u -> t = u.
Proof. intros H. apply chars_inj. apply (f_equal chars) in H.
  rewrite !chars_app in H. by apply app_inv_head in H.
Qed.

Lemma str_app_inj_r s t u : s +:+ u = t +:+ u -> s = t.
Proof. intros H. apply chars_inj. apply (f_equal chars) in H.
  rewrite !chars_app in H. by apply app_inv_tail in H.
Qed.

Lemma str_app_assoc s t u : (s +:+ t) +:+ u = s +:+ t +:+ u.
Proof. apply chars_inj. by rewrite !chars_app, app_assoc. Qed.

(** [s.startswith(p)], as the remainder of [s] after [p] when it does. *)
Fixpoint strip_prefix (p s : list ascii) : option (list ascii) :=
  match p, s with
  | [], _ => Some s
  | a :: p', b :: s' => if decide (a = b) then strip_prefix p' s' else None
  | _ :: _, [] => None
  end.

Definition startswith (p s : string) : bool :=
  match strip_prefix (chars p) (chars s) with Some _ => true | None => false end.

Definition endswith (p s : string) : bool :=
  match strip_prefix (rev (chars p)) (rev (chars s)) with Some _ => true | None => false end.

Lemma strip_prefix_Some p s r : strip_prefix p s = Some r <-> s = p ++ r.
Proof.
  revert s. induction p as [|a p IH]; intros [|b s]; simpl; try naive_solver.
  case_decide; naive_solver.
Qed.

Lemma startswith_app p s : startswith p (p +:+ s) = true.
Proof.
  unfold startswith. rewrite chars_app.
  by rewrite (proj2 (strip_prefix_Some _ _ (chars s)) eq_refl).
Qed.

Lemma startswith_spec p s : startswith p s = true <-> exists r, s = p +:+ r.
Proof.
  unfold startswith. split.
  - destruct (strip_prefix _ _) as [r|] eqn:E; [|done]. intros _.
    apply strip_prefix_Some in E. exists (of_chars r). apply chars_inj.
    by rewrite chars_app, chars_of_chars.
  - intros [r ->]. rewrite chars_app.
    by rewrite (proj2 (strip_prefix_Some _ _ (chars r)) eq_refl).
Qed.

Lemma endswith_spec p s : endswith p s = true <-> exists r, s = r +:+ p.
Proof.
  unfold endswith. split.
  - destruct (strip_prefix _ _) as [r|] eqn:E; [|done]. intros _.
    apply strip_prefix_Some in E. exists (of_chars (rev r)). apply chars_inj.
    rewrite chars_app, chars_of_chars. rewrite <-(rev_involutive (chars s)), E.
    by rewrite rev_app_distr, rev_involutive.
  - intros [r ->]. rewrite chars_app, rev_app_distr.
    by rewrite (proj2 (strip_prefix_Some _ _ (rev (chars r))) eq_refl).
Qed.

(** [s[n:]] and [s[:-n]] *)
Definition str_drop (n : nat) (s : string) : string := of_chars (drop n (chars s)).
Definition str_drop_last (n : nat) (s : string) : string :=
  of_chars (take (length (chars s) - n) (chars s)).

Lemma str_drop_last_app s t : str_drop_last (length (chars t)) (s +:+ t) = s.
Proof.
  apply chars_inj. unfold str_drop_last. rewrite chars_of_chars, chars_app, length_app.
  replace (length (chars s) + length (chars t) - length (chars t))%nat
    with (length (chars s)) by lia.
  by rewrite take_app_length.
Qed.

Lemma str_drop_app s t : str_drop (length (chars s)) (s +:+ t) = t.
Proof. apply chars_inj. unfold str_drop. by rewrite chars_of_chars, chars_app, drop_app_length. Qed.

(** [c in s] for a one-character string *)
Definition contains_char (c : ascii) (s : string) : bool := bool_decide (c ∈ chars s).

(** [s.split(c)] for a one-character separator: always at least one piece. *)
Fixpoint split_chars (c : ascii) (s : list ascii) : list (list ascii) :=
  match s with
  | [] => [[]]
  | a :: s' =>
      match split_chars c s' with
      | [] => [[a]]
      | w :: ws => if decide (a = c) then [] :: w :: ws else (a :: w) :: ws
      end
  end.

Definition str_split (c : ascii) (s : string) : list string :=
  map of_chars (split_chars c (chars s)).

(** [k, v = s.split(c, 1)] when [c in s] *)
Fixpoint split_chars_once (c : ascii) (s : list ascii) : option (list ascii * list ascii) :=
  match s with
  | [] => None
  | a :: s' =>
      if decide (a = c) then Some ([], s')
      else match split_chars_once c s' with
           | Some (w, r) => Some (a :: w, r)
           | None => None
           end
  end.

Definition str_split_once (c : ascii) (s : string) : option (string * string) :=
  match split_chars_once c (chars s) with
  | Some (w, r) => Some (of_chars w, of_chars r)
  | None => None
  end.

(** The characters [str.strip] removes, among the code points below 256 *)
Definition py_isspace (c : ascii) : bool :=
  let n := N_of_ascii c in
  ((9 <=? n) && (n <=? 13) || (28 <=? n) && (n <=? 32) || (n =? 133) || (n =? 160))%N.

(** [s.strip()] *)
Fixpoint lstrip_chars (s : list ascii) : list ascii :=
  match s with
  | a :: s' => if py_isspace a then lstrip_chars s' else s
  | [] => []
  end.

Definition str_strip (s : string) : string :=
  of_chars (rev (lstrip_chars (rev (lstrip_chars (chars s))))).

(** [sep.join(l)] *)
Fixpoint str_join (sep : string) (l : list string) : string :=
  match l with
  | [] => ""
  | [s] => s
  | s :: l' => s +:+ sep +:+ str_join sep l'
  end.

Definition is_empty_str (s : string) : bool := bool_decide (s = "").

(** [a or b] on an optional string and a default *)
Definition or_str (a : option string) (b : string) : string :=
  match a with Some s => if is_empty_str s then b else s | None => b end.

Lemma split_chars_once_Some c s w r :
  split_chars_once c s = Some (w, r) -> s = w ++ c :: r /\ c ∉ w.
Proof.
  revert w r. induction s as [|a s IH]; intros w r; simpl; [done|].
  case_decide; [intros; simplify_eq; split; [done|set_solver]|].
  destruct (split_chars_once c s) as [[w' r']|]; [|done].
  intros; simplify_eq. destruct (IH w' r) as [-> Hn]; [done|]. set_solver.
Qed.

Lemma split_chars_once_None c s : split_chars_once c s = None <-> c ∉ s.
Proof.
  induction s as [|a s IH]; simpl; [set_solver|].
  case_decide; [set_solver|].
  destruct (split_chars_once c s) as [[w' r']|]; set_solver.
Qed.

Lemma split_chars_not_nil c s : split_chars c s <> [].
Proof. destruct s; simpl; [done|]. repeat case_match; done. Qed.

Lemma split_chars_no_sep c s : c ∉ s -> split_chars c s = [s].
Proof.
  induction s as [|a s IH]; simpl; [done|]. intros H.
  rewrite IH by set_solver. rewrite decide_False by set_solver. done.
Qed.

Lemma split_chars_app c s t :
  c ∉ s -> split_chars c (s ++ c :: t) = s :: split_chars c t.
Proof.
  intros H. induction s as [|a s IH]; simpl.
  - destruct (split_chars c t) eqn:E; [by apply split_chars_not_nil in E|].
    by rewrite decide_True.
  - rewrite IH by set_solver. rewrite decide_False by set_solver. done.
Qed.

(** ** [os.path.join(a, b)] on POSIX: an absolute second part discards the first. *)
Definition path_join (a b : string) : string :=
  if startswith "/" b then b
  else if is_empty_str a || endswith "/" a then a +:+ b
  else a +:+ "/" +:+ b.

(** What [os.path.join(a, _)] puts before a relative second part. *)
Definition path_prefix (a : string) : string :=
  if is_empty_str a || endswith "/" a then a else a +:+ "/".

Lemma path_join_relative a b : startswith "/" b = false -> path_join a b = path_prefix a +:+ b.
Proof.
  unfold path_join, path_prefix. intros ->. case_match; [done|]. by rewrite str_app_assoc.
Qed.

(** A relative name joined to the same directory determines the path. *)
Lemma path_join_inj a b b' :
  startswith "/" b = false -> startswith "/" b' = false ->
  path_join a b = path_join a b' -> b = b'.
Proof. intros Hb Hb'. rewrite !path_join_relative by done. apply str_app_inj_l. Qed.

(** ** [int(s)]: an optional sign and decimal digits, single underscores between digits,
    white space around *)
Definition digit_val (c : ascii) : option Z :=
  let n := Z.of_N (N_of_ascii c) in
  if (48 <=? n) && (n <=? 57) then Some (n - 48) else None.

(** [after]: the previous character was a digit *)
Fixpoint int_digits (acc : Z) (after : bool) (l : list ascii) : option Z :=
  match l with
  | [] => if after then Some acc else None
  | c :: l' =>
      match digit_val c with
      | Some d => int_digits (10 * acc + d) true l'
      | None => if after && bool_decide (c = "_"%char) then int_digits acc false l' else None
      end
  end.

Definition py_int (s : string) : Outcome Z :=
  let l := chars (str_strip s) in
  let r := match l with
           | c :: l' => if bool_decide (c = "-"%char) then Z.opp <$> int_digits 0 false l'
                        else if bool_decide (c = "+"%char) then int_digits 0 false l'
                        else int_digits 0 false l
           | [] => None
           end in
  match r with Some z => Ret z | None => Raise ValueError end.
