(* ===== verification/FileSys.v ===== *)
(** * The file system, as the storage backends use it

    A file system maps a path to a file; a directory exists when some file lies under it.
    [os.path.exists], [os.listdir], [os.path.getsize], [os.remove] and [os.replace] are the
    functions of the Python [os] module that the storage backends call.  A file holds raw
    bytes or the JSON document of a page index (the text that [json.dump] wrote); bytes read
    as JSON are a decoding error. *)

From stdpp Require Import base tactics list gmap strings.
From Stdlib Require Import ZArith Lia Ascii.
From Stdlib Require Import Strings.Byte.
From S2P Require Import Prelude PyStr.

(** One entry of the page index: ["size"] and ["last_access"]. *)
Record PageInfo := mkPageInfo { size : Z; last_access : Z }.

#[global] Instance PageInfo_eq_dec : EqDecision PageInfo.
Proof. solve_decision. Defined.

(** The JSON object of [index.json]; a member that is missing is [None]. *)
Record IndexDoc := mkIndexDoc {
  doc_pages : option (list (string * PageInfo));
  doc_total_bytes : option Z }.

Inductive Content :=
  | Raw (b : list byte)
  | Json (d : IndexDoc).

Record File := mkFile { f_content : Content; f_mtime : Z }.

Definition FS := gmap string File.

(** The name of the entry of directory [dir] under which [path] lies, if it does. *)
Definition entry_of (dir path : string) : option string :=
  match strip_prefix (chars (path_prefix dir)) (chars path) with
  | Some rest =>
      match split_chars "/"%char rest with
      | w :: _ => if bool_decide (w = []) then None else Some (of_chars w)
      | [] => None
      end
  | None => None
  end.

Definition listdir (dir : string) (fs : gmap string File) : list string :=
  remove_dups (omap (entry_of dir) (map_to_list fs).*1).

Definition is_dir (path : string) (fs : gmap string File) : bool :=
  existsb (fun p => match entry_of path p with Some _ => true | None => false end)
    (map_to_list fs).*1.

Definition is_file (path : string) (fs : gmap string File) : bool :=
  match fs !! path with Some _ => true | None => false end.

Definition path_exists (path : string) (fs : gmap string File) : bool :=
  is_file path fs || is_dir path fs.

(** [os.path.getsize] of raw bytes. *)
Definition content_size (c : Content) : Z :=
  match c with Raw b => Z.of_nat (length b) | Json _ => 0 end.

Lemma content_size_nonneg c : 0 <= content_size c.
Proof. destruct c; simpl; lia. Qed.

Lemma entry_of_no_slash dir path name :
  entry_of dir path = Some name -> contains_char "/"%char name = false.
Proof.
  unfold entry_of. destruct (strip_prefix _ _) as [rest|]; [|done].
  destruct (split_chars _ rest) as [|w ws] eqn:E; [done|].
  case_match; [done|]. intros [= <-].
  unfold contains_char. apply bool_decide_eq_false. rewrite chars_of_chars.
  clear -E. revert w ws E. induction rest as [|a rest IH]; simpl; intros w ws E.
  - simplify_eq; set_solver.
  - destruct (split_chars _ rest) as [|w' ws'] eqn:E'.
    + by apply split_chars_not_nil in E'.
    + case_decide; simplify_eq; [set_solver|].
      specialize (IH _ _ eq_refl). set_solver.
Qed.

Lemma listdir_no_slash dir fs name :
  name ∈ listdir dir fs -> contains_char "/"%char name = false.
Proof.
  unfold listdir. rewrite elem_of_remove_dups, list_elem_of_omap.
  intros (p & _ & H). by eapply entry_of_no_slash.
Qed.

Lemma listdir_NoDup dir fs : NoDup (listdir dir fs).
Proof. apply NoDup_remove_dups. Qed.

(** A plain file name stored in a directory is listed there. *)
Lemma entry_of_join dir name :
  name <> "" -> contains_char "/"%char name = false ->
  entry_of dir (path_prefix dir +:+ name) = Some name.
Proof.
  intros Hne Hs. unfold contains_char in Hs. apply bool_decide_eq_false in Hs.
  unfold entry_of. rewrite chars_app.
  rewrite (proj2 (strip_prefix_Some _ _ (chars name)) eq_refl).
  rewrite split_chars_no_sep by done. rewrite bool_decide_eq_false_2.
  - by rewrite of_chars_chars.
  - intros H. apply Hne. by apply chars_inj.
Qed.

Lemma listdir_complete dir fs name :
  name <> "" -> contains_char "/"%char name = false ->
  is_file (path_prefix dir +:+ name) fs = true -> name ∈ listdir dir fs.
Proof.
  intros Hne Hs Hf. unfold listdir. rewrite elem_of_remove_dups, list_elem_of_omap.
  exists (path_prefix dir +:+ name). split; [|by apply entry_of_join].
  unfold is_file in Hf. destruct (fs !! _) as [f|] eqn:E; [|done].
  apply list_elem_of_fmap. exists (path_prefix dir +:+ name, f). split; [done|].
  by apply elem_of_map_to_list.
Qed.
