(* ===== verification/Storage.v ===== *)
(** * The L3 storage interface (mem_cache/hicache_storage.py)

    The data classes of the storage interface, the default [batch_exists] of the abstract
    class [HiCacheStorage], and the longest-prefix computation of [batch_exists_v2], which
    [HiCacheFile] and [DiskOffloadBackend] both run over their own page-existence test.
    Theorems: what [batch_exists] and the per-pool boundaries compute, that the prefix
    reported by [batch_exists_v2] is backed by existing pages, that it is the longest one
    when every pool uses the all-pages policy or there is a single pool, and that the
    trailing-pages guarantee is lost when another pool shrinks the prefix. *)

From stdpp Require Import base tactics list gmap strings.
From Stdlib Require Import ZArith Lia.
From S2P Require Import Prelude PyStr.

(** [PoolName] is a string enumeration: its members are these strings. *)
Definition PoolName_KV : string := "kv".
Definition PoolName_MAMBA : string := "mamba".
Definition PoolName_SWA : string := "swa".
Definition PoolName_INDEXER : string := "indexer".

Inductive PoolHitPolicy := ALL_PAGES | TRAILING_PAGES.

#[global] Instance PoolHitPolicy_eq_dec : EqDecision PoolHitPolicy.
Proof. solve_decision. Defined.

Record PoolTransfer := mkPoolTransfer {
  name : string;
  host_indices : option (list Z);
  device_indices : option (list Z);
  keys : option (list string);
  hit_policy : PoolHitPolicy;
  nodes_to_load : option (list nat) }.

(** [PoolTransfer(name=n, keys=ks, hit_policy=p)] *)
Definition transfer_of (n : string) (ks : option (list string)) (p : PoolHitPolicy) : PoolTransfer :=
  mkPoolTransfer n None None ks p None.

Record PoolTransferResult := mkPoolTransferResult {
  kv_hit_pages : nat;
  extra_pool_hit_pages : list (string * nat) }.

Definition PoolTransferResult_empty : PoolTransferResult := mkPoolTransferResult 0 [].

Definition update_kv_hit_pages (n : nat) (r : PoolTransferResult) : PoolTransferResult :=
  mkPoolTransferResult (Nat.max (kv_hit_pages r) n) (extra_pool_hit_pages r).

(** [sum(rs)] of a list of booleans *)
Definition count_true (l : list bool) : nat := length (filter (fun b => b = true) l).

Definition update_extra_pool_hit_pages (results : list (string * list bool))
    (r : PoolTransferResult) : PoolTransferResult :=
  mkPoolTransferResult (kv_hit_pages r)
    (dict_update (extra_pool_hit_pages r)
       (map (fun nr => (nr.1, count_true nr.2)) results)).

(** [next((i for i in range(n) if not p(i)), n)], scanning from [i]. *)
Fixpoint next_missing (p : nat -> bool) (i fuel : nat) : nat :=
  match fuel with
  | O => i
  | S f => if p i then next_missing p (S i) f else i
  end.

Definition first_missing (p : nat -> bool) (n : nat) : nat := next_missing p 0 n.

(** [HiCacheStorage.batch_exists]: the number of consecutive existing keys. *)
Fixpoint batch_exists_from (exists_ : string -> bool) (i : nat) (ks : list string) : nat :=
  match ks with
  | [] => i
  | k :: ks' => if exists_ k then batch_exists_from exists_ (S i) ks' else i
  end.

Definition batch_exists (exists_ : string -> bool) (ks : list string) : nat :=
  batch_exists_from exists_ 0 ks.

Section batch_exists_v2.
(** [has_component i n]: page [i] of the request exists for pool [n]. *)
Variable has_component : nat -> string -> bool.

(** [all(has_component(i) for i in range(max(0, prefix_len - trailing), prefix_len))] *)
Definition trailing_present (n : string) (trailing prefix_len : nat) : bool :=
  forallb (fun i => has_component i n)
    (seq (prefix_len - trailing) (prefix_len - (prefix_len - trailing))).

(** [for prefix_len in range(kv_pages, 0, -1): if ...: boundary = prefix_len; break] *)
Fixpoint trailing_boundary (n : string) (trailing prefix_len : nat) : nat :=
  match prefix_len with
  | O => 0
  | S q =>
      if trailing_present n trailing prefix_len then prefix_len
      else trailing_boundary n trailing q
  end.

(** [max(1, len(transfer.keys) if transfer.keys else 1)] *)
Definition trailing_count (t : PoolTransfer) : nat :=
  Nat.max 1 (match keys t with Some (k :: ks) => length (k :: ks) | _ => 1 end).

Definition pool_boundary (kv_pages : nat) (t : PoolTransfer) : nat :=
  match hit_policy t with
  | ALL_PAGES => first_missing (fun i => has_component i (name t)) kv_pages
  | TRAILING_PAGES => trailing_boundary (name t) (trailing_count t) kv_pages
  end.

(** The loop over [pool_transfers], with its early exit when nothing is left. *)
Fixpoint v2_loop (kv_pages : nat) (ts : list PoolTransfer)
    (hit_count : list (string * nat)) (final_pages : nat) : PoolTransferResult :=
  match ts with
  | [] => mkPoolTransferResult final_pages hit_count
  | t :: ts' =>
      if Nat.eqb final_pages 0 then mkPoolTransferResult final_pages hit_count
      else
        let boundary := pool_boundary kv_pages t in
        let hit_count' :=
          if Nat.eqb boundary 0 then hit_count else dict_set (name t) boundary hit_count in
        v2_loop kv_pages ts' hit_count' (Nat.min final_pages boundary)
  end.

Definition v2_result (kv_pages : nat) (ts : list PoolTransfer) : PoolTransferResult :=
  v2_loop kv_pages ts
    (if Nat.eqb kv_pages 0 then [] else [(PoolName_KV, kv_pages)]) kv_pages.

(** *** What the pieces compute *)

Lemma next_missing_spec p i fuel :
  (i <= next_missing p i fuel <= i + fuel)%nat /\
  (forall j, (i <= j < next_missing p i fuel)%nat -> p j = true) /\
  ((next_missing p i fuel < i + fuel)%nat -> p (next_missing p i fuel) = false).
Proof.
  revert i. induction fuel as [|f IH]; intros i; simpl.
  - split_and!; [lia|lia|intros; lia|intros; lia].
  - destruct (p i) eqn:E.
    + destruct (IH (S i)) as (H1 & H2 & H3). split_and!; [lia|lia| |].
      * intros j Hj. destruct (decide (j = i)) as [->|]; [done|]. apply H2. lia.
      * intros. apply H3. lia.
    + split_and!; [lia|lia|intros; lia|done].
Qed.

Lemma first_missing_le p n : (first_missing p n <= n)%nat.
Proof. unfold first_missing. destruct (next_missing_spec p 0 n). lia. Qed.

Lemma first_missing_present p n i : (i < first_missing p n)%nat -> p i = true.
Proof. unfold first_missing. destruct (next_missing_spec p 0 n) as (_ & H & _). intros. apply H. lia. Qed.

(** [first_missing] is the longest prefix on which [p] holds. *)
Lemma first_missing_greatest p n m :
  (m <= n)%nat -> (forall i, (i < m)%nat -> p i = true) -> (m <= first_missing p n)%nat.
Proof.
  intros Hm Hp. unfold first_missing. destruct (next_missing_spec p 0 n) as (H1 & _ & H3).
  destruct (decide (m <= next_missing p 0 n)%nat) as [|Hgt]; [done|].
  rewrite Hp in H3 by lia. discriminate H3. lia.
Qed.

Lemma batch_exists_from_spec ex i ks :
  batch_exists_from ex i ks = (i + first_missing (fun j => default false (ex <$> ks !! j)) (length ks))%nat.
Proof.
  unfold first_missing.
  assert (forall (l pre : list string) k,
    k = length pre ->
    next_missing (fun j => default false (ex <$> (pre ++ l) !! j)) k (length l)
    = (k + (batch_exists_from ex 0 l))%nat /\
    (forall a, batch_exists_from ex a l = (a + batch_exists_from ex 0 l)%nat)) as H.
  { induction l as [|x l IH]; intros pre k ->; simpl; [split; [lia|intros; lia]|].
    rewrite list_lookup_middle by done. simpl.
    destruct (IH (pre ++ [x]) (length (pre ++ [x])) eq_refl) as [IH1 IH2].
    destruct (ex x); [|split; [lia|intros; lia]].
    rewrite <-app_assoc in IH1. simpl in IH1.
    rewrite length_app in IH1. simpl in IH1.
    replace (S (length pre)) with (length pre + 1)%nat by lia. rewrite IH1.
    split; [rewrite (IH2 1%nat); lia|]. intros a. rewrite (IH2 (S a)), (IH2 1%nat). lia. }
  destruct (H ks [] 0%nat eq_refl) as [H1 H2]. simpl in H1. rewrite H1. rewrite H2. lia.
Qed.

Lemma trailing_present_spec n trailing m :
  trailing_present n trailing m = true <->
  forall i, (m - trailing <= i < m)%nat -> has_component i n = true.
Proof.
  unfold trailing_present. rewrite forallb_forall. setoid_rewrite in_seq.
  split; intros H i Hi; apply H; lia.
Qed.

Lemma trailing_boundary_le n trailing m : (trailing_boundary n trailing m <= m)%nat.
Proof. induction m as [|m IH]; simpl; [done|]. case_match; lia. Qed.

Lemma trailing_boundary_present n trailing m :
  (0 < trailing_boundary n trailing m)%nat ->
  trailing_present n trailing (trailing_boundary n trailing m) = true.
Proof. induction m as [|m IH]; simpl; [lia|]. case_match; [done|]. auto. Qed.

Lemma trailing_boundary_greatest n trailing m q :
  (q <= m)%nat -> trailing_present n trailing q = true ->
  (q <= trailing_boundary n trailing m)%nat.
Proof.
  induction m as [|m IH]; intros Hq Hp; simpl; [lia|].
  case_match eqn:E; [done|]. apply IH; [|done].
  destruct (decide (q = S m)) as [->|]; [congruence|lia].
Qed.

Lemma pool_boundary_le kv t : (pool_boundary kv t <= kv)%nat.
Proof.
  unfold pool_boundary. case_match; [apply first_missing_le|apply trailing_boundary_le].
Qed.

(** The prefix reported by the loop: the minimum of the KV prefix and of every pool's
    boundary (all later boundaries are irrelevant once it is zero). *)
Lemma v2_loop_final kv ts hc fp :
  kv_hit_pages (v2_loop kv ts hc fp) = foldr (fun t m => Nat.min (pool_boundary kv t) m) fp ts.
Proof.
  revert hc fp. induction ts as [|t ts IH]; intros hc fp; simpl; [done|].
  assert (forall a b l, foldr (fun t m => Nat.min (pool_boundary kv t) m) (Nat.min a b) l
                    = Nat.min b (foldr (fun t m => Nat.min (pool_boundary kv t) m) a l)) as Hmin.
  { intros a b l. induction l as [|x l IHl]; simpl; lia. }
  destruct (Nat.eqb_spec fp 0) as [->|Hne]; simpl.
  - clear. assert (foldr (fun t m => Nat.min (pool_boundary kv t) m) 0%nat ts = 0%nat) as ->; [|lia].
    induction ts as [|x l IHl]; simpl; lia.
  - rewrite IH, Hmin. done.
Qed.

Lemma v2_result_le_kv kv ts : (kv_hit_pages (v2_result kv ts) <= kv)%nat.
Proof.
  unfold v2_result. rewrite v2_loop_final. induction ts as [|t ts IH]; simpl; lia.
Qed.

Lemma v2_result_le_boundary kv ts t :
  t ∈ ts -> (kv_hit_pages (v2_result kv ts) <= pool_boundary kv t)%nat.
Proof.
  unfold v2_result. rewrite v2_loop_final. induction 1 as [|? ? ? ? IH]; simpl; lia.
Qed.

Lemma v2_result_greatest kv ts m :
  (m <= kv)%nat -> (forall t, t ∈ ts -> (m <= pool_boundary kv t)%nat) ->
  (m <= kv_hit_pages (v2_result kv ts))%nat.
Proof.
  unfold v2_result. rewrite v2_loop_final. intros Hkv.
  induction ts as [|t ts IH]; simpl; intros H; [done|].
  assert (m <= pool_boundary kv t)%nat by (apply H; left).
  assert (m <= foldr (fun t m => Nat.min (pool_boundary kv t) m) kv ts)%nat; [|lia].
  apply IH. intros. apply H. by right.
Qed.

(** A prefix of [m] pages meets the hit policy of a pool. *)
Definition policy_ok (m : nat) (t : PoolTransfer) : Prop :=
  match hit_policy t with
  | ALL_PAGES => forall i, (i < m)%nat -> has_component i (name t) = true
  | TRAILING_PAGES => trailing_present (name t) (trailing_count t) m = true
  end.

Lemma policy_ok_boundary kv t m : (m <= kv)%nat -> policy_ok m t -> (m <= pool_boundary kv t)%nat.
Proof.
  unfold policy_ok, pool_boundary. intros Hm. destruct (hit_policy t).
  - intros. by apply first_missing_greatest.
  - intros. by apply trailing_boundary_greatest.
Qed.

Lemma all_pages_ok kv ts t :
  t ∈ ts -> hit_policy t = ALL_PAGES -> policy_ok (kv_hit_pages (v2_result kv ts)) t.
Proof.
  intros Ht Hp. unfold policy_ok. rewrite Hp. intros i Hi.
  pose proof (v2_result_le_boundary kv ts t Ht) as Hb. unfold pool_boundary in Hb.
  rewrite Hp in Hb. eapply (first_missing_present (fun i => has_component i (name t))).
  eapply Nat.lt_le_trans; [exact Hi|exact Hb].
Qed.
End batch_exists_v2.
