(* ===== verification/DiskOffload.v ===== *)
(** * DiskOffloadBackend (mem_cache/storage/disk_offload/disk_offload_backend.py)

    The SSD page store: one [.pt] file per page under [pages/], an index of sizes and access
    times kept in memory and saved to [index.json], a disk budget enforced by evicting the
    least recently accessed pages.

    The environment of the code is a parameter of the section: the clock, which calls to the
    file system fail, and [torch.save]/[torch.load], of which the theorems that need it assume
    only that loading what was saved gives the tensor back. *)

From stdpp Require Import base tactics list gmap strings.
From Stdlib Require Import ZArith Lia Ascii.
From Stdlib Require Import Strings.Byte.
From S2P Require Import Prelude PyStr FileSys Storage.

(** The state of a backend and of the disk under it. *)
Record Disk := mkDisk {
  fs : gmap string File;
  index_ : list (string * PageInfo);   (* self._index, a dict in insertion order *)
  total_bytes : Z;                     (* self._total_bytes *)
  dirty : bool;                        (* self._dirty *)
  clk : nat;                           (* calls of time.time() so far *)
  io : nat                             (* fallible file-system calls so far *) }.

Definition set_fs (f : gmap string File) (s : Disk) : Disk :=
  mkDisk f (index_ s) (total_bytes s) (dirty s) (clk s) (io s).
Definition set_index (i : list (string * PageInfo)) (s : Disk) : Disk :=
  mkDisk (fs s) i (total_bytes s) (dirty s) (clk s) (io s).
Definition set_total (t : Z) (s : Disk) : Disk :=
  mkDisk (fs s) (index_ s) t (dirty s) (clk s) (io s).
Definition set_dirty (b : bool) (s : Disk) : Disk :=
  mkDisk (fs s) (index_ s) (total_bytes s) b (clk s) (io s).
Definition tick_clk (s : Disk) : Disk :=
  mkDisk (fs s) (index_ s) (total_bytes s) (dirty s) (S (clk s)) (io s).
Definition tick_io (s : Disk) : Disk :=
  mkDisk (fs s) (index_ s) (total_bytes s) (dirty s) (clk s) (S (io s)).

(** A registered host pool, page by page: [get_data_page] and [set_from_flat_data_page]. *)
Record HostPool (Tensor : Type) := mkHostPool {
  page_size : Z;
  data_page : Z -> Tensor }.
Arguments mkHostPool {Tensor}.
Arguments page_size {Tensor}.
Arguments data_page {Tensor}.

Definition set_from_flat_data_page {Tensor} (off : Z) (v : Tensor) (p : HostPool Tensor) :
    HostPool Tensor :=
  mkHostPool (page_size p) (fun o => if decide (o = off) then v else data_page p o).

Section backend.
Context {Tensor : Type}.
Variable torch_save : Tensor -> list byte.
Variable torch_load : list byte -> option Tensor.
Variable time_time : nat -> Z.
(** [io_fault n]: the [n]-th fallible call raises [OSError]. *)
Variable io_fault : nat -> bool.
(** Bytes left behind by the [n]-th call when it is a write that fails. *)
Variable partial_write : nat -> option (list byte).
(** [(st_size, st_mtime)] of a directory. *)
Variable dir_stat : string -> Z * Z.
Variable disk_offload_dir : string.
Variable max_disk_bytes : Z.

Abbreviation M := (PyM Disk).

Definition pages_dir : string := path_join disk_offload_dir "pages".
Definition index_path : string := path_join disk_offload_dir "index.json".
Definition index_tmp : string := index_path +:+ ".tmp".

(** *** Environment calls *)

Definition now : M Z := fun s => (Ret (time_time (clk s)), tick_clk s).

(** A fallible call: [true] when it succeeds. *)
Definition io_call : M bool := fun s => (Ret (negb (io_fault (io s))), tick_io s).

Definition write_file (path : string) (c : Content) : M unit :=
  s ← py_get;
  let t := time_time (clk s) in
  ok ← io_call;
  if ok : bool then py_modify (fun s => set_fs (<[path := mkFile c t]> (fs s)) s)
  else
    _ ← match partial_write (io s) with
        | Some b => py_modify (fun s => set_fs (<[path := mkFile (Raw b) t]> (fs s)) s)
        | None => mret tt
        end;
    py_raise OSError.

Definition os_replace (src dst : string) : M unit :=
  ok ← io_call;
  s ← py_get;
  match ok, fs s !! src with
  | true, Some f => py_modify (fun s => set_fs (<[dst := f]> (delete src (fs s))) s)
  | true, None => py_raise FileNotFoundError
  | false, _ => py_raise OSError
  end.

(** *** Key helpers *)

Definition _page_path (key : string) : string := path_join pages_dir (key +:+ ".pt").

Definition _component_key (key pool_name : string) : string :=
  if bool_decide (pool_name = "kv") then key else key +:+ "." +:+ pool_name.

(** *** Index persistence *)

Definition _mark_dirty : M unit := py_modify (set_dirty true).

Definition _save_index : M unit :=
  s ← py_get;
  let data := mkIndexDoc (Some (index_ s)) (Some (total_bytes s)) in
  _ ← write_file index_tmp (Json data);
  os_replace index_tmp index_path.

Definition _flush_index : M unit :=
  s ← py_get;
  if dirty s then _ ← _save_index; py_modify (set_dirty false) else mret tt.

(** [os.path.getsize], [os.path.getmtime]: [None] is [OSError]. *)
Definition stat (path : string) (s : Disk) : option (Z * Z) :=
  match fs s !! path with
  | Some f => Some (content_size (f_content f), f_mtime f)
  | None => if is_dir path (fs s) then Some (dir_stat path) else None
  end.

Definition rebuild_entry (nm : string) : M unit :=
  if endswith ".pt" nm then
    s ← py_get;
    match stat (path_join pages_dir nm) s with
    | Some (sz, mtime) =>
        py_modify (fun s =>
          set_total (total_bytes s + sz)
            (set_index (dict_set (str_drop_last 3 nm) (mkPageInfo sz mtime) (index_ s)) s))
    | None => mret tt
    end
  else mret tt.

Fixpoint rebuild_loop (names : list string) : M unit :=
  match names with
  | [] => mret tt
  | nm :: names' => _ ← rebuild_entry nm; rebuild_loop names'
  end.

Definition _rebuild_index : M unit :=
  _ ← py_modify (fun s => set_total 0 (set_index [] s));
  s ← py_get;
  if is_dir pages_dir (fs s) then rebuild_loop (listdir pages_dir (fs s)) else mret tt.

Definition _load_index : M unit :=
  s ← py_get;
  match fs s !! index_path with
  | None =>
      if is_dir index_path (fs s) then py_raise OSError
      else py_modify (fun s => set_total 0 (set_index [] s))
  | Some f =>
      match f_content f with
      | Json d =>
          py_modify (fun s =>
            set_total (default 0 (doc_total_bytes d)) (set_index (default [] (doc_pages d)) s))
      | Raw _ => _rebuild_index
      end
  end.

(** *** Budget enforcement (LRU eviction) *)

Definition os_remove (path : string) : M unit :=
  ok ← io_call;
  s ← py_get;
  match ok, fs s !! path with
  | true, Some _ => py_modify (fun s => set_fs (delete path (fs s)) s)
  | true, None => py_raise FileNotFoundError
  | false, _ => py_raise OSError
  end.

Definition _evict_one (key : string) : M unit :=
  s ← py_get;
  match dict_get key (index_ s) with
  | None => mret tt
  | Some info =>
      _ ← py_modify (fun s => set_index (dict_pop key (index_ s)) s);
      _ ← py_modify (fun s => set_total (total_bytes s - size info) s);
      _ ← py_try (os_remove (_page_path key)) (fun _ => mret tt);
      _mark_dirty
  end.

Fixpoint evict_loop (target : Z) (evictable : list string) : M unit :=
  match evictable with
  | [] => mret tt
  | key :: rest =>
      s ← py_get;
      if total_bytes s <=? target then mret tt
      else _ ← _evict_one key; evict_loop target rest
  end.

Definition lru_order (index : list (string * PageInfo)) : list string :=
  (py_sorted (fun kv => last_access kv.2) index).*1.

Definition _enforce_budget (needed_bytes : Z) : M unit :=
  if max_disk_bytes <=? 0 then mret tt
  else
    let target := max_disk_bytes - needed_bytes in
    s ← py_get;
    if total_bytes s <=? target then mret tt
    else evict_loop target (lru_order (index_ s)).

Definition _touch_access (key : string) : M unit :=
  s ← py_get;
  match dict_get key (index_ s) with
  | None => mret tt
  | Some info =>
      t ← now;
      _ ← py_modify (fun s => set_index (dict_set key (mkPageInfo (size info) t) (index_ s)) s);
      _mark_dirty
  end.

(** *** The HiCacheStorage interface *)

Definition get (key : string) : M (option Tensor) :=
  s ← py_get;
  match fs s !! _page_path key with
  | None => mret None
  | Some f =>
      match f_content f with
      | Raw b =>
          match torch_load b with
          | Some data => _ ← _touch_access key; mret (Some data)
          | None => mret None
          end
      | Json _ => mret None
      end
  end.

(** The [try] block of [set]: write the page, make room, record it. *)
Definition set_body (key : string) (value : Tensor) : M bool :=
  let path := _page_path key in
  _ ← write_file path (Raw (torch_save value));
  s ← py_get;
  match stat path s with
  | None => py_raise OSError
  | Some (sz, _) =>
      _ ← _enforce_budget sz;
      t ← now;
      _ ← py_modify (fun s => set_index (dict_set key (mkPageInfo sz t) (index_ s)) s);
      _ ← py_modify (fun s => set_total (total_bytes s + sz) s);
      _ ← _mark_dirty;
      _ ← _flush_index;
      mret true
  end.

Definition set (key : string) (value : option Tensor) : M bool :=
  match value with
  | None => mret false
  | Some v =>
      s ← py_get;
      if dict_mem key (index_ s) then
        _ ← _touch_access key; _ ← _flush_index; mret true
      else py_try (set_body key v) (fun _ => mret false)
  end.

Definition exists_ (s : Disk) (key : string) : bool :=
  dict_mem key (index_ s) && path_exists (_page_path key) (fs s).

Definition disk_batch_exists (s : Disk) (ks : list string) : nat :=
  batch_exists (exists_ s) ks.

Fixpoint batch_get (ks : list string) : M (list (option Tensor)) :=
  match ks with
  | [] => mret []
  | k :: ks' => d ← get k; ds ← batch_get ks'; mret (d :: ds)
  end.

Fixpoint batch_set_loop (kvs : list (string * Tensor)) (ok : bool) : M bool :=
  match kvs with
  | [] => mret ok
  | (k, v) :: kvs' => r ← set k (Some v); batch_set_loop kvs' (r && ok)
  end.

Definition batch_set (ks : list string) (values : option (list Tensor)) : M bool :=
  match values with
  | None => mret false
  | Some vs =>
      ok ← batch_set_loop (zip ks vs) true;
      _ ← _flush_index;
      mret ok
  end.

Definition batch_exists_v2 (s : Disk) (ks : list string) (pool_transfers : list PoolTransfer) :
    PoolTransferResult :=
  v2_result (fun i n => default false ((fun k => exists_ s (_component_key k n)) <$> ks !! i))
    (first_missing (fun i => default false (exists_ s <$> ks !! i)) (length ks))
    pool_transfers.

(** *** v2 transfers between registered host pools and the disk *)

Definition Pools : Type := list (string * HostPool Tensor).

(** One page: [self.set(...)] on a write, [self.get(...)] into the pool on a read. *)
Definition page_io (write : bool) (pname : string) (p : HostPool Tensor) (key : string)
    (off : Z) : M (bool * HostPool Tensor) :=
  let storage_key := _component_key key pname in
  if write then
    r ← set storage_key (Some (data_page p off)); mret (r, p)
  else
    d ← get storage_key;
    match d with
    | None => mret (false, p)
    | Some v => mret (true, set_from_flat_data_page off v p)
    end.

Fixpoint pages_io (write : bool) (pname : string) (p : HostPool Tensor) (psz : Z)
    (idx : list Z) (i : nat) (ks : list string) : M (list bool * HostPool Tensor) :=
  match ks with
  | [] => mret ([], p)
  | k :: ks' =>
      match idx !! Z.to_nat (Z.of_nat i * psz) with
      | None => py_raise IndexError
      | Some off =>
          '(r, p') ← page_io write pname p k off;
          '(rs, p'') ← pages_io write pname p' psz idx (S i) ks';
          mret (r :: rs, p'')
      end
  end.

(** [getattr(host_pool, "page_size", 1) or 1] *)
Definition pool_page_size (p : HostPool Tensor) : Z := if page_size p =? 0 then 1 else page_size p.

Fixpoint batch_io_loop (write : bool) (pools : Pools) (ts : list PoolTransfer)
    (results : list (string * list bool)) : M (list (string * list bool) * Pools) :=
  match ts with
  | [] => mret (results, pools)
  | t :: ts' =>
      match dict_get (name t) pools with
      | None => py_raise KeyError
      | Some p =>
          let ks := default [] (keys t) in
          let psz := pool_page_size p in
          match host_indices t with
          | Some idx =>
              if Z.of_nat (length idx) =? Z.of_nat (length ks) * psz then
                '(rs, p') ← pages_io write (name t) p psz idx 0 ks;
                batch_io_loop write (dict_set (name t) p' pools) ts'
                  (dict_set (name t) rs results)
              else
                batch_io_loop write pools ts'
                  (dict_set (name t) (replicate (length ks) false) results)
          | None =>
              batch_io_loop write pools ts'
                (dict_set (name t) (replicate (length ks) false) results)
          end
      end
  end.

Definition _batch_io_v2 (pools : Pools) (ts : list PoolTransfer) (write : bool) :
    M (list (string * list bool) * Pools) :=
  r ← batch_io_loop write pools ts [];
  _ ← _flush_index;
  mret r.

Definition batch_get_v2 (pools : Pools) (ts : list PoolTransfer) := _batch_io_v2 pools ts false.
Definition batch_set_v2 (pools : Pools) (ts : list PoolTransfer) := _batch_io_v2 pools ts true.

Fixpoint evict_all (ks : list string) : M unit :=
  match ks with
  | [] => mret tt
  | k :: ks' => _ ← _evict_one k; evict_all ks'
  end.

Definition clear : M unit :=
  s ← py_get;
  _ ← evict_all (dict_keys (index_ s));
  _flush_index.

Record Stats := mkStats { st_max : Z; st_total : Z; st_pages : nat }.

Definition get_stats (s : Disk) : Stats :=
  mkStats max_disk_bytes (total_bytes s) (length (index_ s)).
End backend.

(** [DiskOffloadBackend.__init__]: the budget and directory resolved from [extra_config],
    the environment and the defaults ([or] skips empty strings and zero), then the index. *)
Definition resolve_dir (extra env : option string) (dflt : string) : string :=
  or_str extra (or_str env dflt).

(** [env] is the number a non-empty environment variable holds. *)
Definition resolve_space_mb (extra env : option Z) (dflt : Z) : Z :=
  match extra with
  | Some d => if d =? 0 then default dflt env else d
  | None => default dflt env
  end.

Definition budget_bytes (max_disk_space_mb : Z) : Z := max_disk_space_mb * 1024 * 1024.

(** A backend opened on [disk]: its index and the budget it will enforce. *)
Definition init_backend (dir_stat : string -> Z * Z) (dir : string)
    (disk : gmap string File) : Outcome unit * Disk :=
  _load_index dir_stat dir (mkDisk disk [] 0 false 0 0).
