(* ===== verification/DiskOffloadProofs.v ===== *)
(** * Properties of DiskOffloadBackend

    The accounting invariant of the page index and that every operation keeps it, what
    budget enforcement evicts (least recently accessed first, no more than needed), the
    round trips of pages and of the saved index, the longest-prefix queries, and the places
    where the code does less than its documentation says. *)

From stdpp Require Import base tactics list gmap strings sorting.
From Stdlib Require Import ZArith Lia Ascii.
From Stdlib Require Import Strings.Byte.
From S2P Require Import Prelude PyStr FileSys Storage DiskOffload.

(** The accounting invariant: one entry per key, and the byte total is the sum of sizes. *)
Definition disk_inv (s : Disk) : Prop :=
  NoDup (dict_keys (index_ s)) /\ total_bytes s = dict_sum size (index_ s).

(** Keys that name a page under [pages/] and nothing else. *)
Definition rel_key (k : string) : Prop := startswith "/" k = false.

(** The index holds exactly [i], with byte total [t]. *)
Definition index_is (i : list (string * PageInfo)) (t : Z) (s : Disk) : Prop :=
  index_ s = i /\ total_bytes s = t.

Ltac pystep := unfold mbind, PyM_bind, mret, PyM_ret, py_get, py_modify, py_raise in *; simpl in *.

Section proofs.
Context {Tensor : Type}.
Context (torch_save : Tensor -> list byte) (torch_load : list byte -> option Tensor).
Context (time_time : nat -> Z) (io_fault : nat -> bool).
Context (partial_write : nat -> option (list byte)) (dir_stat : string -> Z * Z).
Context (dir : string) (max : Z).

Local Abbreviation page_path := (_page_path dir).
Local Abbreviation write_file := (write_file time_time io_fault partial_write).
Local Abbreviation evict_one := (_evict_one io_fault dir).
Local Abbreviation evict_loop := (evict_loop io_fault dir).
Local Abbreviation enforce := (_enforce_budget io_fault dir max).
Local Abbreviation flush := (_flush_index time_time io_fault partial_write dir).
Local Abbreviation save := (_save_index time_time io_fault partial_write dir).
Local Abbreviation touch := (_touch_access time_time).
Local Abbreviation set_body :=
  (set_body torch_save time_time io_fault partial_write dir_stat dir max).
Local Abbreviation set := (set torch_save time_time io_fault partial_write dir_stat dir max).
Local Abbreviation get := (get torch_load time_time dir).

(** ** The index is untouched by the file-system calls *)

Lemma io_call_index i t : preserves (index_is i t) (io_call io_fault).
Proof. intros s [Hi Ht]. split; simpl; done. Qed.

Lemma write_file_index path c i t : preserves (index_is i t) (write_file path c).
Proof.
  intros s [Hi Ht]. unfold DiskOffload.write_file, io_call. pystep.
  destruct (io_fault (io s)); simpl; [destruct (partial_write (io s)); simpl|]; done.
Qed.

Lemma os_replace_index a b i t : preserves (index_is i t) (os_replace io_fault a b).
Proof.
  intros s [Hi Ht]. unfold os_replace, io_call. pystep.
  destruct (io_fault (io s)); simpl; [done|]. destruct (fs s !! a); done.
Qed.

Lemma os_remove_index p i t : preserves (index_is i t) (os_remove io_fault p).
Proof.
  intros s [Hi Ht]. unfold os_remove, io_call. pystep.
  destruct (io_fault (io s)); simpl; [done|]. destruct (fs s !! p); done.
Qed.

Lemma set_dirty_index b i t : preserves (index_is i t) (py_modify (set_dirty b)).
Proof. intros s [Hi Ht]. done. Qed.

Lemma now_index i t : preserves (index_is i t) (now time_time).
Proof. intros s [Hi Ht]. done. Qed.

Hint Resolve io_call_index write_file_index os_replace_index os_remove_index
  set_dirty_index now_index : pydb.

Lemma save_index_index i t : preserves (index_is i t) save.
Proof. unfold _save_index. repeat (eauto with pydb; apply preserves_bind; intros). Qed.
Hint Resolve save_index_index : pydb.

Lemma flush_index_index i t : preserves (index_is i t) flush.
Proof.
  unfold _flush_index. apply preserves_bind; [eauto with pydb|]. intros s.
  apply preserves_if; [|eauto with pydb]. apply preserves_bind; eauto with pydb.
Qed.

(** A computation that keeps every [index_is] keeps the invariant. *)
Lemma index_is_inv {A} (m : PyM Disk A) :
  (forall i t, preserves (index_is i t) m) -> preserves disk_inv m.
Proof.
  intros H s [Hn Ht]. destruct (H (index_ s) (total_bytes s) s) as [E1 E2]; [done|].
  unfold disk_inv. by rewrite E1, E2.
Qed.

(** ** Evicting one page *)

Lemma evict_one_eff key s :
  exists s', evict_one key s = (Ret tt, s') /\
    index_ s' = dict_pop key (index_ s) /\
    total_bytes s' = total_bytes s - default 0 (size <$> dict_get key (index_ s)) /\
    (forall p, p <> page_path key -> fs s' !! p = fs s !! p) /\
    (dict_get key (index_ s) <> None -> io_fault (io s) = false -> fs s' !! page_path key = None) /\
    (io s <= io s')%nat /\ clk s' = clk s.
Proof.
  unfold _evict_one, os_remove, io_call, py_try, _mark_dirty. pystep.
  destruct (dict_get key (index_ s)) as [info|] eqn:E; simpl.
  - destruct (io_fault (io s)); simpl.
    { eexists; split; [done|]. simpl. split_and!; [done|done|done|done|lia|done]. }
    destruct (fs s !! page_path key) eqn:Ef; simpl; (eexists; split; [done|]); simpl.
    + split_and!; [done|done| | |lia|done].
      * intros p Hp. by rewrite lookup_delete_ne.
      * intros _ _. apply lookup_delete_eq.
    + split_and!; [done|done|done|done|lia|done].
  - exists s. split; [done|]. rewrite dict_pop_absent by done.
    split_and!; [done|simpl; lia|done|done|lia|done].
Qed.

Lemma evict_one_inv key : preserves disk_inv (evict_one key).
Proof.
  intros s [Hn Ht]. destruct (evict_one_eff key s) as (s' & -> & Hi & Hb & _). simpl.
  split; [rewrite Hi; by apply dict_pop_NoDup|]. rewrite Hb, Hi, Ht.
  destruct (dict_get key (index_ s)) eqn:E; simpl.
  - by erewrite dict_sum_pop.
  - rewrite dict_pop_absent by done. lia.
Qed.

(** ** The eviction loop removes a prefix of the list it is given *)

Lemma evict_loop_spec target l s :
  disk_inv s -> index_ s ≡ₚ l ->
  exists s' ev kept, evict_loop target l.*1 s = (Ret tt, s') /\ disk_inv s' /\
    l = ev ++ kept /\ index_ s' ≡ₚ kept /\ index_ s' `sublist_of` index_ s /\
    (total_bytes s' <= target \/ kept = []) /\
    (forall ev0 x, ev = ev0 ++ [x] -> target < total_bytes s' + size x.2) /\
    (forall p, (forall x, x ∈ ev -> p <> page_path x.1) -> fs s' !! p = fs s !! p).
Proof.
  revert s. induction l as [|[k info] l IH]; intros s Hinv Hp; simpl.
  { exists s, [], []. split_and!; try done; [by right|]. intros ev0 x H. by destruct ev0. }
  pystep. destruct (Z.leb_spec (total_bytes s) target) as [Hle|Hgt].
  { exists s, [], ((k, info) :: l). split_and!; try done; [by left|].
    intros ev0 x H. by destruct ev0. }
  pose proof (evict_one_inv k s Hinv) as Hinv1.
  destruct (evict_one_eff k s) as (s1 & Hev & Hi & Ht & Hf & _). rewrite Hev in *. simpl in *.
  assert (dict_get k (index_ s) = Some info) as Hg.
  { apply dict_in_get; [apply Hinv|]. rewrite Hp. left. }
  assert (index_ s1 ≡ₚ l) as Hp1.
  { rewrite Hi. apply (Permutation_cons_inv (a := (k, info))). rewrite <-Hp.
    symmetry. by apply dict_pop_perm. }
  destruct (IH s1 Hinv1 Hp1) as (s' & ev & kept & He & Hinv' & -> & Hk & Hs & Hb & Hmin & Hfr).
  exists s', ((k, info) :: ev), kept. split_and!; try done.
  - etrans; [done|]. rewrite Hi. apply dict_pop_sublist.
  - intros ev0 x Hx. destruct ev0 as [|y ev0]; simplify_eq/=; [|by eapply Hmin].
    assert (total_bytes s' = total_bytes s1) as ->; [|rewrite Ht, Hg; simpl; lia].
    destruct Hinv' as [_ ->], Hinv1 as [_ ->]. apply dict_sum_perm. by rewrite Hk, Hp1.
  - intros p Hx. rewrite Hfr, Hf; [done| |].
    + apply (Hx (k, info)). left.
    + intros x Hxe. apply Hx. by right.
Qed.

(** [_enforce_budget]: nothing is done when there is no budget or the page fits. *)
Lemma enforce_noop needed s :
  max <= 0 \/ total_bytes s + needed <= max -> enforce needed s = (Ret tt, s).
Proof.
  unfold _enforce_budget. intros H. destruct (Z.leb_spec max 0); [done|]. pystep.
  destruct (Z.leb_spec (total_bytes s) (max - needed)); [done|lia].
Qed.

Lemma enforce_spec needed s :
  disk_inv s ->
  exists s' ev kept, enforce needed s = (Ret tt, s') /\ disk_inv s' /\
    py_sorted (fun kv => last_access kv.2) (index_ s) = ev ++ kept /\
    index_ s' ≡ₚ kept /\ index_ s' `sublist_of` index_ s /\
    (0 < max -> total_bytes s' + needed <= max \/ kept = []) /\
    (forall ev0 x, ev = ev0 ++ [x] -> max < total_bytes s' + needed + size x.2) /\
    (forall p, (forall x, x ∈ ev -> p <> page_path x.1) -> fs s' !! p = fs s !! p).
Proof.
  intros Hinv. unfold _enforce_budget.
  pose proof (py_sorted_perm (fun kv : string * PageInfo => last_access kv.2) (index_ s)) as Hp.
  symmetry in Hp.
  destruct (Z.leb_spec max 0) as [|Hmax].
  { exists s, [], (py_sorted (fun kv => last_access kv.2) (index_ s)).
    split_and!; try done; [lia|]. by intros [|? ?]. }
  pystep. destruct (Z.leb_spec (total_bytes s) (max - needed)) as [|].
  { exists s, [], (py_sorted (fun kv => last_access kv.2) (index_ s)).
    split_and!; try done; [left; lia|]. by intros [|? ?]. }
  destruct (evict_loop_spec (max - needed)
    (py_sorted (fun kv => last_access kv.2) (index_ s)) s Hinv)
    as (s' & ev & kept' & He & Hinv' & Hev & Hk' & Hsub & Hb & Hmin & Hfr); [done|].
  exists s', ev, kept'. unfold lru_order. rewrite He. split_and!; try done.
  - intros _. destruct Hb; [left; lia|by right].
  - intros ev0 x Hx. specialize (Hmin ev0 x Hx). lia.
Qed.

(** ** Paths: pages and index files never coincide *)

Lemma pages_prefix : path_prefix (pages_dir dir) = path_prefix dir +:+ "pages/".
Proof.
  unfold pages_dir. rewrite path_join_relative by done. unfold path_prefix at 1.
  assert (endswith "/" (path_prefix dir +:+ "pages") = false) as ->.
  { apply not_true_iff_false. rewrite endswith_spec. intros [r Hr].
    apply (f_equal chars) in Hr. rewrite !chars_app in Hr. change (chars "/") with ["/"%char] in Hr.
    change (chars "pages") with (["p"; "a"; "g"; "e"] ++ ["s"])%char in Hr.
    rewrite app_assoc in Hr. apply app_inj_tail in Hr as [_ Hr]. done. }
  unfold is_empty_str. rewrite bool_decide_eq_false_2.
  - simpl. by rewrite str_app_assoc.
  - intros H. apply (f_equal chars) in H. rewrite chars_app in H.
    by apply app_eq_nil in H as [_ ?].
Qed.

Lemma rel_key_pt k : rel_key k -> startswith "/" (k +:+ ".pt") = false.
Proof.
  unfold rel_key, startswith. rewrite chars_app. destruct (chars k) as [|a l] eqn:E; simpl; [done|].
  case_decide; done.
Qed.

Lemma page_path_eq k : rel_key k -> page_path k = path_prefix dir +:+ "pages/" +:+ k +:+ ".pt".
Proof.
  intros Hk. unfold _page_path. rewrite path_join_relative by by apply rel_key_pt.
  by rewrite pages_prefix, str_app_assoc.
Qed.

Lemma page_path_inj k k' : rel_key k -> rel_key k' -> page_path k = page_path k' -> k = k'.
Proof.
  intros Hk Hk'. rewrite !page_path_eq by done.
  intros H. apply str_app_inj_l, str_app_inj_l, str_app_inj_r in H. done.
Qed.

Lemma page_path_not_index k :
  rel_key k -> page_path k <> index_path dir /\ page_path k <> index_tmp dir.
Proof.
  intros Hk. rewrite page_path_eq by done. unfold index_tmp, index_path.
  rewrite !path_join_relative by done. rewrite str_app_assoc.
  split; intros H; apply str_app_inj_l in H; discriminate H.
Qed.

(** ** Saving the index *)

Lemma save_index_fs s p :
  p <> index_path dir -> p <> index_tmp dir -> fs (snd (save s)) !! p = fs s !! p.
Proof.
  intros H1 H2. unfold _save_index, DiskOffload.write_file, os_replace, io_call. pystep.
  destruct (io_fault (io s)); simpl.
  - destruct (partial_write (io s)); simpl; [by rewrite lookup_insert_ne|done].
  - destruct (io_fault (S (io s))); simpl; [by rewrite lookup_insert_ne|].
    rewrite lookup_insert_eq. simpl.
    by rewrite lookup_insert_ne, lookup_delete_ne, lookup_insert_ne.
Qed.

Lemma flush_fs s p :
  p <> index_path dir -> p <> index_tmp dir -> fs (snd (flush s)) !! p = fs s !! p.
Proof.
  intros H1 H2. pose proof (save_index_fs s p H1 H2) as H. unfold _flush_index. pystep.
  destruct (dirty s); [|done]. destruct (save s) as [[|e|] s']; done.
Qed.

(** A call that fails raises [OSError]; if both succeed, the document is in place. *)
Lemma save_index_cases s :
  if io_fault (io s) || io_fault (S (io s))
  then fst (save s) = Raise OSError /\ fs (snd (save s)) !! index_path dir = fs s !! index_path dir
  else fst (save s) = Ret tt /\ exists t,
      fs (snd (save s)) !! index_path dir =
        Some (mkFile (Json (mkIndexDoc (Some (index_ s)) (Some (total_bytes s)))) t).
Proof.
  assert (index_tmp dir <> index_path dir) as Hne.
  { unfold index_tmp. intros H. apply (f_equal (fun s => length (chars s))) in H.
    rewrite chars_app, length_app in H. simpl in H. lia. }
  unfold _save_index, DiskOffload.write_file, os_replace, io_call. pystep.
  destruct (io_fault (io s)); simpl.
  - split; [destruct (partial_write (io s)); done|].
    destruct (partial_write (io s)); simpl; [by rewrite lookup_insert_ne|done].
  - destruct (io_fault (S (io s))); simpl.
    + split; [done|]. by rewrite lookup_insert_ne.
    + rewrite lookup_insert_eq. simpl. split; [done|]. rewrite lookup_insert_eq. eauto.
Qed.

Lemma flush_outcome s : fst (flush s) = Ret tt \/ fst (flush s) = Raise OSError.
Proof.
  unfold _flush_index. pystep. destruct (dirty s); [|by left].
  pose proof (save_index_cases s) as H. destruct (_ || _); destruct H as [H _]; destruct (save s) as [o s']; simpl in *;
    subst; [by right|by left].
Qed.

(** ** The accounting invariant, operation by operation *)

Lemma touch_inv key : preserves disk_inv (touch key).
Proof.
  intros s [Hn Ht]. unfold _touch_access, now, _mark_dirty. pystep.
  destruct (dict_get key (index_ s)) as [info|] eqn:E; simpl; [|done].
  split; simpl; [by apply dict_set_NoDup|]. erewrite dict_sum_set by done. simpl. lia.
Qed.

Lemma get_inv key : preserves disk_inv (get key).
Proof.
  unfold DiskOffload.get. apply preserves_bind; [eauto with pydb|]. intros s.
  repeat case_match; eauto using touch_inv with pydb.
Qed.

Lemma flush_inv : preserves disk_inv flush.
Proof. apply index_is_inv. apply flush_index_index. Qed.

(** What [set] does once the key is known to be absent. *)
Lemma set_body_spec key v s :
  disk_inv s -> key ∉ dict_keys (index_ s) ->
  (fst (set_body key v s) = Raise OSError /\
     index_is (index_ s) (total_bytes s) (snd (set_body key v s))) \/
  exists s1 s2 t, index_is (index_ s) (total_bytes s) s1 /\
    (forall p, p <> page_path key -> fs s1 !! p = fs s !! p) /\
    (exists m, fs s1 !! page_path key = Some (mkFile (Raw (torch_save v)) m)) /\
    enforce (Z.of_nat (length (torch_save v))) s1 = (Ret tt, s2) /\
    index_ (snd (set_body key v s)) =
      index_ s2 ++ [(key, mkPageInfo (Z.of_nat (length (torch_save v))) t)] /\
    total_bytes (snd (set_body key v s)) = total_bytes s2 + Z.of_nat (length (torch_save v)) /\
    (forall p, p <> index_path dir -> p <> index_tmp dir ->
       fs (snd (set_body key v s)) !! p = fs s2 !! p) /\
    (fst (set_body key v s) = Ret true \/ fst (set_body key v s) = Raise OSError).
Proof.
  intros Hinv Hkey. unfold DiskOffload.set_body, DiskOffload.write_file, io_call. pystep.
  destruct (io_fault (io s)) eqn:Hf; simpl.
  { left. destruct (partial_write (io s)); simpl; split; done. }
  right. unfold stat. simpl. rewrite lookup_insert_eq. simpl.
  set (s1 := set_fs _ _).
  assert (disk_inv s1) as Hinv1 by done.
  destruct (enforce_spec (Z.of_nat (length (torch_save v))) s1 Hinv1)
    as (s2 & ev & kept & He & Hinv2 & _ & _ & Hsub & _).
  rewrite He. simpl.
  assert (key ∉ dict_keys (index_ s2)) as Hk2.
  { intros Hin. apply Hkey. unfold dict_keys in *. apply list_elem_of_fmap in Hin as ([k i] & -> & Hin).
    apply list_elem_of_fmap. exists (k, i). split; [done|]. by eapply elem_of_sublist. }
  match goal with |- context [flush ?x] => set (s3 := x) end.
  destruct (flush_index_index (index_ s3) (total_bytes s3) s3) as [Hi Ht]; [done|].
  pose proof (flush_fs s3) as Hfs. pose proof (flush_outcome s3) as Ho.
  destruct (flush s3) as [o s4]; simpl in *.
  exists s1, s2, (time_time (clk s2)).
  destruct Ho as [-> | ->]; simpl; (split_and!; try done;
    [intros; by rewrite lookup_insert_ne|rewrite lookup_insert_eq; eauto|
     by rewrite Hi, dict_set_keys_new| naive_solver]).
Qed.

(** On a disk whose calls succeed, the body of [set] returns [True]. *)
Lemma set_body_no_fault key v s :
  (forall n, io_fault n = false) -> disk_inv s -> fst (set_body key v s) = Ret true.
Proof.
  intros Hio Hinv. unfold DiskOffload.set_body, DiskOffload.write_file, io_call. pystep.
  rewrite Hio. simpl. unfold stat. simpl. rewrite lookup_insert_eq. simpl.
  edestruct (enforce_spec (Z.of_nat (length (torch_save v)))) as (x & ? & ? & -> & _);
    [exact Hinv|]. simpl.
  unfold _flush_index, _save_index, DiskOffload.write_file, os_replace, io_call. pystep.
  rewrite !Hio. simpl. rewrite Hio. simpl. rewrite lookup_insert_eq. done.
Qed.

Lemma set_inv key v : preserves disk_inv (set key v).
Proof.
  intros s Hinv. unfold DiskOffload.set. destruct v as [v|]; [|done].
  unfold py_get, mbind, PyM_bind. simpl. destruct (dict_mem key (index_ s)) eqn:E; simpl.
  - revert Hinv. apply (preserves_bind disk_inv (touch key)); [apply touch_inv|]. intros _.
    apply (preserves_bind disk_inv flush); [apply flush_inv|]. intros _. apply preserves_ret.
  - assert (key ∉ dict_keys (index_ s)) as Hk.
    { apply dict_get_None. unfold dict_mem in E. by destruct (dict_get key (index_ s)). }
    assert (disk_inv (snd (set_body key v s))) as H.
    { destruct (set_body_spec key v s Hinv Hk)
        as [[_ [Hi Ht]]|(s1 & s2 & t & [Hi1 Ht1] & _ & _ & He & Hi & Ht & _)].
      - destruct Hinv. split; [by rewrite Hi|by rewrite Hi, Ht].
      - assert (disk_inv s1) as Hinv1 by (destruct Hinv; split; congruence).
        destruct (enforce_spec (Z.of_nat (length (torch_save v))) s1 Hinv1)
          as (s2' & ev & kept & He' & [Hn2 Ht2] & _ & _ & Hsub & _).
        rewrite He in He'. simplify_eq.
        assert (key ∉ dict_keys (index_ s2')) as Hk2.
        { intros Hin. apply Hk. rewrite <-Hi1. unfold dict_keys in *.
          apply list_elem_of_fmap in Hin as ([k i] & -> & Hin).
          apply list_elem_of_fmap. exists (k, i). split; [done|]. by eapply elem_of_sublist. }
        split; rewrite Hi.
        + rewrite <-dict_set_keys_new by done. by apply dict_set_NoDup.
        + rewrite Ht, Ht2, dict_sum_app. unfold dict_sum. simpl. lia. }
    unfold py_try. destruct (set_body key v s) as [[|e|] s']; done.
Qed.

Lemma evict_all_inv ks : preserves disk_inv (evict_all io_fault dir ks).
Proof.
  induction ks as [|k ks IH]; simpl; [apply preserves_ret|].
  apply preserves_bind; [apply evict_one_inv|done].
Qed.

Lemma clear_inv : preserves disk_inv (clear time_time io_fault partial_write dir).
Proof.
  unfold clear. apply preserves_bind; [apply preserves_get|]. intros s.
  apply preserves_bind; [apply evict_all_inv|]. intros _. apply flush_inv.
Qed.

Lemma batch_get_inv ks : preserves disk_inv (batch_get torch_load time_time dir ks).
Proof.
  induction ks as [|k ks IH]; simpl; [apply preserves_ret|].
  apply preserves_bind; [apply get_inv|]. intros d. apply preserves_bind; eauto with pydb.
Qed.

Local Abbreviation batch_set_loop :=
  (batch_set_loop torch_save time_time io_fault partial_write dir_stat dir max).
Local Abbreviation batch_io_loop :=
  (batch_io_loop torch_save torch_load time_time io_fault partial_write dir_stat dir max).
Local Abbreviation pages_io :=
  (pages_io torch_save torch_load time_time io_fault partial_write dir_stat dir max).

Lemma batch_set_inv ks vs :
  preserves disk_inv
    (batch_set torch_save time_time io_fault partial_write dir_stat dir max ks vs).
Proof.
  unfold batch_set. destruct vs as [vs|]; [|apply preserves_ret].
  apply preserves_bind.
  - generalize true. induction (zip ks vs) as [|[k v] l IH]; intros ok; simpl; [apply preserves_ret|].
    apply preserves_bind; [apply (set_inv k (Some v))|]. intros r. apply IH.
  - intros ok. apply preserves_bind; [apply flush_inv|]. intros _. apply preserves_ret.
Qed.

Lemma pages_io_inv w n p psz idx i ks : preserves disk_inv (pages_io w n p psz idx i ks).
Proof.
  revert p i. induction ks as [|k ks IH]; intros p i; simpl; [apply preserves_ret|].
  destruct (idx !! _) as [off|]; [|apply preserves_raise].
  apply preserves_bind.
  - unfold page_io. apply preserves_if; (apply preserves_bind; [eauto using set_inv, get_inv|]);
      intros; repeat case_match; apply preserves_ret.
  - intros [r p']. apply preserves_bind; [apply IH|]. intros [rs p'']. apply preserves_ret.
Qed.

Lemma batch_io_v2_inv pools ts w :
  preserves disk_inv
    (_batch_io_v2 torch_save torch_load time_time io_fault partial_write dir_stat dir max
       pools ts w).
Proof.
  unfold _batch_io_v2. apply preserves_bind.
  - generalize (@nil (string * list bool)) as res. revert pools.
    induction ts as [|t ts IH]; intros pools res; simpl; [apply preserves_ret|].
    destruct (dict_get _ _) as [p|]; [|apply preserves_raise].
    destruct (host_indices t) as [idx|]; [|apply IH].
    apply preserves_if; [|apply IH].
    apply preserves_bind; [apply pages_io_inv|]. intros [rs p']. apply IH.
  - intros r. apply preserves_bind; [apply flush_inv|]. intros _. apply preserves_ret.
Qed.

(** ** Rebuilding the index from the directory *)

Lemma str_drop_pt r : str_drop_last 3 (r +:+ ".pt") = r.
Proof. exact (str_drop_last_app r ".pt"). Qed.

(** The entry that a listed name gives to the index. *)
Definition rebuilt (s : Disk) (k : string) : option PageInfo :=
  match stat dir_stat (path_join (pages_dir dir) (k +:+ ".pt")) s with
  | Some (sz, mt) => Some (mkPageInfo sz mt)
  | None => None
  end.

Lemma rebuild_loop_spec names s :
  NoDup names -> disk_inv s ->
  (forall k, k +:+ ".pt" ∈ names -> dict_get k (index_ s) = None) ->
  exists s', rebuild_loop dir_stat dir names s = (Ret tt, s') /\ fs s' = fs s /\ disk_inv s' /\
    forall k, dict_get k (index_ s') =
      if decide (k +:+ ".pt" ∈ names) then rebuilt s k else dict_get k (index_ s).
Proof.
  revert s. induction names as [|nm names IH]; intros s Hnd Hinv Hfresh.
  { exists s. by split_and!. }
  apply NoDup_cons in Hnd as [Hnm Hnd].
  assert (exists s1, rebuild_entry dir_stat dir nm s = (Ret tt, s1) /\ fs s1 = fs s /\ disk_inv s1 /\
    forall k, dict_get k (index_ s1) =
      if decide (k +:+ ".pt" = nm) then rebuilt s k else dict_get k (index_ s))
    as (s1 & He & Hfs & Hinv1 & Hg).
  { unfold rebuild_entry. destruct (endswith ".pt" nm) eqn:E.
    - apply endswith_spec in E as [r ->]. pystep. rewrite str_drop_pt.
      assert (dict_get r (index_ s) = None) as Hr by (apply Hfresh; left).
      pose proof Hr as Hr'. apply dict_get_None in Hr'. destruct Hinv as [Hn Ht].
      destruct (stat _ _ s) as [[sz mt]|] eqn:Es; simpl; (eexists; split; [done|]); simpl.
      + split_and!; [done| |].
        * split; simpl; [by apply dict_set_NoDup|].
          rewrite dict_set_keys_new, dict_sum_app by done. unfold dict_sum at 2. simpl. lia.
        * intros k. destruct (decide (k = r)) as [->|Hne].
          -- rewrite dict_get_set_eq, decide_True by done. unfold rebuilt. by rewrite Es.
          -- rewrite dict_get_set_ne, decide_False; [done| |done]. by intros ?%str_app_inj_r.
      + split_and!; [done|done|]. intros k. case_decide as Hk; [|done].
        apply str_app_inj_r in Hk as ->. unfold rebuilt. by rewrite Es, Hr.
    - exists s. split_and!; try done. intros k. rewrite decide_False; [done|].
      intros <-. assert (endswith ".pt" (k +:+ ".pt") = true); [|congruence].
      apply endswith_spec. eauto. }
  destruct (IH s1 Hnd Hinv1) as (s' & Hl & Hfs' & Hinv' & Hg').
  { intros k Hk. rewrite Hg. rewrite decide_False by set_solver. apply Hfresh. by right. }
  exists s'. simpl. erewrite py_bind_Ret by exact He. split_and!; [done|congruence|done|].
  intros k. rewrite Hg', Hg. unfold rebuilt, stat. rewrite Hfs.
  destruct (decide (k +:+ ".pt" ∈ names)); destruct (decide (k +:+ ".pt" = nm));
    destruct (decide (k +:+ ".pt" ∈ nm :: names)); set_solver.
Qed.
End proofs.

(** ** Running a backend: any sequence of requests *)

Inductive DiskOp (Tensor : Type) :=
  | DGet (key : string)
  | DSet (key : string) (value : option Tensor)
  | DBatchGet (ks : list string)
  | DBatchSet (ks : list string) (values : option (list Tensor))
  | DBatchGetV2 (pools : list (string * HostPool Tensor)) (ts : list PoolTransfer)
  | DBatchSetV2 (pools : list (string * HostPool Tensor)) (ts : list PoolTransfer)
  | DClear.
Arguments DGet {Tensor}. Arguments DSet {Tensor}. Arguments DBatchGet {Tensor}.
Arguments DBatchSet {Tensor}. Arguments DBatchGetV2 {Tensor}. Arguments DBatchSetV2 {Tensor}.
Arguments DClear {Tensor}.

Section run.
Context {Tensor : Type}.
Context (torch_save : Tensor -> list byte) (torch_load : list byte -> option Tensor).
Context (time_time : nat -> Z) (io_fault : nat -> bool).
Context (partial_write : nat -> option (list byte)) (dir_stat : string -> Z * Z).
Context (dir : string) (max : Z).

(** The state after one request, whether it returned or raised. *)
Definition run_op (op : DiskOp Tensor) (s : Disk) : Disk :=
  match op with
  | DGet k => py_exec (get torch_load time_time dir k) s
  | DSet k v => py_exec (set torch_save time_time io_fault partial_write dir_stat dir max k v) s
  | DBatchGet ks => py_exec (batch_get torch_load time_time dir ks) s
  | DBatchSet ks vs =>
      py_exec (batch_set torch_save time_time io_fault partial_write dir_stat dir max ks vs) s
  | DBatchGetV2 ps ts =>
      py_exec (batch_get_v2 torch_save torch_load time_time io_fault partial_write dir_stat
                 dir max ps ts) s
  | DBatchSetV2 ps ts =>
      py_exec (batch_set_v2 torch_save torch_load time_time io_fault partial_write dir_stat
                 dir max ps ts) s
  | DClear => py_exec (clear time_time io_fault partial_write dir) s
  end.

Definition run_ops (ops : list (DiskOp Tensor)) (s : Disk) : Disk :=
  foldl (fun s op => run_op op s) s ops.

(** C27. Whatever requests a backend serves, in any order, with any of its disk calls
    failing, the byte total it keeps is the sum of the sizes in its index and no page is
    indexed twice, provided this held when it started. *)
Theorem disk_accounting (ops : list (DiskOp Tensor)) (s : Disk) :
  disk_inv s -> disk_inv (run_ops ops s).
Proof.
  revert s. induction ops as [|op ops IH]; intros s Hs; [done|]. apply IH.
  destruct op; simpl; unfold py_exec.
  - by apply get_inv.
  - by apply set_inv.
  - by apply batch_get_inv.
  - by apply batch_set_inv.
  - by apply batch_io_v2_inv.
  - by apply batch_io_v2_inv.
  - by apply clear_inv.
Qed.

(** C28. Budget enforcement is LRU and evicts no more than it must: the index in access
    order splits into evicted pages and kept pages, every evicted page was accessed no
    later than every kept one, the kept pages fit beside the new page unless none is left,
    and giving back the last victim would exceed the budget. *)
Theorem enforce_budget_lru (needed : Z) (s : Disk) :
  disk_inv s -> 0 < max ->
  exists s' evicted kept,
    _enforce_budget io_fault dir max needed s = (Ret tt, s') /\
    index_ s ≡ₚ evicted ++ kept /\ index_ s' ≡ₚ kept /\
    index_ s' `sublist_of` index_ s /\
    (forall x y, x ∈ evicted -> y ∈ kept -> last_access x.2 <= last_access y.2) /\
    (total_bytes s' + needed <= max \/ kept = []) /\
    (evicted = [] \/ exists x, x ∈ evicted /\ max < total_bytes s' + needed + size x.2).
Proof.
  intros Hinv Hmax.
  destruct (enforce_spec io_fault dir max needed s Hinv)
    as (s' & ev & kept & He & Hinv' & Hs & Hk & Hsub & Hb & Hmin & _).
  exists s', ev, kept. split_and!; try done; [| |auto|].
  - rewrite <-Hs. symmetry. apply py_sorted_perm.
  - intros x y Hx Hy.
    pose proof (py_sorted_sorted (fun kv : string * PageInfo => last_access kv.2) (index_ s)) as HS.
    rewrite Hs in HS. clear -HS Hx Hy. induction ev as [|z ev IH]; [by apply elem_of_nil in Hx|].
    simpl in HS. apply StronglySorted_inv in HS as [HS Hz].
    apply elem_of_cons in Hx as [->|Hx]; [|by apply IH].
    rewrite Forall_forall in Hz. apply (Hz y). apply elem_of_app. by right.
  - destruct ev as [|x ev _] using rev_ind; [by left|right].
    exists x. split; [apply elem_of_app; right; left|]. by apply (Hmin ev).
Qed.

(** C29. A page stored under a new key can be read back: with a working disk, [set] returns
    [True] and [get] of the same key then returns the tensor, whatever was evicted to make
    room for it. *)
Theorem set_get_roundtrip (key : string) (v : Tensor) (s : Disk) :
  (forall w, torch_load (torch_save w) = Some w) ->
  (forall n, io_fault n = false) ->
  disk_inv s -> (forall k, k ∈ dict_keys (index_ s) -> rel_key k) -> rel_key key ->
  key ∉ dict_keys (index_ s) ->
  let '(r, s') := set torch_save time_time io_fault partial_write dir_stat dir max key (Some v) s in
  r = Ret true /\ fst (get torch_load time_time dir key s') = Ret (Some v).
Proof.
  intros Hrt Hio Hinv Hrel Hkey Hnew.
  assert (dict_mem key (index_ s) = false) as Hm.
  { unfold dict_mem. apply dict_get_None in Hnew. by rewrite Hnew. }
  unfold set. unfold py_get, mbind, PyM_bind. simpl. rewrite Hm.
  destruct (set_body_spec torch_save time_time io_fault partial_write dir_stat dir max
    key v s Hinv Hnew) as [[Hr _]|(s1 & s2 & t & [Hi1 Ht1] & _ & [m Hp] & He & Hi & Ht & Hfs & Ho)].
  { by rewrite set_body_no_fault in Hr. }
  assert (fst (set_body torch_save time_time io_fault partial_write dir_stat dir max key v s)
    = Ret true) as Hok by by apply set_body_no_fault.
  unfold py_try. destruct (set_body _ _ _ _ _ _ _ key v s) as [o s'] eqn:Es. simpl in *. subst o.
  split; [done|]. unfold get. pystep.
  destruct (page_path_not_index dir key Hkey) as [Hn1 Hn2].
  rewrite Hfs by done.
  assert (disk_inv s1) as Hinv1 by (destruct Hinv; split; congruence).
  destruct (enforce_spec io_fault dir max (Z.of_nat (length (torch_save v))) s1 Hinv1)
    as (s2' & ev & kept & He' & _ & Hs & _ & _ & _ & _ & Hfr).
  rewrite He in He'. simplify_eq. rewrite Hfr, Hp.
  - simpl. rewrite Hrt. unfold _touch_access, now, _mark_dirty. pystep. by repeat case_match.
  - intros x Hx Heq. apply Hnew. rewrite <-Hi1. apply page_path_inj in Heq as ->; [|done|].
    + apply list_elem_of_fmap. exists x. split; [done|].
      rewrite <-(py_sorted_perm (fun kv => last_access kv.2)), Hs. set_solver.
    + apply Hrel. rewrite <-Hi1. apply list_elem_of_fmap. exists x. split; [done|].
      rewrite <-(py_sorted_perm (fun kv => last_access kv.2)), Hs. set_solver.
Qed.

Local Abbreviation set_ := (set torch_save time_time io_fault partial_write dir_stat dir max).
Local Abbreviation save_ := (_save_index time_time io_fault partial_write dir).

(** The body of [set] run on a new key, and the index it leaves. *)
Lemma set_new_index key v s :
  disk_inv s -> key ∉ dict_keys (index_ s) -> fst (set_ key (Some v) s) = Ret true ->
  exists s2 t ev kept,
    py_sorted (fun kv => last_access kv.2) (index_ s) = ev ++ kept /\ index_ s2 ≡ₚ kept /\
    disk_inv s2 /\
    (0 < max -> total_bytes s2 + Z.of_nat (length (torch_save v)) <= max \/ kept = []) /\
    index_ (snd (set_ key (Some v) s)) =
      index_ s2 ++ [(key, mkPageInfo (Z.of_nat (length (torch_save v))) t)] /\
    total_bytes (snd (set_ key (Some v) s)) =
      total_bytes s2 + Z.of_nat (length (torch_save v)).
Proof.
  intros Hinv Hnew. unfold set, py_get, mbind, PyM_bind. simpl.
  assert (dict_mem key (index_ s) = false) as ->.
  { unfold dict_mem. apply dict_get_None in Hnew. by rewrite Hnew. }
  unfold py_try.
  pose proof (set_body_spec torch_save time_time io_fault partial_write dir_stat dir max
    key v s Hinv Hnew) as Hspec.
  destruct (set_body _ _ _ _ _ _ _ key v s) as [o s']; simpl in *.
  destruct Hspec as [[-> _]|(s1 & s2 & t & [Hi1 Ht1] & _ & _ & He & Hi & Ht & _ & Ho)]; [done|].
  assert (disk_inv s1) as Hinv1 by (destruct Hinv; split; congruence).
  destruct (enforce_spec io_fault dir max (Z.of_nat (length (torch_save v))) s1 Hinv1)
    as (s2' & ev & kept & He' & Hinv2 & Hs & Hk & _ & Hb & _).
  rewrite He in He'. simplify_eq. rewrite Hi1 in Hs.
  destruct Ho as [-> | ->]; simpl; intros; [|done]. exists s2', t, ev, kept. by split_and!.
Qed.

(** C34. A page no larger than the budget never pushes the disk over it: after [set] of a
    new key returns [True] the byte total is within [max_disk_bytes]. *)
Theorem set_within_budget (key : string) (v : Tensor) (s : Disk) :
  disk_inv s -> key ∉ dict_keys (index_ s) ->
  0 < max -> Z.of_nat (length (torch_save v)) <= max ->
  fst (set_ key (Some v) s) = Ret true ->
  total_bytes (snd (set_ key (Some v) s)) <= max.
Proof.
  intros Hinv Hnew Hmax Hsz Hr.
  destruct (set_new_index key v s Hinv Hnew Hr) as (s2 & t & ev & kept & _ & Hk & [_ Ht2] & Hb & _ & ->).
  destruct (Hb Hmax) as [| ->]; [done|]. apply Permutation_nil_r in Hk.
  rewrite Ht2, Hk. unfold dict_sum. simpl. lia.
Qed.

(** A page larger than the whole budget is stored all the same: [set] returns [True],
    every other page is evicted and the byte total is above [max_disk_bytes]. *)
Theorem set_oversized_exceeds_budget (key : string) (v : Tensor) (s : Disk) :
  disk_inv s -> (forall k i, (k, i) ∈ index_ s -> 0 <= size i) ->
  key ∉ dict_keys (index_ s) ->
  0 < max < Z.of_nat (length (torch_save v)) ->
  fst (set_ key (Some v) s) = Ret true ->
  dict_keys (index_ (snd (set_ key (Some v) s))) = [key] /\
  max < total_bytes (snd (set_ key (Some v) s)).
Proof.
  intros Hinv Hpos Hnew [Hmax Hsz] Hr.
  destruct (set_new_index key v s Hinv Hnew Hr)
    as (s2 & t & ev & kept & Hs & Hk & [_ Ht2] & Hb & -> & ->).
  assert (0 <= total_bytes s2).
  { rewrite Ht2. apply dict_sum_nonneg. intros [k i]. rewrite Hk. intros Hin. apply (Hpos k).
    rewrite <-(py_sorted_perm (fun kv => last_access kv.2)), Hs. set_solver. }
  destruct (Hb Hmax) as [| ->]; [lia|]. apply Permutation_nil_r in Hk. rewrite Hk.
  split; [done|lia].
Qed.

(** C35. Saving the index is atomic and can be read back.  If the write of the temporary file
    or its renaming fails, the call raises and the index file holds what it held before, also
    when a part was written.  Otherwise it returns, and a backend opened on that disk starts
    with the same index and byte total.  No other file but the temporary one is touched. *)
Theorem save_index_atomic_reload (s : Disk) :
  let s' := snd (save_ s) in
  (if io_fault (io s) || io_fault (S (io s))
   then fst (save_ s) = Raise OSError /\ fs s' !! index_path dir = fs s !! index_path dir
   else fst (save_ s) = Ret tt /\ fst (init_backend dir_stat dir (fs s')) = Ret tt /\
     index_is (index_ s) (total_bytes s) (snd (init_backend dir_stat dir (fs s')))) /\
  (forall p, p <> index_path dir -> p <> index_tmp dir -> fs s' !! p = fs s !! p).
Proof.
  simpl. split; [|apply save_index_fs]. pose proof (save_index_cases time_time io_fault partial_write dir s) as H.
  destruct (_ || _); [done|]. destruct H as [Hr [t H]]. split; [done|]. unfold init_backend, _load_index. pystep. rewrite H. simpl. done.
Qed.

Lemma evict_all_spec ks s :
  (forall n, io_fault n = false) -> (forall k, k ∈ ks -> rel_key k) ->
  ks = dict_keys (index_ s) -> NoDup ks ->
  exists s', evict_all io_fault dir ks s = (Ret tt, s') /\ index_ s' = [] /\
    (forall k, k ∈ ks -> fs s' !! _page_path dir k = None) /\
    (forall p, fs s !! p = None -> fs s' !! p = None).
Proof.
  intros Hio. revert s. induction ks as [|k ks IH]; intros s Hrel Hks Hnd; simpl.
  { exists s. split_and!; try done; [by destruct (index_ s)|]. by intros k ?%elem_of_nil. }
  destruct (index_ s) as [|[k0 i0] rest] eqn:Ei; [done|]. simplify_eq/=.
  apply NoDup_cons in Hnd as [Hk Hnd].
  destruct (evict_one_eff io_fault dir k0 s) as (s1 & He & Hi & _ & Hf & Hgone & _).
  rewrite Ei in Hi. simpl in Hi. rewrite decide_True in Hi by done.
  assert (fs s1 !! _page_path dir k0 = None) as Hg.
  { apply Hgone; [|apply Hio]. rewrite Ei. simpl. by rewrite decide_True. }
  destruct (IH s1) as (s' & Hl & Hi' & Hgone' & Hmono);
    [intros k Hin; apply Hrel; by right|by rewrite Hi|done|].
  erewrite py_bind_Ret by exact He. exists s'. split_and!; try done.
  - intros k [->|Hin]%elem_of_cons; [by apply Hmono|by apply Hgone'].
  - intros p Hp. apply Hmono. destruct (decide (p = _page_path dir k0)) as [->|]; [done|].
    by rewrite Hf.
Qed.

(** [clear] on a working disk leaves nothing behind: it returns, the index is empty,
    the byte total is zero and the file of every page that was indexed is gone. *)
Theorem clear_removes_everything (s : Disk) :
  (forall n, io_fault n = false) -> disk_inv s ->
  (forall k, k ∈ dict_keys (index_ s) -> rel_key k) ->
  let '(r, s') := clear time_time io_fault partial_write dir s in
  r = Ret tt /\ index_ s' = [] /\ total_bytes s' = 0 /\
  forall k, k ∈ dict_keys (index_ s) -> fs s' !! _page_path dir k = None.
Proof.
  intros Hio Hinv Hrel. pose proof (clear_inv time_time io_fault partial_write dir s Hinv) as Hinv'.
  unfold clear in *. unfold py_get, mbind, PyM_bind in *. simpl in *.
  destruct (evict_all_spec (dict_keys (index_ s)) s Hio Hrel eq_refl) as (s1 & He & Hi & Hg & _);
    [apply Hinv|]. rewrite He in *. simpl in *.
  pose proof (flush_index_index time_time io_fault partial_write dir (index_ s1) (total_bytes s1)
    s1 (conj eq_refl eq_refl)) as [Hi' _].
  assert (fst (_flush_index time_time io_fault partial_write dir s1) = Ret tt) as Ho.
  { unfold _flush_index, _save_index, write_file, os_replace, io_call. pystep.
    destruct (dirty s1); [|done]. rewrite Hio. simpl. rewrite Hio. simpl.
    by rewrite lookup_insert_eq. }
  pose proof (flush_fs time_time io_fault partial_write dir s1) as Hfs.
  destruct (_flush_index _ _ _ _ s1) as [o s']; simpl in *. subst o.
  rewrite Hi in Hi'. split_and!; [done|done| |].
  - destruct Hinv' as [_ ->]. by rewrite Hi'.
  - intros k Hk. destruct (page_path_not_index dir k (Hrel k Hk)). rewrite Hfs by done. by apply Hg.
Qed.

(** A page whose file was lost is never written again while it stays indexed: [set]
    returns [True] without creating the file, so [exists] and [get] keep answering no. *)
Theorem set_lost_page_not_rewritten (key : string) (v : Tensor) (s : Disk) :
  (forall n, io_fault n = false) -> rel_key key ->
  key ∈ dict_keys (index_ s) -> fs s !! _page_path dir key = None ->
  let '(r, s') := set_ key (Some v) s in
  r = Ret true /\ fs s' !! _page_path dir key = None /\
  fst (get torch_load time_time dir key s') = Ret None.
Proof.
  intros Hio Hrel Hin Hlost. unfold set, py_get, mbind, PyM_bind. simpl.
  destruct (dict_get key (index_ s)) as [info|] eqn:Eg;
    [|apply dict_get_None in Eg; done].
  unfold dict_mem. rewrite Eg.
  unfold _touch_access, now, _mark_dirty. pystep. rewrite Eg. simpl.
  match goal with |- context [_flush_index _ _ _ _ ?x] => set (s1 := x) end.
  destruct (page_path_not_index dir key Hrel) as [Hn1 Hn2].
  pose proof (flush_fs time_time io_fault partial_write dir s1 (_page_path dir key) Hn1 Hn2) as Hfs.
  assert (fst (_flush_index time_time io_fault partial_write dir s1) = Ret tt) as Ho.
  { unfold _flush_index, _save_index, write_file, os_replace, io_call. pystep.
    rewrite Hio. simpl. rewrite Hio. simpl. by rewrite lookup_insert_eq. }
  destruct (_flush_index _ _ _ _ s1) as [o s']; simpl in *. subst o.
  split_and!; [done|congruence|]. unfold get. pystep. by rewrite Hfs, Hlost.
Qed.
End run.

(** ** Queries *)

Section query.
Context (dir : string) (dir_stat : string -> Z * Z).
Implicit Types (s : Disk) (ks : list string).

Local Abbreviation page_of s ks :=
  (fun i n => default false ((fun k => exists_ dir s (_component_key k n)) <$> ks !! i)).
Local Abbreviation kv_of s ks := (fun i => default false (exists_ dir s <$> ks !! i)).

Lemma kv_of_component s ks i : page_of s ks i "kv" = kv_of s ks i.
Proof. destruct (ks !! i); done. Qed.

(** [batch_exists] is the length of the longest prefix of keys that all exist. *)
Theorem disk_batch_exists_longest s ks :
  (disk_batch_exists dir s ks <= length ks)%nat /\
  (forall i k, ks !! i = Some k -> (i < disk_batch_exists dir s ks)%nat -> exists_ dir s k = true) /\
  (forall k, ks !! disk_batch_exists dir s ks = Some k -> exists_ dir s k = false).
Proof.
  unfold disk_batch_exists, batch_exists. rewrite batch_exists_from_spec. simpl.
  unfold first_missing.
  destruct (next_missing_spec (kv_of s ks) 0 (length ks)) as (H1 & H2 & H3).
  split_and!; [lia| |].
  - intros i k Hk Hi. specialize (H2 i). rewrite Hk in H2. apply H2. lia.
  - intros k Hk. rewrite Hk in H3. apply H3. apply lookup_lt_Some in Hk. lia.
Qed.

(** With all-pages pools only, [batch_exists_v2] reports the longest usable prefix:
    every page of it exists in the KV pool and in every requested pool, and no longer
    prefix of the request has this property. *)
Theorem batch_exists_v2_all_pages s ks ts :
  Forall (fun t => hit_policy t = ALL_PAGES) ts ->
  let m := kv_hit_pages (batch_exists_v2 dir s ks ts) in
  let usable n := (n <= length ks)%nat /\
    forall i, (i < n)%nat ->
      page_of s ks i "kv" = true /\ forall t, t ∈ ts -> page_of s ks i (name t) = true in
  usable m /\ forall n, usable n -> (n <= m)%nat.
Proof.
  intros Hall m usable. unfold batch_exists_v2 in m. rewrite Forall_forall in Hall.
  set (kv := first_missing (kv_of s ks) (length ks)) in m.
  assert (m <= kv)%nat as Hm by apply v2_result_le_kv.
  split.
  - split; [pose proof (first_missing_le (kv_of s ks) (length ks)); lia|].
    intros i Hi. rewrite kv_of_component. split.
    + apply (first_missing_present (kv_of s ks) (length ks)). lia.
    + intros t Ht. pose proof (all_pages_ok (page_of s ks) kv ts t Ht (Hall t Ht)) as Hok.
      unfold policy_ok in Hok. rewrite (Hall t Ht) in Hok. by apply Hok.
  - intros n [Hn Hu].
    assert (n <= kv)%nat.
    { apply first_missing_greatest; [done|]. intros i Hi. rewrite <-kv_of_component. by apply Hu. }
    apply v2_result_greatest; [done|]. intros t Ht. apply policy_ok_boundary; [done|].
    unfold policy_ok. rewrite (Hall t Ht). intros i Hi. by apply Hu.
Qed.

(** With a single extra pool, whatever its policy, a non-empty reported prefix meets
    the policy and no longer KV prefix does. *)
Theorem batch_exists_v2_single_pool s ks t :
  let m := kv_hit_pages (batch_exists_v2 dir s ks [t]) in
  let kv := first_missing (kv_of s ks) (length ks) in
  ((0 < m)%nat -> policy_ok (page_of s ks) m t) /\
  forall n, (n <= kv)%nat -> policy_ok (page_of s ks) n t -> (n <= m)%nat.
Proof.
  intros m kv. unfold batch_exists_v2 in m. split.
  - intros Hm. destruct (hit_policy t) eqn:Ep.
    + by apply all_pages_ok; [left|].
    + assert (m = pool_boundary (page_of s ks) kv t) as Hb.
      { unfold m. unfold v2_result. rewrite v2_loop_final. simpl.
        pose proof (pool_boundary_le (page_of s ks) kv t). fold kv. lia. }
      rewrite Hb in Hm |- *. unfold policy_ok, pool_boundary in *. rewrite Ep in *.
      by apply trailing_boundary_present.
  - intros n Hn Hok. apply v2_result_greatest; [done|].
    intros t' ->%list_elem_of_singleton. by apply policy_ok_boundary.
Qed.

(** A corrupted index is rebuilt from the page directory: the byte total is again the
    sum of sizes, a page file directly in the directory is indexed with its size and
    modification time, and a page whose key contains a slash is not. *)
Theorem rebuild_index_spec s :
  is_dir (pages_dir dir) (fs s) = true ->
  let '(r, s') := _rebuild_index dir_stat dir s in
  r = Ret tt /\ fs s' = fs s /\ disk_inv s' /\
  (forall k f, contains_char "/"%char k = false ->
     fs s !! _page_path dir k = Some f ->
     dict_get k (index_ s') = Some (mkPageInfo (content_size (f_content f)) (f_mtime f))) /\
  (forall k, contains_char "/"%char k = true -> dict_get k (index_ s') = None).
Proof.
  intros Hd. unfold _rebuild_index. pystep. rewrite Hd.
  destruct (rebuild_loop_spec dir_stat dir (listdir (pages_dir dir) (fs s))
    (set_total 0 (set_index [] s))) as (s' & He & Hfs & Hinv & Hg).
  { apply listdir_NoDup. }
  { split; [apply NoDup_nil_2|done]. }
  { done. }
  simpl in He. rewrite He. split_and!; [done|done|done| |].
  - intros k f Hk Hf.
    assert (rel_key k) as Hrel.
    { unfold contains_char in Hk. apply bool_decide_eq_false in Hk. unfold rel_key, startswith.
      destruct (chars k) as [|a l]; simpl; [done|]. case_decide; [|done]. set_solver. }
    rewrite Hg, decide_True.
    + unfold rebuilt, stat. simpl. unfold _page_path in Hf. by rewrite Hf.
    + apply listdir_complete.
      * intros H. apply (f_equal chars) in H. rewrite chars_app in H.
        by apply app_eq_nil in H as [_ ?].
      * unfold contains_char in *. apply bool_decide_eq_false in Hk.
        apply bool_decide_eq_false. rewrite chars_app. intros [?|H]%elem_of_app; [done|].
        simpl in H. set_solver.
      * unfold _page_path in Hf. rewrite path_join_relative in Hf by by apply rel_key_pt.
        unfold is_file. by rewrite Hf.
  - intros k Hk. rewrite Hg. case_decide as Hin; [|done].
    apply listdir_no_slash in Hin. exfalso.
    unfold contains_char in *. apply bool_decide_eq_false in Hin.
    apply bool_decide_eq_true in Hk. apply Hin. rewrite chars_app. set_solver.
Qed.
End query.

(** ** Concrete runs *)

(** A disk with the KV pages k0..k4, of which pool "swa" has page 4 only and pool "idx" the
    pages 0 to 2. *)
Definition demo_disk : Disk :=
  let comp k := ("/d/pages/" +:+ k +:+ ".pt", mkFile (Raw [x00; x01]) 0) in
  let ks := ["k0"; "k1"; "k2"; "k3"; "k4"; "k4.swa"; "k0.idx"; "k1.idx"; "k2.idx"] in
  mkDisk (list_to_map (map comp ks)) (map (fun k => (k, mkPageInfo 2 0)) ks) 18 false 0 0.

Definition demo_keys : list string := ["k0"; "k1"; "k2"; "k3"; "k4"].
Definition demo_transfers : list PoolTransfer :=
  [transfer_of "idx" None ALL_PAGES; transfer_of "swa" (Some ["k4"]) TRAILING_PAGES].

(** The trailing-pages policy is not honoured when another pool shortens the prefix: on
    this disk the two requested pools give a prefix of three pages although the trailing page
    of the second pool is missing there (its boundary was computed on the longer KV prefix). *)
Theorem batch_exists_v2_trailing_lost :
  kv_hit_pages (batch_exists_v2 "/d" demo_disk demo_keys demo_transfers) = 3%nat /\
  trailing_present
    (fun i n => default false ((fun k => exists_ "/d" demo_disk (_component_key k n)) <$> demo_keys !! i))
    "swa" 1 3 = false.
Proof. split; vm_compute; reflexivity. Qed.

(** The environment of the concrete runs: pages are byte strings, the clock counts calls,
    no disk call fails. *)
Definition demo_time (n : nat) : Z := Z.of_nat n + 1.
Definition no_fault (_ : nat) : bool := false.
Definition no_partial (_ : nat) : option (list byte) := None.
Definition demo_stat (_ : string) : Z * Z := (0, 0).
Definition empty_disk : Disk := mkDisk ∅ [] 0 false 0 0.
Definition demo_set (max : Z) (key : string) (v : list byte) :=
  set (fun b : list byte => b) demo_time no_fault no_partial demo_stat "/d" max key (Some v).

Lemma demo_disk_inv : disk_inv demo_disk.
Proof. split; [apply (bool_decide_unpack _); vm_compute; exact I|reflexivity]. Qed.

Lemma demo_disk_rel k : k ∈ dict_keys (index_ demo_disk) -> rel_key k.
Proof.
  simpl. unfold rel_key. intros H.
  repeat (apply elem_of_cons in H as [->|H]; [reflexivity|]). by apply elem_of_nil in H.
Qed.

Lemma disk_accounting_witness :
  disk_inv (run_ops (fun b : list byte => b) Some demo_time no_fault no_partial demo_stat "/d" 20
    [DSet "new" (Some [x00; x00; x00; x00]); DGet "k1"; DBatchSet ["a"; "b"] (Some [[x01]; [x02]]); DClear]
    demo_disk).
Proof. apply disk_accounting. exact demo_disk_inv. Defined.

Lemma enforce_budget_lru_witness :
  exists s' evicted kept,
      _enforce_budget no_fault "/d" 20 5 demo_disk = (Ret tt, s') /\
      index_ demo_disk ≡ₚ evicted ++ kept /\ index_ s' ≡ₚ kept /\
      index_ s' `sublist_of` index_ demo_disk /\
      (forall x y, x ∈ evicted -> y ∈ kept -> last_access x.2 <= last_access y.2) /\
      (total_bytes s' + 5 <= 20 \/ kept = []) /\
      (evicted = [] \/ exists x, x ∈ evicted /\ 20 < total_bytes s' + 5 + size x.2).
Proof. apply (enforce_budget_lru no_fault "/d" 20 5); [exact demo_disk_inv|lia]. Defined.

Lemma set_get_roundtrip_witness :
  let '(r, s') := demo_set 20 "new" [x00; x01; x02] demo_disk in
  r = Ret true /\ fst (get Some demo_time "/d" "new" s') = Ret (Some [x00; x01; x02]).
Proof.
  apply (set_get_roundtrip (fun b : list byte => b) Some demo_time no_fault no_partial demo_stat "/d" 20
    "new" [x00; x01; x02] demo_disk);
    [reflexivity|reflexivity|exact demo_disk_inv|exact demo_disk_rel|reflexivity|].
  apply dict_get_None. reflexivity.
Defined.

(** The third disk call fails, with a byte written. *)
Definition late_fault (n : nat) : bool := (n =? 2)%nat.
Definition one_byte (_ : nat) : option (list byte) := Some [x00].
Local Abbreviation demo_save := (_save_index demo_time late_fault one_byte "/d").

(** The index is saved; the next save fails, and the first document is still read. *)
Lemma save_index_atomic_reload_witness :
  fst (demo_save demo_disk) = Ret tt /\
  index_is (index_ demo_disk) (total_bytes demo_disk) (snd (init_backend demo_stat "/d" (fs (snd (demo_save demo_disk))))) /\
  fst (demo_save (snd (demo_save demo_disk))) = Raise OSError /\
  fs (snd (demo_save (snd (demo_save demo_disk)))) !! index_path "/d" = fs (snd (demo_save demo_disk)) !! index_path "/d".
Proof.
  pose proof (save_index_atomic_reload demo_time late_fault one_byte demo_stat "/d") as W.
  destruct (W demo_disk) as [[H1 [_ H2]] _]. destruct (W (snd (demo_save demo_disk))) as [[H3 H4] _].
  split; [exact H1|]. split; [exact H2|]. split; [exact H3|exact H4].
Defined.

Lemma set_within_budget_witness :
  total_bytes (snd (demo_set 20 "new" [x00; x01; x02] demo_disk)) <= 20.
Proof.
  apply (set_within_budget (fun b : list byte => b) demo_time no_fault no_partial demo_stat "/d" 20
    "new" [x00; x01; x02] demo_disk);
    [exact demo_disk_inv|apply dict_get_None; reflexivity|lia|simpl; lia|vm_compute; reflexivity].
Defined.

Lemma set_oversized_exceeds_budget_witness :
  dict_keys (index_ (snd (demo_set 2 "big" [x00; x01; x02] demo_disk))) = ["big"] /\
  2 < total_bytes (snd (demo_set 2 "big" [x00; x01; x02] demo_disk)).
Proof.
  apply (set_oversized_exceeds_budget (fun b : list byte => b) demo_time no_fault no_partial demo_stat
    "/d" 2 "big" [x00; x01; x02] demo_disk);
    [exact demo_disk_inv| |apply dict_get_None; reflexivity|simpl; lia|vm_compute; reflexivity].
  simpl. intros k i H. repeat (apply elem_of_cons in H as [[= -> ->]|H]; [simpl; lia|]).
  by apply elem_of_nil in H.
Defined.

Lemma clear_removes_everything_witness :
  let '(r, s') := clear demo_time no_fault no_partial "/d" demo_disk in
  r = Ret tt /\ index_ s' = [] /\ total_bytes s' = 0 /\
  forall k, k ∈ dict_keys (index_ demo_disk) -> fs s' !! _page_path "/d" k = None.
Proof.
  apply (clear_removes_everything demo_time no_fault no_partial "/d" demo_disk);
    [reflexivity|exact demo_disk_inv|exact demo_disk_rel].
Defined.

(** A disk whose index has page "p" but whose file for it is gone. *)
Definition lost_disk : Disk := mkDisk ∅ [("p", mkPageInfo 3 0)] 3 false 0 0.

Lemma set_lost_page_not_rewritten_witness :
  let '(r, s') := demo_set 20 "p" [x00; x01; x02] lost_disk in
  r = Ret true /\ fs s' !! _page_path "/d" "p" = None /\
  fst (get (Some : list byte -> option (list byte)) demo_time "/d" "p" s') = Ret None.
Proof.
  apply (set_lost_page_not_rewritten (fun b : list byte => b) Some demo_time no_fault no_partial
    demo_stat "/d" 20 "p" [x00; x01; x02] lost_disk);
    [reflexivity|reflexivity|left|reflexivity].
Defined.

Lemma batch_exists_v2_all_pages_witness :
  let usable n := (n <= 5)%nat /\ forall i, (i < n)%nat ->
      default false ((fun k => exists_ "/d" demo_disk (_component_key k "kv")) <$> demo_keys !! i) = true /\
      forall t, t ∈ [transfer_of "idx" None ALL_PAGES] ->
        default false ((fun k => exists_ "/d" demo_disk (_component_key k (name t))) <$> demo_keys !! i)
          = true in
  usable 3%nat /\ forall n, usable n -> (n <= 3)%nat.
Proof.
  apply (batch_exists_v2_all_pages "/d" demo_disk demo_keys [transfer_of "idx" None ALL_PAGES]).
  repeat constructor.
Defined.

Lemma rebuild_index_spec_witness :
  let '(r, s') := _rebuild_index demo_stat "/d" demo_disk in
  r = Ret tt /\ fs s' = fs demo_disk /\ disk_inv s' /\
  (forall k f, contains_char "/"%char k = false ->
     fs demo_disk !! _page_path "/d" k = Some f ->
     dict_get k (index_ s') = Some (mkPageInfo (content_size (f_content f)) (f_mtime f))) /\
  (forall k, contains_char "/"%char k = true -> dict_get k (index_ s') = None).
Proof. apply rebuild_index_spec. vm_compute. reflexivity. Defined.
