(* ===== verification/RadixKey.v ===== *)
(** * RadixKey (mem_cache/radix_cache.py)

    Keys of the prefix cache: a token sequence, an optional namespace and the bigram flag of
    speculative decoding.  In bigram mode the logical units are the overlapping pairs of
    consecutive tokens.  Theorems: slicing, length and matching agree with the sequence of
    logical units; [match] is the page-rounded longest common prefix; two keys have the same
    [child_key] exactly when namespace and first page agree. *)

From stdpp Require Import base tactics list gmap strings.
From Stdlib Require Import ZArith Lia.
From S2P Require Import Prelude.

#[local] Open Scope nat_scope.

Record RadixKey := mkRadixKey {
  token_ids : list Z;
  extra_key : option string;
  is_bigram : bool }.

#[global] Instance RadixKey_eq_dec : EqDecision RadixKey.
Proof. solve_decision. Defined.

(** One logical unit of a key: a token, or a pair of consecutive tokens. *)
Inductive KeyUnit := Tok (t : Z) | Pair (a b : Z).

#[global] Instance KeyUnit_eq_dec : EqDecision KeyUnit.
Proof. solve_decision. Defined.

(** [__len__] *)
Definition key_len (k : RadixKey) : nat :=
  if is_bigram k then length (token_ids k) - 1 else length (token_ids k).

(** [(t[i], t[i+1])] for each [i] *)
Definition pairs (t : list Z) : list KeyUnit := zip_with Pair t (tail t).

(** [__iter__] *)
Definition units (k : RadixKey) : list KeyUnit :=
  if is_bigram k then pairs (token_ids k) else Tok <$> token_ids k.

(** [l[a:b]] for [0 <= a] and [0 <= b] *)
Definition slice {A} (l : list A) (a b : nat) : list A := take (b - a) (drop a l).

(** [slice(start, stop).indices(n)] for step 1: one bound, and its default when absent. *)
Definition slice_index (n : nat) (dflt : nat) (i : option Z) : nat :=
  match i with
  | None => dflt
  | Some z =>
      if (z <? 0)%Z then Z.to_nat (Z.max 0 (z + Z.of_nat n))
      else Nat.min (Z.to_nat z) n
  end.

(** [self[start:stop]] *)
Definition key_slice (k : RadixKey) (start stop : option Z) : RadixKey :=
  let a := slice_index (key_len k) 0 start in
  let b := slice_index (key_len k) (key_len k) stop in
  if is_bigram k then
    mkRadixKey (if a <? b then slice (token_ids k) a (b + 1) else []) (extra_key k) true
  else mkRadixKey (slice (token_ids k) a b) (extra_key k) false.

(** [self[idx]] for an integer *)
Definition key_getitem (k : RadixKey) (idx : Z) : Outcome RadixKey :=
  let i := if (idx <? 0)%Z then (idx + Z.of_nat (key_len k))%Z else idx in
  if (i <? 0)%Z || (Z.of_nat (key_len k) <=? i)%Z then Raise IndexError
  else Ret (key_slice k (Some i) (Some (i + 1)%Z)).

Definition key_take (n : nat) (k : RadixKey) : RadixKey := key_slice k None (Some (Z.of_nat n)).
Definition key_drop (n : nat) (k : RadixKey) : RadixKey := key_slice k (Some (Z.of_nat n)) None.

Definition page_aligned (page_size : nat) (k : RadixKey) : RadixKey :=
  if page_size =? 1 then k else key_take (key_len k / page_size * page_size) k.

(** The key and value with the bigram flag set ([self] is updated in place). *)
Definition maybe_to_bigram_view {V} (is_eagle : bool) (k : RadixKey) (value : option (list V)) :
    RadixKey * option (list V) :=
  if is_eagle && negb (is_bigram k) then
    let k' := mkRadixKey (token_ids k) (extra_key k) true in
    (k', take (key_len k') <$> value)
  else (k, value).

Definition _check_compatible (k other : RadixKey) : Outcome unit :=
  if decide (extra_key k = extra_key other) then Ret tt else Raise ValueError.

(** [for a, b in zip(t0, t1): if a != b: break; i += 1] *)
Fixpoint common_prefix {A} `{EqDecision A} (l1 l2 : list A) : nat :=
  match l1, l2 with
  | a :: l1', b :: l2' => if decide (a = b) then S (common_prefix l1' l2') else 0
  | _, _ => 0
  end.

(** [while i < min_len: if t0[i:i+p] != t1[i:i+p]: break; i += p] *)
Fixpoint match_pages (fuel page_size i min_len : nat) (t0 t1 : list Z) : Outcome nat :=
  match fuel with
  | O => OutOfFuel
  | S f =>
      if i <? min_len then
        if decide (slice t0 i (i + page_size) = slice t1 i (i + page_size))
        then match_pages f page_size (i + page_size) min_len t0 t1
        else Ret i
      else Ret i
  end.

Definition key_match (page_size : nat) (k other : RadixKey) : Outcome nat :=
  _ ← _check_compatible k other;
  let t0 := token_ids k in
  let t1 := token_ids other in
  if is_bigram k then
    let i := common_prefix t0 t1 in
    let matched := Nat.min (Nat.min (i - 1) (key_len k)) (key_len other) in
    Ret (if 1 <? page_size then matched / page_size * page_size else matched)
  else if page_size =? 1 then Ret (common_prefix t0 t1)
  else
    let min_len := Nat.min (key_len k) (key_len other) in
    match_pages (S min_len) page_size 0 min_len t0 t1.

(** The hashable key of a child: the first page, without or with the namespace. *)
Inductive PlainKey :=
  | PTok (t : Z)
  | PPair (a b : Z)
  | PToks (l : list Z)
  | PPairs (l : list (Z * Z)).

#[global] Instance PlainKey_eq_dec : EqDecision PlainKey.
Proof. solve_decision. Defined.

#[global] Instance PlainKey_countable : Countable PlainKey.
Proof.
  refine (inj_countable'
    (fun p => match p with
              | PTok t => inl (inl t)
              | PPair a b => inl (inr (a, b))
              | PToks l => inr (inl l)
              | PPairs l => inr (inr l)
              end)
    (fun s => match s with
              | inl (inl t) => PTok t
              | inl (inr (a, b)) => PPair a b
              | inr (inl l) => PToks l
              | inr (inr l) => PPairs l
              end) _).
  by intros [].
Defined.

Abbreviation ChildKey := (option string * PlainKey)%type.

(** [tuple((t[j], t[j+1]) for j in range(n))]: [None] when an index is out of range. *)
Fixpoint page_pairs (n : nat) (t : list Z) : option (list (Z * Z)) :=
  match n, t with
  | O, _ => Some []
  | S n', a :: ((b :: _) as t') => cons (a, b) <$> page_pairs n' t'
  | S _, _ => None
  end.

Definition child_key (page_size : nat) (k : RadixKey) : Outcome ChildKey :=
  let t := token_ids k in
  let plain :=
    if is_bigram k then
      if page_size =? 1 then
        match t with a :: b :: _ => Some (PPair a b) | _ => None end
      else PPairs <$> page_pairs page_size t
    else
      if page_size =? 1 then
        match t with a :: _ => Some (PTok a) | _ => None end
      else Some (PToks (take page_size t)) in
  match plain with
  | Some p => Ret (extra_key k, p)
  | None => Raise IndexError
  end.

(** ** Units, lengths and slices *)

Lemma length_pairs t : length (pairs t) = length t - 1.
Proof. unfold pairs. rewrite length_zip_with. destruct t; cbn [length tail]; lia. Qed.

Lemma length_units k : length (units k) = key_len k.
Proof.
  unfold units, key_len. destruct (is_bigram k); [apply length_pairs|]. by rewrite length_fmap.
Qed.

Lemma pairs_cons a b t : pairs (a :: b :: t) = Pair a b :: pairs (b :: t).
Proof. done. Qed.

Lemma pairs_drop n t : pairs (drop n t) = drop n (pairs t).
Proof.
  revert t. induction n as [|n IH]; intros [|a t]; try done.
  destruct t as [|b t]; [by destruct n|]. rewrite pairs_cons. apply IH.
Qed.

Lemma pairs_take n t : pairs (take (S n) t) = take n (pairs t).
Proof.
  revert t. induction n as [|n IH]; intros [|a t]; try done.
  destruct t as [|b t]; [done|].
  change (take (S (S n)) (a :: b :: t)) with (a :: b :: take n t).
  rewrite !pairs_cons. simpl. f_equal. apply (IH (b :: t)).
Qed.

Lemma units_take n k : units (key_take n k) = take n (units k).
Proof.
  unfold key_take, key_slice, units. simpl.
  rewrite (proj2 (Z.ltb_ge _ _)) by lia. rewrite Nat2Z.id.
  set (b := Nat.min n (key_len k)).
  assert (take n (units k) = take b (units k)) as Hb.
  { unfold b. destruct (Nat.le_ge_cases n (key_len k)); [by rewrite Nat.min_l|].
    rewrite Nat.min_r by done. rewrite !take_ge; rewrite ?length_units; lia || done. }
  unfold units in Hb. destruct (is_bigram k); simpl; rewrite Hb.
  - destruct (Nat.ltb_spec 0 b) as [H|H].
    + unfold slice. rewrite drop_0. replace (b + 1 - 0) with (S b) by lia. apply pairs_take.
    + replace b with 0 by lia. done.
  - unfold slice. rewrite drop_0, Nat.sub_0_r. apply fmap_take.
Qed.

Lemma units_drop n k : units (key_drop n k) = drop n (units k).
Proof.
  unfold key_drop, key_slice, units. simpl.
  rewrite (proj2 (Z.ltb_ge _ _)) by lia. rewrite Nat2Z.id.
  set (a := Nat.min n (key_len k)).
  assert (drop n (units k) = drop a (units k)) as Ha.
  { unfold a. destruct (Nat.le_ge_cases n (key_len k)); [by rewrite Nat.min_l|].
    rewrite Nat.min_r by done. rewrite !drop_ge; rewrite ?length_units; lia || done. }
  pose proof (length_units k) as Hl. unfold units in Ha, Hl. unfold key_len in *.
  destruct (is_bigram k); simpl; rewrite Ha.
  - destruct (Nat.ltb_spec a (length (token_ids k) - 1)) as [H|H].
    + unfold slice. rewrite take_ge by (rewrite length_drop; lia). apply pairs_drop.
    + rewrite drop_ge by lia. done.
  - unfold slice. rewrite take_ge by (rewrite length_drop; lia). apply fmap_drop.
Qed.

Lemma key_len_take n k : key_len (key_take n k) = Nat.min n (key_len k).
Proof. by rewrite <-!length_units, units_take, length_take. Qed.

Lemma key_len_drop n k : key_len (key_drop n k) = key_len k - n.
Proof. by rewrite <-!length_units, units_drop, length_drop. Qed.

Lemma extra_key_take n k : extra_key (key_take n k) = extra_key k.
Proof. unfold key_take, key_slice. by destruct (is_bigram k). Qed.
Lemma extra_key_drop n k : extra_key (key_drop n k) = extra_key k.
Proof. unfold key_drop, key_slice. by destruct (is_bigram k). Qed.
Lemma is_bigram_take n k : is_bigram (key_take n k) = is_bigram k.
Proof. unfold key_take, key_slice. by destruct (is_bigram k). Qed.
Lemma is_bigram_drop n k : is_bigram (key_drop n k) = is_bigram k.
Proof. unfold key_drop, key_slice. by destruct (is_bigram k). Qed.

Create Rewrite HintDb keydb.
#[export] Hint Rewrite units_take units_drop key_len_take key_len_drop extra_key_take
  extra_key_drop is_bigram_take is_bigram_drop : keydb.

Lemma page_aligned_spec p k :
  0 < p -> units (page_aligned p k) = take (key_len k / p * p) (units k) /\
  extra_key (page_aligned p k) = extra_key k /\ is_bigram (page_aligned p k) = is_bigram k.
Proof.
  intros Hp. unfold page_aligned. destruct (Nat.eqb_spec p 1) as [->|].
  - rewrite Nat.div_1_r, Nat.mul_1_r, take_ge; [done|]. by rewrite length_units.
  - by autorewrite with keydb.
Qed.

Lemma page_aligned_len p k : 0 < p -> key_len (page_aligned p k) = key_len k / p * p.
Proof.
  intros Hp. rewrite <-length_units. destruct (page_aligned_spec p k Hp) as [-> _].
  rewrite length_take, length_units. apply Nat.min_l. rewrite Nat.mul_comm. by apply Nat.Div0.mul_div_le.
Qed.

(** A number of units is a whole number of pages. *)
Definition aligned (p n : nat) : Prop := n mod p = 0.

Lemma aligned_mul p n : 0 < p -> aligned p (n / p * p).
Proof. intros. unfold aligned. by rewrite Nat.Div0.mod_mul. Qed.

Lemma aligned_page_aligned p k : 0 < p -> aligned p (key_len (page_aligned p k)).
Proof. intros. rewrite page_aligned_len by done. by apply aligned_mul. Qed.

Lemma aligned_floor p n : 0 < p -> aligned p n -> n / p * p = n.
Proof.
  unfold aligned. intros Hp H. pose proof (Nat.div_mod_eq n p). lia.
Qed.

Lemma aligned_sub p a b : 0 < p -> aligned p a -> aligned p b -> aligned p (a - b).
Proof.
  intros Hp Ha Hb. rewrite <-(aligned_floor p a), <-(aligned_floor p b) by done.
  unfold aligned. rewrite <-Nat.mul_sub_distr_r. by apply Nat.Div0.mod_mul.
Qed.

Lemma aligned_add p a b : 0 < p -> aligned p a -> aligned p b -> aligned p (a + b).
Proof.
  intros Hp Ha Hb. rewrite <-(aligned_floor p a), <-(aligned_floor p b) by done.
  unfold aligned. rewrite <-Nat.mul_add_distr_r. by apply Nat.Div0.mod_mul.
Qed.

Lemma aligned_0 p : aligned p 0.
Proof. unfold aligned. apply Nat.Div0.mod_0_l. Qed.

Lemma aligned_pos_le p n : 0 < p -> aligned p n -> 0 < n -> p <= n.
Proof.
  intros Hp H Hn. unfold aligned in H. destruct (Nat.lt_ge_cases n p) as [Hlt|]; [|done].
  rewrite Nat.mod_small in H by done. lia.
Qed.

(** A whole number of pages below [n] is below the page-rounded [n]. *)
Lemma aligned_le_floor p m n : 0 < p -> aligned p m -> m <= n -> m <= n / p * p.
Proof.
  intros Hp Hm Hle. rewrite <-(aligned_floor p m) by done.
  apply Nat.mul_le_mono_r. by apply Nat.Div0.div_le_mono.
Qed.

(** ** Common prefixes *)

Section common_prefix.
Context {A : Type} `{EqDecision A}.
Implicit Types l : list A.

Lemma common_prefix_le l1 l2 : common_prefix l1 l2 <= length l1 /\ common_prefix l1 l2 <= length l2.
Proof.
  revert l2. induction l1 as [|a l1 IH]; intros [|b l2]; simpl; try lia.
  case_decide; [|lia]. destruct (IH l2). lia.
Qed.

Lemma common_prefix_take l1 l2 n :
  n <= common_prefix l1 l2 -> take n l1 = take n l2.
Proof.
  revert l2 n. induction l1 as [|a l1 IH]; intros [|b l2] n; simpl; intros Hn;
    try (replace n with 0 by lia; done).
  case_decide; [|by replace n with 0 by lia]. destruct n as [|n]; [done|]. simpl. subst. f_equal.
  apply IH. lia.
Qed.

Lemma common_prefix_greatest l1 l2 n :
  n <= length l1 -> n <= length l2 -> take n l1 = take n l2 -> n <= common_prefix l1 l2.
Proof.
  revert l2 n. induction l1 as [|a l1 IH]; intros [|b l2] n; simpl; intros H1 H2 Ht; try lia.
  destruct n as [|n]; [lia|]. simpl in Ht. simplify_eq. rewrite decide_True by done.
  apply le_n_S. apply IH; [lia|lia|done].
Qed.
End common_prefix.

Lemma common_prefix_Tok t0 t1 : common_prefix (Tok <$> t0) (Tok <$> t1) = common_prefix t0 t1.
Proof.
  revert t1. induction t0 as [|a t0 IH]; intros [|b t1]; simpl; try done.
  destruct (decide (a = b)) as [->|]; [by rewrite decide_True, IH|].
  rewrite decide_False; [done|congruence].
Qed.

Lemma common_prefix_pairs t0 t1 : common_prefix (pairs t0) (pairs t1) = common_prefix t0 t1 - 1.
Proof.
  revert t1. induction t0 as [|a t0 IH]; intros [|b t1]; try done.
  - by destruct t0.
  - destruct t0 as [|a' t0], t1 as [|b' t1].
    + simpl. by case_decide.
    + simpl. by case_decide.
    + simpl. by case_decide.
    + change (pairs (a :: a' :: t0)) with (Pair a a' :: pairs (a' :: t0)).
      change (pairs (b :: b' :: t1)) with (Pair b b' :: pairs (b' :: t1)).
      specialize (IH (b' :: t1)).
      change (common_prefix (Pair a a' :: pairs (a' :: t0)) (Pair b b' :: pairs (b' :: t1)))
        with (if decide (Pair a a' = Pair b b')
              then S (common_prefix (pairs (a' :: t0)) (pairs (b' :: t1))) else 0).
      change (common_prefix (a :: a' :: t0) (b :: b' :: t1))
        with (if decide (a = b) then S (common_prefix (a' :: t0) (b' :: t1)) else 0).
      rewrite IH. simpl. repeat case_decide; simplify_eq; simpl; try lia.
Qed.

(** ** [match] is the page-rounded longest common prefix *)

Lemma take_slice {A} (l l' : list A) i n :
  take (i + n) l = take (i + n) l' -> slice l i (i + n) = slice l' i (i + n).
Proof.
  intros H. unfold slice. replace (i + n - i) with n by lia.
  rewrite !take_drop_commute. by f_equal.
Qed.

Lemma slice_take {A} (l l' : list A) i n :
  take i l = take i l' -> slice l i (i + n) = slice l' i (i + n) -> take (i + n) l = take (i + n) l'.
Proof.
  intros H1 H2. unfold slice in H2. replace (i + n - i) with n in H2 by lia.
  rewrite <-!take_take_drop. by f_equal.
Qed.

Section match_pages.
Variables (p min_len : nat) (t0 t1 : list Z).
Hypothesis (Hp : 0 < p).
Hypothesis (Hm : min_len = Nat.min (length t0) (length t1)).
Hypothesis (Ha : aligned p min_len).

Lemma match_pages_spec fuel i :
  min_len - i < fuel -> i <= min_len -> aligned p i -> take i t0 = take i t1 ->
  exists j, match_pages fuel p i min_len t0 t1 = Ret j /\
    j <= min_len /\ aligned p j /\ take j t0 = take j t1 /\
    (j < min_len -> slice t0 j (j + p) <> slice t1 j (j + p)).
Proof using Hp Hm Ha.
  revert i. induction fuel as [|f IH]; intros i Hf Hi Hai Ht; [lia|]. simpl.
  destruct (Nat.ltb_spec i min_len) as [Hlt|]; [|exists i; split_and!; try done; lia].
  case_decide as Hs; [|exists i; by split_and!].
  assert (i + p <= min_len).
  { pose proof (aligned_pos_le p (min_len - i) Hp (aligned_sub _ _ _ Hp Ha Hai)). lia. }
  apply IH; [lia|done| |by apply slice_take].
  apply aligned_add; [done|done|]. unfold aligned. by apply Nat.Div0.mod_same.
Qed.

Lemma match_pages_common :
  match_pages (S min_len) p 0 min_len t0 t1 = Ret (common_prefix t0 t1 / p * p).
Proof using Hp Hm Ha.
  destruct (match_pages_spec (S min_len) 0) as (j & -> & Hj & Haj & Ht & Hs);
    [lia|lia|apply aligned_0|done|]. f_equal.
  assert (j <= common_prefix t0 t1) as Hle.
  { apply common_prefix_greatest; [lia|lia|done]. }
  pose proof (aligned_le_floor p j _ Hp Haj Hle).
  set (f := common_prefix t0 t1 / p * p) in *.
  assert (f <= common_prefix t0 t1).
  { unfold f. rewrite Nat.mul_comm. by apply Nat.Div0.mul_div_le. }
  destruct (common_prefix_le t0 t1).
  destruct (decide (j = f)) as [|Hne]; [done|]. exfalso.
  assert (j + p <= f).
  { assert (p <= f - j); [|lia]. apply aligned_pos_le; [done| |lia].
    apply aligned_sub; [done|by apply aligned_mul|done]. }
  apply Hs; [lia|]. apply take_slice. apply common_prefix_take. lia.
Qed.
End match_pages.

Lemma key_match_spec p k o :
  0 < p -> extra_key k = extra_key o -> is_bigram k = is_bigram o ->
  aligned p (key_len k) -> aligned p (key_len o) ->
  key_match p k o = Ret (common_prefix (units k) (units o) / p * p).
Proof.
  intros Hp He Hb Ha Ho. unfold key_match, _check_compatible. rewrite decide_True by done.
  unfold mbind, Outcome_bind, units. rewrite <-Hb. destruct (is_bigram k) eqn:Eb.
  - rewrite common_prefix_pairs.
    assert (Nat.min (Nat.min (common_prefix (token_ids k) (token_ids o) - 1) (key_len k)) (key_len o)
            = common_prefix (token_ids k) (token_ids o) - 1) as ->.
    { unfold key_len. rewrite <-Hb, Eb.
      destruct (common_prefix_le (token_ids k) (token_ids o)). lia. }
    destruct (Nat.ltb_spec 1 p); [done|]. replace p with 1 by lia.
    by rewrite Nat.div_1_r, Nat.mul_1_r.
  - rewrite common_prefix_Tok. destruct (Nat.eqb_spec p 1) as [->|].
    + by rewrite Nat.div_1_r, Nat.mul_1_r.
    + apply match_pages_common; [done| |].
      * unfold key_len. by rewrite <-Hb, Eb.
      * destruct (Nat.min_spec (key_len k) (key_len o)) as [[_ ->]|[_ ->]]; done.
Qed.

(** ** [child_key] identifies namespace and first page *)

Lemma page_pairs_spec p t :
  p <= length t - 1 ->
  exists l, page_pairs p t = Some l /\ (fun ab => Pair ab.1 ab.2) <$> l = take p (pairs t).
Proof.
  revert t. induction p as [|p IH]; intros t Hl; [by exists []|].
  destruct t as [|a [|b t]]; simpl in Hl; [lia|lia|].
  destruct (IH (b :: t)) as (l & Hl1 & Hl2); [simpl; lia|].
  exists ((a, b) :: l). rewrite pairs_cons.
  change (page_pairs (S p) (a :: b :: t)) with (cons (a, b) <$> page_pairs p (b :: t)).
  rewrite Hl1. split; [done|]. simpl. by f_equal.
Qed.

Lemma child_key_total p k :
  0 < p -> p <= key_len k -> exists pk, child_key p k = Ret (extra_key k, pk).
Proof.
  intros Hp Hl. unfold child_key, key_len in *. destruct (is_bigram k).
  - destruct (Nat.eqb_spec p 1).
    + destruct (token_ids k) as [|a [|b t]]; simpl in Hl; [lia|lia|eauto].
    + destruct (page_pairs_spec p (token_ids k) Hl) as (l & -> & _). simpl. eauto.
  - destruct (Nat.eqb_spec p 1).
    + destruct (token_ids k) as [|a t]; simpl in Hl; [lia|eauto].
    + eauto.
Qed.

Lemma child_key_iff p k o :
  0 < p -> p <= key_len k -> p <= key_len o -> is_bigram k = is_bigram o ->
  child_key p k = child_key p o <->
  extra_key k = extra_key o /\ take p (units k) = take p (units o).
Proof.
  intros Hp Hk Ho Hb. unfold child_key, units, key_len in *. rewrite <-Hb in *.
  destruct (is_bigram k).
  - destruct (Nat.eqb_spec p 1) as [->|].
    + destruct (token_ids k) as [|a [|b t]]; simpl in Hk; [lia|lia|].
      destruct (token_ids o) as [|a' [|b' t']]; simpl in Ho; [lia|lia|].
      rewrite !pairs_cons. simpl. split; [by intros [= -> -> ->]|by intros [-> [= -> ->]]].
    + destruct (page_pairs_spec p (token_ids k) Hk) as (l & -> & Hl).
      destruct (page_pairs_spec p (token_ids o) Ho) as (l' & -> & Hl'). simpl.
      rewrite <-Hl, <-Hl'. split; [by intros [= -> ->]|]. intros [-> H]. do 3 f_equal.
      apply (list_fmap_injective (fun ab : Z * Z => Pair ab.1 ab.2)); [|done].
      by intros [] [] [= -> ->].
  - destruct (Nat.eqb_spec p 1) as [->|].
    + destruct (token_ids k) as [|a t]; simpl in Hk; [lia|].
      destruct (token_ids o) as [|a' t']; simpl in Ho; [lia|]. simpl. split; [by intros [= -> ->]|by intros [-> [= ->]]].
    + rewrite <-!fmap_take. split; [by intros [= -> ->]|]. intros [-> H]. do 3 f_equal.
      apply (list_fmap_injective Tok); [|done]. by intros ? ? [= ->].
Qed.
