(* ===== verification/TreeNode.v ===== *)
(** * TreeNode (mem_cache/radix_cache.py)

    The nodes of the radix tree.  A node object is a record stored under its identifier; the
    [parent] and [children] fields hold identifiers. *)

From stdpp Require Import base tactics list gmap strings.
From Stdlib Require Import ZArith Lia.
From S2P Require Import Prelude RadixKey.

Record TreeNode := mkTreeNode {
  children : gmap ChildKey nat;
  parent : option nat;
  key : RadixKey;
  value : option (list Z);
  lock_ref : Z;
  last_access_time : Z;
  creation_time : Z;
  hit_count : Z;
  host_ref_counter : Z;
  host_value : option (list Z);
  hash_value : option (list string);
  priority : Z }.

(** [TreeNode(priority=p)], which reads the clock twice ([ta], then [tc]); the caller then
    assigns the other fields. *)
Definition new_TreeNode (ta tc p : Z) (ch : gmap ChildKey nat) (par : option nat) (k : RadixKey)
    (v : option (list Z)) (lock hits : Z) (hashes : option (list string)) : TreeNode :=
  mkTreeNode ch par k v lock ta tc hits 0 None hashes p.

(** Field assignments. *)
Definition set_children ch n := mkTreeNode ch (parent n) (key n) (value n) (lock_ref n)
  (last_access_time n) (creation_time n) (hit_count n) (host_ref_counter n) (host_value n)
  (hash_value n) (priority n).
Definition set_last_access t n := mkTreeNode (children n) (parent n) (key n) (value n) (lock_ref n)
  t (creation_time n) (hit_count n) (host_ref_counter n) (host_value n) (hash_value n) (priority n).
Definition set_priority p n := mkTreeNode (children n) (parent n) (key n) (value n) (lock_ref n)
  (last_access_time n) (creation_time n) (hit_count n) (host_ref_counter n) (host_value n)
  (hash_value n) p.
Definition set_hit_count h n := mkTreeNode (children n) (parent n) (key n) (value n) (lock_ref n)
  (last_access_time n) (creation_time n) h (host_ref_counter n) (host_value n) (hash_value n)
  (priority n).
Definition set_lock_ref l n := mkTreeNode (children n) (parent n) (key n) (value n) l
  (last_access_time n) (creation_time n) (hit_count n) (host_ref_counter n) (host_value n)
  (hash_value n) (priority n).
Definition set_host_ref c n := mkTreeNode (children n) (parent n) (key n) (value n) (lock_ref n)
  (last_access_time n) (creation_time n) (hit_count n) c (host_value n) (hash_value n) (priority n).
Definition set_hash_value h n := mkTreeNode (children n) (parent n) (key n) (value n) (lock_ref n)
  (last_access_time n) (creation_time n) (hit_count n) (host_ref_counter n) (host_value n) h
  (priority n).
(** [child.parent = p; child.key = k; child.value = v; child.hash_value = h] *)
Definition set_split p k v h n := mkTreeNode (children n) (Some p) k v (lock_ref n)
  (last_access_time n) (creation_time n) (hit_count n) (host_ref_counter n) (host_value n) h
  (priority n).

Definition set_value v n := mkTreeNode (children n) (parent n) (key n) v (lock_ref n)
  (last_access_time n) (creation_time n) (hit_count n) (host_ref_counter n) (host_value n)
  (hash_value n) (priority n).
Definition set_host_value h n := mkTreeNode (children n) (parent n) (key n) (value n) (lock_ref n)
  (last_access_time n) (creation_time n) (hit_count n) (host_ref_counter n) h (hash_value n)
  (priority n).

Definition evicted (n : TreeNode) : bool := match value n with None => true | Some _ => false end.
Definition backuped (n : TreeNode) : bool := match host_value n with None => false | Some _ => true end.

(** The indices of a node; in a device-only cache no node is evicted. *)
Definition node_value (n : TreeNode) : list Z := default [] (value n).

Definition protect_host (n : TreeNode) : TreeNode := set_host_ref (host_ref_counter n + 1) n.

Definition release_host (n : TreeNode) : Outcome TreeNode :=
  if 0 <? host_ref_counter n then Ret (set_host_ref (host_ref_counter n - 1) n)
  else Raise RuntimeError.

Definition get_last_hash_value (n : TreeNode) : option string := hash_value n ≫= last.

(** [__lt__] *)
Definition node_lt (n m : TreeNode) : bool := last_access_time n <? last_access_time m.

(** The part of a node that the tree invariant and the cached contents depend on. *)
Record Shape := mkShape {
  sh_children : gmap ChildKey nat;
  sh_parent : option nat;
  sh_key : RadixKey;
  sh_value : option (list Z);
  sh_lock : Z }.

Definition shape (n : TreeNode) : Shape :=
  mkShape (children n) (parent n) (key n) (value n) (lock_ref n).

Lemma shape_set_last_access t n : shape (set_last_access t n) = shape n.
Proof. done. Qed.
Lemma shape_set_priority p n : shape (set_priority p n) = shape n.
Proof. done. Qed.
Lemma shape_set_hit_count h n : shape (set_hit_count h n) = shape n.
Proof. done. Qed.
Lemma shape_set_hash_value h n : shape (set_hash_value h n) = shape n.
Proof. done. Qed.
