(* ===== verification/EvictPolicy.v ===== *)
(** * Eviction strategies (mem_cache/evict_policy.py) and the eviction heap

    Each strategy maps a node to a priority; eviction takes nodes in increasing order of
    [(priority, node)], where nodes compare by their last access time.  The heap is an
    interface with the documented law of [heapq] (the popped element is a smallest one) and
    a list implementation of it. *)

From stdpp Require Import base tactics list gmap strings.
From Stdlib Require Import ZArith Lia.
From S2P Require Import Prelude PyStr RadixKey TreeNode.

Inductive EvictionStrategy :=
  | LRUStrategy
  | LFUStrategy
  | FIFOStrategy
  | MRUStrategy
  | FILOStrategy
  | PriorityStrategy
  | SLRUStrategy (protected_threshold : Z).

(** The value returned by [get_priority]: a number or a pair. *)
Inductive Priority := PNum (x : Z) | PTup (a b : Z).

Definition get_priority (st : EvictionStrategy) (n : TreeNode) : Priority :=
  match st with
  | LRUStrategy => PNum (last_access_time n)
  | LFUStrategy => PTup (hit_count n) (last_access_time n)
  | FIFOStrategy => PNum (creation_time n)
  | MRUStrategy => PNum (- last_access_time n)
  | FILOStrategy => PNum (- creation_time n)
  | PriorityStrategy => PTup (priority n) (last_access_time n)
  | SLRUStrategy thr => PTup (if thr <=? hit_count n then 1 else 0) (last_access_time n)
  end.

(** [RadixCache.__init__]: the strategy named by [eviction_policy.lower()]. *)
Definition strategy_of_policy (lowered : string) : Outcome EvictionStrategy :=
  if bool_decide (lowered = "lru") then Ret LRUStrategy
  else if bool_decide (lowered = "lfu") then Ret LFUStrategy
  else if bool_decide (lowered = "fifo") then Ret FIFOStrategy
  else if bool_decide (lowered = "mru") then Ret MRUStrategy
  else if bool_decide (lowered = "filo") then Ret FILOStrategy
  else if bool_decide (lowered = "priority") then Ret PriorityStrategy
  else if bool_decide (lowered = "slru") then Ret (SLRUStrategy 2)
  else Raise ValueError.

(** A heap entry [(priority, node)]: the node with its access time at push. *)
Record HeapEntry := mkEntry { he_prio : Priority; he_time : Z; he_node : nat }.

(** Tuple comparison [<=] on entries.  Priorities of one strategy have one shape. *)
Definition entry_key (e : HeapEntry) : Z * Z * Z :=
  match he_prio e with PNum x => (x, he_time e, 0) | PTup a b => (a, b, he_time e) end.

Definition key3_le (x y : Z * Z * Z) : bool :=
  let '(a, b, c) := x in
  let '(a', b', c') := y in
  (a <? a') || ((a =? a') && ((b <? b') || ((b =? b') && (c <=? c')))).

Definition entry_le (e1 e2 : HeapEntry) : bool := key3_le (entry_key e1) (entry_key e2).

Lemma key3_le_spec x y :
  key3_le x y = true <->
  x.1.1 < y.1.1 \/ x.1.1 = y.1.1 /\ (x.1.2 < y.1.2 \/ x.1.2 = y.1.2 /\ x.2 <= y.2).
Proof.
  destruct x as [[a b] c], y as [[a' b'] c']. unfold key3_le. simpl.
  rewrite orb_true_iff, andb_true_iff, orb_true_iff, andb_true_iff.
  rewrite !Z.ltb_lt, !Z.eqb_eq, Z.leb_le. done.
Qed.

Lemma entry_le_total e1 e2 : entry_le e1 e2 = true \/ entry_le e2 e1 = true.
Proof. unfold entry_le. rewrite !key3_le_spec. lia. Qed.

Lemma entry_le_trans e1 e2 e3 :
  entry_le e1 e2 = true -> entry_le e2 e3 = true -> entry_le e1 e3 = true.
Proof. unfold entry_le. rewrite !key3_le_spec. lia. Qed.

Lemma entry_le_refl e : entry_le e e = true.
Proof. unfold entry_le. rewrite key3_le_spec. lia. Qed.

(** ** The heap interface *)

(** What [heapq] promises to its user: the items of a heap, and that [heappop] removes a
    smallest one. *)
Class HeapQ (H : Type) := {
  heapify : list HeapEntry -> H;
  heappush : HeapEntry -> H -> H;
  heappop : H -> option (HeapEntry * H);
  heap_items : H -> list HeapEntry;
  heapify_items l : heap_items (heapify l) ≡ₚ l;
  heappush_items e h : heap_items (heappush e h) ≡ₚ e :: heap_items h;
  heappop_None h : heappop h = None <-> heap_items h = [];
  heappop_Some h e h' : heappop h = Some (e, h') ->
    heap_items h ≡ₚ e :: heap_items h' /\
    forall e', e' ∈ heap_items h -> entry_le e e' = true }.

(** A list from which [heappop] takes the first smallest element. *)
Fixpoint pop_min (l : list HeapEntry) : option (HeapEntry * list HeapEntry) :=
  match l with
  | [] => None
  | e :: l' =>
      match pop_min l' with
      | None => Some (e, [])
      | Some (m, r) => if entry_le e m then Some (e, l') else Some (m, e :: r)
      end
  end.

Lemma pop_min_None l : pop_min l = None <-> l = [].
Proof. destruct l; simpl; [done|]. repeat case_match; done. Qed.

Lemma pop_min_Some l e r :
  pop_min l = Some (e, r) -> l ≡ₚ e :: r /\ forall e', e' ∈ l -> entry_le e e' = true.
Proof.
  revert e r. induction l as [|x l IH]; intros e r; simpl; [done|].
  destruct (pop_min l) as [[m r']|] eqn:E.
  - destruct (IH m r' eq_refl) as [Hp Hm]. destruct (entry_le x m) eqn:Ex; intros; simplify_eq.
    + split; [done|]. intros e' [->|He]%elem_of_cons; [apply entry_le_refl|].
      eapply entry_le_trans; [done|auto].
    + split; [rewrite Hp; constructor|]. intros e' [->|He]%elem_of_cons; [|auto].
      destruct (entry_le_total e x); [done|congruence].
  - apply pop_min_None in E as ->. intros; simplify_eq. split; [done|].
    intros e' ->%list_elem_of_singleton. apply entry_le_refl.
Qed.

#[global] Instance list_HeapQ : HeapQ (list HeapEntry) := {|
  heapify l := l;
  heappush e l := e :: l;
  heappop := pop_min;
  heap_items l := l;
  heapify_items l := Permutation_refl l;
  heappush_items e l := Permutation_refl (e :: l);
  heappop_None := pop_min_None;
  heappop_Some := pop_min_Some |}.

(** ** What the strategies prefer *)

(** A node of segment 0 (fewer hits than the threshold) is taken before any protected one. *)
Lemma slru_probation_first thr n m t t' i j :
  hit_count n < thr <= hit_count m ->
  entry_le (mkEntry (get_priority (SLRUStrategy thr) m) t j)
           (mkEntry (get_priority (SLRUStrategy thr) n) t' i) = false.
Proof.
  intros H. apply not_true_iff_false. unfold entry_le. rewrite key3_le_spec. simpl.
  rewrite (proj2 (Z.leb_gt thr (hit_count n))) by lia.
  rewrite (proj2 (Z.leb_le thr (hit_count m))) by lia. simpl. lia.
Qed.
