(* ===== verification/Allocator.v ===== *)
(** * KV-pool index allocators (mem_cache/allocator.py)

    [TokenToKVPoolAllocator] hands out single token slots, [PagedTokenToKVPoolAllocator]
    whole pages; both keep a list of free pages, a list of released pages that is merged
    back lazily when sorting is on, and a free group that batches frees.  [alloc_extend] and
    [alloc_decode] run Triton kernels, modelled as the stores every program instance issues
    (masked-off lanes of a load count as zero); [alloc_extend_naive] is the reference loop.
    [debug_mode], an environment switch that adds assertions on the results of these calls,
    is off except for the argument check of [paged_alloc]. *)

From stdpp Require Import base tactics list gmap strings.
From Stdlib Require Import ZArith Lia.
From S2P Require Import Prelude.

Record Alloc := mkAlloc {
  size_ : Z;
  page_size : Z;
  need_sort : bool;
  free_pages : list Z;
  release_pages : list Z;
  is_not_in_free_group : bool;
  free_group : list (list Z) }.

Definition set_pages (f r : list Z) (a : Alloc) : Alloc :=
  mkAlloc (size_ a) (page_size a) (need_sort a) f r (is_not_in_free_group a) (free_group a).
Definition set_group (b : bool) (g : list (list Z)) (a : Alloc) : Alloc :=
  mkAlloc (size_ a) (page_size a) (need_sort a) (free_pages a) (release_pages a) b g.

Definition len (l : list Z) : Z := Z.of_nat (length l).
(** [l[:n]] and [l[n:]] for [0 <= n] *)
Definition ztake (n : Z) (l : list Z) : list Z := take (Z.to_nat n) l.
Definition zdrop (n : Z) (l : list Z) : list Z := drop (Z.to_nat n) l.
(** [torch.arange(a, a + n)] *)
Definition arange (a n : Z) : list Z := seqZ a n.

(** ** BaseTokenToKVPoolAllocator *)

Definition available_size (a : Alloc) : Z :=
  (len (free_pages a) + len (release_pages a)) * page_size a.

Definition backup_state (a : Alloc) : list Z * list Z := (free_pages a, release_pages a).
Definition restore_state (st : list Z * list Z) (a : Alloc) : Alloc := set_pages st.1 st.2 a.

Definition free_group_begin (a : Alloc) : Alloc := set_group false [] a.

(** [free] is the method of the concrete class. *)
Definition free_group_end (free : list Z -> Alloc -> Alloc) (a : Alloc) : Alloc :=
  let a' := set_group true (free_group a) a in
  match free_group a with
  | [] => a'
  | g => free (concat g) a'
  end.

Definition merge_and_sort_free (a : Alloc) : Alloc :=
  match release_pages a with
  | [] => a
  | r => set_pages (py_sorted (fun x => x) (free_pages a ++ r)) [] a
  end.

(** ** TokenToKVPoolAllocator *)

Definition token_clear (a : Alloc) : Alloc :=
  set_pages (arange 1 (size_ a)) [] (set_group true [] a).

Definition token_init (size : Z) (sort : bool) : Alloc :=
  token_clear (mkAlloc size 1 sort [] [] true []).

Definition token_available_size (a : Alloc) : Z := len (free_pages a) + len (release_pages a).

(** [if self.need_sort and n > len(self.free_pages): self.merge_and_sort_free()] *)
Definition maybe_merge (n : Z) (a : Alloc) : Alloc :=
  if need_sort a && (len (free_pages a) <? n) then merge_and_sort_free a else a.

Definition token_alloc (need_size : Z) (a : Alloc) : option (list Z) * Alloc :=
  let a := maybe_merge need_size a in
  if len (free_pages a) <? need_size then (None, a)
  else (Some (ztake need_size (free_pages a)),
        set_pages (zdrop need_size (free_pages a)) (release_pages a) a).

Definition token_free (free_index : list Z) (a : Alloc) : Alloc :=
  match free_index with
  | [] => a
  | _ =>
      if is_not_in_free_group a then
        if need_sort a then set_pages (free_pages a) (release_pages a ++ free_index) a
        else set_pages (free_pages a ++ free_index) (release_pages a) a
      else set_group false (free_group a ++ [free_index]) a
  end.

(** ** Batched extension: the reference loop *)

(** [(n + page_size - 1) // page_size] *)
Definition ceil_div (n p : Z) : Z := (n + p - 1) / p.

(** [sum(l[:i])] for the exclusive prefix sums of [torch.cumsum] *)
Definition sumZ (l : list Z) : Z := foldr Z.add 0 l.

Definition nthZ (l : list Z) (i : Z) : Z := default 0 (l !! Z.to_nat i).

(** [out[a : a + len(vs)] = vs] as stores *)
Definition store_range (a : Z) (vs : list Z) : list (Z * Z) :=
  zip (seqZ a (len vs)) vs.

(** The request [i] of a batch, as the loop of [alloc_extend_naive] sees it. *)
Record ExtReq := mkExtReq {
  er_pre : Z;          (* prefix_lens[i] *)
  er_seq : Z;          (* seq_lens[i] *)
  er_last : Z;         (* last_loc[i] *)
  er_start : Z;        (* start_pos[i] *)
  er_new_start : Z }.  (* start_new_pages[i] *)

Definition extend_lens (pre seq : list Z) : list Z := zip_with Z.sub seq pre.
Definition num_new_pages_of (p : Z) (pre seq : list Z) : list Z :=
  zip_with (fun s r => ceil_div s p - ceil_div r p) seq pre.

Definition ext_req (p : Z) (pre seq last : list Z) (i : nat) : ExtReq :=
  mkExtReq (nthZ pre (Z.of_nat i)) (nthZ seq (Z.of_nat i)) (nthZ last (Z.of_nat i))
    (sumZ (take i (extend_lens pre seq))) (sumZ (take i (num_new_pages_of p pre seq))).

(** One iteration of the loop: the three parts of a request's slots. *)
Definition naive_stores (p : Z) (free : list Z) (r : ExtReq) : list (Z * Z) :=
  let pre := er_pre r in
  let seq := er_seq r in
  let num_new := ceil_div seq p - ceil_div pre p in
  let num_full := seq / p - ceil_div pre p in
  let need_page := num_new - num_full in
  let end_new := er_new_start r + num_new in
  let end_pos := er_start r + (seq - pre) in
  let num1 := Z.min seq (ceil_div pre p * p) - pre in
  let part1 := store_range (er_start r) ((fun o => er_last r + 1 + o) <$> arange 0 num1) in
  if pre + num1 =? seq then part1
  else
    let num2 := (seq / p - ceil_div pre p) * p in
    let pages := ztake (end_new - need_page - er_new_start r) (zdrop (er_new_start r) free) in
    let part2 :=
      store_range (er_start r + num1)
        (concat ((fun pg => (fun o => pg * p + o) <$> arange 0 p) <$> pages)) in
    if pre + num1 + num2 =? seq then part1 ++ part2
    else
      let num3 := seq - seq / p * p in
      part1 ++ part2 ++
      store_range (end_pos - num3)
        ((fun o => nthZ free (end_new - 1) * p + o) <$> arange 0 num3).

(** The array after a list of stores: the last store to an address wins. *)
Definition run_stores (out : gmap Z Z) (st : list (Z * Z)) : gmap Z Z :=
  foldl (fun m av => <[av.1 := av.2]> m) out st.

Definition alloc_extend_naive (p : Z) (pre seq last free : list Z) : gmap Z Z :=
  run_stores ∅
    (concat ((fun i => naive_stores p free (ext_req p pre seq last i)) <$> List.seq 0 (length pre))).

(** ** Batched extension: the Triton kernel *)

(** [tl.arange] lanes [0, n) kept by a mask [o < m] *)
Definition lanes (n m : Z) : list Z := filter (fun o => o < m) (arange 0 n).

Definition BLOCK_EXTEND : Z := 4096.

(** The offsets a program instance computes from the lanes [0 .. pid] it loads: a request
    with [output_start_loc] and [new_page_start_loc]. *)
Definition kernel_req (p : Z) (pre_lens seq_lens last_loc : list Z) (pid : nat) : ExtReq :=
  let seqs := take (S pid) seq_lens in
  let pres := take (S pid) pre_lens in
  let seq_len := nthZ seq_lens (Z.of_nat pid) in
  let pre_len := nthZ pre_lens (Z.of_nat pid) in
  let num_page_start_loc_self := ceil_div seq_len p - ceil_div pre_len p in
  mkExtReq pre_len seq_len (nthZ last_loc (Z.of_nat pid))
    (sumZ (extend_lens pres seqs) - (seq_len - pre_len))
    (sumZ (num_new_pages_of p pres seqs) - num_page_start_loc_self).

(** The stores it then issues. *)
Definition kernel_stores (p : Z) (free : list Z) (r : ExtReq) : list (Z * Z) :=
  let pre_len := er_pre r in
  let seq_len := er_seq r in
  let output_start_loc := er_start r in
  let new_page_start_loc := er_new_start r in
  let num_page_start_loc_self := ceil_div seq_len p - ceil_div pre_len p in
  let num_part1 := Z.min seq_len (ceil_div pre_len p * p) - pre_len in
  let part1 := (fun o => (output_start_loc + o, er_last r + 1 + o)) <$> lanes p num_part1 in
  if pre_len + num_part1 =? seq_len then part1
  else
    let num_part2 := seq_len / p * p - ceil_div pre_len p * p in
    let num_blocks := (num_part2 + BLOCK_EXTEND - 1) / BLOCK_EXTEND in
    let part2 :=
      concat ((fun block_id =>
        (fun o =>
          let offset := block_id * BLOCK_EXTEND + o in
          (output_start_loc + num_part1 + offset,
           nthZ free (new_page_start_loc + offset / p) * p + offset mod p))
        <$> filter (fun o => block_id * BLOCK_EXTEND + o < num_part2) (arange 0 BLOCK_EXTEND))
        <$> arange 0 num_blocks) in
    if pre_len + num_part1 + num_part2 =? seq_len then part1 ++ part2
    else
      let num_part3 := seq_len - seq_len / p * p in
      let start_loc := nthZ free (new_page_start_loc + num_page_start_loc_self - 1) in
      part1 ++ part2 ++
      ((fun o => (output_start_loc + num_part1 + num_part2 + o, start_loc * p + o))
        <$> lanes p num_part3).

(** Program instance [pid]. *)
Definition alloc_extend_kernel (p : Z) (pre_lens seq_lens last_loc free : list Z) (pid : nat) :
    list (Z * Z) :=
  kernel_stores p free (kernel_req p pre_lens seq_lens last_loc pid).

(** The launch over a grid of [len(pre_lens)] instances, in the order [order]. *)
Definition launch (kernel : nat -> list (Z * Z)) (order : list nat) : gmap Z Z :=
  run_stores ∅ (concat (kernel <$> order)).

Definition alloc_decode_kernel (p : Z) (seq_lens last_loc free : list Z) (pid : nat) : list (Z * Z) :=
  let seqs := take (S pid) seq_lens in
  let pres := (fun s => s - 1) <$> seqs in
  let seq_len := nthZ seq_lens (Z.of_nat pid) in
  let pre_len := seq_len - 1 in
  let num_page_start_loc_self := ceil_div seq_len p - ceil_div pre_len p in
  let new_page_start_loc :=
    sumZ (num_new_pages_of p pres seqs) - num_page_start_loc_self in
  if num_page_start_loc_self =? 0 then
    [(Z.of_nat pid, nthZ last_loc (Z.of_nat pid) + 1)]
  else [(Z.of_nat pid, nthZ free new_page_start_loc * p)].

(** utils/common.py [get_num_new_pages] *)
Definition get_num_new_pages (p : Z) (seq_lens : list Z) (prefix_lens : option (list Z))
    (decode : bool) : Outcome Z :=
  match prefix_lens, decode with
  | Some pre, false => Ret (sumZ (num_new_pages_of p pre seq_lens))
  | None, false => Raise AssertionError
  | _, true => Ret (sumZ ((fun s => if s mod p =? 1 then 1 else 0) <$> seq_lens))
  end.

(** ** PagedTokenToKVPoolAllocator *)

Definition paged_clear (a : Alloc) : Alloc :=
  set_pages (arange 1 (size_ a / page_size a)) [] (set_group true [] a).

Definition paged_init (size p : Z) (sort : bool) : Alloc :=
  paged_clear (mkAlloc size p sort [] [] true []).

(** The token slots of whole pages: [(pages[:, None] * p + arange(p)).reshape(-1)] *)
Definition expand_pages (p : Z) (pages : list Z) : list Z :=
  concat ((fun pg => (fun o => pg * p + o) <$> arange 0 p) <$> pages).

Definition paged_alloc (debug : bool) (need_size : Z) (a : Alloc) : Outcome (option (list Z) * Alloc) :=
  if debug && negb (need_size mod page_size a =? 0) then Raise AssertionError
  else
    let num_pages := need_size / page_size a in
    let a := maybe_merge num_pages a in
    if len (free_pages a) <? num_pages then Ret (None, a)
    else Ret (Some (expand_pages (page_size a) (ztake num_pages (free_pages a))),
              set_pages (zdrop num_pages (free_pages a)) (release_pages a) a).

(** The [n]-entry tensor read back from memory. *)
Definition read_out (n : Z) (m : gmap Z Z) : list Z := (fun i => default 0 (m !! i)) <$> arange 0 n.

Definition alloc_extend (prefix_lens seq_lens last_loc : list Z) (extend_num_tokens : Z)
    (num_new_pages : option Z) (a : Alloc) : Outcome (option (list Z) * Alloc) :=
  let p := page_size a in
  let bs := len prefix_lens in
  let a := maybe_merge (extend_num_tokens / p + bs + 1) a in
  let out_indices :=
    read_out extend_num_tokens
      (launch (alloc_extend_kernel p prefix_lens seq_lens last_loc (free_pages a))
         (List.seq 0 (length prefix_lens))) in
  n ← match num_new_pages with
      | Some n => Ret n
      | None => get_num_new_pages p seq_lens (Some prefix_lens) false
      end;
  if len (free_pages a) <? n then Ret (None, a)
  else Ret (Some out_indices, set_pages (zdrop n (free_pages a)) (release_pages a) a).

Definition alloc_decode (seq_lens last_loc : list Z) (a : Alloc) : Outcome (option (list Z) * Alloc) :=
  let p := page_size a in
  let bs := len seq_lens in
  let a := maybe_merge bs a in
  let out_indices :=
    read_out bs (launch (alloc_decode_kernel p seq_lens last_loc (free_pages a))
                   (List.seq 0 (length seq_lens))) in
  n ← get_num_new_pages p seq_lens None true;
  if len (free_pages a) <? n then Ret (None, a)
  else Ret (Some out_indices, set_pages (zdrop n (free_pages a)) (release_pages a) a).

(** [torch.unique]: the distinct values in increasing order *)
Definition unique (l : list Z) : list Z := py_sorted (fun x => x) (remove_dups l).

Definition paged_free (free_index : list Z) (a : Alloc) : Alloc :=
  match free_index with
  | [] => a
  | _ =>
      if is_not_in_free_group a then
        let pages := unique ((fun i => i / page_size a) <$> free_index) in
        if need_sort a then set_pages (free_pages a) (pages ++ release_pages a) a
        else set_pages (pages ++ free_pages a) (release_pages a) a
      else set_group false (free_group a ++ [free_index]) a
  end.
