(* ===== verification/AllocatorProofs.v ===== *)
(** * Correctness of the KV-pool index allocators

    - [extend_slot] is the slot of every token of a batched extension in closed form; the
      reference loop and the Triton kernel, its instances run in any order, both compute it;
    - the slots of a batch are pairwise distinct and keep a token's offset within its page;
    - allocation and freeing conserve the pool: what is handed out, free and released is
      always a permutation of what the pool started with. *)

From stdpp Require Import base tactics list gmap strings sorting.
From Stdlib Require Import ZArith Lia.
From S2P Require Import Prelude Allocator.

(** ** Ranges *)

Lemma seqZ_split a n m : 0 <= n -> 0 <= m -> seqZ a (n + m) = seqZ a n ++ (Z.add n <$> seqZ a m).
Proof.
  intros. rewrite seqZ_app by lia. rewrite fmap_add_seqZ. do 2 f_equal. lia.
Qed.

Lemma seqZ_1 a : seqZ a 1 = [a].
Proof. done. Qed.

Lemma filter_lt_seqZ n m : filter (fun o => o < m) (seqZ 0 n) = seqZ 0 (n `min` m).
Proof.
  destruct (decide (n <= 0)) as [Hn|Hn]; [by rewrite !seqZ_nil by lia|].
  replace n with (Z.of_nat (Z.to_nat n)) by lia. generalize (Z.to_nat n) as k. clear.
  induction k as [|k IH]; [by rewrite !seqZ_nil by lia|].
  rewrite Nat2Z.inj_succ, <-Z.add_1_r, seqZ_app by lia. rewrite seqZ_1, filter_app, IH.
  rewrite filter_cons, filter_nil. case_decide.
  - rewrite !Z.min_l by lia. by rewrite seqZ_app by lia.
  - rewrite app_nil_r. f_equal. lia.
Qed.

Lemma store_range_fmap a (f : Z -> Z) n :
  store_range a (f <$> seqZ 0 n) = (fun o => (a + o, f o)) <$> seqZ 0 n.
Proof.
  unfold store_range, len. rewrite length_fmap, length_seqZ.
  destruct (decide (n <= 0)); [by rewrite !(seqZ_nil _ n) by lia; rewrite seqZ_nil by lia|].
  rewrite Z2Nat.id by lia. rewrite <-(Z.add_0_r a) at 1. rewrite <-fmap_add_seqZ.
  by rewrite zip_with_fmap_l, zip_with_fmap_r, zip_with_diag.
Qed.

Lemma len_app l1 l2 : len (l1 ++ l2) = len l1 + len l2.
Proof. unfold len. rewrite length_app. lia. Qed.
Lemma len_nonneg l : 0 <= len l.
Proof. unfold len. lia. Qed.

Lemma nthZ_lookup l i x : 0 <= i -> l !! Z.to_nat i = Some x -> nthZ l i = x.
Proof. intros _ H. unfold nthZ. by rewrite H. Qed.

Lemma nthZ_elem l i : 0 <= i < len l -> nthZ l i ∈ l.
Proof.
  unfold len, nthZ. intros Hi.
  destruct (lookup_lt_is_Some_2 l (Z.to_nat i)) as [x Hx]; [lia|].
  rewrite Hx. simpl. by eapply list_elem_of_lookup_2.
Qed.

Lemma nthZ_inj l i j :
  NoDup l -> 0 <= i < len l -> 0 <= j < len l -> nthZ l i = nthZ l j -> i = j.
Proof.
  unfold len, nthZ. intros Hl Hi Hj.
  destruct (lookup_lt_is_Some_2 l (Z.to_nat i)) as [x Hx]; [lia|].
  destruct (lookup_lt_is_Some_2 l (Z.to_nat j)) as [y Hy]; [lia|].
  rewrite Hx, Hy. simpl. intros <-. enough (Z.to_nat i = Z.to_nat j) by lia.
  by eapply NoDup_lookup.
Qed.

(** ** Pages laid out as token slots *)

Lemma expand_pages_eq p pages :
  0 < p ->
  expand_pages p pages
  = (fun o => nthZ pages (o / p) * p + o mod p) <$> seqZ 0 (len pages * p).
Proof.
  intros Hp. induction pages as [|pg pages IH]; [done|].
  change (expand_pages p (pg :: pages))
    with (((fun o => pg * p + o) <$> arange 0 p) ++ expand_pages p pages).
  rewrite IH. unfold len. simpl length.
  replace (Z.of_nat (S (length pages)) * p) with (p + Z.of_nat (length pages) * p) by lia.
  rewrite seqZ_split by lia. rewrite fmap_app. f_equal.
  - unfold arange. apply list_fmap_ext. intros i o Ho%list_elem_of_lookup_2%elem_of_seqZ.
    rewrite Z.div_small, Z.mod_small by lia. done.
  - rewrite <-list_fmap_compose. apply list_fmap_ext.
    intros i o Ho%list_elem_of_lookup_2%elem_of_seqZ. simpl.
    replace (p + o) with (o + 1 * p) by lia. rewrite Z.div_add, Z.mod_add by lia.
    assert (0 <= o / p) by (apply Z.div_pos; lia). unfold nthZ.
    replace (Z.to_nat (o / p + 1)) with (S (Z.to_nat (o / p))) by lia. done.
Qed.

Lemma kernel_blocks {A} (g : Z -> A) B n :
  0 < B -> 0 <= n ->
  concat ((fun b => (fun o => g (b * B + o)) <$> filter (fun o => b * B + o < n) (arange 0 B))
            <$> arange 0 ((n + B - 1) / B))
  = g <$> seqZ 0 n.
Proof.
  intros HB Hn. unfold arange.
  assert (forall k : nat,
    concat ((fun b => (fun o => g (b * B + o)) <$> filter (fun o => b * B + o < n) (seqZ 0 B))
              <$> seqZ 0 (Z.of_nat k)) = g <$> seqZ 0 (n `min` (Z.of_nat k * B))) as Hk.
  { intros k. induction k as [|k IH]; [by rewrite (seqZ_nil 0 (n `min` _)) by lia|].
    rewrite Nat2Z.inj_succ, <-Z.add_1_r, seqZ_app, seqZ_1 by lia.
    rewrite fmap_app, concat_app, IH. simpl. rewrite app_nil_r.
    rewrite (list_filter_iff _ (fun o => o < n - Z.of_nat k * B)) by lia.
    rewrite filter_lt_seqZ.
    destruct (decide (n <= Z.of_nat k * B)).
    - rewrite (seqZ_nil 0 (B `min` _)) by lia. simpl. rewrite app_nil_r. do 2 f_equal. lia.
    - rewrite (Z.min_r n (Z.of_nat k * B)) by lia.
      replace (n `min` ((Z.of_nat k + 1) * B))
        with (Z.of_nat k * B + B `min` (n - Z.of_nat k * B)) by lia.
      rewrite seqZ_split by lia. rewrite fmap_app, <-list_fmap_compose. done. }
  specialize (Hk (Z.to_nat ((n + B - 1) / B))).
  assert (0 <= (n + B - 1) / B) by (apply Z.div_pos; lia).
  rewrite Z2Nat.id in Hk by lia. rewrite Hk. do 2 f_equal. apply Z.min_l.
  pose proof (Z.div_mod (n + B - 1) B). pose proof (Z.mod_pos_bound (n + B - 1) B). lia.
Qed.

(** ** The slot of token [j] of a request *)

Definition extend_slot (p : Z) (free : list Z) (r : ExtReq) (j : Z) : Z :=
  if j <? ceil_div (er_pre r) p * p then er_last r + 1 + (j - er_pre r)
  else nthZ free (er_new_start r + (j / p - ceil_div (er_pre r) p)) * p + j mod p.

Definition slot_stores (p : Z) (free : list Z) (r : ExtReq) : list (Z * Z) :=
  (fun o => (er_start r + o, extend_slot p free r (er_pre r + o)))
    <$> seqZ 0 (er_seq r - er_pre r).

Lemma ceil_div_bounds n p : 0 < p -> n <= ceil_div n p * p < n + p.
Proof.
  intros Hp. unfold ceil_div. pose proof (Z.div_mod (n + p - 1) p).
  pose proof (Z.mod_pos_bound (n + p - 1) p). lia.
Qed.

Lemma div_bounds n p : 0 < p -> n / p * p <= n < n / p * p + p.
Proof. intros. pose proof (Z.div_mod n p). pose proof (Z.mod_pos_bound n p). lia. Qed.

Lemma ceil_div_mono n m p : 0 < p -> n <= m -> ceil_div n p <= ceil_div m p.
Proof. intros. unfold ceil_div. apply Z.div_le_mono; lia. Qed.

Lemma ceil_div_floor n p :
  0 < p -> ceil_div n p = n / p + (if n / p * p =? n then 0 else 1).
Proof.
  intros Hp. pose proof (ceil_div_bounds n p Hp). pose proof (div_bounds n p Hp).
  destruct (Z.eqb_spec (n / p * p) n); nia.
Qed.

(** A well-formed request whose pages are all available. *)
Definition req_ok (p : Z) (free : list Z) (r : ExtReq) : Prop :=
  0 < p /\ 0 <= er_pre r <= er_seq r /\ 0 <= er_new_start r /\
  er_new_start r + (ceil_div (er_seq r) p - ceil_div (er_pre r) p) <= len free.

Section request.
Context (p : Z) (free : list Z) (r : ExtReq) (Hr : req_ok p free r).
Local Abbreviation pre := (er_pre r).
Local Abbreviation seq := (er_seq r).
Local Abbreviation c := (ceil_div (er_pre r) p).

(** The tokens that still fit on the page of the prefix. *)
Definition stores1 (n : Z) : list (Z * Z) :=
  (fun o => (er_start r + o, er_last r + 1 + o)) <$> seqZ 0 n.
(** The tokens on full new pages. *)
Definition stores2 (n1 n : Z) : list (Z * Z) :=
  (fun o => (er_start r + n1 + o, nthZ free (er_new_start r + o / p) * p + o mod p)) <$> seqZ 0 n.
(** The tokens on the last, partial new page. *)
Definition stores3 (n1 n2 n : Z) : list (Z * Z) :=
  (fun o => (er_start r + n1 + n2 + o, nthZ free (er_new_start r + (seq / p - c)) * p + o))
    <$> seqZ 0 n.

Lemma slot_stores_short : seq <= c * p -> slot_stores p free r = stores1 (seq - pre).
Proof.
  intros Hs. apply list_fmap_ext. intros i o Ho%list_elem_of_lookup_2%elem_of_seqZ.
  unfold extend_slot. rewrite (proj2 (Z.ltb_lt _ _)) by lia. f_equal. lia.
Qed.

Lemma slot_stores_long :
  c * p < seq ->
  slot_stores p free r
  = stores1 (c * p - pre) ++ stores2 (c * p - pre) ((seq / p - c) * p)
    ++ stores3 (c * p - pre) ((seq / p - c) * p) (seq - seq / p * p).
Proof.
  intros Hs. destruct Hr as (Hp & Hpre & Hnew & Hfree).
  pose proof (ceil_div_bounds pre p Hp) as Hc. pose proof (div_bounds seq p Hp) as Hf.
  assert (c <= seq / p) as Hcf by nia.
  unfold slot_stores.
  replace (seq - pre) with ((c * p - pre) + ((seq / p - c) * p + (seq - seq / p * p))) by lia.
  rewrite seqZ_split, fmap_app by nia. f_equal.
  { apply list_fmap_ext. intros i o Ho%list_elem_of_lookup_2%elem_of_seqZ.
    unfold extend_slot. rewrite (proj2 (Z.ltb_lt _ _)) by lia. f_equal. lia. }
  rewrite seqZ_split, fmap_app, fmap_app by nia. rewrite <-!list_fmap_compose. f_equal.
  - apply list_fmap_ext. intros i o Ho%list_elem_of_lookup_2%elem_of_seqZ. simpl.
    unfold extend_slot. rewrite (proj2 (Z.ltb_ge _ _)) by lia.
    replace (pre + (c * p - pre + o)) with (o + c * p) by lia.
    rewrite Z.div_add, Z.mod_add by lia. f_equal; [lia|]. do 3 f_equal. lia.
  - apply list_fmap_ext. intros i o Ho%list_elem_of_lookup_2%elem_of_seqZ. simpl.
    unfold extend_slot. rewrite (proj2 (Z.ltb_ge _ _)) by nia.
    replace (pre + (c * p - pre + ((seq / p - c) * p + o))) with (o + seq / p * p) by lia.
    rewrite Z.div_add, Z.mod_add, (Z.div_small o p), (Z.mod_small o p) by lia. by f_equal; lia.
Qed.

Lemma naive_stores_slots : naive_stores p free r = slot_stores p free r.
Proof.
  destruct Hr as (Hp & Hpre & Hnew & Hfree).
  pose proof (ceil_div_bounds pre p Hp) as Hc. pose proof (div_bounds seq p Hp) as Hf.
  pose proof (ceil_div_floor seq p Hp) as He.
  unfold naive_stores, arange. rewrite store_range_fmap.
  destruct (Z.eqb_spec (pre + (seq `min` (c * p) - pre)) seq) as [E|E].
  { rewrite slot_stores_short by lia. rewrite Z.min_l by lia. done. }
  rewrite slot_stores_long by lia. rewrite Z.min_r by lia.
  assert (c <= seq / p) as Hcf by nia.
  set (pages := ztake _ _).
  assert (len pages = seq / p - c) as Hlen.
  { unfold pages, ztake, zdrop, len in *. rewrite length_take, length_drop.
    destruct (Z.eqb_spec (seq / p * p) seq); lia. }
  change (concat _) with (expand_pages p pages). rewrite expand_pages_eq, store_range_fmap, Hlen by done.
  assert (((fun o => (er_start r + (c * p - pre) + o, nthZ pages (o / p) * p + o mod p))
             <$> seqZ 0 ((seq / p - c) * p))
          = stores2 (c * p - pre) ((seq / p - c) * p)) as ->.
  { apply list_fmap_ext. intros i o Ho%list_elem_of_lookup_2%elem_of_seqZ.
    assert (0 <= o / p) by (apply Z.div_pos; lia).
    assert (o / p < seq / p - c) by (apply Z.div_lt_upper_bound; lia).
    f_equal. do 2 f_equal. unfold nthZ, pages, ztake, zdrop, len in *.
    rewrite lookup_take_lt by (destruct (Z.eqb_spec (seq / p * p) seq); lia).
    rewrite lookup_drop. do 2 f_equal. lia. }
  destruct (Z.eqb_spec (pre + (c * p - pre) + (seq / p - c) * p) seq) as [E2|E2].
  { unfold stores3. rewrite (seqZ_nil 0 (seq - _)) by lia. simpl. by rewrite app_nil_r. }
  rewrite store_range_fmap. do 2 f_equal. unfold stores3.
  destruct (Z.eqb_spec (seq / p * p) seq); [lia|].
  apply list_fmap_ext. intros i o Ho%list_elem_of_lookup_2%elem_of_seqZ.
  f_equal; [lia|]. do 3 f_equal. lia.
Qed.

Lemma kernel_stores_slots : kernel_stores p free r = slot_stores p free r.
Proof.
  destruct Hr as (Hp & Hpre & Hnew & Hfree).
  pose proof (ceil_div_bounds pre p Hp) as Hc. pose proof (div_bounds seq p Hp) as Hf.
  pose proof (ceil_div_floor seq p Hp) as He.
  unfold kernel_stores, lanes. unfold arange at 1 2 3 6. rewrite !filter_lt_seqZ.
  destruct (Z.eqb_spec (pre + (seq `min` (c * p) - pre)) seq) as [E|E].
  { rewrite slot_stores_short by lia. unfold stores1. do 2 f_equal. lia. }
  rewrite slot_stores_long by lia. rewrite !(Z.min_r seq) by lia.
  assert (c <= seq / p) as Hcf by nia.
  rewrite !(Z.min_r p) by lia.
  rewrite !(kernel_blocks (fun offset => (er_start r + (c * p - pre) + offset,
    nthZ free (er_new_start r + offset / p) * p + offset mod p))) by (unfold BLOCK_EXTEND; nia).
  replace (seq / p * p - c * p) with ((seq / p - c) * p) by lia.
  destruct (Z.eqb_spec (pre + (c * p - pre) + (seq / p - c) * p) seq) as [E2|E2].
  { unfold stores3. rewrite (seqZ_nil 0 (seq - _)) by lia. simpl. by rewrite app_nil_r. }
  do 2 f_equal. unfold stores3. destruct (Z.eqb_spec (seq / p * p) seq); [lia|].
  apply list_fmap_ext. intros i o Ho%list_elem_of_lookup_2%elem_of_seqZ.
  f_equal. do 3 f_equal. lia.
Qed.
End request.

(** ** Prefix sums of a batch *)

Lemma sumZ_app l1 l2 : sumZ (l1 ++ l2) = sumZ l1 + sumZ l2.
Proof. unfold sumZ. induction l1 as [|x l1 IH]; simpl; [done|]. rewrite IH. lia. Qed.

Lemma sumZ_nonneg l : Forall (fun x => 0 <= x) l -> 0 <= sumZ l.
Proof. unfold sumZ. induction 1; simpl; lia. Qed.

Lemma sumZ_take_S l i x : l !! i = Some x -> sumZ (take (S i) l) = sumZ (take i l) + x.
Proof.
  intros Hx. rewrite (take_S_r _ _ _ Hx), sumZ_app. unfold sumZ at 2. simpl. lia.
Qed.

Lemma sumZ_take_le l i j :
  Forall (fun x => 0 <= x) l -> (i <= j)%nat -> sumZ (take i l) <= sumZ (take j l).
Proof.
  intros Hl Hij. rewrite <-(take_drop i (take j l)), take_take.
  rewrite Nat.min_l by lia. rewrite sumZ_app.
  enough (0 <= sumZ (drop i (take j l))) by lia.
  apply sumZ_nonneg. by apply Forall_drop, Forall_take.
Qed.

Lemma sumZ_perm l1 l2 : l1 ≡ₚ l2 -> sumZ l1 = sumZ l2.
Proof. unfold sumZ. induction 1; simpl; lia. Qed.

(** A batch as the scheduler hands it over, with enough free pages for it. *)
Definition batch_ok (p : Z) (pre seq free : list Z) : Prop :=
  0 < p /\ Forall2 (fun a b => 0 <= a <= b) pre seq /\
  sumZ (num_new_pages_of p pre seq) <= len free.

Section batch.
Context (p : Z) (pre seq last free : list Z) (Hb : batch_ok p pre seq free).
Local Abbreviation req := (ext_req p pre seq last).

Lemma batch_lens : length pre = length seq.
Proof. destruct Hb as (_ & H & _). by eapply Forall2_length. Qed.

Lemma batch_lookup i :
  (i < length pre)%nat ->
  exists a b, pre !! i = Some a /\ seq !! i = Some b /\ 0 <= a <= b /\
    er_pre (req i) = a /\ er_seq (req i) = b /\
    extend_lens pre seq !! i = Some (b - a) /\
    num_new_pages_of p pre seq !! i = Some (ceil_div b p - ceil_div a p).
Proof.
  intros Hi. destruct Hb as (Hp & Hall & _).
  destruct (lookup_lt_is_Some_2 _ _ Hi) as [a Ha].
  destruct (Forall2_lookup_l _ _ _ _ _ Hall Ha) as (b & Hbq & Hab).
  exists a, b. unfold ext_req, nthZ, extend_lens, num_new_pages_of. simpl.
  rewrite Nat2Z.id, Ha, Hbq. simpl. split_and!; try done; try lia.
  all: rewrite lookup_zip_with, Ha, Hbq; done.
Qed.

Lemma batch_nonneg :
  Forall (fun x => 0 <= x) (extend_lens pre seq) /\
  Forall (fun x => 0 <= x) (num_new_pages_of p pre seq).
Proof.
  destruct Hb as (Hp & Hall & _). unfold extend_lens, num_new_pages_of. clear Hb.
  induction Hall as [|a b pre' seq' Hab Hall IH]; simpl; [split; constructor|].
  destruct IH. split; constructor; [lia|done| |done].
  pose proof (ceil_div_mono a b p). lia.
Qed.

Lemma batch_req_ok i : (i < length pre)%nat -> req_ok p free (req i).
Proof.
  intros Hi. destruct Hb as (Hp & Hall & Hfree). destruct batch_nonneg as [_ Hn].
  destruct (batch_lookup i Hi) as (a & b & Ha & Hbq & Hab & Ea & Eb & _ & Hnum).
  unfold req_ok. rewrite Ea, Eb. simpl. split_and!; [lia..| |].
  - apply sumZ_nonneg. by apply Forall_take.
  - rewrite <-(sumZ_take_S _ _ _ Hnum).
    etrans; [apply (sumZ_take_le _ (S i) (length (num_new_pages_of p pre seq)) Hn)|].
    + apply lookup_lt_Some in Hnum. lia.
    + by rewrite firstn_all.
Qed.

Lemma take_zip_with {A B C} (f : A -> B -> C) n l k :
  zip_with f (take n l) (take n k) = take n (zip_with f l k).
Proof.
  revert l k. induction n as [|n IH]; intros [|x l] [|y k]; simpl; try done. by rewrite IH.
Qed.

Lemma kernel_req_eq i : (i < length pre)%nat -> kernel_req p pre seq last i = req i.
Proof.
  intros Hi. destruct (batch_lookup i Hi) as (a & b & Ha & Hbq & Hab & Ea & Eb & Hext & Hnum).
  unfold kernel_req, ext_req in *. simpl in *. rewrite Ea, Eb.
  unfold extend_lens, num_new_pages_of. rewrite !take_zip_with.
  fold (extend_lens pre seq). fold (num_new_pages_of p pre seq).
  rewrite (sumZ_take_S _ _ _ Hext), (sumZ_take_S _ _ _ Hnum). f_equal; lia.
Qed.

Lemma req_start_S i :
  (i < length pre)%nat ->
  er_start (req (S i)) = er_start (req i) + (er_seq (req i) - er_pre (req i)).
Proof.
  intros Hi. destruct (batch_lookup i Hi) as (a & b & _ & _ & _ & -> & -> & Hext & _).
  by apply sumZ_take_S.
Qed.

Lemma req_new_start_S i :
  (i < length pre)%nat ->
  er_new_start (req (S i))
  = er_new_start (req i) + (ceil_div (er_seq (req i)) p - ceil_div (er_pre (req i)) p).
Proof.
  intros Hi. destruct (batch_lookup i Hi) as (a & b & _ & _ & _ & -> & -> & _ & Hnum).
  by apply sumZ_take_S.
Qed.

Lemma req_new_start_le i j :
  (i <= j <= length pre)%nat -> er_new_start (req i) <= er_new_start (req j).
Proof. intros Hij. simpl. apply sumZ_take_le; [apply batch_nonneg|lia]. Qed.

(** The addresses of a batch are written exactly once, in the order of the batch. *)
Lemma batch_addresses k :
  (k <= length pre)%nat ->
  (concat ((fun i => slot_stores p free (req i)) <$> List.seq 0 k)).*1
  = seqZ 0 (er_start (req k)).
Proof.
  induction k as [|k IH]; intros Hk; [done|].
  rewrite seq_S, fmap_app, concat_app, fmap_app, IH by lia.
  destruct (batch_lookup k) as (a & b & _ & _ & Hab & Ea & Eb & _); [lia|].
  rewrite req_start_S by lia. rewrite seqZ_app.
  - f_equal. simpl concat. rewrite app_nil_r. unfold slot_stores.
    rewrite <-list_fmap_compose.
    transitivity (Z.add (er_start (req k)) <$> seqZ 0 (er_seq (req k) - er_pre (req k))).
    + by apply list_fmap_ext.
    + rewrite fmap_add_seqZ. f_equal. lia.
  - simpl. apply sumZ_nonneg, Forall_take, batch_nonneg.
  - lia.
Qed.
End batch.

(** ** Stores *)

Lemma run_stores_app m st1 st2 : run_stores m (st1 ++ st2) = run_stores (run_stores m st1) st2.
Proof. unfold run_stores. by rewrite foldl_app. Qed.

Lemma run_stores_lookup_ne m st a : a ∉ st.*1 -> run_stores m st !! a = m !! a.
Proof.
  revert m. induction st as [|[b v] st IH]; intros m Ha; [done|]. cbn in *.
  apply not_elem_of_cons in Ha as [??]. unfold run_stores in *. simpl.
  rewrite IH by done. by rewrite lookup_insert_ne.
Qed.

Lemma run_stores_lookup m st a v :
  NoDup st.*1 -> (a, v) ∈ st -> run_stores m st !! a = Some v.
Proof.
  revert m. induction st as [|[b w] st IH]; intros m; simpl; [set_solver|].
  rewrite NoDup_cons. intros [Hb Hst] [?|Hin]%elem_of_cons; simplify_eq.
  - unfold run_stores. simpl. fold (run_stores (<[b:=w]> m) st).
    rewrite run_stores_lookup_ne by done. by rewrite lookup_insert_eq.
  - by apply IH.
Qed.

Lemma run_stores_perm m st st' :
  NoDup st.*1 -> st ≡ₚ st' -> run_stores m st = run_stores m st'.
Proof.
  intros Hnd Hp. assert (NoDup st'.*1) as Hnd' by (by rewrite <-Hp).
  apply map_eq. intros a. destruct (decide (a ∈ st.*1)) as [Ha|Ha].
  - apply list_elem_of_fmap in Ha as ([b v] & -> & Hin). simpl.
    rewrite (run_stores_lookup m st b v) by done. symmetry.
    apply run_stores_lookup; [done|]. by rewrite <-Hp.
  - rewrite !run_stores_lookup_ne; [done| |done]. by rewrite <-Hp.
Qed.

(** All stores of a batch, in the order of the requests. *)
Definition batch_stores (p : Z) (pre seq last free : list Z) : list (Z * Z) :=
  concat ((fun i => slot_stores p free (ext_req p pre seq last i)) <$> List.seq 0 (length pre)).

Lemma batch_stores_NoDup p pre seq last free :
  batch_ok p pre seq free -> NoDup (batch_stores p pre seq last free).*1.
Proof.
  intros Hb. unfold batch_stores. rewrite (batch_addresses p pre seq last free Hb) by done.
  apply NoDup_seqZ.
Qed.

Lemma launch_batch p pre seq last free order :
  batch_ok p pre seq free -> order ≡ₚ List.seq 0 (length pre) ->
  launch (alloc_extend_kernel p pre seq last free) order
  = run_stores ∅ (batch_stores p pre seq last free).
Proof.
  intros Hb Ho. unfold launch. symmetry. apply run_stores_perm; [by apply batch_stores_NoDup|].
  rewrite Ho. unfold batch_stores.
  enough ((fun i => slot_stores p free (ext_req p pre seq last i)) <$> List.seq 0 (length pre)
          = alloc_extend_kernel p pre seq last free <$> List.seq 0 (length pre)) as -> by done.
  apply list_fmap_ext. intros k i [-> Hi]%lookup_seq. unfold alloc_extend_kernel.
  rewrite (kernel_req_eq p pre seq last free Hb) by lia. symmetry.
  by apply kernel_stores_slots, batch_req_ok.
Qed.

Lemma naive_batch p pre seq last free :
  batch_ok p pre seq free ->
  alloc_extend_naive p pre seq last free = run_stores ∅ (batch_stores p pre seq last free).
Proof.
  intros Hb. unfold alloc_extend_naive, batch_stores. do 2 f_equal. apply list_fmap_ext.
  intros k i [-> Hi]%lookup_seq. by apply naive_stores_slots, batch_req_ok.
Qed.

Lemma batch_stores_lookup p pre seq last free i j :
  batch_ok p pre seq free -> (i < length pre)%nat ->
  let r := ext_req p pre seq last i in
  er_pre r <= j < er_seq r ->
  run_stores ∅ (batch_stores p pre seq last free) !! (er_start r + (j - er_pre r))
  = Some (extend_slot p free r j).
Proof.
  intros Hb Hi r Hj. apply run_stores_lookup; [by apply batch_stores_NoDup|].
  apply list_elem_of_In, in_concat. exists (slot_stores p free r). rewrite <-!list_elem_of_In.
  split.
  - apply list_elem_of_fmap. exists i. split; [done|]. apply elem_of_seq. lia.
  - apply list_elem_of_fmap. exists (j - er_pre r). split; [do 2 f_equal; lia|].
    apply elem_of_seqZ. lia.
Qed.

(** ** The slots of a batch are distinct *)

(** [last_loc] continues the page of a prefix that ends inside a page. *)
Definition last_ok (p : Z) (r : ExtReq) : Prop :=
  er_pre r mod p ≠ 0 -> (er_last r + 1) mod p = er_pre r mod p.

(** The page a token lands on. *)
Definition extend_page (p : Z) (free : list Z) (r : ExtReq) (j : Z) : Z :=
  if j <? ceil_div (er_pre r) p * p then (er_last r + 1) / p
  else nthZ free (er_new_start r + (j / p - ceil_div (er_pre r) p)).

Lemma extend_slot_page p free r j :
  0 < p -> 0 <= er_pre r <= j -> last_ok p r ->
  extend_slot p free r j = extend_page p free r j * p + j mod p.
Proof.
  intros Hp Hj Hlast. unfold extend_slot, extend_page.
  destruct (Z.ltb_spec j (ceil_div (er_pre r) p * p)) as [Hlt|]; [|done].
  pose proof (Z.div_mod (er_pre r) p). pose proof (Z.mod_pos_bound (er_pre r) p).
  pose proof (ceil_div_floor (er_pre r) p Hp) as Hc.
  destruct (Z.eqb_spec (er_pre r / p * p) (er_pre r)) as [E|E]; [lia|].
  unfold last_ok in Hlast. rewrite <-(Z.mod_unique j p (er_pre r / p) (j - er_pre r / p * p));
    [|nia|lia].
  pose proof (Z.div_mod (er_last r + 1) p). lia.
Qed.

Lemma extend_slot_div_mod p free r j :
  0 < p -> 0 <= er_pre r <= j -> last_ok p r ->
  extend_slot p free r j / p = extend_page p free r j /\ extend_slot p free r j mod p = j mod p.
Proof.
  intros Hp Hj Hlast. rewrite extend_slot_page by done. pose proof (Z.mod_pos_bound j p Hp).
  rewrite (Z.add_comm (_ * p)), Z.div_add, Z.mod_add, Z.div_small, Z.mod_mod by lia. lia.
Qed.

(** The pages that prefixes end inside of are distinct and not free. *)
Definition tails_ok (p : Z) (pre seq last free : list Z) : Prop :=
  forall i, (i < length pre)%nat -> let r := ext_req p pre seq last i in
  er_pre r mod p ≠ 0 ->
  (er_last r + 1) mod p = er_pre r mod p /\ ~ ((er_last r + 1) / p ∈ free) /\
  forall i', (i' < length pre)%nat -> let r' := ext_req p pre seq last i' in
    er_pre r' mod p ≠ 0 -> (er_last r' + 1) / p = (er_last r + 1) / p -> i' = i.

Section distinct.
Context (p : Z) (pre seq last free : list Z).
Context (Hb : batch_ok p pre seq free) (Hfree : NoDup free) (Ht : tails_ok p pre seq last free).
Local Abbreviation req := (ext_req p pre seq last).
Local Abbreviation c i := (ceil_div (er_pre (ext_req p pre seq last i)) p).

Lemma tail_unaligned i j :
  (i < length pre)%nat -> er_pre (req i) <= j < c i * p -> er_pre (req i) mod p ≠ 0.
Proof.
  intros Hi Hj E. destruct Hb as (Hp & _). pose proof (Z.div_mod (er_pre (req i)) p).
  pose proof (ceil_div_floor (er_pre (req i)) p Hp).
  destruct (Z.eqb_spec (er_pre (req i) / p * p) (er_pre (req i))); lia.
Qed.

(** A token beyond the prefix's last page takes a page of its own request's share. *)
Lemma new_page_range i j :
  (i < length pre)%nat -> er_pre (req i) <= j < er_seq (req i) -> c i * p <= j ->
  er_new_start (req i) <= er_new_start (req i) + (j / p - c i) < er_new_start (req (S i)) /\
  er_new_start (req (S i)) <= len free.
Proof.
  intros Hi Hj Hc. destruct (batch_req_ok p pre seq last free Hb i Hi) as (Hp & _ & _ & Hle).
  rewrite (req_new_start_S p pre seq last free Hb) by done.
  pose proof (div_bounds j p Hp). pose proof (ceil_div_bounds (er_seq (req i)) p Hp). nia.
Qed.

Lemma extend_slot_inj i j i' j' :
  (i < length pre)%nat -> (i' < length pre)%nat ->
  er_pre (req i) <= j < er_seq (req i) -> er_pre (req i') <= j' < er_seq (req i') ->
  extend_slot p free (req i) j = extend_slot p free (req i') j' -> i = i' /\ j = j'.
Proof.
  intros Hi Hi' Hj Hj' Heq.
  pose proof (batch_req_ok p pre seq last free Hb i Hi) as (Hp & Hpre & Hn & _).
  pose proof (batch_req_ok p pre seq last free Hb i' Hi') as (_ & Hpre' & Hn' & _).
  assert (forall k, (k < length pre)%nat -> last_ok p (req k)) as Hl by (intros k Hk ?; by apply Ht).
  destruct (extend_slot_div_mod p free (req i) j) as [Hd Hm]; [lia..|auto|].
  destruct (extend_slot_div_mod p free (req i') j') as [Hd' Hm']; [lia..|auto|].
  rewrite Heq in Hd, Hm. rewrite Hd in Hd'. rewrite Hm in Hm'. clear Hd Hm.
  pose proof (Z.div_mod j p) as Dj. pose proof (Z.div_mod j' p) as Dj'.
  unfold extend_page in Hd'.
  destruct (Z.ltb_spec j (c i * p)) as [H1|H1]; destruct (Z.ltb_spec j' (c i' * p)) as [H2|H2].
  - pose proof (tail_unaligned i j Hi) as Hu. pose proof (tail_unaligned i' j' Hi') as Hu'.
    destruct (Ht i' Hi') as (_ & _ & Hinj); [apply Hu'; lia|].
    assert (i = i') as <- by (apply Hinj; [done|apply Hu; lia|done]). split; [done|].
    unfold extend_slot in Heq. rewrite !(proj2 (Z.ltb_lt _ _)) in Heq by done. lia.
  - destruct (Ht i Hi) as (_ & Hnf & _); [apply (tail_unaligned i j); lia|].
    destruct Hnf. rewrite Hd'. apply nthZ_elem. pose proof (new_page_range i' j'). lia.
  - destruct (Ht i' Hi') as (_ & Hnf & _); [apply (tail_unaligned i' j'); lia|].
    destruct Hnf. rewrite <-Hd'. apply nthZ_elem. pose proof (new_page_range i j). lia.
  - pose proof (new_page_range i j Hi Hj H1) as [R1 R1'].
    pose proof (new_page_range i' j' Hi' Hj' H2) as [R2 R2'].
    apply (nthZ_inj free) in Hd'; [|done|clear Hd'; lia..].
    assert (i = i') as <-.
    { destruct (Nat.lt_trichotomy i i') as [Hlt|[?|Hlt]]; [|done|].
      - pose proof (req_new_start_le p pre seq last free Hb (S i) i'). lia.
      - pose proof (req_new_start_le p pre seq last free Hb (S i') i). lia. }
    split; [done|]. assert (j / p = j' / p) as E by lia. rewrite E, Hm' in Dj. lia.
Qed.

(** No token of the batch lands on a page that stays free. *)
Lemma extend_page_taken i j :
  (i < length pre)%nat -> er_pre (req i) <= j < er_seq (req i) ->
  extend_page p free (req i) j ∉ zdrop (sumZ (num_new_pages_of p pre seq)) free.
Proof.
  intros Hi Hj Hin. unfold extend_page in Hin. unfold zdrop in Hin.
  destruct (Z.ltb_spec j (c i * p)) as [H1|H1].
  - destruct (Ht i Hi) as (_ & Hnf & _); [apply (tail_unaligned i j); lia|].
    apply Hnf. eapply elem_of_sublist; [exact Hin|]. apply sublist_drop.
  - pose proof (new_page_range i j Hi Hj H1) as [R1 R1'].
    pose proof (req_new_start_le p pre seq last free Hb (S i) (length pre)) as Hle.
    assert (er_new_start (req (length pre)) = sumZ (num_new_pages_of p pre seq)) as Etot.
    { simpl. rewrite take_ge; [done|]. unfold num_new_pages_of. rewrite length_zip_with.
      pose proof (batch_lens p pre seq free Hb). lia. }
    apply list_elem_of_lookup_1 in Hin as [k Hk]. rewrite lookup_drop in Hk.
    set (q := er_new_start (req i) + (j / p - c i)) in *.
    assert (0 <= er_new_start (req i)) as H0 by apply (batch_req_ok p pre seq last free Hb i Hi).
    assert (0 <= sumZ (num_new_pages_of p pre seq)) as H0'
      by (apply sumZ_nonneg; by apply (batch_nonneg p pre seq free Hb)).
    unfold nthZ in Hk.
    destruct (lookup_lt_is_Some_2 free (Z.to_nat q)) as [x Hx]; [unfold len in *; lia|].
    rewrite Hx in Hk. simpl in Hk. pose proof (NoDup_lookup _ _ _ _ Hfree Hx Hk). lia.
Qed.
End distinct.

(** ** What the pool still owns *)

(** A list of token slots that is a sequence of distinct whole pages. *)
Definition paged (p : Z) (l : list Z) : Prop := exists pages, l = expand_pages p pages /\ NoDup pages.

(** The slots waiting in an open free group. *)
Definition pending (a : Alloc) : list Z :=
  if is_not_in_free_group a then [] else concat (free_group a).

Definition owned (a : Alloc) : list Z :=
  expand_pages (page_size a) (free_pages a ++ release_pages a) ++ pending a.

Definition alloc_ok (a : Alloc) : Prop :=
  0 < page_size a /\ (need_sort a = false -> release_pages a = []) /\
  (is_not_in_free_group a = false -> Forall (paged (page_size a)) (free_group a)) /\
  NoDup (owned a).

Lemma expand_pages_app p l1 l2 : expand_pages p (l1 ++ l2) = expand_pages p l1 ++ expand_pages p l2.
Proof. unfold expand_pages. by rewrite fmap_app, concat_app. Qed.

Lemma expand_pages_concat p ls : expand_pages p (concat ls) = concat (expand_pages p <$> ls).
Proof. induction ls as [|l ls IH]; [done|]. simpl. by rewrite expand_pages_app, IH. Qed.

#[global] Instance expand_pages_perm p : Proper ((≡ₚ) ==> (≡ₚ)) (expand_pages p).
Proof. intros l1 l2 H. unfold expand_pages. by rewrite H. Qed.

Lemma expand_pages_1 l : expand_pages 1 l = l.
Proof.
  induction l as [|x l IH]; [done|].
  change (expand_pages 1 (x :: l)) with ((x * 1 + 0) :: expand_pages 1 l).
  rewrite IH. f_equal. lia.
Qed.

Lemma length_expand_pages p l : 0 <= p -> len (expand_pages p l) = len l * p.
Proof.
  intros Hp. unfold len, expand_pages. induction l as [|x l IH]; [done|].
  cbn in *. rewrite length_app, length_fmap. unfold arange in *. rewrite length_seqZ. lia.
Qed.

Lemma elem_of_expand_pages p l x : 0 < p -> x ∈ expand_pages p l <-> x / p ∈ l.
Proof.
  intros Hp. unfold expand_pages, arange. induction l as [|pg l IH]; cbn; [set_solver|].
  rewrite elem_of_app, IH, list_elem_of_fmap, elem_of_cons. f_equiv. split.
  - intros (o & -> & Ho%elem_of_seqZ). rewrite Z.add_comm, Z.div_add, Z.div_small by lia. lia.
  - intros <-. exists (x mod p). pose proof (Z.mod_pos_bound x p Hp).
    split; [pose proof (Z.div_mod x p); lia|]. apply elem_of_seqZ. lia.
Qed.

Lemma NoDup_expand_pages p l : 0 < p -> NoDup (expand_pages p l) <-> NoDup l.
Proof.
  intros Hp. induction l as [|pg l IH]; [by rewrite !NoDup_nil|].
  change (expand_pages p (pg :: l))
    with (((fun o => pg * p + o) <$> arange 0 p) ++ expand_pages p l).
  rewrite NoDup_app, NoDup_cons, IH. split.
  - intros (_ & Hd & Hl). split; [|done]. intros Hpg.
    apply (Hd (pg * p)); [|by apply elem_of_expand_pages; rewrite ?Z.div_mul by lia].
    apply list_elem_of_fmap. exists 0. split; [lia|]. apply elem_of_seqZ. lia.
  - intros [Hpg Hl]. split_and!; [|intros x Hx Hin; apply Hpg|done].
    + apply NoDup_fmap_2; [intros ???; lia|apply NoDup_seqZ].
    + apply elem_of_expand_pages in Hin; [|done].
      apply list_elem_of_fmap in Hx as (o & -> & Ho%elem_of_seqZ).
      by rewrite Z.add_comm, Z.div_add, Z.div_small in Hin by lia.
Qed.

Lemma paged_NoDup p l : 0 < p -> paged p l -> NoDup l.
Proof. intros Hp (pages & -> & H). by apply NoDup_expand_pages. Qed.

Lemma paged_1 l : NoDup l -> paged 1 l.
Proof. exists l. by rewrite expand_pages_1. Qed.

Lemma paged_concat p ls :
  0 < p -> Forall (paged p) ls -> NoDup (concat ls) -> paged p (concat ls).
Proof.
  intros Hp Hls. assert (exists pgs, ls = expand_pages p <$> pgs) as [pgs ->].
  { induction Hls as [|l ls (pg & -> & _) _ (pgs & ->)]; [by exists []|]. by exists (pg :: pgs). }
  rewrite <-expand_pages_concat. exists (concat pgs).
  rewrite <-(NoDup_expand_pages p) by done. done.
Qed.

(** Merging the released pages back loses nothing. *)
Lemma maybe_merge_spec n a :
  alloc_ok a ->
  let a' := maybe_merge n a in
  alloc_ok a' /\ page_size a' = page_size a /\ need_sort a' = need_sort a /\
  is_not_in_free_group a' = is_not_in_free_group a /\ free_group a' = free_group a /\
  free_pages a' ++ release_pages a' ≡ₚ free_pages a ++ release_pages a /\
  (len (free_pages a') < n -> release_pages a' = []).
Proof.
  intros Hok. destruct Hok as (Hp & Hs & Hg & Hnd). unfold maybe_merge, merge_and_sort_free.
  destruct (need_sort a) eqn:Es; simpl.
  2: { split_and!; try done; unfold alloc_ok; auto. }
  destruct (Z.ltb_spec (len (free_pages a)) n) as [Hlt|Hge].
  2: { split_and!; try done; unfold alloc_ok; rewrite ?Es; auto. intros; lia. }
  destruct (release_pages a) as [|x r] eqn:Er.
  { unfold alloc_ok. rewrite Es, Er. split_and!; try done. }
  unfold alloc_ok, owned, pending, set_pages in *. simpl. rewrite Er in Hnd.
  split_and!; try done.
  - by rewrite app_nil_r, py_sorted_perm.
  - by rewrite app_nil_r, py_sorted_perm.
Qed.

Lemma len_perm l1 l2 : l1 ≡ₚ l2 -> len l1 = len l2.
Proof. unfold len. by intros ->. Qed.

(** Taking the first [n] pages: what both allocators do once there are enough. *)
Lemma take_pages_spec n a :
  alloc_ok a -> 0 <= n <= len (free_pages a) ->
  let l := expand_pages (page_size a) (ztake n (free_pages a)) in
  let a' := set_pages (zdrop n (free_pages a)) (release_pages a) a in
  alloc_ok a' /\ paged (page_size a) l /\ len l = n * page_size a /\ owned a ≡ₚ l ++ owned a'.
Proof.
  intros (Hp & Hs & Hg & Hnd) Hn l a'.
  assert (owned a ≡ₚ l ++ owned a') as Hperm.
  { unfold owned, l, a', pending. simpl. rewrite <-(take_drop (Z.to_nat n) (free_pages a)) at 1.
    fold (ztake n (free_pages a)) (zdrop n (free_pages a)).
    by rewrite !expand_pages_app, <-!(assoc_L (++)). }
  rewrite Hperm in Hnd. apply NoDup_app in Hnd as (Hl & _ & Hnd).
  split_and!; try done.
  - exists (ztake n (free_pages a)). split; [done|]. by apply (NoDup_expand_pages (page_size a)).
  - unfold l. rewrite length_expand_pages by lia. unfold ztake, len in *.
    rewrite length_take. f_equal. lia.
Qed.

(** ** The allocator interface the caches rely on *)

Class KVAllocator (T : Type) := {
  kv_alloc : Z -> T -> Outcome (option (list Z) * T);
  kv_free : list Z -> T -> T;
  kv_group_begin : T -> T;
  kv_group_end : T -> T;
  kv_in_group : T -> bool;
  kv_page : T -> Z;
  kv_owned : T -> list Z;
  kv_ok : T -> Prop;
  kv_ok_page a : kv_ok a -> 0 < kv_page a;
  kv_ok_NoDup a : kv_ok a -> NoDup (kv_owned a);
  kv_alloc_spec n a :
    kv_ok a -> kv_in_group a = false -> 0 <= n -> (kv_page a | n) ->
    exists res a', kv_alloc n a = Ret (res, a') /\ kv_ok a' /\ kv_page a' = kv_page a /\
      kv_in_group a' = false /\
      match res with
      | Some l => len l = n /\ paged (kv_page a) l /\ kv_owned a ≡ₚ l ++ kv_owned a'
      | None => len (kv_owned a) < n /\ kv_owned a' ≡ₚ kv_owned a
      end;
  kv_free_spec idx a :
    kv_ok a -> paged (kv_page a) idx -> NoDup (kv_owned a ++ idx) ->
    kv_ok (kv_free idx a) /\ kv_page (kv_free idx a) = kv_page a /\
    kv_in_group (kv_free idx a) = kv_in_group a /\
    kv_owned (kv_free idx a) ≡ₚ kv_owned a ++ idx;
  kv_group_begin_spec a :
    kv_ok a -> kv_in_group a = false ->
    kv_ok (kv_group_begin a) /\ kv_page (kv_group_begin a) = kv_page a /\
    kv_in_group (kv_group_begin a) = true /\ kv_owned (kv_group_begin a) ≡ₚ kv_owned a;
  kv_group_end_spec a :
    kv_ok a -> kv_in_group a = true ->
    kv_ok (kv_group_end a) /\ kv_page (kv_group_end a) = kv_page a /\
    kv_in_group (kv_group_end a) = false /\ kv_owned (kv_group_end a) ≡ₚ kv_owned a }.

Section conservation.
Context {T : Type} `{KVAllocator T}.

(** The slots held by the clients and the pool, through any interleaving of requests. *)
Inductive pool_step : list Z * T -> list Z * T -> Prop :=
  | step_alloc held n res a a' :
      kv_in_group a = false -> 0 <= n -> (kv_page a | n) -> kv_alloc n a = Ret (res, a') ->
      pool_step (held, a) (default [] res ++ held, a')
  | step_free held idx rest a :
      held ≡ₚ idx ++ rest -> paged (kv_page a) idx ->
      pool_step (held, a) (rest, kv_free idx a)
  | step_group_begin held a :
      kv_in_group a = false -> pool_step (held, a) (held, kv_group_begin a)
  | step_group_end held a :
      kv_in_group a = true -> pool_step (held, a) (held, kv_group_end a).

Definition pool_inv (total : list Z) (st : list Z * T) : Prop :=
  kv_ok st.2 /\ st.1 ++ kv_owned st.2 ≡ₚ total /\ NoDup total.

Lemma pool_step_inv total st st' : pool_step st st' -> pool_inv total st -> pool_inv total st'.
Proof.
  intros Hst (Hok & Hperm & Hnd). unfold pool_inv.
  destruct Hst as [held n res a a' Hg Hn Hdiv Hal|held idx rest a Hheld Hpg|held a Hg|held a Hg];
    simpl in *.
  - destruct (kv_alloc_spec n a Hok Hg Hn Hdiv) as (res' & a1 & E & Hok' & _ & _ & Hr).
    rewrite Hal in E. simplify_eq. split_and!; [done| |done]. destruct res' as [l|]; simpl in *.
    + destruct Hr as (_ & _ & Hr). rewrite <-Hperm, Hr. solve_Permutation.
    + destruct Hr as [_ Hr]. by rewrite Hr.
  - destruct (kv_free_spec idx a Hok Hpg) as (Hok' & _ & _ & Hr).
    + assert (NoDup (held ++ kv_owned a)) as Hall by (by rewrite Hperm).
      rewrite Hheld in Hall. rewrite <-(assoc_L (++)), (comm (++) idx), <-(assoc_L (++)) in Hall.
      by apply NoDup_app in Hall as (_ & _ & ?).
    + split_and!; [done| |done]. rewrite Hr, <-Hperm, Hheld. solve_Permutation.
  - destruct (kv_group_begin_spec a Hok Hg) as (Hok' & _ & _ & Hr). by rewrite Hr.
  - destruct (kv_group_end_spec a Hok Hg) as (Hok' & _ & _ & Hr). by rewrite Hr.
Qed.

Lemma pool_reachable_inv total st st' :
  rtc pool_step st st' -> pool_inv total st -> pool_inv total st'.
Proof. induction 1; eauto using pool_step_inv. Qed.
End conservation.

(** ** Both allocators implement it *)

Lemma owned_free_direct pages a :
  alloc_ok a -> is_not_in_free_group a = true -> NoDup (owned a ++ expand_pages (page_size a) pages) ->
  forall f r, f ++ r ≡ₚ free_pages a ++ release_pages a ++ pages ->
  (need_sort a = false -> r = []) ->
  alloc_ok (set_pages f r a) /\ owned (set_pages f r a) ≡ₚ owned a ++ expand_pages (page_size a) pages.
Proof.
  intros (Hp & Hs & Hg & Hnd) Hin Hnd' f r Hperm Hr.
  assert (owned (set_pages f r a) ≡ₚ owned a ++ expand_pages (page_size a) pages) as Ho.
  { unfold owned, pending. simpl. rewrite Hin, Hperm, !app_nil_r, !expand_pages_app.
    by rewrite (assoc_L (++)). }
  split; [|done]. unfold alloc_ok. rewrite Ho. simpl. rewrite Hin. split_and!; done.
Qed.

Lemma free_in_group_spec idx a :
  alloc_ok a -> is_not_in_free_group a = false -> paged (page_size a) idx -> NoDup (owned a ++ idx) ->
  let a' := set_group false (free_group a ++ [idx]) a in
  alloc_ok a' /\ owned a' ≡ₚ owned a ++ idx.
Proof.
  intros (Hp & Hs & Hg & Hnd) Hin Hpg Hnd' a'.
  assert (owned a' = owned a ++ idx) as Ho.
  { unfold owned, pending, a'. simpl. rewrite Hin, concat_app. simpl.
    by rewrite app_nil_r, (assoc_L (++)). }
  rewrite Ho. split; [|done]. split_and!; try done; [|by rewrite Ho].
  intros _. simpl. apply Forall_app. auto.
Qed.

Lemma unique_expand p pages :
  0 < p -> NoDup pages -> unique ((fun i => i / p) <$> expand_pages p pages) ≡ₚ pages.
Proof.
  intros Hp Hnd. unfold unique. rewrite py_sorted_perm.
  apply NoDup_Permutation; [apply NoDup_remove_dups|exact Hnd|].
  - intros x. rewrite elem_of_remove_dups, list_elem_of_fmap. split.
    + intros (y & -> & Hy). by apply elem_of_expand_pages in Hy.
    + intros Hx. exists (x * p). rewrite elem_of_expand_pages, Z.div_mul by lia. done.
Qed.

Lemma paged_free_spec idx a :
  alloc_ok a -> paged (page_size a) idx -> NoDup (owned a ++ idx) ->
  alloc_ok (paged_free idx a) /\ page_size (paged_free idx a) = page_size a /\
  negb (is_not_in_free_group (paged_free idx a)) = negb (is_not_in_free_group a) /\
  owned (paged_free idx a) ≡ₚ owned a ++ idx.
Proof.
  intros Hok Hpg Hnd. unfold paged_free. destruct idx as [|x idx]; [by rewrite app_nil_r|].
  set (i := x :: idx) in *. clearbody i. clear x idx.
  destruct (is_not_in_free_group a) eqn:Hin.
  - destruct Hpg as (pages & -> & Hpnd). pose proof Hok as (Hp & Hs & _).
    pose proof (unique_expand (page_size a) pages Hp Hpnd) as Hu. set (u := unique _) in *.
    destruct (need_sort a) eqn:Hsort; simpl; rewrite Hin.
    + destruct (owned_free_direct pages a Hok Hin Hnd (free_pages a) (u ++ release_pages a));
        [rewrite Hu; solve_Permutation|congruence|done].
    + destruct (owned_free_direct pages a Hok Hin Hnd (u ++ free_pages a) (release_pages a));
        [rewrite Hu; solve_Permutation|auto|done].
  - destruct (free_in_group_spec i a) as [H1 H2]; try done.
Qed.

Lemma token_free_spec idx a :
  alloc_ok a -> page_size a = 1 -> NoDup (owned a ++ idx) ->
  alloc_ok (token_free idx a) /\ page_size (token_free idx a) = page_size a /\
  negb (is_not_in_free_group (token_free idx a)) = negb (is_not_in_free_group a) /\
  owned (token_free idx a) ≡ₚ owned a ++ idx.
Proof.
  intros Hok Hp1 Hnd. unfold token_free. destruct idx as [|x idx]; [by rewrite app_nil_r|].
  set (i := x :: idx) in *. clearbody i. clear x idx.
  destruct (is_not_in_free_group a) eqn:Hin.
  - assert (expand_pages (page_size a) i = i) as Ei by (rewrite Hp1; apply expand_pages_1).
    pose proof Hok as (Hp & Hs & _).
    pose proof (owned_free_direct i a Hok Hin) as Hd. rewrite Ei in Hd. specialize (Hd Hnd).
    destruct (need_sort a) eqn:Hsort; simpl; rewrite Hin.
    + destruct (Hd (free_pages a) (release_pages a ++ i)); [done|congruence|done].
    + destruct (Hd (free_pages a ++ i) (release_pages a)); [solve_Permutation|auto|done].
  - destruct (free_in_group_spec i a) as [H1 H2]; try done.
    rewrite Hp1. apply paged_1. by apply NoDup_app in Hnd as (_ & _ & ?).
Qed.

Lemma group_begin_spec a :
  alloc_ok a -> is_not_in_free_group a = true ->
  alloc_ok (free_group_begin a) /\ owned (free_group_begin a) = owned a.
Proof.
  intros (Hp & Hs & Hg & Hnd) Hin.
  assert (owned (free_group_begin a) = owned a) as Ho
    by (unfold owned, pending; simpl; by rewrite Hin).
  split; [|done]. unfold alloc_ok. rewrite Ho. simpl. split_and!; done.
Qed.

Lemma group_end_spec (free : list Z -> Alloc -> Alloc) a :
  (forall idx a1, page_size a1 = page_size a -> alloc_ok a1 -> paged (page_size a1) idx ->
     NoDup (owned a1 ++ idx) ->
     alloc_ok (free idx a1) /\ page_size (free idx a1) = page_size a1 /\
     negb (is_not_in_free_group (free idx a1)) = negb (is_not_in_free_group a1) /\
     owned (free idx a1) ≡ₚ owned a1 ++ idx) ->
  alloc_ok a -> is_not_in_free_group a = false ->
  alloc_ok (free_group_end free a) /\ page_size (free_group_end free a) = page_size a /\
  negb (is_not_in_free_group (free_group_end free a)) = false /\
  owned (free_group_end free a) ≡ₚ owned a.
Proof.
  intros Hfree (Hp & Hs & Hg & Hnd) Hin. unfold free_group_end.
  set (a1 := set_group true (free_group a) a).
  assert (owned a = owned a1 ++ concat (free_group a)) as Ho.
  { unfold owned, pending, a1. simpl. rewrite Hin. by rewrite app_nil_r. }
  rewrite Ho in *. assert (alloc_ok a1) as Hok1.
  { split_and!; try done. by apply NoDup_app in Hnd as (? & _). }
  destruct (free_group a) as [|g gs] eqn:Eg.
  { simpl concat. rewrite app_nil_r. split_and!; try done. }
  rewrite <-Eg in *. destruct (Hfree (concat (free_group a)) a1) as (H1 & H2 & H3 & H4); try done.
  apply paged_concat; [done|by apply Hg|]. by apply NoDup_app in Hnd as (_ & _ & ?).
Qed.

Lemma owned_closed_len a :
  alloc_ok a -> is_not_in_free_group a = true ->
  len (owned a) = (len (free_pages a) + len (release_pages a)) * page_size a.
Proof.
  intros (Hp & _) Hin. unfold owned, pending. rewrite Hin, app_nil_r.
  rewrite length_expand_pages by lia. by rewrite len_app.
Qed.

(** The common shape of both [alloc]s: merge if needed, then take [n] pages or give up. *)
Lemma alloc_pages_spec n a :
  alloc_ok a -> is_not_in_free_group a = true -> 0 <= n ->
  let a1 := maybe_merge n a in
  alloc_ok a1 /\ page_size a1 = page_size a /\ is_not_in_free_group a1 = true /\
  owned a1 ≡ₚ owned a /\
  (len (free_pages a1) < n -> len (owned a) < n * page_size a).
Proof.
  intros Hok Hin Hn a1.
  destruct (maybe_merge_spec n a Hok) as (Hok1 & Hp1 & Hs1 & Hin1 & Hg1 & Hperm & Hrel).
  fold a1 in Hok1, Hp1, Hs1, Hin1, Hg1, Hperm, Hrel.
  assert (owned a1 ≡ₚ owned a) as Ho.
  { unfold owned, pending. rewrite Hin1, Hin, Hp1, Hperm. done. }
  rewrite Hin in Hin1. split_and!; try done. intros Hlt.
  rewrite <-(len_perm _ _ Ho), (owned_closed_len a1), Hp1 by done.
  rewrite Hrel by done. destruct Hok as (Hp & _). unfold len in *. simpl. nia.
Qed.

Definition token_ok (a : Alloc) : Prop := alloc_ok a /\ page_size a = 1.

(** The token allocator as the caches use it. *)
Definition token_KVAllocator : KVAllocator Alloc.
Proof.
  refine {|
    kv_alloc n a := Ret (token_alloc n a);
    kv_free := token_free;
    kv_group_begin := free_group_begin;
    kv_group_end := free_group_end token_free;
    kv_in_group a := negb (is_not_in_free_group a);
    kv_page := page_size;
    kv_owned := owned;
    kv_ok := token_ok |}.
  - by intros a [(? & _) _].
  - by intros a [(_ & _ & _ & ?) _].
  - intros n a [Hok Hp] Hin%negb_false_iff Hn _. unfold token_alloc.
    destruct (alloc_pages_spec n a Hok Hin Hn) as (Hok1 & Hp1 & Hin1 & Ho & Hlt).
    set (a1 := maybe_merge n a) in *. eexists _, _. split; [by rewrite <-surjective_pairing|].
    destruct (Z.ltb_spec (len (free_pages a1)) n) as [H1|H1]; simpl.
    + rewrite Hin1. split_and!; try done; [split; congruence|]. rewrite Hp in Hlt. lia.
    + destruct (take_pages_spec n a1 Hok1) as (Hok2 & Hpg & Hlen & Ho2); [lia|].
      rewrite Hp1, Hp, expand_pages_1 in Hpg, Hlen, Ho2. rewrite Hin1, Hp.
      split_and!; try done; try (split; simpl; congruence); try (simpl; lia); try congruence.
      by rewrite <-Ho.
  - intros idx a [Hok Hp] _ Hnd. destruct (token_free_spec idx a Hok Hp Hnd) as (H1 & H2 & H3).
    split; [split; congruence|done].
  - intros a [Hok Hp] Hin%negb_false_iff. destruct (group_begin_spec a Hok Hin) as [H1 H2].
    rewrite H2. done.
  - intros a [Hok Hp] Hin%negb_true_iff.
    destruct (group_end_spec token_free a) as (H1 & H2 & H3); [|done|done|].
    + intros idx a1 E Hok1 _ Hnd. apply token_free_spec; congruence.
    + split; [split; congruence|done].
Defined.

(** The paged allocator, with or without the divisibility check of debug mode. *)
Definition paged_KVAllocator (debug : bool) : KVAllocator Alloc.
Proof.
  refine {|
    kv_alloc := paged_alloc debug;
    kv_free := paged_free;
    kv_group_begin := free_group_begin;
    kv_group_end := free_group_end paged_free;
    kv_in_group a := negb (is_not_in_free_group a);
    kv_page := page_size;
    kv_owned := owned;
    kv_ok := alloc_ok |}.
  - by intros a (? & _).
  - by intros a (_ & _ & _ & ?).
  - intros n a Hok Hin%negb_false_iff Hn [k ->]. pose proof Hok as (Hp & _).
    unfold paged_alloc. rewrite Z.mod_mul, Z.div_mul, andb_false_r by lia.
    assert (0 <= k) as Hk by nia.
    destruct (alloc_pages_spec k a Hok Hin Hk) as (Hok1 & Hp1 & Hin1 & Ho & Hlt).
    set (a1 := maybe_merge k a) in *.
    destruct (Z.ltb_spec (len (free_pages a1)) k) as [H1|H1].
    + exists None, a1. rewrite Hin1. split_and!; try done. auto.
    + destruct (take_pages_spec k a1 Hok1) as (Hok2 & Hpg & Hlen & Ho2); [lia|].
      eexists (Some _), _. split; [done|]. simpl. rewrite Hin1, Hp1 in *.
      split_and!; try done. by rewrite <-Ho.
  - exact paged_free_spec.
  - intros a Hok Hin%negb_false_iff. destruct (group_begin_spec a Hok Hin) as [H1 H2].
    rewrite H2. done.
  - intros a Hok Hin%negb_true_iff. apply group_end_spec; [|done..].
    intros idx a1 _. by apply paged_free_spec.
Defined.

(** ** Batched extension and decoding of the paged allocator *)

(** The slots of a batch in the order of its requests. *)
Definition batch_slots (p : Z) (pre seq last free : list Z) : list Z :=
  (batch_stores p pre seq last free).*2.

Lemma read_out_stores n (st : list (Z * Z)) :
  st.*1 = seqZ 0 n -> read_out n (run_stores ∅ st) = st.*2.
Proof.
  intros Hst. unfold read_out, arange. rewrite <-Hst.
  assert (NoDup st.*1) as Hnd by (rewrite Hst; apply NoDup_seqZ).
  rewrite <-list_fmap_compose. apply list_fmap_ext.
  intros i [a v] Hin%list_elem_of_lookup_2. simpl.
  by rewrite (run_stores_lookup ∅ st a v).
Qed.

Lemma extend_lens_total p pre seq last :
  length pre = length seq ->
  er_start (ext_req p pre seq last (length pre)) = sumZ (extend_lens pre seq).
Proof.
  intros Hl. simpl. rewrite take_ge; [done|]. unfold extend_lens. rewrite length_zip_with. lia.
Qed.

Lemma alloc_extend_out pre seq last p free :
  batch_ok p pre seq free ->
  read_out (sumZ (extend_lens pre seq))
    (launch (alloc_extend_kernel p pre seq last free) (List.seq 0 (length pre)))
  = batch_slots p pre seq last free.
Proof.
  intros Hb. rewrite launch_batch by done. apply read_out_stores. unfold batch_stores.
  rewrite (batch_addresses p pre seq last free Hb) by done. f_equal. apply extend_lens_total.
  by apply (batch_lens p pre seq free).
Qed.

Lemma elem_of_batch_slots p pre seq last free x :
  x ∈ batch_slots p pre seq last free <->
  exists i j, (i < length pre)%nat /\
    er_pre (ext_req p pre seq last i) <= j < er_seq (ext_req p pre seq last i) /\
    x = extend_slot p free (ext_req p pre seq last i) j.
Proof.
  unfold batch_slots, batch_stores. rewrite list_elem_of_fmap. split.
  - intros ([a v] & -> & Hin). apply list_elem_of_In, in_concat in Hin as (l & Hl & Hin).
    apply list_elem_of_In, list_elem_of_fmap in Hl as (i & -> & Hi%elem_of_seq).
    apply list_elem_of_In, list_elem_of_fmap in Hin as (o & [= -> ->] & Ho%elem_of_seqZ).
    exists i, (er_pre (ext_req p pre seq last i) + o). split_and!; try done; lia.
  - intros (i & j & Hi & Hj & ->). set (r := ext_req p pre seq last i) in *.
    exists (er_start r + (j - er_pre r), extend_slot p free r j). split; [done|].
    apply list_elem_of_In, in_concat. exists (slot_stores p free r).
    rewrite <-!list_elem_of_In. split.
    + apply list_elem_of_fmap. exists i. split; [done|]. apply elem_of_seq. lia.
    + apply list_elem_of_fmap. exists (j - er_pre r). split; [do 2 f_equal; lia|].
      apply elem_of_seqZ. lia.
Qed.

Lemma NoDup_concat_fmap {A B} (f : A -> list B) (l : list A) :
  NoDup l -> (forall x, x ∈ l -> NoDup (f x)) ->
  (forall x y b, x ∈ l -> y ∈ l -> b ∈ f x -> b ∈ f y -> x = y) ->
  NoDup (concat (f <$> l)).
Proof.
  induction 1 as [|x l Hx Hl IH]; intros Hf Hd; cbn; [constructor|].
  apply NoDup_app. split_and!.
  - apply Hf. left.
  - intros b Hb Hin. apply list_elem_of_In, in_concat in Hin as (ys & Hys & Hb').
    apply list_elem_of_In, list_elem_of_fmap in Hys as (y & -> & Hy).
    apply list_elem_of_In in Hb'. apply Hx.
    rewrite (Hd x y b); [done|left|by right|done|done].
  - apply IH; [|intros y z b Hy Hz]; [intros y Hy; apply Hf; by right|].
    apply Hd; by right.
Qed.

Lemma fmap_concat {A B} (g : A -> B) (ls : list (list A)) :
  g <$> concat ls = concat ((fun l : list A => g <$> l) <$> ls).
Proof. induction ls as [|l ls IH]; [done|]. cbn [concat fmap list_fmap]. by rewrite fmap_app, IH. Qed.

Lemma batch_slots_NoDup p pre seq last free :
  batch_ok p pre seq free -> NoDup free -> tails_ok p pre seq last free ->
  NoDup (batch_slots p pre seq last free).
Proof.
  intros Hb Hfree Ht. unfold batch_slots, batch_stores.
  rewrite fmap_concat, <-list_fmap_compose.
  apply NoDup_concat_fmap; [apply NoDup_seq|..].
  - intros i Hi%elem_of_seq. simpl. unfold slot_stores. rewrite <-list_fmap_compose.
    apply NoDup_fmap_2_strong; [|apply NoDup_seqZ].
    intros o o' Ho%elem_of_seqZ Ho'%elem_of_seqZ E. simpl in E.
    apply (extend_slot_inj p pre seq last free) in E; try done; simpl in *; lia.
  - intros i i' x Hi%elem_of_seq Hi'%elem_of_seq Hx Hx'. simpl in Hx, Hx'.
    apply list_elem_of_fmap in Hx as ([a v] & -> & (o & [= -> ->] & Ho%elem_of_seqZ)%list_elem_of_fmap).
    apply list_elem_of_fmap in Hx' as ([a v] & E & (o' & [= -> ->] & Ho'%elem_of_seqZ)%list_elem_of_fmap).
    simpl in E. apply (extend_slot_inj p pre seq last free) in E; try done; simpl in *; lia.
Qed.

Lemma new_pages_bound p pre seq :
  0 < p -> Forall2 (fun a b => 0 <= a <= b) pre seq ->
  sumZ (num_new_pages_of p pre seq) <= sumZ (extend_lens pre seq) / p + len pre.
Proof.
  intros Hp Hall.
  assert (p * sumZ (num_new_pages_of p pre seq) <= sumZ (extend_lens pre seq) + len pre * (p - 1)).
  { unfold num_new_pages_of, extend_lens, sumZ, len.
    induction Hall as [|a b pre seq Hab _ IH]; [simpl; lia|]. simpl zip_with. simpl foldr.
    simpl length. rewrite Nat2Z.inj_succ.
    pose proof (ceil_div_bounds a p Hp). pose proof (ceil_div_bounds b p Hp). lia. }
  pose proof (div_bounds (sumZ (extend_lens pre seq)) p Hp). pose proof (len_nonneg pre). nia.
Qed.

Lemma tails_ok_subset p pre seq last free free' :
  (forall x, x ∈ free' -> x ∈ free) -> tails_ok p pre seq last free -> tails_ok p pre seq last free'.
Proof.
  intros Hsub Ht i Hi r Hr. destruct (Ht i Hi Hr) as (H1 & H2 & H3).
  split_and!; [done| |done]. intros Hin. by apply H2, Hsub.
Qed.

(** What [alloc_extend] does once it has merged: the free list is long enough exactly when
    the pool is. *)
Lemma alloc_extend_cases pre seq last a :
  alloc_ok a -> is_not_in_free_group a = true ->
  Forall2 (fun a b => 0 <= a <= b) pre seq ->
  let p := page_size a in
  let n := sumZ (num_new_pages_of p pre seq) in
  let a1 := maybe_merge (sumZ (extend_lens pre seq) / p + len pre + 1) a in
  alloc_ok a1 /\ page_size a1 = p /\ owned a1 ≡ₚ owned a /\
  is_not_in_free_group a1 = true /\
  (len (owned a) < n * p /\
     alloc_extend pre seq last (sumZ (extend_lens pre seq)) None a = Ret (None, a1) \/
   batch_ok p pre seq (free_pages a1) /\
     alloc_extend pre seq last (sumZ (extend_lens pre seq)) None a
     = Ret (Some (batch_slots p pre seq last (free_pages a1)),
            set_pages (zdrop n (free_pages a1)) (release_pages a1) a1)).
Proof.
  intros Hok Hin Hall p n a1. pose proof Hok as (Hp & _). fold p in Hp.
  pose proof (new_pages_bound p pre seq Hp Hall) as Hn. fold n in Hn.
  assert (0 <= sumZ (extend_lens pre seq)) as Hpos.
  { apply sumZ_nonneg. unfold extend_lens. clear -Hall. induction Hall; constructor; [lia|done]. }
  assert (0 <= sumZ (extend_lens pre seq) / p) by (apply Z.div_pos; lia).
  pose proof (len_nonneg pre).
  destruct (maybe_merge_spec (sumZ (extend_lens pre seq) / p + len pre + 1) a Hok)
    as (Hok1 & Hp1 & Hs1 & Hin1 & Hg1 & Hperm & Hrel).
  fold a1 in Hok1, Hp1, Hs1, Hin1, Hg1, Hperm, Hrel.
  assert (owned a1 ≡ₚ owned a) as Ho.
  { unfold owned, pending. rewrite Hin1, Hin, Hp1, Hperm. done. }
  rewrite Hin in Hin1. split_and!; try done.
  unfold alloc_extend. fold p a1. simpl. fold n.
  destruct (Z.ltb_spec (len (free_pages a1)) n) as [Hlt|Hge]; [left|right].
  - split; [|done]. rewrite <-(len_perm _ _ Ho), (owned_closed_len a1), Hp1 by done.
    rewrite Hrel by lia. fold p. unfold len in *. simpl. nia.
  - assert (batch_ok p pre seq (free_pages a1)) as Hb by done.
    split; [done|]. by rewrite alloc_extend_out.
Qed.

(** A page is in the pool when its first slot is. *)
Lemma elem_of_pages_owned a x :
  alloc_ok a -> is_not_in_free_group a = true ->
  x * page_size a ∈ owned a <-> x ∈ free_pages a ++ release_pages a.
Proof.
  intros (Hp & _) Hin. unfold owned, pending. rewrite Hin, app_nil_r.
  by rewrite elem_of_expand_pages, Z.div_mul by lia.
Qed.

Lemma owned_pages_NoDup a :
  alloc_ok a ->
  NoDup (free_pages a) /\ (forall x, x ∈ free_pages a -> x ∈ release_pages a -> False).
Proof.
  intros (Hp & _ & _ & Hnd). unfold owned in Hnd. apply NoDup_app in Hnd as (Hnd & _ & _).
  apply NoDup_expand_pages in Hnd; [|done]. apply NoDup_app in Hnd as (H1 & H2 & _). done.
Qed.

Lemma length_batch_slots p pre seq last free :
  batch_ok p pre seq free -> len (batch_slots p pre seq last free) = sumZ (extend_lens pre seq).
Proof.
  intros Hb. rewrite <-(alloc_extend_out pre seq last p free Hb). unfold len, read_out, arange.
  rewrite length_fmap, length_seqZ.
  assert (0 <= sumZ (extend_lens pre seq)) by (apply sumZ_nonneg, (batch_nonneg p pre seq _ Hb)).
  lia.
Qed.

Lemma batch_slots_nth p pre seq last free i k :
  batch_ok p pre seq free -> (i < length pre)%nat ->
  let r := ext_req p pre seq last i in
  0 <= k < er_seq r - er_pre r ->
  nthZ (batch_slots p pre seq last free) (er_start r + k) = extend_slot p free r (er_pre r + k).
Proof.
  intros Hb Hi r Hk. destruct (batch_nonneg p pre seq free Hb) as [Hnn _].
  assert (0 <= er_start r) by (apply sumZ_nonneg, Forall_take, Hnn).
  assert (er_start r + k < sumZ (extend_lens pre seq)) as Hlt.
  { pose proof (req_start_S p pre seq last free Hb i Hi) as HS. fold r in HS.
    assert (er_start (ext_req p pre seq last (S i)) <= sumZ (extend_lens pre seq)); [|lia].
    rewrite <-(extend_lens_total p pre seq last) by apply (batch_lens p pre seq free Hb).
    apply sumZ_take_le; [done|lia]. }
  rewrite <-(alloc_extend_out pre seq last p free Hb), launch_batch by done.
  pose proof (batch_stores_lookup p pre seq last free i (er_pre r + k) Hb Hi) as Hl.
  cbv zeta in Hl. fold r in Hl. replace (er_pre r + k - er_pre r) with k in Hl by lia.
  unfold nthZ, read_out, arange. rewrite list_lookup_fmap.
  rewrite lookup_seqZ_lt by lia. rewrite Z2Nat.id, Z.add_0_l by lia.
  cbn [fmap option_fmap option_map]. rewrite Hl by lia. done.
Qed.

(** No slot of a batch stays in the pool. *)
Lemma batch_slot_not_owned p pre seq last a i j :
  page_size a = p -> alloc_ok a -> is_not_in_free_group a = true ->
  batch_ok p pre seq (free_pages a) ->
  tails_ok p pre seq last (free_pages a ++ release_pages a) ->
  (i < length pre)%nat -> let r := ext_req p pre seq last i in
  er_pre r <= j < er_seq r ->
  extend_slot p (free_pages a) r j
  ∉ owned (set_pages (zdrop (sumZ (num_new_pages_of p pre seq)) (free_pages a)) (release_pages a) a).
Proof.
  intros Ep Hok Hin Hb Ht Hi r Hj Hown. destruct (owned_pages_NoDup a Hok) as (Hnd & Hdis).
  assert (tails_ok p pre seq last (free_pages a)) as Ht2.
  { eapply tails_ok_subset; [|exact Ht]. intros x Hx. apply elem_of_app. by left. }
  destruct (batch_req_ok p pre seq last _ Hb i Hi) as (Hp & Hpre & Hnew & _).
  unfold owned, pending in Hown. simpl in Hown. rewrite Hin, app_nil_r, Ep in Hown.
  apply elem_of_expand_pages in Hown; [|done].
  destruct (extend_slot_div_mod p (free_pages a) r j) as [Hd _];
    [done|fold r in Hpre; lia|intros ?; by apply Ht2|].
  rewrite Hd in Hown. apply elem_of_app in Hown as [Hown|Hown].
  { by apply (extend_page_taken p pre seq last (free_pages a) Hb Hnd Ht2 i j). }
  unfold extend_page in Hown. destruct (Z.ltb_spec j (ceil_div (er_pre r) p * p)) as [H1|H1].
  - destruct (Ht i Hi) as (_ & Hnf & _).
    + apply (tail_unaligned p pre seq last (free_pages a) Hb i j Hi). fold r. lia.
    + apply Hnf, elem_of_app. by right.
  - eapply Hdis; [|exact Hown]. apply nthZ_elem.
    pose proof (new_page_range p pre seq last _ Hb i j Hi Hj H1) as Hr.
    fold r in Hr, Hnew. lia.
Qed.

(** C30. The Triton kernel of [alloc_extend], its program instances run in any order,
    writes what the reference loop [alloc_extend_naive] writes, and both give token [j] of
    request [i] the slot [extend_slot]: the rest of the prefix's page first, then the
    request's own share of the free pages, page by page. *)
Theorem alloc_extend_kernel_equiv p pre seq last free order :
  batch_ok p pre seq free -> order ≡ₚ List.seq 0 (length pre) ->
  launch (alloc_extend_kernel p pre seq last free) order = alloc_extend_naive p pre seq last free /\
  forall i j, (i < length pre)%nat -> let r := ext_req p pre seq last i in
    er_pre r <= j < er_seq r ->
    launch (alloc_extend_kernel p pre seq last free) order !! (er_start r + (j - er_pre r))
    = Some (extend_slot p free r j).
Proof.
  intros Hb Ho. rewrite launch_batch, naive_batch by done. split; [done|].
  intros i j Hi r Hj. by apply batch_stores_lookup.
Qed.

Example alloc_extend_kernel_equiv_witness :
  launch (alloc_extend_kernel 4 [3; 0] [9; 2] [6; 0] [5; 7; 8]) [1%nat; 0%nat]
  = alloc_extend_naive 4 [3; 0] [9; 2] [6; 0] [5; 7; 8] /\
  launch (alloc_extend_kernel 4 [3; 0] [9; 2] [6; 0] [5; 7; 8]) [1%nat; 0%nat] !! 0 = Some 7.
Proof.
  assert (batch_ok 4 [3; 0] [9; 2] [5; 7; 8]) as Hb.
  { split_and!; [lia|repeat constructor; lia|vm_compute; discriminate]. }
  destruct (alloc_extend_kernel_equiv 4 [3; 0] [9; 2] [6; 0] [5; 7; 8] [1%nat; 0%nat] Hb)
    as [H1 H2]; [apply perm_swap|].
  split; [exact H1|].
  apply (H2 0%nat 3); [simpl; lia|]. vm_compute. split; [discriminate|reflexivity].
Defined.

(** [alloc_extend] hands out every token of the batch its own slot: when the unfinished
    pages of the prefixes are distinct and in use, the slots are pairwise distinct, keep
    each token's offset within its page, and touch no page that stays in the pool; it
    returns [None] only when the whole pool (released pages included) is too small. *)
Theorem alloc_extend_sound pre seq last a :
  alloc_ok a -> is_not_in_free_group a = true ->
  Forall2 (fun a b => 0 <= a <= b) pre seq ->
  tails_ok (page_size a) pre seq last (free_pages a ++ release_pages a) ->
  let p := page_size a in
  exists res a',
    alloc_extend pre seq last (sumZ (extend_lens pre seq)) None a = Ret (res, a') /\ alloc_ok a' /\
    match res with
    | None => len (owned a) < sumZ (num_new_pages_of p pre seq) * p /\ owned a' ≡ₚ owned a
    | Some out =>
        len out = sumZ (extend_lens pre seq) /\ NoDup out /\
        (forall x, x ∈ out -> x ∉ owned a') /\
        (forall i k, (i < length pre)%nat -> let r := ext_req p pre seq last i in
           0 <= k < er_seq r - er_pre r ->
           nthZ out (er_start r + k) mod p = (er_pre r + k) mod p) /\
        len (owned a') = len (owned a) - sumZ (num_new_pages_of p pre seq) * p
    end.
Proof.
  intros Hok Hin Hall Ht p.
  pose proof (alloc_extend_cases pre seq last a Hok Hin Hall) as Hc. cbv zeta in Hc.
  fold p in Hc. set (n := sumZ (num_new_pages_of p pre seq)) in *. set (a1 := maybe_merge _ a) in *.
  destruct Hc as (Hok1 & Hp1 & Ho & Hin1 & [[Hlt E]|[Hb E]]).
  { exists None, a1. done. }
  eexists (Some _), _. split; [exact E|].
  assert (0 <= n <= len (free_pages a1)) as Hn.
  { split; [apply sumZ_nonneg, (batch_nonneg p pre seq _ Hb)|apply Hb]. }
  destruct (take_pages_spec n a1 Hok1 Hn) as (Hok2 & _ & Hlen2 & Ho2).
  destruct (owned_pages_NoDup a1 Hok1) as (Hnd & Hdis).
  assert (tails_ok p pre seq last (free_pages a1 ++ release_pages a1)) as Ht1.
  { eapply tails_ok_subset; [|exact Ht]. intros x.
    rewrite <-(elem_of_pages_owned a1 x), <-(elem_of_pages_owned a x), Ho, Hp1 by done. done. }
  assert (tails_ok p pre seq last (free_pages a1)) as Ht2.
  { eapply tails_ok_subset; [|exact Ht1]. intros x Hx. apply elem_of_app. by left. }
  split_and!; [done|by apply length_batch_slots|by apply batch_slots_NoDup| | |].
  - intros x (i & j & Hi & Hj & ->)%elem_of_batch_slots.
    apply (batch_slot_not_owned p pre seq last a1); done.
  - intros i k Hi r Hk. rewrite (batch_slots_nth p pre seq last _ i k) by done. fold r.
    apply extend_slot_div_mod; [apply Hb| |intros ?; by apply Ht2].
    destruct (batch_req_ok p pre seq last _ Hb i Hi) as (_ & Hpre & _). fold r in Hpre. lia.
  - rewrite <-(len_perm _ _ Ho), (len_perm _ _ Ho2), len_app, Hlen2, Hp1. fold p. lia.
Qed.

Lemma paged_init_ok size p sort :
  0 < p -> alloc_ok (paged_init size p sort) /\
  owned (paged_init size p sort) = expand_pages p (arange 1 (size / p)).
Proof.
  intros Hp. assert (owned (paged_init size p sort) = expand_pages p (arange 1 (size / p))) as Ho
    by (unfold owned, pending; simpl; by rewrite !app_nil_r).
  split; [|done]. split_and!; try done. rewrite Ho.
  apply NoDup_expand_pages; [done|]. apply NoDup_seqZ.
Qed.

Lemma token_init_ok size sort :
  token_ok (token_init size sort) /\ owned (token_init size sort) = arange 1 size.
Proof.
  assert (owned (token_init size sort) = arange 1 size) as Ho
    by (unfold owned, pending; simpl; by rewrite !app_nil_r, expand_pages_1).
  split; [|done]. split; [|done]. split_and!; try done. rewrite Ho. apply NoDup_seqZ.
Qed.

Example alloc_extend_sound_witness :
  let a := set_pages [2; 4; 5] [3] (paged_init 32 4 true) in
  (exists out a', alloc_extend [3] [9] [6] 6 None a = Ret (Some out, a') /\ NoDup out) /\
  exists res a', alloc_extend [3] [9] [6] (sumZ (extend_lens [3] [9])) None a = Ret (res, a') /\
    alloc_ok a'.
Proof.
  intros a.
  destruct (alloc_extend_sound [3] [9] [6] a) as (res & a' & E & Hok & Hm).
  - split_and!; [done|done|done|]. apply (bool_decide_eq_true_1 _). reflexivity.
  - reflexivity.
  - repeat constructor; lia.
  - intros i Hi r Hr. assert (i = 0%nat) as -> by (simpl in Hi; lia).
    split_and!; [reflexivity|apply (bool_decide_eq_true_1 _); reflexivity|].
    intros i' Hi' r' _ _. simpl in Hi'. lia.
  - split; [|by exists res, a'].
    change (sumZ (extend_lens [3] [9])) with 6 in E. destruct res as [out|].
    + exists out, a'. split; [done|]. apply Hm.
    + vm_compute in E. discriminate.
Defined.

(** Through any interleaving of allocations, frees (of whole pages the clients hold) and
    free groups, the slots held by clients and the slots owned by the pool together are
    exactly the slots the pool was created with: no slot is lost and none is handed out
    twice, for the token allocator and for the paged allocator. *)
Theorem pool_conservation :
  (forall size sort held a,
     rtc (@pool_step Alloc token_KVAllocator) ([], token_init size sort) (held, a) ->
     NoDup (held ++ owned a) /\ held ++ owned a ≡ₚ arange 1 size) /\
  (forall debug size p sort held a, 0 < p ->
     rtc (@pool_step Alloc (paged_KVAllocator debug)) ([], paged_init size p sort) (held, a) ->
     NoDup (held ++ owned a) /\ held ++ owned a ≡ₚ expand_pages p (arange 1 (size / p))).
Proof.
  split.
  - intros size sort held a Hst. destruct (token_init_ok size sort) as [Hok Ho].
    destruct (pool_reachable_inv (arange 1 size) _ _ Hst) as (_ & Hp & Hnd).
    + split_and!; [done|simpl; by rewrite Ho|]. apply NoDup_seqZ.
    + simpl in Hp. by rewrite Hp.
  - intros debug size p sort held a Hpos Hst. destruct (paged_init_ok size p sort Hpos) as [Hok Ho].
    destruct (pool_reachable_inv (expand_pages p (arange 1 (size / p))) _ _ Hst) as (_ & Hp & Hnd).
    + split_and!; [done|simpl; by rewrite Ho|]. rewrite <-Ho. apply Hok.
    + simpl in Hp. by rewrite Hp.
Qed.

Example pool_conservation_witness :
  exists held a, held = expand_pages 4 [1; 2] /\
    held ++ owned a ≡ₚ expand_pages 4 (arange 1 (32 / 4)).
Proof.
  eexists (expand_pages 4 [1; 2]), _. split; [done|].
  eapply (proj2 pool_conservation false 32 4 false); [lia|].
  eapply rtc_l; [|apply rtc_refl].
  eapply (step_alloc (H := paged_KVAllocator false) [] 8 (Some (expand_pages 4 [1; 2])));
    [reflexivity|lia|by exists 2|reflexivity].
Defined.

(** ** Decoding one token per request *)

Definition decode_pre (seq : list Z) : list Z := (fun s => s - 1) <$> seq.

Lemma decode_new_page p s :
  2 <= p -> 1 <= s -> ceil_div s p - ceil_div (s - 1) p = (if s mod p =? 1 then 1 else 0).
Proof.
  intros Hp Hs. pose proof (Z.div_mod s p). pose proof (Z.mod_pos_bound s p).
  rewrite !ceil_div_floor by lia.
  destruct (Z.eqb_spec (s mod p) 1) as [E1|E1].
  - assert ((s - 1) / p = s / p) as -> by (symmetry; apply (Z.div_unique _ _ _ 0); lia).
    destruct (Z.eqb_spec (s / p * p) s), (Z.eqb_spec (s / p * p) (s - 1)); lia.
  - destruct (decide (s mod p = 0)) as [E0|E0].
    + assert ((s - 1) / p = s / p - 1) as -> by (symmetry; apply (Z.div_unique _ _ _ (p - 1)); lia).
      destruct (Z.eqb_spec (s / p * p) s), (Z.eqb_spec ((s / p - 1) * p) (s - 1)); lia.
    + assert ((s - 1) / p = s / p) as ->
        by (symmetry; apply (Z.div_unique _ _ _ (s mod p - 1)); lia).
      destruct (Z.eqb_spec (s / p * p) s), (Z.eqb_spec (s / p * p) (s - 1)); lia.
Qed.

Lemma decode_start p seq last i :
  (i <= length seq)%nat -> er_start (ext_req p (decode_pre seq) seq last i) = Z.of_nat i.
Proof.
  intros Hi. simpl. revert i Hi. induction seq as [|s seq IH]; intros [|i] Hi; simpl in *;
    try done; [lia|].
  unfold sumZ in *. simpl. unfold extend_lens, decode_pre in *. rewrite IH by lia. lia.
Qed.

Lemma decode_stores p seq last free i :
  batch_ok p (decode_pre seq) seq free -> (i < length seq)%nat ->
  alloc_decode_kernel p seq last free i
  = slot_stores p free (ext_req p (decode_pre seq) seq last i).
Proof.
  intros Hb Hi. pose proof Hb as (Hp & _).
  assert (i < length (decode_pre seq))%nat as Hi' by (unfold decode_pre; by rewrite length_fmap).
  destruct (batch_lookup p (decode_pre seq) seq last free Hb i Hi')
    as (a & b & Ha & Hbq & Hab & Ea & Eb & _ & _).
  pose proof (kernel_req_eq p (decode_pre seq) seq last free Hb i Hi') as Ek.
  pose proof (decode_start p seq last i) as Es.
  assert (a = b - 1) as -> by (unfold decode_pre in Ha; rewrite list_lookup_fmap, Hbq in Ha;
    by simplify_eq/=).
  assert (nthZ seq (Z.of_nat i) = b) as Enth by (unfold nthZ; by rewrite Nat2Z.id, Hbq).
  assert (nthZ (decode_pre seq) (Z.of_nat i) = b - 1) as Enth'
    by (unfold nthZ; by rewrite Nat2Z.id, Ha).
  assert (alloc_decode_kernel p seq last free i =
    let r := ext_req p (decode_pre seq) seq last i in
    if ceil_div b p - ceil_div (b - 1) p =? 0 then [(Z.of_nat i, er_last r + 1)]
    else [(Z.of_nat i, nthZ free (er_new_start r) * p)]) as ->.
  { cbv zeta. rewrite <-Ek. unfold alloc_decode_kernel, kernel_req. simpl er_last.
    simpl er_new_start. rewrite Enth, Enth'. unfold decode_pre. by rewrite fmap_take. }
  cbv zeta. unfold slot_stores, extend_slot. rewrite Ea, Eb, Es by lia.
  replace (b - (b - 1)) with 1 by lia. rewrite seqZ_1. cbn [fmap list_fmap].
  rewrite !Z.add_0_r, Z.sub_diag. pose proof (ceil_div_bounds (b - 1) p Hp) as Hc.
  pose proof (ceil_div_bounds b p Hp) as Hc'. pose proof (ceil_div_mono (b - 1) b p Hp) as Hm.
  destruct (Z.eqb_spec (ceil_div b p - ceil_div (b - 1) p) 0) as [E|E];
    destruct (Z.ltb_spec (b - 1) (ceil_div (b - 1) p * p)) as [H1|H1].
  - by rewrite Z.add_0_r.
  - nia.
  - nia.
  - assert (b - 1 = ceil_div (b - 1) p * p) as E1 by lia.
    assert ((b - 1) / p = ceil_div (b - 1) p) as -> by (rewrite E1 at 1; apply Z.div_mul; lia).
    assert ((b - 1) mod p = 0) as -> by (rewrite E1; apply Z.mod_mul; lia).
    by rewrite Z.sub_diag, !Z.add_0_r.
Qed.

(** Decoding is extension by one token: the decode kernel, in any order of its program
    instances, writes the slots [alloc_extend] would give requests with one new token each,
    and (for pages of at least two slots) [get_num_new_pages] counts the same pages in its
    two modes. *)
Theorem alloc_decode_is_extend p seq last free order order' :
  batch_ok p (decode_pre seq) seq free -> order ≡ₚ List.seq 0 (length seq) ->
  order' ≡ₚ List.seq 0 (length seq) ->
  launch (alloc_decode_kernel p seq last free) order
  = launch (alloc_extend_kernel p (decode_pre seq) seq last free) order' /\
  (2 <= p ->
   get_num_new_pages p seq None true = get_num_new_pages p seq (Some (decode_pre seq)) false).
Proof.
  intros Hb Ho Ho'. assert (length (decode_pre seq) = length seq) as Hl by apply length_fmap.
  split.
  - rewrite launch_batch by (rewrite ?Hl; done). unfold launch. symmetry.
    apply run_stores_perm; [by apply batch_stores_NoDup|]. rewrite Ho. unfold batch_stores.
    rewrite Hl. erewrite list_fmap_ext; [done|].
    intros k i [-> Hi]%lookup_seq. symmetry. by apply decode_stores.
  - intros Hp. simpl. f_equal. destruct Hb as (_ & Hall & _). unfold decode_pre in *. clear -Hall Hp.
    induction seq as [|s seq IH]; [done|]. inversion Hall; subst.
    unfold sumZ, num_new_pages_of in *. cbn in *.
    rewrite IH by done. rewrite decode_new_page by lia. done.
Qed.

Example alloc_decode_is_extend_witness :
  launch (alloc_decode_kernel 4 [5; 7] [3; 22] [9]) [1%nat; 0%nat]
  = launch (alloc_extend_kernel 4 (decode_pre [5; 7]) [5; 7] [3; 22] [9]) [0%nat; 1%nat] /\
  get_num_new_pages 4 [5; 7] None true = get_num_new_pages 4 [5; 7] (Some (decode_pre [5; 7])) false.
Proof.
  assert (batch_ok 4 (decode_pre [5; 7]) [5; 7] [9]) as Hb.
  { split_and!; [lia|repeat constructor; lia|vm_compute; discriminate]. }
  destruct (alloc_decode_is_extend 4 [5; 7] [3; 22] [9] [1%nat; 0%nat] [0%nat; 1%nat] Hb)
    as [H1 H2]; [apply perm_swap|done|]. split; [exact H1|]. apply H2. lia.
Defined.
