(* ===== verification/BatchAlloc.v ===== *)
(** * What a batch of requests gets from the KV allocators

    [alloc_extend] and [alloc_decode] of the paged allocator, and [alloc] of the token
    allocator, hand slots to a whole batch at once.  The interface [BatchKV] says what each
    request of the batch gets: the rest of the page its prefix ends in, then pages of its
    own, in the order of its tokens.  Both allocators meet it. *)

From stdpp Require Import base tactics list gmap strings.
From Stdlib Require Import ZArith Lia.
From S2P Require Import Prelude Allocator AllocatorProofs.

(** ** The slots of one request *)

(** Tokens [pre] to [seq] of a request whose token [pre - 1] is at [last] and that gets the
    pages [share]. *)
Definition req_slots (p pre seq last : Z) (share : list Z) : list Z :=
  ztake (seq - pre) (((fun o => last + 1 + o) <$> seqZ 0 (ceil_div pre p * p - pre)) ++ expand_pages p share).

Lemma nthZ_share (l : list Z) a n i : 0 <= a -> 0 <= i < n -> nthZ (ztake n (zdrop a l)) i = nthZ l (a + i).
Proof.
  intros Ha Hi. unfold nthZ, ztake, zdrop. rewrite lookup_take_lt by lia. rewrite lookup_drop.
  by replace (Z.to_nat a + Z.to_nat i)%nat with (Z.to_nat (a + i)) by lia.
Qed.

Lemma slot_stores_slots p free r :
  req_ok p free r ->
  (slot_stores p free r).*2 = req_slots p (er_pre r) (er_seq r) (er_last r)
    (ztake (ceil_div (er_seq r) p - ceil_div (er_pre r) p) (zdrop (er_new_start r) free)).
Proof.
  intros (Hp & Hpre & Hns & Hfree). unfold slot_stores, req_slots. rewrite <-list_fmap_compose.
  set (pre := er_pre r) in *. set (sq := er_seq r) in *. set (c := ceil_div pre p) in *. set (n := ceil_div sq p - c) in *.
  pose proof (ceil_div_bounds pre p Hp) as Hc. pose proof (ceil_div_bounds sq p Hp) as Hs. fold c in Hc.
  pose proof (ceil_div_mono pre sq p Hp ltac:(lia)) as Hmono. fold c in Hmono.
  assert (len (ztake n (zdrop (er_new_start r) free)) = n) as Hlen.
  { unfold len, ztake, zdrop in *. rewrite length_take, length_drop. lia. }
  rewrite expand_pages_eq, Hlen by done.
  apply list_eq. intros k. destruct (decide (Z.of_nat k < sq - pre)) as [Hk|Hk].
  2: { rewrite !lookup_ge_None_2; [done| |].
    - unfold ztake. rewrite length_take. lia.
    - rewrite length_fmap, length_seqZ. lia. }
  rewrite list_lookup_fmap, lookup_seqZ_lt by lia. unfold ztake at 1. rewrite lookup_take_lt by lia. simpl.
  unfold extend_slot. rewrite Z.add_0_l. fold pre sq c. destruct (Z.ltb_spec (pre + Z.of_nat k) (c * p)) as [H1|H1].
  - rewrite lookup_app_l by (rewrite length_fmap, length_seqZ; lia).
    rewrite list_lookup_fmap, lookup_seqZ_lt by lia. simpl. f_equal. lia.
  - rewrite lookup_app_r by (rewrite length_fmap, length_seqZ; lia). rewrite length_fmap, length_seqZ.
    assert (Z.of_nat (k - Z.to_nat (c * p - pre)) = pre + Z.of_nat k - c * p) as Ek by lia.
    rewrite list_lookup_fmap, lookup_seqZ_lt by nia. simpl. f_equal.
    rewrite Z.add_0_l, Ek. set (j := pre + Z.of_nat k) in *.
    assert ((j - c * p) / p = j / p - c) as E1 by (replace (j - c * p) with (j + (- c) * p) by lia; rewrite Z.div_add by lia; lia).
    assert ((j - c * p) mod p = j mod p) as E2 by (replace (j - c * p) with (j + (- c) * p) by lia; by rewrite Z.mod_add by lia).
    pose proof (div_bounds j p Hp) as Hj.
    rewrite E1, E2, nthZ_share; [done|done|]. subst n. nia.
Qed.

(** ** The slots of a batch *)

Inductive extended (p : Z) : list Z -> list Z -> list Z -> list (list Z) -> list Z -> Prop :=
  | ext_nil : extended p [] [] [] [] []
  | ext_cons a b l share pre seq last shares out :
      len share = ceil_div b p - ceil_div a p -> extended p pre seq last shares out ->
      extended p (a :: pre) (b :: seq) (l :: last) (share :: shares) (req_slots p a b l share ++ out).

Lemma extended_snoc p pre seq last shares out a b l share :
  extended p pre seq last shares out -> len share = ceil_div b p - ceil_div a p ->
  extended p (pre ++ [a]) (seq ++ [b]) (last ++ [l]) (shares ++ [share]) (out ++ req_slots p a b l share).
Proof.
  intros He Hs. induction He as [|a0 b0 l0 share0 pre seq last shares out Hs0 He IH]; simpl.
  - rewrite <-(app_nil_r (req_slots _ _ _ _ _)). by constructor; [|constructor].
  - rewrite <-(assoc_L (++)). by constructor.
Qed.

Section batch.
Context (p : Z) (pre seq last free : list Z) (Hb : batch_ok p pre seq free) (Hl : length last = length pre).
Local Abbreviation req := (ext_req p pre seq last).

Definition share_of (i : nat) : list Z :=
  ztake (ceil_div (er_seq (req i)) p - ceil_div (er_pre (req i)) p) (zdrop (er_new_start (req i)) free).

Lemma shares_take k :
  (k <= length pre)%nat -> concat (share_of <$> List.seq 0 k) = ztake (er_new_start (req k)) free.
Proof.
  induction k as [|k IH]; intros Hk; [done|]. rewrite seq_S, fmap_app, concat_app, IH by lia. simpl. rewrite app_nil_r.
  pose proof (batch_req_ok p pre seq last free Hb k ltac:(lia)) as (Hp & H1 & H2 & H3).
  pose proof (ceil_div_mono (er_pre (req k)) (er_seq (req k)) p Hp ltac:(lia)).
  change (ztake (er_new_start (req k)) free ++ share_of k = ztake (er_new_start (req (S k))) free).
  rewrite (req_new_start_S p pre seq last free Hb k) by lia. unfold share_of. set (n := _ - _) in *. set (x := er_new_start _) in *.
  unfold ztake, zdrop. rewrite Z2Nat.inj_add by lia. by rewrite <-take_take_drop.
Qed.

Lemma extended_batch k :
  (k <= length pre)%nat ->
  extended p (take k pre) (take k seq) (take k last) (share_of <$> List.seq 0 k)
    (concat ((fun i => (slot_stores p free (req i)).*2) <$> List.seq 0 k)).
Proof.
  induction k as [|k IH]; intros Hk; [constructor|]. rewrite seq_S, !fmap_app, concat_app. simpl. rewrite app_nil_r.
  destruct (batch_lookup p pre seq last free Hb k ltac:(lia)) as (a & b & Ha & Hbk & Hab & Ea & Eb & _).
  destruct (lookup_lt_is_Some_2 last k ltac:(lia)) as [l Hlk].
  rewrite (take_S_r _ _ _ Ha), (take_S_r _ _ _ Hbk), (take_S_r _ _ _ Hlk).
  pose proof (batch_req_ok p pre seq last free Hb k ltac:(lia)) as Hr.
  rewrite slot_stores_slots by done. rewrite Ea, Eb.
  assert (er_last (req k) = l) as -> by (unfold ext_req, nthZ; simpl; by rewrite Nat2Z.id, Hlk).
  unfold share_of at 2. rewrite Ea, Eb. apply extended_snoc; [apply IH; lia|].
  destruct Hr as (Hp & H1 & H2 & H3). rewrite Ea, Eb in *. pose proof (ceil_div_mono a b p Hp ltac:(lia)).
  unfold len, ztake, zdrop in *. rewrite length_take, length_drop. lia.
Qed.

Lemma batch_slots_extended :
  exists shares, extended p pre seq last shares (batch_slots p pre seq last free) /\
    concat shares = ztake (sumZ (num_new_pages_of p pre seq)) free.
Proof.
  pose proof (batch_lens p pre seq free Hb) as Hls.
  exists (share_of <$> List.seq 0 (length pre)). split.
  - pose proof (extended_batch (length pre) (le_n _)) as He. rewrite !take_ge in He by lia.
    unfold batch_slots, batch_stores. by rewrite fmap_concat, <-list_fmap_compose.
  - rewrite shares_take by lia. f_equal. simpl. rewrite take_ge; [done|].
    unfold num_new_pages_of. rewrite length_zip_with. lia.
Qed.
End batch.

(** ** The interface *)

(** What an allocator did for a batch: slots for every request, or nothing because the pool
    is too small. *)
Definition granted (p : Z) (pre seq last own own' : list Z) (res : option (list Z)) : Prop :=
  match res with
  | None => len own < sumZ (num_new_pages_of p pre seq) * p /\ own' ≡ₚ own
  | Some out => exists shares, extended p pre seq last shares out /\ own ≡ₚ expand_pages p (concat shares) ++ own'
  end.

Definition ordered (pre seq : list Z) : Prop := Forall2 (fun a b => 0 <= a <= b) pre seq.

Class BatchKV (T : Type) `{!KVAllocator T} := {
  kv_available : T -> Z;
  kv_alloc_extend : list Z -> list Z -> list Z -> Z -> T -> Outcome (option (list Z) * T);
  kv_alloc_decode : list Z -> list Z -> T -> Outcome (option (list Z) * T);
  kv_available_spec a : kv_ok a -> kv_in_group a = false -> kv_available a = len (kv_owned a);
  kv_alloc_extend_spec pre seq last a :
    kv_ok a -> kv_in_group a = false -> 1 < kv_page a -> ordered pre seq -> length last = length pre ->
    exists res a', kv_alloc_extend pre seq last (sumZ (extend_lens pre seq)) a = Ret (res, a') /\
      kv_ok a' /\ kv_page a' = kv_page a /\ kv_in_group a' = false /\
      granted (kv_page a) pre seq last (kv_owned a) (kv_owned a') res;
  kv_alloc_decode_spec seq last a :
    kv_ok a -> kv_in_group a = false -> 1 < kv_page a -> ordered (decode_pre seq) seq -> length last = length seq ->
    exists res a', kv_alloc_decode seq last a = Ret (res, a') /\
      kv_ok a' /\ kv_page a' = kv_page a /\ kv_in_group a' = false /\
      granted (kv_page a) (decode_pre seq) seq last (kv_owned a) (kv_owned a') res }.

(** ** Single tokens: whatever [alloc] returns is cut into the requests' parts *)

Lemma token_cut pre seq last l :
  ordered pre seq -> length last = length pre -> len l = sumZ (extend_lens pre seq) ->
  exists shares, extended 1 pre seq last shares l /\ concat shares = l.
Proof.
  intros Hall. revert last l. induction Hall as [|a b pre seq Hab Hall IH]; intros last l Hl Hlen.
  { destruct last; [|done]. unfold extend_lens, sumZ, len in Hlen. simpl in Hlen.
    destruct l; [|simpl in Hlen; lia]. exists []. split; [constructor|done]. }
  destruct last as [|x last]; [done|]. injection Hl as Hl.
  assert (0 <= sumZ (extend_lens pre seq)) as Hpos.
  { apply sumZ_nonneg. unfold extend_lens. clear -Hall. induction Hall; constructor; [lia|done]. }
  change (sumZ (extend_lens (a :: pre) (b :: seq))) with (b - a + sumZ (extend_lens pre seq)) in Hlen.
  destruct (IH last (zdrop (b - a) l) Hl) as (shares & He & Hc).
  { unfold len, zdrop in *. rewrite length_drop. lia. }
  assert (ceil_div a 1 = a /\ ceil_div b 1 = b) as [Ca Cb].
  { unfold ceil_div. rewrite !Z.div_1_r. lia. }
  exists (ztake (b - a) l :: shares). split; [|simpl; rewrite Hc; apply take_drop].
  assert (l = req_slots 1 a b x (ztake (b - a) l) ++ zdrop (b - a) l) as E.
  { unfold req_slots. rewrite Ca, seqZ_nil by lia. simpl. rewrite expand_pages_1.
    unfold ztake, zdrop. rewrite take_take, Nat.min_id. by rewrite take_drop. }
  rewrite E at 2. constructor; [|done]. rewrite Ca, Cb. unfold len, ztake in *. rewrite length_take. lia.
Qed.

Lemma num_new_pages_1 pre seq : num_new_pages_of 1 pre seq = extend_lens pre seq.
Proof.
  unfold num_new_pages_of, extend_lens. revert pre. induction seq as [|b seq IH]; intros [|a pre]; try done.
  simpl. rewrite IH. unfold ceil_div. rewrite !Z.div_1_r. f_equal. lia.
Qed.

Lemma kv_alloc_granted {T} `{!KVAllocator T} pre seq last (a : T) :
  kv_ok a -> kv_in_group a = false -> kv_page a = 1 -> ordered pre seq -> length last = length pre ->
  exists res a', kv_alloc (sumZ (extend_lens pre seq)) a = Ret (res, a') /\
    kv_ok a' /\ kv_page a' = 1 /\ kv_in_group a' = false /\ granted 1 pre seq last (kv_owned a) (kv_owned a') res.
Proof.
  intros Hok Hg Hp Hall Hl.
  assert (0 <= sumZ (extend_lens pre seq)) as Hpos.
  { apply sumZ_nonneg. unfold extend_lens. clear -Hall. induction Hall; constructor; [lia|done]. }
  destruct (kv_alloc_spec (sumZ (extend_lens pre seq)) a Hok Hg Hpos) as (res & a' & E & Hok' & Hp' & Hg' & Hres).
  { rewrite Hp. apply Z.divide_1_l. }
  exists res, a'. split_and!; [done|done|congruence|done|]. destruct res as [l|]; simpl.
  - destruct Hres as (Hlen & _ & Hown). destruct (token_cut pre seq last l Hall Hl Hlen) as (shares & He & Hc).
    exists shares. by rewrite expand_pages_1, Hc.
  - rewrite num_new_pages_1. destruct Hres. split; [lia|done].
Qed.

(** ** The paged allocator *)

Lemma new_pages_nonneg p pre seq : 0 < p -> ordered pre seq -> 0 <= sumZ (num_new_pages_of p pre seq).
Proof.
  intros Hp Hall. apply sumZ_nonneg. unfold num_new_pages_of. clear -Hall Hp. induction Hall as [|a b]; constructor; [|done].
  pose proof (ceil_div_mono a b p). lia.
Qed.

Lemma batch_granted pre seq last a1 :
  alloc_ok a1 -> is_not_in_free_group a1 = true -> length last = length pre ->
  batch_ok (page_size a1) pre seq (free_pages a1) ->
  let n := sumZ (num_new_pages_of (page_size a1) pre seq) in
  let a' := set_pages (zdrop n (free_pages a1)) (release_pages a1) a1 in
  alloc_ok a' /\ page_size a' = page_size a1 /\ negb (is_not_in_free_group a') = false /\
  exists shares, extended (page_size a1) pre seq last shares (batch_slots (page_size a1) pre seq last (free_pages a1)) /\
    owned a1 ≡ₚ expand_pages (page_size a1) (concat shares) ++ owned a'.
Proof.
  intros Hok Hin Hl Hb n a'. pose proof Hb as (Hp & Hall & Hfree).
  destruct (take_pages_spec n a1 Hok) as (H1 & H2 & H3 & H4); [split; [by apply new_pages_nonneg|done]|].
  destruct (batch_slots_extended _ pre seq last _ Hb Hl) as (shares & He & Hc).
  split_and!; [exact H1|done|by simpl; rewrite Hin|]. exists shares. split; [done|]. by rewrite Hc.
Qed.

Lemma paged_extend_spec pre seq last a :
  alloc_ok a -> negb (is_not_in_free_group a) = false -> ordered pre seq -> length last = length pre ->
  exists res a', alloc_extend pre seq last (sumZ (extend_lens pre seq)) None a = Ret (res, a') /\
    alloc_ok a' /\ page_size a' = page_size a /\ negb (is_not_in_free_group a') = false /\
    granted (page_size a) pre seq last (owned a) (owned a') res.
Proof.
  intros Hok Hin%negb_false_iff Hall Hl.
  destruct (alloc_extend_cases pre seq last a Hok Hin Hall) as (Hok1 & Hp1 & Ho & Hin1 & Hc). set (a1 := maybe_merge _ a) in *.
  destruct Hc as [[Hlt E]|[Hb E]]; rewrite E.
  - eexists None, a1. split_and!; [done|done|done|by rewrite Hin1|done].
  - rewrite <-Hp1 in Hb |- *. destruct (batch_granted pre seq last a1 Hok1 Hin1 Hl Hb) as (H1 & H2 & H3 & shares & H4 & H5).
    eexists (Some _), _. split_and!; [done|exact H1|exact H2|exact H3|]. exists shares. split; [done|]. by rewrite <-Ho.
Qed.

(** Decoding one token for each request. *)
Lemma decode_pages_bound p seq : sumZ ((fun s => if s mod p =? 1 then 1 else 0) <$> seq) <= len seq.
Proof.
  unfold sumZ, len. induction seq as [|s seq IH]; [done|]. cbn [fmap list_fmap foldr length].
  destruct (s mod p =? 1); lia.
Qed.

Lemma decode_pages_eq p seq :
  2 <= p -> ordered (decode_pre seq) seq ->
  sumZ ((fun s => if s mod p =? 1 then 1 else 0) <$> seq) = sumZ (num_new_pages_of p (decode_pre seq) seq).
Proof.
  intros Hp Hall. unfold decode_pre in *. induction seq as [|s seq IH]; [done|]. inversion Hall; subst.
  unfold sumZ, num_new_pages_of in *. cbn in *. rewrite IH by done. rewrite decode_new_page by lia. done.
Qed.

Lemma paged_decode_spec seq last a :
  alloc_ok a -> negb (is_not_in_free_group a) = false -> 1 < page_size a -> ordered (decode_pre seq) seq ->
  length last = length seq ->
  exists res a', alloc_decode seq last a = Ret (res, a') /\
    alloc_ok a' /\ page_size a' = page_size a /\ negb (is_not_in_free_group a') = false /\
    granted (page_size a) (decode_pre seq) seq last (owned a) (owned a') res.
Proof.
  intros Hok Hin%negb_false_iff Hp Hall Hl. set (p := page_size a) in *. set (pre := decode_pre seq) in *.
  assert (length pre = length seq) as Hlp by apply length_fmap.
  pose proof (decode_pages_eq p seq ltac:(lia) Hall) as Hn. pose proof (decode_pages_bound p seq) as Hbd. fold pre in Hn.
  destruct (maybe_merge_spec (len seq) a Hok) as (Hok1 & Hp1 & _ & Hin1 & _ & Hperm & Hrel). set (a1 := maybe_merge (len seq) a) in *.
  fold p in Hp1. rewrite Hin in Hin1.
  assert (owned a1 ≡ₚ owned a) as Ho by (unfold owned, pending; rewrite Hin1, Hin, Hp1, Hperm; done).
  unfold alloc_decode. fold p a1. simpl. destruct (Z.ltb_spec (len (free_pages a1)) (sumZ ((fun s => if s mod p =? 1 then 1 else 0) <$> seq))) as [Hlt|Hge].
  - eexists None, a1. split_and!; [done|done|done|by rewrite Hin1|]. split; [|done].
    rewrite <-(len_perm _ _ Ho), (owned_closed_len a1), Hp1 by done. rewrite Hrel by lia. unfold len in *. simpl. nia.
  - assert (batch_ok p pre seq (free_pages a1)) as Hb by (split_and!; [lia|done|lia]).
    rewrite Hn. rewrite <-Hp1 in Hb |- *. destruct (batch_granted pre seq last a1 Hok1 Hin1 ltac:(lia) Hb) as (H1 & H2 & H3 & shares & H4 & H5).
    eexists (Some _), _. split_and!; [done|exact H1|exact H2|exact H3|]. exists shares. rewrite <-Ho. split; [|done].
    assert (len seq = sumZ (extend_lens pre seq)) as Hls.
    { rewrite <-(extend_lens_total (page_size a1) pre seq last Hlp), Hlp. unfold pre. rewrite decode_start by done. done. }
    rewrite Hls.
    destruct (alloc_decode_is_extend (page_size a1) seq last (free_pages a1) (List.seq 0 (length seq)) (List.seq 0 (length seq)) Hb) as [-> _]; [done|done|].
    fold pre. rewrite <-Hlp at 1. by rewrite alloc_extend_out.
Qed.

Lemma paged_available_spec a : alloc_ok a -> negb (is_not_in_free_group a) = false -> available_size a = len (owned a).
Proof.
  intros (Hp & _) Hg%negb_false_iff. unfold available_size, owned, pending. rewrite Hg, app_nil_r.
  rewrite length_expand_pages by lia. unfold len. rewrite length_app. lia.
Qed.

Definition paged_BatchKV (debug : bool) : @BatchKV Alloc (paged_KVAllocator debug).
Proof.
  refine {| kv_available := available_size;
            kv_alloc_extend pre seq last n a := alloc_extend pre seq last n None a;
            kv_alloc_decode := alloc_decode |}.
  - exact paged_available_spec.
  - intros pre seq last a Hok Hg _. by apply paged_extend_spec.
  - intros seq last a Hok Hg. by apply paged_decode_spec.
Defined.

(** The token allocator inherits methods that raise. *)
Definition token_BatchKV : @BatchKV Alloc token_KVAllocator.
Proof.
  refine {| kv_available := token_available_size;
            kv_alloc_extend _ _ _ _ _ := Raise NotImplementedError;
            kv_alloc_decode _ _ _ := Raise NotImplementedError |}.
  - intros a [Hok Hp1] Hg. change (token_available_size a = len (owned a)). rewrite <-paged_available_spec by done.
    unfold token_available_size, available_size. rewrite Hp1. lia.
  - intros pre seq last a [_ Hp] _ H1. change (1 < page_size a) in H1. lia.
  - intros seq last a [_ Hp] _ H1. change (1 < page_size a) in H1. lia.
Defined.
