(* ===== verification/RowTable.v ===== *)
(** * The table from requests to KV slots (mem_cache/common.py)

    [req_to_token] has a row for each request and a column for each of its tokens.  The
    writers and readers of a batch come in two versions, a loop of tensor operations and
    Triton kernels that address the table as flat memory.  Theorems: the kernels, their
    program instances run in any order, do what the loops do. *)

From stdpp Require Import base tactics list gmap strings.
From Stdlib Require Import ZArith Lia.
From S2P Require Import Prelude Allocator AllocatorProofs.

Abbreviation Table := (list (list Z)).

(** ** Tensor indexing *)

(** An integer index: negative ones count from the end. *)
Definition torch_index (n : nat) (i : Z) : option nat :=
  if (0 <=? i) && (i <? Z.of_nat n) then Some (Z.to_nat i)
  else if (i <? 0) && (0 <=? Z.of_nat n + i) then Some (Z.to_nat (Z.of_nat n + i))
  else None.

Definition or_raise {A} (e : PyExc) (o : option A) : Outcome A :=
  match o with Some a => Ret a | None => Raise e end.

(** [row[a:b] = vs] for [0 <= a]: a slice of the same length, or one value for all of it. *)
Definition assign_slice (a b : Z) (vs row : list Z) : Outcome (list Z) :=
  let a := Z.to_nat a in
  let n := (Nat.min (Z.to_nat b) (length row) - a)%nat in
  if (n =? length vs)%nat then Ret (list_inserts a vs row)
  else match vs with
       | [v] => Ret (list_inserts a (replicate n v) row)
       | _ => Raise RuntimeError
       end.

(** [req_to_token[i, a:b] = vs] *)
Definition write_slice (i a b : Z) (vs : list Z) (t : Table) : Outcome Table :=
  k ← or_raise IndexError (torch_index (length t) i);
  row ← or_raise IndexError (t !! k);
  row' ← assign_slice a b vs row;
  Ret (<[k := row']> t).

(** [req_to_token[i, j]] *)
Definition read_cell (i j : Z) (t : Table) : Outcome Z :=
  k ← or_raise IndexError (torch_index (length t) i);
  row ← or_raise IndexError (t !! k);
  c ← or_raise IndexError (torch_index (length row) j);
  or_raise IndexError (row !! c).

(** [req_to_token[i, j] = v] *)
Definition write_cell (i j v : Z) (t : Table) : Outcome Table :=
  k ← or_raise IndexError (torch_index (length t) i);
  row ← or_raise IndexError (t !! k);
  c ← or_raise IndexError (torch_index (length row) j);
  Ret (<[k := <[c := v]> row]> t).

(** ** Writing the slots of an extend batch *)

(** The loop of [write_cache_indices]. *)
Fixpoint write_rows (req_pool_indices prefix_lens seq_lens extend_lens : list Z) (prefix_tensors : list (list Z))
    (out_cache_loc : list Z) (pt : Z) (t : Table) : Outcome Table :=
  match req_pool_indices, prefix_lens, seq_lens, extend_lens, prefix_tensors with
  | [], _, _, _, _ => Ret t
  | req_idx :: idxs, prefix_len :: pres, seq_len :: seqs, extend_len :: exts, prefix :: tensors =>
      t ← write_slice req_idx 0 prefix_len prefix t;
      t ← write_slice req_idx prefix_len seq_len (ztake extend_len (zdrop pt out_cache_loc)) t;
      write_rows idxs pres seqs exts tensors out_cache_loc (pt + extend_len) t
  | _, _, _, _, _ => Raise IndexError
  end.

Definition BLOCK_WRITE : Z := 512.

(** A masked copy of [n] values in blocks. *)
Definition block_copy (n : Z) (store : Z -> Z * Z) : list (Z * Z) :=
  concat ((fun i => (fun o => store (i * BLOCK_WRITE + o)) <$>
             filter (fun o => i * BLOCK_WRITE + o < n) (arange 0 BLOCK_WRITE))
          <$> arange 0 ((n + BLOCK_WRITE - 1) / BLOCK_WRITE)).

(** Program instance [pid]: the stores to the flat table. *)
Definition write_req_to_token_pool_triton (req_pool_indices pre_lens seq_lens extend_lens : list Z)
    (prefix_tensors : list (list Z)) (out_cache_loc : list Z) (stride : Z) (pid : nat) : list (Z * Z) :=
  let req_pool_index := nthZ req_pool_indices (Z.of_nat pid) in
  let pre_len := nthZ pre_lens (Z.of_nat pid) in
  let seq_len := nthZ seq_lens (Z.of_nat pid) in
  let prefix_tensor := default [] (prefix_tensors !! pid) in
  let cumsum_start := sumZ (take pid extend_lens) in
  block_copy pre_len (fun offset => (req_pool_index * stride + offset, nthZ prefix_tensor offset)) ++
  block_copy (seq_len - pre_len)
    (fun offset => (req_pool_index * stride + offset + pre_len, nthZ out_cache_loc (cumsum_start + offset))).

(** The table as flat memory and back. *)
Definition store_flat (m : list Z) (av : Z * Z) : list Z := <[Z.to_nat av.1 := av.2]> m.
Fixpoint reshape (stride rows : nat) (m : list Z) : Table :=
  match rows with O => [] | S r => take stride m :: reshape stride r (drop stride m) end.

Definition launch_flat (kernel : nat -> list (Z * Z)) (order : list nat) (stride : nat) (t : Table) : Table :=
  reshape stride (length t) (foldl store_flat (concat t) (concat (kernel <$> order))).

(** [write_cache_indices]: the kernel where the attention backend supports Triton, with its
    program instances in some order, the loop elsewhere. *)
Definition write_cache_indices (support_triton : bool) (order : list nat) (stride : nat)
    (out_cache_loc req_pool_indices prefix_lens seq_lens extend_lens : list Z) (prefix_tensors : list (list Z))
    (t : Table) : Outcome Table :=
  if support_triton then
    Ret (launch_flat (write_req_to_token_pool_triton req_pool_indices prefix_lens seq_lens extend_lens
           prefix_tensors out_cache_loc (Z.of_nat stride)) order stride t)
  else write_rows req_pool_indices prefix_lens seq_lens extend_lens prefix_tensors out_cache_loc 0 t.

(** ** The last slot of each prefix *)

(** [torch.where(prefix_lens > 0, req_to_token[idx, prefix_lens - 1], -1)]: the gather is
    evaluated for every row. *)
Fixpoint get_last_loc_torch (t : Table) (req_pool_indices prefix_lens : list Z) : Outcome (list Z) :=
  match req_pool_indices, prefix_lens with
  | i :: idxs, n :: lens =>
      v ← read_cell i (n - 1) t;
      rest ← get_last_loc_torch t idxs lens;
      Ret ((if 0 <? n then v else -1) :: rest)
  | [], [] => Ret []
  | _, _ => Raise IndexError
  end.

Definition BLOCK_LAST : Z := 256.

(** Program instance [pid] of [get_last_loc_kernel]: lanes past the batch load zeros, which
    the token mask then drops. *)
Definition get_last_loc_kernel (flat req_pool_indices prefix_lens : list Z) (num_tokens stride : Z) (pid : nat) : list (Z * Z) :=
  (fun offset =>
     let n := nthZ prefix_lens offset in
     let token_index := nthZ req_pool_indices offset * stride + (n - 1) in
     (offset, if 0 <? n then nthZ flat token_index else -1))
  <$> filter (fun offset => offset < num_tokens)
        ((fun o => Z.of_nat pid * BLOCK_LAST + o) <$> arange 0 BLOCK_LAST).

(** [_get_last_loc_safe_kernel]: the token mask also asks for a lane of the batch; the two
    branches on the dtype compute the same address. *)
Definition _get_last_loc_safe_kernel (flat req_pool_indices prefix_lens : list Z) (num_tokens stride : Z) (pid : nat) : list (Z * Z) :=
  (fun offset =>
     let n := nthZ prefix_lens offset in
     let token_index := nthZ req_pool_indices offset * stride + (n - 1) in
     (offset, if (offset <? num_tokens) && (0 <? n) then nthZ flat token_index else -1))
  <$> filter (fun offset => offset < num_tokens)
        ((fun o => Z.of_nat pid * BLOCK_LAST + o) <$> arange 0 BLOCK_LAST).

(** The launch over [cdiv(num_tokens, BLOCK_SIZE)] instances into a fresh tensor. *)
Definition launch_last (kernel : list Z -> list Z -> list Z -> Z -> Z -> nat -> list (Z * Z))
    (order : list nat) (stride : nat) (t : Table) (req_pool_indices prefix_lens : list Z) : list Z :=
  let num_tokens := len prefix_lens in
  read_out num_tokens
    (launch (kernel (concat t) req_pool_indices prefix_lens num_tokens (Z.of_nat stride)) order).

(** [get_last_loc]: HIP takes the safe kernel, other Triton backends the first one. *)
Definition get_last_loc (is_hip uses_triton_dispatch : bool) (order : list nat) (stride : nat) (t : Table)
    (req_pool_indices prefix_lens : list Z) : Outcome (list Z) :=
  if is_hip && uses_triton_dispatch then Ret (launch_last _get_last_loc_safe_kernel order stride t req_pool_indices prefix_lens)
  else if uses_triton_dispatch then Ret (launch_last get_last_loc_kernel order stride t req_pool_indices prefix_lens)
  else get_last_loc_torch t req_pool_indices prefix_lens.

(** ** Writing rows *)

Lemma list_inserts_middle {A} a (l row : list A) :
  (a + length l <= length row)%nat -> list_inserts a l row = take a row ++ l ++ drop (a + length l) row.
Proof.
  intros Hle. apply list_eq. intros k. destruct (decide (k < a)%nat) as [H1|H1].
  - rewrite list_lookup_inserts_lt by lia. rewrite lookup_app_l by (rewrite length_take; lia). by rewrite lookup_take_lt.
  - rewrite lookup_app_r by (rewrite length_take; lia). rewrite length_take, Nat.min_l by lia.
    destruct (decide (k < a + length l)%nat) as [H2|H2].
    + rewrite list_lookup_inserts by lia. by rewrite lookup_app_l by lia.
    + rewrite list_lookup_inserts_ge by lia. rewrite lookup_app_r by lia. rewrite lookup_drop. f_equal. lia.
Qed.

(** A request of the batch: its row, the slots of its prefix and its new slots. *)
Record RowWrite := mkRowWrite { w_idx : nat; w_pre : list Z; w_new : list Z }.

Definition w_vals (w : RowWrite) : list Z := w_pre w ++ w_new w.
Definition fill_row (w : RowWrite) (row : list Z) : list Z := w_vals w ++ drop (length (w_vals w)) row.
Definition write_req (t : Table) (w : RowWrite) : Table :=
  match t !! w_idx w with Some row => <[w_idx w := fill_row w row]> t | None => t end.

Definition table_ok (stride : nat) (t : Table) : Prop := Forall (fun row => length row = stride) t.
Definition write_ok (stride : nat) (t : Table) (w : RowWrite) : Prop :=
  (w_idx w < length t)%nat /\ (length (w_vals w) <= stride)%nat.

Lemma fill_row_length stride w row : length row = stride -> (length (w_vals w) <= stride)%nat -> length (fill_row w row) = stride.
Proof. intros H1 H2. unfold fill_row. rewrite length_app, length_drop. lia. Qed.

Lemma write_req_ok stride t w : table_ok stride t -> write_ok stride t w -> table_ok stride (write_req t w) /\ length (write_req t w) = length t.
Proof.
  intros Ht [Hi Hl]. unfold write_req. destruct (t !! w_idx w) as [row|] eqn:E; [|done]. split; [|by rewrite length_insert].
  apply Forall_insert; [done|]. apply fill_row_length; [|done]. exact (Forall_lookup_1 _ _ _ _ Ht E).
Qed.

Lemma torch_index_nat n i : (i < n)%nat -> torch_index n (Z.of_nat i) = Some i.
Proof.
  intros Hi. unfold torch_index. destruct (Z.leb_spec 0 (Z.of_nat i)), (Z.ltb_spec (Z.of_nat i) (Z.of_nat n)); try lia.
  simpl. by rewrite Nat2Z.id.
Qed.

Lemma write_slice_ok (t : Table) i (row : list Z) a vs :
  t !! i = Some row -> (a + length vs <= length row)%nat ->
  write_slice (Z.of_nat i) (Z.of_nat a) (Z.of_nat (a + length vs)) vs t
  = Ret (<[i := take a row ++ vs ++ drop (a + length vs) row]> t).
Proof.
  intros Hi Hl. unfold write_slice. rewrite torch_index_nat by (by eapply lookup_lt_Some). simpl. rewrite Hi. simpl.
  unfold assign_slice. rewrite !Nat2Z.id. replace (_ - a)%nat with (length vs) by lia. rewrite Nat.eqb_refl. simpl.
  by rewrite list_inserts_middle.
Qed.

(** The two writes of a request fill its row. *)
Lemma write_both_ok stride t w :
  table_ok stride t -> write_ok stride t w ->
  (t1 ← write_slice (Z.of_nat (w_idx w)) 0 (len (w_pre w)) (w_pre w) t;
   write_slice (Z.of_nat (w_idx w)) (len (w_pre w)) (len (w_vals w)) (w_new w) t1) = Ret (write_req t w).
Proof.
  intros Ht [Hi Hl]. destruct (lookup_lt_is_Some_2 t (w_idx w) Hi) as [row Hrow].
  assert (length row = stride) as Hlen by (by eapply Forall_lookup in Ht).
  unfold w_vals in *. rewrite length_app in Hl.
  pose proof (write_slice_ok t (w_idx w) row 0 (w_pre w) Hrow ltac:(lia)) as E1.
  change (Z.of_nat (0 + length (w_pre w))) with (len (w_pre w)) in E1. change (Z.of_nat 0) with 0 in E1.
  rewrite E1. cbn [mbind Outcome_bind]. rewrite take_0, app_nil_l. unfold len at 1.
  assert (len (w_pre w ++ w_new w) = Z.of_nat (length (w_pre w) + length (w_new w))) as -> by (unfold len; by rewrite length_app).
  rewrite (write_slice_ok _ (w_idx w) (w_pre w ++ drop (0 + length (w_pre w)) row)); [|apply list_lookup_insert_eq; by eapply lookup_lt_Some|rewrite length_app, length_drop; lia].
  rewrite list_insert_insert_eq. unfold write_req. rewrite Hrow. unfold fill_row, w_vals. do 2 f_equal.
  rewrite take_app_length, drop_app_ge by lia. rewrite drop_drop, length_app, <-(assoc_L (++)). do 3 f_equal. lia.
Qed.

(** ** The loop *)

Definition idxs_of (ws : list RowWrite) : list Z := (fun w => Z.of_nat (w_idx w)) <$> ws.
Definition pres_of (ws : list RowWrite) : list Z := (fun w => len (w_pre w)) <$> ws.
Definition seqs_of (ws : list RowWrite) : list Z := (fun w => len (w_vals w)) <$> ws.
Definition exts_of (ws : list RowWrite) : list Z := (fun w => len (w_new w)) <$> ws.
Definition outs_of (ws : list RowWrite) : list Z := concat (w_new <$> ws).

Lemma write_rows_ok stride ws : forall t (done_ : list Z),
  table_ok stride t -> Forall (write_ok stride t) ws ->
  write_rows (idxs_of ws) (pres_of ws) (seqs_of ws) (exts_of ws) (w_pre <$> ws) (done_ ++ outs_of ws) (len done_) t
  = Ret (foldl write_req t ws).
Proof.
  induction ws as [|w ws IH]; intros t d Ht Hws; [done|]. apply Forall_cons in Hws as [Hw Hws].
  cbn [idxs_of pres_of seqs_of exts_of fmap list_fmap write_rows].
  assert (ztake (len (w_new w)) (zdrop (len d) (d ++ outs_of (w :: ws))) = w_new w) as ->.
  { unfold ztake, zdrop, len. rewrite !Nat2Z.id, drop_app_length. unfold outs_of. cbn [fmap list_fmap concat]. by rewrite take_app_length. }
  pose proof (write_both_ok stride t w Ht Hw) as E. unfold mbind, Outcome_bind in *.
  destruct (write_slice (Z.of_nat (w_idx w)) 0 (len (w_pre w)) (w_pre w) t) as [t1| |]; [|done..].
  rewrite E. destruct (write_req_ok stride t w Ht Hw) as [Ht' Hl'].
  assert (len d + len (w_new w) = len (d ++ w_new w)) as -> by (unfold len; rewrite length_app; lia).
  assert (d ++ outs_of (w :: ws) = (d ++ w_new w) ++ outs_of ws) as -> by (unfold outs_of; cbn; by rewrite (assoc_L (++))).
  rewrite IH; [done|done|]. eapply Forall_impl; [exact Hws|]. intros w' [? ?]. split; [lia|done].
Qed.

(** ** The kernel *)

Lemma block_copy_eq n store : 0 <= n -> block_copy n store = store <$> seqZ 0 n.
Proof. intros Hn. unfold block_copy. by apply kernel_blocks. Qed.

Lemma store_range_nthZ a (vs : list Z) : store_range a vs = (fun o => (a + o, nthZ vs o)) <$> seqZ 0 (len vs).
Proof.
  unfold store_range. apply list_eq. intros k. rewrite lookup_zip_with, list_lookup_fmap.
  destruct (decide (k < length vs)%nat) as [Hk|Hk].
  - destruct (lookup_lt_is_Some_2 vs k Hk) as [v Hv]. rewrite !lookup_seqZ_lt by (unfold len; lia). rewrite Hv. simpl.
    unfold nthZ. by rewrite Z.add_0_l, Nat2Z.id, Hv.
  - rewrite !lookup_seqZ_ge by (unfold len; lia). done.
Qed.

Lemma store_range_app a vs ws : store_range a (vs ++ ws) = store_range a vs ++ store_range (a + len vs) ws.
Proof.
  unfold store_range, len. rewrite length_app, Nat2Z.inj_add, seqZ_app by lia.
  rewrite zip_with_app; [done|]. rewrite length_seqZ. lia.
Qed.

Lemma store_flat_range vs : forall (a : nat) m, foldl store_flat m (store_range (Z.of_nat a) vs) = list_inserts a vs m.
Proof.
  induction vs as [|v vs IH]; intros a m; [done|]. unfold store_range, len. cbn [length].
  rewrite Nat2Z.inj_succ, seqZ_cons by lia. cbn [zip zip_with foldl].
  replace (Z.succ (Z.of_nat a)) with (Z.of_nat (S a)) by lia. rewrite Z.pred_succ.
  change (zip_with pair ?x ?y) with (zip x y). fold (len vs). fold (store_range (Z.of_nat (S a)) vs).
  rewrite IH. unfold store_flat. cbn [fst snd]. rewrite Nat2Z.id. cbn [list_inserts].
  by rewrite list_insert_inserts_lt by lia.
Qed.

Lemma concat_length_table stride (t : Table) : table_ok stride t -> length (concat t) = (length t * stride)%nat.
Proof. induction 1 as [|row t Hr Ht IH]; [done|]. simpl. rewrite length_app, IH. lia. Qed.

Lemma reshape_concat stride t : table_ok stride t -> reshape stride (length t) (concat t) = t.
Proof.
  induction 1 as [|row t Hr Ht IH]; [done|]. simpl. rewrite take_app_length', drop_app_length' by done. by rewrite IH.
Qed.

(** Filling a row is a write of consecutive cells of the flat table. *)
Lemma concat_write_req stride t w :
  table_ok stride t -> write_ok stride t w ->
  concat (write_req t w) = list_inserts (w_idx w * stride) (w_vals w) (concat t).
Proof.
  intros Ht [Hi Hl]. destruct (lookup_lt_is_Some_2 t (w_idx w) Hi) as [row Hrow]. unfold write_req. rewrite Hrow.
  assert (length row = stride) as Hr by exact (Forall_lookup_1 _ _ _ _ Ht Hrow).
  rewrite insert_take_drop by done. rewrite <-(take_drop_middle _ _ _ Hrow) at 3. rewrite !concat_app. simpl.
  assert (length (concat (take (w_idx w) t)) = (w_idx w * stride)%nat) as Hc.
  { rewrite (concat_length_table stride) by (by apply Forall_take). rewrite length_take. nia. }
  rewrite list_inserts_middle by (rewrite !length_app, Hc; lia). rewrite take_app_length' by done. f_equal.
  unfold fill_row. rewrite drop_app_ge by lia. rewrite Hc.
  replace (w_idx w * stride + length (w_vals w) - w_idx w * stride)%nat with (length (w_vals w)) by lia.
  rewrite drop_app_le by lia. by rewrite <-(assoc_L (++)).
Qed.

Section kernel.
Context (stride : nat) (ws : list RowWrite).
Local Abbreviation kernel := (write_req_to_token_pool_triton (idxs_of ws) (pres_of ws) (seqs_of ws) (exts_of ws)
  (w_pre <$> ws) (outs_of ws) (Z.of_nat stride)).

Lemma nthZ_fmap {A} (f : A -> Z) (l : list A) i x : l !! i = Some x -> nthZ (f <$> l) (Z.of_nat i) = f x.
Proof. intros Hx. unfold nthZ. by rewrite Nat2Z.id, list_lookup_fmap, Hx. Qed.

(** The part of the batch's slots that belongs to request [i]. *)
Lemma outs_slice i w k :
  ws !! i = Some w -> 0 <= k < len (w_new w) -> nthZ (outs_of ws) (sumZ (take i (exts_of ws)) + k) = nthZ (w_new w) k.
Proof.
  intros Hi Hk. assert (sumZ (take i (exts_of ws)) = len (outs_of (take i ws))) as ->.
  { unfold exts_of. rewrite <-fmap_take. generalize (take i ws). intros l. unfold outs_of, sumZ, len.
    induction l as [|x l IH]; [done|]. cbn. rewrite IH, length_app. unfold len. lia. }
  rewrite <-(take_drop_middle _ _ _ Hi) at 1. unfold outs_of. rewrite fmap_app, concat_app. cbn [fmap list_fmap concat].
  unfold nthZ, len in *. rewrite lookup_app_r by lia. replace (Z.to_nat _ - _)%nat with (Z.to_nat k) by lia.
  rewrite lookup_app_l by lia. done.
Qed.

Lemma kernel_stores_row i w :
  ws !! i = Some w -> kernel i = store_range (Z.of_nat (w_idx w * stride)) (w_vals w).
Proof.
  intros Hi. unfold write_req_to_token_pool_triton, idxs_of, pres_of, seqs_of. rewrite !(nthZ_fmap _ _ _ _ Hi).
  rewrite list_lookup_fmap, Hi. cbn [fmap option_fmap option_map default].
  assert (len (w_vals w) - len (w_pre w) = len (w_new w)) as -> by (unfold w_vals, len; rewrite length_app; lia).
  rewrite !block_copy_eq by (unfold len; lia). unfold w_vals. rewrite store_range_app, !store_range_nthZ, Nat2Z.inj_mul. f_equal.
  apply list_fmap_ext. intros k o Ho%list_elem_of_lookup_2%elem_of_seqZ. rewrite (outs_slice i w) by (done || lia). f_equal. lia.
Qed.

Lemma run_kernel order : forall t,
  table_ok stride t -> Forall (write_ok stride t) ws -> Forall (fun i => (i < length ws)%nat) order ->
  foldl store_flat (concat t) (concat (kernel <$> order)) = concat (foldl write_req t (omap (ws !!.) order)) /\
  table_ok stride (foldl write_req t (omap (ws !!.) order)) /\ length (foldl write_req t (omap (ws !!.) order)) = length t.
Proof.
  induction order as [|i order IH]; intros t Ht Hws Ho; [done|]. apply Forall_cons in Ho as [Hi Ho].
  destruct (lookup_lt_is_Some_2 ws i Hi) as [w Hw]. cbn [fmap list_fmap concat omap list_omap]. rewrite Hw. cbn [foldl].
  rewrite foldl_app. pose proof (Forall_lookup_1 _ _ _ _ Hws Hw) as Hok. destruct (write_req_ok stride t w Ht Hok) as [Ht' Hl'].
  rewrite (kernel_stores_row i w Hw), store_flat_range, <-(concat_write_req stride t w Ht Hok).
  destruct (IH (write_req t w)) as (E1 & E2 & E3); [done| |done|by rewrite E3].
  eapply Forall_impl; [exact Hws|]. intros w' [? ?]. split; [lia|done].
Qed.
End kernel.

(** Writes to different rows commute. *)
Lemma write_req_comm t w1 w2 : w_idx w1 <> w_idx w2 -> write_req (write_req t w1) w2 = write_req (write_req t w2) w1.
Proof.
  intros Hne. unfold write_req. destruct (t !! w_idx w1) as [r1|] eqn:E1, (t !! w_idx w2) as [r2|] eqn:E2;
    rewrite ?list_lookup_insert_ne, ?E1, ?E2 by done; [|done..]. by rewrite list_insert_insert_ne.
Qed.

Lemma write_reqs_perm ws ws' : ws ≡ₚ ws' -> forall t, NoDup (w_idx <$> ws) -> foldl write_req t ws = foldl write_req t ws'.
Proof.
  induction 1 as [|w ws ws' Hp IH|w1 w2 ws|ws ws1 ws2 H1 IH1 H2 IH2]; intros t Hnd; [done| | |].
  - rewrite fmap_cons in Hnd. apply NoDup_cons in Hnd as [_ Hnd]. by apply IH.
  - cbn [foldl]. rewrite write_req_comm; [done|]. rewrite !fmap_cons in Hnd. apply NoDup_cons in Hnd as [Hn _].
    intros E. apply Hn. rewrite E. left.
  - rewrite IH1 by done. apply IH2. by rewrite <-H1.
Qed.

Lemma omap_seq {A} (l : list A) : omap (l !!.) (List.seq 0 (length l)) = l.
Proof.
  induction l as [|x l IH] using rev_ind; [done|]. rewrite length_app, Nat.add_comm. cbn [length Nat.add].
  rewrite seq_S, omap_app. cbn [omap list_omap]. rewrite Nat.add_0_l, list_lookup_middle by done. f_equal.
  rewrite <-IH at 2. clear IH. assert (forall k, k ∈ List.seq 0 (length l) -> (l ++ [x]) !! k = l !! k) as Hk.
  { intros k Hk%elem_of_seq. by rewrite lookup_app_l by lia. }
  revert Hk. generalize (List.seq 0 (length l)). intros ks. induction ks as [|k ks IHk]; intros Hk; [done|].
  cbn [omap list_omap]. rewrite Hk by left. rewrite IHk; [done|]. intros j Hj. apply Hk. by right.
Qed.

(** What each row holds after the batch has been written. *)
Lemma write_reqs_lookup ws : forall t i,
  NoDup (w_idx <$> ws) ->
  foldl write_req t ws !! i =
    match list_find (fun w => w_idx w = i) ws with Some (_, w) => fill_row w <$> t !! i | None => t !! i end.
Proof.
  induction ws as [|w ws IH]; intros t i Hnd; [done|]. rewrite fmap_cons in Hnd. apply NoDup_cons in Hnd as [Hn Hnd].
  cbn [foldl list_find]. rewrite IH by done. destruct (decide (w_idx w = i)) as [E|E].
  - assert (list_find (fun w0 => w_idx w0 = i) ws = None) as ->.
    { apply list_find_None, Forall_forall. intros w' Hw' <-. apply Hn. rewrite E. by apply list_elem_of_fmap_2. }
    unfold write_req. rewrite E. destruct (t !! i) as [row|] eqn:Er; [|by rewrite Er].
    by rewrite list_lookup_insert_eq by (by eapply lookup_lt_Some).
  - assert (write_req t w !! i = t !! i) as ->.
    { unfold write_req. destruct (t !! w_idx w); [|done]. by rewrite list_lookup_insert_ne. }
    destruct (list_find _ ws) as [[? ?]|]; done.
Qed.

Lemma write_reqs_in ws t w row :
  NoDup (w_idx <$> ws) -> w ∈ ws -> t !! w_idx w = Some row -> foldl write_req t ws !! w_idx w = Some (fill_row w row).
Proof.
  intros Hnd Hw Hrow. rewrite write_reqs_lookup by done.
  destruct (list_find (fun w0 => w_idx w0 = w_idx w) ws) as [[k w']|] eqn:Ef.
  - apply list_find_Some in Ef as (Hk & E & _). apply list_elem_of_lookup in Hw as [k' Hk'].
    assert (k = k') as <- by (eapply (NoDup_lookup _ _ _ _ Hnd); rewrite list_lookup_fmap, ?Hk, ?Hk'; cbn; by rewrite ?E).
    assert (w' = w) as -> by congruence. by rewrite Hrow.
  - apply list_find_None in Ef. rewrite Forall_forall in Ef. by destruct (Ef w Hw).
Qed.

Lemma write_reqs_out ws t i : NoDup (w_idx <$> ws) -> (i ∉ w_idx <$> ws) -> foldl write_req t ws !! i = t !! i.
Proof.
  intros Hnd Hi. rewrite write_reqs_lookup by done. destruct (list_find _ ws) as [[k w]|] eqn:Ef; [|done].
  apply list_find_Some in Ef as (Hk & E & _). destruct Hi. rewrite <-E. apply list_elem_of_fmap_2. by eapply list_elem_of_lookup_2.
Qed.

Lemma write_cache_indices_ok stride ws t order (tri : bool) :
  table_ok stride t -> Forall (write_ok stride t) ws -> NoDup (w_idx <$> ws) -> order ≡ₚ List.seq 0 (length ws) ->
  write_cache_indices tri order stride (outs_of ws) (idxs_of ws) (pres_of ws) (seqs_of ws) (exts_of ws) (w_pre <$> ws) t
  = Ret (foldl write_req t ws).
Proof.
  intros Ht Hws Hnd Ho. unfold write_cache_indices. destruct tri; [|exact (write_rows_ok stride ws t [] Ht Hws)].
  destruct (run_kernel stride ws order t Ht Hws) as (E1 & E2 & E3).
  { rewrite Ho. apply Forall_forall. intros k Hk%elem_of_seq. lia. }
  unfold launch_flat. rewrite E1, <-E3, reshape_concat by done. f_equal. symmetry. apply write_reqs_perm; [|done].
  rewrite <-(omap_seq ws) at 1. by rewrite Ho.
Qed.

(** C13. Both writers of a batch's slots agree: the Triton kernel, its program instances run
    in any order, leaves the table the loop of slice assignments leaves, in which the row of
    every request holds its prefix, its new slots and then what it held before, and every
    other row is untouched. *)
Theorem write_cache_indices_agree stride ws t order :
  table_ok stride t -> Forall (write_ok stride t) ws -> NoDup (w_idx <$> ws) -> order ≡ₚ List.seq 0 (length ws) ->
  exists t', (forall tri, write_cache_indices tri order stride (outs_of ws) (idxs_of ws) (pres_of ws) (seqs_of ws)
                  (exts_of ws) (w_pre <$> ws) t = Ret t') /\
    (forall w row, w ∈ ws -> t !! w_idx w = Some row -> t' !! w_idx w = Some (w_pre w ++ w_new w ++ drop (length (w_vals w)) row)) /\
    (forall i, (i ∉ w_idx <$> ws) -> t' !! i = t !! i).
Proof.
  intros Ht Hws Hnd Ho. exists (foldl write_req t ws). split; [|split].
  - intros tri. by apply write_cache_indices_ok.
  - intros w row Hw Hrow. rewrite (write_reqs_in ws t w row) by done. unfold fill_row, w_vals. by rewrite <-(assoc_L (++)).
  - intros i. by apply write_reqs_out.
Qed.

Example write_cache_indices_agree_witness :
  write_cache_indices true [1%nat; 0%nat] 3 [8; 5] [2; 0] [1; 2] [2; 3] [1; 1] [[4]; [6; 7]] [[0; 0; 0]; [1; 1; 1]; [9; 9; 9]]
  = write_cache_indices false [] 3 [8; 5] [2; 0] [1; 2] [2; 3] [1; 1] [[4]; [6; 7]] [[0; 0; 0]; [1; 1; 1]; [9; 9; 9]].
Proof.
  destruct (write_cache_indices_agree 3 [mkRowWrite 2 [4] [8]; mkRowWrite 0 [6; 7] [5]] [[0; 0; 0]; [1; 1; 1]; [9; 9; 9]]
    [1%nat; 0%nat]) as (t' & Ht & _).
  - repeat constructor.
  - repeat constructor; simpl; lia.
  - apply (bool_decide_eq_true_1 _). reflexivity.
  - apply perm_swap.
  - exact (eq_trans (Ht true) (eq_sym (Ht false))).
Defined.

(** ** The last slot of a prefix *)

Lemma concat_lookup_table stride (t : Table) : forall i row c,
  table_ok stride t -> t !! i = Some row -> (c < stride)%nat -> concat t !! (i * stride + c)%nat = row !! c.
Proof.
  induction t as [|r t IH]; intros i row c Ht Hi Hc; [done|]. apply Forall_cons in Ht as [Hr Ht]. destruct i as [|i]; simpl in *.
  - simplify_eq. by rewrite lookup_app_l by lia.
  - rewrite lookup_app_r by lia. rewrite <-(IH i row c Ht Hi Hc). f_equal. lia.
Qed.

Lemma torch_index_last n : (0 < n)%nat -> torch_index n (Z.of_nat 0 - 1) = Some (pred n).
Proof.
  intros Hn. unfold torch_index. destruct (Z.leb_spec 0 (Z.of_nat 0 - 1)), (Z.ltb_spec (Z.of_nat 0 - 1) 0),
    (Z.leb_spec 0 (Z.of_nat n + (Z.of_nat 0 - 1))); try lia. simpl. f_equal. lia.
Qed.

(** The cell a lane of either kernel reads. *)
Definition last_cell (t : Table) (i : nat) (n : nat) : Z := default 0 (t !! i ≫= fun row => row !! pred n).

Lemma read_cell_ok stride t i n :
  table_ok stride t -> (i < length t)%nat -> (n <= stride)%nat -> (0 < stride)%nat ->
  exists v, read_cell (Z.of_nat i) (Z.of_nat n - 1) t = Ret v /\ ((0 < n)%nat -> v = last_cell t i n /\
    nthZ (concat t) (Z.of_nat i * Z.of_nat stride + (Z.of_nat n - 1)) = v).
Proof.
  intros Ht Hi Hn Hs. destruct (lookup_lt_is_Some_2 t i Hi) as [row Hrow].
  assert (length row = stride) as Hr by exact (Forall_lookup_1 _ _ _ _ Ht Hrow).
  unfold read_cell. rewrite torch_index_nat by done. cbn. rewrite Hrow. cbn. destruct n as [|n].
  - rewrite Hr, torch_index_last by done. cbn.
    destruct (lookup_lt_is_Some_2 row (pred stride) ltac:(lia)) as [v Hv]. rewrite Hv. exists v. split; [done|lia].
  - replace (Z.of_nat (S n) - 1) with (Z.of_nat n) by lia. rewrite torch_index_nat by lia. cbn.
    destruct (lookup_lt_is_Some_2 row n ltac:(lia)) as [v Hv]. rewrite Hv. exists v. split; [done|]. intros _.
    unfold last_cell. rewrite Hrow. cbn. rewrite Hv. split; [done|]. unfold nthZ.
    replace (Z.to_nat _) with (i * stride + n)%nat by lia. by rewrite (concat_lookup_table stride t i row n), Hv by (done || lia).
Qed.

Section last.
Context (stride : nat) (t : Table) (rs : list (nat * nat)).
Context (Ht : table_ok stride t) (Hs : (0 < stride)%nat).
Context (Hrs : Forall (fun r : nat * nat => (r.1 < length t)%nat /\ (r.2 <= stride)%nat) rs).
Local Abbreviation idxs := ((fun r : nat * nat => Z.of_nat r.1) <$> rs).
Local Abbreviation lens := ((fun r : nat * nat => Z.of_nat r.2) <$> rs).

Definition last_locs : list Z := (fun r : nat * nat => if (0 <? r.2)%nat then last_cell t r.1 r.2 else -1) <$> rs.

Lemma get_last_loc_torch_ok : get_last_loc_torch t idxs lens = Ret last_locs.
Proof.
  unfold last_locs. clear -Ht Hs Hrs. induction Hrs as [|[i n] l [Hi Hn] Hl IH]; [done|]. cbn [fst snd] in Hi, Hn.
  cbn [fmap list_fmap get_last_loc_torch fst snd].
  destruct (read_cell_ok stride t i n Ht Hi Hn Hs) as (v & E & Hv). rewrite E. cbn [mbind Outcome_bind].
  change (list_fmap _ _ ?f l) with (f <$> l). rewrite IH by done. cbn [mbind Outcome_bind]. f_equal. f_equal.
  destruct (Nat.ltb_spec 0 n), (Z.ltb_spec 0 (Z.of_nat n)); lia.
Qed.

Lemma last_lane (k : nat) : (k < length rs)%nat ->
  (if 0 <? nthZ lens (Z.of_nat k)
   then nthZ (concat t) (nthZ idxs (Z.of_nat k) * Z.of_nat stride + (nthZ lens (Z.of_nat k) - 1)) else -1)
  = nthZ last_locs (Z.of_nat k).
Proof.
  intros Hk. destruct (lookup_lt_is_Some_2 rs k Hk) as [[i n] Hr]. unfold last_locs. rewrite !(nthZ_fmap _ _ _ _ Hr). cbn [fst snd].
  destruct (Forall_lookup_1 _ _ _ _ Hrs Hr) as [Hi Hn]. cbn [fst snd] in Hi, Hn.
  destruct (read_cell_ok stride t i n Ht Hi Hn Hs) as (v & _ & Hv).
  destruct (Nat.ltb_spec 0 n), (Z.ltb_spec 0 (Z.of_nat n)); lia.
Qed.

(** Either kernel writes each lane of the batch once. *)
Lemma launch_last_ok (kernel : list Z -> list Z -> list Z -> Z -> Z -> nat -> list (Z * Z)) order :
  (forall pid, kernel (concat t) idxs lens (len lens) (Z.of_nat stride) pid
     = (fun o => (o, nthZ last_locs o)) <$> filter (fun o => o < len lens) ((fun o => Z.of_nat pid * BLOCK_LAST + o) <$> arange 0 BLOCK_LAST)) ->
  order ≡ₚ List.seq 0 (Z.to_nat ((len lens + BLOCK_LAST - 1) / BLOCK_LAST)) ->
  launch_last kernel order stride t idxs lens = last_locs.
Proof.
  intros Hk Ho. unfold launch_last, launch. set (n := len lens) in *.
  assert (n = Z.of_nat (length rs)) as Hn by (unfold n, len; by rewrite length_fmap).
  assert (concat (kernel (concat t) idxs lens n (Z.of_nat stride) <$> order) ≡ₚ (fun o => (o, nthZ last_locs o)) <$> seqZ 0 n) as Hp.
  { rewrite Ho, <-(kernel_blocks _ BLOCK_LAST n) by (unfold BLOCK_LAST, n, len; lia). unfold arange at 2.
    assert (seqZ 0 ((n + BLOCK_LAST - 1) / BLOCK_LAST) = Z.of_nat <$> List.seq 0 (Z.to_nat ((n + BLOCK_LAST - 1) / BLOCK_LAST))) as ->.
    { unfold seqZ. apply list_fmap_ext. intros; lia. }
    rewrite <-list_fmap_compose. erewrite list_fmap_ext; [reflexivity|]. intros j pid _. cbn. rewrite Hk.
    generalize (arange 0 BLOCK_LAST). intros l. induction l as [|x l IHl]; [done|]. cbn [fmap list_fmap].
    change (list_fmap _ _ ?f l) with (f <$> l). rewrite !filter_cons. fold n.
    destruct (decide (Z.of_nat pid * BLOCK_LAST + x < n)); [|exact IHl]. cbn [fmap list_fmap]. f_equal. exact IHl. }
  assert (((fun o => (o, nthZ last_locs o)) <$> seqZ 0 n).*1 = seqZ 0 n) as Hfst.
  { rewrite <-list_fmap_compose. apply list_fmap_id. }
  rewrite (run_stores_perm ∅ _ _) with (2 := Hp) by (rewrite Hp, Hfst; apply NoDup_seqZ).
  rewrite read_out_stores by done. rewrite <-list_fmap_compose. apply list_eq. intros k. rewrite list_lookup_fmap.
  assert (length last_locs = length rs) as Hll by apply length_fmap. destruct (decide (k < length rs)%nat) as [Hk1|Hk1].
  - rewrite lookup_seqZ_lt by (rewrite Hn; lia). cbn. unfold nthZ. rewrite Z.add_0_l, Nat2Z.id.
    destruct (lookup_lt_is_Some_2 last_locs k ltac:(lia)) as [v ->]. done.
  - rewrite lookup_seqZ_ge by (rewrite Hn; lia). symmetry. apply lookup_ge_None. lia.
Qed.

Lemma get_last_loc_kernel_eq pid :
  get_last_loc_kernel (concat t) idxs lens (len lens) (Z.of_nat stride) pid
  = (fun o => (o, nthZ last_locs o)) <$> filter (fun o => o < len lens) ((fun o => Z.of_nat pid * BLOCK_LAST + o) <$> arange 0 BLOCK_LAST) /\
  _get_last_loc_safe_kernel (concat t) idxs lens (len lens) (Z.of_nat stride) pid
  = (fun o => (o, nthZ last_locs o)) <$> filter (fun o => o < len lens) ((fun o => Z.of_nat pid * BLOCK_LAST + o) <$> arange 0 BLOCK_LAST).
Proof.
  unfold get_last_loc_kernel, _get_last_loc_safe_kernel. split; apply list_fmap_ext; intros k o Ho%list_elem_of_lookup_2;
    apply list_elem_of_filter in Ho as [Ho (o' & -> & Ho'%elem_of_seqZ)%list_elem_of_fmap]; unfold len in Ho; rewrite length_fmap in Ho.
  - f_equal. replace (Z.of_nat pid * BLOCK_LAST + o') with (Z.of_nat (Z.to_nat (Z.of_nat pid * BLOCK_LAST + o'))) by (unfold BLOCK_LAST in *; lia).
    apply last_lane. unfold BLOCK_LAST in *. lia.
  - destruct (Z.ltb_spec (Z.of_nat pid * BLOCK_LAST + o') (len lens)) as [_|Hge]; [|unfold len in Hge; rewrite length_fmap in Hge; lia].
    f_equal. replace (Z.of_nat pid * BLOCK_LAST + o') with (Z.of_nat (Z.to_nat (Z.of_nat pid * BLOCK_LAST + o'))) by (unfold BLOCK_LAST in *; lia).
    apply last_lane. unfold BLOCK_LAST in *. lia.
Qed.

(** [get_last_loc] on every backend: the slot of the last token of each prefix, or -1 for an
    empty prefix. *)
Lemma get_last_loc_ok is_hip uses_triton order :
  order ≡ₚ List.seq 0 (Z.to_nat ((len lens + BLOCK_LAST - 1) / BLOCK_LAST)) ->
  get_last_loc is_hip uses_triton order stride t idxs lens = Ret last_locs.
Proof.
  intros Ho. unfold get_last_loc. destruct (is_hip && uses_triton); [|destruct uses_triton].
  - f_equal. apply launch_last_ok; [|done]. intros pid. apply get_last_loc_kernel_eq.
  - f_equal. apply launch_last_ok; [|done]. intros pid. apply get_last_loc_kernel_eq.
  - apply get_last_loc_torch_ok.
Qed.
End last.
