(* ===== verification/KVEvents.v ===== *)
(** * Page hashes and cache events (mem_cache/utils.py, events.py, RadixKey.hash_page)

    A page of a key is identified by the SHA-256 of its tokens chained to the hash of the page
    before it.  The digest function is a parameter.  Events report stored and removed pages
    by the first 64 bits of their hash.  Theorems: the hashes of a split node are the hashes
    of its two halves; [hash_page] and [get_hash_str] agree; event hashes are signed 64-bit
    numbers; the events of a node form a chain over its pages. *)

From stdpp Require Import base tactics list gmap strings.
From Stdlib Require Import ZArith Lia Ascii.
From S2P Require Import Prelude PyStr RadixKey TreeNode.

(** ** Hexadecimal digits *)

(** The value of a hexadecimal digit. *)
Definition hex_val (c : ascii) : option Z :=
  let n := Z.of_nat (nat_of_ascii c) in
  if (48 <=? n) && (n <=? 57) then Some (n - 48)
  else if (97 <=? n) && (n <=? 102) then Some (n - 87)
  else if (65 <=? n) && (n <=? 70) then Some (n - 55)
  else None.

(** [bytes.fromhex]: pairs of digits, without the optional white space *)
Fixpoint fromhex_chars (l : list ascii) : option (list Z) :=
  match l with
  | [] => Some []
  | a :: b :: l' =>
      x ← hex_val a; y ← hex_val b; r ← fromhex_chars l'; Some (16 * x + y :: r)
  | _ => None
  end.
Definition fromhex (s : string) : Outcome (list Z) :=
  match fromhex_chars (chars s) with Some l => Ret l | None => Raise ValueError end.

(** [int(s, 16)] of plain digits; Python refuses an empty string *)
Fixpoint int16_acc (acc : Z) (l : list ascii) : option Z :=
  match l with
  | [] => Some acc
  | c :: l' => x ← hex_val c; int16_acc (16 * acc + x) l'
  end.
Definition int16 (l : list ascii) : Outcome Z :=
  match l with
  | [] => Raise ValueError
  | _ => match int16_acc 0 l with Some z => Ret z | None => Raise ValueError end
  end.

Definition hash_str_to_int64 (hash_str : string) : Outcome Z :=
  uint64_val ← int16 (take 16 (chars hash_str));
  Ret (if 2 ^ 63 <=? uint64_val then uint64_val - 2 ^ 64 else uint64_val).

(** [t.to_bytes(4, byteorder="little", signed=False)] *)
Definition to_bytes4 (t : Z) : Outcome (list Z) :=
  if (t <? 0) || (2 ^ 32 <=? t) then Raise OverflowError
  else Ret [t mod 256; t / 2 ^ 8 mod 256; t / 2 ^ 16 mod 256; t / 2 ^ 24 mod 256].

(** ** Hashing pages *)

Section hashing.
(** [hashlib.sha256(data).hexdigest()] *)
Context (sha256 : list Z -> string).

(** The bytes fed to the hasher by a sequence of [update] calls. *)
Fixpoint updates (l : list Z) : Outcome (list Z) :=
  match l with
  | [] => Ret []
  | t :: l' => b ← to_bytes4 t; r ← updates l'; Ret (b ++ r)
  end.

(** [if prior_hash: hasher.update(bytes.fromhex(prior_hash))] *)
Definition prior_bytes (prior_hash : option string) : Outcome (list Z) :=
  match prior_hash with
  | Some h => if is_empty_str h then Ret [] else fromhex h
  | None => Ret []
  end.

Definition unit_toks (u : KeyUnit) : list Z :=
  match u with Tok t => [t] | Pair a b => [a; b] end.

Definition get_hash_str (us : list KeyUnit) (prior_hash : option string) : Outcome string :=
  p ← prior_bytes prior_hash; b ← updates (concat (unit_toks <$> us)); Ret (sha256 (p ++ b)).

(** [t[j]], [t[j + 1]] for [j] in [range(start, end)] *)
Fixpoint raw_toks (bigram : bool) (t : list Z) (start n : nat) : Outcome (list Z) :=
  match n with
  | O => Ret []
  | S n' =>
      x ← match t !! start with Some x => Ret x | None => Raise IndexError end;
      ys ← (if bigram then
              match t !! S start with Some y => Ret [y] | None => Raise IndexError end
            else Ret []);
      r ← raw_toks bigram t (S start) n';
      Ret (x :: ys ++ r)
  end.

Definition hash_page (k : RadixKey) (start end_ : nat) (prior_hash : option string) :
    Outcome string :=
  p ← prior_bytes prior_hash;
  toks ← raw_toks (is_bigram k) (token_ids k) start (end_ - start);
  b ← updates toks;
  Ret (sha256 (p ++ b)).

(** The loop over the pages of a key: page [i] covers [range(i * p, min((i + 1) * p, n))]. *)
Fixpoint hash_pages (fuel : nat) (p : nat) (k : RadixKey) (start : nat) (prior : option string) :
    Outcome (list string) :=
  match fuel with
  | O => OutOfFuel
  | S f =>
      if (start <? key_len k)%nat then
        h ← hash_page k start (Nat.min (start + p) (key_len k)) prior;
        r ← hash_pages f p k (start + p) (Some h);
        Ret (h :: r)
      else Ret []
  end.

(** [parent] is the parent node, if any. *)
Definition compute_node_hash_values (p : nat) (par : option TreeNode) (n : TreeNode) :
    Outcome (list string) :=
  let parent_hash :=
    par' ← par; hv ← hash_value par';
    if (0 <? key_len (key par'))%nat then last hv else None in
  hash_pages (S (key_len (key n))) p (key n) 0 parent_hash.

Definition split_node_hash_value (child_hash_value : option (list string)) (split_len page_size : nat) :
    option (list string) * option (list string) :=
  match child_hash_value with
  | None => (None, None)
  | Some hv =>
      let split_pages := if (page_size =? 1)%nat then split_len else (split_len / page_size)%nat in
      (Some (take split_pages hv), Some (drop split_pages hv))
  end.

(** ** Events *)

Inductive KVEvent :=
  | BlockStored (block_hashes : list Z) (parent_block_hash : option Z)
      (token_ids : list KeyUnit) (block_size : nat) (medium : string)
  | BlockRemoved (block_hashes : list Z) (medium : string)
  | AllBlocksCleared.

(** The loop of [_record_store_event] over the pages of a key. *)
Fixpoint store_events (fuel p : nat) (k : RadixKey) (hashes : list string) (medium : string)
    (start page_index : nat) (parent_block_hash : option Z) : Outcome (list KVEvent) :=
  match fuel with
  | O => OutOfFuel
  | S f =>
      if (start <? key_len k)%nat then
        let end_ := Nat.min (start + p) (key_len k) in
        let page_tokens := slice (units k) start end_ in
        h ← match hashes !! page_index with Some h => Ret h | None => Raise IndexError end;
        block_hash ← hash_str_to_int64 h;
        r ← store_events f p k hashes medium (start + p) (S page_index) (Some block_hash);
        Ret (BlockStored [block_hash] parent_block_hash page_tokens (length page_tokens) medium :: r)
      else Ret []
  end.

Fixpoint remove_events (fuel p : nat) (k : RadixKey) (hashes : list string) (medium : string)
    (start page_index : nat) : Outcome (list KVEvent) :=
  match fuel with
  | O => OutOfFuel
  | S f =>
      if (start <? key_len k)%nat then
        h ← match hashes !! page_index with Some h => Ret h | None => Raise IndexError end;
        block_hash ← hash_str_to_int64 h;
        r ← remove_events f p k hashes medium (start + p) (S page_index);
        Ret (BlockRemoved [block_hash] medium :: r)
      else Ret []
  end.

(** [node.hash_value], computed when it is not set. *)
Definition node_hashes (p : nat) (par : option TreeNode) (n : TreeNode) : Outcome (list string) :=
  match hash_value n with
  | Some hv => Ret hv
  | None => compute_node_hash_values p par n
  end.

(** The hash values and events of [_record_store_event]; [par_is_root] tells whether the
    parent is the root node. *)
Definition store_event_of (p : nat) (par : option TreeNode) (par_is_root : bool) (medium : string)
    (n : TreeNode) : Outcome (list string * list KVEvent) :=
  hv ← node_hashes p par n;
  parent_block_hash ←
    match par with
    | Some par' =>
        if par_is_root then Ret None
        else match hash_value par' ≫= last with
             | Some h => z ← hash_str_to_int64 h; Ret (Some z)
             | None => Ret None
             end
    | None => Ret None
    end;
  ev ← store_events (S (key_len (key n))) p (key n) hv medium 0 0 parent_block_hash;
  Ret (hv, ev).

Definition remove_event_of (p : nat) (par : option TreeNode) (medium : string) (n : TreeNode) :
    Outcome (list KVEvent) :=
  hv ← node_hashes p par n;
  remove_events (S (key_len (key n))) p (key n) hv medium 0 0.
End hashing.

(** ** Pages as chunks of logical units *)

Fixpoint chunks {A} (fuel p : nat) (l : list A) : list (list A) :=
  match fuel, l with
  | S f, _ :: _ => take p l :: chunks f p (drop p l)
  | _, _ => []
  end.

#[local] Open Scope nat_scope.

Lemma chunks_fuel {A} f f' p (l : list A) :
  1 <= p -> length l <= f -> length l <= f' -> chunks f p l = chunks f' p l.
Proof.
  intros Hp. revert f' l. induction f as [|f IH]; intros f' l Hf Hf'.
  - destruct l; [|simpl in *; lia]. by destruct f'.
  - destruct l as [|x l]; [by destruct f'|]. destruct f' as [|f']; [simpl in *; lia|].
    cbn [chunks]. f_equal. apply IH; rewrite length_drop; simpl in *; lia.
Qed.

Lemma chunks_app {A} f p (l1 l2 : list A) :
  1 <= p -> length l1 mod p = 0 -> length (l1 ++ l2) <= f ->
  chunks f p (l1 ++ l2) = chunks f p l1 ++ chunks f p l2.
Proof.
  intros Hp. revert l1. induction f as [|f IH]; intros l1 Hm Hf.
  - by destruct l1.
  - destruct l1 as [|x l1]; [done|].
    assert (p <= length (x :: l1)) as Hle.
    { pose proof (Nat.div_mod_eq (length (x :: l1)) p). simpl length in *.
      destruct (Nat.eq_dec (S (length l1) / p) 0); nia. }
    set (l := x :: l1) in *. change (chunks (S f) p (l ++ l2))
      with (take p (l ++ l2) :: chunks f p (drop p (l ++ l2))).
    change (chunks (S f) p l) with (take p l :: chunks f p (drop p l)).
    rewrite take_app_le, drop_app_le by done. cbn [app]. f_equal.
    assert (length l2 <= f).
    { rewrite length_app in Hf. simpl in Hf. lia. }
    rewrite (chunks_fuel (S f) f p l2) by lia. apply IH.
    + rewrite length_drop. pose proof (Nat.div_mod_eq (length l) p).
      destruct (length l / p) as [|q] eqn:Eq; [nia|].
      replace (length l - p) with (q * p) by nia. apply Nat.Div0.mod_mul.
    + rewrite length_app, length_drop. rewrite length_app in Hf. simpl in *. lia.
Qed.

Lemma length_chunks {A} f p (l : list A) :
  1 <= p -> length l mod p = 0 -> length l <= f -> length (chunks f p l) = length l / p.
Proof.
  intros Hp. revert l. induction f as [|f IH]; intros l Hm Hf.
  - destruct l; [|simpl in *; lia]. simpl. by rewrite Nat.Div0.div_0_l.
  - destruct l as [|x l]; [simpl; by rewrite Nat.Div0.div_0_l|].
    cbn [chunks length]. set (k := x :: l) in *.
    change (S (length l)) with (length k) in *.
    pose proof (Nat.div_mod_eq (length k) p). assert (length k <> 0) by done.
    destruct (length k / p) as [|q] eqn:Eq; [nia|].
    assert (length (drop p k) = q * p) as Hd by (rewrite length_drop; nia).
    rewrite IH; rewrite Hd; [|by apply Nat.Div0.mod_mul|nia]. f_equal.
    apply Nat.div_mul. lia.
Qed.

Lemma slice_chunk k start p :
  (start < key_len k) ->
  slice (units k) start (Nat.min (start + p) (key_len k)) = take p (drop start (units k)).
Proof.
  intros Hs. unfold slice. apply list_eq. intros i. rewrite <-length_units.
  destruct (decide (i < Nat.min (start + p) (length (units k)) - start)).
  - by rewrite !lookup_take_lt by lia.
  - rewrite lookup_take_ge by lia. destruct (decide (i < p)).
    + rewrite lookup_take_lt, lookup_drop by lia. symmetry. apply lookup_ge_None_2. lia.
    + by rewrite lookup_take_ge by lia.
Qed.

Section hash_props.
Context (sha256 : list Z -> string).

(** The hashes of successive pages, each chained to the one before. *)
Fixpoint hash_chain (prior : option string) (cs : list (list KeyUnit)) : Outcome (list string) :=
  match cs with
  | [] => Ret []
  | c :: cs' =>
      h ← get_hash_str sha256 c prior; r ← hash_chain (Some h) cs'; Ret (h :: r)
  end.

Lemma raw_toks_units k start n :
  start + n <= key_len k ->
  raw_toks (is_bigram k) (token_ids k) start n
  = Ret (concat (unit_toks <$> take n (drop start (units k)))).
Proof.
  revert start. induction n as [|n IH]; intros start Hle; [done|].
  assert (start < length (units k)) as Hlt by (rewrite length_units; lia).
  destruct (lookup_lt_is_Some_2 _ _ Hlt) as [u Hu].
  rewrite (drop_S _ _ _ Hu). cbn [raw_toks take fmap list_fmap concat]. rewrite IH by lia.
  unfold units, pairs in Hu. destruct (is_bigram k) eqn:Eb.
  - rewrite lookup_zip_with in Hu. rewrite lookup_tail in Hu.
    destruct (token_ids k !! start) as [a|]; [|done]. simpl in Hu.
    destruct (token_ids k !! S start) as [b|]; [|done]. simpl in Hu. by simplify_eq.
  - rewrite list_lookup_fmap in Hu. destruct (token_ids k !! start) as [a|]; [|done].
    simpl in Hu. by simplify_eq.
Qed.

Lemma hash_page_units k start end_ prior :
  end_ <= key_len k ->
  start <= end_ ->
  hash_page sha256 k start end_ prior = get_hash_str sha256 (slice (units k) start end_) prior.
Proof.
  intros He Hs. unfold hash_page, get_hash_str, slice. rewrite raw_toks_units by lia. done.
Qed.

Lemma hash_pages_chain fuel p k start prior :
  1 <= p -> key_len k - start < fuel ->
  hash_pages sha256 fuel p k start prior
  = hash_chain prior (chunks fuel p (drop start (units k))).
Proof.
  intros Hp. revert start prior. induction fuel as [|fuel IH]; intros start prior Hf; [lia|].
  cbn [hash_pages]. destruct (Nat.ltb_spec start (key_len k)) as [Hlt|Hge].
  - rewrite hash_page_units by lia.
    destruct (drop start (units k)) as [|u us] eqn:E.
    { apply (f_equal length) in E. rewrite length_drop, length_units in E. simpl in E. lia. }
    cbn [chunks]. rewrite <-E. cbn [hash_chain]. rewrite drop_drop.
    rewrite slice_chunk by lia.
    destruct (get_hash_str sha256 _ prior) as [h| |]; [|done..]. cbn.
    rewrite (IH (start + p) (Some h)) by lia. done.
  - rewrite drop_ge by (rewrite length_units; lia). done.
Qed.

Lemma hash_chain_app prior c1 c2 hv :
  hash_chain prior (c1 ++ c2) = Ret hv ->
  hash_chain prior c1 = Ret (take (length c1) hv) /\
  hash_chain (match last (take (length c1) hv) with Some h => Some h | None => prior end) c2
  = Ret (drop (length c1) hv).
Proof.
  revert prior hv. induction c1 as [|c c1 IH]; intros prior hv.
  - cbn. rewrite drop_0. done.
  - cbn [app hash_chain]. destruct (get_hash_str sha256 c prior) as [h| |] eqn:Eh; [|done..].
    cbn. destruct (hash_chain (Some h) (c1 ++ c2)) as [r| |] eqn:Er; [|done..].
    intros [= <-]. destruct (IH _ _ Er) as [H1 H2]. cbn. rewrite H1. split; [done|].
    rewrite last_cons. destruct (last (take (length c1) r)); done.
Qed.

Lemma hash_chain_length prior cs hv : hash_chain prior cs = Ret hv -> length hv = length cs.
Proof.
  revert prior hv. induction cs as [|c cs IH]; intros prior hv; [by intros [= <-]|].
  cbn [hash_chain]. destruct (get_hash_str sha256 c prior) as [h| |]; [|done..]. cbn.
  destruct (hash_chain (Some h) cs) as [r| |] eqn:E; [|done..]. intros [= <-].
  simpl. f_equal. eauto.
Qed.
End hash_props.

(** Splitting a node keeps its page hashes: if a node of key [k] holds the chained
    hashes of its pages, the two lists [split_node_hash_value] produces are the hashes of
    the two halves of the key, the second half chained to the last hash of the first. *)
Theorem split_hash_consistent sha256 p k prior hv n :
  1 <= p -> n mod p = 0 -> 0 < n <= key_len k ->
  hash_pages sha256 (S (key_len k)) p k 0 prior = Ret hv ->
  exists h1 h2, split_node_hash_value (Some hv) n p = (Some h1, Some h2) /\
    hash_pages sha256 (S n) p (key_take n k) 0 prior = Ret h1 /\
    hash_pages sha256 (S (key_len k - n)) p (key_drop n k) 0 (last h1) = Ret h2.
Proof.
  intros Hp Hmod Hn Hhv. rewrite hash_pages_chain in Hhv by lia. rewrite drop_0 in Hhv.
  assert (length (take n (units k)) = n) as Hlen by (rewrite length_take, length_units; lia).
  rewrite <-(take_drop n (units k)) in Hhv.
  rewrite chunks_app in Hhv by (rewrite ?take_drop, ?Hlen, ?length_units; lia).
  apply hash_chain_app in Hhv as [H1 H2].
  rewrite length_chunks in H1, H2 by (rewrite ?Hlen; lia). rewrite Hlen in H1, H2.
  exists (take (n / p) hv), (drop (n / p) hv). split_and!.
  - unfold split_node_hash_value. destruct (Nat.eqb_spec p 1) as [->|]; [|done].
    by rewrite Nat.div_1_r.
  - rewrite hash_pages_chain by (rewrite ?key_len_take; lia).
    rewrite drop_0, units_take. rewrite (chunks_fuel _ (S (key_len k))) by lia. done.
  - rewrite hash_pages_chain by (rewrite ?key_len_drop; lia).
    rewrite drop_0, units_drop.
    rewrite (chunks_fuel _ (S (key_len k))) by (rewrite ?length_drop, ?length_units; lia).
    destruct (last (take (n / p) hv)) eqn:El; [done|].
    apply last_None in El. apply hash_chain_length in H1. exfalso. revert H1.
    rewrite El, length_chunks by (rewrite ?Hlen; lia). rewrite Hlen. simpl.
    pose proof (Nat.div_mod_eq n p). nia.
Qed.

Example split_hash_consistent_witness :
  let h (l : list Z) := if (length l =? 4)%nat then "a0" else "b1" in
  exists h1 h2, split_node_hash_value (Some ["a0"; "b1"]) 1 1 = (Some h1, Some h2) /\
    hash_pages h 2 1 (mkRadixKey [7%Z] None false) 0 None = Ret h1.
Proof.
  intros h.
  destruct (split_hash_consistent h 1 (mkRadixKey [7%Z; 8%Z] None false) None ["a0"; "b1"] 1)
    as (h1 & h2 & H1 & H2 & _); [lia|done|split; [lia|apply Nat.leb_le; reflexivity]|reflexivity|].
  exists h1, h2. split; [exact H1|exact H2].
Defined.

(** ** Event hashes *)

#[local] Open Scope Z_scope.

Lemma hex_val_bound c x : hex_val c = Some x -> 0 <= x < 16.
Proof. unfold hex_val. intros H. repeat case_match; simplify_eq; lia. Qed.

Lemma int16_acc_bound l acc z :
  0 <= acc -> int16_acc acc l = Some z ->
  acc * 16 ^ Z.of_nat (length l) <= z < (acc + 1) * 16 ^ Z.of_nat (length l).
Proof.
  revert acc. induction l as [|c l IH]; intros acc Hacc; cbn [int16_acc length].
  - intros [= <-]. rewrite Z.pow_0_r. lia.
  - destruct (hex_val c) as [x|] eqn:Ex; [|done]. simpl. intros H.
    apply hex_val_bound in Ex. apply IH in H; [|lia].
    rewrite Nat2Z.inj_succ, Z.pow_succ_r by lia.
    pose proof (Z.pow_pos_nonneg 16 (Z.of_nat (length l))). nia.
Qed.

Lemma hash_str_to_int64_bound s z : hash_str_to_int64 s = Ret z -> - 2 ^ 63 <= z < 2 ^ 63.
Proof.
  unfold hash_str_to_int64, int16. destruct (take 16 (chars s)) as [|c l] eqn:E; [done|].
  rewrite <-E. destruct (int16_acc 0 (take 16 (chars s))) as [u|] eqn:Eu; [|done].
  apply int16_acc_bound in Eu; [|lia].
  assert (16 ^ Z.of_nat (length (take 16 (chars s))) <= 16 ^ 16) as Hle
    by (apply Z.pow_le_mono_r; [lia|]; rewrite length_take; lia).
  change (16 ^ 16) with (2 ^ 64) in Hle. cbn. intros [= <-].
  destruct (Z.leb_spec (2 ^ 63) u); lia.
Qed.

(** The events of a node: one per page, chained by the hash of the page before. *)
Fixpoint stored_chain (medium : string) (par : option Z) (zs : list Z) (cs : list (list KeyUnit)) :
    list KVEvent :=
  match zs, cs with
  | z :: zs', c :: cs' => BlockStored [z] par c (length c) medium :: stored_chain medium (Some z) zs' cs'
  | _, _ => []
  end.

Lemma store_events_aux fuel p k hashes medium start i par ev :
  (1 <= p)%nat -> (key_len k - start < fuel)%nat ->
  store_events fuel p k hashes medium start i par = Ret ev ->
  exists zs, length zs = length (chunks fuel p (drop start (units k))) /\
    ev = stored_chain medium par zs (chunks fuel p (drop start (units k))) /\
    Forall (fun z => - 2 ^ 63 <= z < 2 ^ 63) zs /\
    remove_events fuel p k hashes medium start i
    = Ret ((fun z => BlockRemoved [z] medium) <$> zs).
Proof.
  intros Hp. revert start i par ev. induction fuel as [|fuel IH]; intros start i par ev Hf; [done|].
  cbn [store_events remove_events]. destruct (Nat.ltb_spec start (key_len k)) as [Hlt|Hge].
  - rewrite slice_chunk by lia.
    destruct (hashes !! i) as [h|]; [|done]. cbn.
    destruct (hash_str_to_int64 h) as [z| |] eqn:Ez; [|done..]. cbn.
    destruct (store_events fuel p k hashes medium (start + p) (S i) (Some z)) as [r| |] eqn:Er;
      [|done..]. cbn. intros [= <-].
    destruct (IH (start + p)%nat (S i) (Some z) r ltac:(lia) Er) as (zs & Hl & -> & Hb & ->).
    exists (z :: zs). destruct (drop start (units k)) as [|u us] eqn:E.
    { apply (f_equal length) in E. rewrite length_drop, length_units in E. simpl in E. lia. }
    cbn [chunks]. rewrite <-E, drop_drop.
    split_and!; [cbn [length]; by rewrite Hl|done| |done].
    constructor; [by eapply hash_str_to_int64_bound|done].
  - intros [= <-]. exists []. rewrite drop_ge by (rewrite length_units; lia). done.
Qed.

Lemma chunks_concat {A} f p (l : list A) : (1 <= p)%nat -> (length l <= f)%nat -> concat (chunks f p l) = l.
Proof.
  intros Hp. revert l. induction f as [|f IH]; intros l Hf.
  - by destruct l; [|simpl in *; lia].
  - destruct l as [|x l]; [done|]. cbn [chunks concat]. rewrite IH.
    + apply take_drop.
    + rewrite length_drop. simpl in *. lia.
Qed.

(** The events of a node describe it faithfully: storing emits one [BlockStored] per page,
    whose tokens together are exactly the units of the key and whose parent hash is the
    hash of the page before; removing emits [BlockRemoved] for the same hashes in the same
    order; every hash is a signed 64-bit number. *)
Theorem store_remove_events_chain p k hashes medium par ev :
  (1 <= p)%nat -> store_events (S (key_len k)) p k hashes medium 0 0 par = Ret ev ->
  exists zs pages, ev = stored_chain medium par zs pages /\ length zs = length pages /\
    concat pages = units k /\ Forall (fun z => - 2 ^ 63 <= z < 2 ^ 63) zs /\
    remove_events (S (key_len k)) p k hashes medium 0 0
    = Ret ((fun z => BlockRemoved [z] medium) <$> zs).
Proof.
  intros Hp Hev. destruct (store_events_aux (S (key_len k)) p k hashes medium 0 0 par ev Hp ltac:(lia) Hev)
    as (zs & Hl & -> & Hb & Hr).
  exists zs, (chunks (S (key_len k)) p (units k)). rewrite drop_0 in *.
  split_and!; try done. apply chunks_concat; [done|]. rewrite length_units. lia.
Qed.

Example store_remove_events_chain_witness :
  exists zs pages, stored_chain "GPU" None zs pages
    = [BlockStored [160] None [Tok 5; Tok 6] 2 "GPU"; BlockStored [177] (Some 160) [Tok 7] 1 "GPU"] /\
    concat pages = units (mkRadixKey [5; 6; 7] None false).
Proof.
  destruct (store_remove_events_chain 2 (mkRadixKey [5; 6; 7] None false) ["a0"; "b1"] "GPU" None
    [BlockStored [160] None [Tok 5; Tok 6] 2 "GPU"; BlockStored [177] (Some 160) [Tok 7] 1 "GPU"])
    as (zs & pages & E & _ & Hc & _); [lia|reflexivity|].
  exists zs, pages. split; [by rewrite <-E|exact Hc].
Defined.
