(* ===== verification/RadixTree.v ===== *)
(** * RadixCache (mem_cache/radix_cache.py)

    The prefix cache: a radix tree whose edges carry key segments and the KV indices of those
    tokens.  Nodes live in a store indexed by their identifier ([TreeNode.counter] numbers
    them), so that sharing and in-place updates are those of the Python objects.  Every
    method is a computation in the state-exception monad.  Parameters: the clock
    [time.monotonic] (successive readings [now 0], [now 1], ...), the digest function, the
    KV allocator (class [KVAllocator]) and the heap (class [HeapQ]).  A node leaves the store
    when [_delete_leaf] unlinks it.  Python dictionaries of children are finite maps: their
    iteration order only shows in the order of [all_values_flatten]. *)

From stdpp Require Import base tactics list gmap strings.
From Stdlib Require Import ZArith Lia.
From S2P Require Import Prelude PyStr RadixKey TreeNode EvictPolicy Allocator AllocatorProofs KVEvents.

Record Config := mkConfig {
  disable : bool;
  cfg_page_size : nat;
  enable_kv_cache_events : bool;
  is_eagle : bool;
  disable_finished_insert : bool;
  strip_thinking_cache : bool;
  eviction_strategy : EvictionStrategy }.

Record Cache (T : Type) := mkCache {
  nodes : gmap nat TreeNode;
  root_node : nat;
  counter : nat;
  ticks : nat;
  evictable_size_ : Z;
  protected_size_ : Z;
  evictable_leaves : gset nat;
  kv_event_queue : list KVEvent;
  kv_pool : T;
  req_to_token : list (list Z) }.
Arguments mkCache {T}.
Arguments nodes {T}.
Arguments root_node {T}.
Arguments counter {T}.
Arguments ticks {T}.
Arguments evictable_size_ {T}.
Arguments protected_size_ {T}.
Arguments evictable_leaves {T}.
Arguments kv_event_queue {T}.
Arguments kv_pool {T}.
Arguments req_to_token {T}.

(** base_prefix_cache.py: parameters and results *)
Record MatchResult := mkMatchResult {
  device_indices : list Z;
  last_device_node : nat;
  last_host_node : nat;
  best_match_node : nat }.

Record InsertParams := mkInsertParams {
  ip_key : RadixKey;
  ip_value : option (list Z);
  ip_priority : option Z;
  ip_chunked : bool }.

(** The fields of a request that the cache reads and writes. *)
Record Req := mkReq {
  req_pool_idx : nat;
  origin_input_ids : list Z;
  output_ids : list Z;
  fill_ids : list Z;
  req_extra_key : option string;
  req_priority : option Z;
  cache_protected_len : nat;
  last_node : option nat;
  prefix_indices : list Z;
  kv_committed_len : nat;
  kv_committed_freed : bool;
  reasoning_tokens : nat }.

Section radix.
Context {T : Type} `{!KVAllocator T} {H : Type} `{!HeapQ H}.
Context (cfg : Config) (now : nat -> Z) (sha256 : list Z -> string).
Local Abbreviation M := (PyM (Cache T)).
Local Abbreviation ps := (cfg_page_size cfg).

(** ** Access to the node store and the counters *)

Definition set_nodes (ns : gmap nat TreeNode) (s : Cache T) : Cache T :=
  mkCache ns (root_node s) (counter s) (ticks s) (evictable_size_ s) (protected_size_ s)
    (evictable_leaves s) (kv_event_queue s) (kv_pool s) (req_to_token s).
Definition set_sizes (e p : Z) (s : Cache T) : Cache T :=
  mkCache (nodes s) (root_node s) (counter s) (ticks s) e p
    (evictable_leaves s) (kv_event_queue s) (kv_pool s) (req_to_token s).
Definition set_leaves (l : gset nat) (s : Cache T) : Cache T :=
  mkCache (nodes s) (root_node s) (counter s) (ticks s) (evictable_size_ s) (protected_size_ s)
    l (kv_event_queue s) (kv_pool s) (req_to_token s).
Definition set_queue (q : list KVEvent) (s : Cache T) : Cache T :=
  mkCache (nodes s) (root_node s) (counter s) (ticks s) (evictable_size_ s) (protected_size_ s)
    (evictable_leaves s) q (kv_pool s) (req_to_token s).
Definition set_pool (a : T) (s : Cache T) : Cache T :=
  mkCache (nodes s) (root_node s) (counter s) (ticks s) (evictable_size_ s) (protected_size_ s)
    (evictable_leaves s) (kv_event_queue s) a (req_to_token s).
Definition set_req_to_token (r : list (list Z)) (s : Cache T) : Cache T :=
  mkCache (nodes s) (root_node s) (counter s) (ticks s) (evictable_size_ s) (protected_size_ s)
    (evictable_leaves s) (kv_event_queue s) (kv_pool s) r.

Definition get_node (i : nat) : M TreeNode := fun s =>
  match nodes s !! i with Some n => (Ret n, s) | None => (Raise AttributeError, s) end.
Definition put_node (i : nat) (n : TreeNode) : M unit :=
  py_modify (fun s => set_nodes (<[i := n]> (nodes s)) s).
Definition upd_node (i : nat) (f : TreeNode -> TreeNode) : M unit :=
  n ← get_node i; put_node i (f n).

Definition monotonic : M Z := fun s =>
  (Ret (now (ticks s)),
   mkCache (nodes s) (root_node s) (counter s) (S (ticks s)) (evictable_size_ s)
     (protected_size_ s) (evictable_leaves s) (kv_event_queue s) (kv_pool s) (req_to_token s)).

(** [TreeNode.counter += 1] and the identifier before it *)
Definition fresh_id : M nat := fun s =>
  (Ret (counter s),
   mkCache (nodes s) (root_node s) (S (counter s)) (ticks s) (evictable_size_ s)
     (protected_size_ s) (evictable_leaves s) (kv_event_queue s) (kv_pool s) (req_to_token s)).

Definition of_option {A} (e : PyExc) (o : option A) : M A :=
  match o with Some a => mret a | None => py_raise e end.

Definition kv_release (idx : list Z) : M unit :=
  py_modify (fun s => set_pool (kv_free idx (kv_pool s)) s).

(** ** Events *)

(** [StorageMedium.GPU], the default medium, and [StorageMedium.CPU] *)
Definition GPU : string := "GPU".
Definition CPU : string := "CPU_PINNED".

Definition _record_store_event (id : nat) (medium : option string) : M unit :=
  if enable_kv_cache_events cfg then
    n ← get_node id;
    s ← py_get;
    let par := parent n ≫= fun p => nodes s !! p in
    r ← py_lift (store_event_of sha256 ps par (bool_decide (parent n = Some (root_node s)))
                   (default GPU medium) n);
    _ ← put_node id (set_hash_value (Some r.1) n);
    py_modify (fun s => set_queue (kv_event_queue s ++ r.2) s)
  else mret tt.

(** [n] is the node object; it may already be unlinked from the tree. *)
Definition _record_remove_event (n : TreeNode) (medium : option string) : M unit :=
  if enable_kv_cache_events cfg then
    s ← py_get;
    ev ← py_lift (remove_event_of sha256 ps (parent n ≫= fun p => nodes s !! p) (default GPU medium) n);
    py_modify (fun s => set_queue (kv_event_queue s ++ ev) s)
  else mret tt.

Definition _record_all_cleared_event : M unit :=
  if enable_kv_cache_events cfg then
    py_modify (fun s => set_queue (kv_event_queue s ++ [AllBlocksCleared]) s)
  else mret tt.

Definition take_events : M (list KVEvent) :=
  if enable_kv_cache_events cfg then
    s ← py_get; _ ← py_modify (set_queue []); mret (kv_event_queue s)
  else mret [].

(** ** Leaf status *)

(** [any(not child.evicted for child in node.children.values())] *)
Definition has_live_child (ns : gmap nat TreeNode) (n : TreeNode) : bool :=
  existsb (fun c => match ns !! c with Some cn => negb (evicted cn) | None => false end)
    (map_to_list (children n)).*2.

Definition _update_leaf_status (id : nat) : M unit :=
  n ← get_node id;
  s ← py_get;
  if evicted n || (0 <? lock_ref n) || has_live_child (nodes s) n then
    py_modify (fun s => set_leaves (evictable_leaves s ∖ {[id]}) s)
  else py_modify (fun s => set_leaves (evictable_leaves s ∪ {[id]}) s).

(** ** Reset *)

Definition maxsize : Z := 2 ^ 63 - 1.

Definition reset : M unit :=
  ta ← monotonic;
  tc ← monotonic;
  id ← fresh_id;
  _ ← py_modify (fun s =>
        mkCache {[id := mkTreeNode ∅ None (mkRadixKey [] None false) (Some []) 1 ta tc 0 0 (Some [])
                          (Some []) (- maxsize)]}
          id (counter s) (ticks s) 0 0 ∅ (kv_event_queue s) (kv_pool s) (req_to_token s));
  _record_all_cleared_event.

(** ** Matching *)

(** [torch.cat]: the pieces must be tensors. *)
Fixpoint cat_values (vs : list (option (list Z))) : Outcome (list Z) :=
  match vs with
  | [] => Ret []
  | Some v :: vs' => r ← cat_values vs'; Ret (v ++ r)
  | None :: _ => Raise TypeError
  end.

Definition _split_node (child : nat) (split_len : nat) : M nat :=
  c ← get_node child;
  ta ← monotonic;
  tc ← monotonic;
  id ← fresh_id;
  rest_ck ← py_lift (child_key ps (key_drop split_len (key c)));
  v ← of_option TypeError (value c);
  par ← of_option AttributeError (parent c);
  ck ← py_lift (child_key ps (key c));
  let hs := split_node_hash_value (hash_value c) split_len ps in
  _ ← put_node id (new_TreeNode ta tc (priority c) {[rest_ck := child]} (Some par)
                     (key_take split_len (key c)) (Some (take split_len v)) (lock_ref c)
                     (hit_count c) hs.1);
  _ ← put_node child (set_split id (key_drop split_len (key c)) (Some (drop split_len v)) hs.2 c);
  _ ← upd_node par (fun p => set_children (<[ck := id]> (children p)) p);
  mret id.

(** [if len(key): child_key = key.child_key(page_size)] *)
Definition next_child_key (k : RadixKey) (ck : ChildKey) : M ChildKey :=
  if (0 <? key_len k)%nat then py_lift (child_key ps k) else mret ck.

Fixpoint match_loop (fuel : nat) (access_time : Z) (node : nat) (k : RadixKey) (ck : ChildKey)
    (acc : list (option (list Z))) : M (list (option (list Z)) * nat) :=
  match fuel with
  | O => py_lift OutOfFuel
  | S f =>
      if (0 <? key_len k)%nat then
        n ← get_node node;
        match children n !! ck with
        | None => mret (acc, node)
        | Some child =>
            _ ← upd_node child (set_last_access access_time);
            c ← get_node child;
            prefix_len ← py_lift (key_match ps (key c) k);
            if (prefix_len <? key_len (key c))%nat then
              id ← _split_node child prefix_len;
              nn ← get_node id;
              mret (acc ++ [value nn], id)
            else
              let k' := key_drop prefix_len k in
              ck' ← next_child_key k' ck;
              match_loop f access_time child k' ck' (acc ++ [value c])
        end
      else mret (acc, node)
  end.

Definition _match_prefix_helper (node : nat) (k : RadixKey) : M (list (option (list Z)) * nat) :=
  access_time ← monotonic;
  _ ← upd_node node (set_last_access access_time);
  ck ← py_lift (child_key ps k);
  match_loop (S (key_len k)) access_time node k ck [].

(** The empty result names the root as matched node. *)
Definition empty_match_result : M MatchResult :=
  s ← py_get; mret (mkMatchResult [] (root_node s) (root_node s) (root_node s)).

Definition match_prefix (k : RadixKey) : M MatchResult :=
  let k := (maybe_to_bigram_view (V := Z) (is_eagle cfg) k None).1 in
  if disable cfg || (key_len k =? 0)%nat then empty_match_result
  else
    let k := page_aligned ps k in
    if (key_len k =? 0)%nat then empty_match_result
    else
      s ← py_get;
      r ← _match_prefix_helper (root_node s) k;
      v ← py_lift (cat_values r.1);
      mret (mkMatchResult v r.2 r.2 r.2).

(** ** Insertion *)

Definition _inc_hit_count (id : nat) (chunked : bool) : M unit :=
  if chunked then mret tt else upd_node id (fun n => set_hit_count (hit_count n + 1) n).

Definition raise_priority (id : nat) (p : Z) : M unit :=
  upd_node id (fun n => set_priority (Z.max (priority n) p) n).

(** The loop; it ends with the last node, the rest of the key and value, the child key of
    the rest, and the matched length. *)
Fixpoint insert_loop (fuel : nat) (access_time prio : Z) (chunked : bool) (node : nat)
    (k : RadixKey) (v : list Z) (ck : ChildKey) (total : nat) :
    M (nat * RadixKey * list Z * ChildKey * nat) :=
  match fuel with
  | O => py_lift OutOfFuel
  | S f =>
      if (0 <? key_len k)%nat then
        n ← get_node node;
        match children n !! ck with
        | None => mret (node, k, v, ck, total)
        | Some child =>
            _ ← upd_node child (set_last_access access_time);
            c ← get_node child;
            prefix_len ← py_lift (key_match ps (key c) k);
            let k' := key_drop prefix_len k in
            let v' := drop prefix_len v in
            node' ← (if (prefix_len <? key_len (key c))%nat then
                       id ← _split_node child prefix_len;
                       _ ← raise_priority id prio;
                       _ ← _inc_hit_count id chunked;
                       mret id
                     else
                       _ ← raise_priority child prio;
                       _ ← _inc_hit_count child chunked;
                       mret child);
            ck' ← next_child_key k' ck;
            insert_loop f access_time prio chunked node' k' v' ck' (total + prefix_len)
        end
      else mret (node, k, v, ck, total)
  end.

(** The new leaf for what is left of the key. *)
Definition add_leaf (node : nat) (k : RadixKey) (v : list Z) (ck : ChildKey) (prio : Z)
    (chunked : bool) : M unit :=
  ta ← monotonic;
  tc ← monotonic;
  id ← fresh_id;
  _ ← put_node id (new_TreeNode ta tc prio ∅ (Some node) k (Some v) 0 0 None);
  _ ← _inc_hit_count id chunked;
  _ ← upd_node node (fun n => set_children (<[ck := id]> (children n)) n);
  _ ← py_modify (fun s => set_sizes (evictable_size_ s + Z.of_nat (key_len k)) (protected_size_ s) s);
  _ ← _update_leaf_status node;
  _ ← _update_leaf_status id;
  _record_store_event id None.

Definition _insert_helper (node : nat) (k : RadixKey) (v : list Z) (prio : option Z)
    (chunked : bool) : M nat :=
  let p := default 0 prio in
  access_time ← monotonic;
  _ ← upd_node node (set_last_access access_time);
  _ ← raise_priority node p;
  if (key_len k =? 0)%nat then mret 0%nat
  else
    ck ← py_lift (child_key ps k);
    r ← insert_loop (S (key_len k)) access_time p chunked node k v ck 0;
    let '(node', k', v', ck', total) := r in
    _ ← (if (0 <? key_len k')%nat then add_leaf node' k' v' ck' p chunked else mret tt);
    mret total.

Definition insert (params : InsertParams) : M nat :=
  if disable cfg then mret 0%nat
  else
    let '(k, v) := maybe_to_bigram_view (is_eagle cfg) (ip_key params) (ip_value params) in
    let k := page_aligned ps k in
    let v := match v with
             | Some v => take (key_len k) v
             | None => take (key_len k) (token_ids k)
             end in
    s ← py_get;
    _insert_helper (root_node s) k v (ip_priority params) (ip_chunked params).

(** ** Locks *)

Fixpoint inc_lock_loop (fuel : nat) (node : option nat) (delta : Z) : M Z :=
  match fuel with
  | O => py_lift OutOfFuel
  | S f =>
      s ← py_get;
      if bool_decide (node = Some (root_node s)) then mret delta
      else
        i ← of_option AttributeError node;
        n ← get_node i;
        let len := Z.of_nat (key_len (key n)) in
        _ ← (if lock_ref n =? 0 then
               py_modify (fun s => set_sizes (evictable_size_ s - len) (protected_size_ s + len) s)
             else mret tt);
        _ ← upd_node i (fun n => set_lock_ref (lock_ref n + 1) n);
        _ ← _update_leaf_status i;
        inc_lock_loop f (parent n) (if lock_ref n =? 0 then delta - len else delta)
  end.

Definition inc_lock_ref (node : option nat) : M Z :=
  if disable cfg then mret 0
  else s ← py_get; inc_lock_loop (S (counter s)) node 0.

Fixpoint dec_lock_loop (fuel : nat) (node : option nat) (delta : Z) : M Z :=
  match fuel with
  | O => py_lift OutOfFuel
  | S f =>
      s ← py_get;
      if bool_decide (node = Some (root_node s)) then mret delta
      else
        i ← of_option AttributeError node;
        n ← get_node i;
        let len := Z.of_nat (key_len (key n)) in
        _ ← (if lock_ref n =? 1 then
               py_modify (fun s => set_sizes (evictable_size_ s + len) (protected_size_ s - len) s)
             else mret tt);
        _ ← upd_node i (fun n => set_lock_ref (lock_ref n - 1) n);
        _ ← _update_leaf_status i;
        _ ← py_assert (bool_decide (parent n <> None));
        dec_lock_loop f (parent n) (if lock_ref n =? 1 then delta + len else delta)
  end.

Definition dec_lock_ref (node : option nat) : M Z :=
  if disable cfg then mret 0
  else s ← py_get; dec_lock_loop (S (counter s)) node 0.

Definition evictable_size : M Z := s ← py_get; mret (evictable_size_ s).
Definition protected_size : M Z := s ← py_get; mret (protected_size_ s).

(** ** Eviction *)

(** The unlinked node also leaves the store. *)
Definition _delete_leaf (id : nat) : M unit :=
  n ← get_node id;
  ck ← py_lift (child_key ps (key n));
  par ← of_option AttributeError (parent n);
  p ← get_node par;
  _ ← put_node par (set_children (delete ck (children p)) p);
  _ ← py_assert (bool_decide (children p !! ck = Some id));
  _ ← py_modify (fun s => set_nodes (delete id (nodes s)) s);
  _ ← py_modify (fun s => set_sizes (evictable_size_ s - Z.of_nat (key_len (key n))) (protected_size_ s) s);
  _ ← py_modify (fun s => set_leaves (evictable_leaves s ∖ {[id]}) s);
  _update_leaf_status par.

Definition entry_of_node (id : nat) (n : TreeNode) : HeapEntry :=
  mkEntry (get_priority (eviction_strategy cfg) n) (last_access_time n) id.

Fixpoint evict_loop (fuel : nat) (num_tokens : Z) (heap : H) (num_evicted : Z) : M Z :=
  match fuel with
  | O => py_lift OutOfFuel
  | S f =>
      if num_evicted <? num_tokens then
        match heappop heap with
        | None => mret num_evicted
        | Some (e, heap') =>
            let id := he_node e in
            x ← get_node id;
            v ← of_option TypeError (value x);
            _ ← kv_release v;
            _ ← _delete_leaf id;
            par ← of_option AttributeError (parent x);
            p ← get_node par;
            let heap'' :=
              if bool_decide (children p = ∅) && (lock_ref p =? 0)
              then heappush (entry_of_node par p) heap' else heap' in
            _ ← _record_remove_event x None;
            evict_loop f num_tokens heap'' (num_evicted + Z.of_nat (length v))
        end
      else mret num_evicted
  end.

Definition leaf_entries (s : Cache T) : list HeapEntry :=
  omap (fun id => entry_of_node id <$> nodes s !! id) (elements (evictable_leaves s)).

Definition evict (num_tokens : Z) : M Z :=
  if disable cfg then mret 0
  else
    s ← py_get;
    evict_loop (S (size (nodes s))) num_tokens (heapify (leaf_entries s)) 0.

(** ** Whole-tree traversals *)

Fixpoint total_size_loop (fuel : nat) (stack : list nat) (total : Z) : M Z :=
  match fuel, stack with
  | _, [] => mret total
  | O, _ => py_lift OutOfFuel
  | S f, id :: stack' =>
      n ← get_node id;
      v ← of_option TypeError (value n);
      s ← py_get;
      let live := List.filter (fun c => match nodes s !! c with
                                        | Some cn => negb (evicted cn)
                                        | None => false
                                        end) (map_to_list (children n)).*2 in
      total_size_loop f (reverse live ++ stack') (total + Z.of_nat (length v))
  end.

Definition total_size : M Z :=
  s ← py_get; total_size_loop (S (size (nodes s))) [root_node s] 0.

Fixpoint dfs_values (fuel : nat) (ns : gmap nat TreeNode) (id : nat) : list (option (list Z)) :=
  match fuel with
  | O => []
  | S f =>
      match ns !! id with
      | Some n =>
          concat ((fun c => (ns !! c ≫= value) :: dfs_values f ns c) <$> (map_to_list (children n)).*2)
      | None => []
      end
  end.

Definition all_values_flatten : M (list Z) :=
  s ← py_get; py_lift (cat_values (dfs_values (S (counter s)) (nodes s) (root_node s))).

(** ** Requests *)

(** [req_to_token[row, :n]] *)
Definition row_prefix (row n : nat) : M (list Z) :=
  s ← py_get; r ← of_option IndexError (req_to_token s !! row); mret (take n r).

(** [req_to_token_pool.write((row, slice(a, b)), vs)] with [len(vs) = b - a] *)
Definition write_row (row a : nat) (vs : list Z) : M unit :=
  s ← py_get;
  r ← of_option IndexError (req_to_token s !! row);
  py_modify (set_req_to_token (<[row := list_inserts a vs r]> (req_to_token s))).

Definition _cache_commit_len (req : Req) : nat :=
  if strip_thinking_cache cfg && (0 <? reasoning_tokens req)%nat
  then Nat.min (kv_committed_len req) (length (origin_input_ids req))
  else kv_committed_len req.

Definition mark_committed_freed (req : Req) : Req :=
  mkReq (req_pool_idx req) (origin_input_ids req) (output_ids req) (fill_ids req)
    (req_extra_key req) (req_priority req) (cache_protected_len req) (last_node req)
    (prefix_indices req) (kv_committed_len req) true (reasoning_tokens req).

Definition pop_committed_kv_cache (req : Req) : M (nat * Req) :=
  _ ← py_assert (negb (kv_committed_freed req));
  mret (_cache_commit_len req, mark_committed_freed req).

Definition cache_finished_req (req : Req) (is_insert : bool) : M Req :=
  let is_insert := is_insert && negb (disable_finished_insert cfg) in
  '(committed, req) ← pop_committed_kv_cache req;
  if disable cfg then
    kv_indices ← row_prefix (req_pool_idx req) committed;
    _ ← kv_release kv_indices;
    mret req
  else
    let ids := take committed (origin_input_ids req ++ output_ids req) in
    kv_indices ← row_prefix (req_pool_idx req) (length ids);
    let radix_key := page_aligned ps (mkRadixKey ids (req_extra_key req) (is_eagle cfg)) in
    let klen := key_len radix_key in
    let values := take klen kv_indices in
    _ ← (if is_insert then
           prefix_len ← insert (mkInsertParams radix_key (Some values)
                                  (Some (default 0 (req_priority req))) false);
           kv_release (slice kv_indices (cache_protected_len req) prefix_len)
         else kv_release (slice kv_indices (cache_protected_len req) klen));
    _ ← kv_release (drop klen kv_indices);
    _ ← (match last_node req with
         | Some n => _ ← dec_lock_ref (Some n); mret tt
         | None => mret tt
         end);
    mret req.

Definition cache_unfinished_req (req : Req) (chunked : bool) : M Req :=
  if disable cfg then mret req
  else
    let ids := fill_ids req in
    kv_indices ← row_prefix (req_pool_idx req) (length ids);
    let radix_key := page_aligned ps (mkRadixKey ids (req_extra_key req) (is_eagle cfg)) in
    let values := take (key_len radix_key) kv_indices in
    new_prefix_len ← insert (mkInsertParams radix_key (Some values)
                               (Some (default 0 (req_priority req))) chunked);
    _ ← kv_release (slice kv_indices (cache_protected_len req) new_prefix_len);
    match_result ← match_prefix radix_key;
    let new_indices := device_indices match_result in
    let new_last_node := last_device_node match_result in
    _ ← py_assert (length new_indices =? key_len radix_key)%nat;
    _ ← write_row (req_pool_idx req) (cache_protected_len req)
          (drop (cache_protected_len req) new_indices);
    _ ← dec_lock_ref (last_node req);
    _ ← inc_lock_ref (Some new_last_node);
    let prefix :=
      if (length new_indices <? length kv_indices)%nat
      then new_indices ++ drop (length new_indices) kv_indices else new_indices in
    mret (mkReq (req_pool_idx req) (origin_input_ids req) (output_ids req) (fill_ids req)
            (req_extra_key req) (req_priority req) (length new_indices) (Some new_last_node)
            prefix (kv_committed_len req) (kv_committed_freed req) (reasoning_tokens req)).
End radix.
