(* ===== verification/RadixInv.v ===== *)
(** * The radix tree invariant

    The invariant is stated on an abstraction of the cache state ([Abs]): the shapes of the
    nodes, the two size counters and the set of evictable leaves.  It has four parts: the
    tree structure, the lock counts (a node is locked as often as handles exist at it or
    below it), the size counters, and the evictable leaves.  Splitting a node, adding or
    deleting a leaf and locking one node are functions on the abstraction; this file shows
    that each keeps the invariant. *)

From stdpp Require Import base tactics list gmap strings.
From Stdlib Require Import ZArith Lia.
From S2P Require Import Prelude RadixKey TreeNode.

(** ** Sums over finite maps *)

Section msum.
Context {A : Type}.
Implicit Types (m : gmap nat A) (f g : nat -> A -> Z).

Definition lsum f (l : list (nat * A)) : Z := foldr (fun kv acc => f kv.1 kv.2 + acc) 0 l.
Definition msum f m : Z := lsum f (map_to_list m).

Lemma lsum_perm f l l' : l ≡ₚ l' -> lsum f l = lsum f l'.
Proof. unfold lsum. induction 1; simpl; lia. Qed.

Lemma msum_insert f m i x : m !! i = None -> msum f (<[i := x]> m) = f i x + msum f m.
Proof. intros Hi. unfold msum. by rewrite (lsum_perm _ _ _ (map_to_list_insert m i x Hi)). Qed.

Lemma msum_delete f m i x : m !! i = Some x -> msum f (delete i m) = msum f m - f i x.
Proof.
  intros Hi. rewrite <-(insert_delete_id m i x Hi) at 2.
  rewrite msum_insert by apply lookup_delete_eq. lia.
Qed.

Lemma msum_update f m i x y :
  m !! i = Some x -> msum f (<[i := y]> m) = msum f m - f i x + f i y.
Proof.
  intros Hi. rewrite <-insert_delete_eq, msum_insert by apply lookup_delete_eq.
  rewrite (msum_delete _ _ _ _ Hi). lia.
Qed.

Lemma msum_empty f : msum f ∅ = 0.
Proof. unfold msum. by rewrite map_to_list_empty. Qed.

Lemma msum_ext f g m : (forall i x, m !! i = Some x -> f i x = g i x) -> msum f m = msum g m.
Proof.
  induction m as [|i x m Hi IH] using map_ind; intros H; [by rewrite !msum_empty|].
  rewrite !msum_insert by done. rewrite (H i x) by apply lookup_insert_eq. rewrite IH; [done|].
  intros j y Hj. apply H. rewrite lookup_insert_ne; [done|]. congruence.
Qed.

Lemma msum_nonneg f m : (forall i x, m !! i = Some x -> 0 <= f i x) -> 0 <= msum f m.
Proof.
  induction m as [|i x m Hi IH] using map_ind; intros H; [by rewrite msum_empty|].
  rewrite msum_insert by done. pose proof (H i x (lookup_insert_eq _ _ _)).
  enough (0 <= msum f m) by lia. apply IH.
  intros j y Hj. apply H. rewrite lookup_insert_ne; [done|]. congruence.
Qed.

Lemma msum_ge f m i x :
  (forall i x, m !! i = Some x -> 0 <= f i x) -> m !! i = Some x -> f i x <= msum f m.
Proof.
  intros Hn Hi. pose proof (msum_delete f m i x Hi).
  enough (0 <= msum f (delete i m)) by lia. apply msum_nonneg.
  intros j y [_ Hj]%lookup_delete_Some. eauto.
Qed.

Lemma msum_zero f m : (forall i x, m !! i = Some x -> f i x = 0) -> msum f m = 0.
Proof. intros H. rewrite (msum_ext f (fun _ _ => 0) m) by done. unfold msum. induction (map_to_list m); simpl; auto. Qed.
End msum.

(** ** The abstract state *)

Record Abs := mkAbs {
  a_ns : gmap nat Shape;
  a_root : nat;
  a_ctr : nat;
  a_ev : Z;
  a_pr : Z;
  a_lv : gset nat }.

Section inv.
Context (ps : nat) (eagle : bool).

Definition sh_len (n : Shape) : Z := Z.of_nat (key_len (sh_key n)).

(** A node other than the root. *)
Record node_ok (A : Abs) (i : nat) (n : Shape) : Prop := mkNodeOk {
  nk_parent : exists p pn ck, sh_parent n = Some p /\ a_ns A !! p = Some pn /\
                child_key ps (sh_key n) = Ret ck /\ sh_children pn !! ck = Some i;
  nk_value : exists v, sh_value n = Some v /\ length v = key_len (sh_key n);
  nk_pos : (0 < key_len (sh_key n))%nat;
  nk_aligned : aligned ps (key_len (sh_key n));
  nk_bigram : is_bigram (sh_key n) = eagle;
  nk_lock : 0 <= sh_lock n }.

(** Children link back to their parent, under their own child key. *)
Definition child_ok (A : Abs) (i : nat) (n : Shape) : Prop :=
  forall ck c, sh_children n !! ck = Some c ->
  exists cn, a_ns A !! c = Some cn /\ sh_parent cn = Some i /\ child_key ps (sh_key cn) = Ret ck.

(** A depth for every node, bounded by the number of nodes ever created. *)
Definition ranked (A : Abs) (d : nat -> nat) : Prop :=
  forall i n, a_ns A !! i = Some n ->
  (d i < a_ctr A)%nat /\ forall p, sh_parent n = Some p -> (d p < d i)%nat.

Record inv_tree (A : Abs) : Prop := mkInvTree {
  it_root : exists r, a_ns A !! a_root A = Some r /\ sh_parent r = None /\
              sh_value r = Some [] /\ sh_lock r = 1;
  it_fresh : forall i n, a_ns A !! i = Some n -> (i < a_ctr A)%nat;
  it_node : forall i n, a_ns A !! i = Some n -> i <> a_root A -> node_ok A i n;
  it_child : forall i n, a_ns A !! i = Some n -> child_ok A i n;
  it_rank : exists d, ranked A d }.

(** The locks of the children of [i]. *)
Definition locks_below (A : Abs) (i : nat) : Z :=
  msum (fun _ m => if decide (sh_parent m = Some i) then sh_lock m else 0) (a_ns A).

Definition handles_at (hs : list nat) (i : nat) : Z :=
  Z.of_nat (length (List.filter (fun h => bool_decide (h = i)) hs)).

(** A node is locked once per handle at it and per lock of a child; [debt] is what an
    unfinished walk to the root still has to add. *)
Definition inv_lock (hs : list nat) (debt : nat -> Z) (A : Abs) : Prop :=
  (forall h, h ∈ hs -> is_Some (a_ns A !! h)) /\
  forall i n, a_ns A !! i = Some n -> i <> a_root A ->
  sh_lock n + debt i = handles_at hs i + locks_below A i.

Definition unlocked_len (root i : nat) (n : Shape) : Z :=
  if decide (i = root) then 0 else if sh_lock n =? 0 then sh_len n else 0.
Definition locked_len (root i : nat) (n : Shape) : Z :=
  if decide (i = root) then 0 else if sh_lock n =? 0 then 0 else sh_len n.

Definition inv_size (A : Abs) : Prop :=
  a_ev A = msum (unlocked_len (a_root A)) (a_ns A) /\
  a_pr A = msum (locked_len (a_root A)) (a_ns A).

(** The unlocked nodes without children. *)
Definition is_evictable_leaf (A : Abs) (i : nat) : Prop :=
  exists n, a_ns A !! i = Some n /\ i <> a_root A /\ sh_lock n = 0 /\ sh_children n = ∅.
Definition inv_leaves (A : Abs) : Prop := forall i, i ∈ a_lv A <-> is_evictable_leaf A i.

Record inv (hs : list nat) (A : Abs) : Prop := mkInv {
  inv_t : inv_tree A;
  inv_l : inv_lock hs (fun _ => 0) A;
  inv_s : inv_size A;
  inv_e : inv_leaves A }.

(** ** Consequences *)

Lemma node_parent_ne A i n p :
  inv_tree A -> a_ns A !! i = Some n -> sh_parent n = Some p -> p <> i.
Proof. intros [_ _ _ _ [d Hd]] Hi Hp ->. destruct (Hd i n Hi) as [_ H]. specialize (H _ Hp). lia. Qed.

Lemma root_of_no_parent A i n :
  inv_tree A -> a_ns A !! i = Some n -> sh_parent n = None -> i = a_root A.
Proof.
  intros HA Hi Hp. destruct (decide (i = a_root A)) as [|Hne]; [done|].
  destruct (nk_parent _ _ _ (it_node _ HA _ _ Hi Hne)) as (p & _ & _ & Hp' & _). congruence.
Qed.

Lemma child_ne_root A i n ck c :
  inv_tree A -> a_ns A !! i = Some n -> sh_children n !! ck = Some c -> c <> a_root A.
Proof.
  intros HA Hi Hc ->. destruct (it_child _ HA _ _ Hi _ _ Hc) as (cn & Hcn & Hp & _).
  destruct (it_root _ HA) as (r & Hr & Hrp & _). congruence.
Qed.

Lemma child_node A i n ck c :
  inv_tree A -> a_ns A !! i = Some n -> sh_children n !! ck = Some c ->
  exists cn, a_ns A !! c = Some cn /\ node_ok A c cn /\ sh_parent cn = Some i /\
    child_key ps (sh_key cn) = Ret ck.
Proof.
  intros HA Hi Hc. destruct (it_child _ HA _ _ Hi _ _ Hc) as (cn & Hcn & Hp & Hk).
  exists cn. split_and!; try done. apply (it_node _ HA); [done|].
  exact (child_ne_root A i n ck c HA Hi Hc).
Qed.

Lemma page_le A i n : (0 < ps)%nat -> node_ok A i n -> (ps <= key_len (sh_key n))%nat.
Proof. intros Hps Hn. apply aligned_pos_le; [done|apply Hn|apply Hn]. Qed.

Lemma node_lock_nonneg A i n : inv_tree A -> a_ns A !! i = Some n -> 0 <= sh_lock n.
Proof.
  intros HA Hi. destruct (decide (i = a_root A)) as [->|Hne].
  - destruct (it_root _ HA) as (r & Hr & _ & _ & Hl). simplify_eq. lia.
  - by apply (it_node _ HA _ _ Hi Hne).
Qed.

Lemma locks_below_nonneg A i : inv_tree A -> 0 <= locks_below A i.
Proof.
  intros HA. apply msum_nonneg. intros j m Hj. case_decide; [|done].
  by eapply node_lock_nonneg.
Qed.

Lemma parent_exists A i n q :
  inv_tree A -> a_ns A !! i = Some n -> sh_parent n = Some q -> is_Some (a_ns A !! q).
Proof.
  intros HA Hi Hq. destruct (decide (i = a_root A)) as [->|Hne].
  - destruct (it_root _ HA) as (r & Hr & Hrp & _). congruence.
  - destruct (nk_parent _ _ _ (it_node _ HA _ _ Hi Hne)) as (p & pn & _ & Hp & Hpn & _).
    assert (p = q) as -> by congruence. by exists pn.
Qed.

Lemma locks_below_absent A i : inv_tree A -> a_ns A !! i = None -> locks_below A i = 0.
Proof.
  intros HA Hi. apply msum_zero. intros j m Hj. case_decide as Hp; [|done].
  destruct (parent_exists A j m i HA Hj Hp). congruence.
Qed.
End inv.

Lemma handles_at_absent hs i : i ∉ hs -> handles_at hs i = 0.
Proof.
  unfold handles_at. induction hs as [|h hs IH]; [done|]. rewrite not_elem_of_cons.
  intros [Hne Hi]. simpl. rewrite bool_decide_eq_false_2 by done. auto.
Qed.

Arguments nk_parent {ps eagle A i n}.
Arguments nk_value {ps eagle A i n}.
Arguments nk_pos {ps eagle A i n}.
Arguments nk_aligned {ps eagle A i n}.
Arguments nk_bigram {ps eagle A i n}.
Arguments nk_lock {ps eagle A i n}.
Arguments it_root {ps eagle A}.
Arguments it_fresh {ps eagle A}.
Arguments it_node {ps eagle A}.
Arguments it_child {ps eagle A}.
Arguments it_rank {ps eagle A}.

(** ** Splitting a node *)

Definition with_children (ch : gmap ChildKey nat) (n : Shape) : Shape :=
  mkShape ch (sh_parent n) (sh_key n) (sh_value n) (sh_lock n).
Definition with_lock (l : Z) (n : Shape) : Shape :=
  mkShape (sh_children n) (sh_parent n) (sh_key n) (sh_value n) l.

(** The two halves of a node split after [k] units. *)
Definition upper_half (rest_ck : ChildKey) (c p k : nat) (v : list Z) (cn : Shape) : Shape :=
  mkShape {[rest_ck := c]} (Some p) (key_take k (sh_key cn)) (Some (take k v)) (sh_lock cn).
Definition lower_half (id k : nat) (v : list Z) (cn : Shape) : Shape :=
  mkShape (sh_children cn) (Some id) (key_drop k (sh_key cn)) (Some (drop k v)) (sh_lock cn).

Definition split_abs (A : Abs) (p : nat) (pn : Shape) (c : nat) (cn : Shape) (ck rest_ck : ChildKey)
    (k : nat) (v : list Z) : Abs :=
  let id := a_ctr A in
  mkAbs (<[p := with_children (<[ck := id]> (sh_children pn)) pn]>
          (<[c := lower_half id k v cn]>
            (<[id := upper_half rest_ck c p k v cn]> (a_ns A))))
    (a_root A) (S (a_ctr A)) (a_ev A) (a_pr A) (a_lv A).

(** What a split needs to know. *)
Record split_pre (ps : nat) (eagle : bool) (A : Abs) (p : nat) (pn : Shape) (c : nat)
    (cn : Shape) (ck rest_ck : ChildKey) (k : nat) (v : list Z) : Prop := mkSplitPre {
  sp_tree : inv_tree ps eagle A;
  sp_c : a_ns A !! c = Some cn;
  sp_root : c <> a_root A;
  sp_parent : sh_parent cn = Some p;
  sp_p : a_ns A !! p = Some pn;
  sp_ck : child_key ps (sh_key cn) = Ret ck;
  sp_in : sh_children pn !! ck = Some c;
  sp_v : sh_value cn = Some v;
  sp_len : length v = key_len (sh_key cn);
  sp_k : (0 < k < key_len (sh_key cn))%nat;
  sp_al : aligned ps k;
  sp_rest : child_key ps (key_drop k (sh_key cn)) = Ret rest_ck;
  sp_ps : (0 < ps)%nat }.

Section split.
Context (ps : nat) (eagle : bool) (A : Abs).
Context (p : nat) (pn : Shape) (c : nat) (cn : Shape) (ck rest_ck : ChildKey) (k : nat) (v : list Z).
Context (Hsp : split_pre ps eagle A p pn c cn ck rest_ck k v).
Local Abbreviation A' := (split_abs A p pn c cn ck rest_ck k v).
Local Abbreviation id := (a_ctr A).

Lemma split_ids : p <> c /\ p <> id /\ c <> id /\ a_ns A !! id = None.
Proof.
  destruct Hsp as [HA Hc Hr Hp Hpn _ _ _ _ _ _ _ Hps].
  pose proof (it_fresh HA _ _ Hc). pose proof (it_fresh HA _ _ Hpn).
  split_and!; [by eapply node_parent_ne|lia|lia|].
  destruct (a_ns A !! id) eqn:E; [|done]. apply (it_fresh HA) in E. lia.
Qed.

Lemma split_lookup i m :
  a_ns A' !! i = Some m <->
  i = p /\ m = with_children (<[ck := id]> (sh_children pn)) pn \/
  i = c /\ m = lower_half id k v cn \/
  i = id /\ m = upper_half rest_ck c p k v cn \/
  (i <> p /\ i <> c /\ i <> id /\ a_ns A !! i = Some m).
Proof.
  destruct split_ids as (H1 & H2 & H3 & _). simpl.
  destruct (decide (i = p)) as [->|]; [rewrite lookup_insert_eq; naive_solver|].
  rewrite lookup_insert_ne by done.
  destruct (decide (i = c)) as [->|]; [rewrite lookup_insert_eq; naive_solver|].
  rewrite lookup_insert_ne by done.
  destruct (decide (i = id)) as [->|]; [rewrite lookup_insert_eq; naive_solver|].
  rewrite lookup_insert_ne by done. naive_solver.
Qed.

Lemma split_lookup_p : a_ns A' !! p = Some (with_children (<[ck := id]> (sh_children pn)) pn).
Proof. apply split_lookup. auto. Qed.
Lemma split_lookup_c : a_ns A' !! c = Some (lower_half id k v cn).
Proof. apply split_lookup. auto. Qed.
Lemma split_lookup_id : a_ns A' !! id = Some (upper_half rest_ck c p k v cn).
Proof. apply split_lookup. auto. Qed.
Lemma split_lookup_other i :
  i <> p -> i <> c -> i <> id -> a_ns A' !! i = a_ns A !! i.
Proof. intros. simpl. by rewrite !lookup_insert_ne. Qed.

(** The shape under which an old node lives on: only [p] and [c] change. *)
Lemma split_lookup_old i m :
  a_ns A !! i = Some m -> exists m', a_ns A' !! i = Some m' /\
  sh_lock m' = sh_lock m /\ (i <> c -> sh_parent m' = sh_parent m /\ sh_key m' = sh_key m /\
                             sh_value m' = sh_value m).
Proof.
  intros Hi. destruct Hsp as [HA Hc Hr Hp Hpn _ _ _ _ _ _ _ Hps].
  destruct (decide (i = p)) as [->|].
  { rewrite split_lookup_p. assert (m = pn) as -> by congruence. by eexists. }
  destruct (decide (i = c)) as [->|].
  { rewrite split_lookup_c. assert (m = cn) as -> by congruence.
    eexists. split_and!; [done|done|]. by intros []. }
  rewrite split_lookup_other; [by exists m|done|done|]. intros ->.
  destruct split_ids as (_ & _ & _ & ?). congruence.
Qed.

Lemma child_key_upper : child_key ps (key_take k (sh_key cn)) = Ret ck.
Proof.
  destruct Hsp as [HA Hc Hr _ _ Hck _ _ _ Hk Hal _ Hps].
  assert (ps <= k)%nat as Hle by (apply aligned_pos_le; [done..|lia]).
  rewrite <-Hck. apply child_key_iff; autorewrite with keydb; try lia; [done|].
  split; [done|]. rewrite take_take. f_equal. lia.
Qed.

Lemma split_child_keys i m ck' c' :
  a_ns A !! i = Some m -> sh_children m !! ck' = Some c' -> c' = c -> i = p /\ ck' = ck.
Proof.
  destruct Hsp as [HA Hc Hr Hp _ Hck _ _ _ _ _ _ Hps]. intros Hi Hc' ->.
  destruct (it_child HA _ _ Hi _ _ Hc') as (cn' & E & Hp' & Hk').
  assert (cn' = cn) as -> by congruence. split; congruence.
Qed.

(** An old node keeps its place below its parent. *)
Lemma split_child_kept q qn ck' i :
  a_ns A !! q = Some qn -> sh_children qn !! ck' = Some i -> i <> c ->
  exists qn', a_ns A' !! q = Some qn' /\ sh_children qn' !! ck' = Some i.
Proof.
  destruct Hsp as [HA Hc Hr Hp Hpn Hck Hin Hv Hlen Hk Hal Hrest Hps]. intros Hq Hi Hne.
  destruct (decide (q = p)) as [->|].
  { rewrite split_lookup_p. eexists. split; [done|]. simpl. simplify_eq.
    rewrite lookup_insert_ne; [done|]. intros <-. congruence. }
  destruct (decide (q = c)) as [->|].
  { rewrite split_lookup_c. eexists. split; [done|]. simpl. by simplify_eq. }
  rewrite split_lookup_other; [eauto|done|done|]. intros ->.
  destruct split_ids as (_ & _ & _ & ?). congruence.
Qed.

Lemma split_node_ok i m :
  a_ns A' !! i = Some m -> i <> a_root A -> node_ok ps eagle A' i m.
Proof.
  intros Hi Hne. pose proof Hsp as [HA Hc Hr Hp Hpn Hck Hin Hv Hlen Hk Hal Hrest Hps].
  destruct split_ids as (Hpc & Hpi & Hci & Hfr).
  pose proof (it_node HA _ _ Hc Hr) as Hcok.
  destruct (decide (i = c)) as [->|Hic].
  { rewrite split_lookup_c in Hi. simplify_eq. constructor; simpl; autorewrite with keydb.
    - exists id, (upper_half rest_ck c p k v cn), rest_ck.
      split_and!; [done|apply split_lookup_id|done|]. simpl. apply lookup_singleton_eq.
    - exists (drop k v). split; [done|]. rewrite length_drop. lia.
    - lia.
    - apply aligned_sub; [done|apply Hcok|done].
    - apply Hcok.
    - apply Hcok. }
  destruct (decide (i = id)) as [->|Hii].
  { rewrite split_lookup_id in Hi. simplify_eq. constructor; simpl; autorewrite with keydb.
    - eexists p, _, ck. split_and!; [done|apply split_lookup_p|apply child_key_upper|].
      simpl. apply lookup_insert_eq.
    - exists (take k v). split; [done|]. rewrite length_take. lia.
    - lia.
    - rewrite Nat.min_l by lia. done.
    - apply Hcok.
    - apply Hcok. }
  assert (exists m0, a_ns A !! i = Some m0) as [m0 Hm0].
  { apply split_lookup in Hi as [[-> _]|[[-> _]|[[-> _]|(_ & _ & _ & ?)]]];
      [by exists pn|by exists cn|done|by exists m]. }
  destruct (split_lookup_old _ _ Hm0) as (m' & Hm' & Hl & Hrest'). simplify_eq.
  destruct (Hrest' Hic) as (E1 & E2 & E3).
  pose proof (it_node HA _ _ Hm0 Hne) as [Hpar Hval Hpos Hali Hbi Hlk].
  constructor; rewrite ?E1, ?E2, ?E3, ?Hl; try done.
  destruct Hpar as (q & qn & ck' & H1 & H2 & H3 & H4).
  destruct (split_child_kept _ _ _ _ H2 H4 Hic) as (qn' & H5 & H6). eauto 10.
Qed.

Lemma split_child_ok i m : a_ns A' !! i = Some m -> child_ok ps A' i m.
Proof.
  intros Hi ck' c' Hc'. pose proof Hsp as [HA Hc Hr Hp Hpn Hck Hin Hv Hlen Hk Hal Hrest Hps].
  destruct split_ids as (Hpc & Hpi & Hci & Hfr).
  assert (forall j m0, a_ns A !! j = Some m0 -> sh_children m0 !! ck' = Some c' -> c' <> c ->
    exists cn', a_ns A' !! c' = Some cn' /\ sh_parent cn' = Some j /\
      child_key ps (sh_key cn') = Ret ck') as Hold.
  { intros j m0 Hj Hjc Hne. destruct (it_child HA _ _ Hj _ _ Hjc) as (cn' & H1 & H2 & H3).
    destruct (split_lookup_old _ _ H1) as (m' & Hm' & _ & Hrest').
    destruct (Hrest' Hne) as (E1 & E2 & _). exists m'. by rewrite E1, E2. }
  apply split_lookup in Hi as [[-> ->]|[[-> ->]|[[-> ->]|(H1 & H2 & H3 & Hi)]]]; simpl in Hc'.
  - apply lookup_insert_Some in Hc' as [[<- <-]|[Hne Hc']].
    + eexists. split; [apply split_lookup_id|]. split; [done|]. apply child_key_upper.
    + apply (Hold p pn); [done..|]. intros ->.
      destruct (split_child_keys _ _ _ _ Hpn Hc' eq_refl). congruence.
  - apply (Hold c cn); [done..|]. intros ->.
    destruct (split_child_keys _ _ _ _ Hc Hc' eq_refl). congruence.
  - apply lookup_singleton_Some in Hc' as [<- <-]. eexists. split; [apply split_lookup_c|]. done.
  - apply (Hold i m); [done..|]. intros ->.
    destruct (split_child_keys _ _ _ _ Hi Hc' eq_refl). congruence.
Qed.

(** Nodes as deep as [c] or deeper move one level down; the new node takes [c]'s level. *)
Lemma split_ranked d :
  ranked A d ->
  ranked A' (fun i => if decide (i = id) then d c else if (d c <=? d i)%nat then S (d i) else d i).
Proof.
  intros Hd. pose proof Hsp as [HA Hc Hr Hp Hpn Hck Hin Hv Hlen Hk Hal Hrest Hps].
  destruct split_ids as (Hpc & Hpi & Hci & Hfr).
  destruct (Hd c cn Hc) as [Hdc Hdp]. specialize (Hdp p Hp).
  assert (forall i m q, a_ns A !! i = Some m -> sh_parent m = Some q -> q <> id) as Hq.
  { intros i m q Hi Hiq ->. destruct (decide (i = a_root A)) as [->|Hne].
    - destruct (it_root HA) as (r & Hr' & Hrp & _). congruence.
    - destruct (nk_parent (it_node HA _ _ Hi Hne)) as (q' & qn & _ & E1 & E2 & _). congruence. }
  intros i m Hi. simpl a_ctr.
  apply split_lookup in Hi as [[-> ->]|[[-> ->]|[[-> ->]|(H1 & H2 & H3 & Hi)]]]; simpl.
  - rewrite decide_False by done. destruct (Hd p pn Hpn) as [H1 H2].
    rewrite (proj2 (Nat.leb_gt _ _)) by done. split; [lia|]. intros q Eq.
    rewrite decide_False by eauto. specialize (H2 q Eq). rewrite (proj2 (Nat.leb_gt _ _)) by lia. done.
  - rewrite decide_False by done. rewrite Nat.leb_refl. split; [lia|]. intros q [= <-].
    rewrite decide_True by done. lia.
  - rewrite decide_True by done. split; [lia|]. intros q [= <-].
    rewrite decide_False by done. rewrite (proj2 (Nat.leb_gt _ _)) by lia. done.
  - rewrite decide_False by done. destruct (Hd i m Hi) as [H4 H5].
    split; [destruct (Nat.leb_spec (d c) (d i)); lia|]. intros q Eq.
    rewrite decide_False by eauto. specialize (H5 q Eq).
    destruct (Nat.leb_spec (d c) (d q)), (Nat.leb_spec (d c) (d i)); lia.
Qed.

Lemma split_inv_tree : inv_tree ps eagle A'.
Proof.
  pose proof Hsp as [HA Hc Hr Hp Hpn Hck Hin Hv Hlen Hk Hal Hrest Hps]. constructor.
  - destruct (it_root HA) as (r & Hr' & H1 & H2 & H3).
    destruct (split_lookup_old _ _ Hr') as (r' & E & H4 & H5). destruct H5 as (H5 & _ & H6); [done|].
    exists r'. simpl a_root. rewrite H4, H5, H6. done.
  - intros i m Hi. apply split_lookup in Hi as [[-> _]|[[-> _]|[[-> _]|(_ & _ & _ & Hi)]]]; simpl.
    + apply (it_fresh HA) in Hpn. lia.
    + apply (it_fresh HA) in Hc. lia.
    + lia.
    + apply (it_fresh HA) in Hi. lia.
  - exact split_node_ok.
  - exact split_child_ok.
  - destruct (it_rank HA) as [d Hd]. eexists. by apply split_ranked.
Qed.

(** A sum over the nodes after a split. *)
Lemma split_msum (f : nat -> Shape -> Z) :
  msum f (a_ns A') = msum f (a_ns A) - f p pn - f c cn
    + f p (with_children (<[ck := id]> (sh_children pn)) pn)
    + f c (lower_half id k v cn) + f id (upper_half rest_ck c p k v cn).
Proof.
  destruct split_ids as (Hpc & Hpi & Hci & Hfr). pose proof Hsp as [_ Hc _ _ Hpn _ _ _ _ _ _ _ Hps].
  simpl. rewrite (msum_update _ _ p pn) by (by rewrite !lookup_insert_ne).
  rewrite (msum_update _ _ c cn) by (by rewrite lookup_insert_ne).
  rewrite msum_insert by done. lia.
Qed.

Lemma split_locks_below i :
  locks_below A' i = locks_below A i + (if decide (i = id) then sh_lock cn else 0).
Proof.
  pose proof Hsp as [_ Hc Hr Hp Hpn Hck Hin Hv Hlen Hk Hal Hrest Hps].
  unfold locks_below. rewrite split_msum. simpl. rewrite Hp.
  destruct (decide (i = id)) as [->|].
  - rewrite (decide_True (P := Some id = Some id)) by done. lia.
  - rewrite (decide_False (P := Some id = Some i)) by congruence. lia.
Qed.

Lemma split_inv_lock hs : inv_lock hs (fun _ => 0) A -> inv_lock hs (fun _ => 0) A'.
Proof.
  intros [Hh Hl]. pose proof Hsp as [HA Hc Hr Hp Hpn Hck Hin Hv Hlen Hk Hal Hrest Hps].
  destruct split_ids as (Hpc & Hpi & Hci & Hfr). split.
  { intros h Hh'. destruct (Hh h Hh') as [m Hm].
    destruct (split_lookup_old _ _ Hm) as (m' & -> & _). by exists m'. }
  intros i m Hi Hne. rewrite split_locks_below.
  destruct (decide (i = id)) as [->|Hii].
  - rewrite split_lookup_id in Hi. injection Hi as <-. simpl.
    rewrite (locks_below_absent ps eagle) by done. rewrite handles_at_absent; [lia|].
    intros Hin'. destruct (Hh _ Hin'). congruence.
  - assert (exists m0, a_ns A !! i = Some m0) as [m0 Hm0].
    { apply split_lookup in Hi as [[-> _]|[[-> _]|[[-> _]|(_ & _ & _ & ?)]]];
        [by exists pn|by exists cn|done|by exists m]. }
    destruct (split_lookup_old _ _ Hm0) as (m' & Hm' & Hlk & _).
    assert (m' = m) as -> by congruence. rewrite Hlk. specialize (Hl i m0 Hm0 Hne). lia.
Qed.

Lemma split_inv_size : inv_size A -> inv_size A'.
Proof.
  intros [Hev Hpr]. pose proof Hsp as [HA Hc Hr Hp Hpn Hck Hin Hv Hlen Hk Hal Hrest Hps].
  assert (id <> a_root A) as Hir.
  { destruct (it_root HA) as (r & E & _). destruct split_ids as (_ & _ & _ & ?). congruence. }
  split; simpl a_root; rewrite split_msum; simpl a_ev; simpl a_pr; rewrite ?Hev, ?Hpr;
    unfold unlocked_len, locked_len, sh_len; simpl; autorewrite with keydb;
    rewrite !(decide_False (P := c = a_root A)), (decide_False (P := id = a_root A)) by done;
    destruct (sh_lock cn =? 0); lia.
Qed.

Lemma split_leaf i : is_evictable_leaf A' i <-> is_evictable_leaf A i.
Proof.
  pose proof Hsp as [HA Hc Hr Hp Hpn Hck Hin Hv Hlen Hk Hal Hrest Hps].
  destruct split_ids as (Hpc & Hpi & Hci & Hfr). unfold is_evictable_leaf. simpl a_root.
  assert (forall (ch : gmap ChildKey nat) q x, ch !! q = Some x -> ch <> ∅) as Hne.
  { intros ch q x Hq ->. by rewrite lookup_empty in Hq. }
  split; intros (n & Hn & H1 & H2 & H3).
  - apply split_lookup in Hn as [[-> ->]|[[-> ->]|[[-> ->]|(_ & _ & _ & Hn)]]]; simpl in *.
    + exfalso. by eapply Hne, H3; apply lookup_insert_eq.
    + by exists cn.
    + exfalso. by eapply Hne, H3; apply lookup_singleton_eq.
    + by exists n.
  - destruct (decide (i = p)) as [->|].
    { assert (n = pn) as -> by congruence. exfalso. by eapply Hne, H3. }
    destruct (decide (i = c)) as [->|].
    { assert (n = cn) as -> by congruence. eexists. split; [apply split_lookup_c|]. done. }
    exists n. split; [|done]. rewrite split_lookup_other; [done|done|done|]. congruence.
Qed.

Lemma split_inv hs : inv ps eagle hs A -> inv ps eagle hs A'.
Proof.
  intros [_ Hl Hs Hlv]. constructor.
  - apply split_inv_tree.
  - by apply split_inv_lock.
  - by apply split_inv_size.
  - intros i. rewrite split_leaf. apply Hlv.
Qed.
End split.

Arguments split_ids {ps eagle A p pn c cn ck rest_ck k v}.
Arguments split_lookup {ps eagle A p pn c cn ck rest_ck k v}.
Arguments split_lookup_p {ps eagle A p pn c cn ck rest_ck k v}.
Arguments split_lookup_c {ps eagle A p pn c cn ck rest_ck k v}.
Arguments split_lookup_id {ps eagle A p pn c cn ck rest_ck k v}.
Arguments split_lookup_old {ps eagle A p pn c cn ck rest_ck k v}.
Arguments split_child_keys {ps eagle A p pn c cn ck rest_ck k v}.
Arguments split_child_kept {ps eagle A p pn c cn ck rest_ck k v}.
Arguments split_node_ok {ps eagle A p pn c cn ck rest_ck k v}.
Arguments split_child_ok {ps eagle A p pn c cn ck rest_ck k v}.
Arguments split_inv_tree {ps eagle A p pn c cn ck rest_ck k v}.
Arguments split_inv {ps eagle A p pn c cn ck rest_ck k v}.

(** ** Adding a leaf *)

Definition new_leaf (node : nat) (key : RadixKey) (v : list Z) : Shape :=
  mkShape ∅ (Some node) key (Some v) 0.

Definition add_abs (A : Abs) (node : nat) (nn : Shape) (ck : ChildKey) (key : RadixKey) (v : list Z) : Abs :=
  let id := a_ctr A in
  mkAbs (<[node := with_children (<[ck := id]> (sh_children nn)) nn]>
          (<[id := new_leaf node key v]> (a_ns A)))
    (a_root A) (S (a_ctr A)) (a_ev A + Z.of_nat (key_len key)) (a_pr A)
    (a_lv A ∖ {[node]} ∪ {[id]}).

Record add_pre (ps : nat) (eagle : bool) (A : Abs) (node : nat) (nn : Shape) (ck : ChildKey)
    (key : RadixKey) (v : list Z) : Prop := mkAddPre {
  ad_tree : inv_tree ps eagle A;
  ad_n : a_ns A !! node = Some nn;
  ad_free : sh_children nn !! ck = None;
  ad_ck : child_key ps key = Ret ck;
  ad_pos : (0 < key_len key)%nat;
  ad_len : length v = key_len key;
  ad_al : aligned ps (key_len key);
  ad_big : is_bigram key = eagle;
  ad_ps : (0 < ps)%nat }.

Section add.
Context (ps : nat) (eagle : bool) (A : Abs).
Context (node : nat) (nn : Shape) (ck : ChildKey) (key : RadixKey) (v : list Z).
Context (Had : add_pre ps eagle A node nn ck key v).
Local Abbreviation A' := (add_abs A node nn ck key v).
Local Abbreviation id := (a_ctr A).
Local Abbreviation nn' := (with_children (<[ck := a_ctr A]> (sh_children nn)) nn).

Lemma add_ids : node <> id /\ a_ns A !! id = None /\ id <> a_root A.
Proof.
  destruct Had as [HA Hn _ _ _ _ _ _ Hps]. pose proof (it_fresh HA _ _ Hn).
  assert (a_ns A !! id = None) as Hfr.
  { destruct (a_ns A !! id) eqn:E; [|done]. apply (it_fresh HA) in E. lia. }
  split_and!; [lia|done|]. destruct (it_root HA) as (r & E & _). congruence.
Qed.

Lemma add_lookup i m :
  a_ns A' !! i = Some m <->
  i = node /\ m = nn' \/ i = id /\ m = new_leaf node key v \/
  (i <> node /\ i <> id /\ a_ns A !! i = Some m).
Proof.
  destruct add_ids as (H1 & _ & _). simpl.
  destruct (decide (i = node)) as [->|]; [rewrite lookup_insert_eq; naive_solver|].
  rewrite lookup_insert_ne by done.
  destruct (decide (i = id)) as [->|]; [rewrite lookup_insert_eq; naive_solver|].
  rewrite lookup_insert_ne by done. naive_solver.
Qed.

Lemma add_lookup_node : a_ns A' !! node = Some nn'.
Proof. apply add_lookup. auto. Qed.
Lemma add_lookup_id : a_ns A' !! id = Some (new_leaf node key v).
Proof. apply add_lookup. auto. Qed.

(** Old nodes keep everything but a new child of [node]. *)
Lemma add_lookup_old i m :
  a_ns A !! i = Some m -> exists m', a_ns A' !! i = Some m' /\ sh_lock m' = sh_lock m /\
    sh_parent m' = sh_parent m /\ sh_key m' = sh_key m /\ sh_value m' = sh_value m /\
    (forall ck' c, sh_children m !! ck' = Some c -> sh_children m' !! ck' = Some c).
Proof.
  intros Hi. destruct Had as [HA Hn Hfree _ _ _ _ _ Hps]. destruct add_ids as (H1 & H2 & _).
  destruct (decide (i = node)) as [->|].
  - rewrite add_lookup_node. assert (m = nn) as -> by congruence. eexists. split_and!; try done.
    intros ck' c Hc. simpl. rewrite lookup_insert_ne; [done|]. congruence.
  - exists m. split_and!; try done. apply add_lookup. right. right. split_and!; congruence.
Qed.

Lemma add_lookup_inv i m :
  a_ns A' !! i = Some m -> i <> id -> exists m0, a_ns A !! i = Some m0 /\ sh_lock m = sh_lock m0 /\
    sh_parent m = sh_parent m0 /\ sh_key m = sh_key m0 /\ sh_value m = sh_value m0.
Proof.
  intros Hi Hne. destruct Had as [HA Hn Hfree _ _ _ _ _ Hps].
  apply add_lookup in Hi as [[-> ->]|[[-> _]|(_ & _ & Hi)]]; [by exists nn|done|by exists m].
Qed.

Lemma add_inv_tree : inv_tree ps eagle A'.
Proof.
  pose proof Had as [HA Hn Hfree Hck Hpos Hlen Hal Hbig Hps]. destruct add_ids as (H1 & H2 & H3).
  constructor.
  - destruct (it_root HA) as (r & Hr & Hrest). destruct (add_lookup_old _ _ Hr) as (r' & E & E1 & E2 & E3 & E4 & _).
    exists r'. simpl a_root. by rewrite E1, E2, E4.
  - intros i m Hi. apply add_lookup in Hi as [[-> _]|[[-> _]|(_ & _ & Hi)]]; simpl; [|lia|].
    + apply (it_fresh HA) in Hn. lia.
    + apply (it_fresh HA) in Hi. lia.
  - intros i m Hi Hne. simpl in Hne. destruct (decide (i = id)) as [->|Hii].
    + rewrite add_lookup_id in Hi. injection Hi as <-. constructor; simpl; try done; [|by exists v].
      eexists node, _, ck. split_and!; [done|apply add_lookup_node|done|]. apply lookup_insert_eq.
    + destruct (add_lookup_inv _ _ Hi Hii) as (m0 & Hm0 & E1 & E2 & E3 & E4).
      destruct (it_node HA _ _ Hm0 Hne) as [(q & qn & ck' & G1 & G2 & G3 & G4) G5 G6 G7 G8 G9].
      constructor; rewrite ?E1, ?E2, ?E3, ?E4; try done.
      destruct (add_lookup_old _ _ G2) as (qn' & F1 & _ & _ & _ & _ & F2).
      exists q, qn', ck'. split_and!; try done. auto.
  - intros i m Hi ck' c Hc.
    assert (forall j m0, a_ns A !! j = Some m0 -> sh_children m0 !! ck' = Some c ->
      exists cn, a_ns A' !! c = Some cn /\ sh_parent cn = Some j /\ child_key ps (sh_key cn) = Ret ck') as Hold.
    { intros j m0 Hj Hjc. destruct (it_child HA _ _ Hj _ _ Hjc) as (cn & G1 & G2 & G3).
      destruct (add_lookup_old _ _ G1) as (cn' & F1 & _ & F2 & F3 & _). exists cn'. by rewrite F2, F3. }
    apply add_lookup in Hi as [[-> ->]|[[-> ->]|(_ & _ & Hi)]]; simpl in Hc.
    + apply lookup_insert_Some in Hc as [[<- <-]|[_ Hc]]; [|by eapply Hold].
      eexists. split; [apply add_lookup_id|]. done.
    + done.
    + by eapply Hold.
  - destruct (it_rank HA) as [d Hd].
    exists (fun i => if decide (i = id) then S (d node) else d i). intros i m Hi. simpl a_ctr.
    destruct (decide (i = id)) as [->|Hii].
    + rewrite add_lookup_id in Hi. injection Hi as <-. destruct (Hd _ _ Hn) as [Hlt _].
      split; [lia|]. intros q [= <-]. rewrite decide_False by done. lia.
    + destruct (add_lookup_inv _ _ Hi Hii) as (m0 & Hm0 & _ & E2 & _). rewrite E2.
      destruct (Hd _ _ Hm0) as [Hlt Hpar]. split; [lia|]. intros q Hq. rewrite decide_False; [auto|].
      intros ->. destruct (parent_exists _ _ A _ _ _ HA Hm0 Hq). congruence.
Qed.

Lemma add_msum (f : nat -> Shape -> Z) :
  msum f (a_ns A') = msum f (a_ns A) - f node nn + f node nn' + f id (new_leaf node key v).
Proof.
  destruct add_ids as (H1 & H2 & H3). destruct Had as [_ Hn _ _ _ _ _ _ Hps]. simpl.
  rewrite (msum_update _ _ node nn) by (by rewrite lookup_insert_ne).
  rewrite msum_insert by done. lia.
Qed.

Lemma add_inv_leaves : inv_leaves A -> inv_leaves A'.
Proof.
  intros Hlv. pose proof Had as [_ Hn Hfree Hck Hpos Hlen Hal Hbig Hps].
  destruct add_ids as (H1 & H2 & H3).
  intros i. simpl a_lv. rewrite elem_of_union, elem_of_difference, !elem_of_singleton, (Hlv i).
  unfold is_evictable_leaf. simpl a_root. split.
  + intros [[(m & Hm & G1 & G2 & G3) Hne]| ->].
    * exists m. split; [|done]. apply add_lookup. right. right. split_and!; [done|congruence|done].
    * eexists. split; [apply add_lookup_id|]. done.
  + intros (m & Hm & G1 & G2 & G3).
    apply add_lookup in Hm as [[-> ->]|[[-> ->]|(F1 & F2 & Hm)]]; [|by right|left].
    * exfalso. simpl in G3. assert (<[ck := id]> (sh_children nn) !! ck = Some id) as E
        by apply lookup_insert_eq. by rewrite G3, lookup_empty in E.
    * split; [|done]. by exists m.
Qed.

Lemma add_inv hs : inv ps eagle hs A -> inv ps eagle hs A'.
Proof.
  intros [HA [Hh Hl] [Hev Hpr] Hlv]. pose proof Had as [_ Hn Hfree Hck Hpos Hlen Hal Hbig Hps].
  destruct add_ids as (H1 & H2 & H3). constructor; [apply add_inv_tree| | |].
  - split.
    { intros h Hin. destruct (Hh h Hin) as [m Hm]. destruct (add_lookup_old _ _ Hm) as (m' & -> & _).
      by exists m'. }
    intros i m Hi Hne.
    assert (locks_below A' i = locks_below A i) as ->.
    { unfold locks_below. rewrite add_msum. simpl. destruct (decide (Some node = Some i)); lia. }
    destruct (decide (i = id)) as [->|Hii].
    + rewrite add_lookup_id in Hi. injection Hi as <-. simpl.
      rewrite (locks_below_absent ps eagle) by done. rewrite handles_at_absent; [lia|].
      intros Hin. destruct (Hh _ Hin). congruence.
    + destruct (add_lookup_inv _ _ Hi Hii) as (m0 & Hm0 & E1 & _). rewrite E1.
      exact (Hl i m0 Hm0 Hne).
  - split; simpl a_root; rewrite add_msum; simpl a_ev; simpl a_pr; rewrite ?Hev, ?Hpr;
      unfold unlocked_len, locked_len, sh_len; simpl;
      rewrite !(decide_False (P := id = a_root A)) by done; lia.
  - by apply add_inv_leaves.
Qed.
End add.

Arguments add_ids {ps eagle A node nn ck key v}.
Arguments add_lookup {ps eagle A node nn ck key v}.
Arguments add_lookup_node {ps eagle A node nn ck key v}.
Arguments add_lookup_id {ps eagle A node nn ck key v}.
Arguments add_lookup_old {ps eagle A node nn ck key v}.
Arguments add_lookup_inv {ps eagle A node nn ck key v}.
Arguments add_inv_tree {ps eagle A node nn ck key v}.
Arguments add_inv_leaves {ps eagle A node nn ck key v}.
Arguments add_inv {ps eagle A node nn ck key v}.

(** ** The status of a node as evictable leaf, after its locks or children changed *)

Definition leaf_set (lv : gset nat) (i : nat) (n : Shape) : gset nat :=
  if (0 <? sh_lock n) || negb (bool_decide (sh_children n = ∅)) then lv ∖ {[i]} else lv ∪ {[i]}.

Lemma elem_of_leaf_set lv i n j :
  0 <= sh_lock n ->
  j ∈ leaf_set lv i n <->
  (if decide (j = i) then sh_lock n = 0 /\ sh_children n = ∅ else j ∈ lv).
Proof.
  intros Hn. unfold leaf_set. destruct (Z.ltb_spec 0 (sh_lock n)); simpl.
  - case_decide; set_solver by lia.
  - case_bool_decide; simpl; case_decide; set_solver by lia.
Qed.

(** ** Deleting an evictable leaf *)

Definition delete_abs (A : Abs) (c : nat) (cn : Shape) (p : nat) (pn : Shape) (ck : ChildKey) : Abs :=
  let pn' := with_children (delete ck (sh_children pn)) pn in
  mkAbs (delete c (<[p := pn']> (a_ns A))) (a_root A) (a_ctr A) (a_ev A - sh_len cn) (a_pr A)
    (leaf_set (a_lv A ∖ {[c]}) p pn').

Record delete_pre (ps : nat) (eagle : bool) (A : Abs) (c : nat) (cn : Shape) (p : nat) (pn : Shape)
    (ck : ChildKey) : Prop := mkDeletePre {
  dl_tree : inv_tree ps eagle A;
  dl_c : a_ns A !! c = Some cn;
  dl_root : c <> a_root A;
  dl_lock : sh_lock cn = 0;
  dl_leaf : sh_children cn = ∅;
  dl_parent : sh_parent cn = Some p;
  dl_p : a_ns A !! p = Some pn;
  dl_ck : child_key ps (sh_key cn) = Ret ck;
  dl_in : sh_children pn !! ck = Some c;
  dl_ps : (0 < ps)%nat }.

Section delete.
Context (ps : nat) (eagle : bool) (A : Abs).
Context (c : nat) (cn : Shape) (p : nat) (pn : Shape) (ck : ChildKey).
Context (Hdl : delete_pre ps eagle A c cn p pn ck).
Local Abbreviation A' := (delete_abs A c cn p pn ck).
Local Abbreviation pn' := (with_children (delete ck (sh_children pn)) pn).

Lemma delete_ne : p <> c.
Proof. destruct Hdl as [HA Hc _ _ _ Hp _ _ _ Hps]. by eapply node_parent_ne. Qed.

Lemma delete_lookup i m :
  a_ns A' !! i = Some m <-> i <> c /\ (i = p /\ m = pn' \/ i <> p /\ a_ns A !! i = Some m).
Proof.
  pose proof delete_ne as Hpc. simpl. rewrite lookup_delete_Some, lookup_insert_Some. naive_solver.
Qed.

Lemma delete_lookup_p : a_ns A' !! p = Some pn'.
Proof. apply delete_lookup. split; [apply delete_ne|auto]. Qed.

Lemma delete_lookup_inv i m :
  a_ns A' !! i = Some m -> exists m0, a_ns A !! i = Some m0 /\ i <> c /\ sh_lock m = sh_lock m0 /\
    sh_parent m = sh_parent m0 /\ sh_key m = sh_key m0 /\ sh_value m = sh_value m0 /\
    (forall ck' j, sh_children m !! ck' = Some j -> sh_children m0 !! ck' = Some j /\ j <> c).
Proof.
  pose proof Hdl as [HA Hc _ _ _ Hp Hpn Hck Hin Hps]. intros [Hne [[-> ->]|[Hip Hi]]]%delete_lookup.
  - exists pn. split_and!; try done. simpl. intros ck' j [Hne' Hj]%lookup_delete_Some. split; [done|].
    intros ->. destruct (it_child HA _ _ Hpn _ _ Hj) as (cn' & E & _ & Hk).
    assert (cn' = cn) as -> by congruence. congruence.
  - exists m. split_and!; try done. intros ck' j Hj. split; [done|]. intros ->.
    destruct (it_child HA _ _ Hi _ _ Hj) as (cn' & E & Hp' & _).
    assert (cn' = cn) as -> by congruence. congruence.
Qed.

Lemma delete_lookup_old i m :
  a_ns A !! i = Some m -> i <> c -> exists m', a_ns A' !! i = Some m' /\ sh_lock m' = sh_lock m /\
    sh_parent m' = sh_parent m /\ sh_key m' = sh_key m /\ sh_value m' = sh_value m /\
    (forall ck' j, sh_children m !! ck' = Some j -> j <> c -> sh_children m' !! ck' = Some j).
Proof.
  pose proof Hdl as [HA Hc _ _ _ Hp Hpn Hck Hin Hps]. intros Hi Hne. destruct (decide (i = p)) as [->|].
  - exists pn'. assert (m = pn) as -> by congruence. split_and!; try done; [apply delete_lookup_p|].
    intros ck' j Hj Hjc. simpl. rewrite lookup_delete_ne; [done|]. congruence.
  - exists m. split_and!; try done. apply delete_lookup. auto.
Qed.

(** No node hangs below a leaf. *)
Lemma delete_no_child i m : a_ns A !! i = Some m -> sh_parent m <> Some c.
Proof.
  pose proof Hdl as [HA Hc _ _ Hleaf Hp Hpn Hck Hin Hps]. intros Hi Hpar.
  destruct (decide (i = a_root A)) as [->|Hne].
  - destruct (it_root HA) as (r & Hr & Hrp & _). congruence.
  - destruct (nk_parent (it_node HA _ _ Hi Hne)) as (q & qn & ck' & E1 & E2 & _ & E3).
    assert (q = c) as -> by congruence. assert (qn = cn) as -> by congruence.
    by rewrite Hleaf, lookup_empty in E3.
Qed.

Lemma delete_inv_tree : inv_tree ps eagle A'.
Proof.
  pose proof Hdl as [HA Hc Hcr Hlock Hleaf Hp Hpn Hck Hin Hps]. constructor.
  - destruct (it_root HA) as (r & Hr & Hrest).
    destruct (delete_lookup_old _ _ Hr) as (r' & E & E1 & E2 & _ & E4 & _); [done|].
    exists r'. simpl a_root. by rewrite E1, E2, E4.
  - intros i m Hi. destruct (delete_lookup_inv _ _ Hi) as (m0 & Hm0 & _). by apply (it_fresh HA) in Hm0.
  - intros i m Hi Hne. destruct (delete_lookup_inv _ _ Hi) as (m0 & Hm0 & Hic & E1 & E2 & E3 & E4 & _).
    destruct (it_node HA _ _ Hm0 Hne) as [(q & qn & ck' & G1 & G2 & G3 & G4) G5 G6 G7 G8 G9].
    constructor; rewrite ?E1, ?E2, ?E3, ?E4; try done.
    destruct (delete_lookup_old q qn G2) as (qn' & F1 & _ & _ & _ & _ & F2).
    + intros ->. by apply (delete_no_child _ _ Hm0).
    + exists q, qn', ck'. split_and!; try done. auto.
  - intros i m Hi ck' j Hj. destruct (delete_lookup_inv _ _ Hi) as (m0 & Hm0 & Hic & _ & _ & _ & _ & Hch).
    destruct (Hch _ _ Hj) as [Hj0 Hjc]. destruct (it_child HA _ _ Hm0 _ _ Hj0) as (jn & G1 & G2 & G3).
    destruct (delete_lookup_old _ _ G1 Hjc) as (jn' & F1 & _ & F2 & F3 & _). exists jn'. by rewrite F2, F3.
  - destruct (it_rank HA) as [d Hd]. exists d. intros i m Hi.
    destruct (delete_lookup_inv _ _ Hi) as (m0 & Hm0 & _ & _ & E2 & _). rewrite E2. by apply Hd.
Qed.

Lemma delete_msum (f : nat -> Shape -> Z) :
  msum f (a_ns A') = msum f (a_ns A) - f c cn - f p pn + f p pn'.
Proof.
  pose proof Hdl as [HA Hc Hcr Hlock Hleaf Hp Hpn Hck Hin Hps]. pose proof delete_ne as Hpc. simpl.
  rewrite (msum_delete _ _ c cn) by (by rewrite lookup_insert_ne).
  rewrite (msum_update _ _ p pn) by done. lia.
Qed.

Lemma delete_no_handle hs : inv_lock hs (fun _ => 0) A -> c ∉ hs.
Proof.
  pose proof Hdl as [HA Hc Hcr Hlock Hleaf Hp Hpn Hck Hin Hps]. intros [_ Hl] Hin'.
  specialize (Hl c cn Hc Hcr). pose proof (locks_below_nonneg _ _ A c HA).
  assert (0 < handles_at hs c); [|lia]. unfold handles_at. clear -Hin'.
  induction hs as [|h hs IH]; [by apply elem_of_nil in Hin'|]. simpl.
  apply elem_of_cons in Hin' as [<-|Hin'].
  - rewrite bool_decide_eq_true_2 by done. simpl. lia.
  - case_bool_decide; simpl; [lia|auto].
Qed.

Lemma delete_inv_leaves : inv_leaves A -> inv_leaves A'.
Proof.
  intros Hlv. pose proof Hdl as [HA Hc Hcr Hlock Hleaf Hp Hpn Hck Hin Hps].
  intros i. simpl a_lv. rewrite elem_of_leaf_set by (simpl; by eapply node_lock_nonneg).
  unfold is_evictable_leaf. simpl a_root. case_decide as Hip.
  + subst i. split.
    * intros [G1 G2]. simpl in G1, G2. exists pn'. split_and!; try done; [apply delete_lookup_p|]. intros ->.
      destruct (it_root HA) as (r & Hr & _ & _ & Hrl). assert (r = pn) as -> by congruence. lia.
    * intros (m & Hm & _ & G2 & G3). rewrite delete_lookup_p in Hm. by injection Hm as <-.
  + rewrite elem_of_difference, elem_of_singleton, (Hlv i). split.
    * intros [(m & Hm & Hrest) Hic]. exists m. split; [|done]. apply delete_lookup. auto.
    * intros (m & Hm & Hrest). apply delete_lookup in Hm as [Hic [[? _]|[_ Hm]]]; [done|].
      split; [|done]. by exists m.
Qed.

Lemma delete_inv hs : inv ps eagle hs A -> inv ps eagle hs A'.
Proof.
  intros [_ HL [Hev Hpr] Hlv]. pose proof Hdl as [HA Hc Hcr Hlock Hleaf Hp Hpn Hck Hin Hps].
  pose proof (delete_no_handle hs HL) as Hnh. destruct HL as [Hh Hl].
  constructor; [apply delete_inv_tree| | |].
  - split.
    { intros h Hin'. destruct (Hh h Hin') as [m Hm].
      destruct (delete_lookup_old _ _ Hm) as (m' & -> & _); [congruence|]. by exists m'. }
    intros i m Hi Hne. destruct (delete_lookup_inv _ _ Hi) as (m0 & Hm0 & Hic & E1 & _). rewrite E1.
    rewrite (Hl i m0 Hm0 Hne). unfold locks_below. rewrite delete_msum. simpl. rewrite Hlock.
    destruct (decide (sh_parent cn = Some i)); lia.
  - split; simpl a_root; rewrite delete_msum; simpl a_ev; simpl a_pr; rewrite ?Hev, ?Hpr;
      unfold unlocked_len, locked_len, sh_len; simpl; rewrite Hlock; simpl;
      rewrite !(decide_False (P := c = a_root A)) by done; lia.
  - by apply delete_inv_leaves.
Qed.
End delete.

Arguments delete_ne {ps eagle A c cn p pn ck}.
Arguments delete_lookup {ps eagle A c cn p pn ck}.
Arguments delete_lookup_p {ps eagle A c cn p pn ck}.
Arguments delete_lookup_inv {ps eagle A c cn p pn ck}.
Arguments delete_lookup_old {ps eagle A c cn p pn ck}.
Arguments delete_no_child {ps eagle A c cn p pn ck}.
Arguments delete_inv_tree {ps eagle A c cn p pn ck}.
Arguments delete_inv_leaves {ps eagle A c cn p pn ck}.
Arguments delete_msum {ps eagle A c cn p pn ck}.
Arguments delete_no_handle {ps eagle A c cn p pn ck}.
Arguments delete_inv {ps eagle A c cn p pn ck}.

(** ** Changing the lock count of one node *)

Definition lock_abs (A : Abs) (i : nat) (n : Shape) (l : Z) : Abs :=
  let n' := with_lock l n in
  mkAbs (<[i := n']> (a_ns A)) (a_root A) (a_ctr A)
    (a_ev A - unlocked_len (a_root A) i n + unlocked_len (a_root A) i n')
    (a_pr A - locked_len (a_root A) i n + locked_len (a_root A) i n')
    (leaf_set (a_lv A) i n').

Section lock.
Context (ps : nat) (eagle : bool) (A : Abs) (i : nat) (n : Shape) (l : Z).
Context (HA : inv_tree ps eagle A) (Hi : a_ns A !! i = Some n) (Hir : i <> a_root A) (Hl : 0 <= l).
Local Abbreviation A' := (lock_abs A i n l).

Lemma lock_lookup j :
  a_ns A' !! j = (if decide (j = i) then Some (with_lock l n) else a_ns A !! j).
Proof.
  simpl. case_decide; [subst j; apply lookup_insert_eq|]. by apply lookup_insert_ne.
Qed.

(** Only the lock count of [i] differs. *)
Lemma lock_lookup_inv j m :
  a_ns A' !! j = Some m -> exists m0, a_ns A !! j = Some m0 /\ sh_parent m = sh_parent m0 /\
    sh_key m = sh_key m0 /\ sh_value m = sh_value m0 /\ sh_children m = sh_children m0 /\
    (j <> i -> m = m0) /\ (j = i -> sh_lock m = l).
Proof.
  rewrite lock_lookup. case_decide as Hji; [subst j|]; intros Hm.
  - injection Hm as <-. by exists n.
  - by exists m.
Qed.

Lemma lock_lookup_old j m :
  a_ns A !! j = Some m -> exists m', a_ns A' !! j = Some m' /\ sh_parent m' = sh_parent m /\
    sh_key m' = sh_key m /\ sh_value m' = sh_value m /\ sh_children m' = sh_children m /\
    (j <> i -> m' = m).
Proof.
  rewrite lock_lookup. case_decide as Hji; [subst j|]; intros Hm.
  - assert (m = n) as -> by congruence. by eexists.
  - by exists m.
Qed.

Lemma lock_inv_tree : inv_tree ps eagle A'.
Proof.
  constructor.
  - destruct (it_root HA) as (r & Hr & Hrest). exists r. split; [|done]. simpl a_root.
    rewrite lock_lookup. by rewrite decide_False.
  - intros j m Hj. destruct (lock_lookup_inv _ _ Hj) as (m0 & Hm0 & _). by apply (it_fresh HA) in Hm0.
  - intros j m Hj Hne. destruct (lock_lookup_inv _ _ Hj) as (m0 & Hm0 & E1 & E2 & E3 & E4 & E5 & E6).
    destruct (it_node HA _ _ Hm0 Hne) as [(q & qn & ck' & G1 & G2 & G3 & G4) G5 G6 G7 G8 G9].
    constructor; rewrite ?E1, ?E2, ?E3; try done.
    + destruct (lock_lookup_old q qn G2) as (qn' & F1 & _ & _ & _ & F2 & _).
      exists q, qn', ck'. rewrite F2. done.
    + destruct (decide (j = i)) as [Hji|Hji]; [by rewrite (E6 Hji)|by rewrite (E5 Hji)].
  - intros j m Hj ck' c Hc. destruct (lock_lookup_inv _ _ Hj) as (m0 & Hm0 & _ & _ & _ & E4 & _).
    rewrite E4 in Hc. destruct (it_child HA _ _ Hm0 _ _ Hc) as (cn & G1 & G2 & G3).
    destruct (lock_lookup_old _ _ G1) as (cn' & F1 & F2 & F3 & _). exists cn'. by rewrite F2, F3.
  - destruct (it_rank HA) as [d Hd]. exists d. intros j m Hj.
    destruct (lock_lookup_inv _ _ Hj) as (m0 & Hm0 & E2 & _). rewrite E2. by apply Hd.
Qed.

Lemma lock_inv_size : inv_size A -> inv_size A'.
Proof.
  intros [Hev Hpr].
  split; simpl a_root; simpl a_ns; rewrite (msum_update _ _ i n) by done; simpl a_ev; simpl a_pr; lia.
Qed.

Lemma lock_inv_leaves : inv_leaves A -> inv_leaves A'.
Proof.
  intros Hlv j. simpl a_lv. rewrite elem_of_leaf_set by (simpl; lia).
  unfold is_evictable_leaf. rewrite lock_lookup. simpl a_root. case_decide as Hji.
  - subst j. simpl. split; [intros [??]; by eexists|]. by intros (m & [= <-] & _ & ? & ?).
  - apply Hlv.
Qed.

(** The walk to the root: the change at [i] is owed to its parent. *)
Lemma lock_inv_lock hs debt q :
  sh_parent n = Some q -> inv_lock hs debt A ->
  inv_lock hs (fun j => debt j - (if decide (j = i) then l - sh_lock n else 0)
                              + (if decide (j = q) then l - sh_lock n else 0)) A'.
Proof.
  intros Hq [Hh HL]. split.
  { intros h Hin. destruct (Hh h Hin) as [m Hm]. destruct (lock_lookup_old _ _ Hm) as (m' & -> & _).
    by exists m'. }
  intros j m Hj Hne. simpl in Hne.
  assert (locks_below A' j = locks_below A j + (if decide (j = q) then l - sh_lock n else 0)) as ->.
  { unfold locks_below. simpl a_ns. rewrite (msum_update _ _ i n) by done. simpl. rewrite Hq.
    destruct (decide (j = q)) as [->|Hjq].
    - rewrite !(decide_True (P := Some q = Some q)) by done. lia.
    - rewrite !(decide_False (P := Some q = Some j)) by congruence. lia. }
  rewrite lock_lookup in Hj. destruct (decide (j = i)) as [->|Hji].
  - injection Hj as <-. simpl. specialize (HL i n Hi Hne). lia.
  - specialize (HL j m Hj Hne). lia.
Qed.
End lock.
