(* ===== verification/RadixPaths.v ===== *)
(** * What a radix tree stores

    A path from a node down to a descendant spells a sequence of key units and the KV indices
    stored for them.  [cached_from i us vs] says that the units [us] are cached below node
    [i] with indices [vs]: they are a prefix of what some path spells.  This file shows that
    the indices of a page-aligned sequence are unique, computes the longest cached prefix of
    a key node by node, and shows what splitting, adding, deleting and locking do to the
    stored contents. *)

From stdpp Require Import base tactics list gmap strings.
From Stdlib Require Import ZArith Lia.
From S2P Require Import Prelude RadixKey TreeNode RadixInv.

#[local] Open Scope nat_scope.

Inductive path (A : Abs) (ek : option string) : nat -> list KeyUnit -> list Z -> nat -> Prop :=
  | path_nil i n : a_ns A !! i = Some n -> path A ek i [] [] i
  | path_cons i n ck c cn v us vs j :
      a_ns A !! i = Some n -> sh_children n !! ck = Some c -> a_ns A !! c = Some cn ->
      extra_key (sh_key cn) = ek -> sh_value cn = Some v -> path A ek c us vs j ->
      path A ek i (units (sh_key cn) ++ us) (v ++ vs) j.

Definition cached_from (A : Abs) (ek : option string) (i : nat) (us : list KeyUnit) (vs : list Z) : Prop :=
  length us = length vs /\ exists w x j, path A ek i (us ++ w) (vs ++ x) j.

(** What the whole tree has cached for a namespace. *)
Definition cached (A : Abs) (ek : option string) (us : list KeyUnit) (vs : list Z) : Prop :=
  cached_from A ek (a_root A) us vs.

(** ** Paths *)

Section paths.
Context (A : Abs) (ek : option string).

Lemma path_one i n ck c cn v :
  a_ns A !! i = Some n -> sh_children n !! ck = Some c -> a_ns A !! c = Some cn ->
  extra_key (sh_key cn) = ek -> sh_value cn = Some v -> path A ek i (units (sh_key cn)) v c.
Proof.
  intros. rewrite <-(app_nil_r (units _)), <-(app_nil_r v).
  eapply path_cons; try done. by eapply path_nil.
Qed.

Lemma path_app i us vs j us' vs' l :
  path A ek i us vs j -> path A ek j us' vs' l -> path A ek i (us ++ us') (vs ++ vs') l.
Proof.
  induction 1 as [|i n ck c cn v us vs j Hi Hc Hcn He Hv Hp IH]; intros Hl; [done|].
  rewrite <-!(assoc_L (++)). eapply path_cons; eauto.
Qed.

(** The first step of a path. *)
Lemma path_first i us vs j :
  path A ek i us vs j ->
  us = [] /\ vs = [] /\ i = j \/
  exists n ck c cn v us' vs', a_ns A !! i = Some n /\ sh_children n !! ck = Some c /\
    a_ns A !! c = Some cn /\ extra_key (sh_key cn) = ek /\ sh_value cn = Some v /\
    path A ek c us' vs' j /\ us = units (sh_key cn) ++ us' /\ vs = v ++ vs'.
Proof. destruct 1; [by left|]. right. by do 7 eexists. Qed.

(** The last step of a path. *)
Lemma path_last i us vs j :
  path A ek i us vs j ->
  us = [] /\ vs = [] /\ i = j \/
  exists q qn ck jn v us0 vs0, path A ek i us0 vs0 q /\ a_ns A !! q = Some qn /\
    sh_children qn !! ck = Some j /\ a_ns A !! j = Some jn /\ sh_value jn = Some v /\
    us = us0 ++ units (sh_key jn) /\ vs = vs0 ++ v.
Proof.
  induction 1 as [|i n ck c cn v us vs j Hi Hc Hcn He Hv Hp IH]; [auto|]. right.
  destruct IH as [(-> & -> & ->)|(q & qn & ck' & jn & v' & us0 & vs0 & G1 & G2 & G3 & G4 & G5 & -> & ->)].
  - exists i, n, ck, cn, v, [], []. rewrite !app_nil_r. split_and!; try done. by eapply path_nil.
  - exists q, qn, ck', jn, v', (units (sh_key cn) ++ us0), (v ++ vs0).
    rewrite <-!(assoc_L (++)). split_and!; try done. by eapply path_cons.
Qed.

Lemma path_start i us vs j : path A ek i us vs j -> is_Some (a_ns A !! i).
Proof. by destruct 1; eexists. Qed.
Lemma path_end i us vs j : path A ek i us vs j -> is_Some (a_ns A !! j).
Proof. induction 1; [by eexists|done]. Qed.

Lemma cached_nil i n : a_ns A !! i = Some n -> cached_from A ek i [] [].
Proof. intros Hi. split; [done|]. exists [], [], i. by eapply path_nil. Qed.

Lemma cached_prefix i us vs m : cached_from A ek i us vs -> cached_from A ek i (take m us) (take m vs).
Proof.
  intros [Hl (w & x & j & Hp)]. split; [rewrite !length_take; lia|].
  exists (drop m us ++ w), (drop m vs ++ x), j. by rewrite !(assoc_L (++)), !take_drop.
Qed.
End paths.

Section tree.
Context (ps : nat) (eagle : bool) (Hps : 0 < ps) (A : Abs) (HA : inv_tree ps eagle A).

Lemma path_length ek i us vs j : path A ek i us vs j -> length us = length vs.
Proof.
  induction 1 as [|i n ck c cn v us vs j Hi Hc Hcn He Hv Hp IH]; [done|].
  destruct (child_node _ _ A _ _ _ _ HA Hi Hc) as (cn' & E & Hok & _).
  assert (cn' = cn) as -> by congruence. destruct (nk_value Hok) as (v' & Hv' & Hl).
  assert (v' = v) as -> by congruence. rewrite !length_app, length_units. lia.
Qed.

Lemma path_rank ek d i us vs j : ranked A d -> path A ek i us vs j -> i = j \/ d i < d j.
Proof.
  intros Hd. induction 1 as [|i n ck c cn v us vs j Hi Hc Hcn He Hv Hp IH]; [auto|]. right.
  destruct (it_child HA _ _ Hi _ _ Hc) as (cn' & E & Hpar & _).
  assert (cn' = cn) as -> by congruence. destruct (Hd _ _ Hcn) as [_ H]. specialize (H _ Hpar).
  destruct IH as [<-|]; lia.
Qed.

(** There is one path between two nodes. *)
Lemma path_unique ek i us vs us' vs' j :
  path A ek i us vs j -> path A ek i us' vs' j -> us = us' /\ vs = vs'.
Proof.
  destruct (it_rank HA) as [d Hd].
  remember (d j) as r eqn:Er. revert j Er us vs us' vs'.
  induction (lt_wf r) as [r _ IH]. intros j -> us vs us' vs' H1 H2.
  destruct (path_last _ _ _ _ _ _ H1) as [(-> & -> & <-)|(q & qn & ck & jn & v & us0 & vs0 & P1 & Q1 & C1 & J1 & V1 & -> & ->)];
  destruct (path_last _ _ _ _ _ _ H2) as [(-> & -> & E)|(q' & qn' & ck' & jn' & v' & us0' & vs0' & P2 & Q2 & C2 & J2 & V2 & -> & ->)].
  - done.
  - destruct (it_child HA _ _ Q2 _ _ C2) as (cn & E & Hpar & _).
    destruct (Hd _ _ E) as [_ H]. specialize (H _ Hpar).
    destruct (path_rank _ d _ _ _ _ Hd P2); subst; lia.
  - subst. destruct (it_child HA _ _ Q1 _ _ C1) as (cn & E & Hpar & _).
    destruct (Hd _ _ E) as [_ H]. specialize (H _ Hpar).
    destruct (path_rank _ d _ _ _ _ Hd P1); subst; lia.
  - assert (jn' = jn) as -> by congruence. assert (v' = v) as -> by congruence.
    destruct (it_child HA _ _ Q1 _ _ C1) as (cn & E & Hpar & _).
    destruct (it_child HA _ _ Q2 _ _ C2) as (cn' & E' & Hpar' & _).
    assert (cn' = cn) as -> by congruence. assert (q' = q) as -> by congruence.
    destruct (Hd _ _ E) as [_ H]. specialize (H _ Hpar).
    destruct (IH (d q) H q eq_refl _ _ _ _ P1 P2) as [-> ->]. done.
Qed.

(** ** One step of the descent *)

(** The first page of a cached key selects the child it is cached under. *)
Lemma cached_child k m i n vs :
  ps <= key_len k -> is_bigram k = eagle -> aligned ps m -> 0 < m <= key_len k ->
  a_ns A !! i = Some n -> cached_from A (extra_key k) i (take m (units k)) vs ->
  exists ck c cn v us' vs' w x j,
    child_key ps k = Ret ck /\ sh_children n !! ck = Some c /\ a_ns A !! c = Some cn /\
    sh_value cn = Some v /\ path A (extra_key k) c us' vs' j /\
    take m (units k) ++ w = units (sh_key cn) ++ us' /\ vs ++ x = v ++ vs'.
Proof.
  intros Hk Hb Hal Hm Hi [Hl (w & x & j & Hp)].
  destruct (path_first _ _ _ _ _ _ Hp) as [(E & _)|(n0 & ck & c & cn & v & us' & vs' & E1 & Hch & Hcn & He & Hv & Hp' & Eu & Ev)].
  { exfalso. apply app_nil in E as [E _]. apply (f_equal length) in E.
    rewrite length_take, length_units in E. simpl in E. lia. }
  assert (n0 = n) as -> by congruence.
  destruct (child_node _ _ A _ _ _ _ HA Hi Hch) as (cn' & E & Hok & _ & Hck).
  assert (cn' = cn) as -> by congruence.
  assert (ps <= m) as Hpm by (apply aligned_pos_le; [done..|lia]).
  assert (child_key ps k = Ret ck) as Hkck.
  { rewrite <-Hck. apply child_key_iff; [done|done|by eapply page_le| |].
    - rewrite (nk_bigram Hok). done.
    - split; [done|]. pose proof (page_le _ _ A c cn Hps Hok) as Hcl.
      transitivity (take ps (take m (units k) ++ w)).
      + rewrite take_app_le by (rewrite length_take, length_units; lia).
        rewrite take_take. f_equal. lia.
      + rewrite Eu. rewrite take_app_le by (rewrite length_units; lia). done. }
  exists ck, c, cn, v, us', vs', w, x, j. split_and!; try done.
Qed.

(** Two children of a node whose keys begin with the same page are the same. *)
Lemma same_child i n ck c cn ck' c' cn' ek :
  a_ns A !! i = Some n -> sh_children n !! ck = Some c -> a_ns A !! c = Some cn ->
  sh_children n !! ck' = Some c' -> a_ns A !! c' = Some cn' ->
  extra_key (sh_key cn) = ek -> extra_key (sh_key cn') = ek ->
  take ps (units (sh_key cn)) = take ps (units (sh_key cn')) -> c' = c /\ cn' = cn.
Proof.
  intros Hi Hc Hcn Hc' Hcn' He He' Ht.
  destruct (child_node _ _ A _ _ _ _ HA Hi Hc) as (m & E & Hok & _ & Hk).
  destruct (child_node _ _ A _ _ _ _ HA Hi Hc') as (m' & E' & Hok' & _ & Hk').
  assert (m = cn) as -> by congruence. assert (m' = cn') as -> by congruence.
  assert (child_key ps (sh_key cn) = child_key ps (sh_key cn')) as Ek.
  { apply child_key_iff; [done|by eapply page_le|by eapply page_le| |split; [congruence|done]].
    by rewrite (nk_bigram Hok), (nk_bigram Hok'). }
  assert (ck = ck') as -> by congruence. assert (c = c') as -> by congruence. split; congruence.
Qed.

(** The indices of a page-aligned sequence are unique. *)
Lemma cached_unique ek : forall r i us vs vs',
  length us < r -> aligned ps (length us) ->
  cached_from A ek i us vs -> cached_from A ek i us vs' -> vs = vs'.
Proof.
  induction r as [|r IH]; intros i us vs vs' Hr Hal [Hl (w & x & j & Hp)] [Hl' (w' & x' & j' & Hp')]; [lia|].
  destruct (decide (length us = 0)) as [Hz|Hnz].
  { rewrite Hz in Hl, Hl'. destruct vs, vs'; simpl in *; try done; lia. }
  assert (ps <= length us) as Hpl by (apply aligned_pos_le; [done|done|lia]).
  destruct (path_first _ _ _ _ _ _ Hp) as [(E & _)|(n & ck & c & cn & v & us1 & vs1 & Hi & Hch & Hcn & He & Hv & Hp1 & Eu & Ev)].
  { apply app_nil in E as [-> _]. simpl in Hnz. lia. }
  destruct (path_first _ _ _ _ _ _ Hp') as [(E & _)|(n' & ck' & c' & cn' & v' & us1' & vs1' & Hi' & Hch' & Hcn' & He' & Hv' & Hp1' & Eu' & Ev')].
  { apply app_nil in E as [-> _]. simpl in Hnz. lia. }
  assert (n' = n) as -> by congruence.
  destruct (child_node _ _ A _ _ _ _ HA Hi Hch) as (m & E & Hok & _ & Hk).
  assert (m = cn) as -> by congruence.
  destruct (child_node _ _ A _ _ _ _ HA Hi Hch') as (m' & E' & Hok' & _ & Hk').
  assert (m' = cn') as -> by congruence.
  pose proof (page_le _ _ A c cn Hps Hok) as Hcl. pose proof (page_le _ _ A c' cn' Hps Hok') as Hcl'.
  assert (c' = c /\ cn' = cn) as [-> ->].
  { eapply (same_child i n ck c cn ck' c' cn' ek); try done.
    apply (f_equal (take ps)) in Eu. apply (f_equal (take ps)) in Eu'.
    rewrite !take_app_le in Eu by (rewrite ?length_units; lia).
    rewrite !take_app_le in Eu' by (rewrite ?length_units; lia). congruence. }
  assert (v' = v) as -> by congruence.
  destruct (nk_value Hok) as (v0 & Hv0 & Hlv). assert (v0 = v) as -> by congruence.
  destruct (Nat.le_gt_cases (length us) (key_len (sh_key cn))) as [Hle|Hgt].
  - apply (f_equal (take (length us))) in Ev. apply (f_equal (take (length us))) in Ev'.
    rewrite !take_app_le in Ev by lia. rewrite !take_app_le in Ev' by lia.
    rewrite take_ge in Ev by lia. rewrite take_ge in Ev' by lia. congruence.
  - assert (forall zs y q, length zs = length us -> zs ++ y = v ++ q -> zs = v ++ drop (length v) zs) as Hsplit.
    { intros zs y q Hz E1. apply (f_equal (take (length v))) in E1.
      rewrite take_app_length, take_app_le in E1 by lia. rewrite <-(take_drop (length v) zs) at 1. by rewrite E1. }
    rewrite (Hsplit vs x vs1) by (done || lia). rewrite (Hsplit vs' x' vs1') by (done || lia). f_equal.
    set (L := length v) in *.
    apply (IH c (drop L us)); [rewrite length_drop; lia| | |].
    + rewrite length_drop, Hlv. apply aligned_sub; [done|done|apply Hok].
    + split; [rewrite !length_drop; lia|]. exists w, x, j.
      apply (f_equal (drop L)) in Eu. apply (f_equal (drop L)) in Ev.
      rewrite !drop_app_le in Eu by (rewrite ?length_units; lia).
      rewrite !drop_app_le in Ev by lia. rewrite Eu, Ev.
      rewrite (drop_ge (units _)), (drop_ge v) by (rewrite ?length_units; lia). done.
    + split; [rewrite !length_drop; lia|]. exists w', x', j'.
      apply (f_equal (drop L)) in Eu'. apply (f_equal (drop L)) in Ev'.
      rewrite !drop_app_le in Eu' by (rewrite ?length_units; lia).
      rewrite !drop_app_le in Ev' by lia. rewrite Eu', Ev'.
      rewrite (drop_ge (units _)), (drop_ge v) by (rewrite ?length_units; lia). done.
Qed.

(** The longest prefix of [k], in whole pages, that is cached below [i], with its indices. *)
Record longest (i : nat) (k : RadixKey) (m : nat) (vs : list Z) : Prop := mkLongest {
  lg_aligned : aligned ps m;
  lg_le : m <= key_len k;
  lg_cached : cached_from A (extra_key k) i (take m (units k)) vs;
  lg_max : forall m' vs', aligned ps m' -> m' <= key_len k ->
             cached_from A (extra_key k) i (take m' (units k)) vs' -> m' <= m }.

Lemma longest_empty i n k : a_ns A !! i = Some n -> key_len k = 0 -> longest i k 0 [].
Proof.
  intros Hi Hk. constructor; [apply aligned_0|lia|by eapply cached_nil|]. intros; lia.
Qed.

Lemma longest_stop i n k ck :
  ps <= key_len k -> is_bigram k = eagle -> a_ns A !! i = Some n ->
  child_key ps k = Ret ck -> sh_children n !! ck = None -> longest i k 0 [].
Proof.
  intros Hk Hb Hi Hck Hno. constructor; [apply aligned_0|lia|by eapply cached_nil|].
  intros m' vs' Hal Hle Hc. destruct (decide (m' = 0)) as [->|Hne]; [done|]. exfalso.
  destruct (cached_child k m' i n vs') as (ck' & c & cn & v & us' & vs1 & w & x & j & E1 & E2 & _);
    [done|done|done|lia|done|done|]. congruence.
Qed.

Section step.
Context (i c : nat) (n cn : Shape) (k : RadixKey) (ck : ChildKey) (v : list Z).
Context (Hk : ps <= key_len k) (Hka : aligned ps (key_len k)) (Hb : is_bigram k = eagle).
Context (Hi : a_ns A !! i = Some n) (Hck : child_key ps k = Ret ck).
Context (Hch : sh_children n !! ck = Some c) (Hcn : a_ns A !! c = Some cn) (Hv : sh_value cn = Some v).

Lemma step_node : node_ok ps eagle A c cn /\ extra_key (sh_key cn) = extra_key k /\ length v = key_len (sh_key cn).
Proof.
  destruct (child_node _ _ A _ _ _ _ HA Hi Hch) as (cn' & E & Hok & _ & Hck').
  assert (cn' = cn) as -> by congruence. split; [done|]. split.
  - rewrite <-Hck in Hck'. apply child_key_iff in Hck' as [? _]; [done|done| |done|].
    + by eapply page_le.
    + by rewrite (nk_bigram Hok).
  - destruct (nk_value Hok) as (v' & E' & Hl). assert (v' = v) as -> by congruence. done.
Qed.

(** The matched length reported by [key_match] for this child. *)
Definition plen : nat := common_prefix (units (sh_key cn)) (units k) / ps * ps.

Lemma step_match : key_match ps (sh_key cn) k = Ret plen.
Proof.
  destruct step_node as (Hok & He & _). apply key_match_spec; try done; [|apply Hok].
  by rewrite (nk_bigram Hok).
Qed.

Lemma plen_le : plen <= common_prefix (units (sh_key cn)) (units k).
Proof. unfold plen. rewrite Nat.mul_comm. by apply Nat.Div0.mul_div_le. Qed.

Lemma plen_bounds : ps <= plen /\ aligned ps plen /\ plen <= key_len (sh_key cn) /\ plen <= key_len k /\
  take plen (units (sh_key cn)) = take plen (units k).
Proof.
  destruct step_node as (Hok & He & _). pose proof plen_le as Hle.
  destruct (common_prefix_le (units (sh_key cn)) (units k)) as [H1 H2].
  rewrite length_units in H1, H2. split_and!; [|by apply aligned_mul|lia|lia|by apply common_prefix_take].
  assert (ps <= common_prefix (units (sh_key cn)) (units k)) as Hcp.
  { apply common_prefix_greatest; rewrite ?length_units; [by eapply page_le|done|].
    destruct (child_node _ _ A _ _ _ _ HA Hi Hch) as (cn' & E & _ & _ & Hck').
    assert (cn' = cn) as -> by congruence. rewrite <-Hck in Hck'.
    apply child_key_iff in Hck' as [_ ?]; [done|done|by eapply page_le|done|].
    by rewrite (nk_bigram Hok). }
  unfold plen. pose proof (aligned_le_floor ps ps _ Hps (Nat.Div0.mod_same ps) Hcp). done.
Qed.

(** A cached prefix longer than the match would have matched further. *)
Lemma cached_beyond m' vs' :
  aligned ps m' -> m' <= key_len k -> m' <= key_len (sh_key cn) ->
  cached_from A (extra_key k) i (take m' (units k)) vs' -> m' <= plen.
Proof.
  intros Hal Hle Hlc Hc. destruct (decide (m' = 0)) as [->|Hne]; [lia|].
  destruct (cached_child k m' i n vs') as (ck' & c' & cn' & v' & us' & vs1 & w & x & j & E1 & E2 & E3 & E4 & _ & E5 & _);
    [done|done|done|lia|done|done|].
  assert (ck' = ck) as -> by congruence. assert (c' = c) as -> by congruence.
  assert (cn' = cn) as -> by congruence.
  apply aligned_le_floor; [done..|]. apply common_prefix_greatest; rewrite ?length_units; [done..|].
  apply (f_equal (take m')) in E5.
  rewrite take_app_le in E5 by (rewrite length_take, length_units; lia).
  rewrite take_app_le in E5 by (rewrite length_units; lia). rewrite take_take, Nat.min_id in E5. done.
Qed.

Lemma longest_partial : plen < key_len (sh_key cn) -> longest i k plen (take plen v).
Proof.
  intros Hlt. destruct step_node as (Hok & He & Hlen). destruct plen_bounds as (H1 & H2 & H3 & H4 & H5).
  constructor; [done|done| |].
  - rewrite <-H5. apply cached_prefix. split; [by rewrite length_units|].
    exists [], [], c. rewrite !app_nil_r. by eapply path_one.
  - intros m' vs' Hal Hle Hc. destruct (Nat.le_gt_cases m' (key_len (sh_key cn))) as [|Hgt].
    { by eapply cached_beyond. }
    exfalso. assert (key_len (sh_key cn) <= plen); [|lia].
    apply (cached_beyond _ (take (key_len (sh_key cn)) vs')); [apply Hok|lia|done|].
    pose proof (cached_prefix _ _ _ _ _ (key_len (sh_key cn)) Hc) as Hc'.
    by rewrite take_take, Nat.min_l in Hc' by lia.
Qed.

Lemma longest_full m vs :
  plen = key_len (sh_key cn) -> longest c (key_drop plen k) m vs -> longest i k (plen + m) (v ++ vs).
Proof.
  intros Hfull [L1 L2 L3 L4]. destruct step_node as (Hok & He & Hlen).
  destruct plen_bounds as (H1 & H2 & H3 & H4 & H5).
  autorewrite with keydb in L2, L3, L4.
  assert (units (sh_key cn) = take plen (units k)) as Eu.
  { rewrite <-H5, take_ge; [done|]. rewrite length_units. lia. }
  constructor; [by apply aligned_add|lia| |].
  - destruct L3 as [Hl (w & x & j & Hp)]. rewrite <-take_take_drop, <-Eu. split.
    { rewrite !length_app, length_units. lia. }
    exists w, x, j. rewrite <-!(assoc_L (++)). by eapply path_cons.
  - intros m' vs' Hal Hle Hc. destruct (Nat.le_gt_cases m' (key_len (sh_key cn))) as [Hle'|Hgt].
    { pose proof (cached_beyond m' vs' Hal Hle Hle' Hc). lia. }
    destruct (cached_child k m' i n vs') as (ck' & c' & cn' & v' & us' & vs1 & w & x & j & E1 & E2 & E3 & E4 & E5 & E6 & E7);
      [done|done|done|lia|done|done|].
    assert (ck' = ck) as -> by congruence. assert (c' = c) as -> by congruence.
    assert (cn' = cn) as -> by congruence. assert (v' = v) as -> by congruence.
    enough (m' - plen <= m) by lia. apply (L4 _ (drop plen vs')); [by apply aligned_sub|lia|].
    destruct Hc as [Hl _]. split.
    { rewrite length_take, length_drop, !length_drop, length_units.
      rewrite length_take, length_units in Hl. lia. }
    exists w, x, j.
    assert (take (m' - plen) (drop plen (units k)) ++ w = us') as ->.
    { apply (f_equal (drop plen)) in E6. rewrite Eu in E6.
      rewrite drop_app_le in E6 by (rewrite length_take, length_units; lia).
      rewrite drop_app_le in E6 by (rewrite length_take, length_units; lia).
      rewrite (drop_ge (take plen (units k))) in E6 by (rewrite length_take; lia).
      rewrite skipn_firstn_comm in E6. done. }
    assert (drop plen vs' ++ x = vs1) as ->; [|done].
    apply (f_equal (drop plen)) in E7. rewrite length_take, length_units in Hl.
    rewrite drop_app_le in E7 by lia. rewrite drop_app_le in E7 by lia.
    rewrite (drop_ge v) in E7 by lia. done.
Qed.
End step.
End tree.

(** ** Splitting keeps the contents *)

Section split_paths.
Context (ps : nat) (eagle : bool) (A : Abs) (ek : option string).
Context (p : nat) (pn : Shape) (c : nat) (cn : Shape) (ck rest_ck : ChildKey) (k : nat) (v : list Z).
Context (Hsp : split_pre ps eagle A p pn c cn ck rest_ck k v).
Local Abbreviation A' := (split_abs A p pn c cn ck rest_ck k v).
Local Abbreviation id := (a_ctr A).

Lemma split_path_upper :
  extra_key (sh_key cn) = ek -> path A' ek p (take k (units (sh_key cn))) (take k v) id.
Proof.
  intros He. rewrite <-units_take. eapply (path_one A' ek p _ ck id (upper_half rest_ck c p k v cn)).
  - by eapply split_lookup_p.
  - simpl. apply lookup_insert_eq.
  - by eapply split_lookup_id.
  - simpl. by autorewrite with keydb.
  - done.
Qed.

Lemma split_path_lower :
  extra_key (sh_key cn) = ek -> path A' ek id (drop k (units (sh_key cn))) (drop k v) c.
Proof.
  intros He. rewrite <-units_drop. eapply (path_one A' ek id _ rest_ck c (lower_half id k v cn)).
  - by eapply split_lookup_id.
  - simpl. apply lookup_singleton_eq.
  - by eapply split_lookup_c.
  - simpl. by autorewrite with keydb.
  - done.
Qed.

Lemma split_path_fwd i us vs j : path A ek i us vs j -> path A' ek i us vs j.
Proof.
  pose proof Hsp as [HA Hc Hr Hp Hpn Hck Hin Hv Hlen Hk Hal Hrest Hps].
  induction 1 as [i n Hi|i n ck' c' cn' v' us vs j Hi Hch Hcn He Hv' Hpath IH].
  { destruct (split_lookup_old Hsp _ _ Hi) as (n' & Hn' & _).
    by eapply path_nil. }
  destruct (decide (c' = c)) as [->|Hne].
  - assert (cn' = cn) as -> by congruence. assert (v' = v) as -> by congruence.
    destruct (split_child_keys Hsp _ _ _ _ Hi Hch eq_refl) as [-> ->].
    pose proof (path_app _ _ _ _ _ _ _ _ _ (path_app _ _ _ _ _ _ _ _ _
      (split_path_upper He) (split_path_lower He)) IH) as Hall.
    by rewrite !take_drop in Hall.
  - destruct (split_child_kept Hsp _ _ _ _ Hi Hch Hne) as (n' & Hn' & Hch').
    destruct (split_lookup_old Hsp _ _ Hcn) as (m' & Hm' & _ & Hsame).
    destruct (Hsame Hne) as (_ & E2 & E3). rewrite <-E2.
    eapply path_cons; [exact Hn'|exact Hch'|exact Hm'|by rewrite E2|by rewrite E3|done].
Qed.

(** A step of the split tree that does not involve the split node is a step of the old one. *)
Lemma split_step_old i n ck' c' cn' v' us vs j w x j' :
  a_ns A !! i = Some n -> sh_children n !! ck' = Some c' -> (i = p -> ck' <> ck) ->
  a_ns A' !! c' = Some cn' -> extra_key (sh_key cn') = ek -> sh_value cn' = Some v' ->
  path A' ek c' us vs j -> path A ek c' (us ++ w) (vs ++ x) j' ->
  path A ek i ((units (sh_key cn') ++ us) ++ w) ((v' ++ vs) ++ x) j'.
Proof.
  pose proof Hsp as [HA Hc Hr Hp Hpn Hck Hin Hv Hlen Hk Hal Hrest Hps].
  intros Hi Hch Hne Hcn He Hv' _ Hpa.
  assert (c' <> c) as Hcc by (intros ->;
    destruct (split_child_keys Hsp _ _ _ _ Hi Hch eq_refl); naive_solver).
  destruct (it_child HA _ _ Hi _ _ Hch) as (cn0 & Hcn0 & _).
  destruct (split_lookup_old Hsp _ _ Hcn0) as (m' & Hm' & _ & Hsame).
  assert (m' = cn') as -> by congruence. destruct (Hsame Hcc) as (_ & E2 & E3). rewrite E2.
  rewrite <-!(assoc_L (++)).
  eapply path_cons; [done|done|done|congruence|congruence|done].
Qed.

(** What a path of the split tree spells below an old node, the old tree spells too. *)
Lemma split_path_bwd i us vs j :
  path A' ek i us vs j ->
  if decide (i = id) then
    us = [] /\ vs = [] \/
    exists us' vs' w x j', us = drop k (units (sh_key cn)) ++ us' /\ vs = drop k v ++ vs' /\
      path A ek c (us' ++ w) (vs' ++ x) j'
  else exists w x j', path A ek i (us ++ w) (vs ++ x) j'.
Proof.
  pose proof Hsp as [HA Hc Hr Hp Hpn Hck Hin Hv Hlen Hk Hal Hrest Hps].
  destruct (split_ids Hsp) as (Hpc & Hpi & Hci & Hfr).
  induction 1 as [i n Hi|i n ck' c' cn' v' us vs j Hi Hch Hcn He Hv' Hpath IH].
  { case_decide as Hid; [by left|]. assert (exists m, a_ns A !! i = Some m) as [m Hm].
    { apply (split_lookup Hsp) in Hi as [[-> _]|[[-> _]|[[-> _]|(_ & _ & _ & ?)]]];
        [by exists pn|by exists cn|done|by exists n]. }
    exists [], [], i. by eapply path_nil. }
  destruct (decide (c' = id)) as [->|Hcid].
  - (* the step into the new node comes from [p] *)
    rewrite (split_lookup_id Hsp) in Hcn. injection Hcn as <-.
    simpl in Hv'. injection Hv' as <-. simpl in He. autorewrite with keydb in He.
    simpl sh_key. rewrite units_take.
    destruct (split_child_ok Hsp _ _ Hi _ _ Hch) as (m & Hm & Hmp & _).
    rewrite (split_lookup_id Hsp) in Hm. injection Hm as <-.
    simpl in Hmp. injection Hmp as <-. rewrite decide_False by done.
    destruct IH as [[-> ->]|(us' & vs' & w & x & j' & -> & -> & Hpa)].
    + exists (drop k (units (sh_key cn))), (drop k v), c. rewrite !app_nil_r, !take_drop.
      by eapply path_one.
    + exists w, x, j'. rewrite <-!(assoc_L (++)), !(assoc_L (++) (take _ _)), !take_drop.
      by eapply path_cons.
  - rewrite (split_lookup Hsp) in Hi.
    destruct Hi as [[-> ->]|[[-> ->]|[[-> ->]|(H1 & H2 & H3 & Hi)]]]; simpl in Hch.
    + rewrite decide_False by done.
      apply lookup_insert_Some in Hch as [[_ <-]|[Hne Hch]]; [done|].
      destruct IH as (w & x & j' & Hpa). exists w, x, j'. by eapply (split_step_old p pn).
    + rewrite decide_False by done.
      destruct IH as (w & x & j' & Hpa). exists w, x, j'. by eapply (split_step_old c cn).
    + rewrite decide_True by done. right. apply lookup_singleton_Some in Hch as [_ <-].
      rewrite (split_lookup_c Hsp) in Hcn. injection Hcn as <-.
      simpl in Hv'. injection Hv' as <-. simpl sh_key. rewrite units_drop.
      destruct IH as (w & x & j' & Hpa). exists us, vs, w, x, j'. done.
    + rewrite decide_False by done.
      destruct IH as (w & x & j' & Hpa). exists w, x, j'. by eapply (split_step_old i n).
Qed.

Lemma split_cached i us vs :
  is_Some (a_ns A !! i) -> cached_from A' ek i us vs <-> cached_from A ek i us vs.
Proof.
  intros [n Hi]. destruct (split_ids Hsp) as (Hpc & Hpi & Hci & Hfr).
  split; intros [Hl (w & x & j & Hp)]; (split; [done|]).
  - apply split_path_bwd in Hp. rewrite decide_False in Hp by congruence.
    destruct Hp as (w' & x' & j' & Hp). rewrite <-!(assoc_L (++)) in Hp. by do 3 eexists.
  - apply split_path_fwd in Hp. by do 3 eexists.
Qed.
End split_paths.

(** ** Adding a leaf adds its own path *)

Section add_paths.
Context (ps : nat) (eagle : bool) (A : Abs) (ek : option string).
Context (node : nat) (nn : Shape) (ck : ChildKey) (key : RadixKey) (v : list Z).
Context (Had : add_pre ps eagle A node nn ck key v).
Local Abbreviation A' := (add_abs A node nn ck key v).
Local Abbreviation id := (a_ctr A).

Lemma add_path_fwd i us vs j : path A ek i us vs j -> path A' ek i us vs j.
Proof.
  induction 1 as [i n Hi|i n ck' c' cn' v' us vs j Hi Hch Hcn He Hv' Hpath IH].
  { destruct (add_lookup_old Had _ _ Hi) as (n' & Hn' & _). by eapply path_nil. }
  destruct (add_lookup_old Had _ _ Hi) as (n' & Hn' & _ & _ & _ & _ & Hkeep).
  destruct (add_lookup_old Had _ _ Hcn) as (m' & Hm' & _ & _ & E2 & E3 & _). rewrite <-E2.
  eapply path_cons; [exact Hn'|by apply Hkeep|exact Hm'|by rewrite E2|by rewrite E3|done].
Qed.

Lemma add_path_leaf : extra_key key = ek -> path A' ek node (units key) v id.
Proof.
  intros He. eapply (path_one A' ek node _ ck id (new_leaf node key v)).
  - by apply (add_lookup_node Had).
  - simpl. apply lookup_insert_eq.
  - by apply (add_lookup_id Had).
  - done.
  - done.
Qed.

(** The new leaf has no children. *)
Lemma add_path_id us vs j : path A' ek id us vs j -> us = [] /\ vs = [] /\ j = id.
Proof.
  intros [(-> & -> & ->)|(n & ck' & c' & cn' & v' & us' & vs' & Hn & Hch & _)]%path_first; [done|].
  rewrite (add_lookup_id Had) in Hn. injection Hn as <-. done.
Qed.

Lemma add_path_bwd i us vs j :
  path A' ek i us vs j -> i <> id ->
  (j <> id /\ path A ek i us vs j) \/
  (j = id /\ extra_key key = ek /\
   exists us0 vs0, path A ek i us0 vs0 node /\ us = us0 ++ units key /\ vs = vs0 ++ v).
Proof.
  pose proof Had as [HA Hn Hfree Hck Hpos Hlen Hal Hbig Hps].
  destruct (add_ids Had) as (H1 & H2 & H3).
  induction 1 as [i n Hi|i n ck' c' cn' v' us vs j Hi Hch Hcn He Hv' Hpath IH]; intros Hne.
  { left. split; [done|]. destruct (add_lookup_inv Had _ _ Hi Hne) as (m & Hm & _). by eapply path_nil. }
  destruct (decide (c' = id)) as [->|Hcid].
  - right. apply add_path_id in Hpath as (-> & -> & ->).
    destruct (it_child (add_inv_tree Had) _ _ Hi _ _ Hch) as (m & Hm & Hpar & _).
    rewrite (add_lookup_id Had) in Hm, Hcn. injection Hm as <-. injection Hcn as <-.
    simpl in *. injection Hpar as <-. injection Hv' as <-. split_and!; [done|done|].
    exists [], []. rewrite !app_nil_r. split_and!; try done. by eapply path_nil.
  - assert (exists n0, a_ns A !! i = Some n0 /\ sh_children n0 !! ck' = Some c') as (n0 & Hn0 & Hch0).
    { apply (add_lookup Had) in Hi as [[-> ->]|[[-> _]|(_ & _ & Hi)]]; [|done|by exists n].
      exists nn. split; [done|]. simpl in Hch. by apply lookup_insert_Some in Hch as [[_ <-]|[_ ?]]. }
    destruct (add_lookup_inv Had _ _ Hcn Hcid) as (c0 & Hc0 & _ & _ & E2 & E3).
    rewrite E2. rewrite E2 in He. rewrite E3 in Hv'.
    destruct (IH Hcid) as [[Hj Hp]|(-> & Hek & us0 & vs0 & Hp & -> & ->)].
    + left. split; [done|]. by eapply path_cons.
    + right. split_and!; [done|done|]. exists (units (sh_key c0) ++ us0), (v' ++ vs0).
      rewrite !(assoc_L (++)). split_and!; try done. by eapply path_cons.
Qed.

(** Contents after adding a leaf where [us0], [vs0] lead. *)
Lemma add_cached us0 vs0 us vs :
  extra_key key = ek -> path A ek (a_root A) us0 vs0 node ->
  cached A' ek us vs <->
  cached A ek us vs \/
  exists m, us = take m (us0 ++ units key) /\ vs = take m (vs0 ++ v).
Proof.
  pose proof Had as [HA Hn Hfree Hck Hpos Hlen Hal Hbig Hps]. intros He Hp0.
  destruct (add_ids Had) as (H1 & H2 & H3). unfold cached. simpl a_root. split.
  - intros [Hl (w & x & j & Hp)]. apply add_path_bwd in Hp as [[_ Hp]|(_ & _ & us1 & vs1 & Hp & Eu & Ev)]; [| |done].
    + left. split; [done|]. by do 3 eexists.
    + right. destruct (path_unique ps eagle Hps A HA _ _ _ _ _ _ _ Hp0 Hp) as [-> ->].
      exists (length us). rewrite <-Eu, <-Ev. rewrite Hl at 2. by rewrite !take_app_length.
  - intros [[Hl (w & x & j & Hp)]|(m & -> & ->)].
    + split; [done|]. apply add_path_fwd in Hp. by do 3 eexists.
    + pose proof (path_length _ _ Hps A HA _ _ _ _ _ Hp0) as Hl0.
      apply cached_prefix. split; [rewrite !length_app, length_units; lia|].
      exists [], [], id. rewrite !app_nil_r. eapply path_app; [by apply add_path_fwd|by apply add_path_leaf].
Qed.

(** Other namespaces do not see it. *)
Lemma add_cached_other us vs : extra_key key <> ek -> cached A' ek us vs <-> cached A ek us vs.
Proof.
  intros He. destruct (add_ids Had) as (H1 & H2 & H3). unfold cached. simpl a_root.
  split; intros [Hl (w & x & j & Hp)]; (split; [done|]).
  - apply add_path_bwd in Hp as [[_ Hp]|(_ & ? & _)]; [by do 3 eexists|done|done].
  - apply add_path_fwd in Hp. by do 3 eexists.
Qed.
End add_paths.

(** ** Deleting a leaf removes paths that end there *)

Section delete_paths.
Context (ps : nat) (eagle : bool) (A : Abs) (ek : option string).
Context (c : nat) (cn : Shape) (p : nat) (pn : Shape) (ck : ChildKey).
Context (Hdl : delete_pre ps eagle A c cn p pn ck).
Local Abbreviation A' := (delete_abs A c cn p pn ck).

Lemma delete_path_bwd i us vs j : path A' ek i us vs j -> path A ek i us vs j.
Proof.
  induction 1 as [i n Hi|i n ck' c' cn' v' us vs j Hi Hch Hcn He Hv' Hpath IH].
  { destruct (delete_lookup_inv Hdl _ _ Hi) as (m & Hm & _). by eapply path_nil. }
  destruct (delete_lookup_inv Hdl _ _ Hi) as (n0 & Hn0 & _ & _ & _ & _ & _ & Hkeep).
  destruct (Hkeep _ _ Hch) as [Hch0 _].
  destruct (delete_lookup_inv Hdl _ _ Hcn) as (c0 & Hc0 & _ & _ & _ & E2 & E3 & _).
  rewrite E2. eapply path_cons; [exact Hn0|exact Hch0|exact Hc0|by rewrite <-E2|by rewrite <-E3|done].
Qed.

(** Paths to every other node survive. *)
Lemma delete_path_fwd i us vs j : path A ek i us vs j -> j <> c -> path A' ek i us vs j.
Proof.
  pose proof Hdl as [HA Hc Hcr Hlock Hleaf Hp Hpn Hck Hin Hps].
  induction 1 as [i n Hi|i n ck' c' cn' v' us vs j Hi Hch Hcn He Hv' Hpath IH]; intros Hne.
  { destruct (delete_lookup_old Hdl _ _ Hi Hne) as (m & Hm & _). by eapply path_nil. }
  assert (c' <> c) as Hcc.
  { intros ->. apply path_first in Hpath as [(_ & _ & ?)|(n' & ck1 & d & dn & v1 & us1 & vs1 & E & Hd & _)]; [done|].
    assert (n' = cn) as -> by congruence. by rewrite Hleaf, lookup_empty in Hd. }
  assert (i <> c) as Hic.
  { intros ->. assert (n = cn) as -> by congruence. by rewrite Hleaf, lookup_empty in Hch. }
  destruct (delete_lookup_old Hdl _ _ Hi Hic) as (n' & Hn' & _ & _ & _ & _ & Hkeep).
  destruct (delete_lookup_old Hdl _ _ Hcn Hcc) as (m' & Hm' & _ & _ & E2 & E3 & _). rewrite <-E2.
  eapply path_cons; [exact Hn'|by apply Hkeep|exact Hm'|by rewrite E2|by rewrite E3|by apply IH].
Qed.
End delete_paths.

(** ** Locks do not touch the contents *)

Lemma lock_path A i n l ek a us vs j :
  a_ns A !! i = Some n -> path (lock_abs A i n l) ek a us vs j <-> path A ek a us vs j.
Proof.
  intros Hi. split.
  - induction 1 as [a m Ha|a m ck' c' cn' v' us vs j Ha Hch Hcn He Hv' Hpath IH].
    + destruct (lock_lookup_inv A i n l Hi _ _ Ha) as (m0 & Hm0 & _). by eapply path_nil.
    + destruct (lock_lookup_inv A i n l Hi _ _ Ha) as (m0 & Hm0 & _ & _ & _ & E & _).
      destruct (lock_lookup_inv A i n l Hi _ _ Hcn) as (c0 & Hc0 & _ & E2 & E3 & _). rewrite E2.
      eapply path_cons; [exact Hm0|by rewrite <-E|exact Hc0|by rewrite <-E2|by rewrite <-E3|done].
  - induction 1 as [a m Ha|a m ck' c' cn' v' us vs j Ha Hch Hcn He Hv' Hpath IH].
    + destruct (lock_lookup_old A i n l Hi _ _ Ha) as (m0 & Hm0 & _). by eapply path_nil.
    + destruct (lock_lookup_old A i n l Hi _ _ Ha) as (m0 & Hm0 & _ & _ & _ & E & _).
      destruct (lock_lookup_old A i n l Hi _ _ Hcn) as (c0 & Hc0 & _ & E2 & E3 & _). rewrite <-E2.
      eapply path_cons; [exact Hm0|by rewrite E|exact Hc0|by rewrite E2|by rewrite E3|done].
Qed.
