(* ===== verification/RadixSlots.v ===== *)
(** * The KV slots in the radix tree

    The slots a tree holds are those of its nodes, in whole pages.  Splitting a node and
    adding a leaf are followed: a split moves slots within the tree, a new leaf brings its
    own. *)

From stdpp Require Import base tactics list gmap strings.
From Stdlib Require Import ZArith Lia.
From S2P Require Import Prelude RadixKey TreeNode Allocator AllocatorProofs RadixInv RadixPaths.

(** ** Slots of a map of nodes *)

Section cat.
Context {A : Type}.
Implicit Types (f : A -> option (list Z)) (m : gmap nat A).

Definition slot_list f (n : A) : list Z := default [] (f n).
Definition cat f m : list Z :=
  concat (map_to_list (slot_list f <$> m : gmap nat (list Z))).*2.

Lemma cat_delete f m i n : m !! i = Some n -> cat f m ≡ₚ slot_list f n ++ cat f (delete i m).
Proof.
  intros Hi. unfold cat. rewrite fmap_delete.
  assert ((slot_list f <$> m : gmap nat (list Z)) !! i = Some (slot_list f n)) as Hm by (by rewrite lookup_fmap, Hi).
  by rewrite <-(map_to_list_delete _ i _ Hm).
Qed.

Lemma cat_insert f m i n : m !! i = None -> cat f (<[i := n]> m) ≡ₚ slot_list f n ++ cat f m.
Proof.
  intros Hi. rewrite (cat_delete f _ i n) by apply lookup_insert_eq. by rewrite delete_insert_id.
Qed.

Lemma cat_update f m i n n' :
  m !! i = Some n -> slot_list f n ++ cat f (<[i := n']> m) ≡ₚ slot_list f n' ++ cat f m.
Proof.
  intros Hi. rewrite (cat_delete f (<[i := n']> m) i n') by apply lookup_insert_eq.
  rewrite delete_insert_eq, (cat_delete f m i n) by done. solve_Permutation.
Qed.

Lemma cat_update_id f m i n n' :
  m !! i = Some n -> slot_list f n' = slot_list f n -> cat f (<[i := n']> m) = cat f m.
Proof.
  intros Hi E. unfold cat. rewrite fmap_insert, E, insert_id; [done|]. by rewrite lookup_fmap, Hi.
Qed.

Lemma cat_ext f m m' : (forall i, slot_list f <$> m' !! i = slot_list f <$> m !! i) -> cat f m' = cat f m.
Proof.
  intros Hext. unfold cat. do 3 f_equal. apply map_eq. intros i. by rewrite !lookup_fmap.
Qed.

End cat.

(** ** Pages *)

Lemma paged_nil p : paged p [].
Proof. exists []. split; [done|constructor]. Qed.

Lemma length_expand (ps : nat) l : length (expand_pages (Z.of_nat ps) l) = (length l * ps)%nat.
Proof. pose proof (length_expand_pages (Z.of_nat ps) l ltac:(lia)) as E. unfold len in E. lia. Qed.

Lemma paged_split (ps k : nat) v :
  (0 < ps)%nat -> aligned ps k -> paged (Z.of_nat ps) v ->
  paged (Z.of_nat ps) (take k v) /\ paged (Z.of_nat ps) (drop k v).
Proof.
  intros Hps Hal (pages & -> & Hnd). rewrite <-(aligned_floor ps k Hps Hal). generalize (k / ps)%nat as c. intros c.
  rewrite <-(take_drop c pages), expand_pages_app.
  destruct (decide (c <= length pages)%nat) as [Hc|Hc].
  - assert (length (expand_pages (Z.of_nat ps) (take c pages)) = (c * ps)%nat) as El
      by (rewrite length_expand, length_take; nia).
    rewrite take_app_length', drop_app_length' by done.
    rewrite <-(take_drop c pages) in Hnd. apply NoDup_app in Hnd as (H1 & _ & H2). split; eexists; done.
  - rewrite (take_ge pages), (drop_ge pages), app_nil_r by lia.
    rewrite take_ge, drop_ge by (rewrite length_expand; nia). split; [by eexists|apply paged_nil].
Qed.

(** ** The slots of a tree *)

Definition node_slots (n : Shape) : list Z := slot_list sh_value n.
Definition slots (A : Abs) : list Z := cat sh_value (a_ns A).
Definition pages_ok (ps : nat) (A : Abs) : Prop :=
  forall i n, a_ns A !! i = Some n -> paged (Z.of_nat ps) (node_slots n).

Lemma slots_split ps eagle A p pn c cn ck rest_ck k v :
  split_pre ps eagle A p pn c cn ck rest_ck k v -> slots (split_abs A p pn c cn ck rest_ck k v) ≡ₚ slots A.
Proof.
  intros Hsp. pose proof Hsp as [HA Hc Hr Hpar Hp _ _ Hv _ _ _ _ _].
  pose proof (it_fresh HA _ _ Hc). pose proof (it_fresh HA _ _ Hp).
  assert (a_ns A !! a_ctr A = None) as Hid.
  { destruct (a_ns A !! a_ctr A) eqn:E; [|done]. pose proof (it_fresh HA _ _ E). lia. }
  pose proof (node_parent_ne ps eagle A c cn p HA Hc Hpar) as Hpc.
  unfold slots, split_abs. cbn [a_ns].
  rewrite (cat_update_id _ _ p pn) by (rewrite ?lookup_insert_ne by lia; done).
  rewrite (cat_delete _ (<[c := _]> _) c) by apply lookup_insert_eq.
  rewrite delete_insert_eq, delete_insert_ne by lia. rewrite cat_insert by (rewrite lookup_delete_ne by lia; done).
  rewrite (cat_delete _ (a_ns A) c cn) by done. rewrite (assoc_L (++)). apply Permutation_app_tail.
  unfold slot_list. simpl. rewrite Hv. simpl. rewrite (comm (++)). by rewrite take_drop.
Qed.

Lemma pages_split ps eagle A p pn c cn ck rest_ck k v :
  split_pre ps eagle A p pn c cn ck rest_ck k v -> pages_ok ps A -> pages_ok ps (split_abs A p pn c cn ck rest_ck k v).
Proof.
  intros Hsp HP. pose proof Hsp as [HA Hc Hr Hpar Hp _ _ Hv _ _ Hal _ Hps].
  pose proof (HP c cn Hc) as Hpc. unfold node_slots, slot_list in Hpc. rewrite Hv in Hpc.
  destruct (paged_split ps k v Hps Hal Hpc) as [H1 H2].
  intros i n. unfold split_abs. cbn [a_ns]. rewrite !lookup_insert_Some.
  intros [[<- <-]|[_ [[<- <-]|[_ [[<- <-]|[_ Hi]]]]]]; [exact (HP p pn Hp)|exact H2|exact H1|exact (HP i n Hi)].
Qed.

Lemma slots_add ps eagle A node nn ck key v :
  add_pre ps eagle A node nn ck key v -> slots (add_abs A node nn ck key v) ≡ₚ slots A ++ v.
Proof.
  intros Had. pose proof Had as [HA Hn _ _ _ _ _ _ _]. pose proof (it_fresh HA _ _ Hn).
  assert (a_ns A !! a_ctr A = None) as Hid.
  { destruct (a_ns A !! a_ctr A) eqn:E; [|done]. pose proof (it_fresh HA _ _ E). lia. }
  unfold slots, add_abs. cbn [a_ns]. rewrite (cat_update_id _ _ node nn) by (rewrite ?lookup_insert_ne by lia; done).
  rewrite cat_insert by done. by rewrite (comm (++)).
Qed.

Lemma pages_add ps eagle A node nn ck key v :
  add_pre ps eagle A node nn ck key v -> paged (Z.of_nat ps) v -> pages_ok ps A -> pages_ok ps (add_abs A node nn ck key v).
Proof.
  intros Had Hv HP. pose proof Had as [HA Hn _ _ _ _ _ _ _]. intros i n. unfold add_abs. cbn [a_ns].
  rewrite !lookup_insert_Some. intros [[<- <-]|[_ [[<- <-]|[_ Hi]]]]; [exact (HP node nn Hn)|exact Hv|exact (HP i n Hi)].
Qed.
