(* ===== verification/RadixWalk.v ===== *)
(** * Walking down the radix tree

    The common part of matching and insertion: a descent along the pages of a key that stops
    at a missing child, at the end of the key, or inside a node, which is then split.
    [walked] says what such a descent achieves; the lemmas here build it step by step on the
    abstract state. *)

From stdpp Require Import base tactics list gmap strings.
From Stdlib Require Import ZArith Lia.
From S2P Require Import Prelude RadixKey TreeNode RadixInv RadixPaths RadixSlots.

#[local] Open Scope nat_scope.

(** The tree may have been refined by splits: same contents, same accounting. *)
Record extends (A A' : Abs) : Prop := mkExtends {
  ex_root : a_root A' = a_root A;
  ex_ev : a_ev A' = a_ev A;
  ex_pr : a_pr A' = a_pr A;
  ex_path : forall ek i us vs j, path A ek i us vs j -> path A' ek i us vs j;
  ex_cached : forall ek i us vs, is_Some (a_ns A !! i) ->
                cached_from A' ek i us vs -> cached_from A ek i us vs }.

Lemma extends_refl A : extends A A.
Proof. by constructor. Qed.

Lemma extends_some A A' i : extends A A' -> is_Some (a_ns A !! i) -> is_Some (a_ns A' !! i).
Proof.
  intros HE [n Hn]. eapply (path_start A' None i [] [] i). apply (ex_path _ _ HE).
  by eapply path_nil.
Qed.

Lemma extends_trans A A1 A2 : extends A A1 -> extends A1 A2 -> extends A A2.
Proof.
  intros H1 H2. constructor.
  - by rewrite (ex_root _ _ H2), (ex_root _ _ H1).
  - by rewrite (ex_ev _ _ H2), (ex_ev _ _ H1).
  - by rewrite (ex_pr _ _ H2), (ex_pr _ _ H1).
  - intros. by apply (ex_path _ _ H2), (ex_path _ _ H1).
  - intros ek i us vs Hi Hc. apply (ex_cached _ _ H1); [done|].
    apply (ex_cached _ _ H2); [by eapply extends_some|done].
Qed.

(** Refinement does not change what is cached. *)
Lemma extends_cached A A' ek i us vs :
  extends A A' -> is_Some (a_ns A !! i) -> cached_from A' ek i us vs <-> cached_from A ek i us vs.
Proof.
  intros HE Hi. split; [by apply (ex_cached _ _ HE)|].
  intros [Hl (w & x & j & Hp)]. split; [done|]. exists w, x, j. by apply (ex_path _ _ HE).
Qed.

Lemma split_extends ps eagle A p pn c cn ck rest_ck k v :
  split_pre ps eagle A p pn c cn ck rest_ck k v -> extends A (split_abs A p pn c cn ck rest_ck k v).
Proof.
  intros Hsp. constructor; [done|done|done| |].
  - intros. by eapply split_path_fwd.
  - intros ek i us vs Hi. by eapply split_cached.
Qed.

Section walk.
Context (ps : nat) (eagle : bool) (Hps : 0 < ps).

(** A descent from [i] along [k] that matched [m] units, found [vs] and ended at [j]. *)
Record walked (hs : list nat) (A A' : Abs) (i : nat) (k : RadixKey) (m : nat) (vs : list Z) (j : nat) : Prop :=
  mkWalked {
  wk_inv : inv ps eagle hs A';
  wk_ext : extends A A';
  wk_longest : longest ps A i k m vs;
  wk_path : path A' (extra_key k) i (take m (units k)) vs j;
  wk_slots : slots A' ≡ₚ slots A;
  wk_pages : pages_ok ps A -> pages_ok ps A' }.

Lemma walked_empty hs A i n k :
  inv ps eagle hs A -> a_ns A !! i = Some n -> key_len k = 0 -> walked hs A A i k 0 [] i.
Proof.
  intros HI Hi Hk. constructor; [done|apply extends_refl|by eapply longest_empty|by eapply path_nil|done|done].
Qed.

Lemma walked_stop hs A i n k ck :
  inv ps eagle hs A -> ps <= key_len k -> is_bigram k = eagle -> a_ns A !! i = Some n ->
  child_key ps k = Ret ck -> sh_children n !! ck = None -> walked hs A A i k 0 [] i.
Proof.
  intros HI Hk Hb Hi Hck Hno. constructor; [done|apply extends_refl| |by eapply path_nil|done|done].
  eapply longest_stop; [done|apply HI|done|done|done|done|done].
Qed.

Section step.
Context (hs : list nat) (A : Abs) (HI : inv ps eagle hs A).
Context (i c : nat) (n cn : Shape) (k : RadixKey) (ck : ChildKey) (v : list Z).
Context (Hk : ps <= key_len k) (Hka : aligned ps (key_len k)) (Hb : is_bigram k = eagle).
Context (Hi : a_ns A !! i = Some n) (Hck : child_key ps k = Ret ck).
Context (Hch : sh_children n !! ck = Some c) (Hcn : a_ns A !! c = Some cn) (Hv : sh_value cn = Some v).
Local Abbreviation L := (plen ps cn k).

Lemma walked_full A' m vs j :
  L = key_len (sh_key cn) -> walked hs A A' c (key_drop L k) m vs j -> walked hs A A' i k (L + m) (v ++ vs) j.
Proof.
  intros HL [W1 W2 W3 W4 W5 W6]. pose proof (inv_t _ _ _ _ HI) as HA.
  destruct (step_node ps eagle Hps A HA i c n cn k ck v Hk Hb Hi Hck Hch Hcn Hv) as (Hok & He & Hlen).
  destruct (plen_bounds ps eagle Hps A HA i c n cn k ck v Hk Hb Hi Hck Hch Hcn Hv) as (H1 & H2 & H3 & H4 & H5).
  constructor; [done|done|by eapply longest_full| |done|done].
  rewrite <-take_take_drop, <-H5. rewrite (take_ge (units (sh_key cn))) by (rewrite length_units; lia).
  autorewrite with keydb in W4. eapply path_app; [|exact W4].
  apply (ex_path _ _ W2). by eapply path_one.
Qed.

(** The state after splitting [c] where the match ends. *)
Lemma walked_partial :
  L < key_len (sh_key cn) ->
  exists rest_ck, split_pre ps eagle A i n c cn ck rest_ck L v /\
    walked hs A (split_abs A i n c cn ck rest_ck L v) i k L (take L v) (a_ctr A).
Proof.
  intros HL. pose proof (inv_t _ _ _ _ HI) as HA.
  destruct (step_node ps eagle Hps A HA i c n cn k ck v Hk Hb Hi Hck Hch Hcn Hv) as (Hok & He & Hlen).
  destruct (plen_bounds ps eagle Hps A HA i c n cn k ck v Hk Hb Hi Hck Hch Hcn Hv) as (H1 & H2 & H3 & H4 & H5).
  destruct (child_key_total ps (key_drop L (sh_key cn)) Hps) as [pk Hpk].
  { autorewrite with keydb. apply aligned_pos_le; [done| |lia]. apply aligned_sub; [done|apply Hok|done]. }
  destruct (child_node _ _ A _ _ _ _ HA Hi Hch) as (cn' & E & _ & Hpar & Hck').
  assert (cn' = cn) as -> by congruence.
  eexists. assert (split_pre ps eagle A i n c cn ck (extra_key (key_drop L (sh_key cn)), pk) L v) as Hsp.
  { constructor; try done; [exact (child_ne_root ps eagle A i n ck c HA Hi Hch)|lia]. }
  split; [exact Hsp|]. constructor.
  - by eapply split_inv.
  - by eapply split_extends.
  - by eapply longest_partial.
  - rewrite <-H5. by eapply split_path_upper.
  - by eapply slots_split.
  - by eapply pages_split.
Qed.
End step.

(** Going on after the longest match finds nothing more. *)
Lemma walked_more hs A A1 A2 i k m vs j k' m' vs' j' :
  inv_tree ps eagle A -> walked hs A A1 i k m vs j -> walked hs A1 A2 j k' m' vs' j' ->
  units k' = drop m (units k) -> extra_key k' = extra_key k -> is_Some (a_ns A !! i) ->
  m' = 0 /\ vs' = [] /\ j' = j /\ walked hs A A2 i k m vs j.
Proof.
  intros HA [W1 W2 W3 W4 W5 W6] [V1 V2 V3 V4 V5 V6] Hu He Hi. rewrite He, Hu in V4.
  pose proof (ex_path _ _ V2 _ _ _ _ _ W4) as W4'.
  destruct V3 as [L1 L2 L3 L4]. rewrite <-length_units, Hu, length_drop, length_units in L2.
  assert (m' = 0) as ->.
  { destruct W3 as [M1 M2 M3 M4]. enough (m + m' <= m) by lia.
    apply (M4 _ (vs ++ vs')); [by apply aligned_add|lia|].
    pose proof (path_app _ _ _ _ _ _ _ _ _ W4' V4) as Hall.
    apply (ex_cached _ _ (extends_trans _ _ _ W2 V2)); [done|]. rewrite <-take_take_drop.
    split; [by eapply (path_length ps eagle Hps A2); [apply V1|]|].
    exists [], [], j'. by rewrite !app_nil_r. }
  destruct (path_first _ _ _ _ _ _ V4) as [(_ & -> & <-)|(n & ck & c & cn & v & us1 & vs1 & E1 & E2 & E3 & _ & _ & _ & E4 & _)].
  - split_and!; [done..|]. constructor; [done|by eapply extends_trans|done|done|by rewrite V5|auto].
  - exfalso. destruct (child_node _ _ A2 _ _ _ _ (inv_t _ _ _ _ V1) E1 E2) as (cn' & E & Hok & _).
    assert (cn' = cn) as -> by congruence. pose proof (nk_pos Hok).
    apply (f_equal length) in E4. rewrite length_app, length_units in E4. simpl in E4. lia.
Qed.
End walk.
