(* ===== verification/RadixProofs.v ===== *)
(** * Correctness of the radix cache

    The methods of [RadixTree], run on states that satisfy the invariant of [RadixInv]: they
    return normally, keep the invariant, and do what their abstract counterparts do. *)

From stdpp Require Import base tactics list gmap strings.
From Stdlib Require Import ZArith Lia.
From S2P Require Import Prelude PyStr RadixKey TreeNode EvictPolicy Allocator AllocatorProofs KVEvents.
From S2P Require Import RadixTree RadixInv RadixPaths RadixSlots RadixWalk.

(** Run the first computation of a sequence. *)
Ltac py_step H := rewrite (py_bind_Ret _ _ _ _ _ H).

Section proofs.
Context {T : Type} `{!KVAllocator T} {H : Type} `{!HeapQ H}.
Context (cfg : Config) (now : nat -> Z) (sha256 : list Z -> string).
Local Abbreviation ps := (cfg_page_size cfg).
Local Abbreviation eagle := (is_eagle cfg).
Implicit Types s : Cache T.

Definition abs (s : Cache T) : Abs :=
  mkAbs (shape <$> nodes s) (root_node s) (counter s) (evictable_size_ s) (protected_size_ s)
    (evictable_leaves s).

(** The KV pool and the request table are not touched. *)
Definition frame (s s' : Cache T) : Prop :=
  kv_pool s' = kv_pool s /\ req_to_token s' = req_to_token s.

Lemma frame_refl s : frame s s.
Proof. done. Qed.
Lemma frame_trans s s1 s2 : frame s s1 -> frame s1 s2 -> frame s s2.
Proof. intros [H1 H2] [H3 H4]. split; congruence. Qed.

(** Compose facts about what is not touched. *)
Ltac frames := unfold frame in *; destruct_and?; split; congruence.

Lemma abs_lookup s i n : a_ns (abs s) !! i = Some n <-> exists m, nodes s !! i = Some m /\ shape m = n.
Proof. simpl. rewrite lookup_fmap_Some. split; intros (m & ? & ?); by exists m. Qed.

Lemma abs_lookup_1 s i m : nodes s !! i = Some m -> a_ns (abs s) !! i = Some (shape m).
Proof. intros Hm. apply abs_lookup. eauto. Qed.

(** ** Node accesses *)

Lemma bind_lift {A B} (a : A) (f : A -> PyM (Cache T) B) s : (py_lift (Ret a) ≫= f) s = f a s.
Proof. done. Qed.
Lemma bind_some {A B} e (a : A) (f : A -> PyM (Cache T) B) s : (of_option e (Some a) ≫= f) s = f a s.
Proof. done. Qed.
Lemma bind_ret {A B} (a : A) (f : A -> PyM (Cache T) B) s : (mret a ≫= f) s = f a s.
Proof. done. Qed.
Lemma bind_get {B} (f : Cache T -> PyM (Cache T) B) s : (py_get ≫= f) s = f s s.
Proof. done. Qed.
Lemma bind_modify {B} g (f : unit -> PyM (Cache T) B) s : (py_modify g ≫= f) s = f tt (g s).
Proof. done. Qed.

Lemma get_node_ok s i m : nodes s !! i = Some m -> get_node i s = (Ret m, s).
Proof. intros Hm. unfold get_node. by rewrite Hm. Qed.

Lemma put_node_ok s i m :
  exists s', put_node i m s = (Ret tt, s') /\
    abs s' = mkAbs (<[i := shape m]> (a_ns (abs s))) (a_root (abs s)) (a_ctr (abs s)) (a_ev (abs s))
               (a_pr (abs s)) (a_lv (abs s)) /\
    nodes s' = <[i := m]> (nodes s) /\ frame s s'.
Proof. eexists. split; [done|]. split_and!; try done. unfold abs. simpl. by rewrite fmap_insert. Qed.

Lemma upd_node_ok s i f m :
  nodes s !! i = Some m -> upd_node i f s = put_node i (f m) s.
Proof. intros Hm. unfold upd_node. by py_step (get_node_ok s i m Hm). Qed.

(** Updates of access times, priorities, hit counts and hashes do not show. *)
Lemma upd_node_quiet s i f m :
  nodes s !! i = Some m -> (forall n, shape (f n) = shape n) ->
  exists s', upd_node i f s = (Ret tt, s') /\ abs s' = abs s /\ frame s s' /\
    nodes s' = <[i := f m]> (nodes s).
Proof.
  intros Hm Hf. rewrite (upd_node_ok s i f m Hm).
  destruct (put_node_ok s i (f m)) as (s' & E & Ha & Hn & Hfr).
  exists s'. split_and!; try done. rewrite Ha, Hf. unfold abs. simpl.
  rewrite insert_id; [done|]. rewrite lookup_fmap, Hm. done.
Qed.

Lemma upd_node_quiet_abs s i f n :
  a_ns (abs s) !! i = Some n -> (forall n, shape (f n) = shape n) ->
  exists s', upd_node i f s = (Ret tt, s') /\ abs s' = abs s /\ frame s s'.
Proof.
  intros (m & Hm & _)%abs_lookup Hf. destruct (upd_node_quiet s i f m Hm Hf) as (s' & ? & ? & ? & _).
  by exists s'.
Qed.

(** A clock reading or a fresh identifier. *)
Lemma monotonic_ok s : exists t s', monotonic now s = (Ret t, s') /\ abs s' = abs s /\ frame s s' /\
  nodes s' = nodes s.
Proof. by do 2 eexists. Qed.

Definition bump (A : Abs) : Abs :=
  mkAbs (a_ns A) (a_root A) (S (a_ctr A)) (a_ev A) (a_pr A) (a_lv A).

Lemma fresh_id_ok s : exists s', fresh_id s = (Ret (counter s), s') /\ abs s' = bump (abs s) /\
  frame s s' /\ nodes s' = nodes s.
Proof. by eexists. Qed.

(** ** Leaf status *)

Lemma has_live_child_ok s i m :
  inv_tree ps eagle (abs s) -> nodes s !! i = Some m ->
  has_live_child (nodes s) m = negb (bool_decide (children m = ∅)).
Proof.
  intros HA Hm. unfold has_live_child. case_bool_decide as Hc; simpl.
  - by rewrite Hc, map_to_list_empty.
  - apply existsb_exists. apply map_choose in Hc as (ck & c & Hck).
    exists c. split.
    + apply list_elem_of_In, list_elem_of_fmap. exists (ck, c). split; [done|].
      by apply elem_of_map_to_list.
    + destruct (child_node _ _ (abs s) i (shape m) ck c HA (abs_lookup_1 _ _ _ Hm) Hck)
        as (cn & Hcn & Hok & _).
      apply abs_lookup in Hcn as (cm & -> & <-).
      destruct (nk_value Hok) as (v & Hv & _). unfold evicted. simpl in Hv. by rewrite Hv.
Qed.

Lemma update_leaf_status_ok s i m :
  inv_tree ps eagle (abs s) -> nodes s !! i = Some m ->
  exists s', _update_leaf_status i s = (Ret tt, s') /\
    abs s' = mkAbs (a_ns (abs s)) (a_root (abs s)) (a_ctr (abs s)) (a_ev (abs s)) (a_pr (abs s))
               (leaf_set (a_lv (abs s)) i (shape m)) /\
    nodes s' = nodes s /\ frame s s'.
Proof.
  intros HA Hm. unfold _update_leaf_status. py_step (get_node_ok s i m Hm).
  rewrite (py_bind_Ret py_get _ s s s eq_refl).
  assert (evicted m = false) as ->.
  { unfold evicted. destruct (decide (i = root_node s)) as [->|Hne].
    - destruct (it_root HA) as (r & Hr & _ & Hv & _). apply abs_lookup in Hr as (m' & E & <-).
      simpl in E. assert (m' = m) as -> by congruence. simpl in Hv. by rewrite Hv.
    - destruct (nk_value (it_node HA _ _ (abs_lookup_1 _ _ _ Hm) Hne)) as (v & Hv & _).
      simpl in Hv. by rewrite Hv. }
  rewrite (has_live_child_ok s i m HA Hm). simpl. unfold leaf_set. simpl sh_lock. simpl sh_children.
  destruct ((0 <? lock_ref m) || negb (bool_decide (children m = ∅))); by eexists.
Qed.

(** ** Splitting *)

Lemma split_node_ok' s p pn c cn ck rest_ck k v :
  split_pre ps eagle (abs s) p pn c cn ck rest_ck k v ->
  exists s', _split_node cfg now c k s = (Ret (counter s), s') /\
    abs s' = split_abs (abs s) p pn c cn ck rest_ck k v /\ frame s s'.
Proof.
  intros Hsp. pose proof Hsp as [HA Hc Hr Hp Hpn Hck Hin Hv Hlen Hk Hal Hrest Hps].
  destruct (split_ids Hsp) as (H1 & H2 & H3 & H4).
  apply abs_lookup in Hc as (cm & Hcm & <-). apply abs_lookup in Hpn as (pm & Hpm & <-).
  simpl in Hp, Hck, Hv, Hlen, Hk, Hrest, Hin.
  unfold _split_node. py_step (get_node_ok s c cm Hcm).
  destruct (monotonic_ok s) as (ta & s1 & E1 & A1 & F1 & N1). py_step E1.
  destruct (monotonic_ok s1) as (tc & s2 & E2 & A2 & F2 & N2). py_step E2.
  destruct (fresh_id_ok s2) as (s3 & E3 & A3 & F3 & N3). py_step E3.
  assert (counter s2 = counter s) as Ectr by (change (a_ctr (abs s2) = a_ctr (abs s)); by rewrite A2, A1).
  rewrite Ectr in *. rewrite Hrest, Hv, Hp, Hck.
  rewrite bind_lift, !bind_some, bind_lift.
  destruct (put_node_ok s3 (counter s) (new_TreeNode ta tc (priority cm) {[rest_ck := c]} (Some p)
    (key_take k (key cm)) (Some (take k v)) (lock_ref cm) (hit_count cm)
    (split_node_hash_value (hash_value cm) k ps).1)) as (s4 & E4 & A4 & N4 & F4). py_step E4.
  destruct (put_node_ok s4 c (set_split (counter s) (key_drop k (key cm)) (Some (drop k v))
    (split_node_hash_value (hash_value cm) k ps).2 cm)) as (s5 & E5 & A5 & N5 & F5). py_step E5.
  assert (nodes s5 !! p = Some pm) as Hpm5.
  { rewrite N5, N4, N3, N2, N1. simpl in H1, H2. by rewrite !lookup_insert_ne. }
  destruct (put_node_ok s5 p (set_children (<[ck := counter s]> (children pm)) pm))
    as (s6 & E6 & A6 & N6 & F6).
  rewrite <-(upd_node_ok s5 p (fun p => set_children (<[ck := counter s]> (children p)) p) pm Hpm5) in E6.
  py_step E6.
  exists s6. split; [done|]. split; [|frames].
  rewrite A6, A5, A4, A3, A2, A1. done.
Qed.

(** ** Matching *)

Context (Hps : (0 < ps)%nat).

Lemma next_child_key_ok k ck s :
  aligned ps (key_len k) ->
  exists ck', next_child_key cfg k ck s = (Ret ck', s) /\
    ((0 < key_len k)%nat -> child_key ps k = Ret ck').
Proof.
  intros Hal. unfold next_child_key. destruct (Nat.ltb_spec 0 (key_len k)) as [Hlt|].
  - destruct (child_key_total ps k Hps) as [pk Hpk]; [by apply aligned_pos_le|].
    eexists. unfold py_lift. rewrite Hpk. done.
  - exists ck. split; [done|]. lia.
Qed.

(** The node a child key leads to. *)
Lemma found_child hs s node n ck c :
  inv ps eagle hs (abs s) -> nodes s !! node = Some n -> children n !! ck = Some c ->
  exists cm v, nodes s !! c = Some cm /\ value cm = Some v.
Proof.
  intros HI Hn Hch.
  destruct (child_node _ _ (abs s) node (shape n) ck c (inv_t _ _ _ _ HI) (abs_lookup_1 _ _ _ Hn) Hch)
    as (cn & Hcn & Hok & _).
  apply abs_lookup in Hcn as (cm & Hcm & <-). destruct (nk_value Hok) as (v & Hv & _). eauto.
Qed.

Lemma match_loop_ok hs fuel : forall s t node n k ck acc,
  inv ps eagle hs (abs s) -> a_ns (abs s) !! node = Some n -> is_bigram k = eagle ->
  aligned ps (key_len k) -> (key_len k < fuel)%nat ->
  ((0 < key_len k)%nat -> child_key ps k = Ret ck) ->
  exists vals j s' m,
    match_loop cfg now fuel t node k ck acc s = (Ret (acc ++ (Some <$> vals), j), s') /\ frame s s' /\
    walked ps eagle hs (abs s) (abs s') node k m (concat vals) j.
Proof.
  induction fuel as [|fuel IH]; intros s t node n k ck acc HI Hn Hb Hal Hf Hck; [lia|].
  cbn [match_loop]. destruct (Nat.ltb_spec 0 (key_len k)) as [Hpos|Hz].
  2: { exists [], node, s, 0%nat. rewrite app_nil_r. split_and!; try done.
       eapply walked_empty; [done|done|done|lia]. }
  specialize (Hck Hpos). assert (ps <= key_len k)%nat as Hpk by (by apply aligned_pos_le).
  apply abs_lookup in Hn as (nm & Hnm & <-). py_step (get_node_ok s node nm Hnm).
  destruct (children nm !! ck) as [c|] eqn:Hch.
  2: { exists [], node, s, 0%nat. rewrite app_nil_r. split_and!; try done.
       eapply walked_stop; [done|done|done|done|by apply abs_lookup_1|done|done]. }
  destruct (found_child hs s node nm ck c HI Hnm Hch) as (cm & v & Hcm & Hv).
  destruct (upd_node_quiet s c (set_last_access t) cm Hcm (shape_set_last_access t))
    as (s1 & E1 & A1 & F1 & N1). py_step E1.
  assert (nodes s1 !! c = Some (set_last_access t cm)) as Hcm1 by (rewrite N1; apply lookup_insert_eq).
  py_step (get_node_ok s1 c _ Hcm1).
  pose proof (abs_lookup_1 _ _ _ Hnm) as Han. pose proof (abs_lookup_1 _ _ _ Hcm) as Hac.
  pose proof (step_match ps eagle Hps (abs s) (inv_t _ _ _ _ HI) node c (shape nm) (shape cm) k ck v
    Hpk Hal Hb Han Hck Hch Hac Hv) as Hmatch.
  pose proof (plen_bounds ps eagle Hps (abs s) (inv_t _ _ _ _ HI) node c (shape nm) (shape cm) k ck v
    Hpk Hb Han Hck Hch Hac Hv) as (P1 & P2 & P3 & P4 & P5).
  simpl sh_key in *. simpl key. rewrite Hmatch, bind_lift.
  set (L := plen ps (shape cm) k) in *.
  destruct (Nat.ltb_spec L (key_len (key cm))) as [Hlt|Hge].
  - destruct (walked_partial ps eagle Hps hs (abs s) HI node c (shape nm) (shape cm) k ck v
      Hpk Hb Han Hck Hch Hac Hv Hlt) as (rest & Hsp & Hw). fold L in Hsp, Hw.
    rewrite <-A1 in Hsp, Hw.
    destruct (split_node_ok' s1 _ _ _ _ _ _ _ _ Hsp) as (s2 & E2 & A2 & F2). py_step E2.
    assert (exists nn, nodes s2 !! counter s1 = Some nn /\ value nn = Some (take L v)) as (nn & Hnn & Hvn).
    { pose proof (split_lookup_id Hsp) as Hid. rewrite <-A2 in Hid.
      apply abs_lookup in Hid as (nn & Hnn & Hs). exists nn. split; [done|].
      change (value nn) with (sh_value (shape nn)). by rewrite Hs. }
    py_step (get_node_ok s2 _ nn Hnn). rewrite Hvn.
    exists [take L v], (counter s1), s2, L. split_and!; [done|frames|].
    rewrite A2, <-A1. cbn [concat]. rewrite app_nil_r. exact Hw.
  - assert (L = key_len (key cm)) as HL by lia.
    destruct (next_child_key_ok (key_drop L k) ck s1) as (ck' & E2 & Hck').
    { autorewrite with keydb. by apply aligned_sub. }
    py_step E2. simpl value. rewrite Hv. rewrite <-A1 in HI, Hac.
    destruct (IH s1 t c (shape cm) (key_drop L k) ck' (acc ++ [Some v])) as (vals & j & s2 & m & E3 & F3 & Hw);
      [done|done|by autorewrite with keydb|autorewrite with keydb; by apply aligned_sub|
       autorewrite with keydb; lia|done|].
    exists (v :: vals), j, s2, (L + m)%nat. rewrite E3. split_and!.
    + by rewrite <-(assoc_L (++)).
    + frames.
    + rewrite A1 in *. simpl concat. eapply walked_full; done.
Qed.

Lemma cat_values_ok vals : cat_values (Some <$> vals) = Ret (concat vals).
Proof.
  induction vals as [|v vals IH]; [done|]. cbn [fmap list_fmap cat_values].
  change (list_fmap _ _ Some vals) with (Some <$> vals). by rewrite IH.
Qed.

(** The key a lookup or insertion really uses. *)
Definition lookup_key (k : RadixKey) : RadixKey :=
  page_aligned ps (maybe_to_bigram_view (V := Z) eagle k None).1.

Lemma lookup_key_ok k :
  is_bigram k = false \/ eagle = true ->
  is_bigram (lookup_key k) = eagle /\ aligned ps (key_len (lookup_key k)) /\
  extra_key (lookup_key k) = extra_key k.
Proof.
  intros Hk. unfold lookup_key. split_and!.
  - rewrite (proj2 (proj2 (page_aligned_spec ps _ Hps))). unfold maybe_to_bigram_view.
    destruct eagle, (is_bigram k) eqn:E; simpl; try done. by destruct Hk.
  - by apply aligned_page_aligned.
  - rewrite (proj1 (proj2 (page_aligned_spec ps _ Hps))). unfold maybe_to_bigram_view.
    by destruct (eagle && negb (is_bigram k)).
Qed.

(** What [match_prefix] does on a state that satisfies the invariant. *)
Lemma match_prefix_ok hs s k :
  inv ps eagle hs (abs s) -> disable cfg = false -> is_bigram k = false \/ eagle = true ->
  exists r s' m, match_prefix cfg now k s = (Ret r, s') /\ frame s s' /\
    walked ps eagle hs (abs s) (abs s') (root_node s) (lookup_key k) m (device_indices r)
      (last_device_node r) /\
    last_host_node r = last_device_node r /\ best_match_node r = last_device_node r.
Proof.
  intros HI Hd Hk. destruct (lookup_key_ok k Hk) as (Hb & Hal & He).
  destruct (it_root (inv_t _ _ _ _ HI)) as (r0 & Hr0 & _).
  assert (key_len (lookup_key k) = 0%nat ->
    exists r s' m, empty_match_result s = (Ret r, s') /\ frame s s' /\
    walked ps eagle hs (abs s) (abs s') (root_node s) (lookup_key k) m (device_indices r)
      (last_device_node r) /\ last_host_node r = last_device_node r /\
    best_match_node r = last_device_node r) as Hempty.
  { intros Hz. eexists _, s, 0%nat. split_and!; [done|done| |done|done]. by eapply walked_empty. }
  unfold match_prefix. cbv zeta. rewrite Hd. fold (lookup_key k). simpl orb.
  destruct (Nat.eqb_spec (key_len (maybe_to_bigram_view (V := Z) eagle k None).1) 0) as [Hz|Hnz].
  { apply Hempty. unfold lookup_key. rewrite page_aligned_len by done. rewrite Hz.
    by rewrite Nat.Div0.div_0_l. }
  destruct (Nat.eqb_spec (key_len (lookup_key k)) 0) as [Hz|Hnz']; [by apply Hempty|].
  cbn [orb]. rewrite bind_get.
  destruct (monotonic_ok s) as (t & s1 & E1 & A1 & F1 & N1).
  destruct (upd_node_quiet_abs s1 (root_node s) (set_last_access t) r0) as (s2 & E2 & A2 & F2);
    [by rewrite A1|apply shape_set_last_access|].
  destruct (child_key_total ps (lookup_key k) Hps) as [pk Hpk]; [apply aligned_pos_le; [done|done|lia]|].
  destruct (match_loop_ok hs (S (key_len (lookup_key k))) s2 t (root_node s) r0 (lookup_key k)
    (extra_key (lookup_key k), pk) []) as (vals & j & s3 & m & E3 & F3 & Hw);
    [by rewrite A2, A1|by rewrite A2, A1|done|done|lia|done|].
  rewrite A2, A1 in Hw.
  assert (_match_prefix_helper cfg now (root_node s) (lookup_key k) s
          = (Ret ([] ++ (Some <$> vals), j), s3)) as E4.
  { unfold _match_prefix_helper. py_step E1. py_step E2. by rewrite Hpk, bind_lift. }
  eexists _, s3, m. split_and!.
  - py_step E4. cbn [fst app]. by rewrite cat_values_ok, bind_lift.
  - frames.
  - done.
  - done.
  - done.
Qed.

(** ** Insertion *)

(** Raising the priority of a node and counting a hit do not show. *)
Lemma touch_ok s i n p chunked :
  a_ns (abs s) !! i = Some n ->
  exists s1 s2, raise_priority i p s = (Ret tt, s1) /\ _inc_hit_count i chunked s1 = (Ret tt, s2) /\
    abs s2 = abs s /\ frame s s2.
Proof.
  intros Hn. destruct (upd_node_quiet_abs s i (fun n => set_priority (Z.max (priority n) p) n) n Hn)
    as (s1 & E1 & A1 & F1); [done|].
  exists s1. rewrite <-A1 in Hn. unfold _inc_hit_count. destruct chunked.
  - exists s1. split_and!; done.
  - destruct (upd_node_quiet_abs s1 i (fun n => set_hit_count (hit_count n + 1) n) n Hn)
      as (s2 & E2 & A2 & F2); [done|].
    exists s2. split_and!; [done|done|by rewrite A2|frames].
Qed.

(** What is left of the key [k] and value [v] after [m] units. *)
Record remains (k : RadixKey) (v : list Z) (m : nat) (k' : RadixKey) (v' : list Z) : Prop := mkRemains {
  rm_units : units k' = drop m (units k);
  rm_extra : extra_key k' = extra_key k;
  rm_bigram : is_bigram k' = is_bigram k;
  rm_value : v' = drop m v }.

Lemma remains_0 k v : remains k v 0 k v.
Proof. constructor; by rewrite ?drop_0. Qed.

Lemma remains_drop k v m n k' v' :
  remains (key_drop m k) (drop m v) n k' v' -> remains k v (m + n) k' v'.
Proof.
  intros [R1 R2 R3 R4]. autorewrite with keydb in R1, R2, R3. rewrite drop_drop in R1.
  rewrite drop_drop in R4.
  by constructor.
Qed.

(** The loop stopped because nothing is left or no child continues the key. *)
Definition stopped (A : Abs) (node : nat) (k : RadixKey) (ck : ChildKey) : Prop :=
  (0 < key_len k)%nat -> child_key ps k = Ret ck /\
    exists n, a_ns A !! node = Some n /\ sh_children n !! ck = None.

Lemma insert_loop_ok hs fuel : forall s t prio chunked node n k v ck total,
  inv ps eagle hs (abs s) -> a_ns (abs s) !! node = Some n -> is_bigram k = eagle ->
  aligned ps (key_len k) -> (key_len k < fuel)%nat ->
  ((0 < key_len k)%nat -> child_key ps k = Ret ck) ->
  exists node' k' v' ck' m vs s',
    insert_loop cfg now fuel t prio chunked node k v ck total s
    = (Ret (node', k', v', ck', total + m)%nat, s') /\ frame s s' /\
    walked ps eagle hs (abs s) (abs s') node k m vs node' /\
    remains k v m k' v' /\ stopped (abs s') node' k' ck'.
Proof.
  induction fuel as [|fuel IH]; intros s t prio chunked node n k v0 ck total HI Hn Hb Hal Hf Hck; [lia|].
  cbn [insert_loop]. destruct (Nat.ltb_spec 0 (key_len k)) as [Hpos|Hz].
  2: { exists node, k, v0, ck, 0%nat, [], s. rewrite Nat.add_0_r. split_and!;
       [done|done|eapply walked_empty; [done|done|done|lia]|apply remains_0|intros ?; lia]. }
  specialize (Hck Hpos). assert (ps <= key_len k)%nat as Hpk by (by apply aligned_pos_le).
  apply abs_lookup in Hn as (nm & Hnm & <-). py_step (get_node_ok s node nm Hnm).
  destruct (children nm !! ck) as [c|] eqn:Hch.
  2: { exists node, k, v0, ck, 0%nat, [], s. rewrite Nat.add_0_r. split_and!;
       [done|done|eapply walked_stop; [done|done|done|done|by apply abs_lookup_1|done|done]|
        apply remains_0|].
       intros _. split; [done|]. exists (shape nm). split; [by apply abs_lookup_1|done]. }
  destruct (found_child hs s node nm ck c HI Hnm Hch) as (cm & v & Hcm & Hv).
  destruct (upd_node_quiet s c (set_last_access t) cm Hcm (shape_set_last_access t))
    as (s1 & E1 & A1 & F1 & N1). py_step E1.
  assert (nodes s1 !! c = Some (set_last_access t cm)) as Hcm1 by (rewrite N1; apply lookup_insert_eq).
  py_step (get_node_ok s1 c _ Hcm1).
  pose proof (abs_lookup_1 _ _ _ Hnm) as Han. pose proof (abs_lookup_1 _ _ _ Hcm) as Hac.
  pose proof (step_match ps eagle Hps (abs s) (inv_t _ _ _ _ HI) node c (shape nm) (shape cm) k ck v
    Hpk Hal Hb Han Hck Hch Hac Hv) as Hmatch.
  pose proof (plen_bounds ps eagle Hps (abs s) (inv_t _ _ _ _ HI) node c (shape nm) (shape cm) k ck v
    Hpk Hb Han Hck Hch Hac Hv) as (P1 & P2 & P3 & P4 & P5).
  simpl sh_key in *. simpl key. rewrite Hmatch, bind_lift.
  set (L := plen ps (shape cm) k) in *.
  destruct (Nat.ltb_spec L (key_len (key cm))) as [Hlt|Hge].
  - destruct (walked_partial ps eagle Hps hs (abs s) HI node c (shape nm) (shape cm) k ck v
      Hpk Hb Han Hck Hch Hac Hv Hlt) as (rest & Hsp & Hw). fold L in Hsp, Hw.
    rewrite <-A1 in Hsp.
    destruct (split_node_ok' s1 _ _ _ _ _ _ _ _ Hsp) as (s2 & E2 & A2 & F2).
    pose proof (split_lookup_id Hsp) as Hid. rewrite <-A2 in Hid.
    destruct (touch_ok s2 (counter s1) _ prio chunked Hid) as (s3 & s4 & E3 & E4 & A4 & F4).
    erewrite py_bind_Ret; [|py_step E2; py_step E3; py_step E4; reflexivity].
    destruct (next_child_key_ok (key_drop L k) ck s4) as (ck' & E5 & Hck').
    { autorewrite with keydb. by apply aligned_sub. }
    py_step E5.
    assert (walked ps eagle hs (abs s) (abs s2) node k L (take L v) (counter s1)) as Hw1.
    { change (counter s1) with (a_ctr (abs s1)). rewrite A2, A1. exact Hw. }
    destruct (IH s4 t prio chunked (counter s1) (upper_half rest c node L v (shape cm)) (key_drop L k) (drop L v0) ck' (total + L)%nat)
      as (node' & k' & v' & ck'' & m & vs & s5 & E6 & F6 & Hw' & Hrem & Hstop);
      [rewrite A4; apply Hw1|by rewrite A4|by autorewrite with keydb|
       autorewrite with keydb; by apply aligned_sub|autorewrite with keydb; lia|done|].
    rewrite A4 in Hw'.
    destruct (walked_more ps eagle Hps hs (abs s) (abs s2) (abs s5) node k L (take L v) (counter s1)
      (key_drop L k) m vs node') as (-> & -> & -> & Hw2); try done;
      [apply HI|by autorewrite with keydb|by autorewrite with keydb|].
    apply remains_drop in Hrem. rewrite !Nat.add_0_r in *.
    exists (counter s1), k', v', ck'', L, (take L v), s5. split_and!; [done| |done|done|done].
    frames.
  - assert (L = key_len (key cm)) as HL by lia.
    rewrite <-A1 in Hac.
    destruct (touch_ok s1 c _ prio chunked Hac) as (s3 & s4 & E3 & E4 & A4 & F4).
    erewrite py_bind_Ret; [|py_step E3; py_step E4; reflexivity].
    destruct (next_child_key_ok (key_drop L k) ck s4) as (ck' & E5 & Hck').
    { autorewrite with keydb. by apply aligned_sub. }
    py_step E5.
    destruct (IH s4 t prio chunked c (shape cm) (key_drop L k) (drop L v0) ck' (total + L)%nat)
      as (node' & k' & v' & ck'' & m & vs & s5 & E6 & F6 & Hw' & Hrem & Hstop);
      [by rewrite A4, A1|by rewrite A4|by autorewrite with keydb|
       autorewrite with keydb; by apply aligned_sub|autorewrite with keydb; lia|done|].
    apply remains_drop in Hrem. rewrite A4, A1 in *. rewrite <-Nat.add_assoc in E6.
    exists node', k', v', ck'', (L + m)%nat, (v ++ vs), s5. split_and!; [done| | |done|done].
    + frames.
    + by eapply (walked_full ps eagle Hps hs (abs s) HI node c (shape nm) (shape cm)).
Qed.

Lemma inv_tree_ext A A' :
  inv_tree ps eagle A -> a_ns A' = a_ns A -> a_root A' = a_root A -> a_ctr A' = a_ctr A ->
  inv_tree ps eagle A'.
Proof.
  destruct A, A'. simpl. intros HA -> -> ->. destruct HA as [H1 H2 H3 H4 H5]. constructor; try done.
  intros i n Hi Hne. destruct (H3 i n Hi Hne). by constructor.
Qed.

Lemma fmap_shape_insert ns i m : shape <$> <[i := m]> ns = <[i := shape m]> (shape <$> ns : gmap nat Shape).
Proof. apply fmap_insert. Qed.

Context (Hevents : enable_kv_cache_events cfg = false).

Lemma add_leaf_ok s node nn ck k v prio chunked :
  add_pre ps eagle (abs s) node nn ck k v ->
  exists s', add_leaf cfg now sha256 node k v ck prio chunked s = (Ret tt, s') /\
    abs s' = add_abs (abs s) node nn ck k v /\ frame s s'.
Proof.
  intros Had. pose proof Had as [HA Hn Hfree Hck Hpos Hlen Hal Hbig _].
  destruct (add_ids Had) as (H1 & H2 & H3). pose proof (add_inv_tree Had) as HA'.
  apply abs_lookup in Hn as (nm & Hnm & <-). unfold add_leaf.
  destruct (monotonic_ok s) as (ta & s1 & E1 & A1 & F1 & N1). py_step E1.
  destruct (monotonic_ok s1) as (tc & s2 & E2 & A2 & F2 & N2). py_step E2.
  destruct (fresh_id_ok s2) as (s3 & E3 & A3 & F3 & N3). py_step E3.
  assert (counter s2 = counter s) as Ectr by (change (a_ctr (abs s2) = a_ctr (abs s)); by rewrite A2, A1).
  rewrite Ectr. simpl in H1.
  destruct (put_node_ok s3 (counter s) (new_TreeNode ta tc prio ∅ (Some node) k (Some v) 0 0 None))
    as (s4 & E4 & A4 & N4 & F4). py_step E4.
  assert (exists s5 m5, _inc_hit_count (counter s) chunked s4 = (Ret tt, s5) /\ abs s5 = abs s4 /\
    frame s4 s5 /\ nodes s5 = <[counter s := m5]> (nodes s4) /\ shape m5 = new_leaf node k v)
    as (s5 & m5 & E5 & A5 & F5 & N5 & Sh5).
  { unfold _inc_hit_count. destruct chunked.
    - exists s4. eexists. split_and!; [done|done|done| |].
      + symmetry. apply insert_id. rewrite N4. apply lookup_insert_eq.
      + done.
    - edestruct (upd_node_quiet s4 (counter s)) as (s5 & E5 & A5 & F5 & N5);
        [rewrite N4; apply lookup_insert_eq|intros; apply shape_set_hit_count|].
      exists s5. eexists. split_and!; [exact E5|done|done|exact N5|done]. }
  py_step E5.
  assert (nodes s5 !! node = Some nm) as Hnm5.
  { rewrite N5, N4, N3, N2, N1. by rewrite !lookup_insert_ne. }
  destruct (put_node_ok s5 node (set_children (<[ck := counter s]> (children nm)) nm))
    as (s6 & E6 & A6 & N6 & F6).
  rewrite <-(upd_node_ok s5 node (fun n => set_children (<[ck := counter s]> (children n)) n) nm Hnm5) in E6.
  py_step E6. rewrite bind_modify.
  set (s7 := set_sizes _ _ s6).
  assert (abs s7 = mkAbs (a_ns (add_abs (abs s) node (shape nm) ck k v)) (root_node s) (S (counter s))
    (evictable_size_ s + Z.of_nat (key_len k)) (protected_size_ s) (evictable_leaves s)) as A7.
  { change (abs s7) with (mkAbs (a_ns (abs s6)) (a_root (abs s6)) (a_ctr (abs s6))
      (a_ev (abs s6) + Z.of_nat (key_len k)) (a_pr (abs s6)) (a_lv (abs s6))).
    rewrite A6, A5, A4, A3, A2, A1. done. }
  assert (inv_tree ps eagle (abs s7)) as HA7 by (rewrite A7; by eapply inv_tree_ext).
  assert (nodes s7 !! node = Some (set_children (<[ck := counter s]> (children nm)) nm)) as Hn7
    by (simpl; rewrite N6; apply lookup_insert_eq).
  destruct (update_leaf_status_ok s7 node _ HA7 Hn7) as (s8 & E8 & A8 & N8 & F8). py_step E8.
  assert (inv_tree ps eagle (abs s8)) as HA8 by (rewrite A8; by eapply inv_tree_ext).
  assert (nodes s8 !! counter s = Some m5) as Hid8.
  { rewrite N8. simpl. rewrite N6, lookup_insert_ne by done. rewrite N5. apply lookup_insert_eq. }
  destruct (update_leaf_status_ok s8 (counter s) _ HA8 Hid8) as (s9 & E9 & A9 & N9 & F9). py_step E9.
  exists s9. split_and!.
  - unfold _record_store_event. by rewrite Hevents.
  - rewrite A9, A8, A7, Sh5. unfold add_abs. simpl. f_equal. unfold leaf_set at 1. simpl. f_equal.
    unfold leaf_set. simpl. rewrite bool_decide_eq_false_2; [by rewrite orb_true_r|].
    intros E. apply (f_equal (.!! ck)) in E. by rewrite lookup_insert_eq, lookup_empty in E.
  - assert (frame s6 s7) by done. clearbody s7. frames.
Qed.

(** The effect of inserting [k] with value [v]: [m] units were cached before, as [vs]. *)
Record inserted (hs : list nat) (A A' : Abs) (k : RadixKey) (v : list Z) (m : nat) (vs : list Z) : Prop :=
  mkInserted {
  is_inv : inv ps eagle hs A';
  is_longest : longest ps A (a_root A) k m vs;
  is_cached : forall us ws, cached A' (extra_key k) us ws <->
    cached A (extra_key k) us ws \/
    exists n, us = take n (units k) /\ ws = take n (vs ++ drop m v);
  is_other : forall ek us ws, ek <> extra_key k -> cached A' ek us ws <-> cached A ek us ws;
  is_root : a_root A' = a_root A;
  is_ev : a_ev A' = a_ev A + Z.of_nat (key_len k - m);
  is_pr : a_pr A' = a_pr A;
  is_path : forall ek i us ws j, path A ek i us ws j -> path A' ek i us ws j;
  is_slots : slots A' ≡ₚ slots A ++ drop m v;
  is_pages : pages_ok ps A -> paged (Z.of_nat ps) (drop m v) -> pages_ok ps A' }.

Lemma inserted_nothing hs A A' k v j vs :
  inv ps eagle hs A -> walked ps eagle hs A A' (a_root A) k (key_len k) vs j -> length v = key_len k ->
  inserted hs A A' k v (key_len k) vs.
Proof.
  intros HI [W1 W2 W3 W4 W5 W6] Hl. destruct (it_root (inv_t _ _ _ _ HI)) as (r & Hr & _).
  assert (forall ek us ws, cached A' ek us ws <-> cached A ek us ws) as Hc.
  { intros ek us ws. unfold cached. rewrite (ex_root _ _ W2). apply extends_cached; [done|by exists r]. }
  constructor; [done|done| | |apply W2| |apply W2|apply W2| |auto].
  - intros us ws. rewrite Hc. split; [by left|]. intros [|(n & -> & ->)]; [done|].
    rewrite drop_ge, app_nil_r by lia. apply cached_prefix.
    pose proof (lg_cached _ _ _ _ _ _ W3) as L. rewrite take_ge in L by (rewrite length_units; lia). done.
  - intros. apply Hc.
  - rewrite (ex_ev _ _ W2). lia.
  - by rewrite drop_ge, app_nil_r by lia.
Qed.

Lemma inserted_leaf hs A A1 k v m vs node nn ck k' v' :
  inv ps eagle hs A -> walked ps eagle hs A A1 (a_root A) k m vs node ->
  remains k v m k' v' -> length v = key_len k -> add_pre ps eagle A1 node nn ck k' v' ->
  inserted hs A (add_abs A1 node nn ck k' v') k v m vs.
Proof.
  intros HI [W1 W2 W3 W4 W5 W6] [R1 R2 R3 ->] Hl Had. destruct (it_root (inv_t _ _ _ _ HI)) as (r & Hr & _).
  assert (forall ek us ws, cached A1 ek us ws <-> cached A ek us ws) as Hc.
  { intros ek us ws. unfold cached. rewrite (ex_root _ _ W2). apply extends_cached; [done|by exists r]. }
  constructor.
  - by apply (add_inv Had).
  - done.
  - intros us ws. rewrite <-(ex_root _ _ W2) in W4.
    rewrite (add_cached _ _ _ _ _ _ _ _ _ Had (take m (units k)) vs) by done.
    rewrite Hc, R1, take_drop. done.
  - intros ek us ws Hne. rewrite (add_cached_other _ _ _ _ _ _ _ _ _ Had) by congruence. apply Hc.
  - apply (ex_root _ _ W2).
  - simpl. rewrite (ex_ev _ _ W2). rewrite <-(length_units k'), R1, length_drop, length_units. done.
  - apply (ex_pr _ _ W2).
  - intros. eapply add_path_fwd; [exact Had|]. by apply (ex_path _ _ W2).
  - by rewrite (slots_add _ _ _ _ _ _ _ _ Had), W5.
  - intros HP Hd. eapply pages_add; [done|done|auto].
Qed.

Lemma insert_helper_ok hs s k v prio chunked :
  inv ps eagle hs (abs s) -> is_bigram k = eagle -> aligned ps (key_len k) -> length v = key_len k ->
  exists m vs s', _insert_helper cfg now sha256 (root_node s) k v prio chunked s = (Ret m, s') /\
    frame s s' /\ inserted hs (abs s) (abs s') k v m vs.
Proof.
  intros HI Hb Hal Hlen. destruct (it_root (inv_t _ _ _ _ HI)) as (r & Hr & _).
  unfold _insert_helper. destruct (monotonic_ok s) as (t & s1 & E1 & A1 & F1 & _). py_step E1.
  destruct (upd_node_quiet_abs s1 (root_node s) (set_last_access t) r) as (s2 & E2 & A2 & F2);
    [by rewrite A1|done|]. py_step E2.
  destruct (upd_node_quiet_abs s2 (root_node s)
    (fun n => set_priority (Z.max (priority n) (default 0 prio)) n) r) as (s3 & E3 & A3 & F3);
    [by rewrite A2, A1|done|]. unfold raise_priority at 1. py_step E3. rewrite A2, A1 in A3.
  destruct (Nat.eqb_spec (key_len k) 0) as [Hz|Hnz].
  { exists 0%nat, [], s3. split_and!; [done|frames|]. rewrite <-Hz. apply (inserted_nothing hs _ _ k v (root_node s)); [done| |done].
    rewrite A3, Hz. by eapply walked_empty. }
  destruct (child_key_total ps k Hps) as [pk Hpk]; [apply aligned_pos_le; [done|done|lia]|].
  rewrite Hpk, bind_lift.
  destruct (insert_loop_ok hs (S (key_len k)) s3 t (default 0 prio) chunked (root_node s) r k v
    (extra_key k, pk) 0) as (node & k' & v' & ck & m & vs & s4 & E4 & F4 & Hw & Hrem & Hstop);
    [by rewrite A3|by rewrite A3|done|done|lia|done|].
  py_step E4. rewrite A3 in Hw. pose proof (wk_longest _ _ _ _ _ _ _ _ _ _ Hw) as [L1 L2 _ _].
  pose proof Hrem as [R1 R2 R3 R4].
  assert (key_len k' = key_len k - m)%nat as Hk' by (by rewrite <-!length_units, R1, length_drop).
  destruct (Nat.ltb_spec 0 (key_len k')) as [Hpos|Hz'].
  - destruct (Hstop Hpos) as (Hck & nn & Hnn & Hno).
    assert (add_pre ps eagle (abs s4) node nn ck k' v') as Had.
    { constructor; try done; [apply Hw|rewrite R4, length_drop; lia|rewrite Hk'; by apply aligned_sub|congruence]. }
    destruct (add_leaf_ok s4 node nn ck k' v' (default 0 prio) chunked Had) as (s5 & E5 & A5 & F5).
    erewrite py_bind_Ret; [|exact E5].
    exists m, vs, s5. split_and!; [done|frames|]. rewrite A5. by eapply inserted_leaf.
  - rewrite bind_ret. assert (m = key_len k) as -> by lia.
    exists (key_len k), vs, s4. split_and!; [done|frames|]. by eapply inserted_nothing.
Qed.

(** The key and value an insertion really uses. *)
Definition insert_value (params : InsertParams) : list Z :=
  match (maybe_to_bigram_view eagle (ip_key params) (ip_value params)).2 with
  | Some v => take (key_len (lookup_key (ip_key params))) v
  | None => take (key_len (lookup_key (ip_key params))) (token_ids (lookup_key (ip_key params)))
  end.

Lemma insert_ok hs s params :
  inv ps eagle hs (abs s) -> disable cfg = false ->
  is_bigram (ip_key params) = false \/ eagle = true ->
  length (insert_value params) = key_len (lookup_key (ip_key params)) ->
  exists m vs s', insert cfg now sha256 params s = (Ret m, s') /\ frame s s' /\
    inserted hs (abs s) (abs s') (lookup_key (ip_key params)) (insert_value params) m vs.
Proof.
  intros HI Hd Hk Hl. destruct (lookup_key_ok (ip_key params) Hk) as (Hb & Hal & He).
  unfold insert. rewrite Hd.
  assert ((maybe_to_bigram_view eagle (ip_key params) (ip_value params)).1
          = (maybe_to_bigram_view (V := Z) eagle (ip_key params) None).1) as E1.
  { unfold maybe_to_bigram_view. by destruct (eagle && negb (is_bigram (ip_key params))). }
  destruct (maybe_to_bigram_view eagle (ip_key params) (ip_value params)) as [k' v'] eqn:E.
  simpl in E1. rewrite E1. fold (lookup_key (ip_key params)). rewrite bind_get.
  assert ((match v' with Some v => take (key_len (lookup_key (ip_key params))) v
           | None => take (key_len (lookup_key (ip_key params))) (token_ids (lookup_key (ip_key params))) end)
          = insert_value params) as -> by (unfold insert_value; by rewrite E).
  by apply insert_helper_ok.
Qed.
End proofs.
