(* ===== verification/RadixLocks.v ===== *)
(** * Locking paths of the radix cache

    [inc_lock_ref] and [dec_lock_ref] walk from a node to the root.  While a walk is under
    way the lock counts owe one unit to the node it is about to visit; at the end the
    invariant holds for the handles with the node added or removed. *)

From stdpp Require Import base tactics list gmap strings.
From Stdlib Require Import ZArith Lia.
From S2P Require Import Prelude PyStr RadixKey TreeNode EvictPolicy Allocator AllocatorProofs KVEvents.
From S2P Require Import RadixTree RadixInv RadixPaths RadixSlots RadixWalk RadixProofs.

Lemma msum_agree {A} (f g : nat -> A -> Z) (m m' : gmap nat A) :
  (forall i x, m !! i = Some x -> exists y, m' !! i = Some y /\ f i x = g i y) ->
  (forall i y, m' !! i = Some y -> is_Some (m !! i)) -> msum f m = msum g m'.
Proof.
  revert m'. induction m as [|i x m Hi IH] using map_ind; intros m' H1 H2.
  - assert (m' = ∅) as ->; [|done]. apply map_empty. intros i. destruct (m' !! i) as [y|] eqn:E; [|done].
    destruct (H2 i y E) as [? Hx]. by rewrite lookup_empty in Hx.
  - destruct (H1 i x (lookup_insert_eq _ _ _)) as (y & Hy & Hf).
    rewrite msum_insert by done. rewrite (IH (delete i m')).
    + rewrite (msum_delete _ _ _ _ Hy). lia.
    + intros j z Hj. assert (j <> i) by congruence. rewrite lookup_delete_ne by done.
      apply H1. by rewrite lookup_insert_ne.
    + intros j z [Hne Hj]%lookup_delete_Some. destruct (H2 j z Hj) as [w Hw].
      rewrite lookup_insert_ne in Hw by done. by exists w.
Qed.

Section locks.
Context {T : Type} `{!KVAllocator T}.
Context (cfg : Config).
Local Abbreviation ps := (cfg_page_size cfg).
Local Abbreviation eagle := (is_eagle cfg).
Implicit Types s : Cache T.

(** The state between the size update and the other statements of an iteration. *)
Definition sized (s : Cache T) (i : nat) (m : TreeNode) (l : Z) : Cache T :=
  set_sizes (a_ev (lock_abs (abs s) i (shape m) l)) (a_pr (lock_abs (abs s) i (shape m) l)) s.

(** One iteration: lock count and leaf status, after the sizes. *)
Lemma lock_step_ok s i m (l : Z) :
  inv_tree ps eagle (abs s) -> nodes s !! i = Some m -> i <> root_node s -> 0 <= l ->
  exists s2 s3,
    upd_node i (fun n => set_lock_ref (lock_ref n + (l - lock_ref m)) n) (sized s i m l) = (Ret tt, s2) /\
    _update_leaf_status i s2 = (Ret tt, s3) /\
    abs s3 = lock_abs (abs s) i (shape m) l /\ frame s s3.
Proof.
  intros HA Hm Hr Hl. set (s1 := sized s i m l).
  assert (nodes s1 !! i = Some m) as Hm1 by done.
  destruct (put_node_ok s1 i (set_lock_ref l m)) as (s2 & E2 & A2 & N2 & F2).
  exists s2. assert (inv_tree ps eagle (abs s2)) as HA2.
  { rewrite A2. eapply inv_tree_ext; [apply (lock_inv_tree ps eagle (abs s) i (shape m) l)| | |]; try done.
    by apply abs_lookup_1. }
  assert (nodes s2 !! i = Some (set_lock_ref l m)) as Hm2 by (rewrite N2; apply lookup_insert_eq).
  destruct (update_leaf_status_ok cfg s2 i _ HA2 Hm2) as (s3 & E3 & A3 & N3 & F3).
  exists s3. split_and!; [|done| |].
  - rewrite (upd_node_ok s1 i _ m Hm1).
    replace (lock_ref m + (l - lock_ref m)) with l by lia. done.
  - rewrite A3, A2. done.
  - assert (frame s s1) by done. clearbody s1. unfold frame in *. destruct_and?. split; congruence.
Qed.

Lemma set_sizes_id s : set_sizes (evictable_size_ s) (protected_size_ s) s = s.
Proof. by destruct s. Qed.

(** The invariant in the middle of a walk that owes [q] to the node [i]. *)
Record walking (hs : list nat) (q : Z) (i : nat) (A : Abs) : Prop := mkWalking {
  wg_tree : inv_tree ps eagle A;
  wg_lock : inv_lock hs (fun j => if decide (j = i) then q else 0) A;
  wg_size : inv_size A;
  wg_leaf : inv_leaves A }.

(** Everything but locks, sizes and leaves. *)
Record same_contents (A A' : Abs) : Prop := mkSame {
  sc_root : a_root A' = a_root A;
  sc_ctr : a_ctr A' = a_ctr A;
  sc_node : forall j, (fun n => with_lock 0 n) <$> a_ns A' !! j = (fun n => with_lock 0 n) <$> a_ns A !! j;
  sc_total : a_ev A' + a_pr A' = a_ev A + a_pr A;
  sc_path : forall ek a us vs b, path A' ek a us vs b <-> path A ek a us vs b }.

Lemma same_refl A : same_contents A A.
Proof. by constructor. Qed.
Lemma same_trans A A1 A2 : same_contents A A1 -> same_contents A1 A2 -> same_contents A A2.
Proof.
  intros [R1 R2 R3 R4 R5] [S1 S2 S3 S4 S5]. constructor; [congruence|congruence| |lia|].
  - intros j. by rewrite S3, R3.
  - intros. by rewrite S5, R5.
Qed.

Lemma lock_same A i n l : a_ns A !! i = Some n -> i <> a_root A -> same_contents A (lock_abs A i n l).
Proof.
  intros Hi Hr. constructor; [done|done| | |].
  - intros j. rewrite lock_lookup. case_decide; [subst j; by rewrite Hi|done].
  - simpl. unfold unlocked_len, locked_len. rewrite !decide_False by done. simpl.
    change (sh_len (with_lock l n)) with (sh_len n).
    destruct (sh_lock n =? 0), (l =? 0); lia.
  - intros. by apply lock_path.
Qed.

(** At the root nothing is owed. *)
Lemma walking_root hs q A : walking hs q (a_root A) A -> inv ps eagle hs A.
Proof.
  intros [H1 [Hh Hl] H3 H4]. constructor; try done. split; [done|]. intros j n Hj Hne.
  specialize (Hl j n Hj Hne). by rewrite decide_False in Hl by done.
Qed.

(** A step of the walk pays the debt and passes it on to the parent. *)
Lemma walking_step hs q i A n p :
  walking hs q i A -> a_ns A !! i = Some n -> i <> a_root A -> sh_parent n = Some p ->
  0 <= sh_lock n + q -> walking hs q p (lock_abs A i n (sh_lock n + q)).
Proof.
  intros [H1 H2 H3 H4] Hi Hr Hp Hl. constructor.
  - by apply lock_inv_tree.
  - pose proof (lock_inv_lock A i n (sh_lock n + q) Hi Hr hs _ p Hp H2) as [Hh HL].
    split; [done|]. intros j m Hj Hne. specialize (HL j m Hj Hne). rewrite <-HL.
    pose proof (node_parent_ne ps eagle A i n p H1 Hi Hp).
    destruct (decide (j = i)), (decide (j = p)); [congruence|lia..].
  - by apply lock_inv_size.
  - by apply lock_inv_leaves.
Qed.

(** The counts at a node where a walk arrives: at least one lock to give back. *)
Lemma walking_lock_pos hs q i A n :
  walking hs q i A -> a_ns A !! i = Some n -> i <> a_root A -> 0 <= sh_lock n + q.
Proof.
  intros [H1 [_ H2] _ _] Hi Hr. specialize (H2 i n Hi Hr). rewrite decide_True in H2 by done.
  pose proof (locks_below_nonneg ps eagle A i H1).
  assert (0 <= handles_at hs i) by (unfold handles_at; lia). lia.
Qed.

Lemma ranked_same A A' d : same_contents A A' -> ranked A d -> ranked A' d.
Proof.
  intros [R1 R2 R3 _ _] Hd j m Hj. specialize (R3 j). rewrite Hj in R3. simpl in R3.
  destruct (a_ns A !! j) as [m0|] eqn:E; [|done]. injection R3 as _ Hp _ _.
  destruct (Hd j m0 E) as [H1 H2]. rewrite R2. split; [done|]. intros p. rewrite Hp. apply H2.
Qed.

(** ** The walks *)

(** A walk that adds [q] to every node from [i] up: the sizes it moves. *)
Lemma inc_loop_ok hs d fuel : forall s i delta,
  walking hs 1 i (abs s) -> ranked (abs s) d -> is_Some (a_ns (abs s) !! i) -> (d i < fuel)%nat ->
  exists s', inc_lock_loop fuel (Some i) delta s
    = (Ret (delta + (a_ev (abs s') - a_ev (abs s))), s') /\
    inv ps eagle hs (abs s') /\ same_contents (abs s) (abs s') /\ frame s s'.
Proof.
  induction fuel as [|fuel IH]; intros s i delta Hw Hd [n Hi] Hf; [lia|].
  cbn [inc_lock_loop]. rewrite bind_get. case_bool_decide as Hroot.
  { injection Hroot as ->. exists s. split_and!; [|by eapply walking_root|apply same_refl|done].
    unfold mret, PyM_ret. do 2 f_equal. lia. }
  assert (i <> root_node s) as Hne by congruence. rewrite bind_some.
  apply abs_lookup in Hi as (m & Hm & <-). py_step (get_node_ok s i m Hm).
  pose proof (abs_lookup_1 _ _ _ Hm) as Hi.
  assert (0 <= lock_ref m + 1) as Hpos by (pose proof (node_lock_nonneg _ _ _ _ _ (wg_tree _ _ _ _ Hw) Hi);
    simpl in *; lia).
  destruct (nk_parent (it_node (wg_tree _ _ _ _ Hw) _ _ Hi Hne)) as (p & pn & ck & Hp & Hpn & _).
  simpl in Hp.
  destruct (lock_step_ok s i m (lock_ref m + 1) (wg_tree _ _ _ _ Hw) Hm Hne Hpos)
    as (s2 & s3 & E2 & E3 & A3 & F3).
  assert ((if lock_ref m =? 0 then
             py_modify (fun s => set_sizes (evictable_size_ s - Z.of_nat (key_len (key m)))
                                   (protected_size_ s + Z.of_nat (key_len (key m))) s)
           else mret tt) s = (Ret tt, sized s i m (lock_ref m + 1))) as E1.
  { unfold sized. simpl. unfold unlocked_len, locked_len. rewrite !decide_False by done. simpl.
    pose proof (node_lock_nonneg _ _ _ _ _ (wg_tree _ _ _ _ Hw) Hi) as Hnn. simpl in Hnn.
    rewrite (proj2 (Z.eqb_neq (lock_ref m + 1) 0)) by lia.
    destruct (lock_ref m =? 0); unfold py_modify, mret, PyM_ret, sh_len; simpl; [do 2 f_equal; lia|].
    f_equal. rewrite <-(set_sizes_id s) at 1. f_equal; lia. }
  py_step E1.
  replace (fun n => set_lock_ref (lock_ref n + (lock_ref m + 1 - lock_ref m)) n)
    with (fun n => set_lock_ref (lock_ref n + 1) n) in E2
    by (replace (lock_ref m + 1 - lock_ref m) with 1 by lia; done).
  py_step E2. py_step E3. rewrite Hp.
  pose proof (walking_step hs 1 i (abs s) (shape m) p Hw Hi Hne Hp Hpos) as Hw'.
  pose proof (lock_same (abs s) i (shape m) (lock_ref m + 1) Hi Hne) as Hsame.
  simpl sh_lock in Hw'. rewrite <-A3 in Hw', Hsame.
  destruct (Hd i (shape m) Hi) as [_ Hdp]. specialize (Hdp p Hp).
  destruct (IH s3 p (if lock_ref m =? 0 then delta - Z.of_nat (key_len (key m)) else delta))
    as (s4 & E4 & H4 & S4 & F4); [done|by eapply ranked_same| |lia|].
  { eapply path_start, (sc_path _ _ Hsame). by eapply (path_nil _ None). }
  exists s4. split_and!; [|done|by eapply same_trans|unfold frame in *; destruct_and?; split; congruence].
  rewrite E4. do 2 f_equal. rewrite A3. simpl. unfold unlocked_len. rewrite !decide_False by done. simpl.
  pose proof (node_lock_nonneg _ _ _ _ _ (wg_tree _ _ _ _ Hw) Hi) as Hnn. simpl in Hnn.
  rewrite (proj2 (Z.eqb_neq (lock_ref m + 1) 0)) by lia. unfold sh_len. simpl.
  destruct (lock_ref m =? 0); lia.
Qed.

Lemma dec_loop_ok hs d fuel : forall s i delta,
  walking hs (-1) i (abs s) -> ranked (abs s) d -> is_Some (a_ns (abs s) !! i) -> (d i < fuel)%nat ->
  exists s', dec_lock_loop fuel (Some i) delta s
    = (Ret (delta + (a_ev (abs s') - a_ev (abs s))), s') /\
    inv ps eagle hs (abs s') /\ same_contents (abs s) (abs s') /\ frame s s'.
Proof.
  induction fuel as [|fuel IH]; intros s i delta Hw Hd [n Hi] Hf; [lia|].
  cbn [dec_lock_loop]. rewrite bind_get. case_bool_decide as Hroot.
  { injection Hroot as ->. exists s. split_and!; [|by eapply walking_root|apply same_refl|done].
    unfold mret, PyM_ret. do 2 f_equal. lia. }
  assert (i <> root_node s) as Hne by congruence. rewrite bind_some.
  apply abs_lookup in Hi as (m & Hm & <-). py_step (get_node_ok s i m Hm).
  pose proof (abs_lookup_1 _ _ _ Hm) as Hi.
  pose proof (walking_lock_pos hs (-1) i (abs s) _ Hw Hi Hne) as Hpos. simpl in Hpos.
  destruct (nk_parent (it_node (wg_tree _ _ _ _ Hw) _ _ Hi Hne)) as (p & pn & ck & Hp & Hpn & _).
  simpl in Hp.
  destruct (lock_step_ok s i m (lock_ref m + -1) (wg_tree _ _ _ _ Hw) Hm Hne Hpos)
    as (s2 & s3 & E2 & E3 & A3 & F3).
  assert ((if lock_ref m =? 1 then
             py_modify (fun s => set_sizes (evictable_size_ s + Z.of_nat (key_len (key m)))
                                   (protected_size_ s - Z.of_nat (key_len (key m))) s)
           else mret tt) s = (Ret tt, sized s i m (lock_ref m + -1))) as E1.
  { unfold sized. simpl. unfold unlocked_len, locked_len. rewrite !decide_False by done. simpl.
    rewrite (proj2 (Z.eqb_neq (lock_ref m) 0)) by lia.
    destruct (Z.eqb_spec (lock_ref m) 1) as [E|E]; unfold py_modify, mret, PyM_ret, sh_len; simpl.
    - rewrite E. simpl. do 2 f_equal; lia.
    - rewrite (proj2 (Z.eqb_neq (lock_ref m + -1) 0)) by lia.
      f_equal. rewrite <-(set_sizes_id s) at 1. f_equal; lia. }
  py_step E1.
  replace (fun n => set_lock_ref (lock_ref n + (lock_ref m + -1 - lock_ref m)) n)
    with (fun n => set_lock_ref (lock_ref n - 1) n) in E2
    by (replace (lock_ref m + -1 - lock_ref m) with (-1) by lia; done).
  py_step E2. py_step E3. rewrite Hp.
  rewrite bool_decide_eq_true_2 by done.
  rewrite (py_bind_Ret (py_assert true) _ s3 tt s3 eq_refl).
  pose proof (walking_step hs (-1) i (abs s) (shape m) p Hw Hi Hne Hp Hpos) as Hw'.
  pose proof (lock_same (abs s) i (shape m) (lock_ref m + -1) Hi Hne) as Hsame.
  simpl sh_lock in Hw'. rewrite <-A3 in Hw', Hsame.
  destruct (Hd i (shape m) Hi) as [_ Hdp]. specialize (Hdp p Hp).
  destruct (IH s3 p (if lock_ref m =? 1 then delta + Z.of_nat (key_len (key m)) else delta))
    as (s4 & E4 & H4 & S4 & F4); [done|by eapply ranked_same| |lia|].
  { eapply path_start, (sc_path _ _ Hsame). by eapply (path_nil _ None). }
  exists s4. split_and!; [|done|by eapply same_trans|unfold frame in *; destruct_and?; split; congruence].
  rewrite E4. do 2 f_equal. rewrite A3. simpl. unfold unlocked_len. rewrite !decide_False by done. simpl.
  rewrite (proj2 (Z.eqb_neq (lock_ref m) 0)) by lia. unfold sh_len. simpl.
  destruct (Z.eqb_spec (lock_ref m) 1) as [E|E].
  - rewrite E. simpl. lia.
  - rewrite (proj2 (Z.eqb_neq (lock_ref m + -1) 0)) by lia. lia.
Qed.

(** ** Handles *)

Lemma handles_at_cons h hs i : handles_at (h :: hs) i = handles_at hs i + (if decide (i = h) then 1 else 0).
Proof.
  unfold handles_at. simpl. case_bool_decide as E; destruct (decide (i = h)); subst; simpl; try done; lia.
Qed.

Lemma handles_at_perm hs hs' i : hs ≡ₚ hs' -> handles_at hs i = handles_at hs' i.
Proof. induction 1; rewrite ?handles_at_cons in *; lia. Qed.

Lemma walking_start hs i A : inv ps eagle hs A -> is_Some (a_ns A !! i) -> walking (i :: hs) 1 i A.
Proof.
  intros [H1 [Hh Hl] H3 H4] Hi. constructor; try done. split.
  - intros h [->|Hin]%elem_of_cons; auto.
  - intros j n Hj Hne. rewrite handles_at_cons. specialize (Hl j n Hj Hne). lia.
Qed.

Lemma walking_finish hs hs' i A :
  inv ps eagle hs A -> hs ≡ₚ i :: hs' -> walking hs' (-1) i A.
Proof.
  intros [H1 [Hh Hl] H3 H4] Hp. constructor; try done. split.
  - intros h Hin. apply Hh. rewrite Hp. by right.
  - intros j n Hj Hne. specialize (Hl j n Hj Hne). rewrite (handles_at_perm _ _ _ Hp), handles_at_cons in Hl.
    destruct (decide (j = i)); lia.
Qed.

Lemma inc_lock_ref_ok hs s i :
  inv ps eagle hs (abs s) -> disable cfg = false -> is_Some (a_ns (abs s) !! i) ->
  exists s', inc_lock_ref cfg (Some i) s = (Ret (a_ev (abs s') - a_ev (abs s)), s') /\
    inv ps eagle (i :: hs) (abs s') /\ same_contents (abs s) (abs s') /\ frame s s'.
Proof.
  intros HI Hdis Hi. unfold inc_lock_ref. rewrite Hdis, bind_get.
  destruct (it_rank (inv_t _ _ _ _ HI)) as [d Hd]. pose proof Hi as [n Hn].
  destruct (Hd i n Hn) as [Hlt _]. simpl in Hlt.
  destruct (inc_loop_ok (i :: hs) d (S (counter s)) s i 0) as (s' & E & H'); [by apply walking_start|done|done|lia|].
  exists s'. rewrite E. split; [do 2 f_equal; lia|done].
Qed.

Lemma dec_lock_ref_ok hs hs' s i :
  inv ps eagle hs (abs s) -> disable cfg = false -> hs ≡ₚ i :: hs' ->
  exists s', dec_lock_ref cfg (Some i) s = (Ret (a_ev (abs s') - a_ev (abs s)), s') /\
    inv ps eagle hs' (abs s') /\ same_contents (abs s) (abs s') /\ frame s s'.
Proof.
  intros HI Hdis Hp. unfold dec_lock_ref. rewrite Hdis, bind_get.
  assert (is_Some (a_ns (abs s) !! i)) as Hi by (apply (inv_l _ _ _ _ HI); rewrite Hp; left).
  destruct (it_rank (inv_t _ _ _ _ HI)) as [d Hd]. pose proof Hi as [n Hn].
  destruct (Hd i n Hn) as [Hlt _]. simpl in Hlt.
  destruct (dec_loop_ok hs' d (S (counter s)) s i 0) as (s' & E & H'); [by eapply walking_finish|done|done|lia|].
  exists s'. rewrite E. split; [do 2 f_equal; lia|done].
Qed.

(** ** Lock counts are determined by the handles *)

Lemma same_lookup A A' i n : same_contents A A' -> a_ns A !! i = Some n ->
  exists n', a_ns A' !! i = Some n' /\ with_lock 0 n' = with_lock 0 n.
Proof.
  intros HS Hn. pose proof (sc_node _ _ HS i) as E. rewrite Hn in E.
  destruct (a_ns A' !! i) as [n'|]; [|done]. simpl in E. injection E as E1 E2 E3 E4. exists n'.
  split; [done|]. unfold with_lock. by rewrite E1, E2, E3, E4.
Qed.

Lemma same_sym A A' : same_contents A A' -> same_contents A' A.
Proof. intros [H1 H2 H3 H4 H5]. by constructor. Qed.

Lemma locks_determined hs A A' :
  inv ps eagle hs A -> inv ps eagle hs A' -> same_contents A A' -> A' = A.
Proof.
  intros [HA [_ HL] [Hev Hpr] Hlv] [HA' [_ HL'] [Hev' Hpr'] Hlv'] HS.
  destruct (it_rank HA) as [d Hd].
  assert (forall r i n n', (a_ctr A - d i < r)%nat -> a_ns A !! i = Some n -> a_ns A' !! i = Some n' ->
    sh_lock n' = sh_lock n) as Hlock.
  { intros r. induction r as [|r IH]; intros i n n' Hr Hn Hn'; [lia|].
    destruct (decide (i = a_root A)) as [->|Hne].
    - destruct (it_root HA) as (x & Hx & _ & _ & Hxl). destruct (it_root HA') as (y & Hy & _ & _ & Hyl).
      rewrite (sc_root _ _ HS) in Hy. simplify_eq. congruence.
    - pose proof (HL i n Hn Hne) as E. pose proof (HL' i n' Hn') as E'. rewrite (sc_root _ _ HS) in E'.
      specialize (E' Hne). assert (locks_below A i = locks_below A' i); [|lia].
      apply msum_agree.
      + intros j m Hj. destruct (same_lookup _ _ _ _ HS Hj) as (m' & Hm' & Em).
        exists m'. split; [done|]. injection Em as _ Ep _ _. rewrite Ep.
        case_decide as Hpar; [|done]. symmetry. apply (IH j m m'); [|done|done].
        destruct (Hd j m Hj) as [H1 H2]. specialize (H2 i Hpar). lia.
      + intros j m' Hj. destruct (same_lookup _ _ _ _ (same_sym _ _ HS) Hj) as (m & Hm & _). by exists m. }
  assert (a_ns A' = a_ns A) as Hns.
  { apply map_eq. intros i. destruct (a_ns A !! i) as [n|] eqn:Hn.
    - destruct (same_lookup _ _ _ _ HS Hn) as (n' & Hn' & Em). rewrite Hn'. f_equal.
      pose proof (Hlock (S (a_ctr A - d i)) i n n' ltac:(lia) Hn Hn') as El.
      destruct n, n'. injection Em as -> -> -> ->. simpl in El. by subst.
    - pose proof (sc_node _ _ HS i) as E. rewrite Hn in E. by destruct (a_ns A' !! i). }
  destruct A as [ns rt ct ev pr lv], A' as [ns' rt' ct' ev' pr' lv']. simpl in *.
  pose proof (sc_root _ _ HS) as Er. pose proof (sc_ctr _ _ HS) as Ec. simpl in Er, Ec. subst ns' rt' ct'.
  f_equal; [by rewrite Hev, Hev'|by rewrite Hpr, Hpr'|]. apply set_eq. intros i.
  rewrite (Hlv' i), (Hlv i). done.
Qed.

(** A locked node keeps its ancestors locked. *)
Lemma handle_locks_path hs A ek i us vs h n :
  inv ps eagle hs A -> h ∈ hs -> path A ek i us vs h -> i <> a_root A -> a_ns A !! i = Some n ->
  0 < sh_lock n.
Proof.
  intros [HA [Hh HL] _ _] Hin Hp. revert n.
  induction Hp as [i m Hi|i m ck c cn v us vs j Hi Hch Hcn He Hv Hp IH]; intros n Hne Hn.
  - specialize (HL i n Hn Hne). pose proof (locks_below_nonneg _ _ A i HA).
    assert (0 < handles_at hs i); [|lia]. apply elem_of_Permutation in Hin as [hs' Hperm].
    rewrite (handles_at_perm _ _ _ Hperm), handles_at_cons, decide_True by done.
    assert (0 <= handles_at hs' i) by (unfold handles_at; lia). lia.
  - pose proof (child_ne_root _ _ A _ _ _ _ HA Hi Hch) as Hcr.
    specialize (IH Hin cn Hcr Hcn). specialize (HL i n Hn Hne).
    assert (0 <= handles_at hs i) by (unfold handles_at; lia).
    assert (sh_lock cn <= locks_below A i); [|lia].
    destruct (it_child HA _ _ Hi _ _ Hch) as (cn' & E & Hpar & _). assert (cn' = cn) as -> by congruence.
    pose proof (msum_ge (fun _ m => if decide (sh_parent m = Some i) then sh_lock m else 0) (a_ns A) c cn) as G.
    simpl in G. rewrite decide_True in G by done. apply G; [|done].
    intros j' m' Hj'. case_decide; [|done]. by eapply node_lock_nonneg.
Qed.
End locks.
