(* ===== verification/RadixEvict.v ===== *)
(** * Eviction from the radix cache

    [evicts] is the abstract specification of eviction: a sequence of evictable leaves, each
    of least priority among those evictable when it is taken.  [evict] implements it, stops
    as soon as enough tokens are free, and stops early only when nothing is evictable. *)

From stdpp Require Import base tactics list gmap strings.
From Stdlib Require Import ZArith Lia.
From S2P Require Import Prelude PyStr RadixKey TreeNode EvictPolicy Allocator AllocatorProofs KVEvents.
From S2P Require Import RadixTree RadixInv RadixPaths RadixSlots RadixWalk RadixProofs RadixLocks.

Section evict.
Context {T : Type} `{!KVAllocator T} {H : Type} `{!HeapQ H}.
Context (cfg : Config) (now : nat -> Z) (sha256 : list Z -> string).
Context (Hps : (0 < cfg_page_size cfg)%nat) (Hevents : enable_kv_cache_events cfg = false).
Local Abbreviation ps := (cfg_page_size cfg).
Local Abbreviation eagle := (is_eagle cfg).
Implicit Types s : Cache T.

(** ** Deleting a leaf *)

Lemma delete_leaf_ok s c cm p pm ck :
  nodes s !! c = Some cm -> nodes s !! p = Some pm ->
  delete_pre ps eagle (abs s) c (shape cm) p (shape pm) ck ->
  exists s', _delete_leaf cfg c s = (Ret tt, s') /\
    abs s' = delete_abs (abs s) c (shape cm) p (shape pm) ck /\ frame s s' /\
    nodes s' = delete c (<[p := set_children (delete ck (children pm)) pm]> (nodes s)).
Proof.
  intros Hcm Hpm Hdl. pose proof Hdl as [HA Hc Hr Hlock Hleaf Hp Hpn Hck Hin _].
  pose proof (delete_ne Hdl) as Hpc. pose proof (delete_inv_tree Hdl) as HA'.
  simpl in Hp, Hck, Hin. unfold _delete_leaf. py_step (get_node_ok s c cm Hcm).
  rewrite Hck, Hp, bind_lift, bind_some. py_step (get_node_ok s p pm Hpm).
  destruct (put_node_ok s p (set_children (delete ck (children pm)) pm)) as (s1 & E1 & A1 & N1 & F1).
  py_step E1. rewrite bool_decide_eq_true_2 by done.
  rewrite (py_bind_Ret (py_assert true) _ s1 tt s1 eq_refl). rewrite !bind_modify.
  set (s2 := set_leaves _ _).
  assert (abs s2 = mkAbs (a_ns (delete_abs (abs s) c (shape cm) p (shape pm) ck)) (root_node s) (counter s)
    (evictable_size_ s - Z.of_nat (key_len (key cm))) (protected_size_ s) (evictable_leaves s ∖ {[c]})) as A2.
  { unfold s2. unfold abs at 1. simpl. rewrite N1, fmap_delete, fmap_insert.
    assert (root_node s1 = root_node s /\ counter s1 = counter s /\ evictable_size_ s1 = evictable_size_ s /\
      protected_size_ s1 = protected_size_ s /\ evictable_leaves s1 = evictable_leaves s)
      as (-> & -> & -> & -> & ->); [|done].
    unfold abs in A1. simpl in A1. by injection A1 as _ -> -> -> -> ->. }
  assert (inv_tree ps eagle (abs s2)) as HA2 by (rewrite A2; by eapply inv_tree_ext).
  assert (nodes s2 = delete c (<[p := set_children (delete ck (children pm)) pm]> (nodes s))) as N2
    by (simpl; by rewrite N1).
  destruct (update_leaf_status_ok cfg s2 p (set_children (delete ck (children pm)) pm) HA2)
    as (s3 & E3 & A3 & N3 & F3).
  { rewrite N2, lookup_delete_ne by congruence. apply lookup_insert_eq. }
  exists s3. rewrite E3. split_and!; [done| | |by rewrite N3].
  - rewrite A3, A2. done.
  - assert (frame s1 s2) by done. clearbody s2. unfold frame in *. destruct_and?. split; congruence.
Qed.

(** ** The specification *)

Definition entry (i : nat) (n : TreeNode) : HeapEntry := entry_of_node cfg i n.

Inductive evicts : Cache T -> list (nat * list Z) -> Cache T -> Prop :=
  | evicts_nil s : evicts s [] s
  | evicts_cons s x n v p pm ck s1 rest s2 :
      x ∈ evictable_leaves s -> nodes s !! x = Some n -> value n = Some v ->
      (forall y m, y ∈ evictable_leaves s -> nodes s !! y = Some m ->
         entry_le (entry x n) (entry y m) = true) ->
      nodes s !! p = Some pm -> delete_pre ps eagle (abs s) x (shape n) p (shape pm) ck ->
      abs s1 = delete_abs (abs s) x (shape n) p (shape pm) ck ->
      kv_pool s1 = kv_free v (kv_pool s) -> req_to_token s1 = req_to_token s ->
      evicts s1 rest s2 -> evicts s ((x, v) :: rest) s2.

Definition freed (l : list (nat * list Z)) : list Z := concat l.*2.

Lemma length_freed_cons xv l : length (freed (xv :: l)) = (length xv.2 + length (freed l))%nat.
Proof. unfold freed. cbn [fmap list_fmap concat]. by rewrite length_app. Qed.

(** The heap holds the evictable leaves, with their current priorities. *)
Definition heap_ok (s : Cache T) (h : H) : Prop :=
  NoDup (heap_items h) /\
  forall e, e ∈ heap_items h <->
    he_node e ∈ evictable_leaves s /\
    exists n, nodes s !! he_node e = Some n /\ e = entry (he_node e) n.

Lemma leaf_delete_pre hs s x n :
  inv ps eagle hs (abs s) -> x ∈ evictable_leaves s -> nodes s !! x = Some n ->
  exists v p pm ck, value n = Some v /\ length v = key_len (key n) /\ parent n = Some p /\
    nodes s !! p = Some pm /\ delete_pre ps eagle (abs s) x (shape n) p (shape pm) ck.
Proof.
  intros HI Hx Hn. pose proof (inv_t _ _ _ _ HI) as HA.
  apply (inv_e _ _ _ _ HI) in Hx as (n' & Hn' & Hr & Hl & Hc).
  pose proof (abs_lookup_1 _ _ _ Hn) as Hn''. assert (n' = shape n) as -> by congruence.
  destruct (it_node HA _ _ Hn'' Hr) as [(p & pn & ck & G1 & G2 & G3 & G4) (v & Gv & Gl) _ _ _ _].
  apply abs_lookup in G2 as (pm & Hpm & <-).
  exists v, p, pm, ck. split_and!; try done. constructor; try done. by apply abs_lookup_1.
Qed.

Lemma size_delete_lt (m : gmap nat TreeNode) i j x y z :
  m !! i = Some x -> m !! j = Some y -> S (size (delete i (<[j := z]> m))) = size m.
Proof.
  intros Hi Hj. assert (is_Some (<[j := z]> m !! i)) as [w Hw].
  { destruct (decide (i = j)) as [->|]; [rewrite lookup_insert_eq; eauto|].
    rewrite lookup_insert_ne by done. eauto. }
  rewrite map_size_delete, Hw. rewrite map_size_insert_Some by done.
  assert (size m <> 0)%nat; [|lia]. intros E%map_size_empty_iff. subst. by rewrite lookup_empty in Hi.
Qed.

(** Popping a leaf, deleting it and pushing its parent if that became one. *)
Lemma heap_step hs s h e h' n p pm ck s1 :
  inv ps eagle hs (abs s) -> heap_ok s h -> heappop h = Some (e, h') ->
  nodes s !! he_node e = Some n -> nodes s !! p = Some pm ->
  delete_pre ps eagle (abs s) (he_node e) (shape n) p (shape pm) ck ->
  abs s1 = delete_abs (abs s) (he_node e) (shape n) p (shape pm) ck ->
  let pm' := set_children (delete ck (children pm)) pm in
  nodes s1 = delete (he_node e) (<[p := pm']> (nodes s)) ->
  heap_ok s1 (if bool_decide (children pm' = ∅) && (lock_ref pm' =? 0)
              then heappush (entry p pm') h' else h').
Proof.
  intros HI [Hnd Hin] Hpop Hn Hpm Hdl A1 pm' N1.
  destruct (heappop_Some _ _ _ Hpop) as [Hperm _].
  rewrite Hperm, NoDup_cons in Hnd. destruct Hnd as [Hefresh Hnd].
  pose proof (delete_ne Hdl) as Hpc. set (x := he_node e) in *.
  assert (inv ps eagle hs (abs s1)) as HI1 by (rewrite A1; by apply (delete_inv Hdl)).
  assert (0 <= lock_ref pm) as Hpl
    by exact (node_lock_nonneg ps eagle (abs s) p (shape pm) (inv_t _ _ _ _ HI) (abs_lookup_1 _ _ _ Hpm)).
  assert (p ∉ evictable_leaves s) as Hpnl.
  { intros Hp. apply (inv_e _ _ _ _ HI) in Hp as (pn & E & _ & _ & Hch).
    rewrite (dl_p _ _ _ _ _ _ _ _ Hdl) in E. injection E as <-.
    pose proof (dl_in _ _ _ _ _ _ _ _ Hdl) as Hi. by rewrite Hch, lookup_empty in Hi. }
  assert (forall y, y <> p -> y ∈ evictable_leaves s1 <-> y ∈ evictable_leaves s /\ y <> x) as Hother.
  { intros y Hy. change (evictable_leaves s1) with (a_lv (abs s1)). rewrite A1. simpl a_lv.
    rewrite elem_of_leaf_set by exact Hpl.
    rewrite decide_False by done. rewrite elem_of_difference, elem_of_singleton. done. }
  assert (p ∈ evictable_leaves s1 <-> bool_decide (children pm' = ∅) && (lock_ref pm' =? 0) = true) as Hp1.
  { change (evictable_leaves s1) with (a_lv (abs s1)). rewrite A1. simpl a_lv.
    rewrite elem_of_leaf_set by exact Hpl.
    rewrite decide_True by done. rewrite andb_true_iff, bool_decide_eq_true, Z.eqb_eq. simpl. tauto. }
  assert (forall e', he_node e' <> p ->
    (e' ∈ heap_items h' <-> he_node e' ∈ evictable_leaves s1 /\
       exists n', nodes s1 !! he_node e' = Some n' /\ e' = entry (he_node e') n')) as Hold.
  { intros e' Hne. rewrite (Hother _ Hne), N1. split.
    - intros He'. assert (e' ∈ heap_items h) as He by (rewrite Hperm; by right).
      apply Hin in He as (Hl & n' & Hn' & Ee). assert (he_node e' <> x) as Hx.
      { intros Ex. apply Hefresh. assert (e ∈ heap_items h) as Hee by (rewrite Hperm; by left).
        apply Hin in Hee as (_ & n0 & Hn0 & Ee0). rewrite Ex in Hn', Ee. fold x in Hn0, Ee0.
        assert (e' = e) as <- by congruence. done. }
      split; [done|]. exists n'. rewrite lookup_delete_ne, lookup_insert_ne by congruence. done.
    - intros ([Hl Hx] & n' & Hn' & Ee). rewrite lookup_delete_ne, lookup_insert_ne in Hn' by congruence.
      assert (e' ∈ heap_items h) as He by (apply Hin; eauto). rewrite Hperm in He.
      apply elem_of_cons in He as [->|]; done. }
  assert (nodes s1 !! p = Some pm') as Hpm1 by (rewrite N1, lookup_delete_ne by congruence; apply lookup_insert_eq).
  assert (forall e', e' ∈ heap_items h' -> he_node e' <> p) as Hnp.
  { intros e' He' Ep. assert (e' ∈ heap_items h) as He by (rewrite Hperm; by right).
    apply Hin in He as [Hl _]. congruence. }
  destruct (bool_decide (children pm' = ∅) && (lock_ref pm' =? 0)) eqn:Epush.
  - split.
    + rewrite heappush_items, NoDup_cons. split; [|done]. intros He. by apply (Hnp _ He).
    + intros e'. rewrite heappush_items, elem_of_cons. destruct (decide (he_node e' = p)) as [Ep|Ep].
      * rewrite Ep, Hpm1. split.
        -- intros [->|He']; [|by apply Hnp in He']. split; [by apply Hp1|]. by exists pm'.
        -- intros (_ & n' & [= <-] & ->). by left.
      * rewrite <-(Hold e' Ep). split; [|by right]. intros [->|]; [|done]. by destruct Ep.
  - split; [done|]. intros e'. destruct (decide (he_node e' = p)) as [Ep|Ep]; [|by apply Hold].
    rewrite Ep. split; [intros He'; by apply Hnp in He'|]. intros [Hl%Hp1 _]. congruence.
Qed.

Lemma evict_loop_ok hs fuel : forall s h num n0,
  inv ps eagle hs (abs s) -> heap_ok s h -> (size (nodes s) < fuel)%nat ->
  exists l s', evict_loop cfg sha256 fuel num h n0 s = (Ret (n0 + Z.of_nat (length (freed l))), s') /\
    evicts s l s' /\
    (num <= n0 + Z.of_nat (length (freed l)) \/ evictable_leaves s' = ∅) /\
    (forall l0 x, l = l0 ++ [x] -> n0 + Z.of_nat (length (freed l0)) < num).
Proof.
  induction fuel as [|fuel IH]; intros s h num n0 HI Hh Hf; [lia|]. cbn [evict_loop].
  destruct (Z.ltb_spec n0 num) as [Hlt|Hge].
  2: { exists [], s. split_and!; [simpl; by rewrite Z.add_0_r|constructor|left; simpl; lia|].
       intros [|] ? E; discriminate. }
  destruct (heappop h) as [[e h']|] eqn:Hpop.
  2: { exists [], s. split_and!; [simpl; by rewrite Z.add_0_r|constructor| |intros [|] ? E; discriminate].
       right. apply heappop_None in Hpop. apply set_eq. intros y. split; [|set_solver]. intros Hy.
       pose proof Hy as Hy'. apply (inv_e _ _ _ _ HI) in Hy' as (yn & Hyn & _).
       apply abs_lookup in Hyn as (ym & Hym & _).
       assert (entry y ym ∈ heap_items h) as Hin by (apply Hh; simpl; eauto).
       rewrite Hpop in Hin. by apply elem_of_nil in Hin. }
  destruct (heappop_Some _ _ _ Hpop) as [Hperm Hmin].
  assert (e ∈ heap_items h) as He by (rewrite Hperm; left).
  apply Hh in He as (Hx & n & Hn & Ee). set (x := he_node e) in *.
  destruct (leaf_delete_pre hs s x n HI Hx Hn) as (v & p & pm & ck & Hv & Hvl & Hp & Hpm & Hdl).
  py_step (get_node_ok s x n Hn). rewrite Hv, bind_some.
  unfold kv_release at 1. rewrite bind_modify. set (s0 := set_pool _ s).
  assert (abs s0 = abs s) as A0 by done. assert (nodes s0 = nodes s) as N0 by done.
  destruct (delete_leaf_ok s0 x n p pm ck) as (s1 & E1 & A1 & [F1 F1'] & N1); [done|done|done|].
  rewrite A0 in A1. rewrite N0 in N1. py_step E1. rewrite Hp, bind_some.
  set (pm' := set_children (delete ck (children pm)) pm) in *.
  assert (nodes s1 !! p = Some pm') as Hpm1.
  { rewrite N1, lookup_delete_ne by (pose proof (delete_ne Hdl); congruence). apply lookup_insert_eq. }
  py_step (get_node_ok s1 p pm' Hpm1). unfold _record_remove_event at 1. rewrite Hevents, bind_ret.
  assert (inv ps eagle hs (abs s1)) as HI1 by (rewrite A1; by apply (delete_inv Hdl)).
  pose proof (heap_step hs s h e h' n p pm ck s1 HI Hh Hpop Hn Hpm Hdl A1 N1) as Hh1.
  destruct (IH s1 _ num (n0 + Z.of_nat (length v)) HI1 Hh1) as (l & s2 & E2 & Hev & Hstop & Hneed).
  { rewrite N1. pose proof (size_delete_lt (nodes s) x p n pm pm' Hn Hpm). lia. }
  exists ((x, v) :: l), s2.
  pose proof (length_freed_cons (x, v) l) as Elen. simpl snd in Elen.
  split_and!.
  - etrans; [exact E2|]. do 2 f_equal. lia.
  - econstructor; try done.
    intros y m Hy Hm. rewrite <-Ee. apply Hmin, Hh. simpl. eauto.
  - rewrite Elen. destruct Hstop; [left; lia|by right].
  - intros [|y l0] z E; [unfold freed; simpl; lia|]. simpl in E. injection E as <- E.
    specialize (Hneed l0 z E). rewrite length_freed_cons. simpl. lia.
Qed.

(** ** Consequences of the specification *)

Lemma evicts_inv hs s l s' : evicts s l s' -> inv ps eagle hs (abs s) -> inv ps eagle hs (abs s').
Proof.
  induction 1 as [|s x n v p pm ck s1 rest s2 Hx Hn Hv Hmin Hpm Hdl A1 P1 R1 Hev IH]; [done|].
  intros HI. apply IH. rewrite A1. by apply (delete_inv Hdl).
Qed.

Lemma evicts_sizes hs s l s' :
  evicts s l s' -> inv ps eagle hs (abs s) ->
  evictable_size_ s' = evictable_size_ s - Z.of_nat (length (freed l)) /\
  protected_size_ s' = protected_size_ s /\ root_node s' = root_node s.
Proof.
  induction 1 as [|s x n v p pm ck s1 rest s2 Hx Hn Hv Hmin Hpm Hdl A1 P1 R1 Hev IH]; intros HI.
  { simpl. rewrite Z.sub_0_r. done. }
  destruct IH as (E1 & E2 & E3); [rewrite A1; by apply (delete_inv Hdl)|].
  destruct (leaf_delete_pre hs s x n HI Hx Hn) as (v' & _ & _ & _ & Hv' & Hl & _).
  assert (v' = v) as -> by congruence.
  assert (evictable_size_ s1 = evictable_size_ s - Z.of_nat (length v)) as E4.
  { change (evictable_size_ s1) with (a_ev (abs s1)). rewrite A1, Hl. done. }
  assert (protected_size_ s1 = protected_size_ s) as E5
    by (change (protected_size_ s1) with (a_pr (abs s1)); by rewrite A1).
  assert (root_node s1 = root_node s) as E6 by (change (root_node s1) with (a_root (abs s1)); by rewrite A1).
  rewrite length_freed_cons. simpl snd. split_and!; [lia|congruence|congruence].
Qed.

(** Nothing is added to the contents. *)
Lemma evicts_cached s l s' ek i us vs :
  evicts s l s' -> cached_from (abs s') ek i us vs -> cached_from (abs s) ek i us vs.
Proof.
  induction 1 as [|s x n v p pm ck s1 rest s2 Hx Hn Hv Hmin Hpm Hdl A1 P1 R1 Hev IH]; [done|].
  intros Hc. destruct (IH Hc) as [Hl (w & y & j & Hp)]. split; [done|]. exists w, y, j.
  rewrite A1 in Hp. by apply (delete_path_bwd _ _ _ _ _ _ _ _ _ Hdl) in Hp.
Qed.

(** The path to a node with a handle survives. *)
Lemma evicts_handle hs s l s' ek i us vs h :
  evicts s l s' -> inv ps eagle hs (abs s) -> h ∈ hs -> path (abs s) ek i us vs h ->
  path (abs s') ek i us vs h.
Proof.
  induction 1 as [|s x n v p pm ck s1 rest s2 Hx Hn Hv Hmin Hpm Hdl A1 P1 R1 Hev IH]; [done|].
  intros HI Hh Hp. apply IH; [rewrite A1; by apply (delete_inv Hdl)|done|]. rewrite A1.
  apply (delete_path_fwd _ _ _ _ _ _ _ _ _ Hdl); [done|]. intros ->.
  by apply (delete_no_handle Hdl hs (inv_l _ _ _ _ HI)).
Qed.

(** With no evictable leaf left every node is locked. *)
Lemma no_leaf_all_locked hs A : inv ps eagle hs A -> a_lv A = ∅ -> a_ev A = 0.
Proof.
  intros [HA [_ HL] [Hev _] Hlv] Hempty. destruct (it_rank HA) as [d Hd].
  assert (forall r i n, (a_ctr A - d i < r)%nat -> a_ns A !! i = Some n -> i <> a_root A -> sh_lock n <> 0) as Hall.
  { intros r. induction r as [|r IH]; intros i n Hr Hi Hne Hz; [lia|].
    destruct (decide (sh_children n = ∅)) as [Hc|Hc].
    - assert (i ∈ a_lv A) as Hin by (apply Hlv; by exists n). rewrite Hempty in Hin. set_solver.
    - apply map_choose in Hc as (ck & c & Hck).
      destruct (child_node _ _ A i n ck c HA Hi Hck) as (cn & Hcn & _ & Hpar & _).
      destruct (Hd c cn Hcn) as [H1 H2]. specialize (H2 i Hpar).
      apply (IH c cn); [lia|done|exact (child_ne_root _ _ A i n ck c HA Hi Hck)|].
      specialize (HL i n Hi Hne). assert (0 <= handles_at hs i) by (unfold handles_at; lia).
      pose proof (msum_ge (fun _ m => if decide (sh_parent m = Some i) then sh_lock m else 0) (a_ns A) c cn) as G.
      simpl in G. rewrite decide_True in G by done. fold (locks_below A i) in G.
      pose proof (node_lock_nonneg _ _ A c cn HA Hcn).
      enough (sh_lock cn <= locks_below A i) by lia. apply G; [|done].
      intros j m Hj. case_decide; [|done]. by eapply node_lock_nonneg. }
  rewrite Hev. apply msum_zero. intros i n Hi. unfold unlocked_len. case_decide as Hr; [done|].
  destruct (Z.eqb_spec (sh_lock n) 0) as [E|]; [|done].
  exfalso. apply (Hall (S (a_ctr A - d i)) i n); [lia|done|done|done].
Qed.

Lemma evict_ok hs s num :
  inv ps eagle hs (abs s) -> disable cfg = false ->
  exists l s', evict (H := H) cfg sha256 num s = (Ret (Z.of_nat (length (freed l))), s') /\ evicts s l s' /\
    (num <= Z.of_nat (length (freed l)) \/ evictable_size_ s' = 0) /\
    (forall l0 x, l = l0 ++ [x] -> Z.of_nat (length (freed l0)) < num).
Proof.
  intros HI Hd. unfold evict. rewrite Hd, bind_get.
  destruct (evict_loop_ok hs (S (size (nodes s))) s (heapify (leaf_entries cfg s)) num 0 HI)
    as (l & s' & E & Hev & Hstop & Hneed); [|lia|].
  - assert (forall e, e ∈ leaf_entries cfg s <-> he_node e ∈ evictable_leaves s /\
      exists n, nodes s !! he_node e = Some n /\ e = entry (he_node e) n) as Hin.
    { intros e. unfold leaf_entries. rewrite list_elem_of_omap. split.
      - intros (i & Hi%elem_of_elements & He). destruct (nodes s !! i) as [n|] eqn:Hn; [|done].
        simpl in He. injection He as <-. simpl. eauto.
      - intros (Hl & n & Hn & He). exists (he_node e). split; [by apply elem_of_elements|].
        rewrite Hn. simpl. by rewrite He at 2. }
    split; [|intros e; rewrite heapify_items; apply Hin]. rewrite heapify_items.
    unfold leaf_entries. pose proof (NoDup_elements (evictable_leaves s)) as Hnd. clear -Hnd.
    induction Hnd as [|i ids Hi Hnd IH]; simpl; [constructor|].
    destruct (nodes s !! i) as [n|]; simpl; [|done]. constructor; [|done].
    rewrite list_elem_of_omap. intros (j & Hj & He). destruct (nodes s !! j); [|done].
    simpl in He. injection He as _ _ ->. done.
  - exists l, s'. split_and!; [done|done| |done]. destruct Hstop as [|Hempty]; [by left|right].
    pose proof (evicts_inv hs _ _ _ Hev HI) as HI'.
    by apply (no_leaf_all_locked hs (abs s') HI').
Qed.
End evict.
