(* ===== verification/RadixClaims.v ===== *)
(** * What the radix cache guarantees

    The properties of the cache as its users see them: lookups return the longest cached
    prefix and change no contents; insertion followed by lookup finds the whole key; eviction
    takes unlocked leaves in priority order, no more than needed, and gives their slots back;
    locks are counted exactly; all of this on every state reachable from [reset]. *)

From stdpp Require Import base tactics list gmap strings.
From Stdlib Require Import ZArith Lia.
From S2P Require Import Prelude PyStr RadixKey TreeNode EvictPolicy Allocator AllocatorProofs KVEvents.
From S2P Require Import RadixTree RadixInv RadixPaths RadixSlots RadixWalk RadixProofs RadixLocks RadixEvict.

(** ** The KV slots a tree holds *)

Lemma slots_delete ps eagle A c cn p pn ck :
  delete_pre ps eagle A c cn p pn ck ->
  slots A ≡ₚ node_slots cn ++ slots (delete_abs A c cn p pn ck).
Proof.
  intros Hdl. pose proof Hdl as [_ Hc _ _ _ _ Hpn _ _ _]. unfold slots, cat. simpl.
  rewrite fmap_delete, fmap_insert, insert_id by (by rewrite lookup_fmap, Hpn).
  set (m := (slot_list sh_value <$> a_ns A : gmap nat (list Z))).
  assert (m !! c = Some (node_slots cn)) as Hm by (unfold m; by rewrite lookup_fmap, Hc).
  by rewrite <-(map_to_list_delete m c _ Hm).
Qed.

Section claims.
Context {T : Type} `{!KVAllocator T} {H : Type} `{!HeapQ H}.
Context (cfg : Config) (now : nat -> Z) (sha256 : list Z -> string).
Local Abbreviation ps := (cfg_page_size cfg).
Local Abbreviation eagle := (is_eagle cfg).
Implicit Types s : Cache T.

(** Eviction moves slots from the tree to the pool. *)
Lemma evicts_slots hs s l s' :
  evicts cfg s l s' -> inv ps eagle hs (abs s) -> kv_ok (kv_pool s) ->
  (forall i n, a_ns (abs s) !! i = Some n -> i <> a_root (abs s) -> paged (kv_page (kv_pool s)) (node_slots n)) ->
  NoDup (slots (abs s) ++ kv_owned (kv_pool s)) ->
  kv_ok (kv_pool s') /\
  slots (abs s') ++ kv_owned (kv_pool s') ≡ₚ slots (abs s) ++ kv_owned (kv_pool s) /\
  kv_owned (kv_pool s') ≡ₚ kv_owned (kv_pool s) ++ freed l /\
  kv_in_group (kv_pool s') = kv_in_group (kv_pool s) /\ kv_page (kv_pool s') = kv_page (kv_pool s).
Proof.
  induction 1 as [s|s x n v p pm ck s1 rest s2 Hx Hn Hv Hmin Hpm Hdl A1 P1 R1 Hev IH]; intros HI Hok Hpg Hnd.
  { unfold freed. simpl. by rewrite app_nil_r. }
  pose proof (slots_delete _ _ _ _ _ _ _ _ Hdl) as Hsl. rewrite <-A1 in Hsl.
  pose proof (abs_lookup_1 _ _ _ Hn) as Hn'.
  assert (node_slots (shape n) = v) as Env by (unfold node_slots, slot_list; simpl; by rewrite Hv).
  rewrite Env in Hsl.
  destruct (kv_free_spec v (kv_pool s)) as (Hok1 & Hp1 & Hg1 & Hown); [done| | |].
  { rewrite <-Env. apply (Hpg x (shape n) Hn'). apply (dl_root _ _ _ _ _ _ _ _ Hdl). }
  { rewrite Hsl, <-(assoc_L (++)), (comm (++) v), <-(assoc_L (++)) in Hnd.
    by apply NoDup_app in Hnd as (_ & _ & ?). }
  rewrite <-P1 in Hok1, Hp1, Hg1, Hown.
  assert (slots (abs s1) ++ kv_owned (kv_pool s1) ≡ₚ slots (abs s) ++ kv_owned (kv_pool s)) as Hsum.
  { rewrite Hown, Hsl. solve_Permutation. }
  destruct IH as (Hok2 & Hsum2 & Hown2 & Hg2 & Hp2); [rewrite A1; by apply (delete_inv Hdl)|done| |by rewrite Hsum|].
  - intros i m Hi Hr. rewrite Hp1. rewrite A1 in Hi, Hr.
    destruct (delete_lookup_inv Hdl _ _ Hi) as (m0 & Hm0 & _ & _ & _ & _ & Ev & _).
    assert (node_slots m = node_slots m0) as -> by (unfold node_slots, slot_list; by rewrite Ev).
    by apply (Hpg i).
  - split_and!; [done|by rewrite Hsum2| |congruence|congruence].
    rewrite Hown2, Hown. unfold freed. cbn [fmap list_fmap concat]. by rewrite <-(assoc_L (++)).
Qed.

(** ** Reset *)

Definition root_shape : Shape := mkShape ∅ None (mkRadixKey [] None false) (Some []) 1.

Lemma init_inv r : inv ps eagle [] (mkAbs {[r := root_shape]} r (S r) 0 0 ∅).
Proof.
  assert (forall i n, ({[r := root_shape]} : gmap nat Shape) !! i = Some n -> i = r /\ n = root_shape) as Hs.
  { intros i n [<- <-]%lookup_singleton_Some. done. }
  constructor.
  - constructor; simpl.
    + exists root_shape. split; [apply lookup_singleton_eq|done].
    + intros i n [-> _]%Hs. lia.
    + intros i n [-> _]%Hs. done.
    + intros i n [-> ->]%Hs ck c Hc. done.
    + exists (fun _ => 0%nat). intros i n [-> ->]%Hs. simpl. split; [lia|done].
  - split; [intros h Hh; by apply elem_of_nil in Hh|]. intros i n [-> _]%Hs Hne. done.
  - split; simpl; symmetry; apply msum_zero; intros i n [-> _]%Hs;
      unfold unlocked_len, locked_len; by rewrite decide_True.
  - intros i. simpl. split; [set_solver|]. intros (n & [-> _]%Hs & Hne & _). done.
Qed.

Lemma reset_ok s :
  exists s', reset cfg now s = (Ret tt, s') /\ inv ps eagle [] (abs s') /\ frame s s' /\
    a_ns (abs s') = {[root_node s' := root_shape]}.
Proof.
  unfold reset, monotonic, fresh_id, py_modify, mbind, PyM_bind. simpl.
  unfold _record_all_cleared_event. destruct (enable_kv_cache_events cfg); eexists; (split; [reflexivity|]);
    (split; [|split; [done|]]); unfold abs; simpl; rewrite map_fmap_singleton; try apply init_inv; done.
Qed.

(** ** Any sequence of requests *)

(** The handles held by the users and the cache, one request after the other. *)
Inductive cache_step : list nat * Cache T -> list nat * Cache T -> Prop :=
  | cs_match hs s k r s' :
      is_bigram k = false \/ eagle = true -> match_prefix cfg now k s = (Ret r, s') ->
      cache_step (hs, s) (hs, s')
  | cs_insert hs s params n s' :
      is_bigram (ip_key params) = false \/ eagle = true ->
      length (insert_value cfg params) = key_len (lookup_key cfg (ip_key params)) ->
      insert cfg now sha256 params s = (Ret n, s') -> cache_step (hs, s) (hs, s')
  | cs_evict hs s num n s' :
      evict (H := H) cfg sha256 num s = (Ret n, s') -> cache_step (hs, s) (hs, s')
  | cs_lock hs s i z s' :
      is_Some (nodes s !! i) -> inc_lock_ref cfg (Some i) s = (Ret z, s') ->
      cache_step (hs, s) (i :: hs, s')
  | cs_unlock hs s i hs' z s' :
      hs ≡ₚ i :: hs' -> dec_lock_ref cfg (Some i) s = (Ret z, s') -> cache_step (hs, s) (hs', s').

Context (Hps : (0 < ps)%nat) (Hevents : enable_kv_cache_events cfg = false) (Hd : disable cfg = false).

Lemma abs_some s i : is_Some (nodes s !! i) <-> is_Some (a_ns (abs s) !! i).
Proof. simpl. rewrite lookup_fmap, fmap_is_Some. done. Qed.

Lemma cache_step_inv st st' :
  cache_step st st' -> inv ps eagle st.1 (abs st.2) -> inv ps eagle st'.1 (abs st'.2).
Proof.
  intros Hst HI.
  destruct Hst as [hs s k r s' Hk E|hs s params n s' Hk Hl E|hs s num n s' E|hs s i z s' Hi E|hs s i hs' z s' Hp E];
    simpl in *.
  - destruct (match_prefix_ok cfg now Hps hs s k HI Hd Hk) as (r' & s1 & m & E' & _ & Hw & _).
    rewrite E in E'. injection E' as <- <-. apply Hw.
  - destruct (insert_ok cfg now sha256 Hps Hevents hs s params HI Hd Hk Hl) as (m & vs & s1 & E' & _ & Hins).
    rewrite E in E'. injection E' as <- <-. apply Hins.
  - destruct (evict_ok (H := H) cfg now sha256 Hps Hevents hs s num HI Hd) as (l & s1 & E' & Hev & _).
    rewrite E in E'. injection E' as _ <-. by eapply evicts_inv.
  - destruct (inc_lock_ref_ok cfg hs s i HI Hd) as (s1 & E' & HI' & _); [by apply abs_some|].
    rewrite E in E'. by injection E' as _ <-.
  - destruct (dec_lock_ref_ok cfg hs hs' s i HI Hd Hp) as (s1 & E' & HI' & _).
    rewrite E in E'. by injection E' as _ <-.
Qed.

Lemma cache_step_inv' hs s hs' s' :
  cache_step (hs, s) (hs', s') -> inv ps eagle hs (abs s) -> inv ps eagle hs' (abs s').
Proof. exact (cache_step_inv (hs, s) (hs', s')). Qed.

Lemma cache_reachable_inv s0 s1 st :
  reset cfg now s0 = (Ret tt, s1) -> rtc cache_step ([], s1) st -> inv ps eagle st.1 (abs st.2).
Proof.
  intros Hr Hst. assert (inv ps eagle ([] : list nat, s1).1 (abs ([] : list nat, s1).2)) as H0.
  { destruct (reset_ok s0) as (s' & E & HI & _). rewrite Hr in E. by injection E as <-. }
  revert H0. induction Hst as [|st1 st2 st3 Hstep _ IH]; [done|]. intros HI.
  by apply IH, (cache_step_inv _ _ Hstep).
Qed.

(** C2. On every state reachable from [reset] by lookups, insertions, evictions, locks and
    unlocks, the tree invariant holds: [evictable_size_] and [protected_size_] are the sums of
    the unlocked and the locked node lengths, [evictable_leaves] are exactly the unlocked
    childless nodes, every lock count is the number of handles at or below the node; and
    every request returns normally: no assertion fails, no node is missing, no loop runs out
    of fuel. *)
Theorem radix_invariant s0 s1 hs s :
  reset cfg now s0 = (Ret tt, s1) -> rtc cache_step ([], s1) (hs, s) ->
  inv ps eagle hs (abs s) /\
  (forall k, is_bigram k = false \/ eagle = true -> exists r s', match_prefix cfg now k s = (Ret r, s')) /\
  (forall params, is_bigram (ip_key params) = false \/ eagle = true ->
     length (insert_value cfg params) = key_len (lookup_key cfg (ip_key params)) ->
     exists n s', insert cfg now sha256 params s = (Ret n, s')) /\
  (forall num, exists n s', evict (H := H) cfg sha256 num s = (Ret n, s')) /\
  (forall i, is_Some (nodes s !! i) -> exists z s', inc_lock_ref cfg (Some i) s = (Ret z, s')) /\
  (forall i, i ∈ hs -> exists z s', dec_lock_ref cfg (Some i) s = (Ret z, s')).
Proof.
  intros Hr Hst. pose proof (cache_reachable_inv _ _ _ Hr Hst) as HI. simpl in HI.
  split_and!; [done|..].
  - intros k Hk. destruct (match_prefix_ok cfg now Hps hs s k HI Hd Hk) as (r & s' & _ & E & _). eauto.
  - intros params Hk Hl.
    destruct (insert_ok cfg now sha256 Hps Hevents hs s params HI Hd Hk Hl) as (m & _ & s' & E & _). eauto.
  - intros num. destruct (evict_ok (H := H) cfg now sha256 Hps Hevents hs s num HI Hd) as (l & s' & E & _). eauto.
  - intros i Hi%abs_some. destruct (inc_lock_ref_ok cfg hs s i HI Hd Hi) as (s' & E & _). eauto.
  - intros i [hs' Hp]%elem_of_Permutation.
    destruct (dec_lock_ref_ok cfg hs hs' s i HI Hd Hp) as (s' & E & _). eauto.
Qed.

(** C15. [match_prefix] returns the indices of the longest cached prefix of the key in whole
    pages, and the node where that prefix ends; it changes neither the cached contents of any
    namespace, nor the size counters, nor the KV pool. *)
Theorem match_prefix_longest hs s k :
  inv ps eagle hs (abs s) -> is_bigram k = false \/ eagle = true ->
  let key := lookup_key cfg k in
  exists r s' m, match_prefix cfg now k s = (Ret r, s') /\
    aligned ps m /\ (m <= key_len key)%nat /\
    cached (abs s) (extra_key k) (take m (units key)) (device_indices r) /\
    (forall m' vs, aligned ps m' -> (m' <= key_len key)%nat ->
       cached (abs s) (extra_key k) (take m' (units key)) vs -> (m' <= m)%nat) /\
    path (abs s') (extra_key k) (root_node s) (take m (units key)) (device_indices r) (last_device_node r) /\
    inv ps eagle hs (abs s') /\
    (forall ek us vs, cached (abs s') ek us vs <-> cached (abs s) ek us vs) /\
    evictable_size_ s' = evictable_size_ s /\ protected_size_ s' = protected_size_ s /\
    kv_pool s' = kv_pool s.
Proof.
  intros HI Hk key. destruct (lookup_key_ok cfg Hps k Hk) as (_ & _ & He).
  destruct (match_prefix_ok cfg now Hps hs s k HI Hd Hk) as (r & s' & m & E & [F _] & [W1 W2 W3 W4] & _).
  fold key in He, W3, W4. destruct W3 as [L1 L2 L3 L4]. rewrite He in L3, L4, W4.
  exists r, s', m. split_and!; try done; [|by apply W2|by apply W2].
  intros ek us vs. unfold cached. rewrite (ex_root _ _ W2). apply extends_cached; [done|].
  destruct (it_root (inv_t _ _ _ _ HI)) as (r0 & Hr0 & _). by exists r0.
Qed.

(** C16. After inserting a key with its indices, looking it up finds all of it: the indices
    that were cached before for its longest cached prefix, and the inserted ones for the
    rest; the insertion reports the length of that prefix, grows the evictable size by the
    new part, and keeps everything that was cached. *)
Theorem insert_then_match hs s params :
  inv ps eagle hs (abs s) -> is_bigram (ip_key params) = false \/ eagle = true ->
  length (insert_value cfg params) = key_len (lookup_key cfg (ip_key params)) ->
  let key := lookup_key cfg (ip_key params) in
  exists m vs s1 r s2,
    insert cfg now sha256 params s = (Ret m, s1) /\
    match_prefix cfg now (ip_key params) s1 = (Ret r, s2) /\
    longest ps (abs s) (root_node s) key m vs /\
    device_indices r = vs ++ drop m (insert_value cfg params) /\
    length (device_indices r) = key_len key /\
    evictable_size_ s1 = evictable_size_ s + Z.of_nat (key_len key - m) /\
    (forall ek us ws, cached (abs s) ek us ws -> cached (abs s1) ek us ws).
Proof.
  intros HI Hk Hl key.
  destruct (insert_ok cfg now sha256 Hps Hevents hs s params HI Hd Hk Hl) as (m & vs & s1 & E1 & _ & Hins).
  destruct Hins as [I1 I2 I3 I4 I5 I6 I7]. fold key in I2, I3, I6.
  destruct (match_prefix_ok cfg now Hps hs s1 (ip_key params) I1 Hd Hk) as (r & s2 & m2 & E2 & _ & Hw & _).
  fold key in Hw. pose proof (wk_longest _ _ _ _ _ _ _ _ _ _ Hw) as [L1 L2 L3 L4].
  destruct (lookup_key_ok cfg Hps (ip_key params) Hk) as (_ & Hal & He). fold key in Hal, He.
  assert (length vs = m) as Hvs.
  { destruct (lg_cached _ _ _ _ _ _ I2) as [E _]. rewrite length_take, length_units in E.
    pose proof (lg_le _ _ _ _ _ _ I2). lia. }
  assert (cached (abs s1) (extra_key key) (take (key_len key) (units key))
    (vs ++ drop m (insert_value cfg params))) as Hall.
  { apply I3. right. exists (key_len key). split; [done|]. rewrite take_ge; [done|].
    pose proof (lg_le _ _ _ _ _ _ I2). rewrite length_app, length_drop. fold key in Hl. lia. }
  assert (m2 = key_len key) as -> by (specialize (L4 (key_len key) _ Hal (le_n _) Hall); lia).
  assert (device_indices r = vs ++ drop m (insert_value cfg params)) as Hdev.
  { eapply (cached_unique ps eagle Hps (abs s1) (inv_t _ _ _ _ I1) _ _ (root_node s1));
      [apply Nat.lt_succ_diag_r| |exact L3|exact Hall].
    rewrite length_take, length_units, Nat.min_id. done. }
  exists m, vs, s1, r, s2. split_and!; try done.
  - rewrite Hdev, length_app, length_drop. pose proof (lg_le _ _ _ _ _ _ I2). fold key in Hl. lia.
  - intros ek us ws Hc. destruct (decide (ek = extra_key key)) as [->|Hne].
    + apply I3. by left.
    + by apply I4.
Qed.

(** C32. [evict] takes evictable leaves one by one, each of least priority under the
    configured strategy among the leaves evictable at that moment (parents that become
    leaves included); it frees exactly the reported number of tokens, stops as soon as the
    request is met, and falls short only when nothing evictable is left. *)
Theorem evict_takes_least hs s num :
  inv ps eagle hs (abs s) ->
  exists l s', evict (H := H) cfg sha256 num s = (Ret (Z.of_nat (length (freed l))), s') /\
    evicts cfg s l s' /\ inv ps eagle hs (abs s') /\
    evictable_size_ s' = evictable_size_ s - Z.of_nat (length (freed l)) /\
    protected_size_ s' = protected_size_ s /\
    (num <= Z.of_nat (length (freed l)) \/ evictable_size_ s' = 0) /\
    (forall l0 x, l = l0 ++ [x] -> Z.of_nat (length (freed l0)) < num).
Proof.
  intros HI. destruct (evict_ok (H := H) cfg now sha256 Hps Hevents hs s num HI Hd) as (l & s' & E & Hev & H1 & H2).
  destruct (evicts_sizes cfg Hps hs s l s' Hev HI) as (H3 & H4 & _).
  exists l, s'. split_and!; try done. by eapply evicts_inv.
Qed.

(** C33. Eviction never touches what a user holds: for every handle the path from the root to
    its node, with its key and indices, is unchanged, and eviction adds nothing to the cache. *)
Theorem evict_protects_handles hs s num n s' :
  inv ps eagle hs (abs s) -> evict (H := H) cfg sha256 num s = (Ret n, s') ->
  (forall h ek us vs, h ∈ hs -> path (abs s) ek (root_node s) us vs h ->
     path (abs s') ek (root_node s') us vs h) /\
  (forall ek us vs, cached (abs s') ek us vs -> cached (abs s) ek us vs).
Proof.
  intros HI E. destruct (evict_ok (H := H) cfg now sha256 Hps Hevents hs s num HI Hd) as (l & s1 & E' & Hev & _).
  rewrite E in E'. injection E' as _ <-. destruct (evicts_sizes cfg Hps hs s l s' Hev HI) as (_ & _ & Hroot).
  rewrite Hroot. split.
  - intros h ek us vs Hh Hp. by eapply evicts_handle.
  - intros ek us vs. unfold cached. simpl. rewrite Hroot. by apply (evicts_cached cfg s l s').
Qed.

(** Eviction conserves the KV slots: when tree and pool together own distinct slots in
    whole pages, what leaves the tree is exactly what the pool gains. *)
Theorem evict_conserves_slots hs s num n s' :
  inv ps eagle hs (abs s) -> kv_ok (kv_pool s) ->
  (forall i m, a_ns (abs s) !! i = Some m -> i <> root_node s -> paged (kv_page (kv_pool s)) (node_slots m)) ->
  NoDup (slots (abs s) ++ kv_owned (kv_pool s)) ->
  evict (H := H) cfg sha256 num s = (Ret n, s') ->
  kv_ok (kv_pool s') /\
  slots (abs s') ++ kv_owned (kv_pool s') ≡ₚ slots (abs s) ++ kv_owned (kv_pool s) /\
  Z.of_nat (length (kv_owned (kv_pool s'))) = Z.of_nat (length (kv_owned (kv_pool s))) + n.
Proof.
  intros HI Hok Hpg Hnd E.
  destruct (evict_ok (H := H) cfg now sha256 Hps Hevents hs s num HI Hd) as (l & s1 & E' & Hev & _).
  rewrite E in E'. injection E' as -> <-.
  destruct (evicts_slots hs s l s' Hev HI Hok Hpg Hnd) as (H1 & H2 & H3 & _).
  split_and!; [done|done|]. rewrite H3, length_app. lia.
Qed.

(** Locking a node and unlocking it again restores the state exactly: lock counts, size
    counters and evictable leaves; the reported deltas are the changes of the evictable size
    and cancel; in between, no node on the path to the root is evictable. *)
Theorem lock_unlock_inverse hs s i :
  inv ps eagle hs (abs s) -> is_Some (nodes s !! i) ->
  exists s1 s2 d,
    inc_lock_ref cfg (Some i) s = (Ret (- d), s1) /\ dec_lock_ref cfg (Some i) s1 = (Ret d, s2) /\
    abs s2 = abs s /\ evictable_size_ s1 = evictable_size_ s - d /\
    protected_size_ s1 = protected_size_ s + d /\
    (forall j ek us vs, path (abs s) ek j us vs i -> j ∉ evictable_leaves s1).
Proof.
  intros HI Hi%abs_some.
  destruct (inc_lock_ref_ok cfg hs s i HI Hd Hi) as (s1 & E1 & I1 & S1 & _).
  destruct (dec_lock_ref_ok cfg (i :: hs) hs s1 i I1 Hd) as (s2 & E2 & I2 & S2 & _); [done|].
  assert (abs s2 = abs s) as Habs by (eapply locks_determined; [done|done|by eapply same_trans]).
  assert (evictable_size_ s2 = evictable_size_ s) as Hev
    by (change (a_ev (abs s2) = a_ev (abs s)); by rewrite Habs).
  pose proof (sc_total _ _ S1) as Htot. simpl in Htot.
  exists s1, s2, (evictable_size_ s - evictable_size_ s1). split_and!; [| |done|lia|lia|].
  - rewrite E1. do 2 f_equal. simpl. lia.
  - rewrite E2. do 2 f_equal. simpl. rewrite Hev. done.
  - intros j ek us vs Hp Hj. apply (sc_path _ _ S1) in Hp.
    apply (inv_e _ _ _ _ I1) in Hj as (n & Hn & Hr & Hl & _).
    pose proof (handle_locks_path cfg (i :: hs) (abs s1) ek j us vs i n I1 (list_elem_of_here _ _) Hp Hr Hn).
    lia.
Qed.
End claims.

(** ** A concrete cache *)

Definition demo_cfg : Config := mkConfig false 2 false false false false LRUStrategy.
Definition demo_now (t : nat) : Z := Z.of_nat t.
Definition demo_sha (_ : list Z) : string := "".
#[local] Instance demo_alloc : KVAllocator Alloc := paged_KVAllocator false.

Definition demo0 : Cache Alloc :=
  mkCache ∅ 0 0 0 0 0 ∅ [] (set_pages [3; 4; 5; 6; 7; 8] [] (paged_init 16 2 false)) [].
Definition demo1 : Cache Alloc := py_exec (reset demo_cfg demo_now) demo0.
Definition demo_params : InsertParams :=
  mkInsertParams (mkRadixKey [7; 8; 9; 10] None false) (Some [2; 3; 4; 5]) (Some 0) false.
Definition demo2 : Cache Alloc := py_exec (insert demo_cfg demo_now demo_sha demo_params) demo1.
Definition demo3 : Cache Alloc :=
  py_exec (evict (H := list HeapEntry) demo_cfg demo_sha 1) demo2.

Lemma demo_ps : (0 < cfg_page_size demo_cfg)%nat.
Proof. simpl. lia. Qed.

Lemma demo_reset : reset demo_cfg demo_now demo0 = (Ret tt, demo1).
Proof. reflexivity. Qed.

Lemma demo1_inv : inv (cfg_page_size demo_cfg) (is_eagle demo_cfg) [] (abs demo1).
Proof.
  destruct (reset_ok demo_cfg demo_now demo0) as (s' & E & HI & _).
  rewrite demo_reset in E. by injection E as <-.
Qed.

Lemma demo_step :
  cache_step (H := list HeapEntry) demo_cfg demo_now demo_sha ([], demo1) ([], demo2).
Proof. eapply (cs_insert _ _ _ [] demo1 demo_params 0%nat); [by left|reflexivity|vm_compute; reflexivity]. Qed.

Lemma demo2_inv : inv (cfg_page_size demo_cfg) (is_eagle demo_cfg) [] (abs demo2).
Proof.
  exact (cache_step_inv' (H := list HeapEntry) demo_cfg demo_now demo_sha demo_ps eq_refl eq_refl
    [] demo1 [] demo2 demo_step demo1_inv).
Qed.

Example radix_invariant_witness :
  inv (cfg_page_size demo_cfg) (is_eagle demo_cfg) [] (abs demo2) /\ exists n s', evict (H := list HeapEntry) demo_cfg demo_sha 3 demo2 = (Ret n, s').
Proof.
  destruct (radix_invariant (H := list HeapEntry) demo_cfg demo_now demo_sha demo_ps eq_refl eq_refl
    demo0 demo1 [] demo2 demo_reset (rtc_once _ _ demo_step)) as (HI & _ & _ & Hev & _).
  split; [exact HI|apply Hev].
Defined.

Example match_prefix_longest_witness :
  exists r s' m, match_prefix demo_cfg demo_now (mkRadixKey [7; 8; 9; 11; 12] None false) demo2 = (Ret r, s') /\
    (m <= 4)%nat /\ device_indices r = [2; 3].
Proof.
  destruct (match_prefix_longest demo_cfg demo_now demo_ps eq_refl [] demo2
    (mkRadixKey [7; 8; 9; 11; 12] None false) demo2_inv (or_introl eq_refl))
    as (r & s' & m & E & _ & Hle & _).
  exists r, s', m. split; [exact E|]. split; [exact Hle|]. vm_compute in E. by injection E as <- _.
Defined.

Example insert_then_match_witness :
  exists m s1 r s2, insert demo_cfg demo_now demo_sha demo_params demo1 = (Ret m, s1) /\
    match_prefix demo_cfg demo_now (ip_key demo_params) s1 = (Ret r, s2) /\ length (device_indices r) = 4%nat.
Proof.
  destruct (insert_then_match demo_cfg demo_now demo_sha demo_ps eq_refl eq_refl [] demo1 demo_params
    demo1_inv (or_introl eq_refl) eq_refl) as (m & vs & s1 & r & s2 & E1 & E2 & _ & _ & Hl & _).
  exists m, s1, r, s2. split; [exact E1|]. split; [exact E2|exact Hl].
Defined.

Example evict_takes_least_witness :
  exists l s', evict (H := list HeapEntry) demo_cfg demo_sha 1 demo2 = (Ret (Z.of_nat (length (freed l))), s') /\
    evicts demo_cfg demo2 l s'.
Proof.
  destruct (evict_takes_least (H := list HeapEntry) demo_cfg demo_now demo_sha demo_ps eq_refl eq_refl
    [] demo2 1 demo2_inv) as (l & s' & E & Hev & _).
  exists l, s'. split; [exact E|exact Hev].
Defined.

Lemma demo_evict : evict (H := list HeapEntry) demo_cfg demo_sha 1 demo2 = (Ret 4, demo3).
Proof. vm_compute. reflexivity. Qed.

(** A second prefix is inserted and a request holds the node of the first. *)
Definition lock_params : InsertParams :=
  mkInsertParams (mkRadixKey [20; 21] None false) (Some [6; 7]) (Some 0) false.
Definition lock1 : Cache Alloc := py_exec (insert demo_cfg demo_now demo_sha lock_params) demo2.
Definition lock2 : Cache Alloc := py_exec (inc_lock_ref demo_cfg (Some 1%nat)) lock1.
Definition lock3 : Cache Alloc := py_exec (evict (H := list HeapEntry) demo_cfg demo_sha 100) lock2.

Lemma lock2_inv : inv (cfg_page_size demo_cfg) (is_eagle demo_cfg) [1%nat] (abs lock2).
Proof.
  assert (cache_step (H := list HeapEntry) demo_cfg demo_now demo_sha ([], demo2) ([], lock1)) as S1
    by (eapply (cs_insert _ _ _ [] demo2 lock_params 0%nat); [by left|reflexivity|vm_compute; reflexivity]).
  assert (cache_step (H := list HeapEntry) demo_cfg demo_now demo_sha ([], lock1) ([1%nat], lock2)) as S2
    by (eapply (cs_lock _ _ _ [] lock1 1%nat (-4)); [vm_compute; by eexists|vm_compute; reflexivity]).
  pose proof (cache_step_inv' (H := list HeapEntry) demo_cfg demo_now demo_sha demo_ps eq_refl eq_refl _ _ _ _ S1 demo2_inv) as HI.
  exact (cache_step_inv' (H := list HeapEntry) demo_cfg demo_now demo_sha demo_ps eq_refl eq_refl _ _ _ _ S2 HI).
Qed.

Lemma lock2_path : path (abs lock2) None (root_node lock2) [Tok 7; Tok 8; Tok 9; Tok 10] [2; 3; 4; 5] 1.
Proof.
  assert (exists n cn, root_node lock2 = 0%nat /\ a_ns (abs lock2) !! 0%nat = Some n /\ sh_children n !! (None, PToks [7; 8]) = Some 1%nat /\
    a_ns (abs lock2) !! 1%nat = Some cn /\ units (sh_key cn) = [Tok 7; Tok 8; Tok 9; Tok 10] /\ extra_key (sh_key cn) = None /\ sh_value cn = Some [2; 3; 4; 5])
    as (n & cn & -> & E1 & E2 & E3 & <- & E5 & E6) by (eexists _, _; vm_compute; split_and!; reflexivity).
  exact (path_one (abs lock2) None 0 n _ 1 cn _ E1 E2 E3 E5 E6).
Qed.

Lemma lock_evict : evict (H := list HeapEntry) demo_cfg demo_sha 100 lock2 = (Ret 2, lock3).
Proof. vm_compute. reflexivity. Qed.

(** Whatever is asked for, the two slots of the second prefix are all that is evicted; the
    prefix that is held is still there. *)
Example evict_protects_handles_witness :
  evict (H := list HeapEntry) demo_cfg demo_sha 100 lock2 = (Ret 2, lock3) /\
  path (abs lock3) None (root_node lock3) [Tok 7; Tok 8; Tok 9; Tok 10] [2; 3; 4; 5] 1 /\ nodes lock3 !! 2%nat = None.
Proof.
  split; [exact lock_evict|]. split; [|vm_compute; reflexivity].
  apply (proj1 (evict_protects_handles (H := list HeapEntry) demo_cfg demo_now demo_sha demo_ps eq_refl eq_refl
    [1%nat] lock2 100 2 lock3 lock2_inv lock_evict)); [left|exact lock2_path].
Defined.

Lemma demo_nodes :
  a_ns (abs demo2)
  = <[0%nat := with_children {[(None, PToks [7; 8]) := 1%nat]} root_shape]>
      {[1%nat := mkShape ∅ (Some 0%nat) (mkRadixKey [7; 8; 9; 10] None false) (Some [2; 3; 4; 5]) 0]}.
Proof. vm_compute. reflexivity. Qed.

Example evict_conserves_slots_witness :
  slots (abs demo3) ++ kv_owned (kv_pool demo3) ≡ₚ slots (abs demo2) ++ kv_owned (kv_pool demo2) /\
  Z.of_nat (length (kv_owned (kv_pool demo3))) = Z.of_nat (length (kv_owned (kv_pool demo2))) + 4.
Proof.
  destruct (evict_conserves_slots (H := list HeapEntry) demo_cfg demo_now demo_sha demo_ps eq_refl eq_refl
    [] demo2 1 4 demo3 demo2_inv) as (_ & H1 & H2).
  - vm_compute. split_and!; try done. apply (bool_decide_eq_true_1 _). vm_compute. reflexivity.
  - intros i m Hi Hr. rewrite demo_nodes in Hi.
    apply lookup_insert_Some in Hi as [[<- <-]|[_ Hi]]; [by destruct Hr|].
    apply lookup_singleton_Some in Hi as [<- <-]. exists [1; 2]. split; [reflexivity|].
    apply (bool_decide_eq_true_1 _). reflexivity.
  - apply (bool_decide_eq_true_1 _). vm_compute. reflexivity.
  - exact demo_evict.
  - split; [exact H1|exact H2].
Defined.

Example lock_unlock_inverse_witness :
  exists s1 s2 d, inc_lock_ref demo_cfg (Some 1%nat) demo2 = (Ret (- d), s1) /\
    dec_lock_ref demo_cfg (Some 1%nat) s1 = (Ret d, s2) /\ abs s2 = abs demo2.
Proof.
  destruct (lock_unlock_inverse demo_cfg demo_ps eq_refl [] demo2 1 demo2_inv) as (s1 & s2 & d & E1 & E2 & E3 & _).
  - vm_compute. eexists. reflexivity.
  - exists s1, s2, d. split; [exact E1|]. split; [exact E2|exact E3].
Defined.
