(* ===== verification/Lifecycle.v ===== *)
(** * The KV slots of a request over its life

    A running request reads its cached prefix from the tree, whose node it holds, and keeps
    the slots of its other tokens in pages of its own.  [cache_unfinished_req] and
    [cache_finished_req] of the radix cache hand finished pages over to the tree and give
    duplicates back to the pool.  The theorems show that no slot is lost or owned twice. *)

From stdpp Require Import base tactics list gmap strings.
From Stdlib Require Import ZArith Lia.
From S2P Require Import Prelude PyStr RadixKey TreeNode EvictPolicy Allocator AllocatorProofs RowTable KVEvents.
From S2P Require Import RadixTree RadixInv RadixPaths RadixSlots RadixWalk RadixProofs RadixLocks RadixEvict RadixClaims.

(** ** Pages of a request *)

Section pages.
Context (ps : nat) (Hps : (0 < ps)%nat).
Local Abbreviation pg := (Z.of_nat ps).

Lemma take_expand c G : take (c * ps) (expand_pages pg G) = expand_pages pg (take c G).
Proof.
  destruct (decide (c <= length G)%nat) as [Hc|Hc].
  - rewrite <-(take_drop c G) at 1. rewrite expand_pages_app, take_app_length'; [done|]. rewrite length_expand, length_take. nia.
  - rewrite !take_ge; [done|lia|]. rewrite length_expand. nia.
Qed.

Lemma drop_expand c G : drop (c * ps) (expand_pages pg G) = expand_pages pg (drop c G).
Proof.
  destruct (decide (c <= length G)%nat) as [Hc|Hc].
  - rewrite <-(take_drop c G) at 1. rewrite expand_pages_app, drop_app_length'; [done|]. rewrite length_expand, length_take. nia.
  - rewrite !drop_ge; [done|lia|]. rewrite length_expand. nia.
Qed.

Lemma NoDup_split_at {A} k (l : list A) : NoDup l -> NoDup (take k l) /\ NoDup (drop k l).
Proof. rewrite <-(take_drop k l) at 1. by intros (? & _ & ?)%NoDup_app. Qed.

(** The tokens from [p] to [n] of a row fill the pages [G] in order. *)
Definition row_pages (row : list Z) (p n : nat) (G : list Z) : Prop :=
  drop p (take n row) = take (n - p) (expand_pages pg G) /\ (n - p <= length G * ps < n - p + ps)%nat.

(** The pages of a part of the row. *)
Lemma row_pages_drop row p n G m :
  row_pages row p n G -> aligned ps p -> aligned ps m -> (p <= m <= n)%nat -> row_pages row m n (drop ((m - p) / ps) G).
Proof.
  intros [H1 H2] Hp Hm Hle. set (a := ((m - p) / ps)%nat).
  assert (a * ps = m - p)%nat as Ha by (by apply aligned_floor, aligned_sub). split.
  - replace m with (p + (m - p))%nat at 1 by lia. rewrite <-drop_drop, H1, <-Ha, skipn_firstn_comm, drop_expand. f_equal. lia.
  - rewrite length_drop. nia.
Qed.

Lemma row_pages_slice row p n G m :
  row_pages row p n G -> aligned ps p -> aligned ps m -> (p <= m <= n)%nat ->
  slice (take n row) p m = expand_pages pg (take ((m - p) / ps) G).
Proof.
  intros [H1 H2] Hp Hm Hle. unfold slice. rewrite H1, take_take, Nat.min_l by lia.
  rewrite <-take_expand. by rewrite aligned_floor by (done || by apply aligned_sub).
Qed.
End pages.

(** ** Giving part of a page back

    Outside a free group a pool that is given the first slots of some pages, with at least
    one of each page, takes the whole pages back. *)

Class KVPartial (T : Type) `{!KVAllocator T} := kv_free_part (r : nat) (G : list Z) (a : T) :
  kv_ok a -> kv_in_group a = false -> NoDup (kv_owned a ++ expand_pages (kv_page a) G) ->
  len G * kv_page a - kv_page a < Z.of_nat r ->
  let a' := kv_free (take r (expand_pages (kv_page a) G)) a in
  kv_ok a' /\ kv_in_group a' = false /\ kv_page a' = kv_page a /\ kv_owned a' ≡ₚ kv_owned a ++ expand_pages (kv_page a) G.

Lemma unique_part p G r :
  0 < p -> NoDup G -> len G * p - p < Z.of_nat r -> unique ((fun i => i / p) <$> take r (expand_pages p G)) ≡ₚ G.
Proof.
  intros Hp Hnd Hr. unfold unique. rewrite py_sorted_perm. apply NoDup_Permutation; [apply NoDup_remove_dups|done|].
  intros x. rewrite elem_of_remove_dups, list_elem_of_fmap. split.
  - intros (y & -> & (k & Hy & _)%elem_of_take). apply list_elem_of_lookup_2 in Hy. by apply elem_of_expand_pages in Hy.
  - intros (i & Hi)%list_elem_of_lookup. pose proof (lookup_lt_Some _ _ _ Hi) as Hlt. exists (x * p).
    split; [by rewrite Z.div_mul by lia|]. apply elem_of_take. exists (Z.to_nat (Z.of_nat i * p)). unfold len in Hr. split; [|nia].
    rewrite expand_pages_eq by lia. rewrite list_lookup_fmap, lookup_seqZ_lt by (unfold len; nia). cbn [fmap option_fmap option_map]. f_equal.
    rewrite Z.add_0_l, Z2Nat.id by nia. rewrite Z.div_mul, Z.mod_mul by lia. unfold nthZ. by rewrite Nat2Z.id, Hi, Z.add_0_r.
Qed.

Definition paged_KVPartial debug : @KVPartial Alloc (paged_KVAllocator debug).
Proof.
  intros r G a Hok Hg Hnd Hr. cbn [kv_ok kv_in_group kv_page kv_owned kv_free paged_KVAllocator] in *.
  apply negb_false_iff in Hg. pose proof Hok as (Hp & Hs & _).
  assert (NoDup G) as HG by (apply (NoDup_expand_pages (page_size a)); [done|]; by apply NoDup_app in Hnd as (_ & _ & ?)).
  pose proof (unique_part (page_size a) G r Hp HG Hr) as Hu.
  unfold paged_free. destruct (take r _) as [|x l] eqn:E.
  { apply Permutation_nil in Hu. subst G. rewrite app_nil_r. by rewrite Hg. }
  rewrite Hg. set (u := unique _) in *. destruct (need_sort a) eqn:Hsort; simpl; rewrite Hg.
  + destruct (owned_free_direct G a Hok Hg Hnd (free_pages a) (u ++ release_pages a));
      [rewrite Hu; solve_Permutation|congruence|done].
  + destruct (owned_free_direct G a Hok Hg Hnd (u ++ free_pages a) (release_pages a));
      [rewrite Hu; solve_Permutation|auto|done].
Defined.

Definition token_KVPartial : @KVPartial Alloc token_KVAllocator.
Proof.
  intros r G a Hok Hg Hnd Hr. pose proof Hok as [Hok1 Hp]. cbn [kv_page token_KVAllocator] in *.
  assert (take r (expand_pages (page_size a) G) = expand_pages (page_size a) G) as ->.
  { rewrite Hp, expand_pages_1 in *. apply take_ge. unfold len in Hr. lia. }
  destruct (@kv_free_spec Alloc token_KVAllocator (expand_pages (page_size a) G) a) as (F1 & F2 & F3 & F4); [done| |done|].
  - exists G. split; [done|]. apply (NoDup_expand_pages (page_size a)); [lia|]. by apply NoDup_app in Hnd as (_ & _ & ?).
  - split_and!; [exact F1|by rewrite F3|exact F2|exact F4].
Defined.

Section lifecycle.
Context {T : Type} `{!KVAllocator T}.
Context (cfg : Config) (now : nat -> Z) (sha256 : list Z -> string).
Local Abbreviation ps := (cfg_page_size cfg).
Local Abbreviation pg := (Z.of_nat (cfg_page_size cfg)).
Context (Hps : (0 < ps)%nat) (Hevents : enable_kv_cache_events cfg = false) (Hd : disable cfg = false).
Context (Heagle : is_eagle cfg = false).
Implicit Types s : Cache T.

(** The key of the first whole pages of the tokens [ids]. *)
Definition req_key (ids : list Z) (ek : option string) : RadixKey := page_aligned ps (mkRadixKey ids ek (is_eagle cfg)).
Definition full_len (ids : list Z) : nat := (length ids / ps * ps)%nat.

Lemma key_take_all k : is_bigram k = false -> key_take (key_len k) k = k.
Proof.
  destruct k as [t ek b]. simpl. intros ->. unfold key_take, key_slice, key_len, slice_index. cbn [is_bigram token_ids extra_key].
  destruct (Z.ltb_spec (Z.of_nat (length t)) 0); [lia|]. rewrite Nat2Z.id, Nat.min_id. unfold slice.
  by rewrite drop_0, Nat.sub_0_r, firstn_all.
Qed.

Lemma req_key_ok ids ek :
  is_bigram (req_key ids ek) = false /\ extra_key (req_key ids ek) = ek /\ key_len (req_key ids ek) = full_len ids /\
  units (req_key ids ek) = take (full_len ids) (units (mkRadixKey ids ek false)) /\ lookup_key cfg (req_key ids ek) = req_key ids ek.
Proof.
  unfold req_key, lookup_key. rewrite Heagle. destruct (page_aligned_spec ps (mkRadixKey ids ek false) Hps) as (E1 & E2 & E3).
  pose proof (page_aligned_len ps (mkRadixKey ids ek false) Hps) as E4. change (key_len (mkRadixKey ids ek false)) with (length ids) in *.
  fold (full_len ids) in *. split_and!; [done|done|done|done|]. unfold maybe_to_bigram_view. cbn [andb fst].
  set (k := page_aligned ps (mkRadixKey ids ek false)) in *. unfold page_aligned. destruct (ps =? 1)%nat; [done|].
  rewrite (aligned_floor ps (key_len k)); [by apply key_take_all|done|]. rewrite E4. by apply aligned_mul.
Qed.

Lemma full_len_le ids : (full_len ids <= length ids < full_len ids + ps)%nat.
Proof. unfold full_len. pose proof (Nat.div_mod_eq (length ids) ps). pose proof (Nat.mod_upper_bound (length ids) ps ltac:(lia)). lia. Qed.

(** What a request that has computed [ids] holds: the node [i] with its first [p] tokens, and
    the pages [G] for the others; [hs] are the nodes and [others] the slots of other requests. *)
Record holds (hs : list nat) (others : list Z) (s : Cache T) (ek : option string) (ids row : list Z) (i p : nat) (G : list Z) : Prop :=
  mkHolds {
  ho_inv : inv ps (is_eagle cfg) (i :: hs) (abs s);
  ho_kv : kv_ok (kv_pool s) /\ kv_in_group (kv_pool s) = false /\ kv_page (kv_pool s) = pg;
  ho_tree : pages_ok ps (abs s);
  ho_p : aligned ps p /\ (p <= length ids <= length row)%nat;
  ho_path : path (abs s) ek (root_node s) (take p (units (mkRadixKey ids ek false))) (take p row) i;
  ho_row : row_pages ps row p (length ids) G;
  ho_slots : NoDup (slots (abs s) ++ kv_owned (kv_pool s) ++ expand_pages pg G ++ others) }.

Lemma cached_of_path s hs ek us vs j : inv ps (is_eagle cfg) hs (abs s) -> path (abs s) ek (root_node s) us vs j -> cached (abs s) ek us vs.
Proof.
  intros HI Hp. split; [by eapply (path_length ps (is_eagle cfg) Hps (abs s)); [apply HI|]|]. exists [], [], j. by rewrite !app_nil_r.
Qed.

(** Inserting the whole pages of a request and giving duplicates back. *)
Record handed (hs : list nat) (s s' : Cache T) (ek : option string) (ids row : list Z) (i p : nat) (G : list Z)
    (m : nat) (vs : list Z) : Prop := mkHanded {
  hd_inv : inv ps (is_eagle cfg) (i :: hs) (abs s');
  hd_kv : kv_ok (kv_pool s') /\ kv_in_group (kv_pool s') = false /\ kv_page (kv_pool s') = pg;
  hd_tree : pages_ok ps (abs s');
  hd_rows : req_to_token s' = req_to_token s;
  hd_m : aligned ps m /\ (p <= m <= full_len ids)%nat;
  hd_cached : cached (abs s') ek (units (req_key ids ek)) (vs ++ drop m (take (full_len ids) row));
  hd_vs : length vs = m /\ take p vs = take p row;
  hd_root : root_node s' = root_node s;
  hd_path : forall ek us ws j, path (abs s) ek (root_node s) us ws j -> path (abs s') ek (root_node s') us ws j;
  hd_slots : slots (abs s') ++ kv_owned (kv_pool s') ++ expand_pages pg (drop ((full_len ids - p) / ps) G)
    ≡ₚ slots (abs s) ++ kv_owned (kv_pool s) ++ expand_pages pg G }.

Lemma insert_release_ok hs others s ek ids row i p G prio chunked :
  holds hs others s ek ids row i p G ->
  exists m vs s1, insert cfg now sha256 (mkInsertParams (req_key ids ek) (Some (take (full_len ids) (take (length ids) row))) prio chunked) s = (Ret m, s1) /\
    handed hs s (set_pool (kv_free (slice (take (length ids) row) p m) (kv_pool s1)) s1) ek ids row i p G m vs.
Proof.
  intros [HI (Hok & Hg & Hpg) HT (Hap & Hpn) Hpath Hrow Hnd]. destruct (req_key_ok ids ek) as (K1 & K2 & K3 & K4 & K5).
  pose proof (full_len_le ids) as Hf. assert (aligned ps (full_len ids)) as Haf by by apply aligned_mul.
  set (params := mkInsertParams _ _ _ _).
  assert (insert_value cfg params = take (full_len ids) row) as Hval.
  { unfold insert_value, params, maybe_to_bigram_view. rewrite Heagle. cbn [andb snd ip_key ip_value]. rewrite K5, K3.
    rewrite !take_take. f_equal. lia. }
  destruct (insert_ok cfg now sha256 Hps Hevents (i :: hs) s params HI Hd) as (m & vs & s1 & E & [Fp Fr] & [I1 I2 I3 _ I5 _ _ I8 I9 I10]);
    [by left|rewrite Hval; change (ip_key params) with (req_key ids ek); rewrite K5, K3, length_take; lia|].
  change (ip_key params) with (req_key ids ek) in *. rewrite K5 in *. rewrite Hval in *. rewrite K2 in *.
  pose proof I2 as [L1 L2 L3 L4]. rewrite K2, K3 in *.
  assert (length vs = m) as Hvs by (destruct L3 as [El _]; rewrite length_take, length_units, K3 in El; lia).
  pose proof (cached_of_path s _ _ _ _ _ HI Hpath) as Hcp.
  assert (p <= full_len ids)%nat as Hpf by (apply aligned_le_floor; [done|done|lia]).
  assert (take p (units (req_key ids ek)) = take p (units (mkRadixKey ids ek false))) as Hup.
  { rewrite K4, take_take, Nat.min_l by lia. done. }
  assert (p <= m)%nat as Hpm by (apply (L4 p (take p row)); [done|done|by rewrite Hup]).
  set (a := ((m - p) / ps)%nat). set (n := length ids) in *. set (f := full_len ids) in *.
  assert (a * ps = m - p)%nat as Ha by (by apply aligned_floor, aligned_sub).
  pose proof (row_pages_drop ps Hps row p n G m Hrow Hap L1 ltac:(lia)) as Hrow2. fold a in Hrow2.
  assert (slice (take n row) p m = expand_pages pg (take a G)) as Hs1 by (apply row_pages_slice; [done|done|done|done|lia]).
  assert (drop m (take f row) = expand_pages pg (take ((f - m) / ps) (drop a G))) as Hs2.
  { rewrite <-(row_pages_slice ps Hps row m n (drop a G) f Hrow2 L1 Haf ltac:(lia)). unfold slice.
    rewrite skipn_firstn_comm, skipn_firstn_comm, take_take. f_equal. lia. }
  assert ((f - p) / ps = a + (f - m) / ps)%nat as Hb.
  { apply (Nat.mul_cancel_r _ _ ps); [lia|]. rewrite Nat.mul_add_distr_r, Ha, !aligned_floor by (done || by apply aligned_sub). lia. }
  assert (drop ((f - p) / ps) G = drop ((f - m) / ps) (drop a G)) as Hdr by (rewrite drop_drop, Hb; done).
  assert (expand_pages pg G = expand_pages pg (take a G) ++ drop m (take f row) ++ expand_pages pg (drop ((f - p) / ps) G)) as HG.
  { rewrite Hs2, Hdr, <-!expand_pages_app, take_drop, take_drop. done. }
  assert (NoDup G) as HndG by (apply (NoDup_expand_pages pg); [lia|]; by apply NoDup_app in Hnd as (_ & _ & (_ & _ & (? & _)%NoDup_app)%NoDup_app)).
  destruct (kv_free_spec (slice (take n row) p m) (kv_pool s1)) as (F1 & F2 & F3 & F4); [by rewrite Fp| | |].
  { rewrite Fp, Hpg, Hs1. eexists. split; [done|]. by apply NoDup_split_at. }
  { rewrite Fp, Hs1. apply NoDup_app in Hnd as (_ & _ & Hnd). rewrite HG, <-!(assoc_L (++)), (assoc_L (++)) in Hnd. by apply NoDup_app in Hnd as (? & _). }
  exists m, vs, s1. split; [exact E|].
  constructor; simpl; [done|split_and!; [exact F1|by rewrite F3, Fp|by rewrite F2, Fp]|apply I10; [done|]|done|done| |split; [done|]|done| |].
  - rewrite Hs2. eexists. split; [done|]. by apply NoDup_split_at, NoDup_split_at.
  - apply I3. right. exists f. rewrite take_ge by (rewrite length_units, K3; lia). split; [done|].
    rewrite (take_ge (vs ++ _)); [done|]. rewrite length_app, length_drop, length_take. lia.
  - eapply (cached_unique ps (is_eagle cfg) Hps (abs s) (inv_t _ _ _ _ HI) _ _ (root_node s)); [apply Nat.lt_succ_diag_r| | |exact Hcp].
    + rewrite length_take, length_units. change (key_len (mkRadixKey ids ek false)) with n. by rewrite Nat.min_l by lia.
    + rewrite <-Hup. pose proof (cached_prefix _ _ _ _ _ p L3) as Hc. by rewrite take_take, Nat.min_l in Hc by lia.
  - intros ek' us ws j Hp. change (root_node s1) with (a_root (abs s1)). rewrite I5. by apply I8.
  - change (slots (abs s1) ++ kv_owned (kv_free (slice (take n row) p m) (kv_pool s1)) ++ expand_pages pg (drop ((f - p) / ps) G)
      ≡ₚ slots (abs s) ++ kv_owned (kv_pool s) ++ expand_pages pg G).
    rewrite F4, I9, Fp, Hs1, HG. solve_Permutation.
Qed.

(** Looking the pages up again finds all of them. *)
Lemma match_handed hs s s' ek ids row i p G m vs :
  (length ids <= length row)%nat -> handed hs s s' ek ids row i p G m vs ->
  exists r s2, match_prefix cfg now (req_key ids ek) s' = (Ret r, s2) /\ frame s' s2 /\
    device_indices r = vs ++ drop m (take (full_len ids) row) /\ length (device_indices r) = full_len ids /\
    walked ps (is_eagle cfg) (i :: hs) (abs s') (abs s2) (root_node s') (req_key ids ek) (full_len ids) (device_indices r) (last_device_node r).
Proof.
  intros Hl [HI _ _ _ (Ham & Hm) Hc (Hvs & _) _ _ _]. destruct (req_key_ok ids ek) as (K1 & K2 & K3 & K4 & K5).
  pose proof (full_len_le ids) as Hf.
  destruct (match_prefix_ok cfg now Hps (i :: hs) s' (req_key ids ek) HI Hd) as (r & s2 & m2 & E & F & HW & _); [by left|].
  rewrite K5 in HW. pose proof (wk_longest _ _ _ _ _ _ _ _ _ _ HW) as [L1 L2 L3 L4]. rewrite K2, K3 in *.
  assert (aligned ps (full_len ids)) as Haf by by apply aligned_mul.
  assert (units (req_key ids ek) = take (full_len ids) (units (req_key ids ek))) as Hu by (rewrite take_ge; [done|]; rewrite length_units; lia).
  assert (m2 = full_len ids) as ->.
  { enough (full_len ids <= m2)%nat by lia. eapply L4; [done|done|]. rewrite <-Hu. exact Hc. }
  assert (device_indices r = vs ++ drop m (take (full_len ids) row)) as Hdev.
  { eapply (cached_unique ps (is_eagle cfg) Hps (abs s') (inv_t _ _ _ _ HI) _ _ (root_node s')); [apply Nat.lt_succ_diag_r| |exact L3|].
    - rewrite length_take, length_units, K3, Nat.min_id. done.
    - rewrite <-Hu. exact Hc. }
  exists r, s2. split_and!; [done|done|done| |done]. rewrite Hdev, length_app, length_drop, length_take. lia.
Qed.

(** The row of a request after its prefix has been replaced by the tree's. *)
Lemma row_replaced (row w : list Z) p f :
  (p <= f <= length row)%nat -> length w = f -> take p w = take p row ->
  let row' := list_inserts p (drop p w) row in
  take f row' = w /\ drop f row' = drop f row /\ length row' = length row.
Proof.
  intros Hle Hw Hp row'. assert (row' = w ++ drop f row) as ->.
  { unfold row'. rewrite list_inserts_middle by (rewrite length_drop; lia). rewrite length_drop, <-Hp.
    replace (p + (length w - p))%nat with f by lia. by rewrite (assoc_L (++)), take_drop. }
  rewrite take_app_length', drop_app_length', length_app, length_drop by done. split_and!; [done|done|lia].
Qed.

(** Locking and unlocking move no slot. *)
Lemma same_slots A A' : same_contents A A' -> slots A' = slots A /\ (pages_ok ps A -> pages_ok ps A').
Proof.
  intros HS. assert (forall k, sh_value <$> a_ns A' !! k = sh_value <$> a_ns A !! k) as Hv.
  { intros k. pose proof (sc_node _ _ HS k) as E. destruct (a_ns A' !! k), (a_ns A !! k); simplify_eq/=; congruence. }
  split.
  - apply cat_ext. intros k. specialize (Hv k). unfold slot_list. destruct (a_ns A' !! k), (a_ns A !! k); simplify_eq/=; congruence.
  - intros HP k n Hk. specialize (Hv k). rewrite Hk in Hv. destruct (a_ns A !! k) as [n0|] eqn:E; [|done].
    specialize (HP k n0 E). unfold node_slots, slot_list in *. simplify_eq/=. congruence.
Qed.

(** Moving a request's lock from one node to another. *)
Lemma relock_ok hs s i j :
  inv ps (is_eagle cfg) (i :: hs) (abs s) -> is_Some (a_ns (abs s) !! j) ->
  exists (d1 d2 : Z) (s1 s2 : Cache T), dec_lock_ref cfg (Some i) s = (Ret d1, s1) /\ inc_lock_ref cfg (Some j) s1 = (Ret d2, s2) /\
    inv ps (is_eagle cfg) (j :: hs) (abs s2) /\ same_contents (abs s) (abs s2) /\ frame s s2.
Proof.
  intros HI Hj. destruct (dec_lock_ref_ok cfg (i :: hs) hs s i HI Hd) as (s1 & E1 & I1 & S1 & F1); [done|].
  destruct (inc_lock_ref_ok cfg hs s1 j I1 Hd) as (s2 & E2 & I2 & S2 & F2).
  { destruct Hj as [n Hn]. eapply path_start, (sc_path _ _ S1). by eapply (path_nil _ None). }
  eexists _, _, s1, s2. split_and!; [exact E1|exact E2|exact I2|by eapply same_trans|].
  unfold frame in *. destruct_and?. split; congruence.
Qed.


Lemma bind_row_prefix {B} row n r (f : list Z -> PyM (Cache T) B) s :
  req_to_token s !! row = Some r -> (row_prefix row n ≫= f) s = f (take n r) s.
Proof. intros E. unfold row_prefix, mbind, PyM_bind, py_get, of_option. by rewrite E. Qed.

Lemma write_row_ok row a vs r s :
  req_to_token s !! row = Some r -> write_row row a vs s = (Ret tt, set_req_to_token (<[row := list_inserts a vs r]> (req_to_token s)) s).
Proof. intros E. unfold write_row, mbind, PyM_bind, py_get, of_option. by rewrite E. Qed.

(** [cache_unfinished_req] hands the whole pages over and keeps the rest. *)
Lemma cache_unfinished_req_ok hs others s req row i p G chunked :
  holds hs others s (req_extra_key req) (fill_ids req) row i p G ->
  req_to_token s !! req_pool_idx req = Some row -> last_node req = Some i -> cache_protected_len req = p ->
  exists req' s' row' j, cache_unfinished_req cfg now sha256 req chunked s = (Ret req', s') /\
    holds hs others s' (req_extra_key req) (fill_ids req) row' j (full_len (fill_ids req)) (drop ((full_len (fill_ids req) - p) / ps) G) /\
    last_node req' = Some j /\ cache_protected_len req' = full_len (fill_ids req) /\
    prefix_indices req' = take (length (fill_ids req)) row' /\
    req_to_token s' = <[req_pool_idx req := row']> (req_to_token s) /\ length row' = length row /\
    slots (abs s') ++ kv_owned (kv_pool s') ++ expand_pages pg (drop ((full_len (fill_ids req) - p) / ps) G)
      ≡ₚ slots (abs s) ++ kv_owned (kv_pool s) ++ expand_pages pg G /\
    (forall ek us ws h, path (abs s) ek (root_node s) us ws h -> path (abs s') ek (root_node s') us ws h).
Proof.
  intros HH Hr Hl Hc. pose proof HH as [_ _ _ (Hap & Hpn) _ Hrow Hnd]. set (ids := fill_ids req) in *. set (ek := req_extra_key req) in *.
  destruct (req_key_ok ids ek) as (K1 & K2 & K3 & K4 & K5). pose proof (full_len_le ids) as Hf.
  destruct (insert_release_ok hs others s ek ids row i p G (Some (default 0 (req_priority req))) chunked HH) as (m & vs & s1 & E1 & Hh).
  set (s2 := set_pool _ s1) in Hh. pose proof Hh as [_ Hkv HT Hrows (Ham & Hm) _ (Hvl & Hvp) Hroot Hpaths Hsl].
  destruct (match_handed hs s s2 ek ids row i p G m vs) as (r & s3 & E3 & [Fp Fr] & Edev & Elen & HW); [lia|done|].
  set (j := last_device_node r) in *. pose proof HW as [W1 W2 W3 W4 W5 W6].
  set (s4 := set_req_to_token (<[req_pool_idx req := list_inserts p (drop p (device_indices r)) row]> (req_to_token s3)) s3).
  destruct (relock_ok hs s4 i j) as (d1 & d2 & s5 & s6 & E5 & E6 & I6 & S6 & [F6p F6r]); [exact W1|by eapply path_end|].
  destruct (row_replaced row (device_indices r) p (full_len ids)) as (R1 & R2 & R3); [lia|done| |].
  { rewrite Edev, take_app_le by lia. done. }
  assert (aligned ps (full_len ids)) as Haf by by apply aligned_mul.
  destruct (same_slots _ _ S6) as [Hss Hsp].
  set (row' := list_inserts p (drop p (device_indices r)) row) in *.
  assert (forall ek us ws h, path (abs s) ek (root_node s) us ws h -> path (abs s6) ek (root_node s6) us ws h) as Hpp.
  { intros ek' us ws h Hp. apply Hpaths in Hp. change (root_node s6) with (a_root (abs s6)). rewrite (sc_root _ _ S6).
    apply (sc_path _ _ S6). change (a_root (abs s4)) with (a_root (abs s3)). rewrite (ex_root _ _ W2). by apply (ex_path _ _ W2). }
  assert (slots (abs s6) ++ kv_owned (kv_pool s6) ++ expand_pages pg (drop ((full_len ids - p) / ps) G)
      ≡ₚ slots (abs s) ++ kv_owned (kv_pool s) ++ expand_pages pg G) as Hsl6.
  { rewrite Hss. change (abs s4) with (abs s3). rewrite W5, F6p. change (kv_pool s4) with (kv_pool s3). rewrite Fp. exact Hsl. }
  eexists _, s6, row', j. split.
  - unfold cache_unfinished_req. rewrite Hd. fold ids ek. erewrite bind_row_prefix by exact Hr.
    fold (req_key ids ek). rewrite K3. erewrite py_bind_Ret by exact E1. rewrite Hc.
    erewrite py_bind_Ret by reflexivity. erewrite py_bind_Ret by exact E3.
    rewrite Elen, Nat.eqb_refl. erewrite py_bind_Ret by reflexivity.
    erewrite py_bind_Ret; [|apply write_row_ok; by rewrite Fr, Hrows].
    rewrite Hl. erewrite py_bind_Ret by exact E5. erewrite py_bind_Ret by exact E6. reflexivity.
  - cbn [last_node cache_protected_len prefix_indices]. split_and!; [|done|done| | |exact R3|exact Hsl6|exact Hpp].
    + constructor; [exact I6|rewrite F6p; change (kv_pool s4) with (kv_pool s3); by rewrite Fp|by apply Hsp, W6|
        split; [done|]; fold row'; lia| | |].
      * change (root_node s6) with (a_root (abs s6)). rewrite (sc_root _ _ S6). apply (sc_path _ _ S6).
        change (a_root (abs s4)) with (a_root (abs s3)). rewrite (ex_root _ _ W2). rewrite R1.
        rewrite K2, K4, take_take, Nat.min_id in W4. exact W4.
      * pose proof (row_pages_drop ps Hps row p _ G (full_len ids) Hrow Hap Haf ltac:(lia)) as [H1 H2]. split; [|done].
        rewrite skipn_firstn_comm, R2, <-skipn_firstn_comm. exact H1.
      * rewrite !(assoc_L (++)), <-(assoc_L (++) _ (kv_owned _)), Hsl6, <-!(assoc_L (++)). exact Hnd.
    + destruct (Nat.ltb_spec (full_len ids) (length (take (length ids) row))) as [Hlt|Hge].
      * rewrite <-R1 at 1. rewrite skipn_firstn_comm, <-R2, <-skipn_firstn_comm.
        replace (take (full_len ids) row') with (take (full_len ids) (take (length ids) row')) by (rewrite take_take; f_equal; lia).
        apply take_drop.
      * rewrite length_take in Hge. replace (length ids) with (full_len ids) by lia. by rewrite R1.
    + rewrite F6r. change (req_to_token s4) with (<[req_pool_idx req := row']> (req_to_token s3)). by rewrite Fr, Hrows.
Qed.

(** ** A finished request *)

Context `{!KVPartial T}.

(** Giving back the tokens after [f] frees the pages they are in. *)
Lemma free_tail_ok row f n G (a : T) :
  row_pages ps row f n G -> kv_ok a -> kv_in_group a = false -> kv_page a = pg ->
  NoDup (kv_owned a ++ expand_pages pg G) ->
  let a' := kv_free (drop f (take n row)) a in
  kv_ok a' /\ kv_in_group a' = false /\ kv_page a' = pg /\ kv_owned a' ≡ₚ kv_owned a ++ expand_pages pg G.
Proof.
  intros [-> Hlen] Hok Hg Hpg Hnd. rewrite <-Hpg in Hnd |- *. apply kv_free_part; [done|done|done|]. rewrite Hpg. unfold len. nia.
Qed.

(** What [cache_finished_req] does before it gives the tail back: insert and release, or only
    release. *)
Definition finish_pages (req : Req) (is_insert : bool) (ids kv : list Z) : PyM (Cache T) unit :=
  if is_insert then
    prefix_len ← insert cfg now sha256 (mkInsertParams (req_key ids (req_extra_key req))
      (Some (take (key_len (req_key ids (req_extra_key req))) kv)) (Some (default 0 (req_priority req))) false);
    kv_release (slice kv (cache_protected_len req) prefix_len)
  else kv_release (slice kv (cache_protected_len req) (key_len (req_key ids (req_extra_key req)))).

Lemma finish_pages_ok hs others s req row i p G (is_insert : bool) ids :
  holds hs others s (req_extra_key req) ids row i p G -> cache_protected_len req = p ->
  exists s', finish_pages req is_insert ids (take (length ids) row) s = (Ret tt, s') /\
    inv ps (is_eagle cfg) (i :: hs) (abs s') /\
    (kv_ok (kv_pool s') /\ kv_in_group (kv_pool s') = false /\ kv_page (kv_pool s') = pg) /\
    pages_ok ps (abs s') /\ req_to_token s' = req_to_token s /\
    (forall ek us ws h, path (abs s) ek (root_node s) us ws h -> path (abs s') ek (root_node s') us ws h) /\
    slots (abs s') ++ kv_owned (kv_pool s') ++ expand_pages pg (drop ((full_len ids - p) / ps) G)
      ≡ₚ slots (abs s) ++ kv_owned (kv_pool s) ++ expand_pages pg G /\
    (if is_insert then exists ws, cached (abs s') (req_extra_key req) (units (req_key ids (req_extra_key req))) ws
     else abs s' = abs s).
Proof.
  intros HH Hc. unfold finish_pages. set (ek := req_extra_key req) in *. destruct (req_key_ok ids ek) as (K1 & K2 & K3 & K4 & K5).
  pose proof (full_len_le ids) as Hf. rewrite K3, Hc. destruct is_insert.
  - destruct (insert_release_ok hs others s ek ids row i p G (Some (default 0 (req_priority req))) false HH) as (m & vs & s1 & E1 & Hh).
    eexists. split; [erewrite py_bind_Ret by exact E1; reflexivity|]. destruct Hh as [HI Hkv HT Hrows _ Hcd _ _ Hpp Hsl].
    split_and!; [exact HI|apply Hkv..|exact HT|exact Hrows|exact Hpp|exact Hsl|eauto].
  - destruct HH as [HI (Hok & Hg & Hpg) HT (Hap & Hpn) Hpath Hrow Hnd].
    assert (aligned ps (full_len ids)) as Haf by by apply aligned_mul.
    assert (p <= full_len ids)%nat as Hpf by (apply aligned_le_floor; [done|done|lia]).
    rewrite (row_pages_slice ps Hps row p _ G (full_len ids)) by (done || lia). set (a := ((full_len ids - p) / ps)%nat).
    assert (NoDup G) as HndG by (apply (NoDup_expand_pages pg); [lia|]; by apply NoDup_app in Hnd as (_ & _ & (_ & _ & (? & _)%NoDup_app)%NoDup_app)).
    destruct (kv_free_spec (expand_pages pg (take a G)) (kv_pool s) Hok) as (F1 & F2 & F3 & F4).
    { rewrite Hpg. eexists. split; [done|]. by apply NoDup_split_at. }
    { apply NoDup_app in Hnd as (_ & _ & Hnd). rewrite <-(take_drop a G), expand_pages_app, <-!(assoc_L (++)), (assoc_L (++)) in Hnd. by apply NoDup_app in Hnd as (? & _). }
    eexists. split; [reflexivity|]. split_and!; [exact HI|exact F1|cbn; congruence|cbn; congruence|exact HT|done|done| |done].
    change (slots (abs s) ++ kv_owned (kv_free (expand_pages pg (take a G)) (kv_pool s)) ++ expand_pages pg (drop a G)
      ≡ₚ slots (abs s) ++ kv_owned (kv_pool s) ++ expand_pages pg G).
    rewrite F4. rewrite <-(take_drop a G) at 3. rewrite expand_pages_app. solve_Permutation.
Qed.

(** The tokens whose slots a finished request gives up. *)
Definition committed_ids (req : Req) : list Z := take (_cache_commit_len cfg req) (origin_input_ids req ++ output_ids req).

Lemma cache_finished_req_ok hs others s req row i p G is_insert :
  kv_committed_freed req = false ->
  holds hs others s (req_extra_key req) (committed_ids req) row i p G ->
  req_to_token s !! req_pool_idx req = Some row -> last_node req = Some i -> cache_protected_len req = p ->
  exists s', cache_finished_req cfg now sha256 req is_insert s = (Ret (mark_committed_freed req), s') /\
    inv ps (is_eagle cfg) hs (abs s') /\ pages_ok ps (abs s') /\
    (kv_ok (kv_pool s') /\ kv_in_group (kv_pool s') = false /\ kv_page (kv_pool s') = pg) /\
    req_to_token s' = req_to_token s /\
    slots (abs s') ++ kv_owned (kv_pool s') ≡ₚ slots (abs s) ++ kv_owned (kv_pool s) ++ expand_pages pg G /\
    (forall ek us ws h, path (abs s) ek (root_node s) us ws h -> path (abs s') ek (root_node s') us ws h) /\
    (if is_insert && negb (disable_finished_insert cfg)
     then exists ws, cached (abs s') (req_extra_key req) (units (req_key (committed_ids req) (req_extra_key req))) ws
     else slots (abs s') = slots (abs s)).
Proof.
  intros Hfr HH Hr Hl Hc. set (ids := committed_ids req) in *. set (ek := req_extra_key req) in *. set (b := is_insert && _).
  pose proof HH as [_ _ _ (Hap & Hpn) _ Hrow Hnd]. pose proof (full_len_le ids) as Hf.
  destruct (req_key_ok ids ek) as (_ & _ & K3 & _ & _).
  destruct (finish_pages_ok hs others s req row i p G b ids HH Hc) as (s1 & E1 & HI & (Hok & Hg & Hpg) & HT & Hrt & Hpp & Hsl & Hfin).
  assert (aligned ps (full_len ids)) as Haf by by apply aligned_mul.
  assert (p <= full_len ids)%nat as Hpf by (apply aligned_le_floor; [done|done|lia]).
  pose proof (row_pages_drop ps Hps row p _ G (full_len ids) Hrow Hap Haf ltac:(lia)) as Hrow2. set (a := ((full_len ids - p) / ps)%nat) in *.
  destruct (free_tail_ok row (full_len ids) (length ids) (drop a G) (kv_pool s1) Hrow2 Hok Hg Hpg) as (T1 & T2 & T3 & T4).
  { rewrite !(assoc_L (++)), <-(assoc_L (++) (slots _)), <-Hsl in Hnd. by apply NoDup_app in Hnd as ((_ & _ & ?)%NoDup_app & _). }
  set (s2 := set_pool (kv_free (drop (full_len ids) (take (length ids) row)) (kv_pool s1)) s1).
  destruct (dec_lock_ref_ok cfg (i :: hs) hs s2 i HI Hd) as (s3 & E3 & I3 & S3 & [F3p F3r]); [done|].
  destruct (same_slots _ _ S3) as [Hss Hsp]. exists s3. split; [|split_and!].
  - unfold cache_finished_req, pop_committed_kv_cache. rewrite Hfr. erewrite py_bind_Ret by reflexivity. rewrite Hd.
    change (take (_cache_commit_len cfg req) (origin_input_ids (mark_committed_freed req) ++ output_ids (mark_committed_freed req))) with ids.
    erewrite bind_row_prefix by exact Hr. cbn [mark_committed_freed req_extra_key req_priority cache_protected_len last_node].
    fold ek (req_key ids ek). erewrite py_bind_Ret by exact E1. rewrite K3, Hl. erewrite py_bind_Ret by reflexivity.
    fold s2. erewrite py_bind_Ret; [reflexivity|]. by erewrite py_bind_Ret by exact E3.
  - exact I3.
  - by apply Hsp.
  - by rewrite F3p.
  - by rewrite F3p.
  - by rewrite F3p.
  - rewrite F3r. exact Hrt.
  - rewrite Hss, F3p. change (slots (abs s1) ++ kv_owned (kv_free (drop (full_len ids) (take (length ids) row)) (kv_pool s1)) ≡ₚ slots (abs s) ++ kv_owned (kv_pool s) ++ expand_pages pg G).
    by rewrite T4.
  - intros ek' us ws h Hp%Hpp. change (root_node s3) with (a_root (abs s3)). rewrite (sc_root _ _ S3). by apply (sc_path _ _ S3).
  - destruct b.
    + destruct Hfin as [ws [El (w & x & j & Hp)]]. exists ws. split; [done|]. exists w, x, j. rewrite (sc_root _ _ S3). by apply (sc_path _ _ S3).
    + rewrite Hss. change (abs s2) with (abs s1). by rewrite Hfin.
Qed.

(** C12. Caching an unfinished request neither loses a KV slot nor lets two owners have it.
    For a request that holds a tree node with the first p tokens of its row and its own pages
    for the rest, cache_unfinished_req succeeds; afterwards the request holds the node with
    all its whole pages, its row reads that node's slots, only the pages after them are its
    own, and the slots of the tree, of the pool and of the request together are the same;
    every path of another request is still in the tree. *)
Theorem cache_unfinished_req_conserves hs others s req row i p G chunked :
  holds hs others s (req_extra_key req) (fill_ids req) row i p G ->
  req_to_token s !! req_pool_idx req = Some row -> last_node req = Some i -> cache_protected_len req = p ->
  exists req' s' row' j, cache_unfinished_req cfg now sha256 req chunked s = (Ret req', s') /\
    holds hs others s' (req_extra_key req) (fill_ids req) row' j (full_len (fill_ids req)) (drop ((full_len (fill_ids req) - p) / ps) G) /\
    last_node req' = Some j /\ cache_protected_len req' = full_len (fill_ids req) /\
    prefix_indices req' = take (length (fill_ids req)) row' /\
    req_to_token s' = <[req_pool_idx req := row']> (req_to_token s) /\ length row' = length row /\
    slots (abs s') ++ kv_owned (kv_pool s') ++ expand_pages pg (drop ((full_len (fill_ids req) - p) / ps) G)
      ≡ₚ slots (abs s) ++ kv_owned (kv_pool s) ++ expand_pages pg G /\
    (forall ek us ws h, path (abs s) ek (root_node s) us ws h -> path (abs s') ek (root_node s') us ws h).
Proof. apply cache_unfinished_req_ok. Qed.

(** C11. A finished request gives every page of its own back, to the tree or to the pool.
    cache_finished_req succeeds, releases the request's lock, and the slots of the tree and
    the pool afterwards are those from before together with the request's pages, the page of
    an unaligned tail included, whether or not the tokens are inserted; when they are, the
    tree has the whole pages cached, and paths of other requests stay. *)
Theorem cache_finished_req_returns_all hs others s req row i p G is_insert :
  kv_committed_freed req = false ->
  holds hs others s (req_extra_key req) (committed_ids req) row i p G ->
  req_to_token s !! req_pool_idx req = Some row -> last_node req = Some i -> cache_protected_len req = p ->
  exists s', cache_finished_req cfg now sha256 req is_insert s = (Ret (mark_committed_freed req), s') /\
    inv ps (is_eagle cfg) hs (abs s') /\ pages_ok ps (abs s') /\
    (kv_ok (kv_pool s') /\ kv_in_group (kv_pool s') = false /\ kv_page (kv_pool s') = pg) /\
    req_to_token s' = req_to_token s /\
    slots (abs s') ++ kv_owned (kv_pool s') ≡ₚ slots (abs s) ++ kv_owned (kv_pool s) ++ expand_pages pg G /\
    (forall ek us ws h, path (abs s) ek (root_node s) us ws h -> path (abs s') ek (root_node s') us ws h) /\
    (if is_insert && negb (disable_finished_insert cfg)
     then exists ws, cached (abs s') (req_extra_key req) (units (req_key (committed_ids req) (req_extra_key req))) ws
     else slots (abs s') = slots (abs s)).
Proof. apply cache_finished_req_ok. Qed.
End lifecycle.

(** ** A request on a small cache: the tree has its first two pages under other slots *)

#[local] Instance life_alloc : KVAllocator Alloc := paged_KVAllocator false.
#[local] Instance life_partial : KVPartial Alloc := paged_KVPartial false.

Definition life_cache : Cache Alloc :=
  set_req_to_token [[6; 7; 8; 9; 10; 0]] (set_pool (set_pages [6; 7; 8] [] (kv_pool demo2)) demo2).
Definition life_req : Req := mkReq 0 [7; 8; 9; 10] [11] [7; 8; 9; 10; 11] None None 0 (Some 0%nat) [] 5 false 0.

Lemma life_holds : holds demo_cfg [] [] life_cache None [7; 8; 9; 10; 11] [6; 7; 8; 9; 10; 0] 0 0 [3; 4; 5].
Proof.
  assert (abs life_cache = abs demo2) as Habs by reflexivity.
  constructor.
  - rewrite Habs. destruct (inc_lock_ref_ok demo_cfg [] demo2 0 demo2_inv eq_refl) as (s' & E & HI & _).
    { change (abs demo2) with (abs demo2). rewrite demo_nodes. eexists. apply lookup_insert_eq. }
    assert (inc_lock_ref demo_cfg (Some 0%nat) demo2 = (Ret 0, demo2)) as E0 by (vm_compute; reflexivity).
    rewrite E0 in E. injection E as _ <-. exact HI.
  - vm_compute. split_and!; try done. apply (bool_decide_eq_true_1 _). vm_compute. reflexivity.
  - rewrite Habs. intros i m Hi. rewrite demo_nodes in Hi.
    apply lookup_insert_Some in Hi as [[<- <-]|[_ Hi]]; [apply paged_nil|].
    apply lookup_singleton_Some in Hi as [<- <-]. exists [1; 2]. split; [reflexivity|].
    apply (bool_decide_eq_true_1 _). reflexivity.
  - split; [apply aligned_0|simpl; lia].
  - rewrite Habs. eapply path_nil. rewrite demo_nodes. apply lookup_insert_eq.
  - split; [reflexivity|simpl; lia].
  - apply (bool_decide_eq_true_1 _). vm_compute. reflexivity.
Qed.

Lemma cache_unfinished_req_conserves_witness :
  exists req' s' row' j, cache_unfinished_req demo_cfg demo_now demo_sha life_req true life_cache = (Ret req', s') /\
    holds demo_cfg [] [] s' None [7; 8; 9; 10; 11] row' j 4 [5] /\ prefix_indices req' = take 5 row'.
Proof.
  destruct (cache_unfinished_req_conserves demo_cfg demo_now demo_sha demo_ps eq_refl eq_refl eq_refl [] [] life_cache life_req
    [6; 7; 8; 9; 10; 0] 0 0 [3; 4; 5] true life_holds eq_refl eq_refl eq_refl) as (req' & s' & row' & j & E & Hh & _ & _ & Hp & _).
  exists req', s', row', j. split; [exact E|]. split; [exact Hh|exact Hp].
Defined.

Lemma cache_finished_req_returns_all_witness :
  exists s', cache_finished_req demo_cfg demo_now demo_sha life_req true life_cache = (Ret (mark_committed_freed life_req), s') /\
    length (slots (abs s') ++ kv_owned (kv_pool s')) = 16%nat.
Proof.
  destruct (cache_finished_req_returns_all demo_cfg demo_now demo_sha demo_ps eq_refl eq_refl eq_refl [] [] life_cache life_req
    [6; 7; 8; 9; 10; 0] 0 0 [3; 4; 5] true eq_refl life_holds eq_refl eq_refl eq_refl) as (s' & E & _ & _ & _ & _ & Hp & _).
  exists s'. split; [exact E|]. rewrite Hp. vm_compute. reflexivity.
Defined.
