(* ===== verification/Json.v ===== *)
(** * JSON values as Python sees them

    [json.loads] gives [None], [bool], [int], [float], [str], [list] and [dict] values; the
    gateways pass such values around untyped, so the operations they apply ([.get], [[0]],
    [len], iteration, truth, [==] with a string, [str.join]) are defined here on every value,
    with the exception Python raises on a value of the wrong type.  A [float] is an IEEE 754
    value ([spec_float]); a character of a [str] is a code point below 256.

    [json_dumps_str] is [json.dumps] of a [str] (with the default [ensure_ascii]);
    [json_unquote] is a reader of the literals it writes. *)

From stdpp Require Import base tactics list gmap strings.
From Stdlib Require Import ZArith Lia Ascii SpecFloat.
From S2P Require Import Prelude PyStr.

#[warnings="-register-all"]
Inductive Json :=
  | JNull
  | JBool (b : bool)
  | JInt (z : Z)
  | JFloat (f : spec_float)
  | JStr (s : string)
  | JList (l : list Json)
  | JObj (d : list (string * Json)).

(** The literal [1.0] *)
Definition float_one : spec_float := S754_finite false 4503599627370496 (-52).

(** [bool(v)] *)
Definition truthy (v : Json) : bool :=
  match v with
  | JNull => false
  | JBool b => b
  | JInt z => negb (z =? 0)
  | JFloat f => match f with S754_zero _ => false | _ => true end
  | JStr s => negb (is_empty_str s)
  | JList l => match l with [] => false | _ => true end
  | JObj d => match d with [] => false | _ => true end
  end.

(** [v == "..."] *)
Definition eq_str (v : Json) (s : string) : bool :=
  match v with JStr t => bool_decide (t = s) | _ => false end.

(** [v.get(k, default)] *)
Definition jget (v : Json) (k : string) (default : Json) : Outcome Json :=
  match v with
  | JObj d => Ret (match dict_get k d with Some x => x | None => default end)
  | _ => Raise AttributeError
  end.

(** [v[0]] *)
Definition jhead (v : Json) : Outcome Json :=
  match v with
  | JList (x :: _) => Ret x
  | JList [] => Raise IndexError
  | JStr (String.String c _) => Ret (JStr (String.String c ""))
  | JStr "" => Raise IndexError
  | JObj _ => Raise KeyError
  | _ => Raise TypeError
  end.

(** [for x in v], [list(v)] *)
Definition jiter (v : Json) : Outcome (list Json) :=
  match v with
  | JList l => Ret l
  | JStr s => Ret ((fun c => JStr (String.String c "")) <$> chars s)
  | JObj d => Ret (JStr <$> dict_keys d)
  | _ => Raise TypeError
  end.

(** [len(v)] *)
Definition jlen (v : Json) : Outcome Z :=
  match v with
  | JList l => Ret (Z.of_nat (length l))
  | JStr s => Ret (Z.of_nat (length (chars s)))
  | JObj d => Ret (Z.of_nat (length d))
  | _ => Raise TypeError
  end.

Definition is_list (v : Json) : bool := match v with JList _ => true | _ => false end.
Definition is_dict (v : Json) : bool := match v with JObj _ => true | _ => false end.

(** [v[k] = x] on a [dict] *)
Definition jset (k : string) (x v : Json) : Outcome Json :=
  match v with JObj d => Ret (JObj (dict_set k x d)) | _ => Raise TypeError end.

(** A comprehension or a loop that computes a value per element, left to right, and stops at
    the first exception. *)
Fixpoint omapM {A B} (f : A -> Outcome B) (l : list A) : Outcome (list B) :=
  match l with
  | [] => Ret []
  | x :: l' => y ← f x; ys ← omapM f l'; Ret (y :: ys)
  end.

Definition as_str (v : Json) : Outcome string :=
  match v with JStr s => Ret s | _ => Raise TypeError end.

(** [sep.join(values)] *)
Definition jjoin (sep : string) (l : list Json) : Outcome string :=
  ss ← omapM as_str l; Ret (str_join sep ss).

Lemma omapM_fmap {A B C} (f : B -> Outcome C) (g : A -> B) l :
  omapM f (g <$> l) = omapM (fun x => f (g x)) l.
Proof. induction l as [|x l IH]; [done|]. rewrite fmap_cons. cbn. by rewrite IH. Qed.

Lemma omapM_Ret {A B} (f : A -> Outcome B) (g : A -> B) l :
  (forall x, x ∈ l -> f x = Ret (g x)) -> omapM f l = Ret (g <$> l).
Proof.
  induction l as [|x l IH]; intros H; [done|]. simpl. rewrite (H x) by left. simpl.
  rewrite IH; [done|]. intros y Hy. apply H. by right.
Qed.

Lemma omapM_length {A B} (f : A -> Outcome B) l l' :
  omapM f l = Ret l' -> length l' = length l.
Proof.
  revert l'. induction l as [|x l IH]; intros l' H; simpl in *; [by simplify_eq|].
  destruct (f x); [|done..]. simpl in H. destruct (omapM f l) as [ys| |]; [|done..].
  simpl in H. simplify_eq. simpl. by rewrite (IH ys).
Qed.

Lemma jjoin_strs sep ss : jjoin sep (JStr <$> ss) = Ret (str_join sep ss).
Proof.
  unfold jjoin. rewrite omapM_fmap, (omapM_Ret _ id) by done. simpl. by rewrite list_fmap_id.
Qed.

(** ** [json.dumps] of a string *)

Definition hex_digit (n : N) : ascii :=
  ascii_of_N (if (n <? 10)%N then 48 + n else 87 + n).

(** [\u00XY] *)
Definition u_escape (n : N) : list ascii :=
  ["\"; "u"; "0"; "0"]%char ++ [hex_digit (n / 16); hex_digit (n mod 16)].

Definition escape_char (c : ascii) : list ascii :=
  match N_of_ascii c with
  | 34%N => ["\"%char; ascii_of_N 34]
  | 92%N => ["\"; "\"]%char
  | 10%N => ["\"; "n"]%char
  | 13%N => ["\"; "r"]%char
  | 9%N => ["\"; "t"]%char
  | 12%N => ["\"; "f"]%char
  | 8%N => ["\"; "b"]%char
  | n => if (32 <=? n)%N && (n <=? 126)%N then [c] else u_escape n
  end.

Definition json_dumps_str (s : string) : string :=
  of_chars ([ascii_of_N 34] ++ concat (escape_char <$> chars s) ++ [ascii_of_N 34]).

(** The characters of a JSON string literal after its opening quote, and the rest of the
    text after its closing quote. *)
Definition unhex (c : ascii) : option N :=
  let n := N_of_ascii c in
  if (48 <=? n)%N && (n <=? 57)%N then Some (n - 48)%N
  else if (97 <=? n)%N && (n <=? 102)%N then Some (n - 87)%N
  else None.

Definition simple_escape (e : ascii) : option ascii :=
  match N_of_ascii e with
  | 34%N => Some e
  | 92%N => Some e
  | 110%N => Some (ascii_of_N 10)
  | 114%N => Some (ascii_of_N 13)
  | 116%N => Some (ascii_of_N 9)
  | 102%N => Some (ascii_of_N 12)
  | 98%N => Some (ascii_of_N 8)
  | _ => None
  end.

Definition hex_escape (z1 z2 h1 h2 : ascii) : option ascii :=
  match unhex z1, unhex z2, unhex h1, unhex h2 with
  | Some 0%N, Some 0%N, Some a, Some b => Some (ascii_of_N (16 * a + b))
  | _, _, _, _ => None
  end.

Definition keep_char (x : ascii) (r : option (list ascii * list ascii)) :=
  match r with Some (s, t) => Some (x :: s, t) | None => None end.

Fixpoint unquote_chars (l : list ascii) : option (list ascii * list ascii) :=
  match l with
  | [] => None
  | c :: l' =>
      if (N_of_ascii c =? 34)%N then Some ([], l')
      else if (N_of_ascii c =? 92)%N then
        match l' with
        | [] => None
        | e :: l2 =>
            match simple_escape e with
            | Some x => keep_char x (unquote_chars l2)
            | None =>
                if (N_of_ascii e =? 117)%N then
                  match l2 with
                  | z1 :: z2 :: h1 :: h2 :: l3 =>
                      match hex_escape z1 z2 h1 h2 with
                      | Some x => keep_char x (unquote_chars l3)
                      | None => None
                      end
                  | _ => None
                  end
                else None
            end
        end
      else if (N_of_ascii c <? 32)%N then None
      else keep_char c (unquote_chars l')
  end.

Definition json_unquote (s : string) : option (string * string) :=
  match chars s with
  | c :: l => if (N_of_ascii c =? 34)%N
              then match unquote_chars l with
                   | Some (a, b) => Some (of_chars a, of_chars b)
                   | None => None
                   end
              else None
  | [] => None
  end.

(** The three shapes of an escaped character, with how each reads back. *)
Inductive escaped (c : ascii) : list ascii -> Prop :=
  | esc_plain : (N_of_ascii c =? 34)%N = false -> (N_of_ascii c =? 92)%N = false ->
      (N_of_ascii c <? 32)%N = false -> escaped c [c]
  | esc_simple e : simple_escape e = Some c -> escaped c ["\"%char; e]
  | esc_hex z1 z2 h1 h2 : hex_escape z1 z2 h1 h2 = Some c ->
      escaped c ["\"; "u"; z1; z2; h1; h2]%char.

Lemma escape_char_escaped c : escaped c (escape_char c).
Proof.
  destruct c as [[] [] [] [] [] [] [] []]; vm_compute;
    (apply esc_plain; reflexivity) || (apply esc_simple; reflexivity) ||
    (apply esc_hex; reflexivity).
Qed.

Lemma unquote_escape_char c s l t :
  unquote_chars l = Some (s, t) -> unquote_chars (escape_char c ++ l) = Some (c :: s, t).
Proof.
  intros H. destruct (escape_char_escaped c) as [H1 H2 H3|e He|z1 z2 h1 h2 He].
  - cbn -[N_of_ascii N.eqb N.ltb]. by rewrite H1, H2, H3, H.
  - cbn -[simple_escape]. by rewrite He, H.
  - cbn -[hex_escape]. by rewrite He, H.
Qed.

Lemma unquote_escape l t :
  unquote_chars (concat (escape_char <$> l) ++ ascii_of_N 34 :: t) = Some (l, t).
Proof.
  induction l as [|c l IH]; [done|]. rewrite fmap_cons. cbn [concat].
  rewrite <-app_assoc. by apply unquote_escape_char.
Qed.

(** A literal written by [json.dumps] reads back as the string, whatever text follows. *)
Lemma json_unquote_dumps s t : json_unquote (json_dumps_str s +:+ t) = Some (s, t).
Proof.
  unfold json_unquote, json_dumps_str. rewrite chars_app, chars_of_chars.
  rewrite <-!app_assoc. change (N_of_ascii (ascii_of_N 34)) with 34%N.
  cbn [app]. change ((N_of_ascii (ascii_of_N 34) =? 34)%N) with true. cbv iota.
  rewrite unquote_escape. by rewrite !of_chars_chars.
Qed.

(** The literal has no line break, so it cannot end a server-sent event. *)
Lemma escape_char_no_newline c : ascii_of_N 10 ∉ escape_char c.
Proof. destruct c as [[] [] [] [] [] [] [] []]; cbv; set_solver. Qed.

Lemma json_dumps_no_newline s : ascii_of_N 10 ∉ chars (json_dumps_str s).
Proof.
  unfold json_dumps_str. rewrite chars_of_chars, !elem_of_app, !list_elem_of_singleton.
  intros [H|[H|H]]; [done| |done].
  induction (chars s) as [|c l IH]; [by apply elem_of_nil in H|].
  rewrite fmap_cons in H. cbn [concat] in H. apply elem_of_app in H as [H|H]; [|auto].
  by apply escape_char_no_newline in H.
Qed.
