(* ===== verification/Gateway.v ===== *)
(** * The agent gateway

    [gateway/lna_agent_gateway]: the settings read from the environment and the model aliases
    ([config.py]), the model lists ([model_registry.py]), and the endpoints of the server
    ([app.py]) that accept OpenAI chat completions, Anthropic messages and OpenAI responses
    and forward each to one upstream chat-completions endpoint.

    Requests, payloads and responses are untyped JSON values, as in the source.  The HTTP
    client (httpx), the JSON reader and the text of a container or a float are parameters of
    the section; the state is the lazily created client and the log of the requests sent. *)

From stdpp Require Import base tactics list gmap strings pretty.
From Stdlib Require Import ZArith Lia Ascii.
From S2P Require Import Prelude PyStr Json.

(** ** Text with double quotes

    A literal of the source with its double quotes written as single ones. *)
Definition quote : ascii := ascii_of_N 34.

Fixpoint dq (s : string) : string :=
  match s with
  | "" => ""
  | String.String c s' => String.String (if bool_decide (c = "'"%char) then quote else c) (dq s')
  end.

Definition nl : string := String.String (ascii_of_N 10) "".

(** ** [config.py] *)

Record Settings := mkSettings {
  upstream_base_url : string;
  upstream_api_key : string;
  host : string;
  port : Z;
  served_model : string;
  context_length : Z;
  model_aliases_raw : string }.

(** [os.environ.get(k, default)] *)
Definition environ_get (environ : list (string * string)) (k default : string) : string :=
  match dict_get k environ with Some v => v | None => default end.

(** The class body of [Settings], run once at import. *)
Definition new_Settings (environ : list (string * string)) : Outcome Settings :=
  let get := environ_get environ in
  port ← py_int (get "LNA_GATEWAY_PORT" "9010");
  ctx ← py_int (get "LNA_CONTEXT_LENGTH" "1048576");
  Ret {| upstream_base_url := get "UPSTREAM_OPENAI_BASE_URL" "http://127.0.0.1:9000/v1";
         upstream_api_key := get "UPSTREAM_API_KEY" "local-dev";
         host := get "LNA_GATEWAY_HOST" "0.0.0.0";
         port := port;
         served_model := get "LNA_SERVED_MODEL" "deepseek-v4-flash";
         context_length := ctx;
         model_aliases_raw := get "LNA_MODEL_ALIASES" "" |}.

(** One turn of the loop of [model_aliases] *)
Definition add_alias (aliases : list (string * string)) (pair : string) :
    list (string * string) :=
  match str_split_once "="%char pair with
  | Some (k, v) => dict_set (str_strip k) (str_strip v) aliases
  | None => aliases
  end.

Definition model_aliases (st : Settings) : list (string * string) :=
  foldl add_alias [] (str_split ","%char (model_aliases_raw st)).

Definition resolve_model (st : Settings) (model : Json) : Outcome Json :=
  if negb (truthy model) then Ret (JStr (served_model st))
  else match model with
       | JStr s =>
           Ret (JStr (match dict_get s (model_aliases st) with Some t => t | None => s end))
       | JList _ | JObj _ => Raise TypeError
       | v => Ret v
       end.

(** ** [model_registry.py] *)

Definition model_entry (st : Settings) (id : string) : Json :=
  JObj [("id", JStr id); ("object", JStr "model"); ("created", JInt 1767225600);
        ("owned_by", JStr "lnalang4u"); ("max_model_len", JInt (context_length st))].

Definition get_models (st : Settings) : list Json :=
  [model_entry st (served_model st)] ++ (model_entry st <$> dict_keys (model_aliases st)).

Definition anthropic_model_entry (id display_name : string) : Json :=
  JObj [("type", JStr "model"); ("id", JStr id); ("display_name", JStr display_name);
        ("created_at", JStr "2026-05-15T00:00:00Z")].

Definition get_anthropic_models (st : Settings) : Json :=
  JObj [("data", JList (
    [anthropic_model_entry (served_model st) "DeepSeek V4 Flash (via LnaLang4U)"] ++
    ((fun alias => anthropic_model_entry alias
        (alias +:+ " (alias for " +:+ served_model st +:+ ")"))
       <$> dict_keys (model_aliases st))))].

(** ** Replies, upstream responses and the state of the server *)

(** What a handler returns: a JSON body, or a stream of chunks that an exception of the
    generator may cut short. *)
Inductive Reply :=
  | JSONResponse (content : Json)
  | StreamingResponse (chunks : list string) (cut : option PyExc) (media_type : string).

(** A response the client has read: its status, what [resp.json()] gives, its body in chunks
    and in lines. *)
Record Response := mkResponse {
  status_code : Z;
  resp_json : Outcome Json;
  aiter_bytes : list string;
  aiter_lines : list string }.

Definition UPSTREAM_HEADERS : list (string * string) := [("Content-Type", "application/json")].

Section gateway.
Context {Client : Type}.
Context (AsyncClient : Client).
Context (client_post : Client -> string -> Json -> list (string * string) -> Outcome Response).
Context (client_get : Client -> string -> Outcome Response).
Context (json_loads : string -> Outcome Json).
Context (repr : Json -> string).
Context (time_time : Z).
Context (st : Settings).

(** The module global [_client], and the POST requests sent so far. *)
Record Server := mkServer {
  _client : option Client;
  sent : list (string * Json) }.

Definition get_client : PyM Server Client := fun s =>
  match _client s with
  | Some c => (Ret c, s)
  | None => (Ret AsyncClient, {| _client := Some AsyncClient; sent := sent s |})
  end.

(** [client.post(url, json=payload, headers=UPSTREAM_HEADERS)] *)
Definition post (c : Client) (url : string) (payload : Json) : PyM Server Response := fun s =>
  (client_post c url payload UPSTREAM_HEADERS,
   {| _client := _client s; sent := sent s ++ [(url, payload)] |}).

Definition proxy_to_upstream (payload : Json) (stream : bool) : PyM Server Response :=
  let url := upstream_base_url st +:+ "/chat/completions" in
  payload ← py_lift (if stream then jset "stream" (JBool true) payload else Ret payload);
  client ← get_client;
  post client url payload.

(** ** Health and model list *)

Definition health : PyM Server Json :=
  upstream_ok ← py_try
    (client ← get_client;
     r ← py_lift (client_get client (upstream_base_url st +:+ "/models"));
     mret (status_code r =? 200))
    (fun _ => mret false);
  mret (JObj [("status", JStr (if upstream_ok : bool then "ok" else "degraded"));
              ("upstream", JStr (upstream_base_url st));
              ("model", JStr (served_model st));
              ("upstream_connected", JBool upstream_ok)]).

Definition list_models : Json :=
  JObj [("object", JStr "list"); ("data", JList (get_models st))].

(** ** Chat completions: passed through *)

Definition chat_completions (request : Outcome Json) : PyM Server Reply :=
  body ← py_lift request;
  m ← py_lift (jget body "model" JNull);
  m' ← py_lift (resolve_model st m);
  body ← py_lift (jset "model" m' body);
  stream ← py_lift (jget body "stream" (JBool false));
  resp ← proxy_to_upstream body (truthy stream);
  if truthy stream
  then mret (StreamingResponse (aiter_bytes resp) None "text/event-stream")
  else j ← py_lift (resp_json resp); mret (JSONResponse j).

(** ** Anthropic messages *)

(** [" ".join(b.get("text", "") for b in content if b.get("type") == "text")] *)
Definition text_of_block (b : Json) : Outcome (list Json) :=
  ty ← jget b "type" JNull;
  if eq_str ty "text" then x ← jget b "text" (JStr ""); Ret [x] else Ret [].

Definition block_texts (content : list Json) : Outcome (list Json) :=
  ls ← omapM text_of_block content; Ret (concat ls).

Definition translate_message (msg : Json) : Outcome Json :=
  role ← jget msg "role" (JStr "user");
  content ← jget msg "content" (JStr "");
  content ← (match content with
             | JList l => ts ← block_texts l; text ← jjoin " " ts; Ret (JStr text)
             | _ => Ret content
             end);
  let mapped := if eq_str role "assistant" then "assistant" else "user" in
  Ret (JObj [("role", JStr mapped); ("content", content)]).

Definition _translate_anthropic_to_openai (body : Json) : Outcome Json :=
  messages ← jget body "messages" (JList []);
  remaining ← jiter messages;
  sr ← (match remaining with
        | m0 :: rest =>
            role ← jget m0 "role" JNull;
            if eq_str role "system"
            then system ← jget m0 "content" (JStr ""); Ret (system, rest)
            else Ret (JNull, remaining)
        | [] => Ret (JNull, remaining)
        end);
  let '(system, remaining) := sr in
  openai_messages ← omapM translate_message remaining;
  let openai_messages :=
    if truthy system
    then JObj [("role", JStr "system"); ("content", system)] :: openai_messages
    else openai_messages in
  m ← jget body "model" JNull;
  model ← resolve_model st m;
  max_tokens ← jget body "max_tokens" (JInt 1024);
  temperature ← jget body "temperature" (JFloat float_one);
  top_p ← jget body "top_p" (JFloat float_one);
  stream ← jget body "stream" (JBool false);
  stop ← jget body "stop_sequences" JNull;
  Ret (JObj [("model", model); ("messages", JList openai_messages);
             ("max_tokens", max_tokens); ("temperature", temperature);
             ("top_p", top_p); ("stream", stream); ("stop", stop)]).

Definition _translate_openai_to_anthropic (openai_data model : Json) : Outcome Json :=
  choices ← jget openai_data "choices" (JList [JObj []]);
  choice ← jhead choices;
  msg ← jget choice "message" (JObj []);
  usage ← jget openai_data "usage" (JObj []);
  finish ← jget choice "finish_reason" JNull;
  let stop_reason :=
    if eq_str finish "stop" then JStr "end_turn"
    else if eq_str finish "length" then JStr "max_tokens" else finish in
  id ← jget openai_data "id" (JStr "");
  content ← jget msg "content" (JStr "");
  input_tokens ← jget usage "prompt_tokens" (JInt 0);
  output_tokens ← jget usage "completion_tokens" (JInt 0);
  Ret (JObj [("id", id); ("type", JStr "message"); ("role", JStr "assistant");
             ("model", model);
             ("content", JList [JObj [("type", JStr "text"); ("text", content)]]);
             ("stop_reason", stop_reason); ("stop_sequence", JNull);
             ("usage", JObj [("input_tokens", input_tokens);
                             ("output_tokens", output_tokens)])]).

(** [str(v)], as an f-string formats a value *)
Definition py_str (v : Json) : string :=
  match v with
  | JStr s => s
  | JNull => "None"
  | JBool b => if b then "True" else "False"
  | JInt z => pretty z
  | v => repr v
  end.

Definition message_start (id model : string) : string :=
  dq "data: {'type':'message_start','message':{'id':'" +:+ id +:+
  dq "','type':'message','role':'assistant','model':'" +:+ model +:+
  dq "','content':[]}}" +:+ nl +:+ nl.

Definition delta_event (content : string) : string :=
  dq "data: {'type':'content_block_delta','delta':{'type':'text_delta','text':" +:+
  json_dumps_str content +:+ "}}" +:+ nl +:+ nl.

Definition message_delta : string :=
  dq "data: {'type':'message_delta','delta':{'stop_reason':'end_turn','stop_sequence':null},'usage':{'output_tokens':0}}"
  +:+ nl +:+ nl.

Definition done_event : string := "data: [DONE]" +:+ nl +:+ nl.

(** [d.get("choices", [{}])[0].get("delta", {}).get("content", "")] *)
Definition chunk_content (d : Json) : Outcome Json :=
  choices ← jget d "choices" (JList [JObj []]);
  choice ← jhead choices;
  delta ← jget choice "delta" (JObj []);
  jget delta "content" (JStr "").

(** The loop of the generator, [full] being the text so far: what it yields, and the
    exception that leaves it, if any. *)
Fixpoint generate_lines (full : string) (lines : list string) : list string * option PyExc :=
  match lines with
  | [] => ([], None)
  | line :: rest =>
      if startswith "data: " line then
        let data := str_drop 6 line in
        if bool_decide (data = "[DONE]") then ([], None)
        else match json_loads data ≫= chunk_content with
             | Ret content =>
                 if truthy content then
                   match content with
                   | JStr s =>
                       let '(out, cut) := generate_lines (full +:+ s) rest in
                       (delta_event s :: out, cut)
                   | _ => ([], Some TypeError)
                   end
                 else generate_lines full rest
             | Raise JSONDecodeError => generate_lines full rest
             | Raise e => ([], Some e)
             | OutOfFuel => ([], Some RuntimeError)
             end
      else generate_lines full rest
  end.

Definition generate (id model : string) (lines : list string) : list string * option PyExc :=
  let '(out, cut) := generate_lines "" lines in
  (message_start id model :: out ++
     match cut with None => [message_delta; done_event] | Some _ => [] end, cut).

Definition anthropic_messages (request : Outcome Json) : PyM Server Reply :=
  body ← py_lift request;
  stream ← py_lift (jget body "stream" (JBool false));
  model ← py_lift (jget body "model" (JStr (served_model st)));
  openai_payload ← py_lift (_translate_anthropic_to_openai body);
  if truthy stream
  then resp ← proxy_to_upstream openai_payload true;
       let '(chunks, cut) := generate "msg_1" (py_str model) (aiter_lines resp) in
       mret (StreamingResponse chunks cut "text/event-stream")
  else resp ← proxy_to_upstream openai_payload false;
       openai_data ← py_lift (resp_json resp);
       anthropic_resp ← py_lift (_translate_openai_to_anthropic openai_data model);
       mret (JSONResponse anthropic_resp).

Definition count_tokens (request : Outcome Json) : Outcome Json :=
  body ← request;
  messages ← jget body "messages" (JList []);
  ms ← jiter messages;
  ns ← omapM (fun m => c ← jget m "content" (JStr ""); n ← jlen c; Ret (n / 4)) ms;
  Ret (JObj [("input_tokens", JInt (Z.max 1 (foldr Z.add 0 ns)))]).

(** ** Responses *)

Definition _translate_responses_to_chat (body : Json) : Outcome Json :=
  inp ← jget body "input" (JStr "");
  inp ← (match inp with
         | JList l =>
             cs ← omapM (fun m => jget m "content" (JStr "")) (filter (fun m => is_dict m = true) l);
             text ← jjoin " " cs; Ret (JStr text)
         | _ => Ret inp
         end);
  let messages := [JObj [("role", JStr "user"); ("content", inp)]] in
  instructions ← jget body "instructions" JNull;
  let messages :=
    if truthy instructions
    then JObj [("role", JStr "system"); ("content", instructions)] :: messages
    else messages in
  m ← jget body "model" JNull;
  model ← resolve_model st m;
  max_tokens ← jget body "max_output_tokens" (JInt 1024);
  temperature ← jget body "temperature" (JFloat float_one);
  stream ← jget body "stream" (JBool false);
  Ret (JObj [("model", model); ("messages", JList messages); ("max_tokens", max_tokens);
             ("temperature", temperature); ("stream", stream)]).

Definition _translate_chat_to_responses (chat_data model : Json) : Outcome Json :=
  choices ← jget chat_data "choices" (JList [JObj []]);
  choice ← jhead choices;
  msg ← jget choice "message" (JObj []);
  usage ← jget chat_data "usage" (JObj []);
  id ← jget chat_data "id" (JStr "");
  content ← jget msg "content" (JStr "");
  input_tokens ← jget usage "prompt_tokens" (JInt 0);
  output_tokens ← jget usage "completion_tokens" (JInt 0);
  Ret (JObj [("id", id); ("object", JStr "response"); ("model", model);
             ("created", JInt time_time); ("status", JStr "completed");
             ("output", JList [JObj [("type", JStr "message"); ("role", JStr "assistant");
                ("content", JList [JObj [("type", JStr "output_text"); ("text", content)]])]]);
             ("usage", JObj [("input_tokens", input_tokens);
                             ("output_tokens", output_tokens)])]).

Definition openai_responses (request : Outcome Json) : PyM Server Reply :=
  body ← py_lift request;
  stream ← py_lift (jget body "stream" (JBool false));
  model ← py_lift (jget body "model" (JStr (served_model st)));
  openai_payload ← py_lift (_translate_responses_to_chat body);
  if truthy stream
  then resp ← proxy_to_upstream openai_payload true;
       mret (StreamingResponse ((fun line => line +:+ nl) <$> aiter_lines resp) None
               "text/event-stream")
  else resp ← proxy_to_upstream openai_payload false;
       chat_data ← py_lift (resp_json resp);
       responses_data ← py_lift (_translate_chat_to_responses chat_data model);
       mret (JSONResponse responses_data).
End gateway.
