(* ===== verification/AnthropicProxy.v ===== *)
(** * The Anthropic-to-OpenAI proxy

    [scripts/anthropic_proxy.py]: the stand-alone server that accepts Anthropic messages,
    forwards them to the chat-completions endpoint of sglang and translates the answer back,
    whole or as a stream of events, with its error replies.

    The [requests] package, the JSON reader, UTF-8 decoding and the text of an exception are
    parameters of the section; the state is the log of the requests sent. *)

From stdpp Require Import base tactics list gmap strings pretty.
From Stdlib Require Import ZArith Lia Ascii.
From S2P Require Import Prelude PyStr Json Gateway.

(** ** Requests *)

Definition extract_system (messages : Json) : Outcome (Json * list Json) :=
  remaining ← jiter messages;
  match remaining with
  | m0 :: rest =>
      role ← jget m0 "role" JNull;
      if eq_str role "system"
      then system ← jget m0 "content" (JStr ""); Ret (system, rest)
      else Ret (JNull, remaining)
  | [] => Ret (JNull, remaining)
  end.

(** The loop over the content blocks: the text parts in order; an image or another block
    adds nothing. *)
Fixpoint text_parts (acc : list Json) (blocks : list Json) : Outcome (list Json) :=
  match blocks with
  | [] => Ret acc
  | block :: rest =>
      ty ← jget block "type" JNull;
      if eq_str ty "text" then t ← jget block "text" (JStr ""); text_parts (acc ++ [t]) rest
      else text_parts acc rest
  end.

Fixpoint translate_loop (openai_messages : list Json) (msgs : list Json) :
    Outcome (list Json) :=
  match msgs with
  | [] => Ret openai_messages
  | msg :: rest =>
      role ← jget msg "role" (JStr "user");
      content ← jget msg "content" (JStr "");
      content ← (match content with
                 | JList l => ps ← text_parts [] l; text ← jjoin nl ps; Ret (JStr text)
                 | _ => Ret content
                 end);
      let m := if eq_str role "assistant"
               then JObj [("role", JStr "assistant"); ("content", content)]
               else JObj [("role", JStr "user"); ("content", content)] in
      translate_loop (openai_messages ++ [m]) rest
  end.

Definition translate_messages (anthropic_messages : list Json) : Outcome (list Json) :=
  translate_loop [] anthropic_messages.

(** [if k in body: payload[k'] = body[k]] *)
Definition copy_field (k k' : string) (body : Json) (payload : list (string * Json)) :
    list (string * Json) :=
  match body with
  | JObj d => match dict_get k d with Some v => dict_set k' v payload | None => payload end
  | _ => payload
  end.

Definition build_openai_payload (body : Json) : Outcome Json :=
  messages ← jget body "messages" (JList []);
  sr ← extract_system messages;
  let '(system, remaining) := sr in
  openai_messages ← translate_messages remaining;
  let openai_messages :=
    if truthy system
    then JObj [("role", JStr "system"); ("content", system)] :: openai_messages
    else openai_messages in
  model ← jget body "model" (JStr "deepseek-v4-flash");
  max_tokens ← jget body "max_tokens" (JInt 1024);
  temperature ← jget body "temperature" (JFloat float_one);
  top_p ← jget body "top_p" (JFloat float_one);
  stream ← jget body "stream" (JBool false);
  let payload := [("model", model); ("messages", JList openai_messages);
                  ("max_tokens", max_tokens); ("temperature", temperature);
                  ("top_p", top_p); ("stream", stream)] in
  let payload := copy_field "top_k" "top_k" body payload in
  let payload := copy_field "stop_sequences" "stop" body payload in
  Ret (JObj payload).

(** ** Responses *)

Definition translate_response (openai_data model : Json) : Outcome Json :=
  choices ← jget openai_data "choices" (JList [JObj []]);
  choice ← jhead choices;
  message ← jget choice "message" (JObj []);
  usage ← jget openai_data "usage" (JObj []);
  id ← jget openai_data "id" (JStr "");
  content ← jget message "content" (JStr "");
  stop ← jget choice "finish_reason" (JStr "end_turn");
  input_tokens ← jget usage "prompt_tokens" (JInt 0);
  output_tokens ← jget usage "completion_tokens" (JInt 0);
  let anthropic_response :=
    [("id", id); ("type", JStr "message"); ("role", JStr "assistant"); ("model", model);
     ("content", JList [JObj [("type", JStr "text"); ("text", content)]]);
     ("stop_reason", stop); ("stop_sequence", JNull);
     ("usage", JObj [("input_tokens", input_tokens); ("output_tokens", output_tokens)])] in
  finish ← jget choice "finish_reason" JNull;
  let anthropic_response :=
    if eq_str finish "stop" then dict_set "stop_reason" (JStr "end_turn") anthropic_response
    else if eq_str finish "length" then dict_set "stop_reason" (JStr "max_tokens") anthropic_response
    else if eq_str finish "tool_calls" then dict_set "stop_reason" (JStr "tool_use") anthropic_response
    else anthropic_response in
  Ret (JObj anthropic_response).

(** ** The server *)

(** A response of [requests]: the lines of a streamed body are bytes, and reading them may
    end in an exception. *)
Record RResponse := mkRResponse {
  r_status_code : Z;
  r_json : Outcome Json;
  iter_lines : list string;
  iter_cut : option PyExc }.

(** [except requests.exceptions.Timeout] and the like *)
Definition is_Timeout (e : PyExc) : bool :=
  match e with RequestsError (ReadTimeout | ConnectTimeout) _ => true | _ => false end.
Definition is_ConnectionError (e : PyExc) : bool :=
  match e with RequestsError (ConnectionError | ConnectTimeout) _ => true | _ => false end.
Definition is_HTTPError (e : PyExc) : bool :=
  match e with RequestsError HTTPError _ => true | _ => false end.

Section proxy.
Context (requests_post : string -> Json -> list (string * string) -> bool -> option Z ->
                         Outcome RResponse).
Context (requests_get : string -> Z -> Outcome RResponse).
Context (http_error_text : RResponse -> string).
Context (exc_text : PyExc -> string).
Context (json_loads : string -> Outcome Json).
Context (decode_utf8 : string -> Outcome string).
Context (repr : Json -> string).
Context (TARGET_URL : string).

(** [resp.raise_for_status()] *)
Definition raise_for_status (r : RResponse) : Outcome unit :=
  if (400 <=? r_status_code r) && (r_status_code r <? 600)
  then Raise (RequestsError HTTPError (http_error_text r)) else Ret tt.

(** The loop of the generator of [handle_messages] *)
Fixpoint proxy_generate_lines (full_text : string) (lines : list string) (end_ : option PyExc) :
    list string * option PyExc :=
  match lines with
  | [] => ([], end_)
  | line :: rest =>
      if is_empty_str line then proxy_generate_lines full_text rest end_
      else match decode_utf8 line with
      | Ret line =>
          if startswith "data: " line then
            let data_str := str_drop 6 line in
            if bool_decide (data_str = "[DONE]") then ([], None)
            else match json_loads data_str ≫= chunk_content with
                 | Ret content =>
                     if truthy content then
                       match content with
                       | JStr s =>
                           let '(out, cut) := proxy_generate_lines (full_text +:+ s) rest end_ in
                           (delta_event s :: out, cut)
                       | _ => ([], Some TypeError)
                       end
                     else proxy_generate_lines full_text rest end_
                 | Raise JSONDecodeError => proxy_generate_lines full_text rest end_
                 | Raise e => ([], Some e)
                 | OutOfFuel => ([], Some RuntimeError)
                 end
          else proxy_generate_lines full_text rest end_
      | Raise e => ([], Some e)
      | OutOfFuel => ([], Some RuntimeError)
      end
  end.

Definition proxy_generate (model : string) (lines : list string) (end_ : option PyExc) :
    list string * option PyExc :=
  let '(out, cut) := proxy_generate_lines "" lines end_ in
  (message_start "msg_placeholder" model :: out ++
     match cut with None => [message_delta; done_event] | Some _ => [] end, cut).

(** The log of the POST requests *)
Definition Log : Type := list (string * Json).

Definition send (url : string) (payload : Json) (stream : bool) (timeout : option Z) :
    PyM Log RResponse := fun log =>
  (requests_post url payload [("Content-Type", "application/json")] stream timeout,
   log ++ [(url, payload)]).

Definition handle_messages (request : Outcome Json) : PyM Log Reply :=
  body ← py_lift request;
  model ← py_lift (jget body "model" (JStr "deepseek-v4-flash"));
  stream ← py_lift (jget body "stream" (JBool false));
  openai_payload ← py_lift (build_openai_payload body);
  let target := TARGET_URL +:+ "/v1/chat/completions" in
  if truthy stream
  then openai_payload ← py_lift (jset "stream" (JBool true) openai_payload);
       resp ← send target openai_payload true None;
       let '(chunks, cut) :=
         proxy_generate (py_str repr model) (iter_lines resp) (iter_cut resp) in
       mret (StreamingResponse chunks cut "text/event-stream")
  else py_try
    (resp ← send target openai_payload false (Some 300);
     _ ← py_lift (raise_for_status resp);
     openai_data ← py_lift (r_json resp);
     anthropic_response ← py_lift (translate_response openai_data model);
     mret (JSONResponse anthropic_response))
    (fun e =>
       if is_Timeout e then py_raise (HTTPException 504 "Upstream timeout")
       else if is_ConnectionError e then py_raise (HTTPException 502 "Cannot connect to sglang")
       else if is_HTTPError e then py_raise (HTTPException 502 ("sglang error: " +:+ exc_text e))
       else py_raise e).

Definition proxy_health : Json :=
  match requests_get (TARGET_URL +:+ "/v1/models") 5 with
  | Ret resp => JObj [("status", JStr "ok"); ("upstream", JBool (r_status_code resp =? 200))]
  | Raise e => JObj [("status", JStr "error"); ("detail", JStr (exc_text e))]
  | OutOfFuel => JObj []
  end.

Definition proxy_list_models : Outcome Reply :=
  match (resp ← requests_get (TARGET_URL +:+ "/v1/models") 10; r_json resp) with
  | Ret j => Ret (JSONResponse j)
  | Raise e => Raise (HTTPException 502 (exc_text e))
  | OutOfFuel => OutOfFuel
  end.
End proxy.

(** [args.target.rstrip("/")], what [main] assigns to [TARGET_URL] *)
Fixpoint rstrip_slash (l : list ascii) : list ascii :=
  match l with
  | [] => []
  | c :: l' => match rstrip_slash l' with
               | [] => if bool_decide (c = "/"%char) then [] else [c]
               | r => c :: r
               end
  end.
Definition target_of_arg (arg : string) : string := of_chars (rstrip_slash (chars arg)).
