(* ===== verification/GatewayProofs.v ===== *)
(** * Correctness of the gateways

    - aliases: the text of [LNA_MODEL_ALIASES] reads back as the dictionary it was written
      from, and [resolve_model] applies it;
    - requests: the chat-completions messages made from Anthropic messages, and that the
      gateway and the proxy make the same ones;
    - responses: the stop reasons of the two servers;
    - streams: what a client reads from the event stream is the text the upstream sent;
    - errors: the status codes of the proxy. *)

From stdpp Require Import base tactics list gmap strings pretty.
From Stdlib Require Import ZArith Lia Ascii.
From S2P Require Import Prelude PyStr Json Gateway AnthropicProxy.

(** Unfold a function where it is applied to one argument, and nowhere else. *)
Ltac unfold_at f x :=
  let body := eval cbv beta delta [f] in (f x) in change (f x) with body.

(** ** The text of the aliases *)

Lemma str_split_join c sep ws :
  chars sep = [c] -> ws <> [] -> Forall (fun w => c ∉ chars w) ws ->
  str_split c (str_join sep ws) = ws.
Proof.
  intros Hsep Hne Hws. unfold str_split. induction Hws as [|w ws Hw Hws IH]; [done|].
  destruct ws as [|w' ws].
  - simpl. rewrite split_chars_no_sep by done. simpl. by rewrite of_chars_chars.
  - cbn [str_join]. rewrite !chars_app, Hsep. cbn [app].
    rewrite split_chars_app by done. rewrite map_cons, of_chars_chars. f_equal. by apply IH.
Qed.

Lemma split_chars_once_app c w r :
  c ∉ w -> split_chars_once c (w ++ c :: r) = Some (w, r).
Proof.
  induction w as [|a w IH]; intros H; simpl; [by rewrite decide_True|].
  rewrite decide_False by set_solver. by rewrite IH by set_solver.
Qed.

(** The text of an alias, [name=target]. *)
Definition alias_text (kv : string * string) : string := kv.1 +:+ "=" +:+ kv.2.

(** A name and a target that the syntax of the variable can express. *)
Definition alias_ok (kv : string * string) : Prop :=
  (","%char ∉ chars kv.1) /\ ("="%char ∉ chars kv.1) /\ str_strip kv.1 = kv.1 /\
  (","%char ∉ chars kv.2) /\ str_strip kv.2 = kv.2.

Lemma add_alias_text aliases kv :
  alias_ok kv -> add_alias aliases (alias_text kv) = dict_set kv.1 kv.2 aliases.
Proof.
  intros (_ & Heq & Hs1 & _ & Hs2). unfold add_alias, alias_text, str_split_once.
  rewrite !chars_app. cbn [app chars]. rewrite split_chars_once_app by done.
  by rewrite !of_chars_chars, Hs1, Hs2.
Qed.

Lemma alias_text_no_comma kv : alias_ok kv -> ","%char ∉ chars (alias_text kv).
Proof.
  intros (H1 & _ & _ & H2 & _). unfold alias_text. rewrite !chars_app, !elem_of_app.
  intros [?|[?|?]]; [done| |done]. set_solver.
Qed.

(** [dict.update] reads as the last value written for each key. *)
Lemma dict_get_update {V} k (d d2 : list (string * V)) :
  dict_get k (dict_update d d2) =
    match dict_get k (reverse d2) with Some v => Some v | None => dict_get k d end.
Proof.
  revert d. induction d2 as [|[k1 v1] d2 IH] using rev_ind; intros d; [done|].
  unfold dict_update in *. rewrite foldl_app, reverse_app. simpl.
  destruct (decide (k = k1)) as [->|Hne].
  - by rewrite dict_get_set_eq.
  - rewrite dict_get_set_ne by done. apply IH.
Qed.

(** The gateway reads [LNA_MODEL_ALIASES] back as it was written: for aliases whose names
    have no comma or equals sign and no surrounding white space, and targets with no comma or
    surrounding white space (a target may contain "="), the dictionary parsed from
    "name=target,name=target,..." is the one that assigns them in order; a request for an
    alias is forwarded under the target written last for it, another non-empty model name
    unchanged, and an empty or absent one as the served model. *)
Theorem model_aliases_roundtrip (st : Settings) (kvs : list (string * string)) :
  kvs <> [] -> Forall alias_ok kvs ->
  model_aliases_raw st = str_join "," (alias_text <$> kvs) ->
  model_aliases st = dict_update [] kvs /\
  resolve_model st JNull = Ret (JStr (served_model st)) /\
  forall name, resolve_model st (JStr name) =
    Ret (JStr (if is_empty_str name then served_model st
               else match dict_get name (reverse kvs) with Some t => t | None => name end)).
Proof.
  intros Hne Hok Hraw.
  assert (model_aliases st = dict_update [] kvs) as Ha.
  { unfold model_aliases. rewrite Hraw, str_split_join; [|done| |].
    - clear Hne Hraw. unfold dict_update. generalize (@nil (string * string)).
      induction Hok as [|kv kvs Hkv _ IH]; intros d; [done|].
      rewrite fmap_cons. cbn [foldl]. by rewrite add_alias_text, IH.
    - by destruct kvs.
    - apply Forall_fmap. eapply Forall_impl; [done|]. apply alias_text_no_comma. }
  split_and!; [done..|]. intros name. unfold resolve_model. cbn [truthy].
  rewrite negb_involutive. destruct (is_empty_str name); [done|].
  rewrite Ha, dict_get_update. by destruct (dict_get name (reverse kvs)).
Qed.

Definition demo_settings : Settings :=
  {| upstream_base_url := "http://127.0.0.1:9000/v1"; upstream_api_key := "local-dev";
     host := "0.0.0.0"; port := 9010; served_model := "deepseek-v4-flash";
     context_length := 1048576;
     model_aliases_raw := "sonnet=deepseek-v4-flash,opus=a=b,sonnet=deepseek-v4" |}.

Lemma model_aliases_roundtrip_witness :
  model_aliases demo_settings = [("sonnet", "deepseek-v4"); ("opus", "a=b")] /\
  resolve_model demo_settings (JStr "sonnet") = Ret (JStr "deepseek-v4").
Proof.
  destruct (model_aliases_roundtrip demo_settings
    [("sonnet", "deepseek-v4-flash"); ("opus", "a=b"); ("sonnet", "deepseek-v4")])
    as (Ha & _ & Hr).
  - done.
  - repeat constructor; apply (bool_decide_unpack _); vm_compute; exact I.
  - reflexivity.
  - split; [rewrite Ha; reflexivity|]. rewrite Hr. reflexivity.
Defined.

(** ** Requests *)

(** Anthropic messages as the API documents them, and their JSON. *)
Inductive ABlock :=
  | TextBlock (text : string)
  | OtherBlock (type : string) (fields : list (string * Json)).

Inductive AContent :=
  | TextContent (text : string)
  | BlockContent (blocks : list ABlock).

Record AMessage := mkAMessage { a_role : string; a_content : AContent }.

Definition block_json (b : ABlock) : Json :=
  match b with
  | TextBlock s => JObj [("type", JStr "text"); ("text", JStr s)]
  | OtherBlock ty fields => JObj (("type", JStr ty) :: fields)
  end.

Definition content_json (c : AContent) : Json :=
  match c with
  | TextContent s => JStr s
  | BlockContent bs => JList (block_json <$> bs)
  end.

Definition message_json (m : AMessage) : Json :=
  JObj [("role", JStr (a_role m)); ("content", content_json (a_content m))].

(** A block of another type does not call itself a text. *)
Definition block_ok (b : ABlock) : Prop :=
  match b with TextBlock _ => True | OtherBlock ty _ => ty <> "text" end.
Definition content_ok (c : AContent) : Prop :=
  match c with TextContent _ => True | BlockContent bs => Forall block_ok bs end.
Definition message_ok (m : AMessage) : Prop := content_ok (a_content m).

Definition block_text (b : ABlock) : list string :=
  match b with TextBlock s => [s] | OtherBlock _ _ => [] end.

(** The text of a content: its text blocks, in order, with [sep] between them. *)
Definition content_text (sep : string) (c : AContent) : string :=
  match c with
  | TextContent s => s
  | BlockContent bs => str_join sep (concat (block_text <$> bs))
  end.

Definition chat_message (role : string) (content : Json) : Json :=
  JObj [("role", JStr role); ("content", content)].

(** The chat-completions message of an Anthropic message. *)
Definition chat_of (sep : string) (m : AMessage) : Json :=
  chat_message (if bool_decide (a_role m = "assistant") then "assistant" else "user")
               (JStr (content_text sep (a_content m))).

(** The conversation: a leading system message with content stays first with its content as
    it is, and every other message becomes a user or an assistant message. *)
Definition chat_messages (sep : string) (ms : list AMessage) : list Json :=
  match ms with
  | m0 :: rest =>
      if bool_decide (a_role m0 = "system")
      then (if truthy (content_json (a_content m0))
            then [chat_message "system" (content_json (a_content m0))] else [])
           ++ (chat_of sep <$> rest)
      else chat_of sep <$> ms
  | [] => []
  end.

Lemma jget_here k v d x : jget (JObj ((k, v) :: d)) k x = Ret v.
Proof. unfold jget. cbn [dict_get]. by rewrite decide_True. Qed.

Lemma jget_skip k k' v d x :
  k <> k' -> jget (JObj ((k', v) :: d)) k x = jget (JObj d) k x.
Proof. intros. unfold jget. cbn [dict_get]. by rewrite decide_False. Qed.

Lemma text_of_block_json b : block_ok b -> text_of_block (block_json b) = Ret (JStr <$> block_text b).
Proof.
  destruct b as [s|ty fields]; intros H; [done|].
  unfold text_of_block. cbn [block_json]. rewrite jget_here. cbn -[bool_decide].
  by rewrite bool_decide_eq_false_2.
Qed.

Lemma block_texts_json bs :
  Forall block_ok bs -> block_texts (block_json <$> bs) = Ret (JStr <$> concat (block_text <$> bs)).
Proof.
  intros H. unfold block_texts. rewrite omapM_fmap, (omapM_Ret _ (fun b => JStr <$> block_text b)).
  - cbn. f_equal. clear H. induction bs as [|b bs IH]; [done|].
    rewrite !fmap_cons. cbn [concat]. by rewrite fmap_app, IH.
  - intros b Hb. apply text_of_block_json. rewrite Forall_forall in H. auto.
Qed.

(** The two servers collect the same text parts. *)
Lemma text_parts_block_texts acc bs :
  text_parts acc bs = (ts ← block_texts bs; Ret (acc ++ ts)).
Proof.
  unfold block_texts. revert acc. induction bs as [|b bs IH]; intros acc.
  { cbn. by rewrite app_nil_r. }
  cbn [text_parts omapM]. destruct (text_of_block b) as [x| |] eqn:E;
    unfold text_of_block in E; destruct (jget b "type" JNull) as [ty| |];
    cbn -[jget text_of_block] in *; simplify_eq; try done.
  - destruct (eq_str ty "text"); [destruct (jget b "text" (JStr ""))|];
      cbn -[text_of_block] in *; simplify_eq; rewrite IH;
      destruct (omapM text_of_block bs); try done. cbn. by rewrite <-app_assoc.
  - destruct (eq_str ty "text"); [|done].
    destruct (jget b "text" (JStr "")); cbn in *; by simplify_eq.
  - destruct (eq_str ty "text"); [|done].
    destruct (jget b "text" (JStr "")); cbn in *; by simplify_eq.
Qed.

Definition proxy_message (msg : Json) : Outcome Json :=
  role ← jget msg "role" (JStr "user");
  content ← jget msg "content" (JStr "");
  content ← (match content with
             | JList l => ps ← block_texts l; text ← jjoin nl ps; Ret (JStr text)
             | _ => Ret content
             end);
  Ret (chat_message (if eq_str role "assistant" then "assistant" else "user") content).

Lemma translate_loop_omapM acc ms :
  translate_loop acc ms = (l ← omapM proxy_message ms; Ret (acc ++ l)).
Proof.
  revert acc. induction ms as [|m ms IH]; intros acc; [cbn; by rewrite app_nil_r|].
  cbn [translate_loop omapM]. unfold_at proxy_message m.
  destruct (jget m "role" _) as [role| |]; [|done..]. cbn -[jget text_parts block_texts].
  destruct (jget m "content" _) as [c| |]; [|done..]. cbn -[text_parts block_texts].
  assert (forall c', translate_loop
     (acc ++ [if eq_str role "assistant"
              then JObj [("role", JStr "assistant"); ("content", c')]
              else JObj [("role", JStr "user"); ("content", c')]]) ms =
     (l ← (ys ← omapM proxy_message ms;
        Ret (chat_message (if eq_str role "assistant" then "assistant" else "user") c' :: ys));
      Ret (acc ++ l))) as Hstep.
  { intros c'. rewrite IH. destruct (omapM proxy_message ms); [|done..]. cbn.
    rewrite <-app_assoc. by destruct (eq_str role "assistant"). }
  destruct c; try exact (Hstep _).
  rewrite text_parts_block_texts.
  destruct (block_texts l); [|done..]. cbn -[jjoin].
  destruct (jjoin nl a); [|done..]. exact (Hstep _).
Qed.

(** What the two servers share: the system message taken off the front, the rest translated,
    the system message put back. *)
Definition conversation (tr : Json -> Outcome Json) (messages : Json) : Outcome (list Json) :=
  sr ← extract_system messages;
  l ← omapM tr sr.2;
  Ret (if truthy sr.1 then chat_message "system" sr.1 :: l else l).

(** The field of a request, or the default. *)
Definition field (d : list (string * Json)) (k : string) (x : Json) : Json :=
  match dict_get k d with Some v => v | None => x end.

Lemma jget_field d k x : jget (JObj d) k x = Ret (field d k x).
Proof. done. Qed.

Lemma gateway_payload st d :
  _translate_anthropic_to_openai st (JObj d) =
  (ms ← conversation translate_message (field d "messages" (JList []));
   model ← resolve_model st (field d "model" JNull);
   Ret (JObj [("model", model); ("messages", JList ms);
              ("max_tokens", field d "max_tokens" (JInt 1024));
              ("temperature", field d "temperature" (JFloat float_one));
              ("top_p", field d "top_p" (JFloat float_one));
              ("stream", field d "stream" (JBool false));
              ("stop", field d "stop_sequences" JNull)])).
Proof.
  unfold _translate_anthropic_to_openai, conversation, extract_system.
  rewrite (jget_field d "messages"). cbn [mbind Outcome_bind]. destruct (jiter (field d "messages" (JList []))) as [l| |]; [|done..].
  cbn [mbind Outcome_bind].
  destruct l as [|m0 rest]; [done|]. destruct (jget m0 "role" JNull) as [role| |]; [|done..].
  cbn [mbind Outcome_bind]. destruct (eq_str role "system").
  - destruct (jget m0 "content" (JStr "")) as [c| |]; [|done..]. cbn [mbind Outcome_bind fst snd].
    by destruct (omapM translate_message rest).
  - cbn [mbind Outcome_bind fst snd]. by destruct (omapM translate_message (m0 :: rest)).
Qed.

Lemma proxy_payload d :
  build_openai_payload (JObj d) =
  (ms ← conversation proxy_message (field d "messages" (JList []));
   Ret (JObj (copy_field "stop_sequences" "stop" (JObj d) (copy_field "top_k" "top_k" (JObj d)
             [("model", field d "model" (JStr "deepseek-v4-flash")); ("messages", JList ms);
              ("max_tokens", field d "max_tokens" (JInt 1024));
              ("temperature", field d "temperature" (JFloat float_one));
              ("top_p", field d "top_p" (JFloat float_one));
              ("stream", field d "stream" (JBool false))])))).
Proof.
  unfold build_openai_payload, conversation, translate_messages.
  rewrite (jget_field d "messages"). cbn [mbind Outcome_bind].
  destruct (extract_system _) as [[sys rest]| |]; [|done..]. cbn [mbind Outcome_bind fst snd].
  rewrite translate_loop_omapM. by destruct (omapM proxy_message rest).
Qed.

Lemma extract_system_typed ms :
  extract_system (JList (message_json <$> ms)) =
  Ret (match ms with
       | m0 :: rest => if bool_decide (a_role m0 = "system")
                       then (content_json (a_content m0), message_json <$> rest)
                       else (JNull, message_json <$> ms)
       | [] => (JNull, [])
       end).
Proof.
  destruct ms as [|m0 rest]; [done|]. unfold extract_system. rewrite fmap_cons.
  cbn [jiter mbind Outcome_bind].
  assert (forall x, jget (message_json m0) "role" x = Ret (JStr (a_role m0))) as -> by done.
  assert (forall x, jget (message_json m0) "content" x = Ret (content_json (a_content m0))) as -> by done.
  cbn [mbind Outcome_bind eq_str]. by case_bool_decide.
Qed.

Lemma omapM_typed (tr : Json -> Outcome Json) sep ms :
  (forall m, m ∈ ms -> tr (message_json m) = Ret (chat_of sep m)) ->
  omapM tr (message_json <$> ms) = Ret (chat_of sep <$> ms).
Proof. intros H. rewrite omapM_fmap. by apply omapM_Ret. Qed.

Lemma conversation_typed (tr : Json -> Outcome Json) sep ms :
  (forall m, m ∈ ms -> tr (message_json m) = Ret (chat_of sep m)) ->
  conversation tr (JList (message_json <$> ms)) = Ret (chat_messages sep ms).
Proof.
  intros H. unfold conversation. rewrite extract_system_typed. destruct ms as [|m0 rest]; [done|].
  cbn [mbind Outcome_bind chat_messages]. case_bool_decide; cbn [fst snd].
  - rewrite (omapM_typed _ sep) by (intros; apply H; by right). cbn [mbind Outcome_bind].
    by destruct (truthy _).
  - by rewrite (omapM_typed _ sep) by done.
Qed.

Lemma translate_message_typed m :
  message_ok m -> translate_message (message_json m) = Ret (chat_of " " m).
Proof.
  destruct m as [role c]. unfold message_ok, translate_message, message_json. intros Hc.
  cbn [a_role a_content] in *. rewrite jget_here, jget_skip, jget_here by done.
  destruct c as [s|bs]; [done|]. cbn -[block_texts jjoin bool_decide].
  rewrite block_texts_json by done. cbn -[jjoin bool_decide]. by rewrite jjoin_strs.
Qed.

Lemma proxy_message_typed m :
  message_ok m -> proxy_message (message_json m) = Ret (chat_of nl m).
Proof.
  destruct m as [role c]. unfold message_ok, proxy_message, message_json. intros Hc.
  cbn [a_role a_content] in *. rewrite jget_here, jget_skip, jget_here by done.
  destruct c as [s|bs]; [done|]. cbn -[block_texts jjoin bool_decide nl].
  rewrite block_texts_json by done. cbn -[jjoin bool_decide nl]. by rewrite jjoin_strs.
Qed.

(** The role of a chat message, and its place in a conversation: a system message only at
    the head. *)
Definition role_of (m : Json) : Json := match jget m "role" JNull with Ret r => r | _ => JNull end.

Definition roles_ok (l : list Json) : Prop :=
  match l with
  | [] => True
  | m0 :: rest => (role_of m0 ∈ [JStr "system"; JStr "user"; JStr "assistant"]) /\
                  Forall (fun m => role_of m ∈ [JStr "user"; JStr "assistant"]) rest
  end.

Lemma role_chat_of sep m : role_of (chat_of sep m) ∈ [JStr "user"; JStr "assistant"].
Proof. unfold chat_of. case_bool_decide; cbn; set_solver. Qed.

Lemma chat_messages_roles sep ms : roles_ok (chat_messages sep ms).
Proof.
  assert (forall l, Forall (fun m => role_of m ∈ [JStr "user"; JStr "assistant"]) (chat_of sep <$> l)) as Hall.
  { intros l. apply Forall_fmap, Forall_true. intros m. apply role_chat_of. }
  assert (forall l, roles_ok (chat_of sep <$> l)) as Hl.
  { intros l. specialize (Hall l). destruct Hall as [|m l' Hm Hl']; [done|].
    split; [set_solver|done]. }
  destruct ms as [|m0 rest]; [done|]. unfold chat_messages.
  case_bool_decide; [|apply Hl]. destruct (truthy _); [|apply Hl].
  cbn [app roles_ok]. split; [cbn; set_solver|apply Hall].
Qed.

Lemma copy_field_get k k' d p j :
  dict_get j (copy_field k k' (JObj d) p) =
    if decide (j = k') then (match dict_get k d with Some v => Some v | None => dict_get k' p end)
    else dict_get j p.
Proof.
  unfold copy_field. destruct (dict_get k d); case_decide; subst;
    rewrite ?dict_get_set_eq, ?dict_get_set_ne by done; done.
Qed.


Definition demo_chat : list AMessage :=
  [ {| a_role := "system"; a_content := TextContent "Be brief." |};
    {| a_role := "user"; a_content := BlockContent
         [TextBlock "a"; OtherBlock "image" [("source", JNull)]; TextBlock "b"] |};
    {| a_role := "assistant"; a_content := TextContent "c" |} ].

Definition demo_body : list (string * Json) :=
  [("model", JStr "opus"); ("messages", JList (message_json <$> demo_chat));
   ("top_k", JInt 5)].


(** The system prompt of a request in its top-level field, where the Anthropic API has it, is
    not looked at: both servers send the same as without it. *)
Theorem system_field_dropped (st : Settings) (d : list (string * Json)) (system : Json) :
  _translate_anthropic_to_openai st (JObj (("system", system) :: d)) = _translate_anthropic_to_openai st (JObj d) /\
  build_openai_payload (JObj (("system", system) :: d)) = build_openai_payload (JObj d).
Proof. rewrite !gateway_payload, !proxy_payload. split; reflexivity. Qed.

(** ** The two servers compared *)

(** A message whose content, if it is a list, has at most one text block. *)
Definition single_text (m : Json) : Prop :=
  forall l ts, jget m "content" (JStr "") = Ret (JList l) -> block_texts l = Ret ts ->
    (length ts <= 1)%nat.

Lemma jjoin_single sep sep' ts : (length ts <= 1)%nat -> jjoin sep ts = jjoin sep' ts.
Proof.
  intros H. destruct ts as [|t [|t' ts]]; [done| |simpl in H; lia].
  unfold jjoin. cbn. by destruct (as_str t).
Qed.

Lemma messages_agree m : single_text m -> translate_message m = proxy_message m.
Proof.
  intros H. unfold translate_message, proxy_message.
  destruct (jget m "role" (JStr "user")) as [r| |]; [|done..]. cbn [mbind Outcome_bind].
  destruct (jget m "content" (JStr "")) as [c| |] eqn:Hc; [|done..]. cbn [mbind Outcome_bind].
  destruct c as [| | | | |l|]; try done.
  destruct (block_texts l) as [ts| |] eqn:Ht; [|done..]. cbn [mbind Outcome_bind].
  by rewrite (jjoin_single " " nl) by eauto.
Qed.

Lemma omapM_ext {A B} (f g : A -> Outcome B) l :
  (forall x, x ∈ l -> f x = g x) -> omapM f l = omapM g l.
Proof.
  induction l as [|x l IH]; intros H; [done|]. cbn [omapM]. rewrite (H x) by left.
  rewrite IH; [done|]. intros y Hy. apply H. by right.
Qed.

Lemma extract_system_sub messages l sys rest :
  jiter messages = Ret l -> extract_system messages = Ret (sys, rest) -> rest ⊆ l.
Proof.
  unfold extract_system. intros ->. cbn [mbind Outcome_bind].
  destruct l as [|m0 l]; [intros; simplify_eq; set_solver|].
  destruct (jget m0 "role" JNull); [|done..]. cbn [mbind Outcome_bind].
  destruct (eq_str _ _); [|intros; simplify_eq; set_solver].
  destruct (jget m0 "content" (JStr "")); [|done..]. cbn [mbind Outcome_bind].
  intros; simplify_eq; set_solver.
Qed.

(** C40. The gateway and the proxy translate a conversation alike, well formed or not: when no
    message has two text blocks, both build the same list of messages or fail with the same
    exception (the model being one the gateway can resolve).  They differ only in what they
    put between the text blocks of one message. *)
Theorem gateway_proxy_agree (st : Settings) (d : list (string * Json)) (model : Json) :
  (forall l, jiter (field d "messages" (JList [])) = Ret l -> Forall single_text l) ->
  resolve_model st (field d "model" JNull) = Ret model ->
  (p ← _translate_anthropic_to_openai st (JObj d); jget p "messages" JNull) =
  (p ← build_openai_payload (JObj d); jget p "messages" JNull).
Proof.
  intros Hs Hm. rewrite gateway_payload, proxy_payload.
  assert (conversation translate_message (field d "messages" (JList [])) =
          conversation proxy_message (field d "messages" (JList []))) as ->.
  { unfold conversation.
    destruct (extract_system (field d "messages" (JList []))) as [[sys rest]| |] eqn:He; [|done..].
    cbn [mbind Outcome_bind fst snd].
    destruct (jiter (field d "messages" (JList []))) as [l| |] eqn:Hl;
      [|unfold extract_system in He; by rewrite Hl in He..].
    specialize (Hs l eq_refl). rewrite Forall_forall in Hs.
    pose proof (extract_system_sub _ _ _ _ Hl He) as Hsub.
    rewrite (omapM_ext _ proxy_message); [done|]. intros x Hx. apply messages_agree. auto. }
  destruct (conversation proxy_message _) as [ms| |]; [|done..]. cbn [mbind Outcome_bind].
  rewrite Hm. cbn [mbind Outcome_bind]. unfold jget. rewrite !copy_field_get.
  repeat case_decide; done.
Qed.

Lemma gateway_proxy_agree_witness :
  (p ← _translate_anthropic_to_openai demo_settings
         (JObj [("messages", JList [JObj [("role", JStr "user"); ("content", JInt 3)]; JNull])]);
   jget p "messages" JNull) =
  (p ← build_openai_payload
         (JObj [("messages", JList [JObj [("role", JStr "user"); ("content", JInt 3)]; JNull])]);
   jget p "messages" JNull).
Proof.
  apply (gateway_proxy_agree demo_settings _ (JStr "deepseek-v4-flash")).
  - intros l Hl. cbn in Hl. injection Hl as <-.
    apply Forall_cons_2; [|apply Forall_cons_2; [|apply Forall_nil_2]];
      intros l ts H; cbn in H; discriminate.
  - reflexivity.
Defined.

(** ** Responses *)

(** A chat completion: an object whose first choice, its message and the usage are objects or
    missing, with any fields in any order.  The last arguments are those objects. *)
Definition completion (d choice msg usage : list (string * Json)) : Prop :=
  (exists rest, field d "choices" (JList [JObj []]) = JList (JObj choice :: rest)) /\
  field choice "message" (JObj []) = JObj msg /\ field d "usage" (JObj []) = JObj usage.

(** The stop reasons the Anthropic API defines. *)
Definition anthropic_stop_reasons : list string :=
  ["end_turn"; "max_tokens"; "stop_sequence"; "tool_use"].

(** The reply made of a completion: its id, text and token counts, or their defaults. *)
Definition anthropic_reply (d msg usage : list (string * Json)) (stop model : Json) : Json :=
  JObj [("id", field d "id" (JStr "")); ("type", JStr "message"); ("role", JStr "assistant"); ("model", model);
        ("content", JList [JObj [("type", JStr "text"); ("text", field msg "content" (JStr ""))]]);
        ("stop_reason", stop); ("stop_sequence", JNull);
        ("usage", JObj [("input_tokens", field usage "prompt_tokens" (JInt 0)); ("output_tokens", field usage "completion_tokens" (JInt 0))])].

Definition proxy_stop (finish : Json) : Json :=
  if eq_str finish "stop" then JStr "end_turn"
  else if eq_str finish "length" then JStr "max_tokens"
  else if eq_str finish "tool_calls" then JStr "tool_use" else finish.

Definition gateway_stop (finish : Json) : Json :=
  if eq_str finish "stop" then JStr "end_turn"
  else if eq_str finish "length" then JStr "max_tokens" else finish.

Lemma completion_response d choice msg usage model :
  completion d choice msg usage ->
  translate_response (JObj d) model = Ret (anthropic_reply d msg usage (proxy_stop (field choice "finish_reason" (JStr "end_turn"))) model).
Proof.
  intros ([rest Hc] & Hm & Hu). unfold translate_response. rewrite !jget_field. cbn [mbind Outcome_bind]. rewrite Hc. cbn [jhead mbind Outcome_bind].
  rewrite !jget_field. cbn [mbind Outcome_bind]. rewrite Hm, Hu, !jget_field. cbn [mbind Outcome_bind]. unfold proxy_stop, anthropic_reply, field.
  destruct (dict_get "finish_reason" choice) as [f|]; [|done]. by repeat destruct (eq_str f _).
Qed.

Lemma no_choices (d : list (string * Json)) : dict_get "choices" d = Some (JList []) -> field d "choices" (JList [JObj []]) = JList [].
Proof. intros He. unfold field. by rewrite He. Qed.

Lemma no_choices_response (d : list (string * Json)) (model : Json) :
  dict_get "choices" d = Some (JList []) -> translate_response (JObj d) model = Raise IndexError.
Proof. intros He. unfold translate_response. rewrite (jget_field d "choices"), no_choices by done. done. Qed.

(** Both servers turn a chat completion into the Anthropic message with its id, text and
    token counts.  Of the finish reasons that chat completions document, the proxy maps
    "stop", "length" and "tool_calls" into the stop reasons of the Anthropic API; the gateway
    maps the first two and passes "tool_calls" on, which is none of them.  A completion whose
    list of choices is empty raises IndexError in both. *)
Theorem completion_translated (d choice msg usage : list (string * Json)) (model : Json) :
  completion d choice msg usage ->
  translate_response (JObj d) model =
    Ret (anthropic_reply d msg usage (proxy_stop (field choice "finish_reason" (JStr "end_turn"))) model) /\
  _translate_openai_to_anthropic (JObj d) model =
    Ret (anthropic_reply d msg usage (gateway_stop (field choice "finish_reason" JNull)) model) /\
  Forall (fun f => proxy_stop (JStr f) ∈ JStr <$> anthropic_stop_reasons) ["stop"; "length"; "tool_calls"] /\
  Forall (fun f => gateway_stop (JStr f) = proxy_stop (JStr f)) ["stop"; "length"] /\
  (gateway_stop (JStr "tool_calls") ∉ JStr <$> anthropic_stop_reasons) /\
  (forall e, dict_get "choices" e = Some (JList []) ->
     translate_response (JObj e) model = Raise IndexError /\ _translate_openai_to_anthropic (JObj e) model = Raise IndexError).
Proof.
  intros Hcomp. pose proof Hcomp as ([rest Hc] & Hm & Hu). split_and!.
  - by apply completion_response.
  - unfold _translate_openai_to_anthropic. rewrite !jget_field. cbn [mbind Outcome_bind]. rewrite Hc. cbn [jhead mbind Outcome_bind].
    rewrite !jget_field. cbn [mbind Outcome_bind]. rewrite Hm, Hu, !jget_field. done.
  - repeat constructor; cbn; set_solver.
  - by repeat constructor.
  - cbn. set_solver.
  - intros e He. split; [by apply no_choices_response|]. unfold _translate_openai_to_anthropic. rewrite (jget_field e "choices"), no_choices by done. done.
Qed.

(** ** Streams *)

(** A reader of server-sent events: the events of a body are what blank lines end. *)
Fixpoint sse_split (cur : list ascii) (l : list ascii) : list (list ascii) :=
  match l with
  | [] => []
  | c :: l' =>
      if decide (c = ascii_of_N 10) then
        match l' with
        | c2 :: l2 => if decide (c2 = ascii_of_N 10) then cur :: sse_split [] l2
                      else sse_split (cur ++ [c]) l'
        | [] => []
        end
      else sse_split (cur ++ [c]) l'
  end.

Definition sse_events (body : string) : list string := of_chars <$> sse_split [] (chars body).

(** The text of a delta event, [None] for another event. *)
Definition delta_prefix : string :=
  dq "data: {'type':'content_block_delta','delta':{'type':'text_delta','text':".

Definition read_delta (event : string) : option string :=
  match strip_prefix (chars delta_prefix) (chars event) with
  | Some rest => match json_unquote (of_chars rest) with
                 | Some (s, "}}") => Some s
                 | _ => None
                 end
  | None => None
  end.

(** An event without the blank line that ends it. *)
Definition event_text (body : string) : string := body +:+ nl +:+ nl.
Definition no_newline (s : string) : Prop := ascii_of_N 10 ∉ chars s.

Lemma sse_split_line cur e l :
  ascii_of_N 10 ∉ e ->
  sse_split cur (e ++ ascii_of_N 10 :: ascii_of_N 10 :: l) = (cur ++ e) :: sse_split [] l.
Proof.
  revert cur. induction e as [|c e IH]; intros cur He; [by cbn; rewrite app_nil_r|].
  cbn [app sse_split]. rewrite decide_False by set_solver.
  rewrite IH by set_solver. by rewrite <-app_assoc.
Qed.

Lemma sse_events_app e body :
  no_newline e -> sse_events (event_text e +:+ body) = e :: sse_events body.
Proof.
  intros He. unfold sse_events, event_text. rewrite !chars_app, <-!app_assoc.
  change (chars nl) with [ascii_of_N 10]. cbn [app].
  rewrite sse_split_line by done. rewrite fmap_cons. cbn [app]. by rewrite of_chars_chars.
Qed.

(** The chunks of a stream, read as one body, are its events. *)
Lemma sse_events_chunks es :
  Forall no_newline es -> sse_events (foldr String.append "" (event_text <$> es)) = es.
Proof.
  induction 1 as [|e es He Hes IH]; [done|]. rewrite fmap_cons. cbn [foldr].
  by rewrite sse_events_app, IH.
Qed.

Definition delta_body (s : string) : string := delta_prefix +:+ json_dumps_str s +:+ "}}".

Lemma delta_event_text s : delta_event s = event_text (delta_body s).
Proof. unfold delta_event, event_text, delta_body. by rewrite !str_app_assoc. Qed.

Lemma delta_body_no_newline s : no_newline (delta_body s).
Proof.
  unfold no_newline, delta_body. rewrite !chars_app, !elem_of_app.
  intros [H|[H|H]]; [|by apply json_dumps_no_newline in H|];
    revert H; apply (bool_decide_unpack _); vm_compute; exact I.
Qed.

Lemma read_delta_body s : read_delta (delta_body s) = Some s.
Proof.
  unfold read_delta, delta_body. rewrite chars_app.
  rewrite (proj2 (strip_prefix_Some _ _ (chars (json_dumps_str s +:+ "}}"))) eq_refl).
  by rewrite of_chars_chars, json_unquote_dumps.
Qed.

Definition start_body (id model : string) : string :=
  dq "data: {'type':'message_start','message':{'id':'" +:+ id +:+
  dq "','type':'message','role':'assistant','model':'" +:+ model +:+ dq "','content':[]}}".

Definition end_body : string :=
  dq "data: {'type':'message_delta','delta':{'stop_reason':'end_turn','stop_sequence':null},'usage':{'output_tokens':0}}".

Lemma start_body_no_newline id model :
  no_newline id -> no_newline model -> no_newline (start_body id model).
Proof.
  intros Hid Hm. unfold no_newline, start_body in *. rewrite !chars_app, !elem_of_app.
  intros [H|[H|[H|[H|H]]]]; try done;
    revert H; apply (bool_decide_unpack _); vm_compute; exact I.
Qed.

Lemma message_start_text id model : message_start id model = event_text (start_body id model).
Proof. unfold message_start, event_text, start_body. by rewrite !str_app_assoc. Qed.

(** What an upstream sends: chunk by chunk, the texts of its deltas; lines that are no data,
    data that is no JSON and deltas without text may come between them, and nothing after
    "[DONE]" counts. *)
Inductive chunk_lines (json_loads : string -> Outcome Json) : list string -> list string -> Prop :=
  | lines_end : chunk_lines json_loads [] []
  | lines_done rest : chunk_lines json_loads ("data: [DONE]" :: rest) []
  | lines_other line rest ts :
      startswith "data: " line = false ->
      chunk_lines json_loads rest ts -> chunk_lines json_loads (line :: rest) ts
  | lines_garbled data rest ts :
      data <> "[DONE]" -> json_loads data = Raise JSONDecodeError ->
      chunk_lines json_loads rest ts -> chunk_lines json_loads (("data: " +:+ data) :: rest) ts
  | lines_text data j s rest ts :
      data <> "[DONE]" -> json_loads data = Ret j -> chunk_content j = Ret (JStr s) ->
      chunk_lines json_loads rest ts ->
      chunk_lines json_loads (("data: " +:+ data) :: rest) (s :: ts)
  | lines_no_text data j rest ts :
      data <> "[DONE]" -> json_loads data = Ret j -> chunk_content j = Ret JNull ->
      chunk_lines json_loads rest ts -> chunk_lines json_loads (("data: " +:+ data) :: rest) ts.

Definition nonempty (ts : list string) : list string := filter (fun s => s <> "") ts.

Lemma startswith_data data : startswith "data: " ("data: " +:+ data) = true.
Proof. apply startswith_app. Qed.

Lemma drop_data data : str_drop 6 ("data: " +:+ data) = data.
Proof. apply (str_drop_app "data: "). Qed.

Lemma generate_lines_ok json_loads full lines ts :
  chunk_lines json_loads lines ts ->
  generate_lines json_loads full lines = (delta_event <$> nonempty ts, None).
Proof.
  intros H. revert full. induction H as [|rest|line rest ts Hl _ IH|data rest ts Hd Hj _ IH
    |data j s rest ts Hd Hj Hs _ IH|data j rest ts Hd Hj Hs _ IH]; intros full; cbn [generate_lines].
  - done.
  - done.
  - by rewrite Hl.
  - rewrite startswith_data, drop_data, bool_decide_eq_false_2, Hj by done. apply IH.
  - rewrite startswith_data, drop_data, bool_decide_eq_false_2, Hj by done.
    cbn [mbind Outcome_bind]. rewrite Hs. cbn [truthy]. unfold is_empty_str, nonempty.
    rewrite filter_cons. destruct (decide (s = "")) as [->|Hne].
    + rewrite decide_False by naive_solver. apply IH.
    + rewrite bool_decide_eq_false_2, decide_True by done. cbn [negb]. by rewrite IH.
  - rewrite startswith_data, drop_data, bool_decide_eq_false_2, Hj by done.
    cbn [mbind Outcome_bind]. rewrite Hs. apply IH.
Qed.

Lemma nonempty_concat ts : foldr String.append "" (nonempty ts) = foldr String.append "" ts.
Proof.
  unfold nonempty. induction ts as [|s ts IH]; [done|]. rewrite filter_cons.
  case_decide as Hs; cbn [foldr]; [by rewrite IH|].
  subst s. exact IH.
Qed.

(** What a client reads: the texts of the delta events. *)
Definition read_texts (body : string) : list string := omap read_delta (sse_events body).

Lemma omap_read_delta (ts : list string) : omap read_delta (delta_body <$> ts) = ts.
Proof. induction ts as [|s ts IH]; [done|]. rewrite fmap_cons. cbn [omap list_omap]. by rewrite read_delta_body, IH. Qed.

Lemma read_delta_start id model : read_delta (start_body id model) = None.
Proof.
  unfold read_delta, start_body. rewrite chars_app.
  destruct (strip_prefix _ _) as [r|] eqn:E; [|done]. apply strip_prefix_Some in E.
  assert (take 20 (chars (dq "data: {'type':'message_start','message':{'id':'") ++
     chars (id +:+ dq "','type':'message','role':'assistant','model':'" +:+ model +:+
            dq "','content':[]}}")) = take 20 (chars delta_prefix ++ r)) as E' by (by rewrite E).
  rewrite !take_app_le in E' by (vm_compute; lia). vm_compute in E'. discriminate.
Qed.

Lemma read_texts_stream id model ts :
  no_newline id -> no_newline model ->
  read_texts (foldr String.append ""
    (message_start id model :: (delta_event <$> ts) ++ [message_delta; done_event])) = ts.
Proof.
  intros Hid Hm.
  assert (message_start id model :: (delta_event <$> ts) ++ [message_delta; done_event] =
          event_text <$> (start_body id model :: (delta_body <$> ts) ++ [end_body; "data: [DONE]"])) as ->.
  { rewrite fmap_cons, fmap_app, <-message_start_text. f_equal. f_equal.
    rewrite <-list_fmap_compose. apply list_fmap_ext. intros ? s _. apply delta_event_text. }
  unfold read_texts. rewrite sse_events_chunks.
  - cbn [omap list_omap]. rewrite read_delta_start, omap_app, omap_read_delta.
    replace (omap read_delta [end_body; "data: [DONE]"]) with (@nil string) by (vm_compute; done).
    by rewrite app_nil_r.
  - constructor; [by apply start_body_no_newline|]. apply Forall_app. split.
    + apply Forall_fmap, Forall_true. intros s. apply delta_body_no_newline.
    + repeat constructor; apply (bool_decide_unpack _); vm_compute; exact I.
Qed.

(** The proxy's generator, on lines that decode, yields the gateway's events under its own
    message id. *)
Lemma proxy_generate_lines_agree json_loads (decode : string -> Outcome string) full raw lines :
  decode "" = Ret "" -> Forall2 (fun r l => decode r = Ret l) raw lines ->
  proxy_generate_lines json_loads decode full raw None = generate_lines json_loads full lines.
Proof.
  intros H0 H. revert full.
  induction H as [|r l raw lines Hr _ IH]; intros full; [done|].
  cbn [proxy_generate_lines generate_lines]. unfold is_empty_str. case_bool_decide as Hre.
  - subst r. rewrite Hr in H0. injection H0 as ->. apply IH.
  - rewrite Hr. destruct (startswith "data: " l); [|apply IH].
    case_bool_decide; [done|]. destruct (json_loads _ ≫= chunk_content) as [c|e|]; [|destruct e; try done|done].
    destruct (truthy c); [|apply IH]. destruct c; try done. by rewrite IH.
Qed.

Section streams.
Context {Client : Type} (AsyncClient : Client).
Context (client_post : Client -> string -> Json -> list (string * string) -> Outcome Response).
Context (json_loads : string -> Outcome Json) (repr : Json -> string) (st : Settings).
Local Abbreviation handler := (anthropic_messages AsyncClient client_post json_loads repr st).
Local Abbreviation url := (upstream_base_url st +:+ "/chat/completions").

(** C31. A streamed Anthropic reply carries the upstream's text.  For a request that asks for
    a stream and translates, the gateway sends one chat-completions request with "stream" set
    and replies with a complete event stream; a client that cuts the stream at blank lines
    and decodes the JSON text of each delta event reads exactly the non-empty deltas the
    upstream sent before "[DONE]", in order, so the whole text, whatever characters it has,
    lines without data and garbled chunks notwithstanding.  The proxy's generator yields the
    same events, after its own first one, from the same lines as bytes. *)
Theorem anthropic_stream_delivers (decode : string -> Outcome string)
    (d payload : list (string * Json)) (s : Server) (resp : Response)
    (ts raw : list string) :
  truthy (field d "stream" (JBool false)) = true ->
  _translate_anthropic_to_openai st (JObj d) = Ret (JObj payload) ->
  client_post (default AsyncClient (_client s)) url
    (JObj (dict_set "stream" (JBool true) payload)) UPSTREAM_HEADERS = Ret resp ->
  chunk_lines json_loads (aiter_lines resp) ts ->
  no_newline (py_str repr (field d "model" (JStr (served_model st)))) ->
  decode "" = Ret "" -> Forall2 (fun r l => decode r = Ret l) raw (aiter_lines resp) ->
  exists chunks first rest,
    handler (Ret (JObj d)) s =
      (Ret (StreamingResponse chunks None "text/event-stream"),
       {| _client := Some (default AsyncClient (_client s));
          sent := sent s ++ [(url, JObj (dict_set "stream" (JBool true) payload))] |}) /\
    chunks = first :: rest /\
    read_texts (foldr String.append "" chunks) = nonempty ts /\
    foldr String.append "" (read_texts (foldr String.append "" chunks)) =
      foldr String.append "" ts /\
    proxy_generate json_loads decode (py_str repr (field d "model" (JStr (served_model st)))) raw None =
      (message_start "msg_placeholder" (py_str repr (field d "model" (JStr (served_model st)))) :: rest,
       None).
Proof.
  intros Hstream Htr Hpost Hlines Hm Hdec0 Hraw.
  set (mtext := py_str repr (field d "model" (JStr (served_model st)))) in *.
  assert (no_newline "msg_1") as Hid by (apply (bool_decide_unpack _); vm_compute; exact I).
  exists (message_start "msg_1" mtext :: (delta_event <$> nonempty ts) ++ [message_delta; done_event]).
  eexists _, _. split; [|split; [reflexivity|]].
  - unfold anthropic_messages, mbind, PyM_bind, py_lift. cbv beta iota.
    rewrite !jget_field, Htr, Hstream. unfold proxy_to_upstream, get_client, post, mbind, PyM_bind, py_lift, jset.
    destruct s as [[c|] log]; cbn [_client sent default from_option id] in *; rewrite Hpost;
      unfold generate; by rewrite (generate_lines_ok _ _ _ ts).
  - rewrite !read_texts_stream, nonempty_concat by done. split_and!; [done..|].
    unfold proxy_generate. rewrite (proxy_generate_lines_agree _ _ _ _ (aiter_lines resp)) by done.
    by rewrite (generate_lines_ok _ _ _ ts) by done.
Qed.
End streams.

(** A reader that knows two chunks. *)
Definition demo_chunk (s : Json) : Json :=
  JObj [("choices", JList [JObj [("delta", JObj [("content", s)])]])].

Definition demo_loads (data : string) : Outcome Json :=
  if bool_decide (data = "c1") then Ret (demo_chunk (JStr (String.String quote nl)))
  else if bool_decide (data = "c2") then Ret (demo_chunk JNull)
  else if bool_decide (data = "c3") then Ret (demo_chunk (JStr "b"))
  else Raise JSONDecodeError.

Definition demo_lines : list string :=
  ["data: c1"; ""; "data: c2"; ": ping"; "data: {"; "data: c3"; "data: [DONE]"; "data: c1"].

Definition demo_response : Response :=
  {| status_code := 200; resp_json := Raise JSONDecodeError; aiter_bytes := [];
     aiter_lines := demo_lines |}.

Definition demo_stream_body : list (string * Json) :=
  [("messages", JList [JObj [("role", JStr "user"); ("content", JStr "hi")]]);
   ("stream", JBool true)].

Lemma demo_chunk_lines : chunk_lines demo_loads demo_lines [String.String quote nl; "b"].
Proof.
  apply (lines_text _ "c1" (demo_chunk (JStr (String.String quote nl)))); [done..|].
  apply lines_other; [done|].
  apply (lines_no_text _ "c2" (demo_chunk JNull)); [done..|].
  apply lines_other; [done|].
  apply (lines_garbled _ "{"); [done..|].
  apply (lines_text _ "c3" (demo_chunk (JStr "b"))); [done..|].
  apply lines_done.
Qed.

Lemma anthropic_stream_delivers_witness :
  exists chunks,
    fst (anthropic_messages tt (fun _ _ _ _ => Ret demo_response) demo_loads (fun _ => "")
      demo_settings (Ret (JObj demo_stream_body)) {| _client := None; sent := [] |}) =
    Ret (StreamingResponse chunks None "text/event-stream") /\
    read_texts (foldr String.append "" chunks) = [String.String quote nl; "b"].
Proof.
  destruct (anthropic_stream_delivers tt (fun _ _ _ _ => Ret demo_response) demo_loads
    (fun _ => "") demo_settings (fun s => Ret s) demo_stream_body
    [("model", JStr "deepseek-v4-flash");
     ("messages", JList [chat_message "user" (JStr "hi")]);
     ("max_tokens", JInt 1024); ("temperature", JFloat float_one); ("top_p", JFloat float_one);
     ("stream", JBool true); ("stop", JNull)]
    {| _client := None; sent := [] |} demo_response
    [String.String quote nl; "b"] demo_lines) as (chunks & first & rest & Hh & _ & Hr & _ & _).
  - reflexivity.
  - vm_compute. reflexivity.
  - reflexivity.
  - exact demo_chunk_lines.
  - apply (bool_decide_unpack _). vm_compute. exact I.
  - reflexivity.
  - unfold demo_response, aiter_lines, demo_lines. repeat constructor.
  - exists chunks. split; [by rewrite Hh|]. rewrite Hr. reflexivity.
Defined.

(** ** Errors *)

Section errors.
Context (requests_post : string -> Json -> list (string * string) -> bool -> option Z ->
                         Outcome RResponse).
Context (http_error_text : RResponse -> string) (exc_text : PyExc -> string).
Context (json_loads : string -> Outcome Json) (decode_utf8 : string -> Outcome string).
Context (repr : Json -> string) (TARGET_URL : string).

(** What the proxy answers to each thing the upstream can do. *)
Inductive proxy_answer (model : Json) : Outcome RResponse -> Outcome Reply -> Prop :=
  | answer_timeout k text : k = ReadTimeout \/ k = ConnectTimeout ->
      proxy_answer model (Raise (RequestsError k text)) (Raise (HTTPException 504 "Upstream timeout"))
  | answer_refused text :
      proxy_answer model (Raise (RequestsError ConnectionError text))
        (Raise (HTTPException 502 "Cannot connect to sglang"))
  | answer_status resp : 400 <= r_status_code resp < 600 ->
      proxy_answer model (Ret resp)
        (Raise (HTTPException 502
           ("sglang error: " +:+ exc_text (RequestsError HTTPError (http_error_text resp)))))
  | answer_completion resp d choice msg usage :
      ~ 400 <= r_status_code resp < 600 -> r_json resp = Ret (JObj d) -> completion d choice msg usage ->
      proxy_answer model (Ret resp)
        (Ret (JSONResponse (anthropic_reply d msg usage (proxy_stop (field choice "finish_reason" (JStr "end_turn"))) model)))
  | answer_no_choices resp d :
      ~ 400 <= r_status_code resp < 600 -> r_json resp = Ret (JObj d) -> dict_get "choices" d = Some (JList []) ->
      proxy_answer model (Ret resp) (Raise IndexError)
  | answer_no_json resp text :
      ~ 400 <= r_status_code resp < 600 ->
      r_json resp = Raise (RequestsError OtherRequestException text) ->
      proxy_answer model (Ret resp) (Raise (RequestsError OtherRequestException text)).

Lemma raise_for_status_ok resp :
  ~ 400 <= r_status_code resp < 600 -> raise_for_status http_error_text resp = Ret tt.
Proof.
  intros H. unfold raise_for_status. destruct (_ && _) eqn:E; [|done].
  apply andb_true_iff in E as [E1%Z.leb_le E2%Z.ltb_lt]. lia.
Qed.

(** C39. A non-streaming request to the proxy makes exactly one upstream call, with the
    translated payload, and its answer is determined by what the upstream does: 504 when the
    call times out (connecting or reading), 502 when the connection fails or the status is
    4xx or 5xx; for a completion, whatever its other fields and their order, the Anthropic
    message with its id, text, token counts and mapped stop reason; a body that is no JSON, or
    one with an empty list of choices, is not handled and leaves the handler as the exception
    it raised.  (A streaming request has no timeout and none of these handlers.) *)
Theorem proxy_answers (d : list (string * Json)) (payload : Json) (log : Log)
    (reply : Outcome Reply) :
  truthy (field d "stream" (JBool false)) = false ->
  build_openai_payload (JObj d) = Ret payload ->
  proxy_answer (field d "model" (JStr "deepseek-v4-flash"))
    (requests_post (TARGET_URL +:+ "/v1/chat/completions") payload
       [("Content-Type", "application/json")] false (Some 300)) reply ->
  handle_messages requests_post http_error_text exc_text json_loads decode_utf8 repr TARGET_URL
    (Ret (JObj d)) log =
  (reply, log ++ [(TARGET_URL +:+ "/v1/chat/completions", payload)]).
Proof.
  intros Hs Hp Ha. unfold handle_messages, mbind, PyM_bind, py_lift. cbv beta iota.
  rewrite !jget_field, Hp, Hs. unfold py_try, send.
  inversion Ha as [k text Hk Hpost|text Hpost|resp Hst Hpost|resp d' choice msg usage Hst Hj Hcomp Hpost
                  |resp d' Hst Hj Hch Hpost|resp text Hst Hj Hpost]; clear Ha.
  - by destruct Hk as [->| ->].
  - done.
  - unfold raise_for_status. rewrite (proj2 (Z.leb_le _ _)), (proj2 (Z.ltb_lt _ _)) by lia. done.
  - rewrite raise_for_status_ok, Hj by done. by rewrite (completion_response d' choice msg usage).
  - rewrite raise_for_status_ok, Hj by done. by rewrite (no_choices_response d').
  - rewrite raise_for_status_ok, Hj by done. done.
Qed.
End errors.

(** A reply of the upstream with fields that the proxy does not read. *)
Definition demo_message : list (string * Json) := [("role", JStr "assistant"); ("content", JStr "Hi"); ("tool_calls", JNull)].
Definition demo_choice : list (string * Json) :=
  [("index", JInt 0); ("message", JObj demo_message); ("logprobs", JNull); ("finish_reason", JStr "length"); ("matched_stop", JNull)].
Definition demo_usage : list (string * Json) := [("prompt_tokens", JInt 7); ("total_tokens", JInt 9); ("completion_tokens", JInt 2)].
Definition demo_completion : list (string * Json) :=
  [("id", JStr "c1"); ("object", JStr "chat.completion"); ("created", JInt 1); ("model", JStr "m"); ("choices", JList [JObj demo_choice]);
   ("usage", JObj demo_usage)].
Definition demo_upstream : RResponse := mkRResponse 200 (Ret (JObj demo_completion)) [] None.

Lemma proxy_answers_witness :
  handle_messages (fun _ _ _ _ _ => Ret demo_upstream) (fun _ => "")
    (fun _ => "") demo_loads (fun s => Ret s) (fun _ => "") "http://127.0.0.1:9000"
    (Ret (JObj [])) [] =
  (Ret (JSONResponse
     (JObj [("id", JStr "c1"); ("type", JStr "message"); ("role", JStr "assistant"); ("model", JStr "deepseek-v4-flash");
            ("content", JList [JObj [("type", JStr "text"); ("text", JStr "Hi")]]);
            ("stop_reason", JStr "max_tokens"); ("stop_sequence", JNull);
            ("usage", JObj [("input_tokens", JInt 7); ("output_tokens", JInt 2)])])),
   [("http://127.0.0.1:9000/v1/chat/completions",
     JObj [("model", JStr "deepseek-v4-flash"); ("messages", JList []);
           ("max_tokens", JInt 1024); ("temperature", JFloat float_one);
           ("top_p", JFloat float_one); ("stream", JBool false)])]).
Proof.
  apply (proxy_answers (fun _ _ _ _ _ => Ret demo_upstream)
    (fun _ => "") (fun _ => "") demo_loads (fun s => Ret s) (fun _ => "")
    "http://127.0.0.1:9000" [] _ []).
  - reflexivity.
  - vm_compute. reflexivity.
  - apply (answer_completion _ _ _ demo_upstream demo_completion demo_choice demo_message demo_usage).
    + vm_compute. intros [H _]. by apply H.
    + reflexivity.
    + split; [by exists []|]. split; reflexivity.
Defined.
