(* ===== verification/HiCacheFile.v ===== *)
(** * HiCacheFile (mem_cache/hicache_storage.py)

    The file backend of the L3 storage: one raw file per page in one directory, its name made
    of the page's hash, the pool it belongs to and a suffix for the model and the ranks.
    Pages are written once; the prefix that [batch_exists_v2] reports is computed from one
    scan of the directory.

    The state is the disk, whether the directory exists, the registered host pools and the
    count of fallible calls; which calls fail, and what a failed write leaves behind, are
    parameters.  A tensor is its bytes, and [page_bytes] the size of the page a pool hands out
    as the target of a read. *)

From stdpp Require Import base tactics list gmap strings pretty.
From Stdlib Require Import ZArith Lia Ascii.
From Stdlib Require Import Strings.Byte.
From S2P Require Import Prelude PyStr FileSys Storage DiskOffload.

Record HiCacheStorageConfig := mkHiCacheStorageConfig {
  tp_rank : Z; tp_size : Z; pp_rank : Z; pp_size : Z;
  is_mla_model : bool; model_name : option string }.

(** ["-".join(model_name.split("/")) if model_name else ""] *)
Definition flat_model_name (m : option string) : string :=
  match m with
  | Some s => if is_empty_str s then "" else str_join "-" (str_split "/"%char s)
  | None => ""
  end.

Definition config_suffix_of (c : HiCacheStorageConfig) : string :=
  "_" +:+ flat_model_name (model_name c)
  +:+ (if is_mla_model c then "" else "_" +:+ pretty (tp_rank c) +:+ "_" +:+ pretty (tp_size c))
  +:+ (if 1 <? pp_size c then "_" +:+ pretty (pp_size c) +:+ "_" +:+ pretty (pp_rank c) else "").

Record FileDisk := mkFileDisk {
  ffs : gmap string File;
  dir_exists : bool;
  fio : nat;
  registered_pools : option (list (string * HostPool (list byte))) }.

Definition set_ffs (f : gmap string File) (s : FileDisk) : FileDisk :=
  mkFileDisk f (dir_exists s) (fio s) (registered_pools s).
Definition set_pools (p : option (list (string * HostPool (list byte)))) (s : FileDisk) : FileDisk :=
  mkFileDisk (ffs s) (dir_exists s) (fio s) p.

Section file_backend.
Variable io_fault : nat -> bool.
Variable partial_write : nat -> option (list byte).
Variable mtime : nat -> Z.
Variable page_bytes : string -> nat.
Variable file_path : string.
Variable config_suffix : string.

Abbreviation M := (PyM FileDisk).

(** [__init__]: the directory is made by rank 0 when it is missing. *)
Definition init_file (c : HiCacheStorageConfig) : M unit := fun s =>
  if negb (dir_exists s) && (tp_rank c =? 0)
  then if io_fault (fio s)
       then (Raise OSError, mkFileDisk (ffs s) false (S (fio s)) (registered_pools s))
       else (Ret tt, mkFileDisk (ffs s) true (S (fio s)) (registered_pools s))
  else (Ret tt, s).

Definition file_io_call : M bool := fun s =>
  (Ret (negb (io_fault (fio s))),
   mkFileDisk (ffs s) (dir_exists s) (S (fio s)) (registered_pools s)).

Definition register_mem_host_pool_v2 (p : HostPool (list byte)) (n : string) : M unit :=
  py_modify (fun s => set_pools (Some (dict_set n p (default [] (registered_pools s)))) s).

(** *** Names of files *)

Definition _get_suffixed_key (key : string) : string := key +:+ config_suffix.

Definition _get_component_key (key : string) (component_name : option string) : string :=
  match component_name with
  | None => _get_suffixed_key key
  | Some n => if bool_decide (n = "__default__") || bool_decide (n = PoolName_KV)
              then _get_suffixed_key key
              else _get_suffixed_key (key +:+ "." +:+ n)
  end.

Definition _get_component_path (key : string) (component_name : option string) : string :=
  path_join file_path (_get_component_key key component_name +:+ ".bin").

Definition tensor_path (key : string) : string :=
  path_join file_path (_get_suffixed_key key +:+ ".bin").

(** *** Single pages *)

Definition file_exists (key : string) (s : FileDisk) : bool :=
  path_exists (tensor_path key) (ffs s).

(** [get] with a target of [expected] bytes: what the target holds afterwards. *)
Definition file_get (key : string) (expected : nat) : M (option (list byte)) :=
  ok ← file_io_call;
  s ← py_get;
  if negb ok then py_raise OSError
  else match ffs s !! tensor_path key with
       | Some (mkFile (Raw b) _) =>
           if (length b <? expected)%nat then py_raise OSError
           else mret (Some (take expected b))
       | Some (mkFile (Json _) _) => py_raise OSError
       | None => if is_dir (tensor_path key) (ffs s) then py_raise OSError else mret None
       end.

(** [tofile]: needs the directory; a write that fails may leave bytes behind. *)
Definition tofile (path : string) (value : list byte) : M unit :=
  s ← py_get;
  ok ← file_io_call;
  if negb (dir_exists s) then py_raise FileNotFoundError
  else if ok : bool
  then py_modify (fun s => set_ffs (<[path := mkFile (Raw value) (mtime (fio s))]> (ffs s)) s)
  else _ ← match partial_write (fio s) with
           | Some b => py_modify (fun s => set_ffs (<[path := mkFile (Raw b) (mtime (fio s))]> (ffs s)) s)
           | None => mret tt
           end;
       py_raise OSError.

(** [value] is [None] when the caller gives no tensor: [.contiguous()] is then an
    [AttributeError], which is caught too. *)
Definition file_set (key : string) (value : option (list byte)) : M bool :=
  s ← py_get;
  if file_exists key s then mret true
  else py_try
    (match value with
     | Some v => _ ← tofile (tensor_path key) v; mret true
     | None => py_raise AttributeError
     end)
    (fun _ => mret false).

(** *** Batches *)

(** [zip(keys, target_locations or [None] * len(keys))]: without targets every read is an
    [AttributeError]. *)
Fixpoint file_batch_get_loop (kts : list (string * option nat)) : M (list (option (list byte))) :=
  match kts with
  | [] => mret []
  | (k, t) :: kts' =>
      r ← match t with Some n => file_get k n | None => py_raise AttributeError end;
      rs ← file_batch_get_loop kts';
      mret (r :: rs)
  end.

Definition file_batch_get (ks : list string) (targets : option (list nat)) :
    M (list (option (list byte))) :=
  file_batch_get_loop
    (zip ks (match targets with
             | Some (t :: ts) => Some <$> t :: ts
             | _ => replicate (length ks) None
             end)).

Fixpoint file_batch_set_loop (kvs : list (string * option (list byte))) : M bool :=
  match kvs with
  | [] => mret true
  | (k, v) :: kvs' =>
      ok ← file_set k v;
      if ok : bool then file_batch_set_loop kvs' else mret false
  end.

Definition file_batch_set (ks : list string) (values : option (list (option (list byte)))) : M bool :=
  match values with
  | Some vs => file_batch_set_loop (zip ks vs)
  | None => py_raise TypeError
  end.

(** *** Longest prefix *)

Definition target_files (ks : list string) (ts : list PoolTransfer) : list string :=
  ((fun k => _get_component_key k None +:+ ".bin") <$> ks) ++
  (t ← ts; (fun k => _get_component_key k (Some (name t)) +:+ ".bin") <$> ks).

(** One scan of the directory: the files in it that the request asks for. *)
Definition _collect_existing_component_keys (ks : list string) (ts : list PoolTransfer) :
    M (list string) :=
  s ← py_get;
  if negb (dir_exists s) then py_raise FileNotFoundError
  else mret (filter (fun n => is_file (path_join file_path n) (ffs s) = true /\
                              n ∈ target_files ks ts)
               (listdir file_path (ffs s))).

Definition in_files (n : string) (existing : list string) : bool := bool_decide (n ∈ existing).

Definition file_batch_exists_v2 (ks : list string) (pool_transfers : list PoolTransfer) :
    M PoolTransferResult :=
  existing ← _collect_existing_component_keys ks pool_transfers;
  let has_component (i : nat) (n : string) :=
    match ks !! i with
    | Some k => in_files (_get_component_key k (Some n) +:+ ".bin") existing
    | None => false
    end in
  let kv_pages :=
    first_missing (fun i => match ks !! i with
                            | Some k => in_files (_get_component_key k None +:+ ".bin") existing
                            | None => false
                            end) (length ks) in
  mret (v2_result has_component kv_pages pool_transfers).

(** *** Batched page transfers *)

Definition _log_key (pool_name key : string) : string :=
  if bool_decide (pool_name = PoolName_KV) then key else key +:+ "." +:+ pool_name.

(** The pool object is shared with its registration: a read changes it there. *)
Definition _read_page (pool_name key : string) (page_offset : Z) : M bool :=
  r ← file_get (_log_key pool_name key) (page_bytes pool_name);
  match r with
  | None => mret false
  | Some data_page =>
      _ ← py_modify (fun s =>
            match registered_pools s with
            | Some ps =>
                match dict_get pool_name ps with
                | Some p => set_pools (Some (dict_set pool_name
                              (set_from_flat_data_page page_offset data_page p) ps)) s
                | None => s
                end
            | None => s
            end);
      mret true
  end.

Definition _write_page (pool_name key : string) (page_offset : Z) : M bool :=
  s ← py_get;
  match registered_pools s ≫= dict_get pool_name with
  | Some p => file_set (_log_key pool_name key) (Some (data_page p page_offset))
  | None => py_raise KeyError
  end.

(** [[op_fn(name, key, host_pool, host_indices[i * page_size].item()) for i, key in ...]] *)
Fixpoint file_pages_io (op : string -> string -> Z -> M bool) (n : string) (psz : Z)
    (indices : list Z) (i : nat) (ks : list string) : M (list bool) :=
  match ks with
  | [] => mret []
  | k :: ks' =>
      match indices !! Z.to_nat (Z.of_nat i * psz) with
      | Some off =>
          r ← op n k off;
          rs ← file_pages_io op n psz indices (S i) ks';
          mret (r :: rs)
      | None => py_raise IndexError
      end
  end.

Definition file_page_size (p : HostPool (list byte)) : Z :=
  if page_size p =? 0 then 1 else page_size p.

Fixpoint file_batch_io (op : string -> string -> Z -> M bool) (ts : list PoolTransfer)
    (results : list (string * list bool)) : M (list (string * list bool)) :=
  match ts with
  | [] => mret results
  | t :: ts' =>
      s ← py_get;
      match registered_pools s with
      | None => py_raise AttributeError
      | Some pools =>
          match dict_get (name t) pools with
          | None => py_raise KeyError
          | Some host_pool =>
              let ks := default [] (keys t) in
              let psz := file_page_size host_pool in
              match host_indices t with
              | Some indices =>
                  if Z.of_nat (length indices) =? Z.of_nat (length ks) * psz
                  then rs ← file_pages_io op (name t) psz indices 0 ks;
                       file_batch_io op ts' (dict_set (name t) rs results)
                  else file_batch_io op ts' (dict_set (name t) (replicate (length ks) false) results)
              | None => file_batch_io op ts' (dict_set (name t) (replicate (length ks) false) results)
              end
          end
      end
  end.

Definition file_batch_get_v2 (ts : list PoolTransfer) : M (list (string * list bool)) :=
  file_batch_io _read_page ts [].
Definition file_batch_set_v2 (ts : list PoolTransfer) : M (list (string * list bool)) :=
  file_batch_io _write_page ts [].

(** *** Clearing *)

Fixpoint file_clear_loop (names : list string) : M unit :=
  match names with
  | [] => mret tt
  | n :: names' =>
      s ← py_get;
      let path := path_join file_path n in
      _ ← (if is_file path (ffs s)
           then ok ← file_io_call;
                if ok : bool then py_modify (fun s => set_ffs (delete path (ffs s)) s)
                else py_raise OSError
           else mret tt);
      file_clear_loop names'
  end.

Definition file_clear : M bool :=
  py_try
    (s ← py_get;
     if negb (dir_exists s) then py_raise FileNotFoundError
     else _ ← file_clear_loop (listdir file_path (ffs s)); mret true)
    (fun _ => mret false).
End file_backend.
