(* ===== verification/HiCacheFileProofs.v ===== *)
(** * Correctness of HiCacheFile

    - the scan of the directory in [batch_exists_v2] answers as asking for each file would;
    - pages written through the v2 interface are found and read back into any host pool;
    - a write that fails half way leaves a key that is never repaired. *)

From stdpp Require Import base tactics list gmap strings pretty.
From Stdlib Require Import ZArith Lia Ascii.
From Stdlib Require Import Strings.Byte.
From S2P Require Import Prelude PyStr FileSys Storage DiskOffload HiCacheFile.

Definition no_slash (s : string) : Prop := contains_char "/"%char s = false.

Lemma no_slash_app s t : no_slash s -> no_slash t -> no_slash (s +:+ t).
Proof.
  unfold no_slash, contains_char. rewrite !bool_decide_eq_false, chars_app. set_solver.
Qed.

Lemma no_slash_app_inv s t : no_slash (s +:+ t) -> no_slash s /\ no_slash t.
Proof.
  unfold no_slash, contains_char. rewrite !bool_decide_eq_false, chars_app. set_solver.
Qed.

Lemma no_slash_relative s : no_slash s -> startswith "/" s = false.
Proof.
  intros H. apply not_true_iff_false. rewrite startswith_spec. intros [r ->].
  apply no_slash_app_inv in H as [H _]. discriminate.
Qed.

Lemma no_slash_bin : no_slash ".bin".
Proof. done. Qed.
#[export] Hint Resolve no_slash_app no_slash_relative no_slash_bin : pydb.

Lemma bin_not_empty s : s +:+ ".bin" <> "".
Proof. by destruct s. Qed.

(** ** Equal tests give equal prefixes *)

Lemma next_missing_ext p q i n :
  (forall j, (i <= j < i + n)%nat -> p j = q j) -> next_missing p i n = next_missing q i n.
Proof.
  revert i. induction n as [|n IH]; intros i H; [done|]. cbn [next_missing].
  rewrite H by lia. rewrite IH by (intros; apply H; lia). done.
Qed.

Lemma first_missing_ext p q n :
  (forall j, (j < n)%nat -> p j = q j) -> first_missing p n = first_missing q n.
Proof. intros H. apply next_missing_ext. intros. apply H. lia. Qed.

Lemma trailing_boundary_ext hc hc' n trailing m :
  (forall i, hc i n = hc' i n) -> trailing_boundary hc n trailing m = trailing_boundary hc' n trailing m.
Proof.
  intros H. induction m as [|m IH]; [done|]. cbn [trailing_boundary]. rewrite IH.
  assert (trailing_present hc n trailing (S m) = trailing_present hc' n trailing (S m)) as ->; [|done].
  unfold trailing_present. induction (seq _ _); [done|]. cbn [forallb]. by rewrite H, IHl.
Qed.

Lemma v2_result_ext hc hc' kv ts :
  (forall i t, t ∈ ts -> hc i (name t) = hc' i (name t)) -> v2_result hc kv ts = v2_result hc' kv ts.
Proof.
  unfold v2_result. generalize (if Nat.eqb kv 0 then [] else [(PoolName_KV, kv)]).
  generalize kv at 2 4. induction ts as [|t ts IH]; intros fp l H; [done|]. cbn [v2_loop].
  assert (pool_boundary hc kv t = pool_boundary hc' kv t) as ->.
  { unfold pool_boundary. destruct (hit_policy t).
    - apply first_missing_ext. intros j _. apply H. left.
    - apply trailing_boundary_ext. intros j. apply H. left. }
  destruct (Nat.eqb fp 0); [done|]. apply IH. intros. apply H. by right.
Qed.

(** ** The directory scan *)

Section scan.
Context (file_path config_suffix : string).
Local Abbreviation comp_key := (_get_component_key config_suffix).
Local Abbreviation comp_path := (_get_component_path file_path config_suffix).

Lemma comp_key_no_slash k n :
  no_slash config_suffix -> no_slash k -> match n with Some n => no_slash n | None => True end ->
  no_slash (comp_key k n +:+ ".bin").
Proof.
  intros Hs Hk Hn. assert (no_slash ".") by done.
  unfold _get_component_key, _get_suffixed_key. destruct n as [n|]; [destruct (_ || _)|]; auto 10 with pydb.
Qed.

Lemma in_files_collected (fs : gmap string File) n (targets : list string) :
  no_slash n -> n <> "" -> n ∈ targets ->
  in_files n (filter (fun n => is_file (path_join file_path n) fs = true /\ n ∈ targets)
                (listdir file_path fs)) = is_file (path_join file_path n) fs.
Proof.
  intros Hs Hne Ht. unfold in_files. apply eq_bool_prop_intro.
  rewrite bool_decide_spec, list_elem_of_filter. split.
  - intros [[-> _] _]. done.
  - intros H. apply Is_true_true in H. split; [done|]. apply listdir_complete; [done..|].
    rewrite path_join_relative in H by auto with pydb. done.
Qed.

Lemma target_files_kv ks ts k : k ∈ ks -> comp_key k None +:+ ".bin" ∈ target_files config_suffix ks ts.
Proof. intros H. unfold target_files. apply elem_of_app. left. apply list_elem_of_fmap. eauto. Qed.

Lemma target_files_pool ks ts k t :
  k ∈ ks -> t ∈ ts -> comp_key k (Some (name t)) +:+ ".bin" ∈ target_files config_suffix ks ts.
Proof.
  intros Hk Ht. unfold target_files. apply elem_of_app. right. apply list_elem_of_bind.
  exists t. split; [|done]. apply list_elem_of_fmap. eauto.
Qed.

(** A page of the request, asked for by its path. *)
Definition page_on_disk (fs : gmap string File) (ks : list string) (i : nat) (n : option string) : bool :=
  match ks !! i with Some k => is_file (comp_path k n) fs | None => false end.

Lemma file_batch_exists_v2_eq (ks : list string) (ts : list PoolTransfer) (s : FileDisk) :
  no_slash config_suffix -> Forall no_slash ks -> Forall (fun t => no_slash (name t)) ts ->
  file_batch_exists_v2 file_path config_suffix ks ts s =
    (if dir_exists s
     then Ret (v2_result (fun i n => page_on_disk (ffs s) ks i (Some n))
                 (first_missing (fun i => page_on_disk (ffs s) ks i None) (length ks)) ts)
     else Raise FileNotFoundError, s).
Proof.
  intros Hsuf Hks Hts. rewrite Forall_forall in Hks. rewrite Forall_forall in Hts.
  unfold file_batch_exists_v2, _collect_existing_component_keys, mbind, PyM_bind. cbn [py_get].
  destruct (dir_exists s); [|done]. cbn [negb]. unfold mret at 1, PyM_ret.
  assert (forall i, page_on_disk (ffs s) ks i None =
    match ks !! i with Some k => in_files (comp_key k None +:+ ".bin")
      (filter (fun n => is_file (path_join file_path n) (ffs s) = true /\
                        n ∈ target_files config_suffix ks ts) (listdir file_path (ffs s)))
    | None => false end) as Hkv.
  { intros i. unfold page_on_disk. destruct (ks !! i) as [k|] eqn:Hk; [|done].
    apply list_elem_of_lookup_2 in Hk. rewrite in_files_collected; [done| | |].
    - apply comp_key_no_slash; auto.
    - apply bin_not_empty.
    - by apply target_files_kv. }
  unfold mret, PyM_ret. do 2 f_equal.
  rewrite (first_missing_ext _ _ _ (fun i _ => Hkv i)). apply v2_result_ext.
  intros i t Ht. unfold page_on_disk. destruct (ks !! i) as [k|] eqn:Hk; [|done].
  apply list_elem_of_lookup_2 in Hk. rewrite in_files_collected; [done| | |].
  + apply comp_key_no_slash; [done|auto|]. by apply Hts.
  + apply bin_not_empty.
  + by apply target_files_pool.
Qed.

(** The file backend's batch_exists_v2 scans the directory once instead of asking for each
    page, and answers the same: the result is the one of the common prefix computation with
    "the file of page i for this pool exists" as its test, so every KV page of the reported
    prefix, and every page a pool with the all-pages policy needs, has its file; a missing
    directory raises FileNotFoundError.  (Page hashes, pool names and the suffix have no
    slash.) *)
Theorem file_batch_exists_v2_scan (ks : list string) (ts : list PoolTransfer) (s : FileDisk) :
  no_slash config_suffix -> Forall no_slash ks -> Forall (fun t => no_slash (name t)) ts ->
  let r := v2_result (fun i n => page_on_disk (ffs s) ks i (Some n))
             (first_missing (fun i => page_on_disk (ffs s) ks i None) (length ks)) ts in
  file_batch_exists_v2 file_path config_suffix ks ts s =
    (if dir_exists s then Ret r else Raise FileNotFoundError, s) /\
  (forall i k, (i < kv_hit_pages r)%nat -> ks !! i = Some k ->
     is_file (comp_path k None) (ffs s) = true /\
     Forall (fun t => hit_policy t = ALL_PAGES -> is_file (comp_path k (Some (name t))) (ffs s) = true) ts).
Proof.
  intros Hsuf Hks Hts r. split.
  - by apply file_batch_exists_v2_eq.
  - intros i k Hi Hk.
    assert (Hkv : (i < first_missing (fun i => page_on_disk (ffs s) ks i None) (length ks))%nat)
      by (eapply Nat.lt_le_trans; [exact Hi|apply v2_result_le_kv]).
    split.
    + apply (first_missing_present (fun i => page_on_disk (ffs s) ks i None)) in Hkv.
      unfold page_on_disk in Hkv. by rewrite Hk in Hkv.
    + apply Forall_forall. intros t Ht Hp.
      pose proof (all_pages_ok (fun i n => page_on_disk (ffs s) ks i (Some n))
        (first_missing (fun i => page_on_disk (ffs s) ks i None) (length ks)) ts t Ht Hp) as H.
      unfold policy_ok in H. rewrite Hp in H. specialize (H i Hi).
      unfold page_on_disk in H. by rewrite Hk in H.
Qed.
End scan.

(** ** Pages through the v2 interface *)

Lemma is_dir_insert q p f (m : gmap string File) :
  entry_of q p = None -> is_dir q (<[p := f]> m) = true -> is_dir q m = true.
Proof.
  unfold is_dir. intros Hqp. rewrite !existsb_exists.
  intros (x & Hx & Hex). exists x. split; [|done].
  apply list_elem_of_In, list_elem_of_fmap in Hx as ([p' f'] & -> & Hx).
  apply elem_of_map_to_list in Hx. cbn [fst] in *.
  destruct (decide (p = p')) as [->|Hne]; [by rewrite Hqp in Hex|].
  rewrite lookup_insert_ne in Hx by done.
  apply list_elem_of_In, list_elem_of_fmap. exists (p', f'). split; [done|]. by apply elem_of_map_to_list.
Qed.

Section transfer.
Context (io_fault : nat -> bool) (partial_write : nat -> option (list byte)) (mtime : nat -> Z).
Context (page_bytes : string -> nat) (file_path config_suffix : string).
Local Abbreviation path_of k := (tensor_path file_path config_suffix k).
Local Abbreviation fget := (file_get io_fault file_path config_suffix).
Local Abbreviation fset := (file_set io_fault partial_write mtime file_path config_suffix).
Local Abbreviation read_page := (_read_page io_fault page_bytes file_path config_suffix).
Local Abbreviation write_page := (_write_page io_fault partial_write mtime file_path config_suffix).

Lemma path_of_prefix k :
  no_slash config_suffix -> no_slash k ->
  path_of k = path_prefix file_path +:+ k +:+ config_suffix +:+ ".bin".
Proof.
  intros Hs Hk. unfold tensor_path, _get_suffixed_key.
  rewrite path_join_relative by auto with pydb. by rewrite !str_app_assoc.
Qed.

Lemma path_of_inj k k' :
  no_slash config_suffix -> no_slash k -> no_slash k' -> path_of k = path_of k' -> k = k'.
Proof.
  intros Hs Hk Hk'. rewrite !path_of_prefix by done. intros H%str_app_inj_l.
  by apply str_app_inj_r in H.
Qed.

(** No page file lies under another one. *)
Lemma path_of_not_dir k k' :
  no_slash config_suffix -> no_slash k -> no_slash k' -> entry_of (path_of k) (path_of k') = None.
Proof.
  intros Hs Hk Hk'. unfold entry_of. destruct (strip_prefix _ _) as [rest|] eqn:E; [|done].
  exfalso. apply strip_prefix_Some in E. unfold path_prefix in E.
  destruct (_ || _) eqn:Hend.
  - apply orb_true_iff in Hend as [Hend|Hend].
    + unfold is_empty_str in Hend. apply bool_decide_eq_true in Hend.
      rewrite path_of_prefix in Hend by done. apply (f_equal chars) in Hend.
      rewrite !chars_app in Hend. apply (f_equal length) in Hend. rewrite !length_app in Hend.
      cbn in Hend. lia.
    + apply endswith_spec in Hend as [r Hr]. rewrite path_of_prefix in Hr by done.
      apply (f_equal (fun s => last (chars s))) in Hr. rewrite !chars_app, !last_app in Hr.
      cbn in Hr. discriminate.
  - rewrite !path_of_prefix in E by done.
    rewrite !chars_app, <-!app_assoc in E. apply app_inv_head in E.
    assert (no_slash (k' +:+ config_suffix +:+ ".bin")) as Hn by auto with pydb.
    unfold no_slash, contains_char in Hn. rewrite bool_decide_eq_false, !chars_app in Hn.
    apply Hn. rewrite E. rewrite !elem_of_app. cbn. set_solver.
Qed.

Section no_faults.
Hypothesis Hio : forall n, io_fault n = false.
Hypothesis Hsuf : no_slash config_suffix.

Lemma file_set_fresh k v s :
  dir_exists s = true -> file_exists file_path config_suffix k s = false ->
  fset k (Some v) s =
  (Ret true, mkFileDisk (<[path_of k := mkFile (Raw v) (mtime (S (fio s)))]> (ffs s)) true (S (fio s))
               (registered_pools s)).
Proof.
  intros Hd He. unfold file_set, tofile, file_io_call, py_try, py_modify, mbind, PyM_bind. cbn [py_get].
  rewrite He, Hd, Hio. done.
Qed.

Lemma file_get_present k b t s :
  ffs s !! path_of k = Some (mkFile (Raw b) t) ->
  fget k (length b) s =
  (Ret (Some b), mkFileDisk (ffs s) (dir_exists s) (S (fio s)) (registered_pools s)).
Proof.
  intros H. unfold file_get, file_io_call, mbind, PyM_bind. rewrite Hio. cbn -[Nat.ltb take]. rewrite H.
  rewrite (proj2 (Nat.ltb_ge _ _)) by done. cbn -[take]. by rewrite take_ge.
Qed.

(** The files that a list of pages writes, and nothing else changed. *)
Definition written (n : string) (pg : nat -> option (list byte)) (i : nat) (ks : list string)
    (s s' : FileDisk) : Prop :=
  dir_exists s' = true /\ registered_pools s' = registered_pools s /\
  (forall j k, ks !! j = Some k -> exists b t, pg (i + j)%nat = Some b /\
     ffs s' !! path_of (_log_key n k) = Some (mkFile (Raw b) t)) /\
  (forall p, (forall k, k ∈ ks -> p <> path_of (_log_key n k)) -> ffs s' !! p = ffs s !! p).

Lemma log_key_no_slash n k : no_slash n -> no_slash k -> no_slash (_log_key n k).
Proof. unfold _log_key. assert (no_slash ".") by done. case_bool_decide; auto with pydb. Qed.

Lemma log_key_inj n k k' : _log_key n k = _log_key n k' -> k = k'.
Proof. unfold _log_key. case_bool_decide; [done|]. apply str_app_inj_r. Qed.

Lemma file_exists_insert k k' f m d i ps :
  no_slash k -> no_slash k' -> k <> k' ->
  file_exists file_path config_suffix k (mkFileDisk m d i ps) = false ->
  file_exists file_path config_suffix k (mkFileDisk (<[path_of k' := f]> m) d i ps) = false.
Proof.
  unfold file_exists, path_exists. cbn [ffs]. rewrite !orb_false_iff. intros Hk Hk' Hne [Hf Hd]. split.
  - unfold is_file in *. rewrite lookup_insert_ne; [done|]. intros E. apply Hne.
    symmetry. by apply path_of_inj in E.
  - apply not_true_iff_false. intros H. apply is_dir_insert in H; [|by apply path_of_not_dir].
    congruence.
Qed.

Lemma write_page_eq n k off p s :
  registered_pools s ≫= dict_get n = Some p ->
  write_page n k off s = fset (_log_key n k) (Some (data_page p off)) s.
Proof.
  intros Hp. unfold _write_page. erewrite py_bind_Ret by done. by rewrite Hp.
Qed.

Lemma write_pages n (p : HostPool (list byte)) psz idx i ks s :
  no_slash n -> dir_exists s = true -> registered_pools s ≫= dict_get n = Some p ->
  NoDup ks -> Forall no_slash ks ->
  Forall (fun k => file_exists file_path config_suffix (_log_key n k) s = false) ks ->
  (forall j, (j < length ks)%nat -> is_Some (idx !! Z.to_nat (Z.of_nat (i + j) * psz))) ->
  exists s', file_pages_io write_page n psz idx i ks s = (Ret (replicate (length ks) true), s') /\
    written n (fun j => data_page p <$> idx !! Z.to_nat (Z.of_nat j * psz)) i ks s s'.
Proof.
  intros Hn Hd Hp Hnd Hks Hfresh Hidx. revert i s Hd Hp Hfresh Hidx.
  induction ks as [|k ks IH]; intros i s Hd Hp Hfresh Hidx.
  { exists s. split; [done|]. split_and!; [done|done| |done]. intros j k Hj. by rewrite lookup_nil in Hj. }
  apply NoDup_cons in Hnd as [Hk Hnd]. apply Forall_cons in Hks as [Hsk Hks].
  apply Forall_cons in Hfresh as [Hfk Hfresh].
  cbn [file_pages_io]. destruct (Hidx 0%nat) as [off Hoff]; [cbn; lia|].
  rewrite Nat.add_0_r in Hoff. rewrite Hoff. unfold mbind, PyM_bind.
  rewrite (write_page_eq n k off p s), file_set_fresh by done.
  destruct (IH Hnd Hks (S i) (mkFileDisk (<[path_of (_log_key n k) :=
      mkFile (Raw (data_page p off)) (mtime (S (fio s)))]> (ffs s)) true (S (fio s)) (registered_pools s)))
    as (s' & Hrun & Hd' & Hps' & Hw & Hother).
  - done.
  - done.
  - rewrite Forall_forall in Hfresh, Hks |- *. intros k' Hk'.
    destruct s as [m d io ps]. cbn in Hd |- *. subst d. apply file_exists_insert.
    + apply log_key_no_slash; auto.
    + by apply log_key_no_slash.
    + intros E%log_key_inj. by subst.
    + specialize (Hfresh k' Hk'). unfold file_exists in *. exact Hfresh.
  - intros j Hj. replace (S i + j)%nat with (i + S j)%nat by lia. apply Hidx. cbn. lia.
  - rewrite Hrun. exists s'. split; [done|]. split_and!; [done|by rewrite Hps'| |].
    + intros [|j] k' Hj; cbn in Hj.
      * injection Hj as <-. exists (data_page p off), (mtime (S (fio s))).
        rewrite Nat.add_0_r, Hoff. split; [done|]. rewrite Hother.
        -- cbn. by rewrite lookup_insert_eq.
        -- intros k' Hk' E. apply path_of_inj in E; [|done|by apply log_key_no_slash|].
           ++ apply log_key_inj in E. by subst.
           ++ apply log_key_no_slash; [done|]. rewrite Forall_forall in Hks. auto.
      * replace (i + S j)%nat with (S i + j)%nat by lia. eauto.
    + intros q Hq. rewrite Hother; [cbn; rewrite lookup_insert_ne; [done|]|].
      * intros <-. apply (Hq k); [by left|done].
      * intros k' Hk'. apply Hq. by right.
Qed.
Lemma read_page_eq n k off b t ps p s :
  registered_pools s = Some ps -> dict_get n ps = Some p ->
  ffs s !! path_of (_log_key n k) = Some (mkFile (Raw b) t) -> length b = page_bytes n ->
  read_page n k off s =
  (Ret true, mkFileDisk (ffs s) (dir_exists s) (S (fio s))
     (Some (dict_set n (set_from_flat_data_page off b p) ps))).
Proof.
  intros Hps Hp Hf Hlen. unfold _read_page. rewrite <-Hlen.
  erewrite py_bind_Ret by by eapply file_get_present. cbn [registered_pools].
  unfold py_modify, mbind, PyM_bind. cbn [registered_pools]. by rewrite Hps, Hp.
Qed.

Lemma read_pages n (pg : nat -> option (list byte)) psz idx i ks ps p s :
  registered_pools s = Some ps -> dict_get n ps = Some p ->
  (forall j k, ks !! j = Some k -> exists b t, pg (i + j)%nat = Some b /\ length b = page_bytes n /\
     ffs s !! path_of (_log_key n k) = Some (mkFile (Raw b) t)) ->
  (forall j, (j < length ks)%nat -> is_Some (idx !! Z.to_nat (Z.of_nat (i + j) * psz))) ->
  (forall j j' o, (i <= j < j')%nat -> (j' < i + length ks)%nat ->
     idx !! Z.to_nat (Z.of_nat j * psz) = Some o -> idx !! Z.to_nat (Z.of_nat j' * psz) <> Some o) ->
  exists s' ps' p', file_pages_io read_page n psz idx i ks s = (Ret (replicate (length ks) true), s') /\
    registered_pools s' = Some ps' /\ dict_get n ps' = Some p' /\
    (forall j o, (i <= j < i + length ks)%nat -> idx !! Z.to_nat (Z.of_nat j * psz) = Some o ->
       pg j = Some (data_page p' o)) /\
    (forall o, (forall j, (i <= j < i + length ks)%nat ->
        idx !! Z.to_nat (Z.of_nat j * psz) <> Some o) -> data_page p' o = data_page p o).
Proof.
  revert i ps p s. induction ks as [|k ks IH]; intros i ps p s Hps Hp Hf Hidx Hnd.
  { exists s, ps, p. split_and!; [done..| |done]. cbn. intros. lia. }
  cbn [file_pages_io length replicate] in *.
  destruct (Hidx 0%nat) as [off Hoff]; [lia|]. rewrite Nat.add_0_r in Hoff. rewrite Hoff.
  destruct (Hf 0%nat k) as (b & t & Hpg & Hlen & Hfile); [done|]. rewrite Nat.add_0_r in Hpg.
  erewrite py_bind_Ret by by eapply read_page_eq.
  destruct (IH (S i) (dict_set n (set_from_flat_data_page off b p) ps)
    (set_from_flat_data_page off b p) (mkFileDisk (ffs s) (dir_exists s) (S (fio s))
     (Some (dict_set n (set_from_flat_data_page off b p) ps)))) as (s' & ps' & p' & Hrun & Hps' & Hp' & Hin & Hout).
  - done.
  - apply dict_get_set_eq.
  - intros j k' Hj. cbn [ffs]. replace (S i + j)%nat with (i + S j)%nat by lia. by apply Hf.
  - intros j Hj. replace (S i + j)%nat with (i + S j)%nat by lia. apply Hidx. lia.
  - intros j j' o Hj Hj'. apply Hnd; lia.
  - erewrite py_bind_Ret by exact Hrun. exists s', ps', p'. split_and!; [done..| |].
    + intros j o Hj Ho. destruct (decide (j = i)) as [->|Hne]; [|apply Hin; [lia|done]].
      rewrite Hoff in Ho. injection Ho as <-. rewrite Hout.
      * rewrite Hpg. unfold set_from_flat_data_page. cbn. by rewrite decide_True.
      * intros j Hj'. apply (Hnd i); [lia|lia|done].
    + intros o Ho. rewrite Hout by (intros; apply Ho; lia).
      unfold set_from_flat_data_page. cbn. rewrite decide_False; [done|].
      intros ->. by apply (Ho i); [lia|].
Qed.

(** A transfer of the pages [ks] of a pool at the host slots [idx]. *)
Definition page_transfer (n : string) (ks : list string) (idx : list Z) : PoolTransfer :=
  mkPoolTransfer n (Some idx) None (Some ks) ALL_PAGES None.

Lemma file_batch_io_single op n ks idx ps p s rs s' :
  registered_pools s = Some ps -> dict_get n ps = Some p ->
  Z.of_nat (length idx) = Z.of_nat (length ks) * file_page_size p ->
  file_pages_io op n (file_page_size p) idx 0 ks s = (Ret rs, s') ->
  file_batch_io op [page_transfer n ks idx] [] s = (Ret [(n, rs)], s').
Proof.
  intros Hps Hp Hlen Hrun. cbn [file_batch_io]. erewrite py_bind_Ret by done.
  rewrite Hps. cbn [name page_transfer host_indices keys default from_option id]. rewrite Hp.
  rewrite (proj2 (Z.eqb_eq _ _)) by done. by erewrite py_bind_Ret by exact Hrun.
Qed.

Lemma page_start_lookup (idx : list Z) (ks : list string) psz j :
  0 < psz -> Z.of_nat (length idx) = Z.of_nat (length ks) * psz -> (j < length ks)%nat ->
  is_Some (idx !! Z.to_nat (Z.of_nat j * psz)).
Proof. intros. apply lookup_lt_is_Some. nia. Qed.

(** Pages survive the disk.  With a working directory and no I/O faults, writing the
    pages of a pool at the host slots idx under new hashes reports success for every page;
    then the backend reports all of them present, and reading them back at other host slots
    idx' (distinct page starts) reports success and leaves at the slot of page i exactly the
    bytes that page i had when it was written, the other files of the directory untouched. *)
Theorem file_pages_roundtrip (n : string) (ks : list string) (idx idx' : list Z)
    (ps : list (string * HostPool (list byte))) (p : HostPool (list byte)) (s : FileDisk) :
  dir_exists s = true -> registered_pools s = Some ps -> dict_get n ps = Some p ->
  0 < page_size p -> (forall off, length (data_page p off) = page_bytes n) ->
  no_slash n -> NoDup ks -> Forall no_slash ks ->
  Forall (fun k => file_exists file_path config_suffix (_log_key n k) s = false) ks ->
  Z.of_nat (length idx) = Z.of_nat (length ks) * page_size p ->
  Z.of_nat (length idx') = Z.of_nat (length ks) * page_size p ->
  (forall j j' o, (j < j' < length ks)%nat ->
     idx' !! Z.to_nat (Z.of_nat j * page_size p) = Some o ->
     idx' !! Z.to_nat (Z.of_nat j' * page_size p) <> Some o) ->
  exists s1 s2 ps2 p2,
    file_batch_set_v2 io_fault partial_write mtime file_path config_suffix
      [page_transfer n ks idx] s = (Ret [(n, replicate (length ks) true)], s1) /\
    (n = PoolName_KV -> exists r, file_batch_exists_v2 file_path config_suffix ks [] s1 = (Ret r, s1) /\
       kv_hit_pages r = length ks) /\
    (forall q, (forall k, k ∈ ks -> q <> path_of (_log_key n k)) -> ffs s1 !! q = ffs s !! q) /\
    file_batch_get_v2 io_fault page_bytes file_path config_suffix
      [page_transfer n ks idx'] s1 = (Ret [(n, replicate (length ks) true)], s2) /\
    registered_pools s2 = Some ps2 /\ dict_get n ps2 = Some p2 /\
    (forall i off off', (i < length ks)%nat ->
       idx !! Z.to_nat (Z.of_nat i * page_size p) = Some off ->
       idx' !! Z.to_nat (Z.of_nat i * page_size p) = Some off' ->
       data_page p2 off' = data_page p off).
Proof.
  intros Hd Hps Hp Hpsz Hlen Hn Hnd Hks Hfresh Hidx Hidx' Hdist.
  assert (file_page_size p = page_size p) as Hfps.
  { unfold file_page_size. destruct (Z.eqb_spec (page_size p) 0); lia. }
  assert (registered_pools s ≫= dict_get n = Some p) as Hpp by by rewrite Hps.
  destruct (write_pages n p (page_size p) idx 0 ks s) as (s1 & Hrun & Hd1 & Hps1 & Hw & Hother);
    [done..|by intros; eapply page_start_lookup|].
  destruct (read_pages n (fun j => data_page p <$> idx !! Z.to_nat (Z.of_nat j * page_size p))
    (page_size p) idx' 0 ks ps p s1) as (s2 & ps2 & p2 & Hrun2 & Hps2 & Hp2 & Hin & _).
  { by rewrite Hps1. }
  { done. }
  { intros j k Hj. destruct (Hw j k Hj) as (b & t & Hb & Hf). exists b, t. split_and!; [done| |done].
    cbn in Hb. destruct (idx !! _); simplify_eq/=. apply Hlen. }
  { by intros; eapply page_start_lookup. }
  { intros j j' o Hj Hj'. apply Hdist. lia. }
  exists s1, s2, ps2, p2. split_and!; [| |done| |done|done|].
  - eapply file_batch_io_single; rewrite ?Hfps; done.
  - intros ->. rewrite file_batch_exists_v2_eq, Hd1 by done. eexists. split; [reflexivity|].
    unfold v2_result. cbn [v2_loop kv_hit_pages].
    apply Nat.le_antisymm; [apply first_missing_le|]. apply first_missing_greatest; [done|].
    intros i Hi. unfold page_on_disk. destruct (lookup_lt_is_Some_2 ks i Hi) as [k Hk]. rewrite Hk.
    destruct (Hw i k Hk) as (b & t & _ & Hf). unfold is_file.
    change (_get_component_path file_path config_suffix k None) with (path_of k).
    change (_log_key PoolName_KV k) with k in Hf. by rewrite Hf.
  - eapply file_batch_io_single; rewrite ?Hfps, ?Hps1; done.
  - intros i off off' Hi Ho Ho'. assert (0 <= i < 0 + length ks)%nat as Hi' by lia.
    specialize (Hin i off' Hi' Ho'). rewrite Ho in Hin. cbn in Hin. by simplify_eq.
Qed.
End no_faults.

(** A write that fails half way poisons its key.  When the write of a page fails after
    some bytes reached the file, set reports the failure but the key then counts as present:
    later writes of the page report success without writing, and reading a page longer than
    what was left raises OSError instead of reporting a miss. *)
Theorem failed_write_poisons_key (k : string) (v b : list byte) (s : FileDisk) :
  dir_exists s = true -> file_exists file_path config_suffix k s = false ->
  io_fault (fio s) = true -> partial_write (fio s) = Some b ->
  exists s1,
    fset k (Some v) s = (Ret false, s1) /\ file_exists file_path config_suffix k s1 = true /\
    (forall v', fset k v' s1 = (Ret true, s1)) /\
    (forall expected, (length b < expected)%nat -> fst (fget k expected s1) = Raise OSError).
Proof.
  intros Hd He Hf Hb.
  set (s1 := mkFileDisk (<[path_of k := mkFile (Raw b) (mtime (S (fio s)))]> (ffs s)) true
    (S (fio s)) (registered_pools s)). exists s1.
  assert (file_exists file_path config_suffix k s1 = true) as He1.
  { unfold file_exists, path_exists, is_file. cbn [ffs s1]. by rewrite lookup_insert_eq. }
  split_and!; [|done| |].
  - unfold file_set, tofile, file_io_call, py_try, py_modify, mbind, PyM_bind. cbn [py_get].
    rewrite He, Hd, Hf, Hb. done.
  - intros v'. unfold file_set. erewrite py_bind_Ret by done. by rewrite He1.
  - intros expected Hlt. unfold file_get, file_io_call, mbind, PyM_bind.
    cbn -[Nat.ltb]. destruct (io_fault (S (fio s))); [done|]. cbn -[Nat.ltb].
    rewrite lookup_insert_eq. by rewrite (proj2 (Nat.ltb_lt _ _)).
Qed.
End transfer.

(** ** Examples *)

Definition demo_pool : HostPool (list byte) :=
  mkHostPool 2 (fun off => if off =? 0 then [x01] else [x02]).

Definition demo_disk : FileDisk := mkFileDisk ∅ true 0 (Some [("kv", demo_pool)]).

Lemma file_batch_exists_v2_scan_witness :
  file_batch_exists_v2 "/c" "_m" ["a"; "b"] []
    (mkFileDisk {["/c/a_m.bin" := mkFile (Raw [x01]) 0]} true 0 None) =
  (Ret (mkPoolTransferResult 1 [("kv", 1%nat)]),
   mkFileDisk {["/c/a_m.bin" := mkFile (Raw [x01]) 0]} true 0 None).
Proof.
  destruct (file_batch_exists_v2_scan "/c" "_m" ["a"; "b"] []
    (mkFileDisk {["/c/a_m.bin" := mkFile (Raw [x01]) 0]} true 0 None)) as [H _].
  - reflexivity.
  - repeat constructor.
  - constructor.
  - rewrite H. vm_compute. reflexivity.
Defined.

Lemma file_pages_roundtrip_witness :
  exists s1 s2 ps2 p2,
    file_batch_set_v2 (fun _ => false) (fun _ => None) (fun _ => 0) "/c" "_m"
      [page_transfer "kv" ["a"; "b"] [0; 1; 2; 3]] demo_disk = (Ret [("kv", [true; true])], s1) /\
    file_batch_get_v2 (fun _ => false) (fun _ => 1%nat) "/c" "_m"
      [page_transfer "kv" ["a"; "b"] [6; 7; 0; 1]] s1 = (Ret [("kv", [true; true])], s2) /\
    registered_pools s2 = Some ps2 /\ dict_get "kv" ps2 = Some p2 /\
    data_page p2 6 = [x01] /\ data_page p2 0 = [x02].
Proof.
  destruct (file_pages_roundtrip (fun _ => false) (fun _ => None) (fun _ => 0) (fun _ => 1%nat)
    "/c" "_m" (fun _ => eq_refl) eq_refl "kv" ["a"; "b"] [0; 1; 2; 3] [6; 7; 0; 1]
    [("kv", demo_pool)] demo_pool demo_disk)
    as (s1 & s2 & ps2 & p2 & Hw & _ & _ & Hr & Hps2 & Hp2 & Hd).
  - reflexivity.
  - reflexivity.
  - reflexivity.
  - reflexivity.
  - intros off. cbn. by destruct (off =? 0).
  - reflexivity.
  - apply (bool_decide_unpack _). vm_compute. exact I.
  - repeat constructor.
  - repeat constructor.
  - reflexivity.
  - reflexivity.
  - intros [|[|j]] [|[|j']] o Hj Ho Ho'; cbn in Hj; try lia. vm_compute in Ho, Ho'. congruence.
  - exists s1, s2, ps2, p2. split_and!; [exact Hw|exact Hr|exact Hps2|exact Hp2| |].
    + by rewrite (Hd 0%nat 0 6) by (cbn; lia || done).
    + by rewrite (Hd 1%nat 2 0) by (cbn; lia || done).
Defined.

Lemma failed_write_poisons_key_witness :
  exists s1,
    file_set (fun _ => true) (fun _ => Some [x01]) (fun _ => 0) "/c" "_m" "a" (Some [x01; x02]) demo_disk
      = (Ret false, s1) /\
    file_exists "/c" "_m" "a" s1 = true /\
    fst (file_get (fun _ => true) "/c" "_m" "a" 2 s1) = Raise OSError.
Proof.
  destruct (failed_write_poisons_key (fun _ => true) (fun _ => Some [x01]) (fun _ => 0) "/c" "_m"
    "a" [x01; x02] [x01] demo_disk) as (s1 & Hset & He & _ & Hg).
  - reflexivity.
  - reflexivity.
  - reflexivity.
  - reflexivity.
  - exists s1. split_and!; [exact Hset|exact He|]. apply Hg. cbn. lia.
Defined.
