(* ===== verification/ReasoningParser.v ===== *)
(** * The reasoning parser (parser/reasoning_parser.py)

    Splits the output of a reasoning model into reasoning and normal text, in one go
    ([detect_and_parse]) or chunk by chunk ([parse_streaming_increment]), and the table of
    detectors by model type ([ReasoningParser]).

    A text is the list of its characters.  The Harmony parser behind the GPT-OSS detector is
    a parameter: a step function from its state and a chunk to its events. *)

From stdpp Require Import base tactics list gmap strings.
From Stdlib Require Import ZArith Lia Ascii.
From S2P Require Import Prelude PyStr.

Abbreviation text := (list ascii).

(** ** Searching a string *)

(** What comes before and after the first occurrence of [p] in [s]: [p in s], [s.find(p)] and
    [s.split(p, maxsplit=1)] at once. *)
Fixpoint cut_first (p s : text) : option (text * text) :=
  match strip_prefix p s with
  | Some r => Some ([], r)
  | None =>
      match s with
      | [] => None
      | c :: s' => match cut_first p s' with
                   | Some (b, a) => Some (c :: b, a)
                   | None => None
                   end
      end
  end.

Definition str_in (p s : text) : bool :=
  match cut_first p s with Some _ => true | None => false end.

(** [s.replace(p, "", 1)] *)
Definition replace_once (p s : text) : text :=
  match cut_first p s with Some (b, a) => b ++ a | None => s end.

(** [s.replace(p, "")]: occurrences from the left; [skip] characters of one are left. *)
Fixpoint remove_all (p : text) (skip : nat) (s : text) : text :=
  match s with
  | [] => []
  | c :: s' =>
      match skip with
      | S k => remove_all p k s'
      | O => match p, strip_prefix p s with
             | _ :: p', Some _ => remove_all p (length p') s'
             | _, _ => c :: remove_all p 0 s'
             end
      end
  end.

Definition rstrip (s : text) : text := rev (lstrip_chars (rev s)).
Definition strip (s : text) : text := rstrip (lstrip_chars s).

(** [p.startswith(s) and p != s] *)
Definition proper_prefix_of (s p : text) : bool :=
  match strip_prefix s p with Some [] => false | Some _ => true | None => false end.

(** [if token:] for an optional string *)
Definition opt_token (t : option text) : option text :=
  match t with Some [] => None | t => t end.

(** ** Detectors *)

Record StreamingParseResult := mkResult { normal_text : text; reasoning_text : text }.

Inductive DetectorClass :=
  | DeepSeekR1Detector | Qwen3Detector | KimiDetector | KimiK2Detector | Glm45Detector
  | GptOssDetector | MiniMaxAppendThinkDetector | Nemotron3Detector | MistralDetector
  | HunyuanDetector | Gemma4Detector | _DeepSeekV3Detector | _MimoDetector | _PoolsideV1Detector.

#[global] Instance DetectorClass_eq_dec : EqDecision DetectorClass.
Proof. solve_decision. Defined.

(** The fields of a detector; [_buffer], [_in_reasoning], [stripped_think_start] and
    [is_first_chunk] change while it streams. *)
Record Detector := mkDetector {
  cls : DetectorClass;
  think_start_token : text;
  think_end_token : text;
  think_excluded_tokens : option (list string);
  tool_start_token : option text;
  force_reasoning : bool;
  stream_reasoning : bool;
  thinks_internally : bool;
  reasoning_default : string;
  think_start_self_label : text;
  continue_final_message : bool;
  previous_content : text;
  previous_count : nat;
  _force_nonempty_content : bool;
  _in_reasoning : bool;
  _buffer : text;
  stripped_think_start : bool;
  is_first_chunk : bool }.

Definition with_stream (d : Detector) (in_r : bool) (buf : text) (stripped : bool) : Detector :=
  mkDetector (cls d) (think_start_token d) (think_end_token d) (think_excluded_tokens d)
    (tool_start_token d) (force_reasoning d) (stream_reasoning d) (thinks_internally d)
    (reasoning_default d) (think_start_self_label d) (continue_final_message d)
    (previous_content d) (previous_count d) (_force_nonempty_content d)
    in_r buf stripped (is_first_chunk d).

Definition with_first_chunk (d : Detector) : Detector :=
  mkDetector (cls d) (think_start_token d) (think_end_token d) (think_excluded_tokens d)
    (tool_start_token d) (force_reasoning d) (stream_reasoning d) (thinks_internally d)
    (reasoning_default d) (think_start_self_label d) (continue_final_message d)
    (previous_content d) (previous_count d) (_force_nonempty_content d)
    (_in_reasoning d) (_buffer d) (stripped_think_start d) true.

Definition think_start_text (d : Detector) : text := think_start_token d ++ think_start_self_label d.

(** [BaseReasoningFormatDetector.__init__] *)
Definition base_init (c : DetectorClass) (start end_ : string) (excluded : option (list string))
    (force stream : bool) (tool : option string) (cont : bool) (prev : text)
    (internal : bool) (dflt : string) : Detector :=
  let prev := if cont then prev else [] in
  let in_r := if str_in (chars start) prev then true else force in
  let in_r := if str_in (chars end_) prev then false else in_r in
  mkDetector c (chars start) (chars end_) excluded (chars <$> tool) force stream internal dflt
    [] cont prev (length prev) false in_r [] false false.

(** [BaseReasoningFormatDetector.detect_and_parse] *)
Definition base_detect_and_parse (d : Detector) (txt : text) : StreamingParseResult :=
  let in_reasoning := _in_reasoning d || str_in (think_start_token d) txt in
  if negb in_reasoning then mkResult txt []
  else
    let processed := strip (remove_all (think_start_text d) 0 txt) in
    if negb (str_in (think_end_token d) processed) &&
       negb (str_in (think_end_token d) (previous_content d)) then
      match tool_start_token d with
      | Some tool =>
          match cut_first tool processed with
          | Some (b, a) => mkResult (tool ++ a) (strip b)
          | None => mkResult [] processed
          end
      | None => mkResult [] processed
      end
    else
      match cut_first (think_end_token d) processed with
      | Some (b, a) => mkResult (strip a) b
      | None => mkResult processed []
      end.

(** The first half of [parse_streaming_increment]: the start tag taken out of the text once,
    which enters the reasoning.  The text, [_in_reasoning] and [stripped_think_start]. *)
Definition strip_start (d : Detector) (buf : text) : text * bool * bool :=
  if negb (stripped_think_start d) && str_in (think_start_text d) buf
  then (replace_once (think_start_text d) buf, true, true)
  else (buf, _in_reasoning d, stripped_think_start d).

(** [if self.tool_start_token and self.tool_start_token in current_text]: the token and the
    text before and after it. *)
Definition cut_tool (d : Detector) (current_text : text) : option (text * text * text) :=
  match opt_token (tool_start_token d) with
  | Some tool => match cut_first tool current_text with
                 | Some (b, a) => Some (tool, b, a)
                 | None => None
                 end
  | None => None
  end.

(** The second half: the text is split at the end tag or at a tool call, streamed, or kept in
    the buffer [buf]. *)
Definition emit_text (d : Detector) (buf current_text : text) (in_r stripped : bool) :
    StreamingParseResult * Detector :=
  if in_r then
    match cut_first (think_end_token d) current_text with
    | Some (reasoning, normal) =>
        (mkResult normal (rstrip reasoning), with_stream d false [] stripped)
    | None =>
        match cut_tool d current_text with
        | Some (tool, b, a) => (mkResult (tool ++ a) b, with_stream d false [] stripped)
        | None =>
            if stream_reasoning d
            then (mkResult [] current_text, with_stream d in_r [] stripped)
            else (mkResult [] [], with_stream d in_r buf stripped)
        end
    end
  else (mkResult current_text [], with_stream d in_r [] stripped).

Definition tokens_to_check (d : Detector) : list text :=
  [think_start_text d; think_end_token d] ++
  match opt_token (tool_start_token d) with Some t => [t] | None => [] end.

(** [BaseReasoningFormatDetector.parse_streaming_increment] *)
Definition base_parse_streaming_increment (d : Detector) (new_text : text) :
    StreamingParseResult * Detector :=
  let buf := _buffer d ++ new_text in
  if existsb (proper_prefix_of buf) (tokens_to_check d)
  then (mkResult [] [], with_stream d (_in_reasoning d) buf (stripped_think_start d))
  else
    let '(current_text, in_r, stripped) := strip_start d buf in
    emit_text d buf current_text in_r stripped.

(** ** The constructors of the classes

    The keyword arguments that [ReasoningParser] passes on; an argument that a constructor
    does not take is a [TypeError]. *)
Record Kwargs := mkKwargs {
  kw_stream : bool;
  kw_force : option bool;
  kw_continue : option text;          (* continue_final_message=True, previous_content=... *)
  kw_nonempty : bool                  (* force_nonempty_content=True *) }.

Definition kw_cont (kw : Kwargs) : bool := match kw_continue kw with Some _ => true | None => false end.
Definition kw_prev (kw : Kwargs) : text := default [] (kw_continue kw).

Definition qwen3_init (c : DetectorClass) (kw : Kwargs) (dflt : string) : Detector :=
  base_init c "<think>" "</think>"
    (Some ["<tool_call>"; "</tool_call>"; "<|im_end|>"; "<|endoftext|>"])
    (default false (kw_force kw)) (kw_stream kw) None (kw_cont kw) (kw_prev kw) true dflt.

(** The constructors with the keyword arguments of most classes. *)
Definition plain_init (c : DetectorClass) (start end_ : string) (excl : option (list string))
    (tool : option string) (dflt : string) (kw : Kwargs) : Detector :=
  base_init c start end_ excl (default false (kw_force kw)) (kw_stream kw) tool
    (kw_cont kw) (kw_prev kw) false dflt.

Definition DeepSeekR1_init (kw : Kwargs) : Detector :=
  base_init DeepSeekR1Detector "<think>" "</think>" None true (kw_stream kw) None
    (kw_cont kw) (kw_prev kw) false "always".

Definition Qwen3_init (kw : Kwargs) : Detector := qwen3_init Qwen3Detector kw "enable_thinking".

Definition Kimi_init (kw : Kwargs) : Detector :=
  base_init KimiDetector "◁think▷" "◁/think▷" None false (kw_stream kw) None
    (kw_cont kw) (kw_prev kw) false "always".

Definition KimiK2_init (kw : Kwargs) : Detector :=
  plain_init KimiK2Detector "<think>" "</think>"
    (Some ["<think>"; "<|tool_calls_section_begin|>"; "<|tool_call_begin|>";
           "<|tool_call_argument_begin|>"; "<|tool_call_section_end|>"; "<|tool_call_end|>";
           "[EOS]"; "<|im_end|>"; "<|end_header_id|>"; "[EOT]"])
    (Some "<|tool_calls_section_begin|>") "thinking" kw.

(** The one constructor without [continue_final_message] and [previous_content]. *)
Definition Glm45_init (kw : Kwargs) : Outcome Detector :=
  if kw_cont kw then Raise TypeError
  else Ret (base_init Glm45Detector "<think>" "</think>"
    (Some ["<tool_call>"; "</tool_call>"; "<eop>"; "<|user|>"; "<|endoftext|>"])
    (default false (kw_force kw)) (kw_stream kw) (Some "<tool_call>") false [] true "enable_thinking").

Definition GptOss_init (kw : Kwargs) : Detector :=
  base_init GptOssDetector "<|channel|>analysis<|message|>" "<|end|>" None
    (default true (kw_force kw)) (kw_stream kw) None (kw_cont kw) (kw_prev kw) false "always".

Definition MiniMaxAppendThink_init (kw : Kwargs) : Detector :=
  plain_init MiniMaxAppendThinkDetector "<think>" "</think>" None None "always" kw.

Definition Nemotron3_init (kw : Kwargs) : Detector :=
  let d := plain_init Nemotron3Detector "<think>" "</think>" None None "enable_thinking" kw in
  mkDetector (cls d) (think_start_token d) (think_end_token d) (think_excluded_tokens d)
    (tool_start_token d) (force_reasoning d) (stream_reasoning d) (thinks_internally d)
    (reasoning_default d) (think_start_self_label d) (continue_final_message d)
    (previous_content d) (previous_count d) (kw_nonempty kw)
    (_in_reasoning d) (_buffer d) (stripped_think_start d) (is_first_chunk d).

Definition Mistral_init (kw : Kwargs) : Detector :=
  plain_init MistralDetector "[THINK]" "[/THINK]" None None "mistral" kw.

Definition Hunyuan_init (kw : Kwargs) : Detector :=
  plain_init HunyuanDetector "<think>" "</think>" None (Some "<tool_calls>") "always" kw.

Definition Gemma4_init (kw : Kwargs) : Detector :=
  let d := plain_init Gemma4Detector "<|channel>" "<channel|>" None None "explicit_enable_thinking" kw in
  mkDetector (cls d) (think_start_token d) (think_end_token d) (think_excluded_tokens d)
    (tool_start_token d) (force_reasoning d) (stream_reasoning d) (thinks_internally d)
    (reasoning_default d) (chars "thought" ++ [ascii_of_N 10]) (continue_final_message d)
    (previous_content d) (previous_count d) (_force_nonempty_content d)
    (_in_reasoning d) (_buffer d) (stripped_think_start d) (is_first_chunk d).

Definition DeepSeekV3_init (kw : Kwargs) : Detector := qwen3_init _DeepSeekV3Detector kw "explicit_thinking".
Definition Mimo_init (kw : Kwargs) : Detector := qwen3_init _MimoDetector kw "explicit_enable_thinking".
Definition PoolsideV1_init (kw : Kwargs) : Detector :=
  qwen3_init _PoolsideV1Detector kw "explicit_enable_thinking".

(** [detector_class] applied to the keyword arguments: only Nemotron's constructor takes
    [force_nonempty_content]. *)
Definition new_detector (c : DetectorClass) (kw : Kwargs) : Outcome Detector :=
  if kw_nonempty kw && negb (bool_decide (c = Nemotron3Detector)) then Raise TypeError
  else match c with
  | DeepSeekR1Detector => Ret (DeepSeekR1_init kw)
  | Qwen3Detector => Ret (Qwen3_init kw)
  | KimiDetector => Ret (Kimi_init kw)
  | KimiK2Detector => Ret (KimiK2_init kw)
  | Glm45Detector => Glm45_init kw
  | GptOssDetector => Ret (GptOss_init kw)
  | MiniMaxAppendThinkDetector => Ret (MiniMaxAppendThink_init kw)
  | Nemotron3Detector => Ret (Nemotron3_init kw)
  | MistralDetector => Ret (Mistral_init kw)
  | HunyuanDetector => Ret (Hunyuan_init kw)
  | Gemma4Detector => Ret (Gemma4_init kw)
  | _DeepSeekV3Detector => Ret (DeepSeekV3_init kw)
  | _MimoDetector => Ret (Mimo_init kw)
  | _PoolsideV1Detector => Ret (PoolsideV1_init kw)
  end.

(** ** The parser *)

Definition DetectorMap : list (string * DetectorClass) :=
  [("deepseek-r1", DeepSeekR1Detector); ("deepseek-v3", _DeepSeekV3Detector);
   ("deepseek-v4", _DeepSeekV3Detector); ("glm45", Glm45Detector); ("hunyuan", HunyuanDetector);
   ("gpt-oss", GptOssDetector); ("kimi", KimiDetector); ("kimi_k2", KimiK2Detector);
   ("mimo", _MimoDetector); ("poolside_v1", _PoolsideV1Detector); ("qwen3", Qwen3Detector);
   ("qwen3-thinking", Qwen3Detector); ("minimax", Qwen3Detector);
   ("minimax-append-think", MiniMaxAppendThinkDetector); ("step3", DeepSeekR1Detector);
   ("step3p5", DeepSeekR1Detector); ("mistral", MistralDetector);
   ("nemotron_3", Nemotron3Detector); ("interns1", Qwen3Detector); ("gemma4", Gemma4Detector)].

(** [s.lower()] on ASCII letters *)
Definition lower_char (c : ascii) : ascii :=
  let n := N_of_ascii c in if (65 <=? n)%N && (n <=? 90)%N then ascii_of_N (n + 32) else c.
Definition lower (s : string) : string := of_chars (lower_char <$> chars s).

(** The parts of a chat request that the constructor reads. *)
Record ChatRequest := mkChatRequest {
  r_continue_final_message : bool;
  r_last_role : string;
  r_last_content : text;
  r_force_nonempty_content : bool }.

Definition kwargs_of (mt : string) (stream : bool) (force : option bool)
    (request : option ChatRequest) : Kwargs :=
  let force := if bool_decide (mt ∈ ["qwen3-thinking"; "gpt-oss"; "minimax"]) then Some true else force in
  let cont := match request with
              | Some r => if r_continue_final_message r && bool_decide (r_last_role r = "assistant")
                          then Some (r_last_content r) else None
              | None => None
              end in
  let nonempty := match request with Some r => r_force_nonempty_content r | None => false end in
  mkKwargs stream force cont nonempty.

Definition new_ReasoningParser (model_type : option string) (stream : bool) (force : option bool)
    (request : option ChatRequest) : Outcome Detector :=
  let mt := or_str model_type "" in
  if is_empty_str mt then Raise ValueError
  else match dict_get (lower mt) DetectorMap with
       | None => Raise ValueError
       | Some c => new_detector c (kwargs_of (lower mt) stream force request)
       end.

Section harmony.
(** An event of the Harmony parser: its type, content and raw text. *)
Inductive EventType := ev_reasoning | ev_normal | ev_tool_call.
Record Event := mkEvent { event_type : EventType; content : text; raw_text : text }.
Context {H : Type} (harmony_parse : H -> text -> list Event * H).

Definition event_reasoning (e : Event) : text :=
  match event_type e with ev_reasoning => content e | _ => [] end.
Definition event_normal (e : Event) : text :=
  match event_type e with
  | ev_normal => content e
  | ev_tool_call => match raw_text e with [] => content e | r => r end
  | ev_reasoning => []
  end.
Definition result_of_events (es : list Event) : StreamingParseResult :=
  mkResult (concat (event_normal <$> es)) (concat (event_reasoning <$> es)).

Definition GptOss_detect_and_parse (h : H) (txt : text) : StreamingParseResult * H :=
  let '(es, h1) := harmony_parse h txt in
  let '(es', h2) := harmony_parse h1 [] in
  (result_of_events (es ++ es'), h2).

Definition GptOss_parse_streaming_increment (h : H) (new_text : text) : StreamingParseResult * H :=
  let '(es, h1) := harmony_parse h new_text in (result_of_events es, h1).

Definition MiniMax_parse_streaming_increment (d : Detector) (new_text : text) :
    StreamingParseResult * Detector :=
  if is_first_chunk d then (mkResult new_text [], d)
  else (mkResult (think_start_token d ++ new_text) [], with_first_chunk d).

Definition Nemotron3_detect_and_parse (d : Detector) (txt : text) : StreamingParseResult :=
  let ret := base_detect_and_parse d txt in
  match _force_nonempty_content d, normal_text ret with
  | true, [] => mkResult (reasoning_text ret) (normal_text ret)
  | _, _ => ret
  end.

(** The methods by class *)
Definition detect_and_parse (d : Detector) (h : H) (txt : text) : StreamingParseResult * H :=
  match cls d with
  | GptOssDetector => GptOss_detect_and_parse h txt
  | MiniMaxAppendThinkDetector => (mkResult (think_start_token d ++ txt) [], h)
  | Nemotron3Detector => (Nemotron3_detect_and_parse d txt, h)
  | _ => (base_detect_and_parse d txt, h)
  end.

Definition parse_streaming_increment (d : Detector) (h : H) (new_text : text) :
    StreamingParseResult * Detector * H :=
  match cls d with
  | GptOssDetector => let '(r, h1) := GptOss_parse_streaming_increment h new_text in (r, d, h1)
  | MiniMaxAppendThinkDetector =>
      let '(r, d') := MiniMax_parse_streaming_increment d new_text in (r, d', h)
  | _ => let '(r, d') := base_parse_streaming_increment d new_text in (r, d', h)
  end.

Definition parse_non_stream (d : Detector) (h : H) (full_text : text) : (text * text) * H :=
  let '(r, h') := detect_and_parse d h full_text in ((reasoning_text r, normal_text r), h').

Definition parse_stream_chunk (d : Detector) (h : H) (chunk : text) : (text * text) * Detector * H :=
  let '(r, d', h') := parse_streaming_increment d h chunk in
  ((reasoning_text r, normal_text r), d', h').
End harmony.
