(* ===== verification/ReasoningProofs.v ===== *)
(** * Correctness of the reasoning parser

    - streaming loses and invents nothing: whatever the chunks, the emitted text is the input
      without its tags and the white space before end tags;
    - streaming agrees with one-shot parsing when every tag begins and ends with a chunk, and
      misses a tag that begins inside a chunk of text and ends in the next;
    - the accumulating mode leaves the start tag in the reasoning;
    - which model types and options the constructor accepts. *)

From stdpp Require Import base tactics list gmap strings.
From Stdlib Require Import ZArith Lia Ascii.
From S2P Require Import Prelude PyStr ReasoningParser.

(** ** Searching *)

Lemma cut_first_app p s b a : cut_first p s = Some (b, a) -> s = b ++ p ++ a.
Proof.
  revert b a. induction s as [|c s IH]; intros b a; cbn [cut_first].
  - destruct (strip_prefix p []) as [r|] eqn:E; [|done]. apply strip_prefix_Some in E.
    intros; simplify_eq. done.
  - destruct (strip_prefix p (c :: s)) as [r|] eqn:E.
    + apply strip_prefix_Some in E. intros; simplify_eq. done.
    + destruct (cut_first p s) as [[b' a']|] eqn:E'; [|done]. intros; simplify_eq.
      by rewrite (IH b' a).
Qed.

Lemma cut_first_here p a : cut_first p (p ++ a) = Some ([], a).
Proof.
  assert (strip_prefix p (p ++ a) = Some a) as E by by apply strip_prefix_Some.
  destruct (p ++ a); cbn [cut_first]; by rewrite E.
Qed.

Lemma str_in_None p s : str_in p s = false <-> cut_first p s = None.
Proof. unfold str_in. destruct (cut_first p s); naive_solver. Qed.

(** ** Deleting tags *)

(** [erases start end_ n m x y]: [y] is [x] after deleting [n] occurrences of the start tag and
    [m] of the end tag, each of the latter with the white space before it. *)
Inductive erases (start end_ : text) : nat -> nat -> text -> text -> Prop :=
  | erases_refl x : erases start end_ 0 0 x x
  | erases_start a b n m y :
      erases start end_ n m (a ++ b) y -> erases start end_ (S n) m (a ++ start ++ b) y
  | erases_end a ws b n m y :
      Forall (fun c => py_isspace c = true) ws ->
      erases start end_ n m (a ++ b) y -> erases start end_ n (S m) (a ++ ws ++ end_ ++ b) y.

Lemma erases_trans start end_ n1 m1 n2 m2 x y z :
  erases start end_ n1 m1 x y -> erases start end_ n2 m2 y z ->
  erases start end_ (n1 + n2) (m1 + m2) x z.
Proof.
  intros H Hz. induction H as [|a b n m y H IH|a ws b n m y Hws H IH]; [done| |].
  - cbn [Nat.add]. apply erases_start. auto.
  - cbn [Nat.add]. apply erases_end; auto.
Qed.

Lemma erases_app_r start end_ n m x y t :
  erases start end_ n m x y -> erases start end_ n m (x ++ t) (y ++ t).
Proof.
  induction 1 as [|a b n m y H IH|a ws b n m y Hws H IH]; [constructor| |].
  - rewrite <-!app_assoc in *. by apply erases_start.
  - rewrite <-!app_assoc in *. by apply erases_end.
Qed.

Lemma erases_app_l start end_ n m x y t :
  erases start end_ n m x y -> erases start end_ n m (t ++ x) (t ++ y).
Proof.
  induction 1 as [|a b n m y H IH|a ws b n m y Hws H IH]; [constructor| |];
    rewrite app_assoc in *.
  - by apply erases_start.
  - by apply erases_end.
Qed.

Lemma lstrip_split s : exists ws, Forall (fun c => py_isspace c = true) ws /\ s = ws ++ lstrip_chars s.
Proof.
  induction s as [|c s (ws & Hws & Hs)]; [by exists []|]. cbn [lstrip_chars].
  destruct (py_isspace c) eqn:E; [|by exists []].
  exists (c :: ws). split; [by constructor|]. cbn. by rewrite <-Hs.
Qed.

Lemma rstrip_split s : exists ws, Forall (fun c => py_isspace c = true) ws /\ s = rstrip s ++ ws.
Proof.
  destruct (lstrip_split (rev s)) as (ws & Hws & Hs). exists (rev ws). split.
  - by apply Forall_rev.
  - unfold rstrip. rewrite <-rev_app_distr, <-Hs. by rewrite rev_involutive.
Qed.

Lemma cut_end_erases start end_ s b a :
  cut_first end_ s = Some (b, a) -> erases start end_ 0 1 s (rstrip b ++ a).
Proof.
  intros ->%cut_first_app. destruct (rstrip_split b) as (ws & Hws & Hb).
  rewrite Hb at 1. rewrite <-app_assoc. apply erases_end; [done|]. constructor.
Qed.

(** ** Streaming *)

(** What a result adds to the output, and a whole run over chunks. *)
Definition emitted (r : StreamingParseResult) : text := reasoning_text r ++ normal_text r.

Fixpoint stream_run (d : Detector) (chunks : list text) : list StreamingParseResult * Detector :=
  match chunks with
  | [] => ([], d)
  | c :: cs =>
      let '(r, d1) := base_parse_streaming_increment d c in
      let '(rs, d2) := stream_run d1 cs in (r :: rs, d2)
  end.

Definition out (rs : list StreamingParseResult) : text := concat (emitted <$> rs).

(** The second half deletes at most an end tag, and then leaves the reasoning; text that is
    kept back is the whole buffer. *)
Lemma emit_text_erases d buf cur in_r stripped r d' :
  emit_text d buf cur in_r stripped = (r, d') ->
  d' = with_stream d (_in_reasoning d') (_buffer d') stripped /\
  ((exists m, erases (think_start_text d) (think_end_token d) 0 m cur (emitted r ++ _buffer d') /\
      (m + Nat.b2n (_in_reasoning d') <= Nat.b2n in_r)%nat) \/
   (emitted r = [] /\ _buffer d' = buf /\ _in_reasoning d' = in_r)).
Proof.
  unfold emit_text. intros H. destruct in_r.
  - destruct (cut_first (think_end_token d) cur) as [[b a]|] eqn:He.
    { simplify_eq/=. split; [done|]. left. exists 1%nat. rewrite app_nil_r.
      split; [by apply cut_end_erases|done]. }
    unfold cut_tool in H. destruct (opt_token (tool_start_token d)) as [tool|];
      [destruct (cut_first tool cur) as [[b a]|] eqn:Ht|].
    { simplify_eq/=. split; [done|]. left. exists 0%nat. apply cut_first_app in Ht.
      rewrite Ht, app_nil_r. split; [constructor|cbn; lia]. }
    all: destruct (stream_reasoning d); simplify_eq/=; (split; [done|]).
    2,4: by right.
    all: left; exists 0%nat; unfold emitted; cbn; rewrite !app_nil_r; split; [constructor|lia].
  - simplify_eq/=. split; [done|]. left. exists 0%nat. unfold emitted. cbn.
    rewrite app_nil_r. split; [constructor|lia].
Qed.

Lemma step_erases d c r d' :
  base_parse_streaming_increment d c = (r, d') ->
  d' = with_stream d (_in_reasoning d') (_buffer d') (stripped_think_start d') /\
  exists n m, erases (think_start_text d) (think_end_token d) n m (_buffer d ++ c) (emitted r ++ _buffer d') /\
    (n + Nat.b2n (stripped_think_start d) <= Nat.b2n (stripped_think_start d'))%nat /\
    (m + Nat.b2n (_in_reasoning d') + Nat.b2n (stripped_think_start d) <=
       Nat.b2n (_in_reasoning d) + Nat.b2n (stripped_think_start d'))%nat.
Proof.
  unfold base_parse_streaming_increment. destruct (existsb _ _).
  { intros; simplify_eq/=. split; [done|]. exists 0%nat, 0%nat. split_and!; [constructor|cbn; lia..]. }
  unfold strip_start. destruct (negb (stripped_think_start d) && _) eqn:Hs.
  - apply andb_true_iff in Hs as [Hstr%negb_true_iff Hin].
    unfold str_in in Hin. unfold replace_once.
    destruct (cut_first (think_start_text d) (_buffer d ++ c)) as [[b a]|] eqn:Hc; [|done].
    apply cut_first_app in Hc. intros H. apply emit_text_erases in H as [Hd' H].
    rewrite Hstr. assert (stripped_think_start d' = true) as Hst by (by rewrite Hd').
    rewrite Hst in *. split; [done|]. destruct H as [(m & H & Hm)|(He & Hb & Hr)].
    + exists 1%nat, m. rewrite Hc. split_and!; [by apply erases_start|cbn in *; lia..].
    + exists 0%nat, 0%nat. rewrite He, Hb, Hr. split_and!; [constructor|cbn in *; lia..].
  - intros H. apply emit_text_erases in H as [Hd' H].
    assert (stripped_think_start d' = stripped_think_start d) as Hst by (by rewrite Hd').
    rewrite Hst in *. split; [done|]. destruct H as [(m & H & Hm)|(He & Hb & Hr)].
    + exists 0%nat, m. split_and!; [done|cbn in *; lia..].
    + exists 0%nat, 0%nat. rewrite He, Hb, Hr. split_and!; [constructor|cbn in *; lia..].
Qed.

Lemma with_stream_tags d i b s :
  think_start_text (with_stream d i b s) = think_start_text d /\
  think_end_token (with_stream d i b s) = think_end_token d.
Proof. done. Qed.

(** C36. Streaming loses nothing but tags and the white space before end tags, and invents
    nothing.  However the output of the model (8-bit characters) is cut into chunks, in both
    modes, for the [parse_streaming_increment] of [BaseReasoningFormatDetector], which most
    detectors inherit: the reasoning and normal text emitted so far, in order, followed by
    what is still buffered, is the input with at most one start tag deleted, and end tags
    deleted together with the white space before them: at most one for having been in the
    reasoning at first plus one for the start tag. *)
Theorem stream_conserves_text (d : Detector) (chunks : list text) :
  exists n m,
    erases (think_start_text d) (think_end_token d) n m (_buffer d ++ concat chunks)
      (out (fst (stream_run d chunks)) ++ _buffer (snd (stream_run d chunks))) /\
    (n <= 1 - Nat.b2n (stripped_think_start d))%nat /\
    (m <= Nat.b2n (_in_reasoning d) + (1 - Nat.b2n (stripped_think_start d)))%nat.
Proof.
  enough (exists n m,
    erases (think_start_text d) (think_end_token d) n m (_buffer d ++ concat chunks)
      (out (fst (stream_run d chunks)) ++ _buffer (snd (stream_run d chunks))) /\
    let d' := snd (stream_run d chunks) in
    (n + Nat.b2n (stripped_think_start d) <= Nat.b2n (stripped_think_start d'))%nat /\
    (m + Nat.b2n (_in_reasoning d') + Nat.b2n (stripped_think_start d) <=
       Nat.b2n (_in_reasoning d) + Nat.b2n (stripped_think_start d'))%nat) as (n & m & H & Hn & Hm).
  { exists n, m. pose proof (Nat.b2n_le_1 (stripped_think_start (snd (stream_run d chunks)))).
    split_and!; [done|cbn in *; lia..]. }
  revert d. induction chunks as [|c cs IH]; intros d.
  { exists 0%nat, 0%nat. cbn. rewrite app_nil_r. split_and!; [constructor|lia..]. }
  cbn [stream_run concat]. destruct (base_parse_streaming_increment d c) as [r d1] eqn:Hstep.
  apply step_erases in Hstep as (Hd1 & n1 & m1 & He1 & Hn1 & Hm1).
  destruct (IH d1) as (n2 & m2 & He2 & Hn2 & Hm2).
  destruct (stream_run d1 cs) as [rs d2]. cbn [fst snd] in *.
  exists (n1 + n2)%nat, (m1 + m2)%nat. split_and!; [|cbn in *; lia..].
  rewrite app_assoc. eapply erases_trans; [by apply erases_app_r|].
  rewrite Hd1 in He2 at 1 2. destruct (with_stream_tags d (_in_reasoning d1) (_buffer d1)
    (stripped_think_start d1)) as [Hts Hte]. rewrite Hts, Hte in He2.
  unfold out. rewrite fmap_cons. cbn [concat]. rewrite <-!app_assoc. by apply erases_app_l.
Qed.

(** ** One-shot parsing *)

Lemma strip_prefix_app_None p s t :
  strip_prefix p s = None -> (length p <= length s)%nat -> strip_prefix p (s ++ t) = None.
Proof.
  revert s. induction p as [|a p IH]; intros [|c s]; cbn; try done; [lia|].
  case_decide; [|done]. intros. apply IH; [done|lia].
Qed.

Lemma strip_prefix_take p s t u :
  strip_prefix p (s ++ t) = None -> (length p <= length s)%nat -> strip_prefix p (s ++ u) = None.
Proof.
  intros H Hl. apply strip_prefix_app_None; [|done].
  destruct (strip_prefix p s) as [r|] eqn:E; [|done]. apply strip_prefix_Some in E as ->.
  rewrite <-app_assoc in H. by rewrite (proj2 (strip_prefix_Some p _ (r ++ t)) eq_refl) in H.
Qed.

(** The first occurrence of a tag does not depend on what follows it, nor on a part of what
    precedes it. *)
Lemma cut_first_after p b a a' :
  p <> [] -> cut_first p (b ++ p ++ a) = Some (b, a) -> cut_first p (b ++ p ++ a') = Some (b, a').
Proof.
  intros Hp. induction b as [|c b IH]; intros H; [cbn [app]; apply cut_first_here|].
  cbn [app cut_first] in *. change (c :: b ++ p ++ a) with ((c :: b) ++ p ++ a) in H.
  change (c :: b ++ p ++ a') with ((c :: b) ++ p ++ a').
  destruct (strip_prefix p ((c :: b) ++ p ++ a)) as [r|] eqn:E; [done|].
  rewrite app_assoc in E.
  assert (strip_prefix p ((c :: b) ++ p ++ a') = None) as E'.
  { rewrite app_assoc. eapply strip_prefix_take; [exact E|]. rewrite length_app. lia. }
  rewrite E'. destruct (cut_first p (b ++ p ++ a)) as [[b1 a1]|] eqn:Ec; [|done].
  simplify_eq. by rewrite IH.
Qed.

Lemma cut_first_before p w b a :
  cut_first p (w ++ b ++ p ++ a) = Some (w ++ b, a) -> cut_first p (b ++ p ++ a) = Some (b, a).
Proof.
  induction w as [|c w IH]; [done|]. cbn [app cut_first].
  destruct (strip_prefix p _); [done|].
  destruct (cut_first p (w ++ b ++ p ++ a)) as [[b1 a1]|]; [|done]. intros; simplify_eq. auto.
Qed.

Lemma remove_all_absent p s : str_in p s = false -> remove_all p 0 s = s.
Proof.
  unfold str_in. induction s as [|c s IH]; [done|]. cbn [cut_first remove_all].
  destruct (strip_prefix p (c :: s)) eqn:E; [done|].
  destruct (cut_first p s) as [[b a]|]; [done|]. intros H. rewrite IH by exact H.
  destruct p; [done|]. by rewrite E.
Qed.

Lemma remove_all_skip p k s : (k <= length s)%nat -> remove_all p k s = remove_all p 0 (drop k s).
Proof.
  revert s. induction k as [|k IH]; intros s Hk; [by rewrite drop_0|].
  destruct s as [|c s]; [cbn in Hk; lia|]. cbn [remove_all drop]. apply IH. cbn in Hk. lia.
Qed.

Lemma remove_all_head p s : p <> [] -> remove_all p 0 (p ++ s) = remove_all p 0 s.
Proof.
  intros Hp. destruct p as [|c p]; [done|]. cbn [app remove_all].
  change (c :: p ++ s) with ((c :: p) ++ s).
  rewrite (proj2 (strip_prefix_Some (c :: p) _ s) eq_refl).
  rewrite remove_all_skip by (rewrite length_app; lia). by rewrite drop_app_length.
Qed.

Lemma lstrip_app_space ws s :
  Forall (fun c => py_isspace c = true) ws -> lstrip_chars (ws ++ s) = lstrip_chars s.
Proof. induction 1 as [|c ws Hc _ IH]; [done|]. cbn. by rewrite Hc. Qed.

Lemma lstrip_idem s : lstrip_chars (lstrip_chars s) = lstrip_chars s.
Proof. induction s as [|c s IH]; [done|]. cbn. destruct (py_isspace c) eqn:E; [done|]. cbn. by rewrite E. Qed.

(** Text that starts, or ends, with a character that is no white space. *)
Definition starts_solid (s : text) : Prop := lstrip_chars s = s /\ s <> [].
Definition ends_solid (s : text) : Prop := rstrip s = s /\ s <> [].

Lemma lstrip_app_solid r s : starts_solid s -> lstrip_chars (r ++ s) = lstrip_chars r ++ s.
Proof.
  intros [Hs Hne]. induction r as [|c r IH]; [done|]. cbn.
  destruct (py_isspace c); [done|]. done.
Qed.

Lemma starts_solid_app s t : starts_solid s -> starts_solid (s ++ t).
Proof.
  intros [Hs Hne]. destruct s as [|c s]; [done|]. split; [|done]. cbn in *.
  destruct (py_isspace c); [|done]. exfalso.
  assert (length (lstrip_chars s) <= length s)%nat as Hl.
  { clear. induction s as [|x s IH]; [done|]. cbn. destruct (py_isspace x); cbn; lia. }
  rewrite Hs in Hl. cbn in Hl. lia.
Qed.

Lemma rstrip_app_solid s t : ends_solid s -> rstrip (s ++ t) = s ++ rstrip t.
Proof.
  intros [Hs Hne]. unfold rstrip in *. rewrite rev_app_distr, lstrip_app_solid.
  - by rewrite rev_app_distr, rev_involutive.
  - split.
    + apply (f_equal (@rev ascii)) in Hs. by rewrite rev_involutive in Hs.
    + intros E. apply (f_equal (@rev ascii)) in E. rewrite rev_involutive in E. done.
Qed.

Lemma rstrip_app_ne s t : rstrip t <> [] -> rstrip (s ++ t) = s ++ rstrip t.
Proof.
  unfold rstrip. rewrite rev_app_distr. generalize (rev t) as u. intros u Hu.
  assert (lstrip_chars (u ++ rev s) = lstrip_chars u ++ rev s) as ->.
  { induction u as [|c u IH]; [done|]. cbn in *. destruct (py_isspace c); auto. }
  by rewrite rev_app_distr, rev_involutive.
Qed.

Lemma strip_around r e n :
  starts_solid e -> ends_solid e -> strip (r ++ e ++ n) = lstrip_chars r ++ e ++ rstrip n.
Proof.
  intros Hs He. unfold strip. rewrite lstrip_app_solid by by apply starts_solid_app.
  pose proof (rstrip_app_solid e n He) as Hr. rewrite rstrip_app_ne, Hr; [done|].
  rewrite Hr. destruct He as [_ He]. by destruct e.
Qed.

Lemma strip_rstrip s : strip (rstrip s) = strip s.
Proof.
  destruct (rstrip_split s) as (ws & Hws & Hs).
  unfold strip. rewrite Hs at 2. generalize (rstrip s). clear s Hs. intros s.
  assert (forall u, rstrip (u ++ ws) = rstrip u) as Hr.
  { intros u. unfold rstrip. rewrite rev_app_distr, lstrip_app_space; [done|]. by apply Forall_rev. }
  destruct (lstrip_split s) as (w1 & Hw1 & Hs1).
  destruct (decide (lstrip_chars s = [])) as [E|E].
  - rewrite E, app_nil_r in Hs1. subst s. rewrite E.
    rewrite lstrip_app_space by done. replace (lstrip_chars ws) with (@nil ascii); [done|].
    clear -Hws. induction Hws as [|c ws Hc _ IH]; [done|]. cbn. by rewrite Hc.
  - rewrite <-(Hr (lstrip_chars s)). f_equal.
    rewrite Hs1 at 2. rewrite <-app_assoc, lstrip_app_space by done.
    clear Hs1. induction s as [|c s IH]; [done|]. cbn in *. destruct (py_isspace c) eqn:Ec; [auto|].
    cbn. by rewrite Ec.
Qed.

(** ** Tags as chunks of their own *)

(** The tags of a detector can be told apart and are not white space. *)
Record tags_ok (d : Detector) : Prop := {
  tags_start : think_start_text d <> [];
  tags_label : think_start_self_label d = [];
  tags_solid_l : starts_solid (think_end_token d);
  tags_solid_r : ends_solid (think_end_token d);
  tags_start_prefix : proper_prefix_of (think_start_text d) (think_end_token d) = false;
  tags_end_prefix : proper_prefix_of (think_end_token d) (think_start_text d) = false;
  tags_distinct : str_in (think_start_text d) (think_end_token d) = false }.

(** A chunk of text: no tag in it, and not the beginning of one. *)
Definition plain (d : Detector) (c : text) : Prop :=
  str_in (think_start_text d) c = false /\ str_in (think_end_token d) c = false /\
  existsb (proper_prefix_of c) (tokens_to_check d) = false.

Definition reasoning_of (rs : list StreamingParseResult) : text := concat (reasoning_text <$> rs).
Definition normal_of (rs : list StreamingParseResult) : text := concat (normal_text <$> rs).

(** A detector that streams, has no tool token and an empty buffer. *)
Definition streaming (d : Detector) : Prop :=
  stream_reasoning d = true /\ tool_start_token d = None /\ _buffer d = [].

Lemma with_stream_same d :
  _buffer d = [] -> with_stream d (_in_reasoning d) [] (stripped_think_start d) = d.
Proof. intros H. destruct d. cbn in *. by subst. Qed.

Lemma plain_step d c :
  streaming d -> plain d c ->
  base_parse_streaming_increment d c =
  (if _in_reasoning d then mkResult [] c else mkResult c [], d).
Proof.
  intros (Hst & Htool & Hb) (Hs & He & Hp). unfold base_parse_streaming_increment.
  rewrite Hb. cbn [app]. rewrite Hp. unfold strip_start. rewrite Hs, andb_false_r.
  unfold emit_text, cut_tool. apply str_in_None in He. rewrite He, Htool, Hst.
  rewrite <-(with_stream_same d Hb) at 5 6. by destruct (_in_reasoning d).
Qed.

Lemma plain_run d cs :
  streaming d -> Forall (plain d) cs ->
  stream_run d cs = ((fun c => if _in_reasoning d then mkResult [] c else mkResult c []) <$> cs, d).
Proof.
  intros Hd. induction 1 as [|c cs Hc _ IH]; [done|]. cbn [stream_run].
  rewrite plain_step by done. by rewrite IH.
Qed.

Lemma stream_run_app d cs1 cs2 :
  stream_run d (cs1 ++ cs2) =
  let '(r1, d1) := stream_run d cs1 in let '(r2, d2) := stream_run d1 cs2 in (r1 ++ r2, d2).
Proof.
  revert d. induction cs1 as [|c cs1 IH]; intros d; cbn [app stream_run].
  { by destruct (stream_run d cs2). }
  destruct (base_parse_streaming_increment d c) as [r d1]. rewrite IH.
  destruct (stream_run d1 cs1) as [r1 d1']. by destruct (stream_run d1' cs2).
Qed.

Lemma proper_prefix_self s : proper_prefix_of s s = false.
Proof.
  unfold proper_prefix_of. pose proof (proj2 (strip_prefix_Some s s []) ) as H.
  rewrite app_nil_r in H. by rewrite (H eq_refl).
Qed.

Lemma start_step d :
  streaming d -> tags_ok d -> stripped_think_start d = false ->
  base_parse_streaming_increment d (think_start_text d) = (mkResult [] [], with_stream d true [] true).
Proof.
  intros (Hst & Htool & Hb) Ht Hs. unfold base_parse_streaming_increment, tokens_to_check.
  rewrite Hb, Htool. cbn [app existsb opt_token]. rewrite proper_prefix_self, (tags_start_prefix d Ht).
  cbn [orb]. unfold strip_start, str_in, replace_once. rewrite Hs.
  pose proof (cut_first_here (think_start_text d) []) as Hc. rewrite app_nil_r in Hc. rewrite Hc.
  cbn [negb andb app]. unfold emit_text, cut_tool.
  assert (cut_first (think_end_token d) [] = None) as ->.
  { destruct (tags_solid_l d Ht) as [_ Hne]. by destruct (think_end_token d). }
  by rewrite Htool, Hst.
Qed.

Lemma end_step d :
  streaming d -> tags_ok d -> _in_reasoning d = true ->
  base_parse_streaming_increment d (think_end_token d) =
  (mkResult [] [], with_stream d false [] (stripped_think_start d)).
Proof.
  intros (Hst & Htool & Hb) Ht Hr. unfold base_parse_streaming_increment, tokens_to_check.
  rewrite Hb, Htool. cbn [app existsb opt_token]. rewrite proper_prefix_self, (tags_end_prefix d Ht).
  cbn [orb]. unfold strip_start. rewrite (tags_distinct d Ht), andb_false_r.
  unfold emit_text. rewrite Hr.
  pose proof (cut_first_here (think_end_token d) []) as Hc. rewrite app_nil_r in Hc. by rewrite Hc.
Qed.

(** A tag that comes in one or more chunks, the last one not empty. *)
Definition in_pieces (tag : text) (l : list text) : Prop :=
  concat l = tag /\ exists ini x, l = ini ++ [x] /\ x <> [].

(** What is buffered and the next chunk are read as one. *)
Lemma step_buffered d b c :
  _buffer d = [] ->
  base_parse_streaming_increment (with_stream d (_in_reasoning d) b (stripped_think_start d)) c = base_parse_streaming_increment d (b ++ c).
Proof.
  intros Hb. unfold base_parse_streaming_increment. cbn [_buffer with_stream]. rewrite Hb. cbn [app].
  change (tokens_to_check (with_stream _ _ _ _)) with (tokens_to_check d). destruct (existsb _ _); [done|].
  reflexivity.
Qed.

(** No text for any of the chunks. *)
Definition silent (l : list text) : list StreamingParseResult := (fun _ => mkResult [] []) <$> l.

(** The pieces of a tag before the last are kept back. *)
Lemma pieces_run d tag ini x : forall b,
  _buffer d = [] -> In tag (tokens_to_check d) -> b ++ concat ini ++ x = tag -> x <> [] ->
  stream_run (with_stream d (_in_reasoning d) b (stripped_think_start d)) (ini ++ [x]) =
  let '(r, d') := base_parse_streaming_increment d tag in (silent ini ++ [r], d').
Proof.
  induction ini as [|y ini IH]; intros b Hb Hin Htag Hx; cbn [app stream_run].
  { rewrite step_buffered by done. cbn in Htag. rewrite Htag. by destruct (base_parse_streaming_increment d tag). }
  rewrite step_buffered by done.
  assert (base_parse_streaming_increment d (b ++ y) = (mkResult [] [], with_stream d (_in_reasoning d) (b ++ y) (stripped_think_start d))) as ->.
  { unfold base_parse_streaming_increment. rewrite Hb. cbn [app]. rewrite (proj2 (existsb_exists _ _)); [done|]. exists tag. split; [done|].
    unfold proper_prefix_of. rewrite (proj2 (strip_prefix_Some (b ++ y) tag (concat ini ++ x))) by (rewrite <-Htag; cbn [concat]; by rewrite <-!app_assoc).
    destruct (concat ini ++ x) eqn:E; [|done]. by apply app_eq_nil in E as [_ ?]. }
  rewrite (IH (b ++ y) Hb Hin); [|rewrite <-Htag; cbn [concat]; by rewrite <-!app_assoc|done]. by destruct (base_parse_streaming_increment d tag).
Qed.

Lemma tag_run d tag l :
  _buffer d = [] -> In tag (tokens_to_check d) -> in_pieces tag l ->
  exists es, stream_run d l = let '(r, d') := base_parse_streaming_increment d tag in (silent es ++ [r], d').
Proof.
  intros Hb Hin (Hc & ini & x & -> & Hx). exists ini. rewrite <-(with_stream_same d Hb) at 1. apply pieces_run; try done.
  rewrite concat_app in Hc. cbn in Hc. by rewrite app_nil_r in Hc.
Qed.

(** The chunks of an answer: the start tag if the model writes one, the reasoning, the end
    tag, the rest. *)
Definition answer_chunks (ss rs es ns : list text) : list text := ss ++ rs ++ es ++ ns.

Lemma stream_after_start d rs es ns :
  streaming d -> tags_ok d -> _in_reasoning d = true ->
  Forall (plain d) rs -> Forall (plain d) ns -> in_pieces (think_end_token d) es ->
  exists l, stream_run d (rs ++ es ++ ns) =
  ((mkResult [] <$> rs) ++ (silent l ++ [mkResult [] []]) ++ ((fun c => mkResult c []) <$> ns),
   with_stream d false [] (stripped_think_start d)).
Proof.
  intros Hd Ht Hr Hrs Hns Hes. rewrite stream_run_app, plain_run, Hr by done. cbv beta iota. rewrite stream_run_app.
  destruct (tag_run d (think_end_token d) es) as [l ->]; [by destruct Hd as (? & ? & ?)|by right; left|done|].
  rewrite end_step by done. exists l. rewrite plain_run; [done| |].
  - destruct Hd as (? & ? & ?). done.
  - eapply Forall_impl; [exact Hns|]. done.
Qed.

Lemma silent_texts l : reasoning_of (silent l) = [] /\ normal_of (silent l) = [].
Proof. unfold reasoning_of, normal_of, silent. induction l as [|c l [H1 H2]]; [done|]. rewrite !fmap_cons. cbn. by rewrite H1, H2. Qed.

Lemma texts_of (l : list text) :
  reasoning_of (mkResult [] <$> l) = concat l /\ normal_of (mkResult [] <$> l) = [] /\
  reasoning_of ((fun c => mkResult c []) <$> l) = [] /\
  normal_of ((fun c => mkResult c []) <$> l) = concat l.
Proof.
  unfold reasoning_of, normal_of. induction l as [|c l (H1 & H2 & H3 & H4)]; [done|].
  rewrite !fmap_cons. cbn [concat reasoning_text normal_text app]. by rewrite H1, H2, H3, H4.
Qed.

(** The chunks before the reasoning: those of the start tag, or none for a model that is in
    the reasoning from the start. *)
Definition opening (d : Detector) (ss : list text) : Prop :=
  in_pieces (think_start_text d) ss \/ ss = [] /\ _in_reasoning d = true.

Lemma results_of l1 l2 rs ns :
  let res := silent l1 ++ (mkResult [] <$> rs) ++ (silent l2 ++ [mkResult [] []]) ++ ((fun c => mkResult c []) <$> ns) in
  reasoning_of res = concat rs /\ normal_of res = concat ns.
Proof.
  cbv zeta. destruct (texts_of rs) as (H1 & H2 & _ & _). destruct (texts_of ns) as (_ & _ & H3 & H4).
  destruct (silent_texts l1) as [H5 H6]. destruct (silent_texts l2) as [H7 H8]. unfold reasoning_of, normal_of in *.
  rewrite !fmap_app, !concat_app. rewrite H1, H2, H3, H4, H5, H6, H7, H8. cbn. by rewrite app_nil_r.
Qed.

Lemma stream_answer d ss rs es ns :
  streaming d -> tags_ok d -> stripped_think_start d = false ->
  opening d ss -> Forall (plain d) rs -> in_pieces (think_end_token d) es -> Forall (plain d) ns ->
  exists res d', stream_run d (answer_chunks ss rs es ns) = (res, d') /\
    reasoning_of res = concat rs /\ normal_of res = concat ns /\ _buffer d' = [].
Proof.
  intros Hd Ht Hs Hss Hrs Hes Hns. unfold answer_chunks. pose proof Hd as (D1 & D2 & D3).
  destruct Hss as [Hss|[-> Hr]].
  - rewrite stream_run_app. destruct (tag_run d (think_start_text d) ss) as [l ->]; [done|by left|done|]. rewrite start_step by done.
    destruct (stream_after_start (with_stream d true [] true) rs es ns) as [l2 ->]; try done; [by destruct Ht; constructor|].
    eexists _, _. split; [reflexivity|]. destruct (results_of (l ++ [[]]) l2 rs ns) as [R1 R2]. unfold silent at 1 in R1. unfold silent at 1 in R2. rewrite fmap_app in R1, R2. done.
  - cbn [app]. destruct (stream_after_start d rs es ns) as [l2 ->]; [done..|]. eexists _, _. split; [reflexivity|].
    destruct (results_of [] l2 rs ns) as [R1 R2]. done.
Qed.


(** The detector of DeepSeek V4, as the server makes it for a streamed request. *)
Definition v4_detector (stream : bool) : Detector :=
  qwen3_init _DeepSeekV3Detector (mkKwargs stream None None false) "explicit_thinking".

Lemma v4_tags_ok stream : tags_ok (v4_detector stream).
Proof. destruct stream; constructor; vm_compute; try done; by split. Qed.


(** Whatever the chunks: the tags and the space before the end tag are all that is missing. *)
Lemma stream_conserves_text_witness :
  let run := stream_run (v4_detector true) [chars "<thi"; chars "nk>a </t"; chars "b </think>c"] in
  out (fst run) ++ _buffer (snd run) = chars "a </tbc" /\
  exists n m, erases (chars "<think>") (chars "</think>") n m (chars "<think>a </tb </think>c") (out (fst run) ++ _buffer (snd run)) /\
    (n <= 1)%nat /\ (m <= Nat.b2n (_in_reasoning (v4_detector true)) + 1)%nat.
Proof.
  cbv zeta. split; [vm_compute; reflexivity|].
  exact (stream_conserves_text (v4_detector true) [chars "<thi"; chars "nk>a </t"; chars "b </think>c"]).
Defined.

(** Only a chunk that begins a tag is kept back.  An end tag that begins inside a chunk of
    text is never seen: the answer is sent as reasoning, where one-shot parsing finds it. *)
Theorem split_tag_missed :
  let chunks := [chars "<think>"; chars "why</th"; chars "ink>"; chars "answer"] in
  let res := fst (stream_run (v4_detector true) chunks) in
  reasoning_of res = chars "why</think>answer" /\ normal_of res = [] /\
  base_detect_and_parse (v4_detector true) (concat chunks) = mkResult (chars "answer") (chars "why").
Proof. vm_compute. split_and!; reflexivity. Qed.

(** ** The accumulating mode *)

Lemma strip_prefix_app_None_l p q s : strip_prefix p s = None -> strip_prefix (p ++ q) s = None.
Proof.
  destruct (strip_prefix (p ++ q) s) as [r|] eqn:E; [|done]. apply strip_prefix_Some in E as ->.
  intros H. by rewrite <-app_assoc, (proj2 (strip_prefix_Some p _ (q ++ r)) eq_refl) in H.
Qed.

Lemma longer_not_prefix d x :
  tags_ok d -> tool_start_token d = None ->
  existsb (proper_prefix_of (think_start_text d ++ x)) (tokens_to_check d) = false.
Proof.
  intros Ht Htool. unfold tokens_to_check. rewrite Htool. cbn [app opt_token existsb].
  assert (proper_prefix_of (think_start_text d ++ x) (think_start_text d) = false) as ->.
  { unfold proper_prefix_of. destruct (strip_prefix _ _) as [r|] eqn:E; [|done].
    apply strip_prefix_Some, (f_equal length) in E. rewrite !length_app in E.
    destruct r; [done|cbn in E; lia]. }
  unfold proper_prefix_of. rewrite strip_prefix_app_None_l; [done|].
  pose proof (tags_distinct d Ht) as H. apply str_in_None in H.
  destruct (think_end_token d); cbn [cut_first] in H; by destruct (strip_prefix (think_start_text d) _).
Qed.

(** With stream_reasoning off, the start tag leaks into the reasoning.  A detector that
    accumulates the reasoning, fed the start tag, the reasoning and the end tag as chunks,
    returns the reasoning with the start tag in front of it: the tag is taken out of the first
    chunk's text but not out of the buffer, and is not looked for again. *)
Theorem accumulating_keeps_start_tag (d : Detector) (r : text) :
  stream_reasoning d = false -> tool_start_token d = None -> _buffer d = [] ->
  stripped_think_start d = false -> tags_ok d ->
  str_in (think_end_token d) (think_start_text d ++ r) = false ->
  cut_first (think_end_token d) ((think_start_text d ++ r) ++ think_end_token d) =
    Some (think_start_text d ++ r, []) ->
  fst (stream_run d [think_start_text d; r; think_end_token d]) =
    [mkResult [] []; mkResult [] []; mkResult [] (rstrip (think_start_text d ++ r))].
Proof.
  intros Hst Htool Hb Hs Ht Hno Hcut. cbn [stream_run].
  assert (base_parse_streaming_increment d (think_start_text d) =
          (mkResult [] [], with_stream d true (think_start_text d) true)) as ->.
  { pose proof (longer_not_prefix d [] Ht Htool) as Hp. rewrite app_nil_r in Hp.
    unfold base_parse_streaming_increment. rewrite Hb. cbn [app]. rewrite Hp.
    pose proof (cut_first_here (think_start_text d) []) as Hc. rewrite app_nil_r in Hc.
    unfold strip_start, str_in, replace_once. rewrite Hs, Hc. cbn [negb andb app].
    unfold emit_text, cut_tool. rewrite Htool, Hst.
    destruct (tags_solid_l d Ht) as [_ Hne]. by destruct (think_end_token d). }
  set (d1 := with_stream d true (think_start_text d) true).
  assert (base_parse_streaming_increment d1 r =
          (mkResult [] [], with_stream d true (think_start_text d ++ r) true)) as ->.
  { unfold base_parse_streaming_increment. cbn [_buffer with_stream d1].
    change (tokens_to_check d1) with (tokens_to_check d). rewrite longer_not_prefix by done.
    unfold strip_start, emit_text, cut_tool. cbn. apply str_in_None in Hno. by rewrite Hno, Htool, Hst. }
  set (d2 := with_stream d true (think_start_text d ++ r) true).
  unfold base_parse_streaming_increment. cbn [_buffer with_stream d2].
  change (tokens_to_check d2) with (tokens_to_check d).
  rewrite <-app_assoc, longer_not_prefix by done. rewrite app_assoc.
  unfold strip_start, emit_text. cbn -[app]. by rewrite Hcut.
Qed.

Lemma accumulating_keeps_start_tag_witness :
  fst (stream_run (v4_detector false) [chars "<think>"; chars "why"; chars "</think>"]) =
    [mkResult [] []; mkResult [] []; mkResult [] (chars "<think>why")] /\
  base_detect_and_parse (v4_detector false) (chars "<think>why</think>") = mkResult [] (chars "why").
Proof.
  split; [|vm_compute; reflexivity].
  apply (accumulating_keeps_start_tag (v4_detector false) (chars "why")).
  - reflexivity.
  - reflexivity.
  - reflexivity.
  - reflexivity.
  - apply v4_tags_ok.
  - vm_compute. reflexivity.
  - vm_compute. reflexivity.
Defined.

(** ** The constructor *)

(** Gemma's start tag carries a label, and GPT-OSS is parsed by the Harmony parser. *)
Definition tagged_class (c : DetectorClass) : bool :=
  negb (bool_decide (c = Gemma4Detector)) && negb (bool_decide (c = GptOssDetector)).

(** The request asks for something the class does not take. *)
Definition unsupported (c : DetectorClass) (kw : Kwargs) : bool :=
  kw_nonempty kw && negb (bool_decide (c = Nemotron3Detector)) ||
  kw_cont kw && bool_decide (c = Glm45Detector).

Lemma new_detector_fresh c kw :
  unsupported c kw = false ->
  exists d, new_detector c kw = Ret d /\ cls d = c /\ stream_reasoning d = kw_stream kw /\
    _buffer d = [] /\ stripped_think_start d = false /\
    (kw_continue kw = None -> previous_content d = []) /\ (tagged_class c = true -> tags_ok d).
Proof.
  unfold unsupported, new_detector, Glm45_init. rewrite orb_false_iff. intros [-> Hg].
  destruct c; rewrite ?bool_decide_eq_true_2, ?andb_true_r in Hg by done; rewrite ?Hg;
    (eexists; split_and!; [reflexivity..| |]);
    try (intros E; change (previous_content _) with (if kw_cont kw then kw_prev kw else []);
         unfold kw_cont; by rewrite E);
    try (intros Hc; try discriminate Hc; constructor; vm_compute; try done; by split).
Qed.

(** Which parsers the server can make.  A missing or unknown model type is a ValueError; a
    known one (in any case of letters) gives a detector of its class in its initial state
    (empty buffer, tag not yet seen, and, Gemma and GPT-OSS aside, tags that can be told
    apart), except that the request options "force_nonempty_content" for a class other than
    Nemotron's, and a continued assistant message for GLM-4.5, are a TypeError. *)
Theorem new_ReasoningParser_total (mt : string) (stream : bool) (force : option bool)
    (request : option ChatRequest) :
  new_ReasoningParser None stream force request = Raise ValueError /\
  match dict_get (lower mt) DetectorMap with
  | None => new_ReasoningParser (Some mt) stream force request = Raise ValueError
  | Some c =>
      if unsupported c (kwargs_of (lower mt) stream force request)
      then new_ReasoningParser (Some mt) stream force request = Raise TypeError
      else exists d, new_ReasoningParser (Some mt) stream force request = Ret d /\ cls d = c /\
             stream_reasoning d = stream /\ _buffer d = [] /\ stripped_think_start d = false /\
             (tagged_class c = true -> tags_ok d)
  end.
Proof.
  split; [done|]. unfold new_ReasoningParser, or_str.
  destruct (is_empty_str mt) eqn:He.
  { unfold is_empty_str in He. apply bool_decide_eq_true in He as ->. done. }
  rewrite He. destruct (dict_get (lower mt) DetectorMap) as [c|]; [|done].
  destruct (unsupported c _) eqn:Hu.
  - unfold unsupported in Hu. unfold new_detector.
    destruct (kw_nonempty _ && _); [done|]. cbn [orb] in Hu.
    apply andb_true_iff in Hu as [Hk Hc]. apply bool_decide_eq_true in Hc as ->.
    unfold Glm45_init. by rewrite Hk.
  - destruct (new_detector_fresh c _ Hu) as (d & Hd & Hcls & Hst & Hb & Hs & _ & Ht).
    exists d. by split_and!.
Qed.
