(* ===== verification/MemAlloc.v ===== *)
(** * Allocating KV slots through the prefix cache (mem_cache/common.py)

    The scheduler takes KV slots from the pool; when the pool is short, the prefix cache is
    asked to evict first.  [alloc_token_slots] is proved against the two interfaces it joins:
    the allocator ([KVAllocator], with its available size) and the radix cache. *)

From stdpp Require Import base tactics list gmap strings.
From Stdlib Require Import ZArith Lia.
From S2P Require Import Prelude PyStr RadixKey TreeNode EvictPolicy Allocator AllocatorProofs KVEvents.
From S2P Require Import RadixTree RadixInv RadixPaths RadixSlots RadixWalk RadixProofs RadixLocks RadixEvict RadixClaims.

(** ** Page arithmetic *)

(** [kv_indices[::page_size] // page_size] *)
Fixpoint every (k skip : nat) (l : list Z) : list Z :=
  match l with
  | [] => []
  | x :: l' => match skip with O => x :: every k (pred k) l' | S s => every k s l' end
  end.
Definition kv_to_page_indices (kv_indices : list Z) (page_size : Z) : list Z :=
  if page_size =? 1 then kv_indices
  else (fun i => i / page_size) <$> every (Z.to_nat page_size) 0 kv_indices.
Definition kv_to_page_num (num_kv_indices page_size : Z) : Z :=
  (num_kv_indices + page_size - 1) / page_size.
Definition page_align_floor (length page_size : Z) : Z := length / page_size * page_size.

Section mem_alloc.
Context {T : Type} `{!KVAllocator T} {H : Type} `{!HeapQ H}.
Context (cfg : Config) (now : nat -> Z) (sha256 : list Z -> string).
Context {B : Type} (kv_available : T -> Z) (kv_backup : T -> B).
Local Abbreviation ps := (cfg_page_size cfg).
Local Abbreviation eagle := (is_eagle cfg).
Implicit Types s : Cache T.

(** [evict_from_tree_cache] for a radix cache over a standard allocator; a chunk cache evicts
    nothing. *)
Definition evict_from_tree_cache (is_chunk_cache : bool) (num_tokens : Z) : PyM (Cache T) unit :=
  if is_chunk_cache then mret tt
  else
    s ← py_get;
    if kv_available (kv_pool s) <? num_tokens
    then _ ← evict (H := H) cfg sha256 num_tokens; mret tt
    else mret tt.

Definition alloc_token_slots (is_chunk_cache : bool) (num_tokens : Z) (backup_state : bool) :
    PyM (Cache T) (list Z * option B) :=
  _ ← evict_from_tree_cache is_chunk_cache num_tokens;
  s ← py_get;
  let state := if backup_state then Some (kv_backup (kv_pool s)) else None in
  r ← py_lift (kv_alloc num_tokens (kv_pool s));
  let '(out_cache_loc, pool) := r in
  _ ← py_modify (set_pool pool);
  match out_cache_loc with
  | None => py_raise RuntimeError
  | Some locs => mret (locs, state)
  end.

Context (Hps : (0 < ps)%nat) (Hevents : enable_kv_cache_events cfg = false) (Hd : disable cfg = false).
(** Outside a free group the available size is the number of slots the pool owns. *)
Context (Havail : forall a, kv_ok a -> kv_in_group a = false -> kv_available a = len (kv_owned a)).

(** A cache and its pool: the tree invariant, and distinct slots in whole pages. *)
Definition cache_ok (hs : list nat) (s : Cache T) : Prop :=
  inv ps eagle hs (abs s) /\ kv_ok (kv_pool s) /\ kv_in_group (kv_pool s) = false /\
  (forall i m, a_ns (abs s) !! i = Some m -> i <> root_node s ->
     paged (kv_page (kv_pool s)) (node_slots m)) /\
  NoDup (slots (abs s) ++ kv_owned (kv_pool s)).

Lemma evictable_nonneg hs s : inv ps eagle hs (abs s) -> 0 <= evictable_size_ s.
Proof.
  intros HI. change (evictable_size_ s) with (a_ev (abs s)). destruct (inv_s _ _ _ _ HI) as [-> _].
  apply msum_nonneg. intros i x _. unfold unlocked_len, sh_len. repeat case_match; lia.
Qed.

(** After [evict_from_tree_cache] the pool has the slots, unless everything that could be
    evicted has been. *)
Lemma evict_from_tree_cache_ok hs s n :
  cache_ok hs s ->
  exists l s1, evict_from_tree_cache false n s = (Ret tt, s1) /\ evicts cfg s l s1 /\
    (n <= len (kv_owned (kv_pool s1)) \/ evictable_size_ s1 = 0).
Proof.
  intros (HI & Hok & Hg & Hpg & Hnd). unfold evict_from_tree_cache. rewrite bind_get.
  rewrite (Havail _ Hok Hg). destruct (Z.ltb_spec (len (kv_owned (kv_pool s))) n) as [Hlt|Hge].
  - destruct (evict_ok (H := H) cfg now sha256 Hps Hevents hs s n HI Hd) as (l & s1 & E & Hev & Hstop & _).
    exists l, s1. split_and!; [by erewrite py_bind_Ret by exact E|done|].
    destruct (evicts_slots cfg hs s l s1 Hev HI Hok Hpg Hnd) as (_ & _ & Hown & _).
    destruct Hstop as [Hn|H0]; [left|by right]. unfold len. rewrite Hown, length_app. lia.
  - exists [], s. split_and!; [done|constructor|by left].
Qed.

(** C26. The scheduler runs out of KV memory exactly when the free and the evictable slots do
    not suffice.  For a request of whole pages on a consistent cache: if the pool's slots plus
    the evictable size cover it, alloc_token_slots returns that many distinct slots, which
    neither the pool nor the tree holds any more, keeping the prefix of every locked request
    in the tree; otherwise it raises RuntimeError. *)
Theorem alloc_token_slots_succeeds hs s n backup :
  cache_ok hs s -> 0 <= n -> (kv_page (kv_pool s) | n) ->
  if n <=? len (kv_owned (kv_pool s)) + evictable_size_ s
  then exists locs st s', alloc_token_slots false n backup s = (Ret (locs, st), s') /\
         len locs = n /\ NoDup (locs ++ kv_owned (kv_pool s') ++ slots (abs s')) /\
         locs ++ kv_owned (kv_pool s') ++ slots (abs s') ≡ₚ kv_owned (kv_pool s) ++ slots (abs s) /\
         inv ps eagle hs (abs s') /\
         (forall h ek us vs, h ∈ hs -> path (abs s) ek (root_node s) us vs h ->
            path (abs s') ek (root_node s') us vs h)
  else exists s', alloc_token_slots false n backup s = (Raise RuntimeError, s').
Proof.
  intros Hc Hn Hpage. pose proof Hc as (HI & Hok & Hg & Hpg & Hnd).
  destruct (evict_from_tree_cache_ok hs s n Hc) as (l & s1 & E & Hev & Hstop).
  destruct (evicts_slots cfg hs s l s1 Hev HI Hok Hpg Hnd) as (Hok1 & Hsum & Hown & Hg1 & Hp1).
  destruct (evicts_sizes cfg Hps hs s l s1 Hev HI) as (Hsz & _ & Hroot).
  rewrite Hg in Hg1. rewrite <-Hp1 in Hpage.
  assert (len (kv_owned (kv_pool s1)) + evictable_size_ s1 = len (kv_owned (kv_pool s)) + evictable_size_ s) as Htot.
  { unfold len. rewrite Hown, length_app. lia. }
  assert (0 <= evictable_size_ s1) as Hpos.
  { pose proof (evicts_inv cfg hs s l s1 Hev HI) as HI1. by apply (evictable_nonneg hs). }
  destruct (kv_alloc_spec n (kv_pool s1) Hok1 Hg1 Hn Hpage) as (res & a' & Ea & Hok' & _ & _ & Hres).
  assert (forall x, alloc_token_slots false n backup s = x <->
    match res with
    | None => (Raise RuntimeError, set_pool a' s1)
    | Some locs => (Ret (locs, if backup then Some (kv_backup (kv_pool s1)) else None), set_pool a' s1)
    end = x) as Heq.
  { intros x. unfold alloc_token_slots. erewrite py_bind_Ret by exact E. rewrite bind_get.
    unfold py_lift at 1, mbind, PyM_bind. rewrite Ea. by destruct res. }
  destruct (Z.leb_spec n (len (kv_owned (kv_pool s)) + evictable_size_ s)) as [Hle|Hgt].
  - destruct res as [locs|]; [|destruct Hres as [Hlt _]; lia]. destruct Hres as (Hlen & _ & Hperm).
    eexists locs, _, (set_pool a' s1). split; [by apply Heq|].
    assert (locs ++ kv_owned a' ++ slots (abs s1) ≡ₚ kv_owned (kv_pool s) ++ slots (abs s)) as Hall.
    { rewrite (assoc_L (++)), <-Hperm, (comm (++)), Hsum, (comm (++)). done. }
    split_and!; [done| |done|by apply (evicts_inv cfg hs s l s1)|].
    + change (NoDup (locs ++ kv_owned a' ++ slots (abs s1))). by rewrite Hall, (comm (++)).
    + intros h ek us vs Hh Hp. simpl. rewrite Hroot. by apply (evicts_handle cfg hs s l s1).
  - destruct res as [locs|].
    + destruct Hres as (Hlen & _ & Hperm). exfalso. unfold len in *.
      apply Permutation_length in Hperm. rewrite length_app in Hperm. lia.
    + eexists. by apply Heq.
Qed.
End mem_alloc.

(** ** The paged allocator meets the interface *)

Lemma paged_available a : alloc_ok a -> negb (is_not_in_free_group a) = false -> available_size a = len (owned a).
Proof.
  intros (Hp & _) Hg%negb_false_iff. unfold available_size, owned, pending. rewrite Hg, app_nil_r.
  rewrite length_expand_pages by lia. unfold len. rewrite length_app. lia.
Qed.

#[local] Instance mem_demo_alloc : KVAllocator Alloc := paged_KVAllocator false.

Lemma demo_cache_ok : cache_ok demo_cfg [] demo2.
Proof.
  split_and!.
  - exact demo2_inv.
  - vm_compute. split_and!; try done. apply (bool_decide_eq_true_1 _). vm_compute. reflexivity.
  - reflexivity.
  - intros i m Hi Hr. rewrite demo_nodes in Hi.
    apply lookup_insert_Some in Hi as [[<- <-]|[_ Hi]]; [by destruct Hr|].
    apply lookup_singleton_Some in Hi as [<- <-]. exists [1; 2]. split; [reflexivity|].
    apply (bool_decide_eq_true_1 _). reflexivity.
  - apply (bool_decide_eq_true_1 _). vm_compute. reflexivity.
Qed.

(** The whole pool and all that can be evicted. *)
Lemma alloc_token_slots_succeeds_witness :
  exists locs st s',
    alloc_token_slots (H := list HeapEntry) demo_cfg demo_sha available_size backup_state false 16 true demo2
      = (Ret (locs, st), s') /\ len locs = 16 /\ NoDup locs.
Proof.
  pose proof (alloc_token_slots_succeeds (H := list HeapEntry) demo_cfg demo_now demo_sha
    available_size backup_state demo_ps eq_refl eq_refl paged_available [] demo2 16 true
    demo_cache_ok ltac:(lia) ltac:(by exists 8)) as Hw.
  destruct Hw as (locs & st & s' & E & Hl & Hnd & _).
  exists locs, st, s'. split; [exact E|]. split; [exact Hl|]. by apply NoDup_app in Hnd as [? _].
Defined.
