(* ===== verification/ReqPool.v ===== *)
(** * Request rows, host slots and the chunk cache

    - [ReqToTokenPool] (mem_cache/memory_pool.py): the table from a request's row to its KV
      slots and the free list of rows.  Requests are objects shared with the scheduler, so the
      pool works on a store of requests by identity.
    - [HostKVCache] (mem_cache/memory_pool_host.py): the slots of the host memory pool.
    - [ChunkCache] (mem_cache/chunk_cache.py): the prefix cache used when the radix cache is
      off, over any KV allocator.

    Theorem: rows and host slots are conserved. *)

From stdpp Require Import base tactics list gmap strings.
From Stdlib Require Import ZArith Lia.
From S2P Require Import Prelude PyStr RadixKey Allocator AllocatorProofs RadixTree.

(** ** ReqToTokenPool *)

(** The fields of a request that the pool reads and writes. *)
Record PoolReq := mkPoolReq { pool_idx : option Z; is_chunked : Z; committed_len : Z }.

Definition with_idx (o : option Z) (r : PoolReq) : PoolReq := mkPoolReq o (is_chunked r) (committed_len r).

Record ReqPool := mkReqPool {
  rp_size : Z;
  max_context_len : Z;
  rp_table : list (list Z);
  free_rows : list Z;
  reqs : gmap nat PoolReq }.

Definition set_rows (l : list Z) (m : gmap nat PoolReq) (p : ReqPool) : ReqPool :=
  mkReqPool (rp_size p) (max_context_len p) (rp_table p) l m.

(** [__init__]: row 0 is padding. *)
Definition new_ReqToTokenPool (size max_context_len : Z) (m : gmap nat PoolReq) : ReqPool :=
  mkReqPool size max_context_len
    (replicate (Z.to_nat (size + 1)) (replicate (Z.to_nat max_context_len) 0))
    (seqZ 1 size) m.

(** [write((row, slice(a, a + len(vs))), vs)] *)
Definition rp_write (row a : nat) (vs : list Z) (p : ReqPool) : ReqPool :=
  mkReqPool (rp_size p) (max_context_len p)
    (match rp_table p !! row with
     | Some r => <[row := list_inserts a vs r]> (rp_table p)
     | None => rp_table p
     end) (free_rows p) (reqs p).

Definition rp_available_size (p : ReqPool) : Z := len (free_rows p).

(** The loop that gives each request without a row the next one. *)
Fixpoint assign_rows (rids : list nat) (sel : list Z) (m : gmap nat PoolReq) :
    Outcome (gmap nat PoolReq) :=
  match rids with
  | [] => Ret m
  | r :: rids' =>
      match m !! r with
      | None => Raise AttributeError
      | Some q =>
          match pool_idx q, sel with
          | Some _, _ => assign_rows rids' sel m
          | None, v :: sel' => assign_rows rids' sel' (<[r := with_idx (Some v) q]> m)
          | None, [] => Raise IndexError
          end
      end
  end.

Definition has_row (m : gmap nat PoolReq) (r : nat) : bool :=
  match m !! r ≫= pool_idx with Some _ => true | None => false end.

Definition may_reuse (m : gmap nat PoolReq) (r : nat) : bool :=
  match m !! r with
  | Some q => (0 <? is_chunked q) || (0 <? committed_len q)
  | None => false
  end.

Definition rp_alloc (rids : list nat) : PyM ReqPool (option (list Z)) :=
  p ← py_get;
  let reusing := List.filter (has_row (reqs p)) rids in
  _ ← py_assert (forallb (may_reuse (reqs p)) reusing);
  let need_size := Z.of_nat (length rids) - Z.of_nat (length reusing) in
  if len (free_rows p) <? need_size then mret None
  else
    m ← py_lift (assign_rows rids (ztake need_size (free_rows p)) (reqs p));
    _ ← py_modify (set_rows (zdrop need_size (free_rows p)) m);
    mret (Some (omap (fun r => m !! r ≫= pool_idx) rids)).

Definition rp_free (rid : nat) : PyM ReqPool unit :=
  p ← py_get;
  match reqs p !! rid with
  | None => py_raise AttributeError
  | Some q =>
      match pool_idx q with
      | None => py_raise AssertionError
      | Some v => py_modify (set_rows (free_rows p ++ [v]) (<[rid := with_idx None q]> (reqs p)))
      end
  end.

Definition rp_clear : PyM ReqPool unit :=
  py_modify (fun p => set_rows (seqZ 1 (rp_size p)) (reqs p) p).

(** ** HostKVCache: the slots of the host pool *)

Record HostSlots := mkHostSlots { h_page_size : Z; h_size : Z; h_free : list Z }.

(** [page_num = size // page_size + 1], the size aligned up to whole pages. *)
Definition host_size (size page_size : Z) : Z := (size / page_size + 1) * page_size.

(** [__init__]: the host pool must be larger than the device pool. *)
Definition new_host (requested device_size page_size : Z) : Outcome HostSlots :=
  let size := host_size requested page_size in
  if size <=? device_size then Raise AssertionError
  else Ret (mkHostSlots page_size size (seqZ 0 size)).

Definition host_clear (h : HostSlots) : HostSlots := mkHostSlots (h_page_size h) (h_size h) (seqZ 0 (h_size h)).
Definition host_available_size (h : HostSlots) : Z := len (h_free h).

Definition host_alloc (need_size : Z) (h : HostSlots) : Outcome (option (list Z) * HostSlots) :=
  if negb (need_size mod h_page_size h =? 0) then Raise AssertionError
  else if host_available_size h <? need_size then Ret (None, h)
  else Ret (Some (ztake need_size (h_free h)),
            mkHostSlots (h_page_size h) (h_size h) (zdrop need_size (h_free h))).

Definition host_free (indices : list Z) (h : HostSlots) : Z * HostSlots :=
  (len indices, mkHostSlots (h_page_size h) (h_size h) (h_free h ++ indices)).

(** ** ChunkCache *)

Section chunk.
Context {T : Type} `{!KVAllocator T}.

Record ChunkState := mkChunkState { ck_pool : T; ck_table : list (list Z) }.

Definition chunk_match_prefix : list Z := [].
Definition chunk_insert : nat := 0.
Definition chunk_evict : Z := 0.
Definition chunk_inc_lock_ref : Z := 0.
Definition chunk_dec_lock_ref : Z := 0.
Definition chunk_protected_size : Z := 0.

(** [req_to_token[req_pool_idx, :n]] *)
Definition chunk_row (row n : nat) : PyM ChunkState (list Z) := fun s =>
  match ck_table s !! row with Some r => (Ret (take n r), s) | None => (Raise IndexError, s) end.

Definition chunk_cache_finished_req (strip_thinking : bool) (req : Req) : PyM ChunkState Req :=
  _ ← py_assert (negb (kv_committed_freed req));
  let committed := if strip_thinking && (0 <? reasoning_tokens req)%nat
                   then Nat.min (kv_committed_len req) (length (origin_input_ids req))
                   else kv_committed_len req in
  kv_indices ← chunk_row (req_pool_idx req) committed;
  _ ← py_modify (fun s => mkChunkState (kv_free kv_indices (ck_pool s)) (ck_table s));
  mret (mark_committed_freed req).

Definition chunk_cache_unfinished_req (req : Req) : PyM ChunkState Req :=
  kv_indices ← chunk_row (req_pool_idx req) (length (fill_ids req));
  mret (mkReq (req_pool_idx req) (origin_input_ids req) (output_ids req) (fill_ids req)
          (req_extra_key req) (req_priority req) (cache_protected_len req) (last_node req)
          kv_indices (kv_committed_len req) (kv_committed_freed req) (reasoning_tokens req)).
End chunk.

(** ** Conservation of rows *)

(** The rows that requests hold. *)
Definition rows_used (m : gmap nat PoolReq) : list Z := omap (fun kr => pool_idx kr.2) (map_to_list m).

Definition rows_ok (p : ReqPool) : Prop := rows_used (reqs p) ++ free_rows p ≡ₚ seqZ 1 (rp_size p).

Lemma omap_perm {A B} (f : A -> option B) (l l' : list A) : l ≡ₚ l' -> omap f l ≡ₚ omap f l'.
Proof.
  induction 1 as [|x l l' _ IH|x y l|l1 l2 l3 _ IH1 _ IH2]; simpl.
  - done.
  - destruct (f x); [by constructor|done].
  - destruct (f x), (f y); try done. constructor.
  - by etrans.
Qed.

Lemma rows_used_insert m r q :
  rows_used (<[r := q]> m) ≡ₚ option_list (pool_idx q) ++ rows_used (delete r m).
Proof.
  unfold rows_used. rewrite <-insert_delete_eq.
  rewrite (omap_perm _ _ _ (map_to_list_insert (delete r m) r q (lookup_delete_eq _ _))).
  simpl. by destruct (pool_idx q).
Qed.

Lemma rows_used_delete m r q :
  m !! r = Some q -> rows_used m ≡ₚ option_list (pool_idx q) ++ rows_used (delete r m).
Proof. intros Hr. rewrite <-(rows_used_insert m r q). by rewrite insert_id. Qed.

Lemma not_elem_of_Forall {A} (x : A) l : x ∉ l -> Forall (fun y => x <> y) l.
Proof. intros Hx. apply Forall_forall. by intros y Hy ->. Qed.

Definition lacks_row (m : gmap nat PoolReq) (r : nat) : bool := negb (has_row m r).

Lemma has_row_insert_ne m r r' q : r <> r' -> has_row (<[r := q]> m) r' = has_row m r'.
Proof. intros Hne. unfold has_row. by rewrite lookup_insert_ne. Qed.

Lemma filter_row_insert m r q rids :
  r ∉ rids -> List.filter (lacks_row (<[r := q]> m)) rids = List.filter (lacks_row m) rids.
Proof.
  intros Hr. apply not_elem_of_Forall in Hr. induction Hr as [|x l Hx _ IH]; [done|]. simpl. rewrite IH.
  assert (lacks_row (<[r := q]> m) x = lacks_row m x) as ->; [|done].
  unfold lacks_row. by rewrite has_row_insert_ne.
Qed.

(** Each request without a row gets one of the selected rows. *)
Lemma assign_rows_ok rids sel m :
  NoDup rids -> Forall (fun r => is_Some (m !! r)) rids ->
  length sel = length (List.filter (lacks_row m) rids) ->
  exists m', assign_rows rids sel m = Ret m' /\ rows_used m' ≡ₚ sel ++ rows_used m /\
    Forall (fun r => has_row m' r = true) rids /\
    (forall r, r ∉ rids -> m' !! r = m !! r) /\
    (forall r v, m !! r ≫= pool_idx = Some v -> m' !! r ≫= pool_idx = Some v).
Proof.
  intros Hnd. revert sel m. induction Hnd as [|r rids Hr Hnd IH]; intros sel m Hin Hlen.
  { simpl in Hlen. destruct sel; [|done]. exists m. by split_and!. }
  apply Forall_cons in Hin as [[q Hq] Hin]. cbn [assign_rows]. rewrite Hq.
  simpl in Hlen. unfold lacks_row at 1, has_row in Hlen. rewrite Hq in Hlen. simpl in Hlen.
  destruct (pool_idx q) as [v|] eqn:Hv.
  - destruct (IH sel m Hin Hlen) as (m' & E & Hp & Hall & Hother & Hkeep).
    exists m'. split_and!; [done|done| | |done].
    + constructor; [|done]. unfold has_row. erewrite (Hkeep r v); [done|]. by rewrite Hq.
    + intros x Hx. apply Hother. set_solver.
  - simpl in Hlen. destruct sel as [|v sel]; [done|]. injection Hlen as Hlen.
    destruct (IH sel (<[r := with_idx (Some v) q]> m)) as (m' & E & Hp & Hall & Hother & Hkeep).
    + eapply Forall_impl; [exact Hin|]. intros x Hx. destruct (decide (x = r)) as [->|].
      * rewrite lookup_insert_eq. by eexists.
      * by rewrite lookup_insert_ne.
    + by rewrite filter_row_insert.
    + exists m'. split_and!; [done| | | |].
      * rewrite Hp, rows_used_insert. simpl. rewrite (rows_used_delete m r q Hq), Hv. simpl.
        by rewrite <-Permutation_middle.
      * constructor; [|done]. unfold has_row. rewrite (Hkeep r v); [done|]. by rewrite lookup_insert_eq.
      * intros x Hx. rewrite Hother by set_solver. rewrite lookup_insert_ne; [done|]. set_solver.
      * intros x w Hw. apply Hkeep. destruct (decide (x = r)) as [->|].
        -- rewrite Hq in Hw. simpl in Hw. congruence.
        -- by rewrite lookup_insert_ne.
Qed.

Lemma filter_lacks_length m rids :
  Z.of_nat (length (List.filter (lacks_row m) rids)) =
  Z.of_nat (length rids) - Z.of_nat (length (List.filter (has_row m) rids)).
Proof.
  unfold lacks_row. induction rids as [|r l IH]; [done|]. simpl. destruct (has_row m r); simpl; lia.
Qed.

Lemma rp_alloc_ok rids p :
  rows_ok p -> NoDup rids -> Forall (fun r => is_Some (reqs p !! r)) rids ->
  forallb (may_reuse (reqs p)) (List.filter (has_row (reqs p)) rids) = true ->
  let need := Z.of_nat (length rids) - Z.of_nat (length (List.filter (has_row (reqs p)) rids)) in
  exists o p', rp_alloc rids p = (Ret o, p') /\ rows_ok p' /\
    (rp_size p' = rp_size p /\ max_context_len p' = max_context_len p /\ rp_table p' = rp_table p) /\
    match o with
    | None => len (free_rows p) < need /\ p' = p
    | Some rows => need <= len (free_rows p) /\ length rows = length rids /\
        Forall2 (fun r v => reqs p' !! r ≫= pool_idx = Some v) rids rows /\
        (forall r v, reqs p !! r ≫= pool_idx = Some v -> reqs p' !! r ≫= pool_idx = Some v) /\
        (forall r, r ∉ rids -> reqs p' !! r = reqs p !! r)
    end.
Proof.
  intros Hok Hnd Hin Hreuse need. unfold rp_alloc. erewrite py_bind_Ret by done.
  rewrite Hreuse. erewrite py_bind_Ret by done. fold need.
  assert (0 <= need) as Hn by (unfold need; pose proof (filter_lacks_length (reqs p) rids); lia).
  destruct (Z.ltb_spec (len (free_rows p)) need) as [Hlt|Hge].
  { exists None, p. by split_and!. }
  destruct (assign_rows_ok rids (ztake need (free_rows p)) (reqs p) Hnd Hin) as (m & E & Hp & Hall & Hother & Hkeep).
  { pose proof (filter_lacks_length (reqs p) rids). unfold ztake, len in *. rewrite length_take.
    unfold need in *. lia. }
  erewrite py_bind_Ret by (unfold py_lift; by rewrite E). erewrite py_bind_Ret by done.
  assert (Forall2 (fun r v => m !! r ≫= pool_idx = Some v) rids (omap (fun r => m !! r ≫= pool_idx) rids)) as Hf.
  { clear -Hall. induction Hall as [|r l Hr _ IH]; [constructor|]. unfold has_row in Hr. simpl.
    destruct (m !! r ≫= pool_idx) as [v|] eqn:Ev; [|done]. by constructor. }
  eexists (Some _), _. split; [reflexivity|]. split_and!; [|done..|done| |exact Hf|exact Hkeep|exact Hother].
  - unfold rows_ok in *. cbn [set_rows reqs free_rows rp_size]. rewrite <-Hok, Hp. unfold ztake, zdrop.
    rewrite <-(take_drop (Z.to_nat need) (free_rows p)) at 3. solve_Permutation.
  - symmetry. by eapply Forall2_length.
Qed.

(** Rows through the life of the requests: they arrive without a row, are scheduled, change
    their other fields, give the row back and leave. *)
Inductive row_step : ReqPool -> ReqPool -> Prop :=
  | row_alloc rids o p p' :
      NoDup rids -> Forall (fun r => is_Some (reqs p !! r)) rids ->
      rp_alloc rids p = (o, p') -> row_step p p'
  | row_free rid o p p' : rp_free rid p = (o, p') -> row_step p p'
  | row_arrive r q p :
      reqs p !! r = None -> pool_idx q = None ->
      row_step p (set_rows (free_rows p) (<[r := q]> (reqs p)) p)
  | row_update r q q' p :
      reqs p !! r = Some q -> pool_idx q' = pool_idx q ->
      row_step p (set_rows (free_rows p) (<[r := q']> (reqs p)) p)
  | row_leave r q p :
      reqs p !! r = Some q -> pool_idx q = None ->
      row_step p (set_rows (free_rows p) (delete r (reqs p)) p)
  | row_write row a vs p : row_step p (rp_write row a vs p).

Lemma rp_free_ok rid o p p' : rows_ok p -> rp_free rid p = (o, p') -> rows_ok p' /\ rp_size p' = rp_size p.
Proof.
  unfold rp_free, rows_ok. intros Hok. erewrite py_bind_Ret by done.
  destruct (reqs p !! rid) as [q|] eqn:Hq; [|by intros [= _ <-]].
  destruct (pool_idx q) as [v|] eqn:Hv; [|by intros [= _ <-]].
  intros [= _ <-]. split; [|done]. cbn [set_rows reqs free_rows rp_size].
  rewrite <-Hok, rows_used_insert, (rows_used_delete _ _ _ Hq), Hv. simpl. solve_Permutation.
Qed.

Lemma row_step_ok p p' : row_step p p' -> rows_ok p -> rows_ok p' /\ rp_size p' = rp_size p.
Proof.
  intros Hst Hok. destruct Hst as [rids o p p' Hnd Hin E|rid o p p' E|r q p Hr Hq|r q q' p Hr Hq|r q p Hr Hq|row a vs p].
  - destruct (forallb (may_reuse (reqs p)) (List.filter (has_row (reqs p)) rids)) eqn:Hre.
    + destruct (rp_alloc_ok rids p Hok Hnd Hin Hre) as (o' & p1 & E' & Hok' & (Hs & _) & _).
      rewrite E in E'. by injection E' as _ <-.
    + unfold rp_alloc in E. erewrite py_bind_Ret in E by done. rewrite Hre in E. by injection E as _ <-.
  - by eapply rp_free_ok.
  - split; [|done]. unfold rows_ok in *. cbn. rewrite rows_used_insert, Hq, delete_id by done. done.
  - split; [|done]. unfold rows_ok in *. cbn. rewrite rows_used_insert, Hq, <-(rows_used_delete _ _ _ Hr). done.
  - split; [|done]. unfold rows_ok in *. cbn. rewrite <-Hok, (rows_used_delete _ _ _ Hr), Hq. done.
  - done.
Qed.

Lemma row_holder m r v : m !! r ≫= pool_idx = Some v -> exists l, rows_used m ≡ₚ v :: l /\
  forall r', r' <> r -> forall v', m !! r' ≫= pool_idx = Some v' -> v' ∈ l.
Proof.
  intros Hr. destruct (m !! r) as [q|] eqn:Hq; [|done]. simpl in Hr.
  exists (rows_used (delete r m)). split; [by rewrite (rows_used_delete _ _ _ Hq), Hr|].
  intros r' Hne v' Hr'. destruct (m !! r') as [q'|] eqn:Hq'; [|done]. simpl in Hr'.
  unfold rows_used. apply list_elem_of_omap. exists (r', q'). split; [|done].
  apply elem_of_map_to_list. by rewrite lookup_delete_ne.
Qed.

(** Host slots held by the caches and the free list. *)
Inductive host_step : list Z * HostSlots -> list Z * HostSlots -> Prop :=
  | host_take held n o h h' :
      0 <= n -> host_alloc n h = Ret (o, h') -> host_step (held, h) (default [] o ++ held, h')
  | host_give held idx held' n h h' :
      held ≡ₚ idx ++ held' -> host_free idx h = (n, h') -> host_step (held, h) (held', h').

Lemma host_step_ok st st' :
  host_step st st' -> st'.1 ++ h_free st'.2 ≡ₚ st.1 ++ h_free st.2.
Proof.
  intros [held n o h h' Hn E|held idx held' n h h' Hp E]; simpl.
  - unfold host_alloc in E. destruct (negb _); [done|].
    destruct (host_available_size h <? n); injection E as <- <-; simpl; [done|].
    unfold ztake, zdrop. rewrite <-(take_drop (Z.to_nat n) (h_free h)) at 3. solve_Permutation.
  - injection E as _ <-. simpl. rewrite Hp. solve_Permutation.
Qed.

(** Request rows and host slots are conserved.  Through any sequence of scheduling steps
    from an empty table, the rows held by requests and the free rows are exactly 1 to size:
    two requests never share a row, no request gets the padding row 0, and a batch is refused
    exactly when it needs more new rows than are free; a request that already has a row keeps
    it.  Likewise every host slot is either held or free, once, whatever is allocated and
    freed. *)
Theorem rows_and_host_slots_conserved (size ctx : Z) (p : ReqPool) :
  rtc row_step (new_ReqToTokenPool size ctx ∅) p ->
  (forall r v, reqs p !! r ≫= pool_idx = Some v -> 1 <= v <= size) /\
  (forall r r' v, r <> r' -> reqs p !! r ≫= pool_idx = Some v -> reqs p !! r' ≫= pool_idx <> Some v) /\
  (forall rids, NoDup rids -> Forall (fun r => is_Some (reqs p !! r)) rids ->
     forallb (may_reuse (reqs p)) (List.filter (has_row (reqs p)) rids) = true ->
     let need := Z.of_nat (length rids) - Z.of_nat (length (List.filter (has_row (reqs p)) rids)) in
     exists o p', rp_alloc rids p = (Ret o, p') /\
       match o with
       | None => len (free_rows p) < need /\ p' = p
       | Some rows => need <= len (free_rows p) /\
           Forall2 (fun r v => reqs p' !! r ≫= pool_idx = Some v) rids rows /\
           (forall r v, reqs p !! r ≫= pool_idx = Some v -> reqs p' !! r ≫= pool_idx = Some v)
       end) /\
  (forall requested device page h0 held h, new_host requested device page = Ret h0 ->
     rtc host_step ([], h0) (held, h) -> held ++ h_free h ≡ₚ seqZ 0 (host_size requested page)).
Proof.
  intros Hst.
  assert (rows_ok p /\ rp_size p = size) as [Hok Hsz].
  { assert (rows_ok (new_ReqToTokenPool size ctx ∅)) as H0.
    { unfold rows_ok, rows_used. cbn. by rewrite map_to_list_empty. }
    change size with (rp_size (new_ReqToTokenPool size ctx ∅)).
    induction Hst as [|p1 p2 p3 Hs _ IH]; [done|]. destruct (row_step_ok _ _ Hs H0) as [H1 <-]. auto. }
  unfold rows_ok in Hok. rewrite Hsz in Hok. split_and!.
  - intros r v Hr. destruct (row_holder _ _ _ Hr) as (l & Hl & _).
    assert (v ∈ seqZ 1 size) as Hv by (rewrite <-Hok, Hl; left). apply elem_of_seqZ in Hv. lia.
  - intros r r' v Hne Hr Hr'. destruct (row_holder _ _ _ Hr) as (l & Hl & Hother).
    assert (NoDup (rows_used (reqs p) ++ free_rows p)) as Hnd by (rewrite Hok; apply NoDup_seqZ).
    rewrite Hl in Hnd. apply NoDup_cons in Hnd as [Hv _]. apply Hv, elem_of_app. left.
    by apply (Hother r'); [congruence|].
  - intros rids Hnd Hin Hre need.
    destruct (rp_alloc_ok rids p) as (o & p' & E & _ & _ & Ho); [unfold rows_ok; by rewrite Hsz|done..|].
    exists o, p'. split; [done|]. destruct o; [|done]. by destruct Ho as (? & _ & ? & ? & _).
  - intros requested device page h0 held h Hnew Hh. unfold new_host in Hnew.
    destruct (_ <=? device); [done|]. injection Hnew as <-.
    change (seqZ 0 (host_size requested page)) with
      (([] : list Z, mkHostSlots page (host_size requested page) (seqZ 0 (host_size requested page))).1 ++
       h_free ([] : list Z, mkHostSlots page (host_size requested page) (seqZ 0 (host_size requested page))).2).
    change (held ++ h_free h) with ((held, h).1 ++ h_free (held, h).2).
    induction Hh as [|st1 st2 st3 Hs _ IH]; [done|]. rewrite IH. by apply host_step_ok.
Qed.

Definition demo_rows : ReqPool :=
  mkReqPool 2 4 (replicate 3 (replicate 4 0)) [2] {[7%nat := mkPoolReq (Some 1) 1 0]}.

Lemma demo_rows_reachable : rtc row_step (new_ReqToTokenPool 2 4 ∅) demo_rows.
Proof.
  eapply rtc_l; [apply (row_arrive 7 (mkPoolReq None 1 0)); reflexivity|].
  eapply rtc_l; [|apply rtc_refl].
  eapply (row_alloc [7%nat]); [apply NoDup_singleton| |vm_compute; reflexivity].
  repeat constructor. vm_compute. by eexists.
Qed.

Lemma rows_and_host_slots_conserved_witness :
  1 <= 1 <= 2 /\
  (exists o p', rp_alloc [7%nat] demo_rows = (Ret o, p')).
Proof.
  destruct (rows_and_host_slots_conserved 2 4 demo_rows demo_rows_reachable) as (H1 & _ & H3 & _).
  split; [apply (H1 7%nat 1); reflexivity|].
  destruct (H3 [7%nat]) as (o & p' & E & _).
  - apply NoDup_singleton.
  - repeat constructor. by eexists.
  - reflexivity.
  - exists o, p'. exact E.
Defined.
