(* ===== verification/MemBatch.v ===== *)
(** * KV memory of request batches (mem_cache/common.py)

    Before a forward pass the scheduler gives every request of a batch a row of
    [req_to_token] and KV slots for its new tokens, evicting from the prefix cache when the
    pool is short; a request that ends gives its row and its slots back.  The state is the
    radix cache with its pool and table together with the row allocator over the same table. *)

From stdpp Require Import base tactics list gmap strings.
From Stdlib Require Import ZArith Lia.
From S2P Require Import Prelude PyStr RadixKey TreeNode EvictPolicy Allocator AllocatorProofs BatchAlloc RowTable KVEvents.
From S2P Require Import RadixTree MemAlloc ReqPool.

(** The cache and the row allocator; the table is shared, and kept in the cache. *)
Record Mem (T : Type) := mkMem { mem_cache : Cache T; mem_rows : ReqPool }.
Arguments mkMem {T}.
Arguments mem_cache {T}.
Arguments mem_rows {T}.

(** The fields of an extend batch that its allocation reads. *)
Record ExtendBatch := mkExtendBatch {
  eb_rids : list nat;             (* the requests *)
  eb_prefix : list (list Z);      (* r.prefix_indices *)
  eb_prefix_lens : list Z;
  eb_extend_lens : list Z;
  eb_seq_lens : list Z;
  eb_extend_num_tokens : Z }.

Record DecodeBatch := mkDecodeBatch {
  db_req_pool_indices : list Z;
  db_seq_lens : list Z;
  db_encoder_lens : option (list Z) }.   (* for an encoder-decoder model *)

(** A request as [release_kv_cache] sees it: the cache's fields and its own. *)
Record KVReq := mkKVReq {
  kr_rid : nat;
  kr_req : Req;
  kv_allocated_len : nat;
  kv_overallocated_freed : bool;
  skip_radix_cache_insert : bool }.

Section mem_batch.
Context {T : Type} `{!KVAllocator T} `{!BatchKV T} {H : Type} `{!HeapQ H}.
Context (cfg : Config) (now : nat -> Z) (sha256 : list Z -> string).
(** The backend's choice of writers and the order its program instances run in. *)
Context (support_triton : bool) (order : list nat) {B : Type} (kv_backup : T -> B).
Local Abbreviation M := (PyM (Mem T)).

Definition lift_cache {A} (m : PyM (Cache T) A) : M A := fun s =>
  let '(r, c) := m (mem_cache s) in (r, mkMem c (mem_rows s)).

(** The row allocator with the shared table in it. *)
Definition rows_view (s : Mem T) : ReqPool :=
  mkReqPool (rp_size (mem_rows s)) (max_context_len (mem_rows s)) (req_to_token (mem_cache s))
    (free_rows (mem_rows s)) (reqs (mem_rows s)).
Definition lift_rows {A} (m : PyM ReqPool A) : M A := fun s =>
  let '(r, p) := m (rows_view s) in (r, mkMem (set_req_to_token (rp_table p) (mem_cache s)) p).

Definition on_table (f : Table -> Outcome Table) : M unit := fun s =>
  match f (req_to_token (mem_cache s)) with
  | Ret t => (Ret tt, mkMem (set_req_to_token t (mem_cache s)) (mem_rows s))
  | Raise e => (Raise e, s)
  | OutOfFuel => (OutOfFuel, s)
  end.

(** ** Slots for a batch *)

(** A result of the allocator: the slots, or the error of [None]. *)
Definition take_slots {A} (r : Outcome (option (list Z) * T)) (k : list Z -> PyM (Cache T) A) : PyM (Cache T) A :=
  '(out_cache_loc, pool) ← py_lift r;
  _ ← py_modify (set_pool pool);
  match out_cache_loc with
  | None => py_raise RuntimeError
  | Some locs => k locs
  end.

Definition alloc_paged_token_slots_extend (prefix_lens seq_lens last_loc : list Z) (extend_num_tokens : Z)
    (backup_state : bool) : PyM (Cache T) (list Z * option B) :=
  s ← py_get;
  let num_tokens := extend_num_tokens + len seq_lens * kv_page (kv_pool s) in
  _ ← evict_from_tree_cache (H := H) cfg sha256 kv_available false num_tokens;
  s ← py_get;
  let state := if backup_state then Some (kv_backup (kv_pool s)) else None in
  take_slots (kv_alloc_extend prefix_lens seq_lens last_loc extend_num_tokens (kv_pool s))
    (fun locs => mret (locs, state)).

Definition alloc_paged_token_slots_decode (seq_lens last_loc : list Z) : PyM (Cache T) (list Z) :=
  s ← py_get;
  let num_tokens := len seq_lens * kv_page (kv_pool s) in
  _ ← evict_from_tree_cache (H := H) cfg sha256 kv_available false num_tokens;
  s ← py_get;
  take_slots (kv_alloc_decode seq_lens last_loc (kv_pool s)) (fun locs => mret locs).

(** ** Rows *)

Definition alloc_req_slots (rids : list nat) : M (list Z) :=
  r ← lift_rows (rp_alloc rids);
  match r with
  | None => py_raise RuntimeError
  | Some req_pool_indices => mret req_pool_indices
  end.

(** ** Extend batches *)

(** [t[-1:] if len(t) > 0 else [-1]], concatenated *)
Definition last_of (t : list Z) : Z := default (-1) (last t).

Definition alloc_for_extend (b : ExtendBatch) : M (list Z * list Z) :=
  req_pool_indices ← alloc_req_slots (eb_rids b);
  out ← (if (cfg_page_size cfg =? 1)%nat
         then lift_cache (alloc_token_slots (H := H) cfg sha256 kv_available kv_backup false (eb_extend_num_tokens b) false)
         else lift_cache (alloc_paged_token_slots_extend (eb_prefix_lens b) (eb_seq_lens b)
                (last_of <$> eb_prefix b) (eb_extend_num_tokens b) false));
  let out_cache_loc := out.1 in
  s ← py_get;
  _ ← on_table (write_cache_indices support_triton order (Z.to_nat (max_context_len (mem_rows s))) out_cache_loc
        req_pool_indices (eb_prefix_lens b) (eb_seq_lens b) (eb_extend_lens b) (eb_prefix b));
  mret (out_cache_loc, req_pool_indices).

(** ** Decode batches *)

(** [req_to_token[idx, cols]] and [req_to_token[idx, cols] = vs] on index tensors *)
Fixpoint gather (idxs cols : list Z) (t : Table) : Outcome (list Z) :=
  match idxs, cols with
  | i :: idxs, c :: cols => v ← read_cell i c t; vs ← gather idxs cols t; Ret (v :: vs)
  | [], [] => Ret []
  | _, _ => Raise IndexError
  end.
Fixpoint scatter (idxs cols vs : list Z) (t : Table) : Outcome Table :=
  match idxs, cols, vs with
  | i :: idxs, c :: cols, v :: vs => t ← write_cell i c v t; scatter idxs cols vs t
  | [], [], [] => Ret t
  | _, _, _ => Raise RuntimeError
  end.

Definition alloc_for_decode (b : DecodeBatch) (token_per_req : Z) : M (list Z) :=
  let bs := len (db_seq_lens b) in
  out_cache_loc ←
    (if (cfg_page_size cfg =? 1)%nat
     then r ← lift_cache (alloc_token_slots (H := H) cfg sha256 kv_available kv_backup false (bs * token_per_req) false); mret r.1
     else
       s ← py_get;
       last_loc ← py_lift (gather (db_req_pool_indices b) ((fun n => n - 1) <$> db_seq_lens b) (req_to_token (mem_cache s)));
       lift_cache (alloc_paged_token_slots_decode ((fun n => n + token_per_req) <$> db_seq_lens b) last_loc));
  let locs := match db_encoder_lens b with
              | Some enc => zip_with Z.add enc (db_seq_lens b)
              | None => db_seq_lens b
              end in
  _ ← on_table (scatter (db_req_pool_indices b) locs out_cache_loc);
  mret out_cache_loc.

(** ** The end of a request *)

Definition with_row (row : nat) (r : Req) : Req :=
  mkReq row (origin_input_ids r) (output_ids r) (fill_ids r) (req_extra_key r) (req_priority r) (cache_protected_len r)
    (last_node r) (prefix_indices r) (kv_committed_len r) (kv_committed_freed r) (reasoning_tokens r).

Definition set_kv_req (r : Req) (k : KVReq) : KVReq :=
  mkKVReq (kr_rid k) r (kv_allocated_len k) (kv_overallocated_freed k) (skip_radix_cache_insert k).

Definition pop_overallocated_kv_cache (k : KVReq) : M (nat * nat * KVReq) :=
  _ ← py_assert (negb (kv_overallocated_freed k));
  mret (_cache_commit_len cfg (kr_req k), kv_allocated_len k,
        mkKVReq (kr_rid k) (kr_req k) (kv_allocated_len k) true (skip_radix_cache_insert k)).

(** [ceil_align(x, y)] *)
Definition ceil_align (x y : Z) : Z := ceil_div x y * y.

(** [release_kv_cache] for a radix cache over a plain row pool; [spec_algo]: whether there
    is a speculative algorithm.  A radix cache does not support Mamba states. *)
Definition release_kv_cache (spec_algo : bool) (k : KVReq) (is_insert : bool) : M KVReq :=
  s ← py_get;
  match reqs (mem_rows s) !! kr_rid k ≫= pool_idx with
  | None => py_raise AssertionError
  | Some row =>
      let k := set_kv_req (with_row (Z.to_nat row) (kr_req k)) k in
      r ← lift_cache (cache_finished_req cfg now sha256 (kr_req k) (is_insert && negb (skip_radix_cache_insert k)));
      '(start_p, end_p, k) ← pop_overallocated_kv_cache (set_kv_req r k);
      _ ← (if negb spec_algo && negb (strip_thinking_cache cfg) then py_assert (start_p =? end_p)%nat else mret tt);
      let start_p := if (1 <? cfg_page_size cfg)%nat
                     then Z.to_nat (ceil_align (Z.of_nat start_p) (Z.of_nat (cfg_page_size cfg))) else start_p in
      _ ← (if (start_p <? end_p)%nat then
             lift_cache (kv_indices ← row_prefix (Z.to_nat row) end_p; kv_release (drop start_p kv_indices))
           else mret tt);
      _ ← lift_rows (rp_free (kr_rid k));
      mret k
  end.
End mem_batch.
