(* ===== verification/LiveSet.v ===== *)
(** * The requests in flight and the KV slots they own

    Every request in flight holds a node of the radix tree, whose slots its first tokens use,
    and pages of its own for the others.  The invariant [live] says that the slots of the
    tree, of the pool and of all requests are distinct; it is kept by allocating a batch's
    slots, and by caching an unfinished or a finished request. *)

From stdpp Require Import base tactics list gmap strings.
From Stdlib Require Import ZArith Lia.
From S2P Require Import Prelude PyStr RadixKey TreeNode EvictPolicy Allocator AllocatorProofs BatchAlloc RowTable KVEvents.
From S2P Require Import RadixTree RadixInv RadixPaths RadixSlots RadixWalk RadixProofs RadixLocks RadixEvict RadixClaims.
From S2P Require Import Lifecycle MemAlloc ReqPool MemBatch.

(** ** Growing the pages of a request *)

Section grow.
Context (ps : nat) (Hps : (0 < ps)%nat).
Local Abbreviation pg := (Z.of_nat ps).

Lemma ceil_div_unique n c : c * pg - pg < n <= c * pg -> ceil_div n pg = c.
Proof. intros Hn. pose proof (ceil_div_bounds n pg ltac:(lia)). nia. Qed.

Lemma row_pages_count row p n G :
  row_pages ps row p n G -> aligned ps p -> (p <= n)%nat -> ceil_div (Z.of_nat n) pg = Z.of_nat (p / ps) + len G.
Proof.
  intros [_ Hlen] Hp Hle. apply ceil_div_unique. unfold len. pose proof (aligned_floor ps p Hps Hp). nia.
Qed.

(** The slots after the last token of the row, up to the end of its page. *)
Lemma page_rest vals p G :
  row_pages ps vals p (length vals) G -> aligned ps p -> (p <= length vals)%nat ->
  (fun o => last_of vals + 1 + o) <$> seqZ 0 (ceil_div (len vals) pg * pg - len vals) = drop (length vals - p) (expand_pages pg G).
Proof.
  intros Hrow Hp Hle. pose proof (row_pages_count _ _ _ _ Hrow Hp Hle) as Hc. destruct Hrow as [Hrow Hlen].
  set (n := length vals) in *. set (m := (n - p)%nat) in *. pose proof (aligned_floor ps p Hps Hp) as Hfl.
  assert (ceil_div (len vals) pg * pg - len vals = len G * pg - Z.of_nat m) as ->.
  { unfold len at 1 3. fold n. rewrite Hc. unfold len. nia. }
  rewrite expand_pages_eq by lia. set (f := fun o => nthZ G (o / pg) * pg + o mod pg).
  rewrite take_ge in Hrow by done.
  apply list_eq. intros k. destruct (decide (Z.of_nat k < len G * pg - Z.of_nat m)) as [Hk|Hk].
  2: { rewrite !lookup_ge_None_2; [done| |]; rewrite ?length_drop, length_fmap, length_seqZ; lia. }
  rewrite list_lookup_fmap, lookup_seqZ_lt, lookup_drop, list_lookup_fmap, lookup_seqZ_lt by lia. cbn. f_equal.
  assert (0 < m)%nat as Hm.
  { destruct (decide (m = 0)%nat) as [E0|]; [|lia]. rewrite E0 in Hlen, Hk. unfold len in Hk.
    assert (length G = 0)%nat as EG by nia. rewrite EG in Hk. lia. }
  assert (last_of vals = f (Z.of_nat m - 1)) as ->.
  { unfold last_of. rewrite last_lookup. fold n. assert (vals !! pred n = drop p vals !! pred m) as ->.
    { rewrite lookup_drop. f_equal. lia. }
    rewrite Hrow, lookup_take_lt by lia. rewrite expand_pages_eq by lia.
    rewrite list_lookup_fmap, lookup_seqZ_lt by (unfold len in *; nia). cbn. unfold f. do 2 f_equal; [f_equal; f_equal|]; lia. }
  unfold f. rewrite !Z.add_0_l.
  assert ((Z.of_nat m - 1) / pg = len G - 1) as E1 by (symmetry; apply (Z.div_unique _ _ _ (Z.of_nat m - 1 - (len G - 1) * pg)); unfold len in *; nia).
  assert (Z.of_nat (m + k) / pg = len G - 1) as E2 by (symmetry; apply (Z.div_unique _ _ _ (Z.of_nat (m + k) - (len G - 1) * pg)); unfold len in *; nia).
  pose proof (Z.div_mod (Z.of_nat m - 1) pg ltac:(lia)). pose proof (Z.div_mod (Z.of_nat (m + k)) pg ltac:(lia)).
  rewrite E1, E2 in *. lia.
Qed.

(** A request that gets a share of pages for [k] more tokens. *)
Lemma row_pages_grow vals p G share (k : nat) :
  row_pages ps vals p (length vals) G -> aligned ps p -> (p <= length vals)%nat ->
  len share = ceil_div (len vals + Z.of_nat k) pg - ceil_div (len vals) pg ->
  let out := req_slots pg (len vals) (len vals + Z.of_nat k) (last_of vals) share in
  length out = k /\ row_pages ps (vals ++ out) p (length vals + k) (G ++ share).
Proof.
  intros Hrow Hp Hle Hs out. pose proof (row_pages_count _ _ _ _ Hrow Hp Hle) as Hc. change (Z.of_nat (length vals)) with (len vals) in Hc.
  pose proof (page_rest _ _ _ Hrow Hp Hle) as Hr. pose proof (aligned_floor ps p Hps Hp) as Hfl.
  pose proof (ceil_div_bounds (len vals + Z.of_nat k) pg ltac:(lia)) as Hb. destruct Hrow as [Hrow Hlen].
  set (m := (length vals - p)%nat) in *.
  assert (out = take k (drop m (expand_pages pg G) ++ expand_pages pg share)) as Eo.
  { unfold out, req_slots, ztake. rewrite Hr. f_equal. lia. }
  assert (m + k <= length (G ++ share) * ps < m + k + ps)%nat as Hlen2.
  { rewrite length_app. unfold len in *. nia. }
  rewrite length_app in Hlen2.
  assert (length out = k) as Hk.
  { rewrite Eo, length_take, length_app, length_drop, !length_expand. lia. }
  split; [done|]. split.
  - rewrite take_ge by (rewrite length_app; lia). rewrite drop_app_le by lia. rewrite take_ge in Hrow by done.
    rewrite Hrow, Eo, expand_pages_app. replace (length vals + k - p)%nat with (m + k)%nat by lia.
    rewrite <-(take_drop m (expand_pages pg G)) at 3. rewrite <-(assoc_L (++)).
    rewrite (take_app_ge (take m (expand_pages pg G))) by (rewrite length_take, length_expand; lia). f_equal. f_equal. rewrite length_take, length_expand. lia.
  - rewrite length_app. lia.
Qed.
End grow.

(** ** Requests in flight *)

Record Active := mkActive {
  ac_rid : nat;             (* the request *)
  ac_ek : option string;    (* its cache namespace *)
  ac_ids : list Z;          (* the tokens that have slots *)
  ac_vals : list Z;         (* their slots *)
  ac_node : nat;            (* the node it holds *)
  ac_prot : nat;            (* the tokens that use the node's slots *)
  ac_pages : list Z }.      (* its own pages, for the other tokens *)

Section live.
Context {T : Type} `{!KVAllocator T} `{!KVPartial T} `{!BatchKV T} {H : Type} `{!HeapQ H}.
Context (cfg : Config) (now : nat -> Z) (sha256 : list Z -> string).
Local Abbreviation ps := (cfg_page_size cfg).
Local Abbreviation pg := (Z.of_nat (cfg_page_size cfg)).
Context (Hps : (0 < ps)%nat) (Hevents : enable_kv_cache_events cfg = false) (Hd : disable cfg = false).
Context (Heagle : is_eagle cfg = false).
Implicit Types (c : Cache T) (acts : list Active).

Definition pages_of acts : list Z := concat (ac_pages <$> acts).
(** All KV slots of the system. *)
Definition all_slots acts c : list Z := slots (abs c) ++ kv_owned (kv_pool c) ++ expand_pages pg (pages_of acts).

Record act_ok c (x : Active) : Prop := mkActOk {
  ao_prot : aligned ps (ac_prot x) /\ (ac_prot x <= length (ac_vals x))%nat /\ length (ac_vals x) = length (ac_ids x);
  ao_path : path (abs c) (ac_ek x) (root_node c) (take (ac_prot x) (units (mkRadixKey (ac_ids x) (ac_ek x) false)))
              (take (ac_prot x) (ac_vals x)) (ac_node x);
  ao_pages : row_pages ps (ac_vals x) (ac_prot x) (length (ac_vals x)) (ac_pages x) }.

Record live acts c : Prop := mkLive {
  lv_inv : inv ps (is_eagle cfg) (ac_node <$> acts) (abs c);
  lv_kv : kv_ok (kv_pool c) /\ kv_in_group (kv_pool c) = false /\ kv_page (kv_pool c) = pg;
  lv_tree : pages_ok ps (abs c);
  lv_acts : Forall (act_ok c) acts;
  lv_slots : NoDup (all_slots acts c) }.

Lemma inv_perm hs hs' A : hs ≡ₚ hs' -> inv ps (is_eagle cfg) hs A -> inv ps (is_eagle cfg) hs' A.
Proof.
  intros Hp [I1 [I2 I3] I4 I5]. constructor; try done. split.
  - intros h Hh. apply I2. by rewrite Hp.
  - intros i n Hi Hr. rewrite <-(handles_at_perm _ _ i Hp). auto.
Qed.

Lemma all_slots_perm acts acts' c : acts ≡ₚ acts' -> all_slots acts c ≡ₚ all_slots acts' c.
Proof. intros Hp. unfold all_slots, pages_of. by rewrite Hp. Qed.

Lemma live_perm acts acts' c : acts ≡ₚ acts' -> live acts c -> live acts' c.
Proof.
  intros Hp [L1 L2 L3 L4 L5]. constructor; [|done|done|by rewrite <-Hp|by rewrite <-(all_slots_perm _ _ _ Hp)].
  eapply inv_perm; [|exact L1]. by rewrite Hp.
Qed.

(** Requests keep what they have when paths and locks do. *)
Lemma act_ok_mono c c' x :
  (forall ek us ws, path (abs c) ek (root_node c) us ws (ac_node x) -> path (abs c') ek (root_node c') us ws (ac_node x)) ->
  act_ok c x -> act_ok c' x.
Proof. intros Hp [H1 H2 H3]. constructor; [done| |done]. by apply Hp. Qed.

(** One request of the set and the others. *)
Lemma live_holds x acts c row :
  live (x :: acts) c -> take (length (ac_ids x)) row = ac_vals x -> (length (ac_ids x) <= length row)%nat ->
  holds cfg (ac_node <$> acts) (expand_pages pg (pages_of acts)) c (ac_ek x) (ac_ids x) row (ac_node x) (ac_prot x) (ac_pages x).
Proof.
  intros [L1 L2 L3 L4 L5] Hrow Hle. apply Forall_cons in L4 as [[(A1 & A2 & A3) A4 [A5 A6]] _].
  assert (take (ac_prot x) row = take (ac_prot x) (ac_vals x)) as Ht by (rewrite <-Hrow, take_take; f_equal; lia).
  constructor; [done|done|done|split; [done|lia]|by rewrite Ht| |].
  - split; [|by rewrite <-A3]. rewrite Hrow. rewrite take_ge in A5 by done. by rewrite <-A3.
  - unfold all_slots, pages_of in L5. rewrite fmap_cons in L5. cbn [concat] in L5. by rewrite expand_pages_app in L5.
Qed.

Lemma holds_live x acts c row :
  holds cfg (ac_node <$> acts) (expand_pages pg (pages_of acts)) c (ac_ek x) (ac_ids x) row (ac_node x) (ac_prot x) (ac_pages x) ->
  ac_vals x = take (length (ac_ids x)) row -> Forall (act_ok c) acts -> live (x :: acts) c.
Proof.
  intros [H1 H2 H3 (H4 & H5) H6 [H7 H8] H9] Hv Ha.
  assert (length (ac_vals x) = length (ac_ids x)) as Hl by (rewrite Hv, length_take; lia).
  constructor; [done|done|done| |].
  - apply Forall_cons. split; [|done]. constructor; [split_and!; [done|lia|done]| |].
    + rewrite Hv, take_take, Nat.min_l by lia. done.
    + split; [|by rewrite Hl]. rewrite Hl. rewrite take_ge by lia. rewrite Hv. done.
  - unfold all_slots, pages_of. rewrite fmap_cons. cbn [concat]. by rewrite expand_pages_app.
Qed.

(** ** Slots for a batch *)

(** What eviction and allocation do to the cache, with the pages [g] taken from the pool. *)
Record grants acts c (g : list Z) c' : Prop := mkGrants {
  gr_inv : inv ps (is_eagle cfg) (ac_node <$> acts) (abs c');
  gr_kv : kv_ok (kv_pool c') /\ kv_in_group (kv_pool c') = false /\ kv_page (kv_pool c') = pg;
  gr_tree : pages_ok ps (abs c');
  gr_acts : Forall (act_ok c') acts;
  gr_rows : req_to_token c' = req_to_token c;
  gr_slots : slots (abs c') ++ kv_owned (kv_pool c') ++ expand_pages pg g ≡ₚ slots (abs c) ++ kv_owned (kv_pool c) }.

Lemma evicts_pages s l s' : evicts cfg s l s' -> pages_ok ps (abs s) -> pages_ok ps (abs s') /\ req_to_token s' = req_to_token s.
Proof.
  induction 1 as [|s x n v p pm ck s1 rest s2 Hx Hn Hv Hmin Hpm Hdl A1 P1 R1 Hev IH]; intros HP; [done|].
  destruct IH as [H1 H2]; [|by rewrite H2].
  intros i m Hi. rewrite A1 in Hi. unfold delete_abs in Hi. cbn [a_ns] in Hi.
  apply lookup_delete_Some in Hi as [_ [[<- <-]|[_ Hi]]%lookup_insert_Some]; [|by eapply HP].
  exact (HP _ _ (abs_lookup_1 _ _ _ Hpm)).
Qed.

(** Making room: nothing a request in flight has is evicted. *)
Lemma make_room acts c n :
  live acts c ->
  exists c1, evict_from_tree_cache (H := H) cfg sha256 kv_available false n c = (Ret tt, c1) /\
    grants acts c [] c1 /\ (n <= len (kv_owned (kv_pool c1)) \/ evictable_size_ c1 = 0) /\ 0 <= evictable_size_ c1 /\
    len (kv_owned (kv_pool c1)) + evictable_size_ c1 = len (kv_owned (kv_pool c)) + evictable_size_ c.
Proof.
  intros [HI (Hok & Hg & Hpg) HT HA Hnd]. set (hs := ac_node <$> acts) in *.
  assert (NoDup (slots (abs c) ++ kv_owned (kv_pool c))) as Hnd2.
  { unfold all_slots in Hnd. rewrite (assoc_L (++)) in Hnd. by apply NoDup_app in Hnd as (? & _). }
  destruct (evict_from_tree_cache_ok (H := H) cfg now sha256 kv_available Hps Hevents Hd kv_available_spec hs c n) as (l & c1 & E & Hev & Hstop).
  { split_and!; [done|done|done| |done]. intros i m Hi _. rewrite Hpg. by eapply HT. }
  assert (forall i n, a_ns (abs c) !! i = Some n -> i <> a_root (abs c) -> paged (kv_page (kv_pool c)) (node_slots n)) as Hpgs.
  { intros i m Hi _. rewrite Hpg. by eapply HT. }
  destruct (evicts_slots cfg hs c l c1 Hev HI Hok Hpgs Hnd2) as (Hok1 & Hsl & Hown & Hg1 & Hp1).
  destruct (evicts_sizes cfg Hps hs c l c1 Hev HI) as (Hsz & _ & Hroot).
  destruct (evicts_pages c l c1 Hev HT) as [HT1 Hrows].
  pose proof (evicts_inv cfg hs c l c1 Hev HI) as HI1.
  exists c1. split_and!; [done| |done|by apply (evictable_nonneg cfg Hps hs)|unfold len; rewrite Hown, length_app; lia].
  constructor; [done|split_and!; congruence|done| |done|by rewrite app_nil_r].
  apply Forall_forall. intros x Hx. rewrite Forall_forall in HA. specialize (HA x Hx). revert HA. apply act_ok_mono.
  intros ek us ws Hp. rewrite Hroot. eapply (evicts_handle cfg hs); [done|done| |done]. by apply list_elem_of_fmap_2.
Qed.

(** Taking slots from the pool once there is room. *)
Lemma grants_alloc acts c c1 g pool' :
  grants acts c [] c1 -> kv_ok pool' -> kv_page pool' = kv_page (kv_pool c1) -> kv_in_group pool' = false ->
  kv_owned (kv_pool c1) ≡ₚ expand_pages pg g ++ kv_owned pool' -> grants acts c g (set_pool pool' c1).
Proof.
  intros [G1 (G2 & G3 & G4) G5 G6 G7 G8] Hok Hp Hg Hown. constructor; [done|split_and!; [done|done|simpl; congruence]|done| |done|].
  - eapply Forall_impl; [exact G6|]. intros x. by apply act_ok_mono.
  - rewrite app_nil_r in G8. change (slots (abs c1) ++ kv_owned pool' ++ expand_pages pg g ≡ₚ slots (abs c) ++ kv_owned (kv_pool c)).
    rewrite <-G8, Hown. solve_Permutation.
Qed.

Lemma live_grants acts c g c' : live acts c -> grants acts c g c' -> NoDup (all_slots acts c' ++ expand_pages pg g).
Proof.
  intros [_ _ _ _ Hnd] [_ _ _ _ _ Hsl]. revert Hnd. unfold all_slots. intros Hnd.
  assert ((slots (abs c') ++ kv_owned (kv_pool c') ++ expand_pages pg (pages_of acts)) ++ expand_pages pg g
    ≡ₚ (slots (abs c') ++ kv_owned (kv_pool c') ++ expand_pages pg g) ++ expand_pages pg (pages_of acts)) as -> by solve_Permutation.
  by rewrite Hsl, <-(assoc_L (++)).
Qed.

Lemma extended_pages p pre seq last shares out :
  extended p pre seq last shares out -> len (concat shares) = sumZ (num_new_pages_of p pre seq).
Proof.
  induction 1 as [|a b l share pre seq last shares out Hs He IH]; [done|]. cbn [concat]. rewrite len_app, IH, Hs.
  unfold sumZ, num_new_pages_of. done.
Qed.

(** With room for an estimate of at least what is needed, the pool fails only when the whole
    system is short. *)
Lemma room_decides pre seq last own ev own' res (n : Z) :
  granted pg pre seq last own own' res -> (n <= len own \/ ev = 0) -> 0 <= ev ->
  sumZ (num_new_pages_of pg pre seq) * pg <= n ->
  match res with
  | Some _ => sumZ (num_new_pages_of pg pre seq) * pg <= len own + ev
  | None => len own + ev < sumZ (num_new_pages_of pg pre seq) * pg
  end.
Proof.
  intros Hgr Hroom Hev Hn. destruct res as [out|]; cbn in Hgr.
  - destruct Hgr as (shares & He & Hown). rewrite (len_perm _ _ Hown), len_app, length_expand_pages, (extended_pages _ _ _ _ _ _ He) by lia.
    pose proof (len_nonneg own'). lia.
  - destruct Hgr as [Hlt _]. lia.
Qed.

Lemma estimate_covers pre seq :
  ordered pre seq -> sumZ (num_new_pages_of pg pre seq) * pg <= sumZ (extend_lens pre seq) + len seq * pg.
Proof.
  intros Hall. assert (len seq = len pre) as -> by (unfold len; f_equal; symmetry; exact (Forall2_length _ _ _ Hall)).
  pose proof (new_pages_bound pg pre seq ltac:(lia) Hall). pose proof (div_bounds (sumZ (extend_lens pre seq)) pg ltac:(lia)). nia.
Qed.

(** Making room and taking slots: all of them, or an error and nothing lost. *)
Definition evict_take (est : Z) (alloc : T -> Outcome (option (list Z) * T)) : PyM (Cache T) (list Z) :=
  _ ← evict_from_tree_cache (H := H) cfg sha256 kv_available false est;
  s ← py_get;
  take_slots (alloc (kv_pool s)) mret.

Lemma evict_take_ok acts c est alloc pre seq last :
  live acts c -> sumZ (num_new_pages_of pg pre seq) * pg <= est ->
  (forall a, kv_ok a -> kv_in_group a = false -> kv_page a = pg ->
     exists res a', alloc a = Ret (res, a') /\ kv_ok a' /\ kv_page a' = pg /\ kv_in_group a' = false /\
       granted pg pre seq last (kv_owned a) (kv_owned a') res) ->
  exists r c', evict_take est alloc c = (r, c') /\
    if sumZ (num_new_pages_of pg pre seq) * pg <=? len (kv_owned (kv_pool c)) + evictable_size_ c
    then exists out shares, r = Ret out /\ extended pg pre seq last shares out /\ grants acts c (concat shares) c'
    else r = Raise RuntimeError /\ grants acts c [] c'.
Proof.
  intros HL Hest Halloc. pose proof (lv_kv _ _ HL) as (_ & _ & Hpg).
  destruct (make_room acts c est HL) as (c1 & E1 & HG & Hroom & Hnn & Htot). pose proof HG as [_ (Gok & Gg & Gp) _ _ _ _].
  destruct (Halloc (kv_pool c1) Gok Gg Gp) as (res & pool' & E2 & P1 & P2 & P3 & Hgr). rewrite <-Gp in P2.
  pose proof (room_decides _ _ _ _ (evictable_size_ c1) _ _ est Hgr Hroom Hnn Hest) as Hdec. rewrite Htot in Hdec.
  exists (match res with Some out => Ret out | None => Raise RuntimeError end), (set_pool pool' c1). split.
  - unfold evict_take. erewrite py_bind_Ret by exact E1. unfold take_slots, mbind, PyM_bind, py_get, py_lift. rewrite E2. by destruct res.
  - destruct res as [out|]; cbn in Hgr.
    + destruct Hgr as (shares & He & Hown). rewrite (proj2 (Z.leb_le _ _) Hdec). exists out, shares.
      split_and!; [done|done|by apply grants_alloc].
    + destruct Hgr as [_ Hown]. rewrite (proj2 (Z.leb_gt _ _) Hdec). split; [done|]. apply grants_alloc; [done|done|done|done|].
      by rewrite Hown.
Qed.

Context {B : Type} (kv_backup : T -> B).

Lemma alloc_token_slots_take n c :
  alloc_token_slots (H := H) cfg sha256 kv_available kv_backup false n false c
  = (out ← evict_take n (kv_alloc n); mret (out, None)) c.
Proof.
  unfold alloc_token_slots, evict_take, take_slots, mbind, PyM_bind.
  destruct (evict_from_tree_cache (H := H) cfg sha256 kv_available false n c) as [[[]|e|] c1]; [|done..]. cbn.
  by destruct (kv_alloc n (kv_pool c1)) as [[[out|] a]|e|].
Qed.

Lemma alloc_paged_extend_take pre seq last n c :
  alloc_paged_token_slots_extend (H := H) cfg sha256 kv_backup pre seq last n false c
  = (out ← evict_take (n + len seq * kv_page (kv_pool c)) (kv_alloc_extend pre seq last n); mret (out, None)) c.
Proof.
  unfold alloc_paged_token_slots_extend, evict_take, take_slots. rewrite bind_get. unfold mbind, PyM_bind.
  destruct (evict_from_tree_cache (H := H) cfg sha256 kv_available false _ c) as [[[]|e|] c1]; [|done..]. cbn.
  by destruct (kv_alloc_extend pre seq last n (kv_pool c1)) as [[[out|] a]|e|].
Qed.

(** The slots of an extend batch. *)
Lemma extend_slots_ok acts c pre seq last :
  live acts c -> ordered pre seq -> length last = length pre ->
  let n := sumZ (extend_lens pre seq) in
  exists r c',
    (if (ps =? 1)%nat then alloc_token_slots (H := H) cfg sha256 kv_available kv_backup false n false
     else alloc_paged_token_slots_extend (H := H) cfg sha256 kv_backup pre seq last n false) c = (r, c') /\
    if sumZ (num_new_pages_of pg pre seq) * pg <=? len (kv_owned (kv_pool c)) + evictable_size_ c
    then exists out shares, r = Ret (out, None) /\ extended pg pre seq last shares out /\ grants acts c (concat shares) c'
    else r = Raise RuntimeError /\ grants acts c [] c'.
Proof.
  intros HL Hall Hl n. pose proof (lv_kv _ _ HL) as (_ & _ & Hpg).
  assert (exists r c', (if (ps =? 1)%nat then evict_take n (kv_alloc n) else evict_take (n + len seq * pg) (kv_alloc_extend pre seq last n)) c = (r, c') /\
    if sumZ (num_new_pages_of pg pre seq) * pg <=? len (kv_owned (kv_pool c)) + evictable_size_ c
    then exists out shares, r = Ret out /\ extended pg pre seq last shares out /\ grants acts c (concat shares) c'
    else r = Raise RuntimeError /\ grants acts c [] c') as (r & c' & E & Hr).
  { destruct (Nat.eqb_spec ps 1) as [E|E]; apply evict_take_ok; try done.
    - rewrite E. change (Z.of_nat 1) with 1. rewrite num_new_pages_1. unfold n. lia.
    - intros a Hok Hg Hp. rewrite E in *. change (Z.of_nat 1) with 1 in *. by apply kv_alloc_granted.
    - by apply estimate_covers.
    - intros a Hok Hg Hp. rewrite <-Hp. apply kv_alloc_extend_spec; [done|done|lia|done|done]. }
  exists (match r with Ret out => Ret (out, None) | Raise e => Raise e | OutOfFuel => OutOfFuel end), c'. split.
  - destruct (ps =? 1)%nat.
    + rewrite alloc_token_slots_take. unfold mbind, PyM_bind. rewrite E. by destruct r.
    + rewrite alloc_paged_extend_take, Hpg. unfold mbind, PyM_bind. rewrite E. by destruct r.
  - destruct (_ <=? _); [destruct Hr as (out & shares & -> & ? & ?); by exists out, shares|by destruct Hr as [-> ?]].
Qed.

(** The slots of a decode batch, one for each request. *)
Lemma decode_slots_ok acts c seq last :
  live acts c -> ordered (decode_pre seq) seq -> length last = length seq ->
  exists r c',
    (if (ps =? 1)%nat then r ← alloc_token_slots (H := H) cfg sha256 kv_available kv_backup false (len seq * 1) false; mret r.1
     else alloc_paged_token_slots_decode (H := H) cfg sha256 seq last) c = (r, c') /\
    if sumZ (num_new_pages_of pg (decode_pre seq) seq) * pg <=? len (kv_owned (kv_pool c)) + evictable_size_ c
    then exists out shares, r = Ret out /\ extended pg (decode_pre seq) seq last shares out /\ grants acts c (concat shares) c'
    else r = Raise RuntimeError /\ grants acts c [] c'.
Proof.
  intros HL Hall Hl. pose proof (lv_kv _ _ HL) as (_ & _ & Hpg).
  assert (length (decode_pre seq) = length seq) as Hlp by apply length_fmap.
  assert (sumZ (extend_lens (decode_pre seq) seq) = len seq) as Hn.
  { rewrite <-(extend_lens_total pg (decode_pre seq) seq last Hlp), Hlp, decode_start by done. done. }
  destruct (Nat.eqb_spec ps 1) as [E|E].
  - rewrite Z.mul_1_r.
    destruct (evict_take_ok acts c (len seq) (kv_alloc (len seq)) (decode_pre seq) seq last HL) as (r & c' & Et & Hr).
    + rewrite E. change (Z.of_nat 1) with 1. rewrite num_new_pages_1, Hn. lia.
    + intros a Hok Hg Hp. rewrite E in Hp |- *. change (Z.of_nat 1) with 1 in Hp |- *. rewrite <-Hn. apply kv_alloc_granted; [done|done|done|done|lia].
    + exists r, c'. split; [|done].
      unfold mbind at 1, PyM_bind. rewrite alloc_token_slots_take. unfold mbind, PyM_bind. rewrite Et. by destruct r.
  - destruct (evict_take_ok acts c (len seq * pg) (kv_alloc_decode seq last) (decode_pre seq) seq last HL) as (r & c' & Et & Hr).
    + rewrite <-decode_pages_eq by (done || lia). pose proof (decode_pages_bound pg seq). nia.
    + intros a Hok Hg Hp. rewrite <-Hp. apply kv_alloc_decode_spec; [done|done|lia|done|done].
    + exists r, c'. split; [|done]. unfold alloc_paged_token_slots_decode. rewrite bind_get, Hpg. exact Et.
Qed.
End live.
