(* ===== verification/ExtendLive.v ===== *)
(** * Memory for an extend batch keeps the slots of all requests apart

    [alloc_for_extend] gives the requests of a batch rows and slots.  For requests in flight
    ([live]) over a consistent row table ([mem_ok]) it succeeds exactly when rows and slots
    suffice, and afterwards every request of the batch has slots for its longer sequence, in
    its row and in pages of its own. *)

From stdpp Require Import base tactics list gmap strings.
From Stdlib Require Import ZArith Lia.
From S2P Require Import Prelude PyStr RadixKey TreeNode EvictPolicy Allocator AllocatorProofs BatchAlloc RowTable KVEvents.
From S2P Require Import RadixTree RadixInv RadixPaths RadixSlots RadixWalk RadixProofs RadixLocks RadixEvict RadixClaims.
From S2P Require Import Lifecycle MemAlloc ReqPool MemBatch LiveSet.

(** ** The batch, request by request *)

Record Item := mkItem { it_act : Active; it_sfx : list Z; it_share : list Z; it_row : nat }.

Section items.
Context (ps : nat) (Hps : (0 < ps)%nat).
Local Abbreviation pg := (Z.of_nat ps).

Definition it_pre (it : Item) : Z := len (ac_vals (it_act it)).
Definition it_seq (it : Item) : Z := len (ac_vals (it_act it)) + len (it_sfx it).
(** Its new slots, and the request with them. *)
Definition it_out (it : Item) : list Z := req_slots pg (it_pre it) (it_seq it) (last_of (ac_vals (it_act it))) (it_share it).
Definition it_grown (it : Item) : Active :=
  let x := it_act it in
  mkActive (ac_rid x) (ac_ek x) (ac_ids x ++ it_sfx it) (ac_vals x ++ it_out it) (ac_node x) (ac_prot x) (ac_pages x ++ it_share it).
Definition it_write (it : Item) : RowWrite := mkRowWrite (it_row it) (ac_vals (it_act it)) (it_out it).

Definition share_ok (it : Item) : Prop := len (it_share it) = ceil_div (it_seq it) pg - ceil_div (it_pre it) pg.

Lemma extended_items items out :
  extended pg (it_pre <$> items) (it_seq <$> items) ((fun it => last_of (ac_vals (it_act it))) <$> items) (it_share <$> items) out ->
  Forall share_ok items /\ out = concat (it_out <$> items).
Proof.
  revert out. induction items as [|it items IH]; intros out He; inversion He; subst; [by split|].
  match goal with H : extended _ _ _ _ _ ?o |- _ => destruct (IH o H) as [H1 ->] end. split; [by constructor|done].
Qed.

(** Lists of the same length as the parts of a list of items. *)
Lemma make_items (bs : list (Active * list Z)) : forall (shares : list (list Z)) (rows : list nat),
  length shares = length bs -> length rows = length bs ->
  exists items, (fun it => (it_act it, it_sfx it)) <$> items = bs /\ it_share <$> items = shares /\ it_row <$> items = rows.
Proof.
  induction bs as [|[x sfx] bs IH]; intros [|sh shares] [|r rows] H1 H2; try done; [by exists []|].
  injection H1 as H1. injection H2 as H2. destruct (IH shares rows H1 H2) as (items & E1 & E2 & E3).
  exists (mkItem x sfx sh r :: items). rewrite !fmap_cons. cbn [it_act it_sfx it_share it_row]. by rewrite E1, E2, E3.
Qed.

Lemma extended_length p pre seq last shares out : extended p pre seq last shares out -> length shares = length pre.
Proof. induction 1; cbn; congruence. Qed.

Lemma extend_lens_items items : sumZ (extend_lens (it_pre <$> items) (it_seq <$> items)) = sumZ ((fun it => len (it_sfx it)) <$> items).
Proof.
  unfold extend_lens. induction items as [|it items IH]; [done|]. cbn [fmap list_fmap zip_with sumZ foldr].
  unfold sumZ in *. cbn [foldr]. change (list_fmap Item Z ?f items) with (f <$> items). rewrite IH. unfold it_seq, it_pre. lia.
Qed.
End items.

Section extend.
Context {T : Type} `{!KVAllocator T} `{!KVPartial T} `{!BatchKV T} {H : Type} `{!HeapQ H}.
Context (cfg : Config) (now : nat -> Z) (sha256 : list Z -> string).
Local Abbreviation ps := (cfg_page_size cfg).
Local Abbreviation pg := (Z.of_nat (cfg_page_size cfg)).
Context (Hps : (0 < ps)%nat) (Hevents : enable_kv_cache_events cfg = false) (Hd : disable cfg = false).
Context (Heagle : is_eagle cfg = false).
Context (support_triton : bool) (order : list nat) {B : Type} (kv_backup : T -> B).
Implicit Types (s : Mem T) (c : Cache T) (acts : list Active) (x : Active) (it : Item).

(** ** Rows *)

Definition row_of s (rid : nat) : option Z := reqs (mem_rows s) !! rid ≫= pool_idx.
Definition stride s : nat := Z.to_nat (max_context_len (mem_rows s)).

Definition act_row s x : Prop :=
  is_Some (reqs (mem_rows s) !! ac_rid x) /\
  forall v, row_of s (ac_rid x) = Some v ->
    exists row, req_to_token (mem_cache s) !! Z.to_nat v = Some row /\ take (length (ac_vals x)) row = ac_vals x.

Record mem_ok acts s : Prop := mkMemOk {
  mo_rows : rows_ok (mem_rows s);
  mo_size : 0 <= rp_size (mem_rows s) /\ Z.of_nat (length (req_to_token (mem_cache s))) = rp_size (mem_rows s) + 1;
  mo_table : table_ok (stride s) (req_to_token (mem_cache s));
  mo_rids : NoDup (ac_rid <$> acts);
  mo_acts : Forall (act_row s) acts }.

Lemma row_range s r v : rows_ok (mem_rows s) -> row_of s r = Some v -> 1 <= v <= rp_size (mem_rows s).
Proof.
  intros Hok Hr. destruct (row_holder _ _ _ Hr) as (l & Hl & _). unfold rows_ok in Hok.
  assert (v ∈ seqZ 1 (rp_size (mem_rows s))) as Hv by (rewrite <-Hok, Hl; left). apply elem_of_seqZ in Hv. clear -Hv. lia.
Qed.

Lemma row_distinct s r r' v : rows_ok (mem_rows s) -> r <> r' -> row_of s r = Some v -> row_of s r' <> Some v.
Proof.
  intros Hok Hne Hr Hr'. destruct (row_holder _ _ _ Hr) as (l & Hl & Hother). unfold rows_ok in Hok.
  assert (NoDup (rows_used (reqs (mem_rows s)) ++ free_rows (mem_rows s))) as Hnd by (rewrite Hok; apply NoDup_seqZ).
  rewrite Hl in Hnd. apply NoDup_cons in Hnd as [Hv _]. apply Hv, elem_of_app. left. by apply (Hother r'); [congruence|].
Qed.

Lemma rows_NoDup s rids rows :
  rows_ok (mem_rows s) -> NoDup rids -> Forall2 (fun r v => row_of s r = Some (Z.of_nat v)) rids rows -> NoDup rows.
Proof.
  intros Hok Hnd Hf. apply NoDup_alt. intros i j v Hi Hj.
  destruct (Forall2_lookup_r _ _ _ _ _ Hf Hi) as (r & Hri & Hr). destruct (Forall2_lookup_r _ _ _ _ _ Hf Hj) as (r' & Hrj & Hr').
  destruct (decide (r = r')) as [<-|Hne]; [by eapply NoDup_lookup|]. by destruct (row_distinct s r r' _ Hok Hne Hr).
Qed.

(** ** The batch *)

Definition batch_of (bs : list (Active * list Z)) : ExtendBatch :=
  mkExtendBatch ((fun b => ac_rid b.1) <$> bs) ((fun b => ac_vals b.1) <$> bs) ((fun b => len (ac_vals b.1)) <$> bs)
    ((fun b => len b.2) <$> bs) ((fun b => len (ac_vals b.1) + len b.2) <$> bs) (sumZ ((fun b => len b.2) <$> bs)).

(** New pages and new rows the batch needs. *)
Definition pages_needed (bs : list (Active * list Z)) : Z :=
  sumZ (num_new_pages_of pg ((fun b => len (ac_vals b.1)) <$> bs) ((fun b => len (ac_vals b.1) + len b.2) <$> bs)).
Definition rows_needed s (bs : list (Active * list Z)) : Z :=
  Z.of_nat (length bs) - Z.of_nat (length (List.filter (has_row (reqs (mem_rows s))) ((fun b => ac_rid b.1) <$> bs))).

Lemma set_same_table c : set_req_to_token (req_to_token c) c = c.
Proof. by destruct c. Qed.

(** Giving the batch its rows. *)
Lemma alloc_req_slots_ok acts s rids :
  mem_ok acts s -> NoDup rids -> (forall r, r ∈ rids -> is_Some (reqs (mem_rows s) !! r)) ->
  forallb (may_reuse (reqs (mem_rows s))) (List.filter (has_row (reqs (mem_rows s))) rids) = true ->
  let need := Z.of_nat (length rids) - Z.of_nat (length (List.filter (has_row (reqs (mem_rows s))) rids)) in
  if need <=? len (free_rows (mem_rows s)) then
    exists rows s1, alloc_req_slots rids s = (Ret (Z.of_nat <$> rows), s1) /\ mem_cache s1 = mem_cache s /\
      rows_ok (mem_rows s1) /\ rp_size (mem_rows s1) = rp_size (mem_rows s) /\ stride s1 = stride s /\
      Forall2 (fun r v => row_of s1 r = Some (Z.of_nat v)) rids rows /\
      (forall r v, row_of s r = Some v -> row_of s1 r = Some v) /\
      (forall r, r ∉ rids -> reqs (mem_rows s1) !! r = reqs (mem_rows s) !! r)
  else exists s1, alloc_req_slots rids s = (Raise RuntimeError, s1) /\ mem_cache s1 = mem_cache s.
Proof.
  intros HM Hnd Hin Hre need. pose proof (mo_rows _ _ HM) as Hok.
  destruct (rp_alloc_ok rids (rows_view s)) as (o & p' & E & Hok' & (Hs & Hm & Ht) & Ho);
    [exact Hok|done|by apply Forall_forall|exact Hre|]. cbn [rows_view reqs free_rows rp_size max_context_len rp_table] in *. fold need in Ho.
  unfold alloc_req_slots, lift_rows, mbind, PyM_bind. rewrite E.
  assert (set_req_to_token (rp_table p') (mem_cache s) = mem_cache s) as -> by (rewrite Ht; apply set_same_table).
  destruct o as [rows|].
  - destruct Ho as (Hle & Hl & Hf & Hkeep & Hother). rewrite (proj2 (Z.leb_le _ _) Hle).
    assert (Z.of_nat <$> (Z.to_nat <$> rows) = rows) as Hrows.
    { rewrite <-list_fmap_compose. transitivity ((fun v : Z => v) <$> rows); [|apply list_fmap_id].
      apply list_fmap_ext. intros k v Hk. destruct (Forall2_lookup_r _ _ _ _ _ Hf Hk) as (r & _ & Hv).
      destruct (row_holder _ _ _ Hv) as (l & Hperm & _).
      assert (v ∈ seqZ 1 (rp_size p')) as Hin' by (unfold rows_ok in Hok'; rewrite <-Hok', Hperm; left). apply elem_of_seqZ in Hin'. cbn. lia. }
    exists (Z.to_nat <$> rows), (mkMem (mem_cache s) p'). rewrite Hrows. split_and!; [done|done|exact Hok'|exact Hs| | |exact Hkeep|exact Hother].
    + unfold stride. cbn. by rewrite Hm.
    + rewrite <-Hrows in Hf. by apply Forall2_fmap_r in Hf.
  - destruct Ho as [Hlt ->]. rewrite (proj2 (Z.leb_gt _ _) Hlt). by eexists.
Qed.

(** A request that got its share. *)
Lemma grown_ok c it : act_ok cfg c (it_act it) -> share_ok ps it -> act_ok cfg c (it_grown ps it) /\ length (it_out ps it) = length (it_sfx it).
Proof.
  intros [(A1 & A2 & A3) A4 A5] Hs. destruct it as [x sfx share r]. cbn [it_act] in *. unfold share_ok, it_seq, it_pre in Hs. cbn [it_act it_sfx it_share] in Hs.
  destruct (row_pages_grow ps Hps (ac_vals x) (ac_prot x) (ac_pages x) share (length sfx) A5 A1 A2 Hs) as [G1 G2].
  unfold it_grown, it_out, it_seq, it_pre. cbn [it_act it_sfx it_share]. change (Z.of_nat (length sfx)) with (len sfx) in *.
  set (out := req_slots _ _ _ _ _) in *. split; [|done].
  constructor; cbn [ac_prot ac_vals ac_ids ac_ek ac_node ac_pages].
  - split_and!; [done|rewrite length_app; lia|rewrite !length_app; lia].
  - unfold units in *. cbn [is_bigram token_ids] in *. rewrite fmap_app, !take_app_le by (rewrite ?length_fmap; lia). exact A4.
  - rewrite length_app, G1. exact G2.
Qed.

Lemma pages_of_grown items : pages_of (it_grown ps <$> items) ≡ₚ pages_of (it_act <$> items) ++ concat (it_share <$> items).
Proof.
  unfold pages_of. induction items as [|it items IH]; [done|]. rewrite !fmap_cons. cbn [concat]. rewrite IH. cbn [it_grown ac_pages]. solve_Permutation.
Qed.

Lemma pages_of_app acts acts' : pages_of (acts ++ acts') = pages_of acts ++ pages_of acts'.
Proof. unfold pages_of. by rewrite fmap_app, concat_app. Qed.

(** The requests in flight once the batch has its slots. *)
Lemma items_live acts rest c c' items t :
  live cfg acts c -> acts ≡ₚ (it_act <$> items) ++ rest -> grants cfg acts c (concat (it_share <$> items)) c' -> Forall (share_ok ps) items ->
  live cfg ((it_grown ps <$> items) ++ rest) (set_req_to_token t c') /\
  all_slots cfg ((it_grown ps <$> items) ++ rest) (set_req_to_token t c') ≡ₚ all_slots cfg acts c.
Proof.
  intros HL Hp HG Hs. pose proof (live_grants cfg acts c _ c' HL HG) as Hnd. destruct HG as [G1 G2 G3 G4 _ G6].
  assert (all_slots cfg ((it_grown ps <$> items) ++ rest) (set_req_to_token t c') ≡ₚ all_slots cfg acts c' ++ expand_pages pg (concat (it_share <$> items))) as Hall.
  { rewrite (all_slots_perm cfg _ _ c' Hp). unfold all_slots. change (abs (set_req_to_token t c')) with (abs c'). change (kv_pool (set_req_to_token t c')) with (kv_pool c').
    rewrite !pages_of_app, !expand_pages_app, pages_of_grown, expand_pages_app. solve_Permutation. }
  split.
  - constructor; [|done|done| |by rewrite Hall].
    + eapply inv_perm; [|exact G1]. rewrite Hp, !fmap_app, <-!list_fmap_compose. done.
    + rewrite Hp in G4. apply Forall_app in G4 as [G4 G5]. apply Forall_app. split.
      * apply Forall_fmap. rewrite Forall_fmap in G4. rewrite Forall_forall in G4, Hs |- *. intros it Hit.
        eapply act_ok_mono; [|apply grown_ok; [exact (G4 it Hit)|exact (Hs it Hit)]]. done.
      * eapply Forall_impl; [exact G5|]. intros x. by apply act_ok_mono.
  - rewrite Hall. unfold all_slots. rewrite (assoc_L (++) (slots (abs c))), <-G6. solve_Permutation.
Qed.

(** The table once the batch has been written. *)
Lemma items_rows acts rest s s1 items c' :
  mem_ok acts s -> acts ≡ₚ (it_act <$> items) ++ rest -> live cfg acts (mem_cache s) -> Forall (share_ok ps) items ->
  Forall (fun it => (it_seq it <= Z.of_nat (stride s))) items ->
  rows_ok (mem_rows s1) -> rp_size (mem_rows s1) = rp_size (mem_rows s) -> stride s1 = stride s ->
  Forall (fun it => row_of s1 (ac_rid (it_act it)) = Some (Z.of_nat (it_row it))) items ->
  (forall r, r ∉ (fun it => ac_rid (it_act it)) <$> items -> reqs (mem_rows s1) !! r = reqs (mem_rows s) !! r) ->
  let ws := it_write ps <$> items in
  let t' := foldl write_req (req_to_token (mem_cache s)) ws in
  Forall (write_ok (stride s) (req_to_token (mem_cache s))) ws /\ NoDup (w_idx <$> ws) /\
  mem_ok ((it_grown ps <$> items) ++ rest) (mkMem (set_req_to_token t' c') (mem_rows s1)).
Proof.
  intros [M1 [M2 M2'] M3 M4 M5] Hp HL Hsh Hlen Hok1 Hsz Hst Hrows Hother ws t'. set (t := req_to_token (mem_cache s)) in *.
  assert (NoDup ((fun it => ac_rid (it_act it)) <$> items)) as Hndr.
  { rewrite Hp, fmap_app, <-list_fmap_compose in M4. by apply NoDup_app in M4 as (? & _). }
  assert (NoDup (w_idx <$> ws)) as Hndw.
  { unfold ws. rewrite <-list_fmap_compose. eapply (rows_NoDup s1); [done|exact Hndr|]. apply Forall2_fmap, Forall_Forall2_diag. exact Hrows. }
  assert (Forall (write_ok (stride s) t) ws) as Hws.
  { unfold ws. apply Forall_fmap, Forall_forall. intros it Hit. rewrite Forall_forall in Hrows, Hsh, Hlen.
    pose proof (row_range s1 _ _ Hok1 (Hrows it Hit)) as Hr. split; cbn; [lia|].
    destruct (grown_ok (mem_cache s) it) as [_ Ho]; [|by apply Hsh|].
    - eapply Forall_forall; [exact (lv_acts _ _ _ HL)|]. rewrite Hp. apply elem_of_app. left. by apply list_elem_of_fmap_2.
    - unfold w_vals. cbn. rewrite length_app, Ho. specialize (Hlen it Hit). unfold it_seq, len in Hlen. lia. }
  split_and!; [done|done|].
  assert (table_ok (stride s) t' /\ length t' = length t) as [Ht' Hl'].
  { unfold t'. clear -M3 Hws. revert M3 Hws. generalize t. induction ws as [|w ws IH]; intros t0 H1 H2; [done|].
    apply Forall_cons in H2 as [Hw H2]. destruct (write_req_ok _ t0 w H1 Hw) as [H3 H4]. cbn [foldl].
    destruct (IH (write_req t0 w) H3) as [H5 H6]; [|split; [done|lia]].
    eapply Forall_impl; [exact H2|]. intros w' [? ?]. split; [lia|done]. }
  constructor.
  - exact Hok1.
  - cbn [mem_rows mem_cache set_req_to_token req_to_token]. rewrite Hsz, Hl'. done.
  - unfold stride in Hst, Ht' |- *. cbn [mem_rows mem_cache set_req_to_token req_to_token]. by rewrite Hst.
  - rewrite fmap_app, <-list_fmap_compose. rewrite Hp, fmap_app, <-list_fmap_compose in M4. exact M4.
  - rewrite Hp in M5. apply Forall_app in M5 as [M5 M6]. apply Forall_app. split.
    + apply Forall_fmap, Forall_forall. intros it Hit. rewrite Forall_forall in Hrows. pose proof (Hrows it Hit) as Hr. split.
      { unfold row_of in Hr. cbn. destruct (reqs (mem_rows s1) !! ac_rid (it_act it)); [by eexists|done]. }
      intros v Hv. change (row_of s1 (ac_rid (it_act it)) = Some v) in Hv. assert (v = Z.of_nat (it_row it)) as -> by congruence.
      rewrite Nat2Z.id. assert (it_write ps it ∈ ws) as Hw by (by apply list_elem_of_fmap_2).
      rewrite Forall_forall in Hws. destruct (Hws _ Hw) as [Hi Hlw]. cbn [it_write w_idx] in Hi.
      destruct (lookup_lt_is_Some_2 t (it_row it) Hi) as [row Hrow].
      exists (fill_row (it_write ps it) row). split; [exact (write_reqs_in ws t _ _ Hndw Hw Hrow)|]. apply take_app_length.
    + apply Forall_forall. intros x Hx. rewrite Forall_forall in M6. destruct (M6 x Hx) as [S1 S2].
      assert (ac_rid x ∉ (fun it => ac_rid (it_act it)) <$> items) as Hnx.
      { rewrite Hp, fmap_app, <-list_fmap_compose in M4. apply NoDup_app in M4 as (_ & M4 & _). intros Hin. apply (M4 _ Hin). by apply list_elem_of_fmap_2. }
      unfold act_row, row_of. cbn [mem_rows]. rewrite (Hother _ Hnx). split; [done|]. intros v Hv. destruct (S2 v Hv) as (row & Hrow & Htk).
      exists row. split; [|done]. cbn [mem_cache set_req_to_token req_to_token]. unfold t'. rewrite write_reqs_out; [done|done|].
      intros ([? ? ?] & E & (it & E2 & Hit)%list_elem_of_fmap)%list_elem_of_fmap. cbn in E. injection E2 as -> _ _.
      rewrite Forall_forall in Hrows. pose proof (Hrows it Hit) as Hr.
      assert (row_of s1 (ac_rid x) = Some v) as Hv1 by (unfold row_of; by rewrite (Hother _ Hnx)).
      pose proof (row_range s1 _ _ Hok1 Hv1). assert (v = Z.of_nat (it_row it)) as -> by lia.
      refine (row_distinct s1 (ac_rid x) (ac_rid (it_act it)) _ Hok1 _ Hv1 Hr). intros E3. apply Hnx. rewrite E3.
      by apply (list_elem_of_fmap_2 (fun it => ac_rid (it_act it))).
Qed.

Lemma grants_nil_live acts c c' : live cfg acts c -> grants cfg acts c [] c' -> live cfg acts c'.
Proof.
  intros HL HG. pose proof (live_grants cfg acts c [] c' HL HG) as Hnd. destruct HG as [G1 G2 G3 G4 _ _].
  constructor; try done. by rewrite app_nil_r in Hnd.
Qed.

(** The parts of a batch in terms of its items. *)
Lemma batch_of_items items :
  let b := batch_of ((fun it => (it_act it, it_sfx it)) <$> items) in
  eb_rids b = (fun it => ac_rid (it_act it)) <$> items /\ eb_prefix b = (fun it => ac_vals (it_act it)) <$> items /\
  eb_prefix_lens b = it_pre <$> items /\ eb_seq_lens b = it_seq <$> items /\ eb_extend_lens b = (fun it => len (it_sfx it)) <$> items.
Proof. cbn. rewrite <-!list_fmap_compose. done. Qed.

Lemma writes_of_items items :
  Forall (fun it => length (it_out ps it) = length (it_sfx it)) items ->
  let ws := it_write ps <$> items in
  idxs_of ws = Z.of_nat <$> (it_row <$> items) /\ pres_of ws = it_pre <$> items /\ seqs_of ws = it_seq <$> items /\
  exts_of ws = (fun it => len (it_sfx it)) <$> items /\ w_pre <$> ws = (fun it => ac_vals (it_act it)) <$> items /\
  outs_of ws = concat (it_out ps <$> items).
Proof.
  intros Hl ws. unfold ws, idxs_of, pres_of, seqs_of, exts_of, outs_of. rewrite <-!list_fmap_compose. split_and!; try done.
  - apply list_fmap_ext. intros k it Hk. pose proof (Forall_lookup_1 _ _ _ _ Hl Hk) as E. cbn in *. unfold w_vals, it_seq, len. cbn. rewrite length_app, E. lia.
  - apply list_fmap_ext. intros k it Hk. pose proof (Forall_lookup_1 _ _ _ _ Hl Hk) as E. cbn in *. unfold len. by rewrite E.
Qed.

(** [alloc_for_extend] on requests in flight. *)
Lemma alloc_for_extend_ok acts rest s bs :
  live cfg acts (mem_cache s) -> mem_ok acts s -> acts ≡ₚ bs.*1 ++ rest ->
  forallb (may_reuse (reqs (mem_rows s))) (List.filter (has_row (reqs (mem_rows s))) ((fun b => ac_rid b.1) <$> bs)) = true ->
  Forall (fun b => len (ac_vals b.1) + len b.2 <= Z.of_nat (stride s)) bs -> order ≡ₚ List.seq 0 (length bs) ->
  if (rows_needed s bs <=? len (free_rows (mem_rows s))) &&
     (pages_needed bs * pg <=? len (kv_owned (kv_pool (mem_cache s))) + evictable_size_ (mem_cache s))
  then exists items s', alloc_for_extend (H := H) cfg sha256 support_triton order kv_backup (batch_of bs) s
         = (Ret (concat (it_out ps <$> items), Z.of_nat <$> (it_row <$> items)), s') /\
       (fun it => (it_act it, it_sfx it)) <$> items = bs /\
       live cfg ((it_grown ps <$> items) ++ rest) (mem_cache s') /\ mem_ok ((it_grown ps <$> items) ++ rest) s' /\
       all_slots cfg ((it_grown ps <$> items) ++ rest) (mem_cache s') ≡ₚ all_slots cfg acts (mem_cache s) /\
       Forall (fun it => row_of s' (ac_rid (it_act it)) = Some (Z.of_nat (it_row it)) /\ length (it_out ps it) = length (it_sfx it)) items /\
       (forall r, (r ∉ (fun b : Active * list Z => ac_rid b.1) <$> bs) -> reqs (mem_rows s') !! r = reqs (mem_rows s) !! r)
  else exists s', alloc_for_extend (H := H) cfg sha256 support_triton order kv_backup (batch_of bs) s = (Raise RuntimeError, s') /\
       live cfg acts (mem_cache s').
Proof.
  intros HL HM Hp Hre Hlen Ho. set (rids := (fun b => ac_rid b.1) <$> bs) in *.
  assert (rids = ac_rid <$> bs.*1) as Erids by (unfold rids; by rewrite <-list_fmap_compose).
  pose proof (alloc_req_slots_ok acts s rids HM) as Hslots.
  assert (Z.of_nat (length rids) - Z.of_nat (length (List.filter (has_row (reqs (mem_rows s))) rids)) = rows_needed s bs) as En.
  { unfold rows_needed. fold rids. unfold rids at 1. by rewrite length_fmap. }
  cbv zeta in Hslots. rewrite En in Hslots. unfold alloc_for_extend. change (eb_rids (batch_of bs)) with rids.
  assert (NoDup rids) as Hnd. { pose proof (mo_rids _ _ HM) as M4. rewrite Hp, fmap_app in M4. rewrite Erids. by apply NoDup_app in M4 as (? & _). }
  assert (forall r, r ∈ rids -> is_Some (reqs (mem_rows s) !! r)) as Hin.
  { intros r Hr. rewrite Erids in Hr. apply list_elem_of_fmap in Hr as (x & -> & Hx).
    pose proof (mo_acts _ _ HM) as M5. rewrite Forall_forall in M5. apply M5. rewrite Hp. apply elem_of_app. by left. }
  specialize (Hslots Hnd Hin Hre).
  destruct (rows_needed s bs <=? len (free_rows (mem_rows s))) eqn:Erows; cbn [andb].
  2: { destruct Hslots as (s1 & E1 & Ec). exists s1. split; [|by rewrite Ec]. unfold mbind, PyM_bind. by rewrite E1. }
  destruct Hslots as (rows & s1 & E1 & Ec & Hok1 & Hsz & Hst & Hf & Hkeep & Hother).
  assert (length rows = length bs) as Hlr by (apply Forall2_length in Hf; unfold rids in Hf; by rewrite length_fmap in Hf).
  set (pre := (fun b => len (ac_vals b.1)) <$> bs). set (sq := (fun b => len (ac_vals b.1) + len b.2) <$> bs).
  set (lst := last_of <$> eb_prefix (batch_of bs)).
  assert (ordered pre sq) as Hord.
  { unfold pre, sq. apply Forall2_fmap, Forall_Forall2_diag, Forall_forall. intros b _. unfold len. lia. }
  assert (length lst = length pre) as Hll by (unfold lst, pre; cbn; by rewrite !length_fmap).
  destruct (extend_slots_ok (H := H) cfg now sha256 Hps Hevents Hd kv_backup acts (mem_cache s) pre sq lst HL Hord Hll) as (r & c' & E2 & Hres).
  fold pre sq in Hres. change (sumZ (num_new_pages_of pg pre sq)) with (pages_needed bs) in Hres.
  assert (sumZ (extend_lens pre sq) = eb_extend_num_tokens (batch_of bs)) as Ene.
  { unfold pre, sq. cbn [batch_of eb_extend_num_tokens]. unfold extend_lens. rewrite zip_with_fmap_l, zip_with_fmap_r, zip_with_diag.
    f_equal. apply list_fmap_ext. intros k b _. lia. }
  rewrite Ene, <-Ec in E2.
  assert ((if (ps =? 1)%nat
      then lift_cache (alloc_token_slots (H := H) cfg sha256 kv_available kv_backup false (eb_extend_num_tokens (batch_of bs)) false)
      else lift_cache (alloc_paged_token_slots_extend (H := H) cfg sha256 kv_backup (eb_prefix_lens (batch_of bs)) (eb_seq_lens (batch_of bs)) lst (eb_extend_num_tokens (batch_of bs)) false)) s1
      = (r, mkMem c' (mem_rows s1))) as E3.
  { change (eb_prefix_lens (batch_of bs)) with pre. change (eb_seq_lens (batch_of bs)) with sq. unfold lift_cache. destruct (ps =? 1)%nat; by rewrite E2. }
  erewrite py_bind_Ret by exact E1. fold lst.
  destruct (pages_needed bs * pg <=? _) eqn:Epages.
  2: { destruct Hres as [-> HG]. exists (mkMem c' (mem_rows s1)). split; [unfold mbind, PyM_bind; by rewrite E3|].
       by eapply grants_nil_live. }
  destruct Hres as (out & shares & -> & He & HG).
  destruct (make_items bs shares rows) as (items & I1 & I2 & I3); [rewrite (extended_length _ _ _ _ _ _ He); unfold pre; by rewrite length_fmap|done|].
  assert (Forall (fun it => row_of s1 (ac_rid (it_act it)) = Some (Z.of_nat (it_row it))) items) as Hrows.
  { unfold rids in Hf. rewrite <-I1, <-I3, <-list_fmap_compose in Hf. rewrite Forall2_fmap in Hf. apply Forall_lookup. intros k it Hk. exact (Forall2_lookup_lr _ _ _ _ _ _ Hf Hk Hk). }
  assert (bs.*1 = it_act <$> items) as Eacts by (rewrite <-I1, <-list_fmap_compose; done). rewrite Eacts in Hp.
  destruct (batch_of_items items) as (B1 & B2 & B3 & B4 & B5). rewrite I1 in B1, B2, B3, B4, B5.
  assert (lst = (fun it => last_of (ac_vals (it_act it))) <$> items) as El by (unfold lst; rewrite B2, <-list_fmap_compose; done).
  change (eb_prefix_lens (batch_of bs)) with pre in B3. change (eb_seq_lens (batch_of bs)) with sq in B4.
  rewrite B3, B4, El, <-I2 in He. destruct (extended_items ps items out He) as [Hsh ->]. rewrite <-I2 in HG.
  assert (Forall (fun it => it_seq it <= Z.of_nat (stride s)) items) as Hls.
  { apply Forall_forall. intros it Hit. rewrite Forall_forall in Hlen. apply (Hlen (it_act it, it_sfx it)). rewrite <-I1.
    by apply (list_elem_of_fmap_2 (fun it => (it_act it, it_sfx it))). }
  change rids with (eb_rids (batch_of bs)) in Hother. rewrite B1 in Hother.
  destruct (items_rows acts rest s s1 items c' HM Hp HL Hsh Hls Hok1 Hsz Hst Hrows Hother) as (Hw & Hndw & HM').
  assert (Forall (fun it => length (it_out ps it) = length (it_sfx it)) items) as Houts.
  { apply Forall_forall. intros it Hit. rewrite Forall_forall in Hsh. apply (grown_ok (mem_cache s)); [|by apply Hsh].
    eapply Forall_forall; [exact (lv_acts _ _ _ HL)|]. rewrite Hp. apply elem_of_app. left. by apply list_elem_of_fmap_2. }
  destruct (writes_of_items items Houts) as (W1 & W2 & W3 & W4 & W5 & W6). set (ws := it_write ps <$> items) in *.
  set (t := req_to_token (mem_cache s)) in *. set (t' := foldl write_req t ws) in *.
  exists items, (mkMem (set_req_to_token t' c') (mem_rows s1)).
  destruct (items_live acts rest (mem_cache s) c' items t' HL Hp HG Hsh) as [HL' Hall]. split_and!; [|done|exact HL'|exact HM'|exact Hall| |].
  - erewrite py_bind_Ret by exact E3. erewrite py_bind_Ret by reflexivity.
    erewrite py_bind_Ret; [by rewrite I3|].
    unfold on_table. cbn [mem_cache mem_rows fst]. rewrite (gr_rows _ _ _ _ _ HG). fold t.
    change (Z.to_nat (max_context_len (mem_rows s1))) with (stride s1). rewrite Hst.
    rewrite B2. change (eb_prefix_lens (batch_of bs)) with pre. change (eb_seq_lens (batch_of bs)) with sq. rewrite B3, B4, B5, <-I3, <-W1, <-W2, <-W3, <-W4, <-W5, <-W6.
    rewrite write_cache_indices_ok; [done|exact (mo_table _ _ HM)|done|done|]. rewrite Ho. f_equal. unfold ws. rewrite length_fmap, <-I1, length_fmap. done.
  - apply Forall_forall. intros it Hit. rewrite Forall_forall in Hrows, Houts. split; [exact (Hrows it Hit)|exact (Houts it Hit)].
  - intros r0 Hr0. apply Hother. rewrite <-B1. exact Hr0.
Qed.

(** ** Decode batches *)

(** The row of a request in flight and its next cell. *)
Definition row_has (t : Table) (it : Item) : Prop :=
  exists row, t !! it_row it = Some row /\ take (length (ac_vals (it_act it))) row = ac_vals (it_act it) /\
    (0 < length (ac_vals (it_act it)) < length row)%nat.

Lemma gather_items items (t : Table) :
  Forall (row_has t) items ->
  gather (Z.of_nat <$> (it_row <$> items)) ((fun n => n - 1) <$> (it_pre <$> items)) t
  = Ret ((fun it => last_of (ac_vals (it_act it))) <$> items).
Proof.
  induction 1 as [|it items (row & Hrow & Htk & Hlen) Hf IH]; [done|]. rewrite !fmap_cons. cbn [gather].
  assert (read_cell (Z.of_nat (it_row it)) (it_pre it - 1) t = Ret (last_of (ac_vals (it_act it)))) as ->; [|by rewrite IH].
  set (vs := ac_vals (it_act it)) in *. assert (it_pre it - 1 = Z.of_nat (pred (length vs))) as -> by (unfold it_pre, len; fold vs; lia).
  unfold read_cell. rewrite torch_index_nat by (by eapply lookup_lt_Some). cbn. rewrite Hrow. cbn. rewrite torch_index_nat by lia. cbn.
  unfold last_of. rewrite last_lookup.
  assert (forall k, (k < length vs)%nat -> vs !! k = row !! k) as Hk by (intros k Hk; rewrite <-Htk; by rewrite lookup_take_lt).
  rewrite Hk by lia.
  destruct (lookup_lt_is_Some_2 row (pred (length vs)) ltac:(lia)) as [v ->]. done.
Qed.

Lemma scatter_items items : forall t : Table,
  NoDup (it_row <$> items) -> Forall (row_has t) items -> Forall (fun it => exists o, it_out ps it = [o]) items ->
  scatter (Z.of_nat <$> (it_row <$> items)) (it_pre <$> items) (concat (it_out ps <$> items)) t
  = Ret (foldl write_req t (it_write ps <$> items)).
Proof.
  induction items as [|it items IH]; intros t Hnd Hrow Hout; [done|].
  rewrite fmap_cons in Hnd. apply NoDup_cons in Hnd as [Hn Hnd]. apply Forall_cons in Hrow as [(row & Hr & Htk & Hlen) Hrow].
  apply Forall_cons in Hout as [[o Ho] Hout]. rewrite !fmap_cons. cbn [concat]. rewrite Ho. cbn [app scatter foldl].
  set (vs := ac_vals (it_act it)) in *.
  assert (write_cell (Z.of_nat (it_row it)) (it_pre it) o t = Ret (write_req t (it_write ps it))) as ->.
  { unfold write_cell. rewrite torch_index_nat by (by eapply lookup_lt_Some). cbn. rewrite Hr. cbn. unfold it_pre, len. fold vs.
    rewrite torch_index_nat by lia. cbn. unfold write_req. cbn [it_write w_idx]. rewrite Hr. do 2 f_equal.
    unfold fill_row, w_vals. cbn [it_write w_pre w_new]. fold vs. rewrite Ho, insert_take_drop by lia. rewrite Htk, length_app, <-(assoc_L (++)). cbn [length app].
    by rewrite Nat.add_1_r. }
  cbn [mbind Outcome_bind]. apply IH; [done| |done]. apply Forall_forall. intros it' Hit'. rewrite Forall_forall in Hrow.
  destruct (Hrow it' Hit') as (row' & Hr' & H1 & H2). exists row'. split; [|done]. unfold write_req. cbn [it_write w_idx]. rewrite Hr.
  rewrite list_lookup_insert_ne; [done|]. intros E. apply Hn. rewrite E. by apply list_elem_of_fmap_2.
Qed.

Definition decode_of (bs : list (Active * list Z)) (rows : list nat) : DecodeBatch :=
  mkDecodeBatch (Z.of_nat <$> rows) ((fun b => len (ac_vals b.1)) <$> bs) None.

(** [alloc_for_decode] gives every request of the batch the slot of one more token. *)
Lemma alloc_for_decode_ok acts rest s bs rows :
  live cfg acts (mem_cache s) -> mem_ok acts s -> acts ≡ₚ bs.*1 ++ rest ->
  Forall2 (fun b r => row_of s (ac_rid b.1) = Some (Z.of_nat r)) bs rows ->
  Forall (fun b => length b.2 = 1%nat /\ (0 < length (ac_vals b.1) < stride s)%nat) bs ->
  if pages_needed bs * pg <=? len (kv_owned (kv_pool (mem_cache s))) + evictable_size_ (mem_cache s)
  then exists items s', alloc_for_decode (H := H) cfg sha256 kv_backup (decode_of bs rows) 1 s = (Ret (concat (it_out ps <$> items)), s') /\
       (fun it => (it_act it, it_sfx it)) <$> items = bs /\ it_row <$> items = rows /\
       live cfg ((it_grown ps <$> items) ++ rest) (mem_cache s') /\ mem_ok ((it_grown ps <$> items) ++ rest) s' /\
       mem_rows s' = mem_rows s /\
       all_slots cfg ((it_grown ps <$> items) ++ rest) (mem_cache s') ≡ₚ all_slots cfg acts (mem_cache s)
  else exists s', alloc_for_decode (H := H) cfg sha256 kv_backup (decode_of bs rows) 1 s = (Raise RuntimeError, s') /\
       live cfg acts (mem_cache s').
Proof.
  intros HL HM Hp Hf Hbs. pose proof (Forall2_length _ _ _ Hf) as Hlr.
  set (sq := (fun n => n + 1) <$> db_seq_lens (decode_of bs rows)).
  assert (decode_pre sq = (fun b => len (ac_vals b.1)) <$> bs) as Epre.
  { unfold decode_pre, sq. cbn. rewrite <-!list_fmap_compose. apply list_fmap_ext. intros k b _. cbn. lia. }
  assert (sq = (fun b => len (ac_vals b.1) + len b.2) <$> bs) as Esq.
  { unfold sq. cbn. rewrite <-list_fmap_compose. apply list_fmap_ext. intros k b Hb. cbn.
    destruct (Forall_lookup_1 _ _ _ _ Hbs Hb) as [E1 _]. unfold len. rewrite E1. lia. }
  assert (ordered (decode_pre sq) sq) as Hord.
  { rewrite Epre, Esq. apply Forall2_fmap, Forall_Forall2_diag, Forall_forall. intros b _. unfold len. lia. }
  (* any items with these requests and rows read their last slots from the table *)
  assert (forall shares, length shares = length bs -> exists items, (fun it => (it_act it, it_sfx it)) <$> items = bs /\
    it_share <$> items = shares /\ it_row <$> items = rows /\ Forall (row_has (req_to_token (mem_cache s))) items) as Hitems.
  { intros shares Hs. destruct (make_items bs shares rows Hs (eq_sym Hlr)) as (items & I1 & I2 & I3). exists items. split_and!; [done..|].
    apply Forall_lookup. intros k it Hk.
    assert (bs !! k = Some (it_act it, it_sfx it)) as Hb by (by rewrite <-I1, list_lookup_fmap, Hk).
    assert (rows !! k = Some (it_row it)) as Hr by (by rewrite <-I3, list_lookup_fmap, Hk).
    destruct (Forall_lookup_1 _ _ _ _ Hbs Hb) as [_ Hlen]. pose proof (Forall2_lookup_lr _ _ _ _ _ _ Hf Hb Hr) as Hrow. cbn in Hlen, Hrow.
    pose proof (mo_acts _ _ HM) as M5. rewrite Forall_forall in M5. destruct (M5 (it_act it)) as [_ Hact].
    { rewrite Hp. apply elem_of_app. left. apply list_elem_of_fmap. exists (it_act it, it_sfx it). split; [done|by eapply list_elem_of_lookup_2]. }
    destruct (Hact _ Hrow) as (row & H1 & H2). rewrite Nat2Z.id in H1. exists row. split_and!; [done|done|lia|].
    pose proof (Forall_lookup_1 _ _ _ _ (mo_table _ _ HM) H1) as Hl. cbn in Hl. lia. }
  set (lst := (fun b => last_of (ac_vals b.1)) <$> bs).
  assert (gather (Z.of_nat <$> rows) ((fun n => n - 1) <$> db_seq_lens (decode_of bs rows)) (req_to_token (mem_cache s)) = Ret lst) as Eg.
  { destruct (Hitems (replicate (length bs) [])) as (items & I1 & _ & I3 & Hhas); [by rewrite length_replicate|].
    pose proof (gather_items items _ Hhas) as E. rewrite I3, <-list_fmap_compose in E. unfold lst. cbn [decode_of db_seq_lens]. rewrite <-I1, <-!list_fmap_compose. exact E. }
  assert (length lst = length sq) as Hll by (unfold lst, sq; cbn; by rewrite !length_fmap).
  destruct (decode_slots_ok (H := H) cfg now sha256 Hps Hevents Hd kv_backup acts (mem_cache s) sq lst HL Hord Hll) as (r & c' & E2 & Hres).
  assert (sumZ (num_new_pages_of pg (decode_pre sq) sq) = pages_needed bs) as En by (rewrite Epre, Esq; done). rewrite En in Hres.
  assert (len sq = len (db_seq_lens (decode_of bs rows))) as Elen by (unfold sq, len; by rewrite length_fmap).
  unfold alloc_for_decode. fold sq.
  assert ((if (ps =? 1)%nat
     then r0 ← lift_cache (alloc_token_slots (H := H) cfg sha256 kv_available kv_backup false (len (db_seq_lens (decode_of bs rows)) * 1) false); mret r0.1
     else s0 ← py_get;
       last_loc ← py_lift (gather (db_req_pool_indices (decode_of bs rows)) ((fun n => n - 1) <$> db_seq_lens (decode_of bs rows)) (req_to_token (mem_cache s0)));
       lift_cache (alloc_paged_token_slots_decode (H := H) cfg sha256 sq last_loc)) s = (r, mkMem c' (mem_rows s))) as E3.
  { rewrite <-Elen. destruct (ps =? 1)%nat.
    - unfold mbind, PyM_bind, lift_cache in E2 |- *. destruct (alloc_token_slots _ _ _ _ _ _ _ _) as [[r0|e|] c1]; injection E2 as <- <-; done.
    - unfold mbind, PyM_bind, py_get, py_lift. cbn [decode_of db_req_pool_indices] in Eg |- *. rewrite Eg. unfold lift_cache. by rewrite E2. }
  cbn zeta. rewrite <-Elen in E3 |- *.
  destruct (pages_needed bs * pg <=? _).
  2: { destruct Hres as [-> HG]. exists (mkMem c' (mem_rows s)). split; [unfold mbind at 1, PyM_bind at 1; by rewrite E3|by eapply grants_nil_live]. }
  destruct Hres as (out & shares & -> & He & HG).
  destruct (Hitems shares) as (items & I1 & I2 & I3 & Hhas).
  { rewrite (extended_length _ _ _ _ _ _ He). rewrite Epre. by rewrite length_fmap. }
  assert (Forall (fun it => row_of s (ac_rid (it_act it)) = Some (Z.of_nat (it_row it))) items) as Hrows.
  { rewrite <-I1, <-I3, Forall2_fmap in Hf. apply Forall_lookup. intros k it Hk. exact (Forall2_lookup_lr _ _ _ _ _ _ Hf Hk Hk). }
  assert (bs.*1 = it_act <$> items) as Eacts by (rewrite <-I1, <-list_fmap_compose; done). rewrite Eacts in Hp.
  assert (decode_pre sq = it_pre <$> items) as Ep1 by (rewrite Epre, <-I1, <-list_fmap_compose; done).
  assert (sq = it_seq <$> items) as Es1 by (rewrite Esq, <-I1, <-list_fmap_compose; done).
  assert (lst = (fun it => last_of (ac_vals (it_act it))) <$> items) as El by (unfold lst; rewrite <-I1, <-list_fmap_compose; done).
  rewrite Ep1, El, <-I2 in He. rewrite Es1 in He at 1. destruct (extended_items ps items out He) as [Hsh ->]. rewrite <-I2 in HG.
  assert (forall it, it ∈ items -> length (it_sfx it) = 1%nat /\ (0 < length (ac_vals (it_act it)) < stride s)%nat) as Hit1.
  { intros it Hit. rewrite Forall_forall in Hbs. apply (Hbs (it_act it, it_sfx it)). rewrite <-I1. by apply (list_elem_of_fmap_2 (fun it => (it_act it, it_sfx it))). }
  assert (Forall (fun it => it_seq it <= Z.of_nat (stride s)) items) as Hls.
  { apply Forall_forall. intros it Hit. destruct (Hit1 it Hit) as [E1 E4]. unfold it_seq, len. lia. }
  destruct (items_rows acts rest s s items c' HM Hp HL Hsh Hls (mo_rows _ _ HM) eq_refl eq_refl Hrows ltac:(done)) as (Hw & Hndw & HM').
  assert (Forall (fun it => exists o, it_out ps it = [o]) items) as Houts.
  { apply Forall_forall. intros it Hit. rewrite Forall_forall in Hsh. destruct (grown_ok (mem_cache s) it) as [_ Ho]; [|by apply Hsh|].
    - eapply Forall_forall; [exact (lv_acts _ _ _ HL)|]. rewrite Hp. apply elem_of_app. left. by apply list_elem_of_fmap_2.
    - destruct (Hit1 it Hit) as [E1 _]. rewrite E1 in Ho. destruct (it_out ps it) as [|o [|? ?]]; try done. by exists o. }
  set (t := req_to_token (mem_cache s)) in *. set (t' := foldl write_req t (it_write ps <$> items)) in *.
  exists items, (mkMem (set_req_to_token t' c') (mem_rows s)).
  destruct (items_live acts rest (mem_cache s) c' items t' HL Hp HG Hsh) as [HL' Hall]. split_and!; [|done|done|exact HL'|exact HM'|done|exact Hall].
  erewrite py_bind_Ret by exact E3. erewrite py_bind_Ret; [reflexivity|].
  unfold on_table. cbn [mem_cache mem_rows]. rewrite (gr_rows _ _ _ _ _ HG). fold t. cbn [decode_of db_req_pool_indices db_seq_lens db_encoder_lens].
  assert ((fun b => len (ac_vals b.1)) <$> bs = it_pre <$> items) as -> by (rewrite <-I1, <-list_fmap_compose; done). rewrite <-I3.
  rewrite scatter_items; [done| |done|done]. rewrite <-list_fmap_compose in Hndw. exact Hndw.
Qed.
End extend.
