(* ===== verification/Serving.v ===== *)
(** * Requests from arrival to release

    The scheduler takes a request through the cache and the pools: match and lock its prefix,
    allocate rows and slots for prefill and decode batches, cache it while unfinished, and
    release it.  The theorem: through any interleaving of these steps over any number of
    requests, every KV slot has exactly one owner, and when no request is left the tree and
    the pool have all slots again.  At the end, a run that breaks this when reasoning output
    is stripped from the cache. *)

From stdpp Require Import base tactics list gmap strings.
From Stdlib Require Import ZArith Lia.
From S2P Require Import Prelude PyStr RadixKey TreeNode EvictPolicy Allocator AllocatorProofs BatchAlloc RowTable KVEvents.
From S2P Require Import RadixTree RadixInv RadixPaths RadixSlots RadixWalk RadixProofs RadixLocks RadixEvict RadixClaims.
From S2P Require Import Lifecycle MemAlloc ReqPool MemBatch LiveSet ExtendLive.

(** ** Cutting the pages of a request *)

Section cut.
Context (ps : nat) (Hps : (0 < ps)%nat).
Local Abbreviation pg := (Z.of_nat ps).

(** The first position of a page that is not before [n]. *)
Definition page_up (n : nat) : nat := Z.to_nat (ceil_align (Z.of_nat n) pg).

Lemma page_up_bounds n : aligned ps (page_up n) /\ (n <= page_up n < n + ps)%nat.
Proof.
  unfold page_up, ceil_align. pose proof (ceil_div_bounds (Z.of_nat n) pg ltac:(lia)) as Hb. split; [|lia].
  assert (0 <= ceil_div (Z.of_nat n) pg) by nia.
  replace (Z.to_nat _) with (Z.to_nat (ceil_div (Z.of_nat n) pg) * ps)%nat by nia. apply Nat.Div0.mod_mul.
Qed.

Lemma row_pages_cut row p n G n1 :
  row_pages ps row p n G -> aligned ps p -> (p <= n1 <= n)%nat ->
  let a := ((page_up n1 - p) / ps)%nat in
  row_pages ps row p n1 (take a G) /\
  (if (page_up n1 <? n)%nat then row_pages ps row (page_up n1) n (drop a G) else drop a G = []).
Proof.
  intros [H1 H2] Hp Hn a. destruct (page_up_bounds n1) as [Hu Hu2].
  assert (a * ps = page_up n1 - p)%nat as Ha by (by apply aligned_floor, aligned_sub).
  assert (a <= length G)%nat as Hle by nia. split.
  - split; [|rewrite length_take; nia].
    replace (take n1 row) with (take n1 (take n row)) by (rewrite take_take; f_equal; lia).
    rewrite skipn_firstn_comm, H1, take_take, <-take_expand by done. rewrite take_take. f_equal. lia.
  - destruct (Nat.ltb_spec (page_up n1) n) as [Hlt|Hge].
    + apply row_pages_drop; [done|by split|done|done|lia].
    + apply drop_ge. nia.
Qed.
End cut.

Section serving.
Context {T : Type} `{!KVAllocator T} `{!KVPartial T} `{!BatchKV T} {H : Type} `{!HeapQ H}.
Context (cfg : Config) (now : nat -> Z) (sha256 : list Z -> string).
Local Abbreviation ps := (cfg_page_size cfg).
Local Abbreviation pg := (Z.of_nat (cfg_page_size cfg)).
Context (Hps : (0 < ps)%nat) (Hevents : enable_kv_cache_events cfg = false) (Hd : disable cfg = false).
Context (Heagle : is_eagle cfg = false).
Context (support_triton : bool) {B : Type} (kv_backup : T -> B).
Implicit Types (s : Mem T) (c : Cache T) (acts : list Active) (x : Active).

(** ** The end of a request *)

(** Everything the cache reads of the request agrees with what it holds. *)
Record req_is (r : Req) x : Prop := mkReqIs {
  ri_ek : req_extra_key r = ac_ek x;
  ri_node : last_node r = Some (ac_node x);
  ri_prot : cache_protected_len r = ac_prot x }.

Lemma holds_cut hs others c ek ids row i p G n1 :
  holds cfg hs others c ek ids row i p G -> (p <= n1 <= length ids)%nat ->
  let a := ((page_up ps n1 - p) / ps)%nat in
  holds cfg hs (expand_pages pg (drop a G) ++ others) c ek (take n1 ids) row i p (take a G).
Proof.
  intros [H1 H2 H3 (H4 & H5) H6 H7 H8] Hn a. destruct (row_pages_cut ps Hps row p _ G n1 H7 H4 Hn) as [R1 _].
  assert (length (take n1 ids) = n1) as Hl by (rewrite length_take; lia).
  constructor; [done|done|done|split; [done|lia]| |by rewrite Hl|].
  - unfold units in *. cbn [is_bigram token_ids] in *. rewrite fmap_take, take_take, Nat.min_l by lia. done.
  - rewrite (assoc_L (++) (expand_pages pg (take a G))), <-expand_pages_app, take_drop. done.
Qed.

Lemma lift_cache_Ret {A} (m : PyM (Cache T) A) s a c :
  m (mem_cache s) = (Ret a, c) -> lift_cache m s = (Ret a, mkMem c (mem_rows s)).
Proof. intros E. unfold lift_cache. by rewrite E. Qed.

Lemma get_bind {A} (f : Mem T -> PyM (Mem T) A) s : (py_get ≫= f) s = f s s.
Proof. done. Qed.

(** [rp_free] on the shared table. *)
Lemma free_row_ok x acts s v :
  mem_ok (x :: acts) s -> row_of s (ac_rid x) = Some v ->
  exists s', lift_rows (rp_free (ac_rid x)) s = (Ret tt, s') /\ mem_cache s' = mem_cache s /\ mem_ok acts s' /\ row_of s' (ac_rid x) = None /\
    (forall r, r <> ac_rid x -> row_of s' r = row_of s r) /\ stride s' = stride s.
Proof.
  intros [M1 M2 M3 M4 M5] Hv. unfold row_of in Hv. destruct (reqs (mem_rows s) !! ac_rid x) as [q|] eqn:Hq; [|done]. cbn in Hv.
  unfold lift_rows. destruct (rp_free (ac_rid x) (rows_view s)) as [o p'] eqn:E.
  destruct (rp_free_ok _ _ (rows_view s) _ M1 E) as [Hok Hsz]. unfold rp_free, mbind, PyM_bind, py_get in E. cbn [rows_view reqs] in E.
  rewrite Hq, Hv in E. unfold py_modify in E. injection E as <- <-.
  eexists. split; [done|]. cbn [mem_cache mem_rows set_rows rows_view rp_table]. rewrite set_same_table. split_and!; [done| | | |done].
  - rewrite fmap_cons in M4. apply NoDup_cons in M4 as [Hx M4]. apply Forall_cons in M5 as [_ M5].
    constructor; [exact Hok|exact M2|exact M3|done|]. apply Forall_forall. intros y Hy. rewrite Forall_forall in M5.
    destruct (M5 y Hy) as [S1 S2]. assert (ac_rid x <> ac_rid y) as Hne by (intros E; apply Hx; rewrite E; by apply list_elem_of_fmap_2).
    unfold act_row, row_of. cbn [mem_rows set_rows reqs mem_cache]. by rewrite lookup_insert_ne.
  - unfold row_of. cbn [mem_rows set_rows reqs]. by rewrite lookup_insert_eq.
  - intros r Hr. unfold row_of. cbn [mem_rows set_rows reqs]. by rewrite lookup_insert_ne.
Qed.

(** The request after its release. *)
Definition released_req (v : Z) (k : KVReq) : KVReq :=
  mkKVReq (kr_rid k) (mark_committed_freed (with_row (Z.to_nat v) (kr_req k))) (kv_allocated_len k) true (skip_radix_cache_insert k).

Lemma release_kv_cache_ok x acts s k v spec_algo is_insert :
  live cfg (x :: acts) (mem_cache s) -> mem_ok (x :: acts) s -> kr_rid k = ac_rid x -> row_of s (ac_rid x) = Some v ->
  req_is (kr_req k) x -> kv_committed_freed (kr_req k) = false -> kv_overallocated_freed k = false ->
  kv_allocated_len k = length (ac_ids x) ->
  committed_ids cfg (kr_req k) = take (_cache_commit_len cfg (kr_req k)) (ac_ids x) ->
  (ac_prot x <= _cache_commit_len cfg (kr_req k) <= length (ac_ids x))%nat ->
  (spec_algo = false -> strip_thinking_cache cfg = false -> _cache_commit_len cfg (kr_req k) = length (ac_ids x)) ->
  exists s', release_kv_cache cfg now sha256 spec_algo k is_insert s = (Ret (released_req v k), s') /\
    live cfg acts (mem_cache s') /\ mem_ok acts s' /\ row_of s' (ac_rid x) = None /\
    (forall r, r <> ac_rid x -> row_of s' r = row_of s r) /\ stride s' = stride s /\
    all_slots cfg acts (mem_cache s') ≡ₚ all_slots cfg (x :: acts) (mem_cache s).
Proof.
  intros HL HM Hrid Hv [R1 R2 R3] Hcf Hof Hal Hids Hn Hnospec. set (n1 := _cache_commit_len cfg (kr_req k)) in *.
  pose proof (mo_acts _ _ HM) as M5. apply Forall_cons in M5 as [[_ Hrow] _]. destruct (Hrow v Hv) as (row & Ht & Htk).
  pose proof (lv_acts _ _ _ HL) as LA. apply Forall_cons in LA as [[(A1 & A2 & A3) _ _] LA].
  assert (length (ac_ids x) <= length row)%nat as Hlen by (apply (f_equal length) in Htk; rewrite length_take in Htk; lia).
  rewrite A3 in Htk. pose proof (live_holds cfg Hps x acts (mem_cache s) row HL Htk Hlen) as HH.
  pose proof (holds_cut _ _ _ _ _ _ _ _ _ n1 HH Hn) as HC. cbv zeta in HC. set (a := ((page_up ps n1 - ac_prot x) / ps)%nat) in *.
  destruct HH as [_ _ _ _ _ HRP Hnd].
  destruct (row_pages_cut ps Hps row _ _ _ n1 HRP A1 Hn) as [_ Hcut]. fold a in Hcut.
  set (r := with_row (Z.to_nat v) (kr_req k)).
  assert (committed_ids cfg r = take n1 (ac_ids x)) as Hids' by exact Hids. rewrite <-Hids' in HC.
  change (_cache_commit_len cfg r) with n1 in *.
  rewrite <-R1 in HC. change (req_extra_key (kr_req k)) with (req_extra_key r) in HC.
  destruct (cache_finished_req_ok cfg now sha256 Hps Hevents Hd Heagle _ _ _ r row _ _ _ (is_insert && negb (skip_radix_cache_insert k)) Hcf HC Ht R2 R3)
    as (c1 & E1 & I1 & I2 & (I3 & I4 & I5) & I6 & I7 & I8 & _).
  set (n := length (ac_ids x)) in *.
  assert (NoDup (kv_owned (kv_pool c1) ++ expand_pages pg (drop a (ac_pages x)))) as Hnd1.
  { assert (slots (abs (mem_cache s)) ++ kv_owned (kv_pool (mem_cache s)) ++ expand_pages pg (ac_pages x) ++ expand_pages pg (pages_of acts)
      ≡ₚ (slots (abs c1) ++ kv_owned (kv_pool c1)) ++ expand_pages pg (drop a (ac_pages x)) ++ expand_pages pg (pages_of acts)) as Hp.
    { rewrite I7. rewrite <-(take_drop a (ac_pages x)) at 1. rewrite expand_pages_app. solve_Permutation. }
    rewrite Hp, <-!(assoc_L (++)) in Hnd. apply NoDup_app in Hnd as (_ & _ & Hnd). rewrite (assoc_L (++)) in Hnd. by apply NoDup_app in Hnd as (? & _). }
  (* the slots after the committed tokens *)
  set (c2 := if (page_up ps n1 <? n)%nat then set_pool (kv_free (drop (page_up ps n1) (take n row)) (kv_pool c1)) c1 else c1).
  assert (abs c2 = abs c1 /\ req_to_token c2 = req_to_token c1 /\ kv_ok (kv_pool c2) /\ kv_in_group (kv_pool c2) = false /\ kv_page (kv_pool c2) = pg /\
    kv_owned (kv_pool c2) ≡ₚ kv_owned (kv_pool c1) ++ expand_pages pg (drop a (ac_pages x))) as (C1 & C2 & C3 & C4 & C5 & C6).
  { unfold c2. destruct (page_up ps n1 <? n)%nat.
    - destruct (free_tail_ok cfg Hps row (page_up ps n1) n _ (kv_pool c1) Hcut I3 I4 I5 Hnd1) as (F1 & F2 & F3 & F4). split_and!; done.
    - rewrite Hcut, app_nil_r. split_and!; done. }
  assert (all_slots cfg acts c2 ≡ₚ all_slots cfg (x :: acts) (mem_cache s)) as Hall.
  { unfold all_slots at 1. rewrite C1, C6. transitivity ((slots (abs c1) ++ kv_owned (kv_pool c1)) ++ expand_pages pg (drop a (ac_pages x)) ++ expand_pages pg (pages_of acts)).
    { solve_Permutation. }
    rewrite I7. unfold all_slots, pages_of. rewrite fmap_cons. cbn [concat]. rewrite expand_pages_app. rewrite <-(take_drop a (ac_pages x)) at 3.
    rewrite expand_pages_app. solve_Permutation. }
  set (s2 := mkMem c2 (mem_rows s)).
  assert (mem_ok (x :: acts) s2) as HM2.
  { destruct HM as [M1 M2 M3 M4 M5]. assert (req_to_token c2 = req_to_token (mem_cache s)) as Hrt by (by rewrite C2).
    constructor; [done| | |done|]; cbn [s2 mem_cache mem_rows].
    - by rewrite Hrt.
    - unfold stride in *. cbn [s2 mem_cache mem_rows]. by rewrite Hrt.
    - eapply Forall_impl; [exact M5|]. intros y. unfold act_row, row_of. cbn [s2 mem_cache mem_rows]. by rewrite Hrt. }
  destruct (free_row_ok x acts s2 v HM2 Hv) as (s' & E3 & Ec & HM' & Hfree & Hother & Hstr).
  exists s'. split; [|split_and!; [|exact HM'|exact Hfree|exact Hother|exact Hstr|]].
  - unfold release_kv_cache. rewrite get_bind, Hrid. unfold row_of in Hv. rewrite Hv. cbn [set_kv_req kr_req skip_radix_cache_insert kv_allocated_len kr_rid kv_overallocated_freed].
    fold r. erewrite py_bind_Ret by (apply lift_cache_Ret; exact E1).
    unfold pop_overallocated_kv_cache. cbn [set_kv_req kr_req kv_overallocated_freed kv_allocated_len kr_rid skip_radix_cache_insert]. rewrite Hof.
    erewrite py_bind_Ret by reflexivity. change (_cache_commit_len cfg (mark_committed_freed r)) with n1. rewrite Hal. fold n.
    assert ((if (1 <? ps)%nat then Z.to_nat (ceil_align (Z.of_nat n1) pg) else n1) = page_up ps n1) as ->.
    { destruct (Nat.ltb_spec 1 ps) as [Hlt|Hge]; [done|]. destruct (page_up_bounds ps Hps n1) as [_ Hb]. lia. }
    erewrite py_bind_Ret.
    2: { destruct spec_algo; [reflexivity|]. destruct (strip_thinking_cache cfg); [reflexivity|]. cbn [negb andb]. rewrite (Hnospec eq_refl eq_refl), Nat.eqb_refl. reflexivity. }
    erewrite (py_bind_Ret _ _ _ tt s2).
    2: { unfold s2, c2. destruct (page_up ps n1 <? n)%nat; [|reflexivity]. apply (lift_cache_Ret _ (mkMem c1 (mem_rows s))). cbn [mem_cache].
         erewrite bind_row_prefix; [reflexivity|]. rewrite I6. exact Ht. }
    unfold released_req. rewrite Hrid, Hal. erewrite py_bind_Ret by exact E3. reflexivity.
  - rewrite Ec. cbn [s2 mem_cache]. assert (root_node c2 = root_node c1) as Hr2 by (change (a_root (abs c2) = a_root (abs c1)); by rewrite C1).
    constructor; [by rewrite C1|split_and!; done|by rewrite C1| |].
    + eapply Forall_impl; [exact LA|]. intros y. apply act_ok_mono. intros ek us ws Hp. rewrite C1, Hr2. by apply I8.
    + rewrite Hall. exact (lv_slots _ _ _ HL).
  - rewrite Ec. exact Hall.
Qed.

(** Without stripped output, all committed tokens are reported to the cache. *)
Lemma release_all_ok x acts s k v spec_algo is_insert :
  strip_thinking_cache cfg = false ->
  live cfg (x :: acts) (mem_cache s) -> mem_ok (x :: acts) s -> kr_rid k = ac_rid x -> row_of s (ac_rid x) = Some v ->
  req_is (kr_req k) x -> kv_committed_freed (kr_req k) = false -> kv_overallocated_freed k = false ->
  kv_allocated_len k = length (ac_ids x) -> kv_committed_len (kr_req k) = length (ac_ids x) ->
  ac_ids x `prefix_of` origin_input_ids (kr_req k) ++ output_ids (kr_req k) ->
  exists s', release_kv_cache cfg now sha256 spec_algo k is_insert s = (Ret (released_req v k), s') /\
    live cfg acts (mem_cache s') /\ mem_ok acts s' /\ row_of s' (ac_rid x) = None /\
    (forall r, r <> ac_rid x -> row_of s' r = row_of s r) /\ stride s' = stride s /\
    all_slots cfg acts (mem_cache s') ≡ₚ all_slots cfg (x :: acts) (mem_cache s).
Proof.
  intros Hstrip HL HM Hrid Hv Hreq Hcf Hof Hal Hcl [l Hids].
  assert (_cache_commit_len cfg (kr_req k) = length (ac_ids x)) as Hn by (unfold _cache_commit_len; by rewrite Hstrip).
  pose proof (lv_acts _ _ _ HL) as LA. apply Forall_cons in LA as [[(_ & A2 & A3) _ _] _].
  apply (release_kv_cache_ok x); try done; rewrite ?Hn; [|lia]. unfold committed_ids. rewrite Hn, Hids, take_app_length. by rewrite take_ge.
Qed.

(** ** Caching an unfinished request *)

Lemma unfinished_live x acts s r v chunked :
  live cfg (x :: acts) (mem_cache s) -> mem_ok (x :: acts) s -> row_of s (ac_rid x) = Some v ->
  req_is r x -> fill_ids r = ac_ids x -> req_pool_idx r = Z.to_nat v ->
  exists r' s' j G, lift_cache (cache_unfinished_req cfg now sha256 r chunked) s = (Ret r', s') /\
    let x' := mkActive (ac_rid x) (ac_ek x) (ac_ids x) (prefix_indices r') j (cache_protected_len r') G in
    last_node r' = Some j /\ live cfg (x' :: acts) (mem_cache s') /\ mem_ok (x' :: acts) s' /\ mem_rows s' = mem_rows s /\
    all_slots cfg (x' :: acts) (mem_cache s') ≡ₚ all_slots cfg (x :: acts) (mem_cache s).
Proof.
  intros HL HM Hv [R1 R2 R3] Hids Hidx.
  pose proof (mo_acts _ _ HM) as M5. apply Forall_cons in M5 as [[_ Hrow] _]. destruct (Hrow v Hv) as (row & Ht & Htk).
  pose proof (lv_acts _ _ _ HL) as LA. apply Forall_cons in LA as [[(A1 & A2 & A3) _ _] LA].
  assert (length (ac_ids x) <= length row)%nat as Hlen by (apply (f_equal length) in Htk; rewrite length_take in Htk; lia).
  rewrite A3 in Htk. pose proof (live_holds cfg Hps x acts (mem_cache s) row HL Htk Hlen) as HH.
  rewrite <-R1, <-Hids in HH. rewrite <-Hidx in Ht.
  destruct (cache_unfinished_req_ok cfg now sha256 Hps Hevents Hd Heagle _ _ _ r row _ _ _ chunked HH Ht R2 R3)
    as (r' & c' & row' & j & E & HH' & P1 & P2 & P3 & P4 & P5 & P6 & P7).
  set (G := drop _ (ac_pages x)) in *. exists r', (mkMem c' (mem_rows s)), j, G. split; [by apply lift_cache_Ret|].
  set (x' := mkActive _ _ _ _ _ _ _).
  assert (live cfg (x' :: acts) c') as HL'.
  { apply (holds_live cfg Hps x' acts c' row'); cbn [x' ac_ek ac_ids ac_node ac_prot ac_pages ac_vals].
    - rewrite P2, <-R1, <-Hids. exact HH'.
    - by rewrite P3, Hids.
    - eapply Forall_impl; [exact LA|]. intros y. apply act_ok_mono. intros ek us ws. apply P7. }
  split_and!; [exact P1|exact HL'| |done|].
  - destruct HM as [M1 [M2 M2'] M3 M4 M5]. pose proof (Forall_lookup_1 _ _ _ _ M3 Ht) as Hst. cbn in Hst.
    constructor; [done| | |exact M4|]; cbn [mem_cache mem_rows].
    + rewrite P4, length_insert. done.
    + unfold stride. cbn [mem_cache mem_rows]. rewrite P4. apply Forall_insert; [done|]. rewrite P5. exact Hst.
    + pose proof (lookup_lt_Some _ _ _ Ht) as Hlt. apply Forall_cons in M5 as [Mx M5]. apply Forall_cons. split.
      * split; [apply Mx|]. cbn [x' ac_rid ac_vals]. intros w Hw. assert (w = v) as -> by (unfold row_of in *; cbn in Hw; congruence).
        exists row'. cbn [mem_cache]. rewrite P4, Hidx. split; [rewrite list_lookup_insert_eq by lia; done|].
        destruct HH' as [_ _ _ (_ & Hle) _ _ _]. rewrite P3, length_take. f_equal. lia.
      * apply Forall_forall. intros y Hy. rewrite Forall_forall in M5. destruct (M5 y Hy) as [S1 S2]. split; [done|]. intros w Hw.
        destruct (S2 w Hw) as (rw & T1 & T2). exists rw. split; [|done]. cbn [mem_cache]. rewrite P4, list_lookup_insert_ne; [done|].
        rewrite Hidx. change (row_of s (ac_rid y) = Some w) in Hw. pose proof (row_range s _ _ M1 Hw). pose proof (row_range s _ _ M1 Hv).
        intros E2. assert (w = v) as -> by lia. refine (row_distinct s (ac_rid x) (ac_rid y) v M1 _ Hv Hw). intros E3.
        rewrite fmap_cons in M4. apply NoDup_cons in M4 as [M4 _]. apply M4. rewrite E3. by apply list_elem_of_fmap_2.
  - unfold all_slots, pages_of. rewrite !fmap_cons. cbn [concat x' ac_pages mem_cache]. rewrite !expand_pages_app, !(assoc_L (++)).
    apply Permutation_app_tail. rewrite <-!(assoc_L (++)). exact P6.
Qed.

(** ** A request that starts: match and lock its prefix *)

Lemma start_live rid ids ek acts s :
  live cfg acts (mem_cache s) -> mem_ok acts s -> is_Some (reqs (mem_rows s) !! rid) -> row_of s rid = None -> (rid ∉ ac_rid <$> acts) ->
  exists r d c1 c2, match_prefix cfg now (mkRadixKey ids ek false) (mem_cache s) = (Ret r, c1) /\
    inc_lock_ref cfg (Some (last_device_node r)) c1 = (Ret d, c2) /\
    let n := length (device_indices r) in
    let x := mkActive rid ek (take n ids) (device_indices r) (last_device_node r) n [] in
    live cfg (x :: acts) c2 /\ mem_ok (x :: acts) (mkMem c2 (mem_rows s)) /\ all_slots cfg (x :: acts) c2 ≡ₚ all_slots cfg acts (mem_cache s).
Proof.
  intros [L1 L2 L3 L4 L5] HM Hin Hno Hrid. set (c := mem_cache s) in *. set (k := mkRadixKey ids ek false).
  destruct (match_prefix_ok cfg now Hps (ac_node <$> acts) c k L1 Hd (or_introl eq_refl)) as (r & c1 & m & E1 & [F1 F2] & HW & _).
  pose proof HW as [W1 W2 W3 W4 W5 W6]. set (j := last_device_node r) in *.
  destruct (inc_lock_ref_ok cfg (ac_node <$> acts) c1 j W1 Hd) as (c2 & E2 & I2 & S2 & [G1 G2]); [by eapply path_end|].
  destruct (same_slots cfg _ _ S2) as [Hss Hsp].
  assert (lookup_key cfg k = req_key cfg ids ek) as Hlk.
  { unfold lookup_key, req_key, maybe_to_bigram_view. rewrite Heagle. done. }
  destruct (req_key_ok cfg Hps Heagle ids ek) as (K1 & K2 & K3 & K4 & K5). rewrite Hlk in *. rewrite K2 in *.
  destruct W3 as [Y1 Y2 Y3 _]. rewrite K3 in *. pose proof (full_len_le cfg Hps ids) as Hf.
  assert (length (device_indices r) = m) as Hm by (destruct Y3 as [El _]; rewrite length_take, length_units, K3 in El; lia).
  exists r, (a_ev (abs c2) - a_ev (abs c1)), c1, c2. split_and!; [done|done|]. cbv zeta. rewrite Hm. set (x := mkActive _ _ _ _ _ _ _).
  assert (forall ek us ws h, path (abs c) ek (root_node c) us ws h -> path (abs c2) ek (root_node c2) us ws h) as Hpp.
  { intros ek' us ws h Hp. change (root_node c2) with (a_root (abs c2)). rewrite (sc_root _ _ S2), (ex_root _ _ W2).
    apply (sc_path _ _ S2). by apply (ex_path _ _ W2). }
  assert (all_slots cfg (x :: acts) c2 ≡ₚ all_slots cfg acts c) as Hall.
  { unfold all_slots, pages_of. rewrite fmap_cons. cbn [x ac_pages concat app]. by rewrite Hss, W5, G1, F1. }
  split_and!; [| |done].
  - constructor; [exact I2|by rewrite G1, F1|by apply Hsp, W6| |by rewrite Hall].
    apply Forall_cons. split; [|eapply Forall_impl; [exact L4|]; intros y; apply act_ok_mono; intros ek1 us ws; apply Hpp].
    constructor; cbn [x ac_prot ac_vals ac_ids ac_ek ac_node ac_pages].
    + rewrite Hm, length_take. split_and!; [done|lia|lia].
    + change (root_node c2) with (a_root (abs c2)). rewrite (sc_root _ _ S2), (ex_root _ _ W2). apply (sc_path _ _ S2).
      rewrite (take_ge (device_indices r)) by lia. rewrite K4, take_take, Nat.min_l in W4 by lia.
      unfold units in *. cbn [is_bigram token_ids] in *. rewrite fmap_take, take_take, Nat.min_id. exact W4.
    + rewrite Hm. split; [rewrite Nat.sub_diag, drop_ge by (rewrite length_take; lia); done|simpl; lia].
  - destruct HM as [M1 M2 M3 M4 M5]. assert (req_to_token c2 = req_to_token c) as Hrt by (by rewrite G2, F2).
    constructor; [done| | | |]; cbn [mem_cache mem_rows].
    + by rewrite Hrt.
    + unfold stride in *. cbn [mem_cache mem_rows]. by rewrite Hrt.
    + rewrite fmap_cons. by apply NoDup_cons.
    + apply Forall_cons. split.
      * split; [done|]. intros v Hv. unfold row_of in Hno, Hv. cbn in Hv. congruence.
      * eapply Forall_impl; [exact M5|]. intros y. unfold act_row, row_of. cbn [mem_cache mem_rows]. by rewrite Hrt.
Qed.

(** ** The system of requests *)

(** A request in flight, as the scheduler sees it. *)
Record InFlight := mkInFlight {
  f_rid : nat; f_ek : option string; f_ids : list Z; f_vals : list Z; f_node : nat; f_prot : nat }.

Definition seen x : InFlight := mkInFlight (ac_rid x) (ac_ek x) (ac_ids x) (ac_vals x) (ac_node x) (ac_prot x).

(** The slots in the row of a request. *)
Definition row_vals s (rid n : nat) : list Z :=
  match row_of s rid with
  | Some v => take n (default [] (req_to_token (mem_cache s) !! Z.to_nat v))
  | None => []
  end.
Definition longer s (b : InFlight * list Z) : InFlight :=
  let f := b.1 in
  mkInFlight (f_rid f) (f_ek f) (f_ids f ++ b.2) (row_vals s (f_rid f) (length (f_ids f ++ b.2))) (f_node f) (f_prot f).

Definition extend_batch (bs : list (InFlight * list Z)) : ExtendBatch :=
  mkExtendBatch ((fun b => f_rid b.1) <$> bs) ((fun b => f_vals b.1) <$> bs) ((fun b => len (f_vals b.1)) <$> bs)
    ((fun b => len b.2) <$> bs) ((fun b => len (f_vals b.1) + len b.2) <$> bs) (sumZ ((fun b => len b.2) <$> bs)).
Definition decode_batch (bs : list (InFlight * list Z)) (rows : list nat) : DecodeBatch :=
  mkDecodeBatch (Z.of_nat <$> rows) ((fun b => len (f_vals b.1)) <$> bs) None.

(** The request the cache is handed for [f]. *)
Record is_req (r : Req) (f : InFlight) : Prop := mkIsReq {
  ir_ek : req_extra_key r = f_ek f; ir_node : last_node r = Some (f_node f); ir_prot : cache_protected_len r = f_prot f }.

Definition with_reqs (m : gmap nat PoolReq) s : Mem T := mkMem (mem_cache s) (set_rows (free_rows (mem_rows s)) m (mem_rows s)).

Inductive serve : list InFlight * Mem T -> list InFlight * Mem T -> Prop :=
  (* a request arrives, changes fields other than its row, or leaves *)
  | sv_arrive fs s rid q :
      reqs (mem_rows s) !! rid = None -> pool_idx q = None -> serve (fs, s) (fs, with_reqs (<[rid := q]> (reqs (mem_rows s))) s)
  | sv_update fs s rid q q' :
      reqs (mem_rows s) !! rid = Some q -> pool_idx q' = pool_idx q -> serve (fs, s) (fs, with_reqs (<[rid := q']> (reqs (mem_rows s))) s)
  | sv_leave fs s rid :
      (rid ∉ f_rid <$> fs) -> row_of s rid = None -> serve (fs, s) (fs, with_reqs (delete rid (reqs (mem_rows s))) s)
  (* its prefix is matched and locked *)
  | sv_start fs s rid ids ek r c1 d c2 :
      is_Some (reqs (mem_rows s) !! rid) -> row_of s rid = None -> (rid ∉ f_rid <$> fs) ->
      match_prefix cfg now (mkRadixKey ids ek false) (mem_cache s) = (Ret r, c1) ->
      inc_lock_ref cfg (Some (last_device_node r)) c1 = (Ret d, c2) ->
      serve (fs, s) (mkInFlight rid ek (take (length (device_indices r)) ids) (device_indices r) (last_device_node r)
                       (length (device_indices r)) :: fs, mkMem c2 (mem_rows s))
  (* a prefill batch gets rows and slots *)
  | sv_extend fs s bs rest order o s' :
      fs ≡ₚ bs.*1 ++ rest -> order ≡ₚ List.seq 0 (length bs) ->
      forallb (may_reuse (reqs (mem_rows s))) (List.filter (has_row (reqs (mem_rows s))) ((fun b => f_rid b.1) <$> bs)) = true ->
      Forall (fun b => len (f_vals b.1) + len b.2 <= Z.of_nat (stride s)) bs ->
      alloc_for_extend (H := H) cfg sha256 support_triton order kv_backup (extend_batch bs) s = (Ret o, s') ->
      serve (fs, s) ((longer s' <$> bs) ++ rest, s')
  (* a decode batch gets the slot of one more token each *)
  | sv_decode fs s bs rest rows o s' :
      fs ≡ₚ bs.*1 ++ rest -> Forall2 (fun b r => row_of s (f_rid b.1) = Some (Z.of_nat r)) bs rows ->
      Forall (fun b => length b.2 = 1%nat /\ (0 < length (f_vals b.1) < stride s)%nat) bs ->
      alloc_for_decode (H := H) cfg sha256 kv_backup (decode_batch bs rows) 1 s = (Ret o, s') ->
      serve (fs, s) ((longer s' <$> bs) ++ rest, s')
  (* an unfinished request hands its pages to the tree *)
  | sv_unfinished fs s f rest r v chunked r' j s' :
      fs ≡ₚ f :: rest -> row_of s (f_rid f) = Some v -> is_req r f -> fill_ids r = f_ids f -> req_pool_idx r = Z.to_nat v ->
      lift_cache (cache_unfinished_req cfg now sha256 r chunked) s = (Ret r', s') -> last_node r' = Some j ->
      serve (fs, s) (mkInFlight (f_rid f) (f_ek f) (f_ids f) (prefix_indices r') j (cache_protected_len r') :: rest, s')
  (* a request ends: finished, aborted or retracted; without speculative decoding the tokens
     that have slots are the committed ones *)
  | sv_release fs s f rest k spec_algo is_insert k' s' :
      fs ≡ₚ f :: rest -> is_req (kr_req k) f -> kr_rid k = f_rid f -> is_Some (row_of s (f_rid f)) ->
      kv_committed_freed (kr_req k) = false -> kv_overallocated_freed k = false -> kv_allocated_len k = length (f_ids f) ->
      kv_committed_len (kr_req k) = length (f_ids f) -> f_ids f `prefix_of` origin_input_ids (kr_req k) ++ output_ids (kr_req k) ->
      release_kv_cache cfg now sha256 spec_algo k is_insert s = (Ret k', s') ->
      serve (fs, s) (rest, s').

(** The cache keeps the output of finished requests; see [strip_thinking_frees_tree_slots] for the other setting. *)
Context (Hstrip : strip_thinking_cache cfg = false).

(** What every reachable state keeps: an assignment of pages to the requests. *)
Record served (total : list Z) (st : list InFlight * Mem T) acts : Prop := mkServed {
  sd_seen : seen <$> acts = st.1;
  sd_live : live cfg acts (mem_cache st.2);
  sd_mem : mem_ok acts st.2;
  sd_rows : forall r v, row_of st.2 r = Some v -> r ∈ ac_rid <$> acts;
  sd_total : all_slots cfg acts (mem_cache st.2) ≡ₚ total }.

Lemma mem_ok_perm acts acts' s : acts ≡ₚ acts' -> mem_ok acts s -> mem_ok acts' s.
Proof. intros Hp [M1 M2 M3 M4 M5]. constructor; [done|done|done|by rewrite <-Hp|by rewrite <-Hp]. Qed.

Lemma seen_split acts fs1 fs2 : seen <$> acts ≡ₚ fs1 ++ fs2 ->
  exists a1 a2, acts ≡ₚ a1 ++ a2 /\ seen <$> a1 = fs1 /\ seen <$> a2 = fs2.
Proof.
  intros Hp. symmetry in Hp. apply Permutation_map_inv in Hp as (l & E & Hp). change (map seen l) with (seen <$> l) in E.
  symmetry in E. apply fmap_app_inv in E as (a1 & a2 & E1 & E2 & ->). by exists a1, a2.
Qed.

(** *** Requests that come and go *)

Lemma served_reqs total fs s acts m :
  served total (fs, s) acts -> row_step (mem_rows s) (set_rows (free_rows (mem_rows s)) m (mem_rows s)) ->
  (forall r, m !! r ≫= pool_idx = row_of s r) -> (forall r, r ∈ ac_rid <$> acts -> is_Some (m !! r)) ->
  served total (fs, with_reqs m s) acts.
Proof.
  intros [S1 S2 [M1 M2 M3 M4 M5] S4 S5] Hst Hrow Hin. destruct (row_step_ok _ _ Hst M1) as [Hok _].
  constructor; [done|done| |intros r v; unfold row_of, with_reqs; cbn [snd mem_rows set_rows reqs]; rewrite Hrow; apply S4|done].
  constructor; [exact Hok|exact M2|exact M3|done|]. cbn [snd]. apply Forall_forall. intros x Hx. rewrite Forall_forall in M5.
  destruct (M5 x Hx) as [_ A2]. split; [apply Hin; by apply list_elem_of_fmap_2|].
  intros v Hv. unfold row_of, with_reqs in Hv. cbn [mem_rows set_rows reqs] in Hv. rewrite Hrow in Hv. exact (A2 v Hv).
Qed.

Lemma served_in total fs s acts r : served total (fs, s) acts -> r ∈ ac_rid <$> acts -> is_Some (reqs (mem_rows s) !! r).
Proof.
  intros [_ _ [_ _ _ _ M5] _ _] (x & -> & Hx)%list_elem_of_fmap. rewrite Forall_forall in M5. by apply M5.
Qed.

(** *** Batches *)

(** The batch of the requests with their pages. *)
Lemma with_pages (bs : list (InFlight * list Z)) a1 : seen <$> a1 = bs.*1 ->
  exists bs' : list (Active * list Z), bs'.*1 = a1 /\ bs = (fun b => (seen b.1, b.2)) <$> bs'.
Proof.
  revert a1. induction bs as [|[f sfx] bs IH]; intros [|x a1] E; try done; [by exists []|].
  rewrite !fmap_cons in E. injection E as E1 E2. destruct (IH a1 E2) as (bs' & <- & ->). exists ((x, sfx) :: bs'). rewrite !fmap_cons. cbn [fst snd]. by rewrite E1.
Qed.

(** The requests of a batch in their rows. *)
Lemma seen_grown items rest s' :
  live cfg ((it_grown ps <$> items) ++ rest) (mem_cache s') -> mem_ok ((it_grown ps <$> items) ++ rest) s' ->
  (forall it, it ∈ items -> is_Some (row_of s' (ac_rid (it_act it)))) ->
  seen <$> (it_grown ps <$> items) = (fun it => longer s' (seen (it_act it), it_sfx it)) <$> items.
Proof.
  intros HL HM Hrow. rewrite <-list_fmap_compose. apply list_fmap_ext. intros k it Hk%list_elem_of_lookup_2. cbn [compose].
  assert (it_grown ps it ∈ (it_grown ps <$> items) ++ rest) as Hin by (apply elem_of_app; left; by apply list_elem_of_fmap_2).
  pose proof (lv_acts _ _ _ HL) as LA. rewrite Forall_forall in LA. destruct (LA _ Hin) as [(_ & _ & Hl) _ _].
  pose proof (mo_acts _ _ HM) as MA. rewrite Forall_forall in MA. destruct (MA _ Hin) as [_ Hr].
  destruct (Hrow it Hk) as [v Hv]. destruct (Hr v Hv) as (row & H1 & H2).
  unfold longer, seen. cbn [it_grown ac_rid ac_ek ac_ids ac_vals ac_node ac_prot f_rid f_ek f_ids f_vals f_node f_prot fst snd] in *.
  f_equal. unfold row_vals. rewrite Hv, H1. cbn [default from_option id]. by rewrite <-Hl, H2.
Qed.

Lemma serve_extend total fs s acts bs rest order o s' :
  served total (fs, s) acts -> fs ≡ₚ bs.*1 ++ rest -> order ≡ₚ List.seq 0 (length bs) ->
  forallb (may_reuse (reqs (mem_rows s))) (List.filter (has_row (reqs (mem_rows s))) ((fun b => f_rid b.1) <$> bs)) = true ->
  Forall (fun b => len (f_vals b.1) + len b.2 <= Z.of_nat (stride s)) bs ->
  alloc_for_extend (H := H) cfg sha256 support_triton order kv_backup (extend_batch bs) s = (Ret o, s') ->
  exists acts', served total ((longer s' <$> bs) ++ rest, s') acts'.
Proof.
  intros [S1 S2 S3 S4 S5] Hp Ho Hre Hlen E. cbn [fst snd] in *. rewrite <-S1 in Hp.
  destruct (seen_split acts _ _ Hp) as (a1 & a2 & Ha & E1 & E2). destruct (with_pages bs a1 E1) as (bs' & E3 & E4).
  assert (extend_batch bs = batch_of bs') as Eb by (rewrite E4; unfold extend_batch, batch_of; by rewrite <-!list_fmap_compose).
  rewrite Eb in E. rewrite E4, <-!list_fmap_compose in Hre. rewrite E4 in Hlen, Ho. rewrite length_fmap in Ho. rewrite Forall_fmap in Hlen. rewrite <-E3 in Ha.
  pose proof (alloc_for_extend_ok (H := H) cfg now sha256 Hps Hevents Hd support_triton order kv_backup acts a2 s bs' S2 S3 Ha Hre Hlen Ho) as Hok.
  destruct (_ && _); [|destruct Hok as (s1 & E5 & _); congruence].
  destruct Hok as (items & s1 & E5 & I1 & HL & HM & Hall & Hrows & Hother). rewrite E5 in E. injection E as _ ->.
  exists ((it_grown ps <$> items) ++ a2). constructor; cbn [fst snd]; [|done|done| |by rewrite Hall].
  - rewrite fmap_app, E2. f_equal. rewrite (seen_grown items a2 s' HL HM), E4, <-I1, <-!list_fmap_compose; [done|].
    intros it Hit. rewrite Forall_forall in Hrows. destruct (Hrows it Hit) as [-> _]. by eexists.
  - intros r v Hv. rewrite fmap_app, <-list_fmap_compose. change (ac_rid ∘ it_grown ps) with (fun it => ac_rid (it_act it)).
    destruct (decide (r ∈ (fun b : Active * list Z => ac_rid b.1) <$> bs')) as [Hin|Hnin].
    + apply elem_of_app. left. rewrite <-I1, <-list_fmap_compose in Hin. exact Hin.
    + assert (row_of s r = Some v) as Hv0 by (unfold row_of in *; by rewrite <-(Hother r Hnin)).
      apply S4 in Hv0. rewrite Ha, fmap_app, <-list_fmap_compose in Hv0. apply elem_of_app in Hv0 as [Hv0|Hv0]; [by destruct Hnin|].
      apply elem_of_app. by right.
Qed.

Lemma serve_decode total fs s acts bs rest rows o s' :
  served total (fs, s) acts -> fs ≡ₚ bs.*1 ++ rest -> Forall2 (fun b r => row_of s (f_rid b.1) = Some (Z.of_nat r)) bs rows ->
  Forall (fun b => length b.2 = 1%nat /\ (0 < length (f_vals b.1) < stride s)%nat) bs ->
  alloc_for_decode (H := H) cfg sha256 kv_backup (decode_batch bs rows) 1 s = (Ret o, s') ->
  exists acts', served total ((longer s' <$> bs) ++ rest, s') acts'.
Proof.
  intros [S1 S2 S3 S4 S5] Hp Hf Hlen E. cbn [fst snd] in *. rewrite <-S1 in Hp.
  destruct (seen_split acts _ _ Hp) as (a1 & a2 & Ha & E1 & E2). destruct (with_pages bs a1 E1) as (bs' & E3 & E4).
  assert (decode_batch bs rows = decode_of bs' rows) as Eb by (rewrite E4; unfold decode_batch, decode_of; by rewrite <-!list_fmap_compose).
  rewrite Eb in E. rewrite E4 in Hf, Hlen. apply Forall2_fmap_l in Hf. rewrite Forall_fmap in Hlen. rewrite <-E3 in Ha.
  pose proof (alloc_for_decode_ok (H := H) cfg now sha256 Hps Hevents Hd kv_backup acts a2 s bs' rows S2 S3 Ha Hf Hlen) as Hok.
  destruct (_ <=? _); [|destruct Hok as (s1 & E5 & _); congruence].
  destruct Hok as (items & s1 & E5 & I1 & I3 & HL & HM & Hmr & Hall). rewrite E5 in E. injection E as _ ->.
  exists ((it_grown ps <$> items) ++ a2). constructor; cbn [fst snd]; [|done|done| |by rewrite Hall].
  - rewrite fmap_app, E2. f_equal. rewrite (seen_grown items a2 s' HL HM), E4, <-I1, <-!list_fmap_compose; [done|].
    intros it (k & Hk)%list_elem_of_lookup. assert (bs' !! k = Some (it_act it, it_sfx it)) as Hb by (by rewrite <-I1, list_lookup_fmap, Hk).
    destruct (Forall2_lookup_l _ _ _ _ _ Hf Hb) as (r & _ & Hr). cbn in Hr. unfold row_of in *. rewrite Hmr. rewrite Hr. by eexists.
  - intros r v Hv. rewrite fmap_app, <-list_fmap_compose. change (ac_rid ∘ it_grown ps) with (fun it => ac_rid (it_act it)).
    assert (row_of s r = Some v) as Hv0 by (unfold row_of in *; by rewrite <-Hmr).
    apply S4 in Hv0. rewrite Ha, fmap_app, <-list_fmap_compose, <-I1, <-list_fmap_compose in Hv0. exact Hv0.
Qed.

(** *** Every step *)

Lemma seen_cons acts f rest : seen <$> acts ≡ₚ f :: rest ->
  exists x a2, acts ≡ₚ x :: a2 /\ seen x = f /\ seen <$> a2 = rest.
Proof.
  intros Hp. destruct (seen_split acts [f] rest Hp) as (a1 & a2 & Ha & E1 & E2).
  destruct a1 as [|x [|? ?]]; try done. injection E1 as E1. by exists x, a2.
Qed.

Lemma serve_step total st st' : serve st st' -> (exists acts, served total st acts) -> exists acts', served total st' acts'.
Proof.
  intros Hst [acts HS]. pose proof HS as [S1 S2 S3 S4 S5].
  destruct Hst as [fs s rid q Hq Hi|fs s rid q q' Hq Hi|fs s rid Hnf Hno|fs s rid ids ek r c1 d c2 Hin Hno Hnf Em El
    |fs s bs rest order o s' Hp Ho Hre Hlen E|fs s bs rest rows o s' Hp Hf Hlen E
    |fs s f rest r v chunked r' j s' Hp Hv [R1 R2 R3] Hids Hidx E Hj|fs s f rest k spec ins k' s' Hp [R1 R2 R3] Hrid [v Hv] Hcf Hof Hal Hcl Hids E];
    cbn [fst snd] in *.
  - exists acts. apply served_reqs; [done|by apply row_arrive| |].
    + intros r. unfold row_of. destruct (decide (r = rid)) as [->|Hne]; [rewrite lookup_insert_eq, Hq; cbn; by rewrite Hi|by rewrite lookup_insert_ne].
    + intros r Hr%(served_in _ _ _ _ _ HS). apply lookup_insert_is_Some'. by right.
  - exists acts. apply served_reqs; [done|by eapply row_update| |].
    + intros r. unfold row_of. destruct (decide (r = rid)) as [->|Hne]; [rewrite lookup_insert_eq, Hq; cbn; by rewrite Hi|by rewrite lookup_insert_ne].
    + intros r Hr%(served_in _ _ _ _ _ HS). apply lookup_insert_is_Some'. by right.
  - exists acts. destruct (reqs (mem_rows s) !! rid) as [q|] eqn:Hq.
    + apply served_reqs; [done|eapply row_leave; [exact Hq|]; unfold row_of in Hno; by rewrite Hq in Hno| |].
      * intros r. destruct (decide (r = rid)) as [->|Hne]; [by rewrite lookup_delete_eq, Hno|unfold row_of; by rewrite lookup_delete_ne].
      * intros r Hr. assert (r <> rid) as Hne by (intros ->; apply Hnf; rewrite <-S1, <-list_fmap_compose; exact Hr).
        rewrite lookup_delete_ne by done. by eapply served_in.
    + rewrite delete_id by done. unfold with_reqs. destruct s as [c [? ? ? ? ?]]. exact HS.
  - assert (rid ∉ ac_rid <$> acts) as Hnr by (intros Hr; apply Hnf; rewrite <-S1, <-list_fmap_compose; exact Hr).
    destruct (start_live rid ids ek acts s S2 S3 Hin Hno Hnr) as (r0 & d0 & c3 & c4 & E1 & E2 & HL & HM & Hall).
    rewrite E1 in Em. injection Em as <- <-. rewrite E2 in El. injection El as <- <-.
    eexists (_ :: acts). constructor; cbn [fst snd]; [|exact HL|exact HM| |by rewrite Hall].
    + rewrite fmap_cons, S1. done.
    + intros r1 v Hv. rewrite fmap_cons. right. by apply (S4 r1 v).
  - by eapply serve_extend.
  - by eapply serve_decode.
  - rewrite <-S1 in Hp. destruct (seen_cons acts f rest Hp) as (x & a2 & Ha & <- & <-).
    pose proof (live_perm cfg _ _ _ Ha S2) as HL. pose proof (mem_ok_perm _ _ _ Ha S3) as HM.
    destruct (unfinished_live x a2 s r v chunked HL HM Hv (mkReqIs r x R1 R2 R3) Hids Hidx) as (r1 & s1 & j1 & G & E1 & Hj1 & HL1 & HM1 & Hmr & Hall).
    rewrite E1 in E. injection E as -> ->. assert (j1 = j) as -> by congruence.
    eexists (_ :: a2). constructor; cbn [fst snd]; [|exact HL1|exact HM1| |rewrite Hall, <-(all_slots_perm _ _ _ _ Ha); exact S5].
    + done.
    + intros r1 w Hw. unfold row_of in Hw. rewrite Hmr in Hw. apply S4 in Hw. rewrite Ha in Hw. exact Hw.
  - rewrite <-S1 in Hp. destruct (seen_cons acts f rest Hp) as (x & a2 & Ha & <- & <-).
    pose proof (live_perm cfg _ _ _ Ha S2) as HL. pose proof (mem_ok_perm _ _ _ Ha S3) as HM.
    destruct (release_all_ok x a2 s k v spec ins Hstrip HL HM Hrid Hv (mkReqIs _ x R1 R2 R3) Hcf Hof Hal Hcl Hids)
      as (s1 & E1 & HL1 & HM1 & Hno & Hother & _ & Hall). rewrite E1 in E. injection E as _ ->.
    exists a2. constructor; cbn [fst snd]; [done|exact HL1|exact HM1| |rewrite Hall, <-(all_slots_perm _ _ _ _ Ha); exact S5].
    intros r w Hw. assert (r <> ac_rid x) as Hne by (intros ->; congruence). rewrite Hother in Hw by done.
    apply S4 in Hw. rewrite Ha, fmap_cons in Hw. by apply elem_of_cons in Hw as [?|?].
Qed.

(** With no request in flight nothing is locked. *)
Lemma nothing_locked A : inv ps (is_eagle cfg) [] A -> a_pr A = 0.
Proof.
  intros [HA [_ HL] [_ Hpr] _]. destruct (it_rank HA) as [d Hrk].
  assert (forall r i n, (a_ctr A - d i < r)%nat -> a_ns A !! i = Some n -> i <> a_root A -> sh_lock n = 0) as Hlock.
  { intros r. induction r as [|r IH]; intros i n Hr Hn Hne; [lia|]. specialize (HL i n Hn Hne). change (handles_at [] i) with 0 in HL.
    assert (locks_below A i = 0) as E; [|lia]. apply msum_zero. intros j m Hj. case_decide as Hpar; [|done].
    apply (IH j m); [|done|].
    - destruct (Hrk j m Hj) as [H1 H2]. specialize (H2 i Hpar). lia.
    - intros ->. destruct (it_root HA) as (r0 & Hr0 & Hp0 & _). congruence. }
  rewrite Hpr. apply msum_zero. intros i n Hn. unfold locked_len. case_decide as Hi; [done|].
  by rewrite (Hlock (S (a_ctr A - d i)) i n) by (done || lia).
Qed.

(** Whatever is reachable from an idle system is served. *)
Lemma serving_served s0 fs s :
  live cfg [] (mem_cache s0) -> mem_ok [] s0 -> (forall r, row_of s0 r = None) -> rtc serve ([], s0) (fs, s) ->
  exists acts, served (slots (abs (mem_cache s0)) ++ kv_owned (kv_pool (mem_cache s0))) (fs, s) acts.
Proof.
  intros HL0 HM0 Hno Hst. set (total := slots _ ++ _).
  assert (exists acts, served total ([], s0) acts) as Hinit.
  { exists []. constructor; [done|done|done|intros r v Hv; cbn in Hv; congruence|].
    unfold all_slots, total. cbn [pages_of fmap list_fmap concat expand_pages]. by rewrite app_nil_r. }
  clear -Hst Hinit Hps Hevents Hd Heagle Hstrip KVPartial0. revert Hinit. induction Hst as [|st1 st2 st3 Hs _ IH]; [done|]. intros Hi. apply IH. by eapply serve_step.
Qed.

Corollary serving_live s0 fs s :
  live cfg [] (mem_cache s0) -> mem_ok [] s0 -> (forall r, row_of s0 r = None) -> rtc serve ([], s0) (fs, s) ->
  exists acts, seen <$> acts = fs /\ live cfg acts (mem_cache s) /\ mem_ok acts s.
Proof. intros HL HM Hno Hst. destruct (serving_served s0 fs s HL HM Hno Hst) as [acts [S1 S2 S3 _ _]]. by exists acts. Qed.

(** C1. No KV slot is ever lost or owned twice, whatever requests do.  From an idle system,
    through any interleaving of arrivals, prefix matches, prefill and decode batches, caching
    of unfinished requests and releases (with or without insertion), evictions by all of
    them included, with the tree enabled and its events off, without speculative decoding
    and with [strip_thinking_cache] off (with it on, [strip_thinking_frees_tree_slots] is a
    run that breaks this): the slots of the tree, of the pool and of
    pages owned by the requests are at any time a rearrangement of those at the start; each
    request reads its first tokens from the tree node it holds and the others from its own
    pages.  When no request is in flight, the tree and the pool have every slot again, no
    node is locked and every row is free. *)
Theorem serving_conserves_slots s0 fs s :
  live cfg [] (mem_cache s0) -> mem_ok [] s0 -> (forall r, row_of s0 r = None) -> rtc serve ([], s0) (fs, s) ->
  let c := mem_cache s in
  let total := slots (abs (mem_cache s0)) ++ kv_owned (kv_pool (mem_cache s0)) in
  (exists pages : list (list Z),
     Forall2 (fun f G => row_pages ps (f_vals f) (f_prot f) (length (f_vals f)) G /\
       path (abs c) (f_ek f) (root_node c) (take (f_prot f) (units (mkRadixKey (f_ids f) (f_ek f) false)))
         (take (f_prot f) (f_vals f)) (f_node f)) fs pages /\
     NoDup (slots (abs c) ++ kv_owned (kv_pool c) ++ expand_pages pg (concat pages)) /\
     slots (abs c) ++ kv_owned (kv_pool c) ++ expand_pages pg (concat pages) ≡ₚ total) /\
  (fs = [] -> slots (abs c) ++ kv_owned (kv_pool c) ≡ₚ total /\ protected_size_ c = 0 /\
     free_rows (mem_rows s) ≡ₚ seqZ 1 (rp_size (mem_rows s))).
Proof.
  intros HL0 HM0 Hno Hst c total.
  destruct (serving_served s0 fs s HL0 HM0 Hno Hst) as [acts [S1 S2 S3 S4 S5]]. fold total in S5.
  cbn [fst snd] in *. split.
  - exists (ac_pages <$> acts). split_and!; [|exact (lv_slots _ _ _ S2)|exact S5]. rewrite <-S1. apply Forall2_fmap, Forall_Forall2_diag.
    eapply Forall_impl; [exact (lv_acts _ _ _ S2)|]. intros x [A1 A2 A3]. by split.
  - intros ->. apply fmap_nil_inv in S1 as ->. unfold all_slots in S5. cbn [pages_of fmap list_fmap concat] in S5.
    split_and!.
    + by rewrite app_nil_r in S5.
    + exact (nothing_locked _ (lv_inv _ _ _ S2)).
    + destruct S3 as [M1 _ _ _ _]. unfold rows_ok in M1. rewrite <-M1.
      assert (rows_used (reqs (mem_rows s)) = []) as ->; [|done]. destruct (rows_used (reqs (mem_rows s))) as [|v l] eqn:Eu; [done|].
      assert (v ∈ rows_used (reqs (mem_rows s))) as Hv by (rewrite Eu; left). unfold rows_used in Hv.
      apply list_elem_of_omap in Hv as ([r q] & Hr%elem_of_map_to_list & Hq). cbn in Hq.
      assert (r ∈ ac_rid <$> []) as Hr2 by (apply (S4 r v); unfold row_of; by rewrite Hr). by apply elem_of_nil in Hr2.
Qed.
End serving.

(** ** A request on a small system *)

#[local] Instance serve_alloc : KVAllocator Alloc := paged_KVAllocator false.
#[local] Instance serve_partial : KVPartial Alloc := paged_KVPartial false.
#[local] Instance serve_batch : BatchKV Alloc := paged_BatchKV false.

Definition sv_cache : Cache Alloc := set_req_to_token (replicate 3 (replicate 8 0)) demo2.
Definition sv0 : Mem Alloc := mkMem sv_cache (new_ReqToTokenPool 2 8 ∅).
Definition sv1 : Mem Alloc := with_reqs (<[1%nat := mkPoolReq None 0 0]> ∅) sv0.
Definition sv_match := match_prefix demo_cfg demo_now (mkRadixKey [7; 8; 9; 10; 11] None false) (mem_cache sv1).
Definition sv_lock := inc_lock_ref demo_cfg (Some 1%nat) sv_match.2.
Definition sv2 : Mem Alloc := mkMem sv_lock.2 (mem_rows sv1).
Definition sv_flight : InFlight := mkInFlight 1 None [7; 8; 9; 10] [2; 3; 4; 5] 1 4.
Definition sv_extended := alloc_for_extend (H := list HeapEntry) demo_cfg demo_sha true [0%nat] backup_state (extend_batch [(sv_flight, [11])]) sv2.
Definition sv3 : Mem Alloc := sv_extended.2.
Definition sv_req : KVReq :=
  mkKVReq 1 (mkReq 0 [7; 8; 9; 10] [11] [7; 8; 9; 10; 11] None None 4 (Some 1%nat) [2; 3; 4; 5] 5 false 0) 5 false false.
Definition sv_released := release_kv_cache demo_cfg demo_now demo_sha false sv_req true sv3.
Definition sv4 : Mem Alloc := sv_released.2.

Lemma sv0_live : live demo_cfg [] (mem_cache sv0).
Proof.
  assert (abs (mem_cache sv0) = abs demo2) as Habs by reflexivity. constructor.
  - rewrite Habs. exact demo2_inv.
  - vm_compute. split_and!; try done. apply (bool_decide_eq_true_1 _). vm_compute. reflexivity.
  - rewrite Habs. intros i m Hi. rewrite demo_nodes in Hi.
    apply lookup_insert_Some in Hi as [[<- <-]|[_ Hi]]; [apply paged_nil|].
    apply lookup_singleton_Some in Hi as [<- <-]. exists [1; 2]. split; [reflexivity|]. apply (bool_decide_eq_true_1 _). reflexivity.
  - constructor.
  - apply (bool_decide_eq_true_1 _). vm_compute. reflexivity.
Qed.

Lemma sv0_mem : mem_ok [] sv0.
Proof.
  constructor; [exact (Permutation_refl (seqZ 1 2))|split; [simpl; lia|reflexivity]| |constructor|constructor].
  repeat constructor.
Qed.

Lemma sv_steps : rtc (serve (H := list HeapEntry) demo_cfg demo_now demo_sha true backup_state) ([], sv0) ([], sv4).
Proof.
  eapply rtc_l; [apply (sv_arrive _ _ _ _ _ [] sv0 1 (mkPoolReq None 0 0)); reflexivity|].
  assert (sv_match = (Ret (mkMatchResult [2; 3; 4; 5] 1 1 1), sv_match.2)) as Em by (vm_compute; reflexivity).
  assert (sv_lock = (Ret (-4), sv_lock.2)) as El by (vm_compute; reflexivity).
  eapply rtc_l.
  { apply (sv_start _ _ _ _ _ [] sv1 1 [7; 8; 9; 10; 11] None (mkMatchResult [2; 3; 4; 5] 1 1 1) sv_match.2 (-4) sv_lock.2);
      [by eexists|reflexivity|by apply not_elem_of_nil|exact Em|exact El]. }
  change (mkMem sv_lock.2 (mem_rows sv1)) with sv2.
  assert (alloc_for_extend (H := list HeapEntry) demo_cfg demo_sha true [0%nat] backup_state (extend_batch [(sv_flight, [11])]) sv2 = (Ret ([6], [1]), sv3)) as Ee by (vm_compute; reflexivity).
  eapply rtc_l.
  { apply (sv_extend _ _ _ _ _ [sv_flight] sv2 [(sv_flight, [11])] [] [0%nat] ([6], [1]) sv3);
      [reflexivity|reflexivity|vm_compute; reflexivity| |exact Ee]. repeat constructor. vm_compute. discriminate. }
  assert ((longer sv3 <$> [(sv_flight, [11])]) ++ [] = [mkInFlight 1 None [7; 8; 9; 10; 11] [2; 3; 4; 5; 6] 1 4]) as -> by (vm_compute; reflexivity).
  assert (exists k, sv_released = (Ret k, sv4)) as [k Ek] by (eexists; vm_compute; reflexivity).
  apply rtc_once. eapply (sv_release _ _ _ _ _ _ sv3 _ [] sv_req false true k sv4); [reflexivity|by constructor|reflexivity|..|exact Ek].
  - vm_compute. by eexists.
  - reflexivity.
  - reflexivity.
  - reflexivity.
  - reflexivity.
  - exists []. reflexivity.
Qed.

Lemma serving_conserves_slots_witness :
  rtc (serve (H := list HeapEntry) demo_cfg demo_now demo_sha true backup_state) ([], sv0) ([], sv4) /\
  length (slots (abs (mem_cache sv4)) ++ kv_owned (kv_pool (mem_cache sv4))) = 16%nat /\ protected_size_ (mem_cache sv4) = 0.
Proof.
  destruct (serving_conserves_slots (H := list HeapEntry) demo_cfg demo_now demo_sha demo_ps eq_refl eq_refl eq_refl true backup_state eq_refl
    sv0 [] sv4 sv0_live sv0_mem (fun r => eq_refl) sv_steps) as [_ Hidle].
  destruct (Hidle eq_refl) as (Hp & Hz & _). split; [exact sv_steps|]. split; [rewrite Hp; vm_compute; reflexivity|exact Hz].
Defined.

(** ** Stripped reasoning output and retraction

    With [strip_thinking_cache], a finished request whose output had reasoning tokens keeps
    only its prompt in the tree, and [release_kv_cache] frees the slots of its output.  After
    a retraction the output so far is prefilled again together with the prompt, and that
    prefill is cached: its slots belong to the tree by then.  The request is followed from an
    idle system to its release, which frees slots that the tree still has. *)

Definition strip_cfg : Config := mkConfig false 2 false false false true LRUStrategy.

(** Prompt [21..24] and the output [25..28] of the first run. *)
Definition sp_ids : list Z := [21; 22; 23; 24; 25; 26; 27; 28].
Definition sp0 : Mem Alloc := mkMem (set_req_to_token (replicate 3 (replicate 12 0)) demo2) (new_ReqToTokenPool 2 12 ∅).
Definition sp1 : Mem Alloc := with_reqs (<[1%nat := mkPoolReq None 0 0]> ∅) sp0.
Definition sp_match := match_prefix strip_cfg demo_now (mkRadixKey sp_ids None false) (mem_cache sp1).
Definition sp2 : Mem Alloc := mkMem (inc_lock_ref strip_cfg (Some 0%nat) sp_match.2).2 (mem_rows sp1).
Definition sp_flight : InFlight := mkInFlight 1 None [] [] 0 0.
Definition sp3 : Mem Alloc := (alloc_for_extend (H := list HeapEntry) strip_cfg demo_sha true [0%nat] backup_state (extend_batch [(sp_flight, sp_ids)]) sp2).2.
Definition sp_req : Req := mkReq 1 [21; 22; 23; 24] [25; 26; 27; 28] sp_ids None None 0 (Some 0%nat) [] 8 false 3.
Definition sp_cached := lift_cache (cache_unfinished_req strip_cfg demo_now demo_sha sp_req false) sp3.
Definition sp4 : Mem Alloc := sp_cached.2.
Definition sp_req' : Req := match sp_cached.1 with Ret r => r | _ => sp_req end.
Definition sp_flights : list InFlight := [mkInFlight 1 None sp_ids [6; 7; 8; 9; 10; 11; 12; 13] 2 8].

Lemma sp_steps : rtc (serve (H := list HeapEntry) strip_cfg demo_now demo_sha true backup_state) ([], sp0) (sp_flights, sp4).
Proof.
  eapply rtc_l; [apply (sv_arrive _ _ _ _ _ [] sp0 1 (mkPoolReq None 0 0)); reflexivity|]. change (with_reqs _ _) with sp1.
  assert (match_prefix strip_cfg demo_now (mkRadixKey sp_ids None false) (mem_cache sp1) = (Ret (mkMatchResult [] 0 0 0), sp_match.2)) as Em by (vm_compute; reflexivity).
  assert (inc_lock_ref strip_cfg (Some 0%nat) sp_match.2 = (Ret 0, mem_cache sp2)) as El by (vm_compute; reflexivity).
  eapply rtc_l; [apply (sv_start _ _ _ _ _ [] sp1 1 sp_ids None _ _ _ _ ltac:(by eexists) eq_refl (not_elem_of_nil _) Em El)|].
  assert (mkMem (mem_cache sp2) (mem_rows sp1) = sp2) as -> by (vm_compute; reflexivity).
  assert (alloc_for_extend (H := list HeapEntry) strip_cfg demo_sha true [0%nat] backup_state (extend_batch [(sp_flight, sp_ids)]) sp2
    = (Ret ([6; 7; 8; 9; 10; 11; 12; 13], [1]), sp3)) as Ee by (vm_compute; reflexivity).
  eapply rtc_l.
  { eapply (sv_extend _ _ _ _ _ [sp_flight] sp2 [(sp_flight, sp_ids)] [] [0%nat] _ sp3); [reflexivity|reflexivity|vm_compute; reflexivity| |exact Ee].
    repeat constructor; vm_compute; discriminate. }
  assert ((longer sp3 <$> [(sp_flight, sp_ids)]) ++ [] = [mkInFlight 1 None sp_ids [6; 7; 8; 9; 10; 11; 12; 13] 0 0]) as -> by (vm_compute; reflexivity).
  assert (lift_cache (cache_unfinished_req strip_cfg demo_now demo_sha sp_req false) sp3 = (Ret sp_req', sp4)) as Eu by (vm_compute; reflexivity).
  assert (row_of sp3 1 = Some 1) as Er by (vm_compute; reflexivity).
  assert (sp_flights = [mkInFlight 1 None sp_ids (prefix_indices sp_req') 2 (cache_protected_len sp_req')]) as -> by (vm_compute; reflexivity).
  apply rtc_once. eapply (sv_unfinished _ _ _ _ _ _ sp3 (mkInFlight 1 None sp_ids [6; 7; 8; 9; 10; 11; 12; 13] 0 0) [] sp_req 1 false sp_req' 2 sp4); [reflexivity|exact Er|by constructor|reflexivity|reflexivity|exact Eu|].
  vm_compute. reflexivity.
Qed.

Definition sp_kv : KVReq := mkKVReq 1 sp_req' 8 false false.
Definition sp5 : Mem Alloc := (release_kv_cache strip_cfg demo_now demo_sha false sp_kv true sp4).2.

(** The run through the release of the request leaves the slots of its re-prefilled output
    both in the tree and in the pool: the next allocation hands out slots that a cached
    prefix still uses. *)
Theorem strip_thinking_frees_tree_slots :
  rtc (serve (H := list HeapEntry) strip_cfg demo_now demo_sha true backup_state) ([], sp0) ([], sp5) /\
  10 ∈ slots (abs (mem_cache sp5)) /\ 10 ∈ kv_owned (kv_pool (mem_cache sp5)).
Proof.
  split_and!.
  - eapply rtc_r; [exact sp_steps|].
    assert (exists k, release_kv_cache strip_cfg demo_now demo_sha false sp_kv true sp4 = (Ret k, sp5)) as [k Ek] by (eexists; vm_compute; reflexivity).
    eapply (sv_release _ _ _ _ _ sp_flights sp4 (mkInFlight 1 None sp_ids [6; 7; 8; 9; 10; 11; 12; 13] 2 8) [] sp_kv false true k sp5); [reflexivity| |reflexivity| |reflexivity|reflexivity|reflexivity|reflexivity| |exact Ek].
    + constructor; vm_compute; reflexivity.
    + exists 1. vm_compute. reflexivity.
    + exists []. reflexivity.
  - apply (bool_decide_eq_true_1 _); vm_compute; reflexivity.
  - apply (bool_decide_eq_true_1 _); vm_compute; reflexivity.
Qed.
