(* ===== verification/HiController.v ===== *)
(** * HiCacheController (managers/cache_controller.py)

    The controller moves KV pages between the device, the host pool and a storage backend.
    This file holds its data: transfer operations and their acknowledgements, storage
    operations (objects shared by the scheduler and the storage threads, kept in a store
    under their number), the queues between the threads, and the bodies of the prefetch,
    prefetch-IO and backup threads for one queue item.  The scheduler's side of the
    controller is in HiRadix.v.

    A page of KV data is an abstract type.  Host memory is the data page at each page
    start.  Draft-model pools and the zero-copy variants of page IO are not modelled. *)

From stdpp Require Import base tactics list gmap strings.
From Stdlib Require Import ZArith Lia.
From S2P Require Import Prelude PyStr RadixKey TreeNode KVEvents.

(** ** Transfers between device and host *)

Record CacheOperation := mkCacheOperation {
  co_host_indices : list Z;
  co_device_indices : list Z;
  co_node_ids : list nat;
  co_id : nat;
  co_priority : nat }.

(** An acknowledgement carries its finish event, named by the number of its operation. *)
Record HiCacheAck := mkAck { ack_event : nat; ack_node_ids : list nat }.

Record Transfers := mkTransfers {
  write_queue : list CacheOperation;
  load_queue : list CacheOperation;
  ack_write_queue : list HiCacheAck;
  ack_load_queue : list HiCacheAck;
  co_counter : nat;
  producer_index : Z;
  consumer_index : Z }.

Definition set_write_queue q x := mkTransfers q (load_queue x) (ack_write_queue x) (ack_load_queue x)
  (co_counter x) (producer_index x) (consumer_index x).
Definition set_load_queue q x := mkTransfers (write_queue x) q (ack_write_queue x) (ack_load_queue x)
  (co_counter x) (producer_index x) (consumer_index x).
Definition set_ack_write_queue q x := mkTransfers (write_queue x) (load_queue x) q (ack_load_queue x)
  (co_counter x) (producer_index x) (consumer_index x).
Definition set_ack_load_queue q x := mkTransfers (write_queue x) (load_queue x) (ack_write_queue x) q
  (co_counter x) (producer_index x) (consumer_index x).
Definition set_producer_index i x := mkTransfers (write_queue x) (load_queue x) (ack_write_queue x)
  (ack_load_queue x) (co_counter x) i (consumer_index x).

Definition set_consumer (i : Z) x := mkTransfers (write_queue x) (load_queue x) (ack_write_queue x)
  (ack_load_queue x) (co_counter x) (producer_index x) i.

(** [CacheOperation(...)]: numbered by creation; the number is the default priority. *)
Definition new_CacheOperation (host device : list Z) (ids : list nat) (prio : option nat) :
    PyM Transfers CacheOperation := fun x =>
  (Ret (mkCacheOperation host device ids (co_counter x) (default (co_counter x) prio)),
   mkTransfers (write_queue x) (load_queue x) (ack_write_queue x) (ack_load_queue x)
     (S (co_counter x)) (producer_index x) (consumer_index x)).

Definition co_lt (a b : CacheOperation) : bool := (co_priority a <? co_priority b)%nat.

Definition min_priority (ops : list CacheOperation) (d : nat) : nat :=
  foldr (fun o m => Nat.min (co_priority o) m) d ops.

Definition merge_ops (ops : list CacheOperation) : PyM Transfers CacheOperation :=
  match ops with
  | [] => py_raise AssertionError
  | [op] => mret op
  | op :: _ =>
      new_CacheOperation (concat (co_host_indices <$> ops)) (concat (co_device_indices <$> ops))
        (concat (co_node_ids <$> ops)) (Some (min_priority ops (co_priority op)))
  end.

(** The copy engine runs behind the queue; here its acknowledgement is queued. *)
Definition start_writing : PyM Transfers unit :=
  x ← py_get;
  if (length (write_queue x) =? 0)%nat then mret tt
  else
    op ← merge_ops (write_queue x);
    _ ← py_modify (set_write_queue []);
    py_modify (fun x => set_ack_write_queue (ack_write_queue x ++ [mkAck (co_id op) (co_node_ids op)]) x).

(** [LayerDoneCounter.update_producer] over three counters; [ready] tells whether the finish
    event of a counter's last use has been recorded as done. *)
Definition num_counters : Z := 3.
Definition update_producer (ready : Z -> bool) : PyM Transfers Z :=
  _ ← py_modify (fun x => set_producer_index ((producer_index x + 1) mod num_counters) x);
  x ← py_get;
  _ ← py_assert (ready (producer_index x));
  mret (producer_index x).

Definition layer_counter_reset (x : Transfers) : Transfers := set_consumer (-1) (set_producer_index (-1) x).

Definition start_loading (ready : Z -> bool) : PyM Transfers Z :=
  x ← py_get;
  if (length (load_queue x) =? 0)%nat then mret (-1)
  else
    producer_id ← update_producer ready;
    op ← merge_ops (load_queue x);
    _ ← py_modify (set_load_queue []);
    _ ← py_modify (fun x => set_ack_load_queue (ack_load_queue x ++ [mkAck (co_id op) (co_node_ids op)]) x);
    mret producer_id.

(** ** Storage operations *)

(** A [StorageOperation]; the last three fields are those of [PrefetchOperation]. *)
Record StorageOperation := mkStorageOperation {
  op_host_indices : option (list Z);
  op_token_ids : RadixKey;
  op_last_hash : option string;
  completed_tokens : nat;
  op_hash_value : list string;
  op_prefix_keys : option (list string);
  request_id : string;
  terminated_flag : bool;
  start_time : Z }.

Definition new_StorageOperation (host : list Z) (toks : RadixKey) (hashes pk : option (list string)) :
    StorageOperation :=
  mkStorageOperation (Some host) toks None 0 (default [] hashes) pk "" false 0.

Definition new_PrefetchOperation (rid : string) (host : option (list Z)) (toks : RadixKey)
    (last_hash : option string) (pk : option (list string)) (t : Z) : StorageOperation :=
  mkStorageOperation host toks last_hash 0 [] pk rid false t.

Definition set_completed c o := mkStorageOperation (op_host_indices o) (op_token_ids o) (op_last_hash o) c
  (op_hash_value o) (op_prefix_keys o) (request_id o) (terminated_flag o) (start_time o).
Definition set_op_hash h o := mkStorageOperation (op_host_indices o) (op_token_ids o) (op_last_hash o)
  (completed_tokens o) h (op_prefix_keys o) (request_id o) (terminated_flag o) (start_time o).
Definition set_op_host i o := mkStorageOperation i (op_token_ids o) (op_last_hash o)
  (completed_tokens o) (op_hash_value o) (op_prefix_keys o) (request_id o) (terminated_flag o) (start_time o).
Definition set_op_prefix p o := mkStorageOperation (op_host_indices o) (op_token_ids o) (op_last_hash o)
  (completed_tokens o) (op_hash_value o) p (request_id o) (terminated_flag o) (start_time o).

(** [increment]: refused once the operation is terminated. *)
Definition increment (num_tokens : nat) (o : StorageOperation) : bool * StorageOperation :=
  if terminated_flag o then (false, o) else (true, set_completed (completed_tokens o + num_tokens) o).

Definition mark_terminate (o : StorageOperation) : StorageOperation :=
  mkStorageOperation (op_host_indices o) (op_token_ids o) (op_last_hash o) (completed_tokens o)
    (op_hash_value o) (op_prefix_keys o) (request_id o) true (start_time o).

Definition is_terminated (o : StorageOperation) : bool := terminated_flag o.

(** ** The storage side of the controller *)

(** What the controller calls on a storage backend. *)
Class StorageBackend (B Page : Type) := {
  sb_batch_exists : list string -> option (list string) -> PyM B nat;
  sb_batch_get : list string -> PyM B (option (list (option Page)));
  sb_batch_set : list string -> list Page -> PyM B bool }.

Record Sto (B Page : Type) := mkSto {
  sto_ops : gmap nat StorageOperation;
  sto_counter : nat;
  prefetch_queue : list nat;
  prefetch_buffer : list nat;
  backup_queue : list nat;
  prefetch_revoke_queue : list string;
  ack_backup_queue : list nat;
  host_mem_release_queue : list (list Z);
  prefetch_tokens_occupied : Z;
  backend : B;
  host_data : gmap Z Page }.
Arguments mkSto {B Page}.
Arguments sto_ops {B Page}.
Arguments sto_counter {B Page}.
Arguments prefetch_queue {B Page}.
Arguments prefetch_buffer {B Page}.
Arguments backup_queue {B Page}.
Arguments prefetch_revoke_queue {B Page}.
Arguments ack_backup_queue {B Page}.
Arguments host_mem_release_queue {B Page}.
Arguments prefetch_tokens_occupied {B Page}.
Arguments backend {B Page}.
Arguments host_data {B Page}.

Section controller.
Context {B Page : Type} `{!StorageBackend B Page}.
(** The page size, the digest, the number of pages per storage call and the content of
    fresh host memory. *)
Context (ps : nat) (sha256 : list Z -> string) (storage_batch_size : nat) (blank : Page).
Local Abbreviation S := (Sto B Page).
Local Abbreviation M := (PyM S).

Definition sto_set_ops m (x : S) : S := mkSto m (sto_counter x) (prefetch_queue x) (prefetch_buffer x)
  (backup_queue x) (prefetch_revoke_queue x) (ack_backup_queue x) (host_mem_release_queue x)
  (prefetch_tokens_occupied x) (backend x) (host_data x).
Definition set_prefetch_queue q (x : S) : S := mkSto (sto_ops x) (sto_counter x) q (prefetch_buffer x)
  (backup_queue x) (prefetch_revoke_queue x) (ack_backup_queue x) (host_mem_release_queue x)
  (prefetch_tokens_occupied x) (backend x) (host_data x).
Definition set_prefetch_buffer q (x : S) : S := mkSto (sto_ops x) (sto_counter x) (prefetch_queue x) q
  (backup_queue x) (prefetch_revoke_queue x) (ack_backup_queue x) (host_mem_release_queue x)
  (prefetch_tokens_occupied x) (backend x) (host_data x).
Definition set_backup_queue q (x : S) : S := mkSto (sto_ops x) (sto_counter x) (prefetch_queue x)
  (prefetch_buffer x) q (prefetch_revoke_queue x) (ack_backup_queue x) (host_mem_release_queue x)
  (prefetch_tokens_occupied x) (backend x) (host_data x).
Definition set_revoke_queue q (x : S) : S := mkSto (sto_ops x) (sto_counter x) (prefetch_queue x)
  (prefetch_buffer x) (backup_queue x) q (ack_backup_queue x) (host_mem_release_queue x)
  (prefetch_tokens_occupied x) (backend x) (host_data x).
Definition set_ack_backup_queue q (x : S) : S := mkSto (sto_ops x) (sto_counter x) (prefetch_queue x)
  (prefetch_buffer x) (backup_queue x) (prefetch_revoke_queue x) q (host_mem_release_queue x)
  (prefetch_tokens_occupied x) (backend x) (host_data x).
Definition set_release_queue q (x : S) : S := mkSto (sto_ops x) (sto_counter x) (prefetch_queue x)
  (prefetch_buffer x) (backup_queue x) (prefetch_revoke_queue x) (ack_backup_queue x) q
  (prefetch_tokens_occupied x) (backend x) (host_data x).
Definition set_occupied n (x : S) : S := mkSto (sto_ops x) (sto_counter x) (prefetch_queue x)
  (prefetch_buffer x) (backup_queue x) (prefetch_revoke_queue x) (ack_backup_queue x)
  (host_mem_release_queue x) n (backend x) (host_data x).
Definition set_backend b (x : S) : S := mkSto (sto_ops x) (sto_counter x) (prefetch_queue x)
  (prefetch_buffer x) (backup_queue x) (prefetch_revoke_queue x) (ack_backup_queue x)
  (host_mem_release_queue x) (prefetch_tokens_occupied x) b (host_data x).
Definition set_host_data d (x : S) : S := mkSto (sto_ops x) (sto_counter x) (prefetch_queue x)
  (prefetch_buffer x) (backup_queue x) (prefetch_revoke_queue x) (ack_backup_queue x)
  (host_mem_release_queue x) (prefetch_tokens_occupied x) (backend x) d.

Definition get_op (i : nat) : M StorageOperation := fun x =>
  match sto_ops x !! i with Some o => (Ret o, x) | None => (Raise AttributeError, x) end.
Definition put_op (i : nat) (o : StorageOperation) : M unit :=
  py_modify (fun x => sto_set_ops (<[i := o]> (sto_ops x)) x).

(** A new operation object; its number is [StorageOperation.counter]. *)
Definition add_op (o : StorageOperation) : M nat := fun x =>
  (Ret (sto_counter x),
   mkSto (<[sto_counter x := o]> (sto_ops x)) (Datatypes.S (sto_counter x)) (prefetch_queue x) (prefetch_buffer x)
     (backup_queue x) (prefetch_revoke_queue x) (ack_backup_queue x) (host_mem_release_queue x)
     (prefetch_tokens_occupied x) (backend x) (host_data x)).

Definition on_backend {A} (m : PyM B A) : M A := fun x =>
  let '(r, b) := m (backend x) in (r, set_backend b x).

(** *** Calls of the scheduler thread *)

Definition prefetch (rid : string) (host : option (list Z)) (toks : RadixKey)
    (last_hash : option string) (pk : option (list string)) (t : Z) : M nat :=
  i ← add_op (new_PrefetchOperation rid host toks last_hash pk t);
  _ ← py_modify (fun x => set_prefetch_queue (prefetch_queue x ++ [i]) x);
  mret i.

Definition ctl_terminate_prefetch (i : nat) : M (nat * list string) :=
  o ← get_op i;
  _ ← put_op i (mark_terminate o);
  mret (completed_tokens o, op_hash_value o).

(** [torch.split]: chunks of [p] indices, the last one possibly shorter. *)
Definition split_pages (idx : list Z) : list (list Z) := chunks (length idx) ps idx.

Definition append_host_mem_release (idx : list Z) : M unit :=
  if (length idx =? 0)%nat then mret tt
  else py_modify (fun x => set_release_queue (host_mem_release_queue x ++ split_pages idx) x).

Definition prefetch_rate_limited (limit : Z) : M bool :=
  x ← py_get; mret (limit <=? prefetch_tokens_occupied x).

Definition write_storage (host : list Z) (toks : RadixKey) (hashes pk : option (list string)) : M nat :=
  i ← add_op (new_StorageOperation host toks hashes pk);
  _ ← py_modify (fun x => set_backup_queue (backup_queue x ++ [i]) x);
  mret i.

(** *** The prefetch thread *)

(** The hashes of the pages of a batch, chained to [last_hash]. *)
Fixpoint batch_hash_loop (pages : list (list KeyUnit)) (last_hash : option string) : Outcome (list string) :=
  match pages with
  | [] => Ret []
  | p :: ps' => h ← get_hash_str sha256 p last_hash; r ← batch_hash_loop ps' (Some h); Ret (h :: r)
  end.

(** [if prefix_keys and len(prefix_keys) > 0: prefix_keys += batch_hashes] *)
Definition extend_prefix (pk : option (list string)) (hs : list string) : option (list string) :=
  match pk with
  | Some (x :: l) => Some ((x :: l) ++ hs)
  | _ => pk
  end.

(** One round per batch of [storage_batch_size] pages of what is left of the key. *)
Fixpoint storage_hit_loop (fuel : nat) (rest : list KeyUnit) (last_hash : option string)
    (pk : option (list string)) (hash_value : list string) (count : nat) : M (list string * nat) :=
  match fuel with
  | O => py_lift OutOfFuel
  | Datatypes.S f =>
      if (length rest =? 0)%nat then mret (hash_value, count)
      else
        let batch := take (ps * storage_batch_size) rest in
        batch_hashes ← py_lift (batch_hash_loop (chunks (length batch) ps batch) last_hash);
        hit_page_num ← on_backend (sb_batch_exists batch_hashes pk);
        let hash_value := hash_value ++ take hit_page_num batch_hashes in
        let count := (count + hit_page_num * ps)%nat in
        if (hit_page_num <? length batch_hashes)%nat then mret (hash_value, count)
        else storage_hit_loop f (drop (ps * storage_batch_size) rest) (last batch_hashes)
               (extend_prefix pk batch_hashes) hash_value count
  end.

(** [operation.prefix_keys.copy() if operation.prefix_keys else None] *)
Definition copy_prefix (pk : option (list string)) : option (list string) :=
  match pk with Some (x :: l) => Some (x :: l) | _ => None end.

Definition _storage_hit_query (o : StorageOperation) : M (list string * nat) :=
  let us := units (op_token_ids o) in
  storage_hit_loop (Datatypes.S (length us)) us (op_last_hash o) (copy_prefix (op_prefix_keys o)) [] 0.

Definition host_slice (o : StorageOperation) : M (list Z) :=
  match op_host_indices o with Some l => mret l | None => py_raise TypeError end.

(** One item of the prefetch queue; [reduce_min] is the all-reduce over the prefetch groups. *)
Definition prefetch_thread_item (threshold : Z) (reduce_min : nat -> nat) : M unit :=
  x ← py_get;
  match prefetch_queue x with
  | [] => mret tt
  | i :: q =>
      _ ← py_modify (set_prefetch_queue q);
      o ← get_op i;
      r ← _storage_hit_query o;
      let storage_hit_count := reduce_min r.2 in
      if Z.of_nat storage_hit_count <? threshold then
        _ ← py_modify (fun x => set_revoke_queue (prefetch_revoke_queue x ++ [request_id o]) x);
        host ← host_slice o;
        append_host_mem_release host
      else
        o ← get_op i;
        _ ← put_op i (set_op_hash (take (storage_hit_count / ps) r.1) o);
        host ← host_slice o;
        _ ← append_host_mem_release (drop storage_hit_count host);
        o ← get_op i;
        _ ← put_op i (set_op_host (Some (take storage_hit_count host)) o);
        py_modify (fun x => set_prefetch_buffer (prefetch_buffer x ++ [i]) x)
  end.

(** *** The prefetch IO thread *)

Definition set_from_flat_data_page (index : Z) (data : Page) : M unit :=
  py_modify (fun x => set_host_data (<[index := data]> (host_data x)) x).
Definition get_data_page (index : Z) : M Page :=
  x ← py_get; mret (default blank (host_data x !! index)).

Definition index_or_raise {A} (l : list A) (i : nat) : M A :=
  match l !! i with Some a => mret a | None => py_raise IndexError end.

(** [for i in range(len(hash_values))]: stop at a missing page or a terminated operation. *)
Fixpoint page_get_loop (op : nat) (n i : nat) (page_data : list (option Page)) (host : list Z) : M unit :=
  match n with
  | O => mret tt
  | Datatypes.S n' =>
      d ← index_or_raise page_data i;
      match d with
      | None => mret tt
      | Some data =>
          index ← index_or_raise host (i * ps);
          _ ← set_from_flat_data_page index data;
          o ← get_op op;
          let '(ok, o') := increment ps o in
          _ ← put_op op o';
          if ok then page_get_loop op n' (Datatypes.S i) page_data host else mret tt
      end
  end.

Definition _generic_page_get (op : nat) (hash_values : list string) (host : list Z) : M unit :=
  page_data ← on_backend (sb_batch_get hash_values);
  match page_data with
  | None => mret tt
  | Some pd => page_get_loop op (length hash_values) 0 pd host
  end.

Fixpoint page_transfer_loop (fuel : nat) (op i : nat) : M unit :=
  match fuel with
  | O => py_lift OutOfFuel
  | Datatypes.S f =>
      o ← get_op op;
      if (i <? length (op_hash_value o))%nat then
        let batch_hashes := slice (op_hash_value o) i (i + storage_batch_size) in
        host ← host_slice o;
        let batch_host := slice host (i * ps) ((i + length batch_hashes) * ps) in
        let prev := completed_tokens o in
        _ ← _generic_page_get op batch_hashes batch_host;
        o ← get_op op;
        if negb (completed_tokens o =? prev + length batch_hashes * ps)%nat then
          put_op op (mark_terminate o)
        else
          _ ← put_op op (set_op_prefix (extend_prefix (op_prefix_keys o) batch_hashes) o);
          page_transfer_loop f op (i + storage_batch_size)
      else mret tt
  end.

Definition _page_transfer (op : nat) : M unit :=
  o ← get_op op; page_transfer_loop (Datatypes.S (length (op_hash_value o))) op 0.

(** One item of the prefetch buffer; an exception other than [Empty] ends the thread. *)
Definition prefetch_io_aux_item : M unit :=
  x ← py_get;
  match prefetch_buffer x with
  | [] => mret tt
  | i :: q =>
      _ ← py_modify (set_prefetch_buffer q);
      _ ← _page_transfer i;
      o ← get_op i;
      host ← host_slice o;
      append_host_mem_release (drop (completed_tokens o) host)
  end.

(** *** The backup thread *)

Fixpoint read_pages (n i : nat) (host : list Z) : M (list Page) :=
  match n with
  | O => mret []
  | Datatypes.S n' =>
      index ← index_or_raise host (i * ps);
      d ← get_data_page index;
      r ← read_pages n' (Datatypes.S i) host;
      mret (d :: r)
  end.

Definition _generic_page_set (hash_values : list string) (host : list Z) : M bool :=
  data ← read_pages (length hash_values) 0 host;
  on_backend (sb_batch_set hash_values data).

Fixpoint page_backup_loop (fuel : nat) (op i : nat) : M unit :=
  match fuel with
  | O => py_lift OutOfFuel
  | Datatypes.S f =>
      o ← get_op op;
      if (i <? length (op_hash_value o))%nat then
        let batch_hashes := slice (op_hash_value o) i (i + storage_batch_size) in
        host ← host_slice o;
        let batch_host := slice host (i * ps) ((i + length batch_hashes) * ps) in
        success ← _generic_page_set batch_hashes batch_host;
        if negb success then mret tt
        else
          let o := set_op_prefix (extend_prefix (op_prefix_keys o) batch_hashes) o in
          _ ← put_op op (set_completed (completed_tokens o + ps * length batch_hashes) o);
          page_backup_loop f op (i + storage_batch_size)
      else mret tt
  end.

Definition _page_backup (op : nat) : M unit :=
  o ← get_op op; page_backup_loop (Datatypes.S (length (op_hash_value o))) op 0.

(** One item of the backup queue; only one rank of an MLA model writes. *)
Definition backup_thread_item (backup_skip : bool) : M unit :=
  x ← py_get;
  match backup_queue x with
  | [] => mret tt
  | i :: q =>
      _ ← py_modify (set_backup_queue q);
      _ ← (if backup_skip then mret tt else _page_backup i);
      py_modify (fun x => set_ack_backup_queue (ack_backup_queue x ++ [i]) x)
  end.
End controller.
