(* ===== verification/HiRadix.v ===== *)
(** * HiRadixCache (mem_cache/hiradix_cache.py)

    The radix cache over three tiers: device, host memory and a storage backend.  A node
    holds device indices ([value]), host indices ([host_value]) or both.  The state adds to
    the radix cache of RadixTree.v the host pool, the evictable host leaves, the ongoing
    transfers and the storage side of the controller.

    Node objects unlinked by [evict_host] stay in the store, as Python keeps an object that
    is still referenced; [unlinked] records which they are (no operation reads it).  What
    other ranks and the copy engine decide is an argument of the operation: which transfer
    events are finished, and the result of an all-reduce. *)

From stdpp Require Import base tactics list gmap strings.
From Stdlib Require Import ZArith Lia.
From S2P Require Import Prelude PyStr RadixKey TreeNode EvictPolicy Allocator AllocatorProofs KVEvents.
From S2P Require Import RadixTree ReqPool HiController.

(** Settings that [attach_storage_backend] may change at run time.  Times are in one integer
    unit; the linear timeout is compared without rounding. *)
Record Policies := mkPolicies {
  enable_storage : bool;
  write_policy : string;
  write_through_threshold : Z;
  prefetch_stop_policy : string;
  prefetch_threshold : Z;
  ctl_prefetch_threshold : Z;
  prefetch_capacity_limit : Z;
  timeout_base : Z;
  timeout_per_ki_token : Z;
  timeout_max : Z;
  pass_prefix_keys : bool }.

(** An entry of [ongoing_prefetch]: node, key, host indices and operation. *)
Record PrefetchInfo := mkPrefetchInfo {
  pi_node : nat;
  pi_key : RadixKey;
  pi_host : option (list Z);
  pi_op : nat }.

Record HiCache (T B Page : Type) := mkHi {
  tree : Cache T;
  unlinked : gset nat;
  host : HostSlots;
  evictable_host_leaves : gset nat;
  ongoing_write_through : gset nat;
  ongoing_load_back : gset nat;
  xfer : Transfers;
  pol : Policies;
  ongoing_prefetch : list (string * PrefetchInfo);
  ongoing_backup : list (nat * nat);
  prefetch_loaded_tokens_by_reqid : list (string * Z);
  sto : Sto B Page }.
Arguments mkHi {T B Page}.
Arguments tree {T B Page}.
Arguments unlinked {T B Page}.
Arguments host {T B Page}.
Arguments evictable_host_leaves {T B Page}.
Arguments ongoing_write_through {T B Page}.
Arguments ongoing_load_back {T B Page}.
Arguments xfer {T B Page}.
Arguments pol {T B Page}.
Arguments ongoing_prefetch {T B Page}.
Arguments ongoing_backup {T B Page}.
Arguments prefetch_loaded_tokens_by_reqid {T B Page}.
Arguments sto {T B Page}.

(** A [MatchResult] with the length found on the host only. *)
Record HiMatchResult := mkHiMatch { hm_match : MatchResult; host_hit_length : nat }.

Definition load_back_threshold : nat := 10.

Section hiradix.
Context {T : Type} `{!KVAllocator T} {H : Type} `{!HeapQ H} {B Page : Type} `{!StorageBackend B Page}.
Context (cfg : Config) (now : nat -> Z) (sha256 : list Z -> string).
Local Abbreviation Hi := (HiCache T B Page).
Local Abbreviation HM := (PyM Hi).
Local Abbreviation ps := (cfg_page_size cfg).

(** ** The parts of the state *)

Definition hs_tree t (s : Hi) : Hi := mkHi t (unlinked s) (host s) (evictable_host_leaves s)
  (ongoing_write_through s) (ongoing_load_back s) (xfer s) (pol s) (ongoing_prefetch s)
  (ongoing_backup s) (prefetch_loaded_tokens_by_reqid s) (sto s).
Definition hs_unlinked u (s : Hi) : Hi := mkHi (tree s) u (host s) (evictable_host_leaves s)
  (ongoing_write_through s) (ongoing_load_back s) (xfer s) (pol s) (ongoing_prefetch s)
  (ongoing_backup s) (prefetch_loaded_tokens_by_reqid s) (sto s).
Definition hs_host h (s : Hi) : Hi := mkHi (tree s) (unlinked s) h (evictable_host_leaves s)
  (ongoing_write_through s) (ongoing_load_back s) (xfer s) (pol s) (ongoing_prefetch s)
  (ongoing_backup s) (prefetch_loaded_tokens_by_reqid s) (sto s).
Definition hs_leaves l (s : Hi) : Hi := mkHi (tree s) (unlinked s) (host s) l
  (ongoing_write_through s) (ongoing_load_back s) (xfer s) (pol s) (ongoing_prefetch s)
  (ongoing_backup s) (prefetch_loaded_tokens_by_reqid s) (sto s).
Definition hs_writes w (s : Hi) : Hi := mkHi (tree s) (unlinked s) (host s) (evictable_host_leaves s)
  w (ongoing_load_back s) (xfer s) (pol s) (ongoing_prefetch s)
  (ongoing_backup s) (prefetch_loaded_tokens_by_reqid s) (sto s).
Definition hs_loads l (s : Hi) : Hi := mkHi (tree s) (unlinked s) (host s) (evictable_host_leaves s)
  (ongoing_write_through s) l (xfer s) (pol s) (ongoing_prefetch s)
  (ongoing_backup s) (prefetch_loaded_tokens_by_reqid s) (sto s).
Definition hs_xfer x (s : Hi) : Hi := mkHi (tree s) (unlinked s) (host s) (evictable_host_leaves s)
  (ongoing_write_through s) (ongoing_load_back s) x (pol s) (ongoing_prefetch s)
  (ongoing_backup s) (prefetch_loaded_tokens_by_reqid s) (sto s).
Definition hs_pol p (s : Hi) : Hi := mkHi (tree s) (unlinked s) (host s) (evictable_host_leaves s)
  (ongoing_write_through s) (ongoing_load_back s) (xfer s) p (ongoing_prefetch s)
  (ongoing_backup s) (prefetch_loaded_tokens_by_reqid s) (sto s).
Definition hs_prefetch d (s : Hi) : Hi := mkHi (tree s) (unlinked s) (host s) (evictable_host_leaves s)
  (ongoing_write_through s) (ongoing_load_back s) (xfer s) (pol s) d
  (ongoing_backup s) (prefetch_loaded_tokens_by_reqid s) (sto s).
Definition hs_backup d (s : Hi) : Hi := mkHi (tree s) (unlinked s) (host s) (evictable_host_leaves s)
  (ongoing_write_through s) (ongoing_load_back s) (xfer s) (pol s) (ongoing_prefetch s)
  d (prefetch_loaded_tokens_by_reqid s) (sto s).
Definition hs_loaded d (s : Hi) : Hi := mkHi (tree s) (unlinked s) (host s) (evictable_host_leaves s)
  (ongoing_write_through s) (ongoing_load_back s) (xfer s) (pol s) (ongoing_prefetch s)
  (ongoing_backup s) d (sto s).
Definition hs_sto x (s : Hi) : Hi := mkHi (tree s) (unlinked s) (host s) (evictable_host_leaves s)
  (ongoing_write_through s) (ongoing_load_back s) (xfer s) (pol s) (ongoing_prefetch s)
  (ongoing_backup s) (prefetch_loaded_tokens_by_reqid s) x.

(** Running an operation of a part. *)
Definition on_tree {A} (m : PyM (Cache T) A) : HM A := fun s =>
  let '(r, t) := m (tree s) in (r, hs_tree t s).
Definition on_xfer {A} (m : PyM Transfers A) : HM A := fun s =>
  let '(r, x) := m (xfer s) in (r, hs_xfer x s).
Definition on_sto {A} (m : PyM (Sto B Page) A) : HM A := fun s =>
  let '(r, x) := m (sto s) in (r, hs_sto x s).

Definition node_at (i : nat) : HM TreeNode := on_tree (get_node i).
Definition update_at (i : nat) (f : TreeNode -> TreeNode) : HM unit := on_tree (upd_node i f).
Definition some_or {A} (e : PyExc) (o : option A) : HM A :=
  match o with Some a => mret a | None => py_raise e end.

(** ** The controller's calls from the scheduler thread *)

Definition hi_host_alloc (n : Z) : HM (option (list Z)) := fun s =>
  match host_alloc n (host s) with
  | Ret (o, h) => (Ret o, hs_host h s)
  | Raise e => (Raise e, s)
  | OutOfFuel => (OutOfFuel, s)
  end.
Definition hi_host_free (idx : list Z) : HM unit :=
  py_modify (fun s => hs_host (host_free idx (host s)).2 s).

Definition ctl_write (device_indices : list Z) (node_id : nat) : HM (option (list Z)) :=
  o ← hi_host_alloc (len device_indices);
  match o with
  | None => mret None
  | Some host_indices =>
      op ← on_xfer (new_CacheOperation host_indices device_indices [node_id] None);
      _ ← on_xfer (py_modify (fun x => set_write_queue (write_queue x ++ [op]) x));
      _ ← on_xfer start_writing;
      mret (Some host_indices)
  end.

Definition hi_kv_alloc (n : Z) : HM (option (list Z)) := fun s =>
  match kv_alloc n (kv_pool (tree s)) with
  | Ret (o, a) => (Ret o, hs_tree (set_pool a (tree s)) s)
  | Raise e => (Raise e, s)
  | OutOfFuel => (OutOfFuel, s)
  end.

Definition ctl_load (host_indices : list Z) (node_id : nat) : HM (option (list Z)) :=
  o ← hi_kv_alloc (len host_indices);
  match o with
  | None => mret None
  | Some device_indices =>
      op ← on_xfer (new_CacheOperation host_indices device_indices [node_id] None);
      _ ← on_xfer (py_modify (fun x => set_load_queue (load_queue x ++ [op]) x));
      mret (Some device_indices)
  end.

Definition evict_device (device_indices : list Z) : HM Z :=
  _ ← on_tree (kv_release device_indices); mret (len device_indices).

Definition ctl_evict_host (host_indices : list Z) : HM Z :=
  _ ← hi_host_free host_indices; mret (len host_indices).

(** [HiCacheController.reset]; the restarted prefetch thread makes a new IO buffer, the
    release queue is not cleared. *)
Definition ctl_reset : HM unit :=
  _ ← on_xfer (py_modify (fun x => mkTransfers [] [] [] [] (co_counter x) (producer_index x) (consumer_index x)));
  s ← py_get;
  if enable_storage (pol s) then
    on_sto (py_modify (fun x => set_prefetch_queue [] (set_backup_queue []
              (set_revoke_queue [] (set_ack_backup_queue [] (set_prefetch_buffer [] x))))))
  else mret tt.

(** ** Host leaves and locks *)

(** [any(child.backuped for child in node.children.values())] *)
Definition has_backuped_child (ns : gmap nat TreeNode) (n : TreeNode) : bool :=
  existsb (fun c => match ns !! c with Some cn => backuped cn | None => false end)
    (map_to_list (children n)).*2.

Definition _update_host_leaf_status (i : nat) : HM unit :=
  n ← node_at i;
  s ← py_get;
  if negb (evicted n) || (0 <? lock_ref n) || has_backuped_child (nodes (tree s)) n then
    py_modify (fun s => hs_leaves (evictable_host_leaves s ∖ {[i]}) s)
  else py_modify (fun s => hs_leaves (evictable_host_leaves s ∪ {[i]}) s).

Fixpoint hi_inc_loop (fuel : nat) (node : option nat) (delta : Z) : HM Z :=
  match fuel with
  | O => py_lift OutOfFuel
  | S f =>
      s ← py_get;
      if bool_decide (node = Some (root_node (tree s))) then mret delta
      else
        i ← some_or AttributeError node;
        n ← node_at i;
        let l := Z.of_nat (key_len (key n)) in
        _ ← (if lock_ref n =? 0 then
               on_tree (py_modify (fun t => set_sizes (evictable_size_ t - l) (protected_size_ t + l) t))
             else mret tt);
        _ ← update_at i (fun n => set_lock_ref (lock_ref n + 1) n);
        _ ← on_tree (_update_leaf_status i);
        _ ← _update_host_leaf_status i;
        hi_inc_loop f (parent n) (if lock_ref n =? 0 then delta - l else delta)
  end.

Definition hi_inc_lock_ref (node : nat) : HM Z :=
  if disable cfg then mret 0
  else s ← py_get; hi_inc_loop (S (counter (tree s))) (Some node) 0.

Fixpoint hi_dec_loop (fuel : nat) (node : option nat) (delta : Z) : HM Z :=
  match fuel with
  | O => py_lift OutOfFuel
  | S f =>
      s ← py_get;
      if bool_decide (node = Some (root_node (tree s))) then mret delta
      else
        i ← some_or AttributeError node;
        n ← node_at i;
        let l := Z.of_nat (key_len (key n)) in
        _ ← (if lock_ref n =? 1 then
               on_tree (py_modify (fun t => set_sizes (evictable_size_ t + l) (protected_size_ t - l) t))
             else mret tt);
        _ ← update_at i (fun n => set_lock_ref (lock_ref n - 1) n);
        _ ← on_tree (_update_leaf_status i);
        _ ← _update_host_leaf_status i;
        _ ← py_assert (bool_decide (parent n <> None));
        hi_dec_loop f (parent n) (if lock_ref n =? 1 then delta + l else delta)
  end.

Definition hi_dec_lock_ref (node : nat) : HM Z :=
  if disable cfg then mret 0
  else s ← py_get; hi_dec_loop (S (counter (tree s))) (Some node) 0.

(** ** Eviction from the host *)

Fixpoint evict_host_loop (fuel : nat) (num_tokens : Z) (heap : H) (num_evicted : Z) : HM unit :=
  match fuel with
  | O => py_lift OutOfFuel
  | S f =>
      if num_evicted <? num_tokens then
        match heappop heap with
        | None => mret tt
        | Some (e, heap) =>
            let id := he_node e in
            s ← py_get;
            if bool_decide (id = root_node (tree s)) then mret tt
            else
              x ← node_at id;
              if negb (evicted x) then evict_host_loop f num_tokens heap num_evicted
              else if 0 <? host_ref_counter x then evict_host_loop f num_tokens heap num_evicted
              else
                _ ← on_tree (_record_remove_event cfg sha256 x (Some CPU));
                hv ← some_or TypeError (host_value x);
                n ← ctl_evict_host hv;
                ck ← py_lift (child_key ps (key x));
                par ← some_or AttributeError (parent x);
                p ← node_at par;
                _ ← update_at par (fun p => set_children (delete ck (children p)) p);
                _ ← py_assert (bool_decide (children p !! ck = Some id));
                _ ← py_modify (fun s => hs_unlinked (unlinked s ∪ {[id]}) s);
                _ ← py_modify (fun s => hs_leaves (evictable_host_leaves s ∖ {[id]}) s);
                _ ← _update_host_leaf_status par;
                p ← node_at par;
                let heap :=
                  if bool_decide (children p = ∅) && evicted p
                  then heappush (entry_of_node cfg par p) heap else heap in
                evict_host_loop f num_tokens heap (num_evicted + n)
        end
      else mret tt
  end.

Definition host_leaf_entries (s : Hi) : list HeapEntry :=
  omap (fun id => entry_of_node cfg id <$> nodes (tree s) !! id) (elements (evictable_host_leaves s)).

Definition evict_host (num_tokens : Z) : HM unit :=
  s ← py_get;
  evict_host_loop (S (size (nodes (tree s)))) num_tokens (heapify (host_leaf_entries s)) 0.

(** ** Backing up to the host *)

(** [node.parent != self.root_node and not node.parent.backuped] *)
Definition parent_not_backuped (n : TreeNode) : HM bool :=
  s ← py_get;
  if bool_decide (parent n = Some (root_node (tree s))) then mret false
  else
    par ← some_or AttributeError (parent n);
    p ← node_at par;
    mret (negb (backuped p)).

Definition write_backup (id : nat) (write_back : bool) : HM Z :=
  n ← node_at id;
  skip ← (if write_back then mret false else parent_not_backuped n);
  if (skip : bool) then mret 0
  else
    v ← some_or TypeError (value n);
    host_indices ← ctl_write v id;
    host_indices ← (match host_indices with
                    | None => _ ← evict_host (len v); ctl_write v id
                    | Some h => mret (Some h)
                    end);
    match host_indices with
    | None => mret 0
    | Some h =>
        _ ← update_at id (set_host_value (Some h));
        _ ← py_assert (negb (length h =? 0)%nat);
        _ ← py_modify (fun s => hs_writes (ongoing_write_through s ∪ {[id]}) s);
        _ ← (if write_back then mret 0 else hi_inc_lock_ref id);
        mret (len h)
    end.

(** [get_prefix_hash_values]: the hashes from the root down to the node. *)
Fixpoint prefix_hash_values (fuel : nat) (node : option nat) : HM (list string) :=
  match fuel with
  | O => py_lift OutOfFuel
  | S f =>
      match node with
      | None => mret []
      | Some i =>
          n ← node_at i;
          match hash_value n with
          | None => mret []
          | Some hv => r ← prefix_hash_values f (parent n); mret (r ++ hv)
          end
      end
  end.

Definition write_backup_storage (id : nat) : HM unit :=
  n ← node_at id;
  s ← py_get;
  prefix_keys ← (if pass_prefix_keys (pol s)
                 then r ← prefix_hash_values (S (counter (tree s))) (parent n); mret (Some r)
                 else mret None);
  hv ← some_or TypeError (host_value n);
  operation_id ← on_sto (write_storage hv (key n) (hash_value n) prefix_keys);
  _ ← py_modify (fun s => hs_backup (dict_set operation_id id (ongoing_backup s)) s);
  update_at id protect_host.

Definition is_write_back (s : Hi) : bool := bool_decide (write_policy (pol s) = "write_back").

Definition hi_inc_hit_count (id : nat) (chunked : bool) : HM unit :=
  s ← py_get;
  if is_write_back s || chunked then mret tt
  else
    _ ← update_at id (fun n => set_hit_count (hit_count n + 1) n);
    n ← node_at id;
    if negb (backuped n) && (write_through_threshold (pol s) <=? hit_count n)
    then _ ← write_backup id false; mret tt
    else mret tt.

(** The acknowledgements of one transfer; [unlock] distinguishes write-through. *)
Fixpoint ack_writes (unlock : bool) (ids : list nat) : HM unit :=
  match ids with
  | [] => mret tt
  | id :: ids' =>
      s ← py_get;
      _ ← (if bool_decide (id ∈ ongoing_write_through s)
           then py_modify (fun s => hs_writes (ongoing_write_through s ∖ {[id]}) s)
           else py_raise KeyError);
      _ ← on_tree (_record_store_event cfg sha256 id (Some CPU));
      _ ← (if unlock then _ ← hi_dec_lock_ref id; mret tt else mret tt);
      _ ← (if enable_storage (pol s) then write_backup_storage id else mret tt);
      ack_writes unlock ids'
  end.

(** The number of leading acknowledgements whose transfer has finished. *)
Fixpoint finished_prefix (finished : nat -> bool) (acks : list HiCacheAck) : nat :=
  match acks with
  | [] => O
  | a :: acks' => if finished (ack_event a) then S (finished_prefix finished acks') else O
  end.

Fixpoint ack_finished (n : nat) : HM unit :=
  match n with
  | O => mret tt
  | S n' =>
      s ← py_get;
      match ack_write_queue (xfer s) with
      | [] => py_raise IndexError
      | a :: q =>
          _ ← on_xfer (py_modify (set_ack_write_queue q));
          _ ← ack_writes true (ack_node_ids a);
          ack_finished n'
      end
  end.

Fixpoint ack_all (acks : list HiCacheAck) : HM unit :=
  match acks with
  | [] => mret tt
  | a :: acks' => _ ← ack_writes false (ack_node_ids a); ack_all acks'
  end.

(** [writing_check(write_back=True)]: the loop body ends with the assertion that nothing is
    left, so it runs at most once. *)
Definition writing_check_back : HM unit :=
  s ← py_get;
  if bool_decide (ongoing_write_through s = ∅) then mret tt
  else
    _ ← ack_all (ack_write_queue (xfer s));
    _ ← on_xfer (py_modify (set_ack_write_queue []));
    s ← py_get;
    py_assert (bool_decide (ongoing_write_through s = ∅)).

(** [writing_check()]: [reduce_min] is the all-reduce of the number of finished transfers. *)
Definition writing_check (finished : nat -> bool) (reduce_min : nat -> nat) : HM unit :=
  s ← py_get;
  if bool_decide (ongoing_write_through s = ∅) then mret tt
  else ack_finished (reduce_min (finished_prefix finished (ack_write_queue (xfer s)))).

(** ** Eviction from the device *)

Definition _evict_backuped (id : nat) : HM Z :=
  n ← node_at id;
  _ ← on_tree (_record_remove_event cfg sha256 n (Some GPU));
  v ← some_or TypeError (value n);
  num_evicted ← evict_device v;
  _ ← py_assert (0 <? num_evicted);
  _ ← on_tree (py_modify (fun t => set_sizes (evictable_size_ t - num_evicted) (protected_size_ t) t));
  _ ← update_at id (set_value None);
  _ ← on_tree (_update_leaf_status id);
  _ ← _update_host_leaf_status id;
  par ← some_or AttributeError (parent n);
  _ ← on_tree (_update_leaf_status par);
  mret num_evicted.

Definition _evict_regular (id : nat) : HM Z :=
  n ← node_at id;
  _ ← py_assert (bool_decide (children n = ∅));
  _ ← on_tree (_record_remove_event cfg sha256 n None);
  v ← some_or TypeError (value n);
  _ ← on_tree (kv_release v);
  _ ← on_tree (_delete_leaf cfg id);
  mret (len v).

(** No child that is on the device and not about to be written back. *)
Definition all_children_leaving (ns : gmap nat TreeNode) (write_back_nodes : list nat) (p : TreeNode) : bool :=
  forallb (fun c => bool_decide (c ∈ write_back_nodes) ||
                    match ns !! c with Some cn => evicted cn | None => true end)
    (map_to_list (children p)).*2.

Fixpoint hi_evict_loop (fuel : nat) (num_tokens : Z) (heap : H) (num_evicted : Z)
    (write_back_nodes : list nat) : HM (Z * list nat) :=
  match fuel with
  | O => py_lift OutOfFuel
  | S f =>
      if num_evicted <? num_tokens then
        match heappop heap with
        | None => mret (num_evicted, write_back_nodes)
        | Some (e, heap) =>
            let id := he_node e in
            x ← node_at id;
            if 0 <? lock_ref x then hi_evict_loop f num_tokens heap num_evicted write_back_nodes
            else
              s ← py_get;
              '(n, wb) ← (if negb (backuped x) then
                            if is_write_back s then
                              written ← write_backup id true;
                              mret (written, if 0 <? written then write_back_nodes ++ [id]
                                             else write_back_nodes)
                            else n ← _evict_regular id; mret (n, write_back_nodes)
                          else n ← _evict_backuped id; mret (n, write_back_nodes));
              par ← some_or AttributeError (parent x);
              p ← node_at par;
              s ← py_get;
              let heap :=
                if all_children_leaving (nodes (tree s)) wb p
                then heappush (entry_of_node cfg par p) heap else heap in
              hi_evict_loop f num_tokens heap (num_evicted + n) wb
        end
      else mret (num_evicted, write_back_nodes)
  end.

Fixpoint evict_written_back (ids : list nat) : HM unit :=
  match ids with
  | [] => mret tt
  | id :: ids' =>
      n ← node_at id;
      _ ← py_assert (backuped n);
      _ ← _evict_backuped id;
      evict_written_back ids'
  end.

Definition hi_evict (num_tokens : Z) : HM Z :=
  s ← py_get;
  '(n, wb) ← hi_evict_loop (S (size (nodes (tree s)))) num_tokens
               (heapify (leaf_entries cfg (tree s))) 0 [];
  s ← py_get;
  _ ← (if is_write_back s then _ ← writing_check_back; evict_written_back wb else mret tt);
  mret n.

(** ** Loading back to the device *)

(** The evicted nodes from the hit node up, and the first ancestor on the device. *)
Fixpoint load_path (fuel : nat) (node : nat) (nodes_to_load : list nat) : HM (nat * list nat) :=
  match fuel with
  | O => py_lift OutOfFuel
  | S f =>
      n ← node_at node;
      if evicted n then
        _ ← py_assert (backuped n);
        par ← some_or AttributeError (parent n);
        load_path f par (node :: nodes_to_load)
      else mret (node, nodes_to_load)
  end.

(** [torch.cat([n.host_value for n in nodes_to_load])]; an empty list is refused. *)
Fixpoint host_values (ids : list nat) : HM (list Z) :=
  match ids with
  | [] => mret []
  | i :: ids' =>
      n ← node_at i;
      h ← some_or TypeError (host_value n);
      r ← host_values ids';
      mret (h ++ r)
  end.

(** [node.value = device_indices[offset : offset + len(node.host_value)]] down the path *)
Fixpoint assign_values (ids : list nat) (device_indices : list Z) : HM unit :=
  match ids with
  | [] => mret tt
  | i :: ids' =>
      n ← node_at i;
      h ← some_or TypeError (host_value n);
      _ ← update_at i (set_value (Some (take (length h) device_indices)));
      _ ← on_tree (_record_store_event cfg sha256 i (Some GPU));
      assign_values ids' (drop (length h) device_indices)
  end.

Definition load_back (last_hit_node : nat) (mem_quota : option Z) : HM (option (list Z)) :=
  s ← py_get;
  '(ancester_node, nodes_to_load) ← load_path (S (counter (tree s))) last_hit_node [];
  delta ← hi_inc_lock_ref ancester_node;
  _ ← (if (length nodes_to_load =? 0)%nat then py_raise RuntimeError else mret tt);
  host_indices ← host_values nodes_to_load;
  if (length host_indices <? load_back_threshold)%nat ||
     match mem_quota with Some q => q + delta <? len host_indices | None => false end
  then _ ← hi_dec_lock_ref ancester_node; mret None
  else
    device_indices ← ctl_load host_indices last_hit_node;
    device_indices ← (match device_indices with
                      | None => _ ← hi_evict (len host_indices); ctl_load host_indices last_hit_node
                      | Some d => mret (Some d)
                      end);
    _ ← hi_dec_lock_ref ancester_node;
    match device_indices with
    | None => mret None
    | Some d =>
        _ ← py_modify (fun s => hs_loads (ongoing_load_back s ∪ {[last_hit_node]}) s);
        _ ← assign_values nodes_to_load d;
        _ ← on_tree (py_modify (fun t => set_sizes (evictable_size_ t + len d) (protected_size_ t) t));
        _ ← hi_inc_lock_ref last_hit_node;
        mret (Some d)
    end.

(** [while last_node.evicted: last_node = last_node.parent] *)
Fixpoint climb_live (fuel : nat) (node : nat) : HM nat :=
  match fuel with
  | O => py_lift OutOfFuel
  | S f =>
      n ← node_at node;
      if evicted n then par ← some_or AttributeError (parent n); climb_live f par else mret node
  end.

Definition init_load_back (best_match_node : nat) (mem_quota : option Z) : HM (list Z * nat) :=
  n ← node_at best_match_node;
  if evicted n then
    loading_values ← load_back best_match_node mem_quota;
    match loading_values with
    | Some d => mret (d, best_match_node)
    | None =>
        s ← py_get;
        last_node ← climb_live (S (counter (tree s))) best_match_node;
        mret ([], last_node)
    end
  else mret ([], best_match_node).

(** Loads that have arrived are unlocked. *)
Fixpoint ack_loads (ids : list nat) : HM unit :=
  match ids with
  | [] => mret tt
  | id :: ids' =>
      s ← py_get;
      _ ← (if bool_decide (id ∈ ongoing_load_back s)
           then py_modify (fun s => hs_loads (ongoing_load_back s ∖ {[id]}) s)
           else py_raise KeyError);
      _ ← hi_dec_lock_ref id;
      ack_loads ids'
  end.

Fixpoint ack_load_acks (acks : list HiCacheAck) : HM unit :=
  match acks with
  | [] => mret tt
  | a :: acks' => _ ← ack_loads (ack_node_ids a); ack_load_acks acks'
  end.

Definition loading_check (finished : nat -> bool) : HM unit :=
  s ← py_get;
  let acks := ack_load_queue (xfer s) in
  let finish_count := finished_prefix finished acks in
  _ ← ack_load_acks (take finish_count acks);
  on_xfer (py_modify (fun x => set_ack_load_queue (drop finish_count (ack_load_queue x)) x)).

Definition ready_to_load_host_cache (ready : Z -> bool) : HM Z := on_xfer (start_loading ready).

(** ** Matching and insertion *)

Definition hi_split_node (child : nat) (split_len : nat) : HM nat :=
  c ← node_at child;
  ta ← on_tree (monotonic now);
  tc ← on_tree (monotonic now);
  id ← on_tree fresh_id;
  rest_ck ← py_lift (child_key ps (key_drop split_len (key c)));
  par ← some_or AttributeError (parent c);
  ck ← py_lift (child_key ps (key c));
  let hs := split_node_hash_value (hash_value c) split_len ps in
  _ ← on_tree (put_node id (set_host_value (take split_len <$> host_value c)
        (new_TreeNode ta tc (priority c) {[rest_ck := child]} (Some par) (key_take split_len (key c))
           (take split_len <$> value c) (lock_ref c) (hit_count c) hs.1)));
  _ ← on_tree (put_node child (set_host_value (drop split_len <$> host_value c)
        (set_split id (key_drop split_len (key c)) (drop split_len <$> value c) hs.2 c)));
  _ ← update_at par (fun p => set_children (<[ck := id]> (children p)) p);
  mret id.

(** [if not node.evicted: value.append(node.value)] *)
Definition append_live (acc : list (list Z)) (n : TreeNode) : list (list Z) :=
  match value n with Some v => acc ++ [v] | None => acc end.

Definition hi_next_key (k : RadixKey) (ck : ChildKey) : HM ChildKey := on_tree (next_child_key cfg k ck).

Fixpoint hi_match_loop (fuel : nat) (node : nat) (k : RadixKey) (ck : ChildKey) (acc : list (list Z)) :
    HM (list (list Z) * nat) :=
  match fuel with
  | O => py_lift OutOfFuel
  | S f =>
      if (0 <? key_len k)%nat then
        n ← node_at node;
        match children n !! ck with
        | None => mret (acc, node)
        | Some child =>
            t ← on_tree (monotonic now);
            _ ← update_at child (set_last_access t);
            c ← node_at child;
            prefix_len ← py_lift (key_match ps (key c) k);
            if (prefix_len <? key_len (key c))%nat then
              id ← hi_split_node child prefix_len;
              nn ← node_at id;
              mret (append_live acc nn, id)
            else
              let k' := key_drop prefix_len k in
              ck' ← hi_next_key k' ck;
              hi_match_loop f child k' ck' (append_live acc c)
        end
      else mret (acc, node)
  end.

Definition hi_match_prefix_helper (node : nat) (k : RadixKey) : HM (list (list Z) * nat) :=
  t ← on_tree (monotonic now);
  _ ← update_at node (set_last_access t);
  ck ← py_lift (child_key ps k);
  hi_match_loop (S (key_len k)) node k ck [].

(** [while last_node.evicted: host_hit_length += len(last_node.host_value)] *)
Fixpoint climb_evicted (fuel : nat) (node : nat) (host_hit : nat) : HM (nat * nat) :=
  match fuel with
  | O => py_lift OutOfFuel
  | S f =>
      n ← node_at node;
      if evicted n then
        h ← some_or TypeError (host_value n);
        par ← some_or AttributeError (parent n);
        climb_evicted f par (host_hit + length h)
      else mret (node, host_hit)
  end.

(** [while not last_host_node.backuped] *)
Fixpoint climb_backuped (fuel : nat) (node : nat) : HM nat :=
  match fuel with
  | O => py_lift OutOfFuel
  | S f =>
      n ← node_at node;
      if backuped n then mret node
      else par ← some_or AttributeError (parent n); climb_backuped f par
  end.

Definition hi_empty_match : HM HiMatchResult :=
  r ← on_tree empty_match_result; mret (mkHiMatch r 0).

Definition hi_match_prefix (k : RadixKey) : HM HiMatchResult :=
  if disable cfg then hi_empty_match
  else
    let k := page_aligned ps (maybe_to_bigram_view (V := Z) (is_eagle cfg) k None).1 in
    if (key_len k =? 0)%nat then hi_empty_match
    else
      s ← py_get;
      '(vs, node) ← hi_match_prefix_helper (root_node (tree s)) k;
      s ← py_get;
      '(last_node, host_hit) ← climb_evicted (S (counter (tree s))) node 0;
      last_host_node ← climb_backuped (S (counter (tree s))) node;
      mret (mkHiMatch (mkMatchResult (concat vs) last_node last_host_node last_host_node) host_hit).

(** A node reached by an insertion: an evicted one takes over the new indices, a live one
    counts a hit.  The result is the length to add to the matched prefix. *)
Definition visit_node (id : nat) (prefix_len : nat) (v : list Z) (chunked : bool) : HM nat :=
  n ← node_at id;
  if evicted n then
    let nv := take prefix_len v in
    _ ← update_at id (set_value (Some nv));
    _ ← on_tree (py_modify (fun t => set_sizes (evictable_size_ t + len nv) (protected_size_ t) t));
    _ ← on_tree (_update_leaf_status id);
    _ ← _update_host_leaf_status id;
    par ← some_or AttributeError (parent n);
    _ ← on_tree (_update_leaf_status par);
    mret 0%nat
  else
    _ ← hi_inc_hit_count id chunked;
    mret prefix_len.

Fixpoint hi_insert_loop (fuel : nat) (prio : Z) (chunked : bool) (node : nat) (k : RadixKey)
    (v : list Z) (ck : ChildKey) (total : nat) : HM (nat * RadixKey * list Z * ChildKey * nat) :=
  match fuel with
  | O => py_lift OutOfFuel
  | S f =>
      if (0 <? key_len k)%nat then
        n ← node_at node;
        match children n !! ck with
        | None => mret (node, k, v, ck, total)
        | Some child =>
            t ← on_tree (monotonic now);
            _ ← update_at child (set_last_access t);
            _ ← on_tree (raise_priority child prio);
            c ← node_at child;
            prefix_len ← py_lift (key_match ps (key c) k);
            node' ← (if (prefix_len =? key_len (key c))%nat then mret child
                     else
                       id ← hi_split_node child prefix_len;
                       _ ← on_tree (raise_priority id prio);
                       mret id);
            matched ← visit_node node' prefix_len v chunked;
            let k' := key_drop prefix_len k in
            ck' ← hi_next_key k' ck;
            hi_insert_loop f prio chunked node' k' (drop prefix_len v) ck' (total + matched)
        end
      else mret (node, k, v, ck, total)
  end.

(** The new leaf for what is left of the key. *)
Definition hi_add_leaf (node : nat) (k : RadixKey) (v : list Z) (ck : ChildKey) (prio : Z)
    (chunked : bool) : HM unit :=
  ta ← on_tree (monotonic now);
  tc ← on_tree (monotonic now);
  id ← on_tree fresh_id;
  _ ← on_tree (put_node id (new_TreeNode ta tc prio ∅ (Some node) k (Some v) 0 0 None));
  _ ← update_at node (fun n => set_children (<[ck := id]> (children n)) n);
  _ ← on_tree (py_modify (fun t => set_sizes (evictable_size_ t + len v) (protected_size_ t) t));
  _ ← on_tree (_update_leaf_status node);
  _ ← on_tree (_update_leaf_status id);
  s ← py_get;
  _ ← (if enable_storage (pol s) || enable_kv_cache_events cfg then
         n ← node_at id;
         hs ← py_lift (compute_node_hash_values sha256 ps
                         (parent n ≫= fun p => nodes (tree s) !! p) n);
         update_at id (set_hash_value (Some hs))
       else mret tt);
  _ ← on_tree (_record_store_event cfg sha256 id None);
  if is_write_back s then mret tt else hi_inc_hit_count id chunked.

(** Callers always pass a tensor; without one the walk raises. *)
Definition hi_insert (params : InsertParams) : HM nat :=
  let prio := default 0 (ip_priority params) in
  let '(k, v) := maybe_to_bigram_view (is_eagle cfg) (ip_key params) (ip_value params) in
  let k := page_aligned ps k in
  if (key_len k =? 0)%nat then mret 0%nat
  else
    v ← some_or TypeError v;
    let v := take (key_len k) v in
    s ← py_get;
    ck ← py_lift (child_key ps k);
    r ← hi_insert_loop (S (key_len k)) prio (ip_chunked params) (root_node (tree s)) k v ck 0;
    let '(node', k', v', ck', total) := r in
    _ ← (if (0 <? key_len k')%nat then hi_add_leaf node' k' v' ck' prio (ip_chunked params) else mret tt);
    mret total.

(** ** Host insertion of prefetched pages *)

Fixpoint insert_host_loop (fuel : nat) (node : nat) (k : RadixKey) (hv : list Z) (hs : list string)
    (ck : ChildKey) (matched : nat) : HM (nat * RadixKey * list Z * list string * ChildKey * nat) :=
  match fuel with
  | O => py_lift OutOfFuel
  | S f =>
      if (0 <? key_len k)%nat then
        n ← node_at node;
        match children n !! ck with
        | None => mret (node, k, hv, hs, ck, matched)
        | Some child =>
            t ← on_tree (monotonic now);
            _ ← update_at child (set_last_access t);
            c ← node_at child;
            prefix_len ← py_lift (key_match ps (key c) k);
            let k' := key_drop prefix_len k in
            node' ← (if (prefix_len <? key_len (key c))%nat
                     then hi_split_node child prefix_len else mret child);
            ck' ← hi_next_key k' ck;
            insert_host_loop f node' k' (drop prefix_len hv) (drop (prefix_len / ps) hs) ck'
              (matched + prefix_len)
        end
      else mret (node, k, hv, hs, ck, matched)
  end.

Definition add_host_leaf (node : nat) (k : RadixKey) (hv : list Z) (hs : list string) (ck : ChildKey) : HM unit :=
  nn ← node_at node;
  ta ← on_tree (monotonic now);
  tc ← on_tree (monotonic now);
  id ← on_tree fresh_id;
  _ ← on_tree (put_node id (set_host_value (Some hv)
        (new_TreeNode ta tc (priority nn) ∅ (Some node) k None 0 0 (Some hs))));
  _ ← update_at node (fun n => set_children (<[ck := id]> (children n)) n);
  _ ← _update_host_leaf_status id;
  _ ← on_tree (_update_leaf_status node);
  _ ← _update_host_leaf_status node;
  on_tree (_record_store_event cfg sha256 id (Some CPU)).

Definition _insert_helper_host (node : nat) (k : RadixKey) (hv : list Z) (hs : list string) : HM nat :=
  t ← on_tree (monotonic now);
  _ ← update_at node (set_last_access t);
  if (key_len k =? 0)%nat then mret 0%nat
  else
    ck ← py_lift (child_key ps k);
    r ← insert_host_loop (S (key_len k)) node k hv hs ck 0;
    let '(node', k', hv', hs', ck', matched) := r in
    _ ← (if (0 <? key_len k')%nat then add_host_leaf node' k' hv' hs' ck' else mret tt);
    mret matched.

(** ** Prefetching from storage *)

Definition release_host_at (i : nat) : HM unit :=
  n ← node_at i; n' ← py_lift (release_host n); update_at i (fun _ => n').

(** [cc.prefetch_tokens_occupied -= n], not below zero when [clamp] *)
Definition release_occupied (n : nat) (clamp : bool) : HM unit :=
  on_sto (py_modify (fun x =>
    let o := prefetch_tokens_occupied x - Z.of_nat n in
    set_occupied (if clamp && (o <? 0) then 0 else o) x)).

Definition prefetch_from_storage (req_id : string) (last_host_node : nat) (new_input_tokens : list Z)
    (last_hash : option string) (prefix_keys : option (list string)) : HM unit :=
  n ← node_at last_host_node;
  let prefetch_key := page_aligned ps (mkRadixKey new_input_tokens (extra_key (key n)) (is_eagle cfg)) in
  let prefetch_length := Z.of_nat (key_len prefetch_key) in
  s ← py_get;
  limited ← (if negb (enable_storage (pol s)) || (prefetch_length <? prefetch_threshold (pol s))
             then mret true
             else on_sto (prefetch_rate_limited (prefetch_capacity_limit (pol s))));
  if (limited : bool) then mret tt
  else
    _ ← update_at last_host_node protect_host;
    host_indices ← hi_host_alloc prefetch_length;
    host_indices ← (match host_indices with
                    | None => _ ← evict_host prefetch_length; hi_host_alloc prefetch_length
                    | Some h => mret (Some h)
                    end);
    s ← py_get;
    '(no_room, host_indices) ←
      (match host_indices with
       | Some h => mret (false, Some h)
       | None =>
           let avaliable_size := host_available_size (host s) in
           let prefetch_length := avaliable_size - avaliable_size mod Z.of_nat ps in
           if prefetch_threshold (pol s) <=? prefetch_length then
             h ← hi_host_alloc prefetch_length; mret (false, h)
           else
             _ ← release_host_at last_host_node; mret (true, None)
       end);
    if (no_room : bool) then mret tt
    else
      t ← on_tree (monotonic now);
      operation ← on_sto (prefetch req_id host_indices prefetch_key last_hash prefix_keys t);
      _ ← py_modify (fun s => hs_prefetch (dict_set req_id
              (mkPrefetchInfo last_host_node prefetch_key host_indices operation) (ongoing_prefetch s)) s);
      on_sto (py_modify (fun x =>
        set_occupied (prefetch_tokens_occupied x + Z.of_nat (key_len prefetch_key)) x)).

(** Linear timeout, multiplied by 1024. *)
Definition _prefetch_timeout_check_linear_func (o : StorageOperation) : HM bool :=
  s ← py_get;
  let num_tokens := Z.of_nat (length (op_hash_value o) * ps) in
  let timeout_1024 := Z.min (1024 * timeout_max (pol s))
                        (1024 * timeout_base (pol s) + timeout_per_ki_token (pol s) * num_tokens) in
  t ← on_tree (monotonic now);
  mret (timeout_1024 <? 1024 * (t - start_time o)).

Definition prefetch_complete (o : StorageOperation) : bool :=
  if (length (op_hash_value o) =? 0)%nat then false
  else (completed_tokens o =? length (op_hash_value o) * ps)%nat.

(** [reduce_max] is the all-reduce of each of the two flags. *)
Definition can_terminate_prefetch (op : nat) (reduce_max : Z -> Z) : HM bool :=
  s ← py_get;
  o ← on_sto (get_op op);
  if bool_decide (prefetch_stop_policy (pol s) = "best_effort") then mret true
  else
    let completed := prefetch_complete o in
    if bool_decide (prefetch_stop_policy (pol s) = "wait_complete") ||
       bool_decide (prefetch_stop_policy (pol s) = "timeout") then
      can_terminate ← (if bool_decide (prefetch_stop_policy (pol s) = "wait_complete") || completed
                       then mret completed
                       else _prefetch_timeout_check_linear_func o);
      o ← on_sto (get_op op);
      let st0 := reduce_max (if (can_terminate : bool) then 0 else 1) in
      let st1 := reduce_max (if is_terminated o then 1 else 0) in
      mret ((st0 =? 0) || (st1 =? 1))
    else mret true.

(** [reduce_min] is the all-reduce of the completed tokens. *)
Definition check_prefetch_progress (req_id : string) (reduce_max : Z -> Z) (reduce_min : nat -> nat) :
    HM bool :=
  s ← py_get;
  match dict_get req_id (ongoing_prefetch s) with
  | None => mret true
  | Some info =>
      o ← on_sto (get_op (pi_op info));
      match op_host_indices o with
      | None => mret true
      | Some _ =>
          can ← can_terminate_prefetch (pi_op info) reduce_max;
          if negb can then mret false
          else
            '(completed, hash_value) ← on_sto (ctl_terminate_prefetch (pi_op info));
            let min_completed := reduce_min completed in
            host_indices ← some_or TypeError (pi_host info);
            matched ← _insert_helper_host (pi_node info) (key_take min_completed (pi_key info))
                        (take min_completed host_indices) (take (min_completed / ps) hash_value);
            _ ← hi_host_free (take matched host_indices);
            _ ← on_sto (append_host_mem_release ps (slice host_indices min_completed completed));
            _ ← release_host_at (pi_node info);
            _ ← py_modify (fun s => hs_prefetch (dict_pop req_id (ongoing_prefetch s)) s);
            _ ← release_occupied (key_len (pi_key info)) false;
            _ ← py_modify (fun s => hs_loaded (dict_set req_id
                    (Z.of_nat min_completed - Z.of_nat matched) (prefetch_loaded_tokens_by_reqid s)) s);
            mret true
      end
  end.

Definition hi_terminate_prefetch (req_id : string) : HM unit :=
  s ← py_get;
  match dict_get req_id (ongoing_prefetch s) with
  | None => mret tt
  | Some info =>
      o ← on_sto (get_op (pi_op info));
      match op_host_indices o with
      | None => mret tt
      | Some _ => on_sto (put_op (pi_op info) (mark_terminate o))
      end
  end.

Definition pop_prefetch_loaded_tokens (req_id : string) : HM Z :=
  s ← py_get;
  _ ← py_modify (fun s => hs_loaded (dict_pop req_id (prefetch_loaded_tokens_by_reqid s)) s);
  mret (default 0 (dict_get req_id (prefetch_loaded_tokens_by_reqid s))).

Definition release_aborted_request (rid : string) : HM unit :=
  _ ← py_modify (fun s => hs_loaded (dict_pop rid (prefetch_loaded_tokens_by_reqid s)) s);
  s ← py_get;
  match dict_get rid (ongoing_prefetch s) with
  | None => mret tt
  | Some info =>
      o ← on_sto (get_op (pi_op info));
      match op_host_indices o with
      | None => mret tt
      | Some _ =>
          '(completed, _) ← on_sto (ctl_terminate_prefetch (pi_op info));
          _ ← release_host_at (pi_node info);
          _ ← py_modify (fun s => hs_prefetch (dict_pop rid (ongoing_prefetch s)) s);
          host_indices ← some_or TypeError (pi_host info);
          _ ← on_sto (append_host_mem_release ps (take completed host_indices));
          release_occupied (key_len (pi_key info)) false
      end
  end.

(** ** Draining the control queues *)

Fixpoint drain_revoke (ids : list string) : HM unit :=
  match ids with
  | [] => mret tt
  | r :: ids' =>
      s ← py_get;
      _ ← on_sto (py_modify (fun x => set_revoke_queue (tail (prefetch_revoke_queue x)) x));
      _ ← (match dict_get r (ongoing_prefetch s) with
           | None => mret tt
           | Some info =>
               _ ← py_modify (fun s => hs_prefetch (dict_pop r (ongoing_prefetch s)) s);
               _ ← release_host_at (pi_node info);
               release_occupied (key_len (pi_key info)) true
           end);
      drain_revoke ids'
  end.

Fixpoint drain_backup (ops : list nat) : HM unit :=
  match ops with
  | [] => mret tt
  | i :: ops' =>
      s ← py_get;
      _ ← on_sto (py_modify (fun x => set_ack_backup_queue (tail (ack_backup_queue x)) x));
      _ ← (match dict_get i (ongoing_backup s) with
           | None => mret tt
           | Some node =>
               _ ← py_modify (fun s => hs_backup (dict_pop i (ongoing_backup s)) s);
               release_host_at node
           end);
      drain_backup ops'
  end.

Definition drain_release (pages : list (list Z)) : HM unit :=
  _ ← on_sto (py_modify (fun x => set_release_queue (drop (length pages) (host_mem_release_queue x)) x));
  if (length pages =? 0)%nat then mret tt else hi_host_free (concat pages).

(** [limit] items of a queue, or all of them. *)
Definition drained {A} (limit : option nat) (q : list A) : list A :=
  match limit with None => q | Some n => take n q end.

Definition _drain_storage_control_queues_impl (n_revoke n_backup n_release : option nat) : HM unit :=
  s ← py_get;
  _ ← drain_revoke (drained n_revoke (prefetch_revoke_queue (sto s)));
  s ← py_get;
  _ ← drain_backup (drained n_backup (ack_backup_queue (sto s)));
  s ← py_get;
  drain_release (drained n_release (host_mem_release_queue (sto s))).

Definition _drain_storage_control_queues_local : HM unit :=
  _drain_storage_control_queues_impl None None None.

Definition drain_storage_control_queues (reduce_min : nat -> nat) : HM unit :=
  s ← py_get;
  _drain_storage_control_queues_impl
    (Some (reduce_min (length (prefetch_revoke_queue (sto s)))))
    (Some (reduce_min (length (ack_backup_queue (sto s)))))
    (Some (reduce_min (length (host_mem_release_queue (sto s))))).

Definition check_hicache_events (w_done l_done : nat -> bool) (reduce_min : nat -> nat) : HM unit :=
  _ ← writing_check w_done reduce_min;
  _ ← loading_check l_done;
  s ← py_get;
  if enable_storage (pol s) then drain_storage_control_queues reduce_min else mret tt.

(** Exceptions of one step of the forced cleanup are logged and dropped. *)
Definition ignoring (m : HM unit) : HM unit := py_try m (fun _ => mret tt).

Fixpoint force_release_prefetch (d : list (string * PrefetchInfo)) : HM unit :=
  match d with
  | [] => mret tt
  | (r, info) :: d' =>
      _ ← (match pi_host info with Some h => ignoring (hi_host_free h) | None => mret tt end);
      _ ← ignoring (release_host_at (pi_node info));
      _ ← ignoring (release_occupied (key_len (pi_key info)) true);
      _ ← py_modify (fun s => hs_prefetch (dict_pop r (ongoing_prefetch s)) s);
      force_release_prefetch d'
  end.

Fixpoint force_release_backup (d : list (nat * nat)) : HM unit :=
  match d with
  | [] => mret tt
  | (i, node) :: d' =>
      _ ← ignoring (release_host_at node);
      _ ← py_modify (fun s => hs_backup (dict_pop i (ongoing_backup s)) s);
      force_release_backup d'
  end.

Definition _force_release_pending_storage_ops : HM unit :=
  s ← py_get;
  _ ← force_release_prefetch (ongoing_prefetch s);
  s ← py_get;
  force_release_backup (ongoing_backup s).

(** ** Reset *)

(** [TreeNode.counter = 0] before the base reset, which makes the new root. *)
Definition zero_counter (t : Cache T) : Cache T :=
  mkCache (nodes t) (root_node t) 0 (ticks t) (evictable_size_ t) (protected_size_ t)
    (evictable_leaves t) (kv_event_queue t) (kv_pool t) (req_to_token t).

Definition hi_reset : HM unit :=
  _ ← on_tree (py_modify zero_counter);
  _ ← ctl_reset;
  _ ← py_modify (fun s => hs_host (host_clear (host s)) s);
  _ ← py_modify (hs_loaded []);
  _ ← py_modify (hs_leaves ∅);
  _ ← py_modify (hs_unlinked ∅);
  on_tree (reset cfg now).

Fixpoint get_height_loop (fuel : nat) (node : nat) (height : nat) : HM nat :=
  match fuel with
  | O => py_lift OutOfFuel
  | S f =>
      s ← py_get;
      if bool_decide (node = root_node (tree s)) then mret height
      else
        n ← node_at node;
        par ← some_or AttributeError (parent n);
        get_height_loop f par (S height)
  end.

Definition get_height (node : nat) : HM nat :=
  s ← py_get; get_height_loop (S (counter (tree s))) node 0.
End hiradix.
