(* ===== verification/HiInv.v ===== *)
(** * The invariant of the two-tier radix tree

    The state of [HiRadixCache] seen through [HAbs]: the shapes of the nodes with both index
    lists, the unlinked nodes, the counters and the two sets of evictable leaves.  Taking
    for each node its device indices, or its host indices when it is evicted, gives a tree
    in the sense of RadixInv ([gfull]); the invariant [hinv] asks that this tree satisfies
    the radix invariant, and adds what links the tiers: device-resident nodes and backed-up
    nodes are both closed under parents, locked nodes are on the device, every node is on
    some tier, and both leaf sets are exact. *)

From stdpp Require Import base tactics list gmap strings.
From Stdlib Require Import ZArith Lia.
From S2P Require Import Prelude RadixKey TreeNode RadixInv RadixProofs.

Record HShape := mkHShape {
  hs_ch : gmap ChildKey nat;
  hs_par : option nat;
  hs_key : RadixKey;
  hs_val : option (list Z);
  hs_host : option (list Z);
  hs_lock : Z }.

Definition hshape (n : TreeNode) : HShape :=
  mkHShape (children n) (parent n) (key n) (value n) (host_value n) (lock_ref n).

Record HAbs := mkHAbs {
  g_ns : gmap nat HShape;
  g_un : gset nat;
  g_root : nat;
  g_ctr : nat;
  g_ev : Z;
  g_pr : Z;
  g_lv : gset nat;
  g_hl : gset nat }.

(** ** Views *)

Definition tier_val (n : HShape) : list Z := default (default [] (hs_host n)) (hs_val n).
Definition fsh (n : HShape) : Shape :=
  mkShape (hs_ch n) (hs_par n) (hs_key n) (Some (tier_val n)) (hs_lock n).
Definition hlive (n : HShape) : bool := match hs_val n with Some _ => true | None => false end.
Definition hbacked (n : HShape) : bool := match hs_host n with Some _ => true | None => false end.

(** The length of an evicted node. *)
Definition ev_len (_ : nat) (n : HShape) : Z := if hlive n then 0 else Z.of_nat (key_len (hs_key n)).

Definition lns (G : HAbs) : gmap nat HShape := filter (fun kv => kv.1 ∉ g_un G) (g_ns G).

Definition leaf_nodes (ns : gmap nat Shape) (root : nat) : gset nat :=
  dom (filter (fun kv => (kv.1 <> root) /\ sh_lock kv.2 = 0 /\ sh_children kv.2 = ∅) ns).

Definition gfull (G : HAbs) : Abs :=
  let ns := fsh <$> lns G in
  mkAbs ns (g_root G) (g_ctr G) (g_ev G + msum ev_len (lns G)) (g_pr G) (leaf_nodes ns (g_root G)).

Lemma lns_lookup G i n : lns G !! i = Some n <-> (i ∉ g_un G) /\ g_ns G !! i = Some n.
Proof. unfold lns. rewrite map_lookup_filter_Some. simpl. naive_solver. Qed.

Lemma gfull_lookup G i m : a_ns (gfull G) !! i = Some m <-> exists n, lns G !! i = Some n /\ fsh n = m.
Proof. simpl. rewrite lookup_fmap_Some. naive_solver. Qed.

Lemma gfull_lookup_1 G i n : lns G !! i = Some n -> a_ns (gfull G) !! i = Some (fsh n).
Proof. intros. apply gfull_lookup. eauto. Qed.

Lemma leaf_nodes_ok A : a_lv A = leaf_nodes (a_ns A) (a_root A) -> inv_leaves A.
Proof.
  intros E i. rewrite E. unfold leaf_nodes. rewrite elem_of_dom. unfold is_Some, is_evictable_leaf.
  setoid_rewrite map_lookup_filter_Some. simpl. naive_solver.
Qed.

Lemma gfull_leaves G : inv_leaves (gfull G).
Proof. by apply leaf_nodes_ok. Qed.

(** The full view is determined by its nodes and counters. *)
Lemma gfull_char G A :
  inv_leaves A -> a_ns A = fsh <$> lns G -> a_root A = g_root G -> a_ctr A = g_ctr G ->
  a_ev A = g_ev G + msum ev_len (lns G) -> a_pr A = g_pr G -> gfull G = A.
Proof.
  destruct A as [ns r c e p lv]. simpl. intros Hl -> -> -> -> ->. unfold gfull. f_equal.
  apply set_eq. intros i. etransitivity; [|symmetry; apply Hl].
  exact (leaf_nodes_ok (mkAbs (fsh <$> lns G) (g_root G) (g_ctr G) (g_ev G + msum ev_len (lns G)) (g_pr G)
    (leaf_nodes (fsh <$> lns G) (g_root G))) eq_refl i).
Qed.

(** ** Leaf statuses *)

Definition live_at (ns : gmap nat HShape) (c : nat) : bool :=
  match ns !! c with Some n => hlive n | None => false end.
Definition backed_at (ns : gmap nat HShape) (c : nat) : bool :=
  match ns !! c with Some n => hbacked n | None => false end.
Definition child_ids (n : HShape) : list nat := (map_to_list (hs_ch n)).*2.

Definition g_leaf (ns : gmap nat HShape) (n : HShape) : bool :=
  negb (negb (hlive n) || (0 <? hs_lock n) || existsb (live_at ns) (child_ids n)).
Definition g_hleaf (ns : gmap nat HShape) (n : HShape) : bool :=
  negb (hlive n || (0 <? hs_lock n) || existsb (backed_at ns) (child_ids n)).

Definition leaf_at (ns : gmap nat HShape) (i : nat) : bool :=
  match ns !! i with Some n => g_leaf ns n | None => false end.
Definition hleaf_at (un : gset nat) (ns : gmap nat HShape) (i : nat) : bool :=
  bool_decide (i ∉ un) && match ns !! i with Some n => g_hleaf ns n | None => false end.

(** [X] holds exactly the elements with status [st], except perhaps those of [Y]. *)
Definition exact (st : nat -> bool) (X Y : gset nat) : Prop :=
  forall j, j ∉ Y -> (j ∈ X <-> st j = true).

(** Recomputing the membership of one element. *)
Definition set_status (b : bool) (i : nat) (X : gset nat) : gset nat :=
  if b then X ∪ {[i]} else X ∖ {[i]}.

Lemma exact_update st X Y i : exact st X Y -> exact st (set_status (st i) i X) (Y ∖ {[i]}).
Proof.
  intros HX j Hj. unfold set_status. destruct (decide (j = i)) as [->|Hne].
  - destruct (st i); set_solver.
  - specialize (HX j). destruct (st i); set_solver.
Qed.

Lemma exact_change st st' X Y Y' :
  exact st X Y -> (forall j, j ∉ Y' -> (j ∉ Y) /\ st' j = st j) -> exact st' X Y'.
Proof. intros HX H j Hj. destruct (H j Hj) as [H1 H2]. rewrite H2. by apply HX. Qed.

Lemma exact_weaken st X Y Y' : exact st X Y -> Y ⊆ Y' -> exact st X Y'.
Proof. intros HX HY j Hj. apply HX. set_solver. Qed.

Lemma existsb_ext_in {A} (f g : A -> bool) l :
  (forall x, x ∈ l -> f x = g x) -> existsb f l = existsb g l.
Proof.
  induction l as [|x l IH]; intros Hfg; [done|]. simpl. rewrite Hfg by left. f_equal. apply IH.
  intros. apply Hfg. by right.
Qed.

Lemma elem_of_child_ids n c : c ∈ child_ids n <-> exists ck, hs_ch n !! ck = Some c.
Proof.
  unfold child_ids. rewrite list_elem_of_fmap. split.
  - intros ([ck c'] & -> & Hin%elem_of_map_to_list). by exists ck.
  - intros [ck Hck]. exists (ck, c). split; [done|]. by apply elem_of_map_to_list.
Qed.

(** A status depends on the node and on its children's tiers only. *)
Lemma g_leaf_ext ns ns' n n' :
  hlive n' = hlive n -> hs_lock n' = hs_lock n -> hs_ch n' = hs_ch n ->
  (forall ck c, hs_ch n !! ck = Some c -> live_at ns' c = live_at ns c) -> g_leaf ns' n' = g_leaf ns n.
Proof.
  intros E1 E2 E3 Hc. unfold g_leaf. rewrite E1, E2. f_equal. f_equal. unfold child_ids. rewrite E3.
  apply existsb_ext_in. intros c [ck Hck]%(elem_of_child_ids n). eauto.
Qed.

Lemma g_hleaf_ext ns ns' n n' :
  hlive n' = hlive n -> hs_lock n' = hs_lock n -> hs_ch n' = hs_ch n ->
  (forall ck c, hs_ch n !! ck = Some c -> backed_at ns' c = backed_at ns c) -> g_hleaf ns' n' = g_hleaf ns n.
Proof.
  intros E1 E2 E3 Hc. unfold g_hleaf. rewrite E1, E2. f_equal. f_equal. unfold child_ids. rewrite E3.
  apply existsb_ext_in. intros c [ck Hck]%(elem_of_child_ids n). eauto.
Qed.

(** ** The invariant *)

Section hinv.
Context (ps : nat) (eagle : bool).

Record tier_ok (G : HAbs) (n : HShape) : Prop := mkTierOk {
  to_val : forall v, hs_val n = Some v -> length v = key_len (hs_key n);
  to_host : forall h, hs_host n = Some h -> length h = key_len (hs_key n);
  to_some : hlive n = false -> hbacked n = true;
  to_lock : 0 < hs_lock n -> hlive n = true;
  to_live : hlive n = true -> forall p pn, hs_par n = Some p -> lns G !! p = Some pn -> hlive pn = true;
  to_back : hbacked n = true -> forall p pn, hs_par n = Some p -> lns G !! p = Some pn -> hbacked pn = true }.

(** The part of the invariant that does not count locks and sizes; the nodes of [Y] may
    have an outdated leaf status. *)
Record hok (Y : gset nat) (G : HAbs) : Prop := mkHok {
  hv_tree : inv_tree ps eagle (gfull G);
  hv_root : exists r, lns G !! g_root G = Some r /\ hs_val r = Some [] /\ hs_host r = Some [];
  hv_tier : forall i n, lns G !! i = Some n -> i <> g_root G -> tier_ok G n;
  hv_lv : exact (leaf_at (g_ns G)) (g_lv G) Y;
  hv_hl : exact (hleaf_at (g_un G) (g_ns G)) (g_hl G) Y;
  hv_un : forall i, i ∈ g_un G -> exists n, g_ns G !! i = Some n /\ hlive n = false /\ (i < g_ctr G)%nat }.

Definition hinv (hs : list nat) (G : HAbs) : Prop := inv ps eagle hs (gfull G) /\ hok ∅ G.

Context (Y : gset nat) (G : HAbs) (HG : hok Y G).
Local Abbreviation hinv_tree := (hv_tree Y G HG).

Lemma hok_fresh : g_ns G !! g_ctr G = None /\ g_ctr G ∉ g_un G.
Proof.
  assert (g_ctr G ∉ g_un G) as Hu.
  { intros Hu. destruct (hv_un _ _ HG _ Hu) as (n & _ & _ & ?). lia. }
  split; [|done]. destruct (g_ns G !! g_ctr G) as [n|] eqn:E; [|done].
  assert (a_ns (gfull G) !! g_ctr G = Some (fsh n)) as Hf by (by apply gfull_lookup_1, lns_lookup).
  apply (it_fresh hinv_tree) in Hf. simpl in Hf. lia.
Qed.

(** The parent of a linked node. *)
Lemma hok_parent i n :
  lns G !! i = Some n -> i <> g_root G ->
  exists p pn ck, hs_par n = Some p /\ lns G !! p = Some pn /\ child_key ps (hs_key n) = Ret ck /\
    hs_ch pn !! ck = Some i /\ p <> i.
Proof.
  intros Hi Hne. pose proof (it_node hinv_tree _ _ (gfull_lookup_1 _ _ _ Hi) Hne) as Hok.
  destruct (nk_parent Hok) as (p & pn & ck & H1 & (pn' & H2 & <-)%gfull_lookup & H3 & H4).
  exists p, pn', ck. split_and!; try done.
  eapply (node_parent_ne ps eagle (gfull G)); [apply hinv_tree|by apply gfull_lookup_1|done].
Qed.

(** The children of a linked node are linked. *)
Lemma hok_child i n ck c :
  lns G !! i = Some n -> hs_ch n !! ck = Some c ->
  exists cn, lns G !! c = Some cn /\ c <> g_root G /\ hs_par cn = Some i /\
    child_key ps (hs_key cn) = Ret ck.
Proof.
  intros Hi Hc. pose proof (gfull_lookup_1 _ _ _ Hi) as Hf.
  pose proof (child_ne_root ps eagle (gfull G) i (fsh n) ck c hinv_tree Hf Hc) as Hne.
  destruct (it_child hinv_tree _ _ Hf ck c Hc) as (cn & (cn' & H1 & <-)%gfull_lookup & H2 & H3).
  by exists cn'.
Qed.

Lemma hok_root_live i n : lns G !! i = Some n -> i = g_root G -> hlive n = true /\ hs_lock n = 1.
Proof.
  intros Hi ->. destruct (hv_root _ _ HG) as (r & Hr & Hv & _).
  assert (r = n) as <- by congruence.
  destruct (it_root hinv_tree) as (r' & (r1 & H1 & <-)%gfull_lookup & _ & _ & Hl). simpl in *.
  assert (r1 = r) as -> by congruence. split; [|done]. unfold hlive. by rewrite Hv.
Qed.

(** An evicted node is not the root, is backed up and unlocked. *)
Lemma hok_evicted i n :
  lns G !! i = Some n -> hlive n = false ->
  i <> g_root G /\ hbacked n = true /\ hs_lock n = 0.
Proof.
  intros Hi Hv. assert (i <> g_root G) as Hne.
  { intros ->. destruct (hok_root_live _ _ Hi eq_refl). congruence. }
  pose proof (hv_tier _ _ HG _ _ Hi Hne) as Hok. split_and!; [done|by apply Hok|].
  pose proof (node_lock_nonneg ps eagle (gfull G) i (fsh n) hinv_tree (gfull_lookup_1 _ _ _ Hi)).
  destruct (Z.eq_dec (hs_lock n) 0) as [|Hl]; [done|]. simpl in *.
  rewrite (to_lock _ _ Hok) in Hv by lia. done.
Qed.

(** The children of an evicted node are evicted. *)
Lemma hok_evicted_child i n ck c cn :
  lns G !! i = Some n -> hlive n = false -> hs_ch n !! ck = Some c -> lns G !! c = Some cn ->
  hlive cn = false.
Proof.
  intros Hi Hv Hc Hcn. destruct (hok_child _ _ _ _ Hi Hc) as (cn' & H1 & H2 & H3 & _).
  assert (cn' = cn) as -> by congruence. destruct (hlive cn) eqn:E; [|done].
  rewrite (to_live _ _ (hv_tier _ _ HG _ _ H1 H2) E _ _ H3 Hi) in Hv. done.
Qed.

Lemma tier_val_len i n : lns G !! i = Some n -> i <> g_root G -> length (tier_val n) = key_len (hs_key n).
Proof.
  intros Hi Hne. destruct (nk_value (it_node hinv_tree _ _ (gfull_lookup_1 _ _ _ Hi) Hne)) as (v & Hv & Hl).
  simpl in *. congruence.
Qed.

Lemma hok_key_pos i n : lns G !! i = Some n -> i <> g_root G -> (0 < key_len (hs_key n))%nat.
Proof. intros Hi Hne. apply (nk_pos (it_node hinv_tree _ _ (gfull_lookup_1 _ _ _ Hi) Hne)). Qed.
End hinv.

Arguments hv_tree {ps eagle Y G}.
Arguments hv_root {ps eagle Y G}.
Arguments hv_tier {ps eagle Y G}.
Arguments hv_lv {ps eagle Y G}.
Arguments hv_hl {ps eagle Y G}.
Arguments hv_un {ps eagle Y G}.
Arguments to_val {G n}.
Arguments to_host {G n}.
Arguments to_some {G n}.
Arguments to_lock {G n}.
Arguments to_live {G n}.
Arguments to_back {G n}.
Arguments hok_fresh {ps eagle Y G}.
Arguments hok_parent {ps eagle Y G}.
Arguments hok_child {ps eagle Y G}.
Arguments hok_root_live {ps eagle Y G}.
Arguments hok_evicted {ps eagle Y G}.
Arguments hok_evicted_child {ps eagle Y G}.
Arguments tier_val_len {ps eagle Y G}.
Arguments hok_key_pos {ps eagle Y G}.
