(* ===== verification/HiPrims.v ===== *)
(** * The primitive changes of the two-tier tree

    Splitting a node, changing the indices of a node on one tier, adding a leaf, unlinking a
    host leaf, deleting a device leaf and locking a node, as functions on [HAbs]; each keeps
    [hinv], and on the full view each is the corresponding change of RadixInv. *)

From stdpp Require Import base tactics list gmap strings.
From Stdlib Require Import ZArith Lia.
From S2P Require Import Prelude RadixKey TreeNode RadixInv RadixProofs HiInv.

Definition with_ch ch n := mkHShape ch (hs_par n) (hs_key n) (hs_val n) (hs_host n) (hs_lock n).
Definition with_val v n := mkHShape (hs_ch n) (hs_par n) (hs_key n) v (hs_host n) (hs_lock n).
Definition with_host h n := mkHShape (hs_ch n) (hs_par n) (hs_key n) (hs_val n) h (hs_lock n).
Definition with_hlock l n := mkHShape (hs_ch n) (hs_par n) (hs_key n) (hs_val n) (hs_host n) l.

Lemma existsb_child f n :
  existsb f (child_ids n) = true <-> exists ck c, hs_ch n !! ck = Some c /\ f c = true.
Proof.
  rewrite existsb_exists. setoid_rewrite <-list_elem_of_In. setoid_rewrite elem_of_child_ids. naive_solver.
Qed.

Lemma no_child f n : hs_ch n = ∅ -> existsb f (child_ids n) = false.
Proof. intros E. unfold child_ids. by rewrite E, map_to_list_empty. Qed.

Lemma bool_eq_iff (a b : bool) : (a = true <-> b = true) -> a = b.
Proof. destruct a, b; naive_solver. Qed.

Lemma live_at_lookup ns c n : ns !! c = Some n -> live_at ns c = hlive n.
Proof. intros E. unfold live_at. by rewrite E. Qed.
Lemma backed_at_lookup ns c n : ns !! c = Some n -> backed_at ns c = hbacked n.
Proof. intros E. unfold backed_at. by rewrite E. Qed.
Lemma leaf_at_lookup ns c n : ns !! c = Some n -> leaf_at ns c = g_leaf ns n.
Proof. intros E. unfold leaf_at. by rewrite E. Qed.

(** Inserting a linked node. *)
Lemma lns_insert ns un root ctr ev pr lv hl i n :
  i ∉ un ->
  lns (mkHAbs (<[i := n]> ns) un root ctr ev pr lv hl)
  = <[i := n]> (lns (mkHAbs ns un root ctr ev pr lv hl)).
Proof. intros Hi. unfold lns. simpl. by rewrite map_filter_insert_True. Qed.

Lemma lns_same ns un root ctr ev pr lv hl root' ctr' ev' pr' lv' hl' :
  lns (mkHAbs ns un root ctr ev pr lv hl) = lns (mkHAbs ns un root' ctr' ev' pr' lv' hl').
Proof. done. Qed.

Lemma lns_eta G : lns (mkHAbs (g_ns G) (g_un G) (g_root G) (g_ctr G) (g_ev G) (g_pr G) (g_lv G) (g_hl G)) = lns G.
Proof. done. Qed.

Lemma tier_val_map (f : list Z -> list Z) ch par k v h l ch' par' k' l' :
  f [] = [] ->
  tier_val (mkHShape ch par k (f <$> v) (f <$> h) l) = f (tier_val (mkHShape ch' par' k' v h l')).
Proof. intros Hf. unfold tier_val. destruct v, h; simpl; done. Qed.

(** ** Splitting *)

Definition g_upper (rest : ChildKey) (c p k : nat) (n : HShape) : HShape :=
  mkHShape {[rest := c]} (Some p) (key_take k (hs_key n)) (take k <$> hs_val n) (take k <$> hs_host n) (hs_lock n).
Definition g_lower (id k : nat) (n : HShape) : HShape :=
  mkHShape (hs_ch n) (Some id) (key_drop k (hs_key n)) (drop k <$> hs_val n) (drop k <$> hs_host n) (hs_lock n).

Definition g_split (G : HAbs) (p : nat) (pn : HShape) (c : nat) (cn : HShape) (ck rest : ChildKey) (k : nat) : HAbs :=
  let id := g_ctr G in
  mkHAbs (<[p := with_ch (<[ck := id]> (hs_ch pn)) pn]> (<[c := g_lower id k cn]> (<[id := g_upper rest c p k cn]> (g_ns G))))
    (g_un G) (g_root G) (S (g_ctr G)) (g_ev G) (g_pr G) (g_lv G) (g_hl G).

Section split.
Context (ps : nat) (eagle : bool) (Y : gset nat) (G : HAbs) (HG : hok ps eagle Y G).
Context (p : nat) (pn : HShape) (c : nat) (cn : HShape) (ck rest : ChildKey) (k : nat).
Context (Hpn : lns G !! p = Some pn) (Hcn : lns G !! c = Some cn).
Context (Hsp : split_pre ps eagle (gfull G) p (fsh pn) c (fsh cn) ck rest k (tier_val cn)).
Local Abbreviation G' := (g_split G p pn c cn ck rest k).
Local Abbreviation id := (g_ctr G).
Local Abbreviation pn' := (with_ch (<[ck := g_ctr G]> (hs_ch pn)) pn).

Lemma gsplit_ids : p <> c /\ p <> id /\ c <> id /\ lns G !! id = None /\ c <> g_root G /\ id <> g_root G.
Proof.
  destruct (split_ids Hsp) as (H1 & H2 & H3 & _). destruct (hok_fresh HG) as [Hf Hu].
  assert (lns G !! id = None) as Hl by (unfold lns; apply map_lookup_filter_None; by left).
  split_and!; try done; [apply Hsp|]. intros E. destruct (hv_root HG) as (r & Hr & _). congruence.
Qed.

Lemma gsplit_lns :
  lns G' = <[p := pn']> (<[c := g_lower id k cn]> (<[id := g_upper rest c p k cn]> (lns G))).
Proof.
  apply lns_lookup in Hpn as [Hpu _]. apply lns_lookup in Hcn as [Hcu _].
  destruct (hok_fresh HG) as [_ Hu]. unfold g_split. rewrite !lns_insert by done. done.
Qed.

Lemma gsplit_lookup i m :
  lns G' !! i = Some m <->
  i = p /\ m = pn' \/ i = c /\ m = g_lower id k cn \/ i = id /\ m = g_upper rest c p k cn \/
  (i <> p /\ i <> c /\ i <> id /\ lns G !! i = Some m).
Proof.
  destruct gsplit_ids as (H1 & H2 & H3 & _). rewrite gsplit_lns.
  rewrite !lookup_insert_Some. naive_solver.
Qed.

(** Old nodes keep their tiers; the new node has those of [c]. *)
Lemma gsplit_flags i m :
  lns G' !! i = Some m -> exists m0, lns G !! (if decide (i = id) then c else i) = Some m0 /\
    hlive m = hlive m0 /\ hbacked m = hbacked m0 /\ hs_lock m = hs_lock m0 /\
    (i <> c -> i <> id -> hs_par m = hs_par m0 /\ hs_key m = hs_key m0 /\ hs_val m = hs_val m0 /\ hs_host m = hs_host m0).
Proof.
  destruct gsplit_ids as (H1 & H2 & H3 & _).
  intros [[-> ->]|[[-> ->]|[[-> ->]|(E1 & E2 & E3 & Hi)]]]%gsplit_lookup.
  - rewrite decide_False by done. by exists pn.
  - rewrite decide_False by done. exists cn. unfold hlive, hbacked. simpl.
    split_and!; [done|by destruct (hs_val cn)|by destruct (hs_host cn)|done|done].
  - rewrite decide_True by done. exists cn. unfold hlive, hbacked. simpl.
    split_and!; [done|by destruct (hs_val cn)|by destruct (hs_host cn)|done|done].
  - rewrite decide_False by done. by exists m.
Qed.

Lemma gsplit_tier i m : lns G' !! i = Some m -> i <> g_root G -> tier_ok G' m.
Proof.
  intros Hi Hne. destruct gsplit_ids as (H1 & H2 & H3 & Hfr & Hcr & Hir).
  pose proof (gsplit_flags i m Hi) as (m0 & Hm0 & F1 & F2 & F3 & F4).
  assert ((if decide (i = id) then c else i) <> g_root G) as Hne0 by (case_decide; done).
  pose proof (hv_tier HG _ _ Hm0 Hne0) as [T1 T2 T3 T4 T5 T6].
  pose proof (sp_parent _ _ _ _ _ _ _ _ _ _ _ Hsp) as Hcp. simpl in Hcp.
  assert (forall q qn, hs_par m = Some q -> lns G' !! q = Some qn ->
    exists qn0, (hs_par m0 = Some (if decide (i = c) then p else q) \/ i = c) /\
      (i = c -> hlive qn = hlive cn /\ hbacked qn = hbacked cn) /\
      (i <> c -> lns G !! q = Some qn0 /\ hlive qn = hlive qn0 /\ hbacked qn = hbacked qn0)) as Hpar.
  { intros q qn Hq Hqn. destruct (gsplit_flags q qn Hqn) as (q0 & Hq0 & Q1 & Q2 & _ & _). exists q0.
    destruct (decide (i = c)) as [->|Hic].
    - split_and!; [by right| |done]. intros _.
      apply gsplit_lookup in Hi as [[? _]|[[_ ->]|[[? _]|(_ & ? & _)]]]; try done.
      simpl in Hq. injection Hq as <-. rewrite decide_True in Hq0 by done. assert (q0 = cn) as -> by congruence. done.
    - apply gsplit_lookup in Hi as [[-> ->]|[[? _]|[[-> ->]|(Ep & _ & Ei & Hi)]]]; try done.
      + rewrite decide_False in Hm0 by done. assert (m0 = pn) as -> by congruence. simpl in Hq.
        split; [by left|]. split; [done|]. intros _. rewrite decide_False in Hq0; [done|].
        intros ->. destruct (hok_parent HG p pn Hpn Hne) as (q' & qn' & ? & E & E' & _). congruence.
      + rewrite decide_True in Hm0 by done. assert (m0 = cn) as -> by congruence. simpl in Hq.
        injection Hq as <-. split; [by left|]. split; [done|]. intros _.
        rewrite decide_False in Hq0 by done. done.
      + rewrite decide_False in Hm0 by done. assert (m0 = m) as -> by congruence.
        split; [by left|]. split; [done|]. intros _. rewrite decide_False in Hq0; [done|].
        intros ->. destruct (hok_parent HG i m Hi Hne) as (q' & qn' & ? & E & E' & _). congruence. }
  constructor.
  - intros v Hv. apply gsplit_lookup in Hi as [[-> ->]|[[-> ->]|[[-> ->]|(_ & _ & _ & Hi)]]].
    + apply (to_val (hv_tier HG _ _ Hpn Hne) v Hv).
    + rewrite decide_False in Hm0 by done. assert (m0 = cn) as -> by congruence. simpl in *.
      apply fmap_Some in Hv as (w & Hw & ->). autorewrite with keydb. rewrite length_drop, (T1 _ Hw). done.
    + rewrite decide_True in Hm0 by done. assert (m0 = cn) as -> by congruence. simpl in *.
      apply fmap_Some in Hv as (w & Hw & ->). autorewrite with keydb. rewrite length_take, (T1 _ Hw). done.
    + apply (to_val (hv_tier HG _ _ Hi Hne) v Hv).
  - intros v Hv. apply gsplit_lookup in Hi as [[-> ->]|[[-> ->]|[[-> ->]|(_ & _ & _ & Hi)]]].
    + apply (to_host (hv_tier HG _ _ Hpn Hne) v Hv).
    + rewrite decide_False in Hm0 by done. assert (m0 = cn) as -> by congruence. simpl in *.
      apply fmap_Some in Hv as (w & Hw & ->). autorewrite with keydb. rewrite length_drop, (T2 _ Hw). done.
    + rewrite decide_True in Hm0 by done. assert (m0 = cn) as -> by congruence. simpl in *.
      apply fmap_Some in Hv as (w & Hw & ->). autorewrite with keydb. rewrite length_take, (T2 _ Hw). done.
    + apply (to_host (hv_tier HG _ _ Hi Hne) v Hv).
  - rewrite F1, F2. done.
  - rewrite F1, F3. done.
  - rewrite F1. intros Hl q qn Hq Hqn. destruct (Hpar q qn Hq Hqn) as (q0 & [E|E] & P1 & P2).
    + destruct (decide (i = c)) as [->|Hic].
      * rewrite decide_False in Hm0 by done. assert (m0 = cn) as -> by congruence.
        destruct (P1 eq_refl) as [-> _]. done.
      * destruct (P2 Hic) as (Q1 & -> & _). by eapply T5.
    + destruct (P1 E) as [-> _]. subst i. rewrite decide_False in Hm0 by done. congruence.
  - rewrite F2. intros Hl q qn Hq Hqn. destruct (Hpar q qn Hq Hqn) as (q0 & [E|E] & P1 & P2).
    + destruct (decide (i = c)) as [->|Hic].
      * rewrite decide_False in Hm0 by done. assert (m0 = cn) as -> by congruence.
        destruct (P1 eq_refl) as [_ ->]. done.
      * destruct (P2 Hic) as (Q1 & _ & ->). by eapply T6.
    + destruct (P1 E) as [_ ->]. subst i. rewrite decide_False in Hm0 by done. congruence.
Qed.

Lemma gsplit_full : gfull G' = split_abs (gfull G) p (fsh pn) c (fsh cn) ck rest k (tier_val cn).
Proof.
  destruct gsplit_ids as (H1 & H2 & H3 & Hfr & Hcr & Hir). apply gfull_char; [|rewrite gsplit_lns|done|done| |done].
  - intros i. rewrite (split_leaf _ _ _ _ _ _ _ _ _ _ _ Hsp i). apply gfull_leaves.
  - rewrite !fmap_insert. unfold split_abs. simpl. f_equal. f_equal; [|f_equal].
    + unfold fsh, lower_half, g_lower. simpl. f_equal. f_equal. rewrite (tier_val_map (drop k) _ _ _ _ _ _ (hs_ch cn) (hs_par cn) (hs_key cn) (hs_lock cn)) by apply drop_nil.
      by destruct cn.
    + unfold fsh, upper_half, g_upper. simpl. f_equal. f_equal. rewrite (tier_val_map (take k) _ _ _ _ _ _ (hs_ch cn) (hs_par cn) (hs_key cn) (hs_lock cn)) by apply take_nil.
      by destruct cn.
  - simpl. rewrite gsplit_lns.
    rewrite (msum_update _ _ p pn) by (by rewrite !lookup_insert_ne).
    rewrite (msum_update _ _ c cn) by (by rewrite lookup_insert_ne). rewrite msum_insert by done.
    pose proof (sp_k _ _ _ _ _ _ _ _ _ _ _ Hsp) as Hk. simpl in Hk.
    unfold ev_len, hlive. simpl. destruct (hs_val cn), (hs_val pn); simpl; autorewrite with keydb; lia.
Qed.

(** The tier of a node in the whole store, after the split. *)
Lemma gsplit_at (f : HShape -> bool) d j :
  (forall n, f (g_lower id k n) = f n) -> (forall n, f (g_upper rest c p k n) = f n) ->
  (forall ch n, f (with_ch ch n) = f n) ->
  match g_ns G' !! j with Some n => f n | None => d end
  = if decide (j = id) then f cn else match g_ns G !! j with Some n => f n | None => d end.
Proof.
  intros F1 F2 F3. destruct gsplit_ids as (H1 & H2 & H3 & Hfr & Hcr & Hir).
  apply lns_lookup in Hpn as [Hpu Hpg]. apply lns_lookup in Hcn as [Hcu Hcg]. simpl.
  destruct (decide (j = p)) as [->|]; [rewrite lookup_insert_eq, decide_False, F3, Hpg; done|].
  rewrite lookup_insert_ne by done.
  destruct (decide (j = c)) as [->|]; [rewrite lookup_insert_eq, decide_False, F1, Hcg; done|].
  rewrite lookup_insert_ne by done.
  destruct (decide (j = id)) as [->|]; [rewrite lookup_insert_eq, F2; done|].
  by rewrite lookup_insert_ne.
Qed.

Lemma gsplit_live_at j : live_at (g_ns G') j = if decide (j = id) then hlive cn else live_at (g_ns G) j.
Proof.
  apply (gsplit_at hlive false); intros; unfold hlive; simpl; try done; by destruct (hs_val n).
Qed.
Lemma gsplit_backed_at j : backed_at (g_ns G') j = if decide (j = id) then hbacked cn else backed_at (g_ns G) j.
Proof.
  apply (gsplit_at hbacked false); intros; unfold hbacked; simpl; try done; by destruct (hs_host n).
Qed.

(** What some child satisfies is unchanged for an old linked node. *)
Lemma gsplit_some_child (f f' : nat -> bool) i m m' :
  (forall j, f' j = if decide (j = id) then f c else f j) ->
  lns G !! i = Some m -> lns G' !! i = Some m' ->
  existsb f' (child_ids m') = existsb f (child_ids m).
Proof.
  intros Hf Hi Hi'. destruct gsplit_ids as (H1 & H2 & H3 & Hfr & _).
  assert (forall j ck', hs_ch m !! ck' = Some j -> f' j = f j) as Hold.
  { intros j ck' Hj. rewrite Hf, decide_False; [done|]. intros ->.
    destruct (hok_child HG i m ck' id Hi Hj) as (? & E & _). congruence. }
  apply gsplit_lookup in Hi' as [[-> ->]|[[-> ->]|[[-> ->]|(E1 & E2 & E3 & Hi')]]].
  - assert (m = pn) as -> by congruence.
    apply bool_eq_iff. rewrite !existsb_child. simpl. pose proof (sp_in _ _ _ _ _ _ _ _ _ _ _ Hsp) as Hin.
    simpl in Hin. split.
    + intros (ck' & j & [[<- <-]|[Hne Hj]]%lookup_insert_Some & Ht).
      * rewrite Hf, decide_True in Ht by done. eauto.
      * rewrite (Hold _ _ Hj) in Ht. eauto.
    + intros (ck' & j & Hj & Ht). destruct (decide (ck' = ck)) as [->|Hne].
      * exists ck, id. rewrite lookup_insert_eq, Hf, decide_True by done. split; [done|congruence].
      * exists ck', j. rewrite lookup_insert_ne, (Hold _ _ Hj) by done. done.
  - assert (m = cn) as -> by congruence. apply existsb_ext_in. intros j [ck' Hj]%(elem_of_child_ids cn). eauto.
  - congruence.
  - assert (m' = m) as -> by congruence. apply existsb_ext_in. intros j [ck' Hj]%elem_of_child_ids. eauto.
Qed.

Lemma gsplit_linked i m : lns G !! i = Some m -> exists m', lns G' !! i = Some m'.
Proof.
  intros Hi. destruct gsplit_ids as (H1 & H2 & H3 & Hfr & _). setoid_rewrite gsplit_lookup.
  destruct (decide (i = p)) as [->|]; [eauto|]. destruct (decide (i = c)) as [->|]; [eauto|].
  destruct (decide (i = id)) as [->|]; [congruence|]. eauto 10.
Qed.

Lemma gsplit_unlinked i m : i ∈ g_un G -> g_ns G !! i = Some m -> g_ns G' !! i = Some m.
Proof.
  intros Hu Hi. apply lns_lookup in Hpn as [Hpu _]. apply lns_lookup in Hcn as [Hcu _].
  destruct (hok_fresh HG) as [_ Hf]. simpl. by rewrite !lookup_insert_ne by congruence.
Qed.

Lemma gsplit_new_leaf : leaf_at (g_ns G') id = false /\ hleaf_at (g_un G) (g_ns G') id = false.
Proof.
  destruct gsplit_ids as (H1 & H2 & H3 & Hfr & _).
  assert (g_ns G' !! id = Some (g_upper rest c p k cn)) as E.
  { apply lns_lookup. apply gsplit_lookup. auto. }
  assert (forall f : nat -> bool, existsb f (child_ids (g_upper rest c p k cn)) = f c) as Hx.
  { intros f. unfold child_ids. simpl. rewrite map_to_list_singleton. simpl. apply orb_false_r. }
  assert (hlive (g_upper rest c p k cn) = hlive cn) as Hlv by (unfold hlive; simpl; by destruct (hs_val cn)).
  unfold leaf_at, hleaf_at, g_leaf, g_hleaf. rewrite E, !Hx, gsplit_live_at, gsplit_backed_at, Hlv.
  rewrite !decide_False by done. apply lns_lookup in Hcn as [Hcu Hcg].
  rewrite (live_at_lookup _ _ _ Hcg), (backed_at_lookup _ _ _ Hcg).
  destruct (hlive cn) eqn:El; simpl.
  - by rewrite orb_true_r, andb_false_r.
  - destruct (hok_evicted HG c cn) as (_ & -> & _); [by apply lns_lookup|done|].
    by rewrite orb_true_r, andb_false_r.
Qed.

Lemma gsplit_leaf_at j : j <> id -> leaf_at (g_ns G') j = leaf_at (g_ns G) j.
Proof.
  intros Hj. destruct (decide (j ∈ g_un G)) as [Hu|Hu].
  { destruct (hv_un HG j Hu) as (m & Hm & Hl & _). unfold leaf_at. rewrite (gsplit_unlinked _ _ Hu Hm), Hm.
    unfold g_leaf. by rewrite Hl. }
  unfold leaf_at. destruct (g_ns G !! j) as [m|] eqn:Hm.
  - assert (lns G !! j = Some m) as Hl by (by apply lns_lookup).
    destruct (gsplit_linked _ _ Hl) as (m' & Hl'). pose proof Hl' as [_ Hm']%lns_lookup. rewrite Hm'.
    destruct (gsplit_flags _ _ Hl') as (m0 & Hm0 & F1 & F2 & F3 & _). rewrite decide_False in Hm0 by done.
    assert (m0 = m) as -> by congruence. unfold g_leaf. rewrite F1, F3.
    rewrite (gsplit_some_child (live_at (g_ns G)) (live_at (g_ns G')) j m m'); [done| |done|done].
    intros i. rewrite gsplit_live_at. apply lns_lookup in Hcn as [_ Hcg].
    by rewrite (live_at_lookup _ _ _ Hcg).
  - destruct (g_ns G' !! j) as [m'|] eqn:Hm'; [|done]. exfalso.
    assert (lns G' !! j = Some m') as Hl' by (by apply lns_lookup).
    destruct (gsplit_flags _ _ Hl') as (m0 & Hm0 & _). rewrite decide_False in Hm0 by done.
    apply lns_lookup in Hm0 as [_ ?]. congruence.
Qed.

Lemma gsplit_hleaf_at j : j <> id -> hleaf_at (g_un G) (g_ns G') j = hleaf_at (g_un G) (g_ns G) j.
Proof.
  intros Hj. unfold hleaf_at. case_bool_decide as Hu; [|done]. cbn [andb].
  destruct (g_ns G !! j) as [m|] eqn:Hm.
  - assert (lns G !! j = Some m) as Hl by (by apply lns_lookup).
    destruct (gsplit_linked _ _ Hl) as (m' & Hl'). pose proof Hl' as [_ Hm']%lns_lookup. rewrite Hm'.
    destruct (gsplit_flags _ _ Hl') as (m0 & Hm0 & F1 & F2 & F3 & _). rewrite decide_False in Hm0 by done.
    assert (m0 = m) as -> by congruence. unfold g_hleaf. rewrite F1, F3.
    rewrite (gsplit_some_child (backed_at (g_ns G)) (backed_at (g_ns G')) j m m'); [done| |done|done].
    intros i. rewrite gsplit_backed_at. apply lns_lookup in Hcn as [_ Hcg].
    by rewrite (backed_at_lookup _ _ _ Hcg).
  - destruct (g_ns G' !! j) as [m'|] eqn:Hm'; [|done]. exfalso.
    assert (lns G' !! j = Some m') as Hl' by (by apply lns_lookup).
    destruct (gsplit_flags _ _ Hl') as (m0 & Hm0 & _). rewrite decide_False in Hm0 by done.
    apply lns_lookup in Hm0 as [_ ?]. congruence.
Qed.

Lemma gsplit_hok : hok ps eagle Y G'.
Proof.
  destruct gsplit_ids as (H1 & H2 & H3 & Hfr & Hcr & Hir).
  pose proof gsplit_new_leaf as [N1 N2]. destruct (hok_fresh HG) as [Hf Hu]. constructor.
  - rewrite gsplit_full. apply (split_inv_tree Hsp).
  - destruct (hv_root HG) as (r & Hr & Hv & Hh). destruct (gsplit_linked _ _ Hr) as (r' & Hr').
    exists r'. split; [done|]. destruct (gsplit_flags _ _ Hr') as (m0 & Hm0 & _ & _ & _ & F).
    simpl g_root in *. rewrite decide_False in Hm0 by congruence.
    destruct F as (_ & _ & -> & ->); [congruence..|]. assert (m0 = r) as -> by congruence. done.
  - exact gsplit_tier.
  - intros j HjY. simpl g_lv. destruct (decide (j = id)) as [->|Hj].
    + rewrite N1. rewrite (hv_lv HG id) by done. unfold leaf_at. by rewrite Hf.
    + rewrite gsplit_leaf_at by done. by apply (hv_lv HG).
  - intros j HjY. simpl g_hl. simpl g_un. destruct (decide (j = id)) as [->|Hj].
    + rewrite N2. rewrite (hv_hl HG id) by done. unfold hleaf_at. rewrite Hf. by rewrite andb_false_r.
    + rewrite gsplit_hleaf_at by done. by apply (hv_hl HG).
  - intros j Hj. destruct (hv_un HG j Hj) as (m & Hm & Hl & Hc). exists m.
    split_and!; [by apply gsplit_unlinked|done|simpl; lia].
Qed.
End split.

Arguments gsplit_full {ps eagle Y G} HG {p pn c cn ck rest k}.
Arguments gsplit_hok {ps eagle Y G} HG {p pn c cn ck rest k}.
Arguments gsplit_lookup {ps eagle Y G} HG {p pn c cn ck rest k}.
Arguments gsplit_lns {ps eagle Y G} HG {p pn c cn ck rest k}.
Arguments gsplit_ids {ps eagle Y G} HG {p pn c cn ck rest k}.

Lemma gsplit_hinv ps eagle hs G p pn c cn ck rest k :
  hinv ps eagle hs G -> lns G !! p = Some pn -> lns G !! c = Some cn ->
  split_pre ps eagle (gfull G) p (fsh pn) c (fsh cn) ck rest k (tier_val cn) ->
  hinv ps eagle hs (g_split G p pn c cn ck rest k).
Proof.
  intros [HI Ho] Hp Hc Hsp. split; [|by apply (gsplit_hok Ho)].
  rewrite (gsplit_full Ho) by done. by apply (split_inv Hsp).
Qed.

(** ** Replacing the indices of a node *)

Definition revalue_abs (A : Abs) (i : nat) (n : Shape) (v : list Z) : Abs :=
  mkAbs (<[i := mkShape (sh_children n) (sh_parent n) (sh_key n) (Some v) (sh_lock n)]> (a_ns A))
    (a_root A) (a_ctr A) (a_ev A) (a_pr A) (a_lv A).

Section revalue.
Context (ps : nat) (eagle : bool) (A : Abs) (i : nat) (n : Shape) (v : list Z).
Context (Hi : a_ns A !! i = Some n) (Hne : i <> a_root A) (Hlen : length v = key_len (sh_key n)).
Local Abbreviation A' := (revalue_abs A i n v).

Lemma revalue_lookup j m :
  a_ns A' !! j = Some m -> exists m0, a_ns A !! j = Some m0 /\ sh_children m = sh_children m0 /\
    sh_parent m = sh_parent m0 /\ sh_key m = sh_key m0 /\ sh_lock m = sh_lock m0 /\
    (sh_value m = sh_value m0 \/ j = i /\ sh_value m = Some v).
Proof.
  simpl. intros [[<- <-]|[Hj Hm]]%lookup_insert_Some; [exists n|exists m]; simpl; auto 10.
Qed.

Lemma revalue_lookup_old j m :
  a_ns A !! j = Some m -> exists m', a_ns A' !! j = Some m' /\ sh_children m' = sh_children m /\
    sh_parent m' = sh_parent m /\ sh_key m' = sh_key m /\ sh_lock m' = sh_lock m /\ (j <> i -> m' = m).
Proof.
  intros Hj. simpl. destruct (decide (j = i)) as [->|Hji].
  - rewrite lookup_insert_eq. eexists. split; [done|]. assert (m = n) as -> by congruence. done.
  - rewrite lookup_insert_ne by done. exists m. done.
Qed.

Lemma revalue_inv_tree : inv_tree ps eagle A -> inv_tree ps eagle A'.
Proof.
  intros HA. constructor.
  - destruct (it_root HA) as (r & Hr & Hrest). exists r. split; [|done]. simpl. by rewrite lookup_insert_ne.
  - intros j m Hj. destruct (revalue_lookup _ _ Hj) as (m0 & Hm0 & _). by apply (it_fresh HA) in Hm0.
  - intros j m Hj Hjr. destruct (revalue_lookup _ _ Hj) as (m0 & Hm0 & E1 & E2 & E3 & E4 & E5).
    pose proof (it_node HA _ _ Hm0 Hjr) as [N1 N2 N3 N4 N5 N6]. constructor; rewrite ?E2, ?E3, ?E4; try done.
    + destruct N1 as (p & pn & ck & H1 & H2 & H3 & H4).
      destruct (revalue_lookup_old _ _ H2) as (pn' & Hp' & F1 & _). exists p, pn', ck. by rewrite F1.
    + destruct E5 as [->|[-> ->]]; [done|]. assert (m0 = n) as -> by congruence. by exists v.
  - intros j m Hj ck c Hc. destruct (revalue_lookup _ _ Hj) as (m0 & Hm0 & E1 & _). rewrite E1 in Hc.
    destruct (it_child HA _ _ Hm0 ck c Hc) as (cn & H1 & H2 & H3).
    destruct (revalue_lookup_old _ _ H1) as (cn' & Hc' & _ & F2 & F3 & _). exists cn'. by rewrite F2, F3.
  - destruct (it_rank HA) as [d Hd]. exists d. intros j m Hj.
    destruct (revalue_lookup _ _ Hj) as (m0 & Hm0 & _ & E2 & _). rewrite E2. by apply Hd.
Qed.

Lemma revalue_leaves : inv_leaves A -> inv_leaves A'.
Proof.
  intros H4 j. simpl a_lv. rewrite (H4 j). unfold is_evictable_leaf. simpl a_root. split.
  - intros (m & Hm & R). destruct (revalue_lookup_old _ _ Hm) as (m' & Hm' & _).
    exists m'. split; [exact Hm'|]. destruct (revalue_lookup _ _ Hm') as (m0 & Hm0 & E1 & _ & _ & E4 & _).
    assert (m0 = m) as -> by congruence. rewrite E1, E4. done.
  - intros (m & Hm & R). destruct (revalue_lookup _ _ Hm) as (m0 & Hm0 & E1 & _ & _ & E4 & _).
    exists m0. rewrite <-E1, <-E4. done.
Qed.

Lemma revalue_msum (f : nat -> Shape -> Z) :
  (forall m m', sh_parent m = sh_parent m' -> sh_key m = sh_key m' -> sh_lock m = sh_lock m' -> f i m = f i m') ->
  msum f (a_ns A') = msum f (a_ns A).
Proof. intros Hf. simpl. rewrite (msum_update _ _ i n) by done.
  pose proof (Hf (mkShape (sh_children n) (sh_parent n) (sh_key n) (Some v) (sh_lock n)) n
    eq_refl eq_refl eq_refl). lia.
Qed.

Lemma revalue_inv hs : inv ps eagle hs A -> inv ps eagle hs A'.
Proof.
  intros [H1 [H2 H3] [H4 H5] H6]. constructor.
  - by apply revalue_inv_tree.
  - split.
    + intros h Hh. destruct (H2 h Hh) as [m Hm]. destruct (revalue_lookup_old _ _ Hm) as (m' & -> & _). by exists m'.
    + intros j m Hj Hjr. destruct (revalue_lookup _ _ Hj) as (m0 & Hm0 & _ & _ & _ & -> & _).
      unfold locks_below. rewrite revalue_msum; [by apply (H3 j m0)|]. by intros ?? -> _ ->.
  - split; simpl a_root; [change (a_ev A') with (a_ev A); rewrite H4|change (a_pr A') with (a_pr A); rewrite H5];
      symmetry; apply revalue_msum; intros ??? E1 E2; unfold unlocked_len, locked_len, sh_len; by rewrite E1, E2.
  - by apply revalue_leaves.
Qed.
End revalue.

(** ** Replacing a node *)

Definition g_put (G : HAbs) (i : nat) (n : HShape) (ev pr : Z) (lv hl : gset nat) : HAbs :=
  mkHAbs (<[i := n]> (g_ns G)) (g_un G) (g_root G) (g_ctr G) ev pr lv hl.

Section put.
Context (ps : nat) (eagle : bool) (Y : gset nat) (G : HAbs) (HG : hok ps eagle Y G).
Context (i : nat) (n n' : HShape) (Hi : lns G !! i = Some n) (Hne : i <> g_root G).
Context (Hch : hs_ch n' = hs_ch n) (Hpar : hs_par n' = hs_par n) (Hkey : hs_key n' = hs_key n).
Context (ev pr : Z) (lv hl : gset nat).
Local Abbreviation G' := (g_put G i n' ev pr lv hl).

Lemma gput_lns : lns G' = <[i := n']> (lns G).
Proof. apply lns_lookup in Hi as [Hu _]. unfold g_put. by rewrite lns_insert. Qed.

Lemma gput_full :
  hs_lock n' = hs_lock n -> pr = g_pr G -> ev + ev_len i n' = g_ev G + ev_len i n ->
  length (tier_val n') = key_len (hs_key n) ->
  gfull G' = revalue_abs (gfull G) i (fsh n) (tier_val n').
Proof.
  intros Hl Hp Hev Hlen. apply gfull_char; [|rewrite gput_lns|done|done|rewrite gput_lns|done].
  - apply (revalue_leaves (gfull G) i (fsh n)); [by apply gfull_lookup_1|apply gfull_leaves].
  - rewrite fmap_insert. simpl. f_equal. unfold fsh. by rewrite Hch, Hpar, Hkey, Hl.
  - rewrite (msum_update _ _ i n) by done. simpl. lia.
Qed.

(** Only the parent sees the tiers of a node in its leaf status. *)
Lemma gput_leaf_at j :
  j <> i -> (hs_par n = Some j -> hlive n' = hlive n) -> leaf_at (g_ns G') j = leaf_at (g_ns G) j.
Proof.
  intros Hj Hp. simpl. unfold leaf_at. rewrite lookup_insert_ne by done.
  destruct (g_ns G !! j) as [m|] eqn:Hm; [|done]. destruct (decide (j ∈ g_un G)) as [Hu|Hu].
  { destruct (hv_un HG j Hu) as (m' & E & Hl & _). assert (m' = m) as -> by congruence.
    unfold g_leaf. by rewrite Hl. }
  apply g_leaf_ext; try done. intros ck c Hc. unfold live_at.
  destruct (decide (c = i)) as [->|]; [|by rewrite lookup_insert_ne].
  rewrite lookup_insert_eq. destruct (hok_child HG j m ck i) as (cn & E & _ & Hcp & _); [by apply lns_lookup|done|].
  assert (cn = n) as -> by congruence. apply lns_lookup in Hi as [_ ->]. by apply Hp.
Qed.

Lemma gput_hleaf_at j :
  j <> i -> (hs_par n = Some j -> hbacked n' = hbacked n) ->
  hleaf_at (g_un G) (g_ns G') j = hleaf_at (g_un G) (g_ns G) j.
Proof.
  intros Hj Hp. simpl. unfold hleaf_at. case_bool_decide as Hu; [|done]. cbn [andb].
  rewrite lookup_insert_ne by done. destruct (g_ns G !! j) as [m|] eqn:Hm; [|done].
  apply g_hleaf_ext; try done. intros ck c Hc. unfold backed_at.
  destruct (decide (c = i)) as [->|]; [|by rewrite lookup_insert_ne].
  rewrite lookup_insert_eq. destruct (hok_child HG j m ck i) as (cn & E & _ & Hcp & _); [by apply lns_lookup|done|].
  assert (cn = n) as -> by congruence. apply lns_lookup in Hi as [_ ->]. by apply Hp.
Qed.

(** What a replacement must keep. *)
Record put_pre (Y' : gset nat) : Prop := mkPutPre {
  pt_tree : inv_tree ps eagle (gfull G');
  pt_tier : tier_ok G n';
  pt_live : hlive n' = false -> hlive n = true ->
    forall ck c cn, hs_ch n !! ck = Some c -> lns G !! c = Some cn -> hlive cn = false;
  pt_back : hbacked n' = false -> hbacked n = false;
  pt_lv : exact (leaf_at (g_ns G')) lv Y';
  pt_hl : exact (hleaf_at (g_un G) (g_ns G')) hl Y' }.

Lemma gput_tier Y' j m : put_pre Y' -> lns G' !! j = Some m -> j <> g_root G -> tier_ok G' m.
Proof.
  intros [H1 [T1 T2 T3 T4 T5 T6] H3 H4 H5 H6] Hj Hjr. rewrite gput_lns in Hj.
  apply lookup_insert_Some in Hj as [[<- <-]|[Hji Hj]].
  - assert (forall p pn, hs_par n' = Some p -> lns G' !! p = Some pn -> lns G !! p = Some pn) as Hold.
    { intros p pn Hp. rewrite gput_lns. rewrite Hpar in Hp.
      destruct (hok_parent HG i n Hi Hne) as (q & qn & ck & E1 & E2 & _ & _ & E3).
      assert (q = p) as -> by congruence. by rewrite lookup_insert_ne. }
    constructor; try done; intros Hl p pn Hp Hpn; [eapply T5|eapply T6]; eauto.
  - pose proof (hv_tier HG _ _ Hj Hjr) as [S1 S2 S3 S4 S5 S6]. constructor; try done.
    + intros Hl p pn Hp Hpn. rewrite gput_lns in Hpn. apply lookup_insert_Some in Hpn as [[<- <-]|[Hpi Hpn]].
      * destruct (hlive n') eqn:E; [done|]. pose proof (S5 Hl i n Hp Hi) as Hn.
        destruct (hok_parent HG j m Hj Hjr) as (q & qn & ck & E1 & E2 & _ & E3 & _).
        assert (q = i) as -> by congruence. assert (qn = n) as -> by congruence.
        rewrite <-Hl. symmetry. by eapply H3.
      * by eapply S5.
    + intros Hl p pn Hp Hpn. rewrite gput_lns in Hpn. apply lookup_insert_Some in Hpn as [[<- <-]|[Hpi Hpn]].
      * destruct (hbacked n') eqn:E; [done|]. rewrite <-(S6 Hl i n Hp Hi). symmetry. by apply H4.
      * by eapply S6.
Qed.

Lemma gput_hok Y' : put_pre Y' -> hok ps eagle Y' G'.
Proof.
  intros Hpre. pose proof Hpre as [H1 H2 H3 H4 H5 H6]. constructor; try done.
  - destruct (hv_root HG) as (r & Hr & R). exists r. split; [|done]. rewrite gput_lns. simpl.
    by rewrite lookup_insert_ne.
  - intros j m Hj Hjr. by eapply gput_tier.
  - intros j Hj. destruct (hv_un HG j Hj) as (m & Hm & R). exists m. split; [|done]. simpl.
    rewrite lookup_insert_ne; [done|]. intros ->. apply lns_lookup in Hi as [? _]. done.
Qed.
End put.


(** Losing the device indices of a backed-up leaf. *)
Section evict.
Context (ps : nat) (eagle : bool) (hs : list nat) (G : HAbs) (HG : hinv ps eagle hs G).
Context (i : nat) (n : HShape) (Hi : lns G !! i = Some n) (Hlv : i ∈ g_lv G).
Lemma leaf_facts :
  hlive n = true /\ hs_lock n = 0 /\ i <> g_root G /\
  forall ck c cn, hs_ch n !! ck = Some c -> lns G !! c = Some cn -> hlive cn = false.
Proof.
  pose proof HG as [HI Ho]. apply (hv_lv Ho) in Hlv; [|set_solver]. pose proof Hi as [Hu Hg]%lns_lookup.
  unfold leaf_at in Hlv. rewrite Hg in Hlv. unfold g_leaf in Hlv.
  apply negb_true_iff, orb_false_iff in Hlv as [[H1 H2]%orb_false_iff H3].
  apply negb_false_iff in H1. apply Z.ltb_ge in H2.
  pose proof (node_lock_nonneg ps eagle (gfull G) i (fsh n) (hv_tree Ho) (gfull_lookup_1 _ _ _ Hi)) as Hn. simpl in Hn.
  split_and!; [done|lia| |].
  - intros E. destruct (hok_root_live Ho _ _ Hi E). lia.
  - intros ck c cn Hc Hcn. apply not_true_iff_false in H3. apply not_true_iff_false. intros Hl. apply H3.
    apply existsb_child. exists ck, c. split; [done|]. apply lns_lookup in Hcn as [_ Hcn].
    by rewrite (live_at_lookup _ _ _ Hcn).
Qed.

Context (Hb : hbacked n = true) (p : nat) (pn : HShape) (Hp : hs_par n = Some p) (Hpn : lns G !! p = Some pn).
Local Abbreviation n' := (with_val None n).
Local Abbreviation ns' := (<[i := n']> (g_ns G)).
Local Abbreviation G' := (g_put G i n' (g_ev G - Z.of_nat (key_len (hs_key n))) (g_pr G)
  (set_status (leaf_at ns' p) p (set_status (leaf_at ns' i) i (g_lv G)))
  (set_status (hleaf_at (g_un G) ns' i) i (g_hl G))).

Lemma gevict_hinv : hinv ps eagle hs G' /\ gfull G' = revalue_abs (gfull G) i (fsh n) (tier_val n').
Proof.
  pose proof HG as [HI Ho]. destruct leaf_facts as (Hl & Hlk & Hr & Hc).
  pose proof (hv_tier Ho _ _ Hi Hr) as [T1 T2 T3 T4 T5 T6].
  destruct (hs_host n) as [h|] eqn:Eh; [|unfold hbacked in Hb; by rewrite Eh in Hb].
  assert (length (tier_val n') = key_len (hs_key n)) as Hlen by (unfold tier_val; simpl; rewrite Eh; by apply T2).
  assert (gfull G' = revalue_abs (gfull G) i (fsh n) (tier_val n')) as Ef.
  { eapply gput_full; try done. unfold ev_len. rewrite Hl. simpl. lia. }
  split; [|exact Ef]. split.
  - rewrite Ef. apply revalue_inv; [by apply gfull_lookup_1|done|done|done].
  - apply (gput_hok ps eagle _ G Ho i n n' Hi Hr); [done|]. constructor.
    + rewrite Ef. apply revalue_inv_tree; [by apply gfull_lookup_1|done|done|apply Ho].
    + constructor; simpl; rewrite ?Eh; try done; lia.
    + intros _ _. exact Hc.
    + done.
    + pose proof (hok_parent Ho i n Hi Hr) as (q & qn & ck & E1 & _ & _ & _ & E2).
      eapply exact_weaken; [apply exact_update, exact_update|].
      * eapply (exact_change _ _ _ ∅ {[i; p]}); [apply (hv_lv Ho)|]. intros j Hj. split; [set_solver|].
        apply (gput_leaf_at ps eagle _ G Ho i n n' Hi 0 0 ∅ ∅); [set_solver|]. intros E. set_solver.
      * set_solver.
    + eapply exact_weaken; [apply exact_update|].
      * eapply (exact_change _ _ _ ∅ {[i]}); [apply (hv_hl Ho)|]. intros j Hj. split; [set_solver|].
        apply (gput_hleaf_at ps eagle _ G Ho i n n' Hi 0 0 ∅ ∅); [set_solver|done].
      * set_solver.
Qed.
End evict.

(** Recomputing the leaf statuses of a node. *)
Definition g_relv (G : HAbs) (i : nat) : HAbs :=
  mkHAbs (g_ns G) (g_un G) (g_root G) (g_ctr G) (g_ev G) (g_pr G) (set_status (leaf_at (g_ns G) i) i (g_lv G)) (g_hl G).
Definition g_rehl (G : HAbs) (i : nat) : HAbs :=
  mkHAbs (g_ns G) (g_un G) (g_root G) (g_ctr G) (g_ev G) (g_pr G) (g_lv G) (set_status (hleaf_at (g_un G) (g_ns G) i) i (g_hl G)).

Lemma tier_ok_ext G G' n : lns G' = lns G -> tier_ok G n -> tier_ok G' n.
Proof. intros E [T1 T2 T3 T4 T5 T6]. constructor; rewrite ?E; done. Qed.

(** The two leaf sets with separate exceptions. *)
Record hok2 (ps : nat) (eagle : bool) (Y W : gset nat) (G : HAbs) : Prop := mkHok2 {
  h2_ok : hok ps eagle (Y ∪ W) G;
  h2_lv : exact (leaf_at (g_ns G)) (g_lv G) Y;
  h2_hl : exact (hleaf_at (g_un G) (g_ns G)) (g_hl G) W }.

Lemma hok_hok2 ps eagle Y G : hok ps eagle Y G -> hok2 ps eagle Y Y G.
Proof. intros Ho. constructor; [|apply Ho|apply Ho]. by rewrite (union_idemp_L Y). Qed.

Lemma hok2_hok ps eagle Y W G : hok2 ps eagle Y W G -> Y = ∅ -> W = ∅ -> hok ps eagle ∅ G.
Proof. intros [Ho H1 H2] -> ->. by rewrite (union_idemp_L ∅) in Ho. Qed.

Lemma hok2_change ps eagle Y W G Y' W' lv hl :
  hok2 ps eagle Y W G -> exact (leaf_at (g_ns G)) lv Y' -> exact (hleaf_at (g_un G) (g_ns G)) hl W' ->
  hok2 ps eagle Y' W' (mkHAbs (g_ns G) (g_un G) (g_root G) (g_ctr G) (g_ev G) (g_pr G) lv hl).
Proof.
  intros [[O1 O2 O3 O4 O5 O6] H1 H2] H3 H4. constructor; [|done|done].
  constructor; simpl; try done.
  - intros i n Hi Hr. by apply (tier_ok_ext G), (O3 i n).
  - eapply exact_weaken; [exact H3|set_solver].
  - eapply exact_weaken; [exact H4|set_solver].
Qed.

Lemma grelv_ok ps eagle Y W G i : hok2 ps eagle Y W G -> hok2 ps eagle (Y ∖ {[i]}) W (g_relv G i).
Proof.
  intros Ho. eapply hok2_change; [exact Ho|apply exact_update, Ho|apply Ho].
Qed.
Lemma grehl_ok ps eagle Y W G i : hok2 ps eagle Y W G -> hok2 ps eagle Y (W ∖ {[i]}) (g_rehl G i).
Proof.
  intros Ho. eapply hok2_change; [exact Ho|apply Ho|apply exact_update, Ho].
Qed.

Lemma gfull_relv G i : gfull (g_relv G i) = gfull G.
Proof. done. Qed.
Lemma gfull_rehl G i : gfull (g_rehl G i) = gfull G.
Proof. done. Qed.

(** A node with a live parent takes over device indices; its own statuses and its parent's
    status as a leaf may be outdated then. *)
Lemma grevive_ok ps eagle Y W G i n p pn v :
  hok2 ps eagle Y W G -> lns G !! i = Some n -> i <> g_root G -> hlive n = false ->
  hs_par n = Some p -> lns G !! p = Some pn -> hlive pn = true -> length v = key_len (hs_key n) ->
  let G' := g_put G i (with_val (Some v) n) (g_ev G + Z.of_nat (key_len (hs_key n))) (g_pr G) (g_lv G) (g_hl G) in
  hok2 ps eagle (Y ∪ ({[i; p]} ∖ {[g_root G]})) (W ∪ {[i]}) G' /\
  gfull G' = revalue_abs (gfull G) i (fsh n) v.
Proof.
  intros [Ho Hlv Hhl] Hi Hr Hl Hp Hpn Hpl Hv. pose proof (hv_tier Ho _ _ Hi Hr) as [T1 T2 T3 T4 T5 T6].
  set (n' := with_val (Some v) n). intros G'.
  assert (gfull G' = revalue_abs (gfull G) i (fsh n) v) as Ef.
  { unfold G'. rewrite (gput_full G i n n'); try done. unfold ev_len. rewrite Hl. simpl. lia. }
  assert (exact (leaf_at (g_ns G')) (g_lv G) (Y ∪ ({[i; p]} ∖ {[g_root G]}))) as E1.
  { eapply (exact_change _ _ _ Y); [exact Hlv|]. intros j Hj. split; [set_solver|].
    destruct (decide (j = g_root G)) as [->|Hjr].
    - destruct (hv_root Ho) as (r & Hr' & _). destruct (hok_root_live Ho _ _ Hr' eq_refl) as [_ Hlk].
      apply lns_lookup in Hr' as [_ Hg]. unfold leaf_at. simpl. rewrite lookup_insert_ne by done. rewrite Hg.
      unfold g_leaf. rewrite Hlk. simpl. by rewrite !orb_true_r.
    - apply (gput_leaf_at ps eagle _ G Ho i n n' Hi 0 0 ∅ ∅); [set_solver|]. intros E. set_solver. }
  assert (exact (hleaf_at (g_un G) (g_ns G')) (g_hl G) (W ∪ {[i]})) as E2.
  { eapply (exact_change _ _ _ W); [exact Hhl|]. intros j Hj. split; [set_solver|].
    apply (gput_hleaf_at ps eagle _ G Ho i n n' Hi 0 0 ∅ ∅); [set_solver|done]. }
  split; [|exact Ef]. constructor; [|exact E1|exact E2].
  apply (gput_hok ps eagle _ G Ho i n n' Hi Hr); [done|]. constructor.
  - change (inv_tree ps eagle (gfull G')). rewrite Ef. apply revalue_inv_tree; [by apply gfull_lookup_1|done|done|apply Ho].
  - constructor; simpl; try done; [congruence|]. intros _ q qn Hq Hqn. congruence.
  - done.
  - done.
  - eapply exact_weaken; [exact E1|set_solver].
  - eapply exact_weaken; [exact E2|set_solver].
Qed.

(** Host indices for a live node whose parent is backed up. *)
Lemma ghost_hok ps eagle Y G i n p pn h :
  hok ps eagle Y G -> lns G !! i = Some n -> i <> g_root G -> hlive n = true ->
  hs_par n = Some p -> lns G !! p = Some pn -> hbacked pn = true -> length h = key_len (hs_key n) ->
  let G' := g_put G i (with_host (Some h) n) (g_ev G) (g_pr G) (g_lv G) (g_hl G) in
  hok ps eagle Y G' /\ gfull G' = gfull G.
Proof.
  intros Ho Hi Hr Hl Hp Hpn Hpb Hh. pose proof (hv_tier Ho _ _ Hi Hr) as [T1 T2 T3 T4 T5 T6]. simpl.
  assert (tier_val (with_host (Some h) n) = tier_val n) as Etv.
  { unfold tier_val, hlive in *. simpl. by destruct (hs_val n). }
  assert (gfull (g_put G i (with_host (Some h) n) (g_ev G) (g_pr G) (g_lv G) (g_hl G)) = gfull G) as Ef.
  { rewrite (gput_full G i n (with_host (Some h) n)); try done.
    - rewrite Etv. unfold revalue_abs. rewrite insert_id; [by destruct (gfull G)|].
      rewrite (gfull_lookup_1 _ _ _ Hi). done.
    - rewrite Etv. by eapply tier_val_len. }
  split; [|exact Ef]. apply (gput_hok ps eagle Y G Ho i n (with_host (Some h) n) Hi Hr); [done|]. constructor.
  - rewrite Ef. apply Ho.
  - constructor; simpl; try done; [congruence|]. intros _ q qn Hq Hqn. congruence.
  - unfold hlive in *. simpl. congruence.
  - done.
  - eapply (exact_change _ _ _ Y); [apply (hv_lv Ho)|]. intros j Hj. split; [done|].
    destruct (decide (j = i)) as [->|]; [|by apply (gput_leaf_at ps eagle Y G Ho i n (with_host (Some h) n) Hi 0 0 ∅ ∅)].
    pose proof Hi as [_ Hg]%lns_lookup. unfold leaf_at. simpl. rewrite lookup_insert_eq, Hg. apply g_leaf_ext; try done.
    intros ck c Hc. unfold live_at. destruct (decide (c = i)) as [->|]; [by rewrite lookup_insert_eq, Hg|].
    by rewrite lookup_insert_ne.
  - eapply (exact_change _ _ _ Y); [apply (hv_hl Ho)|]. intros j Hj. split; [done|].
    destruct (decide (j = i)) as [->|Hji].
    { pose proof Hi as [_ Hg]%lns_lookup. unfold hleaf_at. simpl. rewrite lookup_insert_eq, Hg.
      unfold g_hleaf. change (hlive (with_host (Some h) n)) with (hlive n). by rewrite Hl. }
    destruct (decide (j = p)) as [->|Hjp].
    { pose proof Hpn as [_ Hg]%lns_lookup. unfold hleaf_at. simpl. rewrite lookup_insert_ne by done. rewrite Hg.
      unfold g_hleaf. by rewrite (T5 Hl p pn Hp Hpn). }
    apply (gput_hleaf_at ps eagle Y G Ho i n (with_host (Some h) n) Hi 0 0 ∅ ∅); [done|]. congruence.
Qed.

(** One step of a walk that locks or unlocks live nodes. *)
Definition g_lock (G : HAbs) (i : nat) (n : HShape) (l : Z) : HAbs :=
  g_rehl (g_relv (g_put G i (with_hlock l n)
    (g_ev G - unlocked_len (g_root G) i (fsh n) + unlocked_len (g_root G) i (fsh (with_hlock l n)))
    (g_pr G - locked_len (g_root G) i (fsh n) + locked_len (g_root G) i (fsh (with_hlock l n)))
    (g_lv G) (g_hl G)) i) i.

Lemma glock_ok ps eagle Y W G i n l :
  hok2 ps eagle Y W G -> lns G !! i = Some n -> i <> g_root G -> hlive n = true -> 0 <= l ->
  hok2 ps eagle (Y ∖ {[i]}) (W ∖ {[i]}) (g_lock G i n l) /\
  gfull (g_lock G i n l) = lock_abs (gfull G) i (fsh n) l.
Proof.
  intros [Ho Hlv Hhl] Hi Hr Hl Hpos. pose proof (hv_tier Ho _ _ Hi Hr) as [T1 T2 T3 T4 T5 T6].
  unfold g_lock. set (G1 := g_put _ _ _ _ _ _ _).
  assert (gfull G1 = lock_abs (gfull G) i (fsh n) l) as Ef.
  { assert (lns G1 = <[i := with_hlock l n]> (lns G)) as En by (by eapply gput_lns).
    apply gfull_char; [|rewrite En|done|done|rewrite En|done].
    - apply lock_inv_leaves; try done. apply gfull_leaves.
    - by rewrite fmap_insert.
    - rewrite (msum_update _ _ i n) by done. simpl.
      change (ev_len i (with_hlock l n)) with (ev_len i n). change (with_lock l (fsh n)) with (fsh (with_hlock l n)). lia. }
  assert (forall lv hl, exact (leaf_at (g_ns G1)) lv (Y ∪ {[i]}) -> exact (hleaf_at (g_un G1) (g_ns G1)) hl (W ∪ {[i]}) ->
    hok ps eagle (Y ∪ W ∪ {[i]}) (g_put G i (with_hlock l n) (g_ev G1) (g_pr G1) lv hl)) as Hput.
  { intros lv hl H1 H2. apply (gput_hok ps eagle (Y ∪ W) G Ho i n (with_hlock l n) Hi Hr); [done|]. constructor.
    - change (inv_tree ps eagle (gfull (g_put G i (with_hlock l n) (g_ev G1) (g_pr G1) lv hl))).
      replace (gfull (g_put G i (with_hlock l n) (g_ev G1) (g_pr G1) lv hl)) with (gfull G1) by done. rewrite Ef.
      apply lock_inv_tree; [apply Ho|by apply gfull_lookup_1|done|done].
    - by constructor.
    - unfold hlive in *. simpl. congruence.
    - done.
    - eapply exact_weaken; [exact H1|set_solver].
    - eapply exact_weaken; [exact H2|set_solver]. }
  assert (exact (leaf_at (g_ns G1)) (g_lv G1) (Y ∪ {[i]})) as E1.
  { eapply (exact_change _ _ _ Y); [exact Hlv|]. intros j Hj. split; [set_solver|].
    apply (gput_leaf_at ps eagle _ G Ho i n (with_hlock l n) Hi 0 0 ∅ ∅); [set_solver|done]. }
  assert (exact (hleaf_at (g_un G1) (g_ns G1)) (g_hl G1) (W ∪ {[i]})) as E2.
  { eapply (exact_change _ _ _ W); [exact Hhl|]. intros j Hj. split; [set_solver|].
    apply (gput_hleaf_at ps eagle _ G Ho i n (with_hlock l n) Hi 0 0 ∅ ∅); [set_solver|done]. }
  assert (hok2 ps eagle (Y ∪ {[i]}) (W ∪ {[i]}) G1) as H2.
  { constructor; [|done|done]. replace (Y ∪ {[i]} ∪ (W ∪ {[i]})) with (Y ∪ W ∪ {[i]}) by set_solver.
    by apply Hput. }
  split; [|exact Ef].
  replace (Y ∖ {[i]}) with ((Y ∪ {[i]}) ∖ {[i]}) by set_solver.
  replace (W ∖ {[i]}) with ((W ∪ {[i]}) ∖ {[i]}) by set_solver.
  by apply grehl_ok, grelv_ok.
Qed.

(** ** Adding a leaf *)

Definition g_newleaf (node : nat) (key : RadixKey) (v h : option (list Z)) : HShape :=
  mkHShape ∅ (Some node) key v h 0.

(** The leaf is on the device ([h = None]) or on the host ([v = None]). *)
Definition g_add (G : HAbs) (node : nat) (nn : HShape) (ck : ChildKey) (key : RadixKey) (v h : option (list Z)) : HAbs :=
  let id := g_ctr G in
  mkHAbs (<[node := with_ch (<[ck := id]> (hs_ch nn)) nn]> (<[id := g_newleaf node key v h]> (g_ns G)))
    (g_un G) (g_root G) (S (g_ctr G))
    (g_ev G + (match v with Some _ => Z.of_nat (key_len key) | None => 0 end)) (g_pr G) (g_lv G) (g_hl G).

Section add.
Context (ps : nat) (eagle : bool) (Y : gset nat) (G : HAbs) (HG : hok ps eagle Y G).
Context (node : nat) (nn : HShape) (ck : ChildKey) (key : RadixKey) (v h : option (list Z)) (w : list Z).
Context (Hn : lns G !! node = Some nn).
Context (Had : add_pre ps eagle (gfull G) node (fsh nn) ck key w).
Context (Hvh : v = Some w /\ h = None /\ hlive nn = true \/ v = None /\ h = Some w /\ hbacked nn = true).
Local Abbreviation G' := (g_add G node nn ck key v h).
Local Abbreviation id := (g_ctr G).
Local Abbreviation nn' := (with_ch (<[ck := g_ctr G]> (hs_ch nn)) nn).
Local Abbreviation leaf := (g_newleaf node key v h).

Lemma gadd_ids : node <> id /\ lns G !! id = None /\ id <> g_root G.
Proof.
  destruct (add_ids Had) as (H1 & H2 & H3). destruct (hok_fresh HG) as [Hf Hu].
  split_and!; [done| |done]. unfold lns. apply map_lookup_filter_None. by left.
Qed.

Lemma gadd_lns : lns G' = <[node := nn']> (<[id := leaf]> (lns G)).
Proof.
  apply lns_lookup in Hn as [Hnu _]. destruct (hok_fresh HG) as [_ Hu].
  unfold g_add. rewrite !lns_insert by done. done.
Qed.

Lemma gadd_tier_val : tier_val leaf = w.
Proof. unfold tier_val. by destruct Hvh as [(-> & -> & _)|(-> & -> & _)]. Qed.

Lemma gadd_full : gfull G' = add_abs (gfull G) node (fsh nn) ck key w.
Proof.
  destruct gadd_ids as (H1 & H2 & H3). apply gfull_char; [|rewrite gadd_lns|done|done|rewrite gadd_lns|done].
  - apply (add_inv_leaves Had), gfull_leaves.
  - rewrite !fmap_insert. unfold add_abs. simpl. f_equal. f_equal. unfold fsh, new_leaf. simpl.
    by rewrite gadd_tier_val.
  - rewrite (msum_update _ _ node nn) by (by rewrite lookup_insert_ne). rewrite msum_insert by done.
    simpl. change (ev_len node nn') with (ev_len node nn). unfold ev_len, hlive. simpl.
    destruct Hvh as [(-> & _ & _)|(-> & _ & _)]; lia.
Qed.

Lemma gadd_lookup i m :
  lns G' !! i = Some m -> i = node /\ m = nn' \/ i = id /\ m = leaf \/ i <> node /\ i <> id /\ lns G !! i = Some m.
Proof.
  destruct gadd_ids as (H1 & H2 & _). rewrite gadd_lns, !lookup_insert_Some. naive_solver.
Qed.

(** Old nodes keep everything but the children of [node]. *)
Lemma gadd_old i m :
  lns G' !! i = Some m -> i <> id -> exists m0, lns G !! i = Some m0 /\ hs_par m = hs_par m0 /\
    hs_key m = hs_key m0 /\ hs_val m = hs_val m0 /\ hs_host m = hs_host m0 /\ hs_lock m = hs_lock m0.
Proof.
  intros [[-> ->]|[[-> ->]|(H1 & H2 & Hm)]]%gadd_lookup Hne; [by exists nn|done|by exists m].
Qed.

Lemma gadd_parent q m i : lns G !! i = Some m -> hs_par m = Some q -> q <> id.
Proof.
  intros Hi Hq ->. destruct (decide (i = g_root G)) as [->|Hne].
  - destruct (it_root (hv_tree HG)) as (r & (r0 & Hr & <-)%gfull_lookup & Hp & _). simpl in *. congruence.
  - destruct (hok_parent HG i m Hi Hne) as (q & qn & ? & E & E' & _). destruct gadd_ids as (_ & ? & _). congruence.
Qed.

Lemma gadd_tier i m : lns G' !! i = Some m -> i <> g_root G -> tier_ok G' m.
Proof.
  intros Hi Hne. destruct gadd_ids as (H1 & H2 & H3). destruct (decide (i = id)) as [->|Hid].
  - apply gadd_lookup in Hi as [[? _]|[[_ ->]|(_ & ? & _)]]; [congruence| |done].
    assert (forall q qn, hs_par leaf = Some q -> lns G' !! q = Some qn -> hlive qn = hlive nn /\ hbacked qn = hbacked nn) as Hq.
    { intros q qn [= <-] Hq. rewrite gadd_lns, lookup_insert_eq in Hq. by injection Hq as <-. }
    pose proof (ad_len _ _ _ _ _ _ _ _ Had) as Hlen.
    destruct Hvh as [(-> & -> & Hl)|(-> & -> & Hl)]; constructor; simpl; try done; try congruence;
      intros _ q qn E1 E2; destruct (Hq q qn E1 E2) as [F1 F2]; congruence.
  - destruct (gadd_old _ _ Hi Hid) as (m0 & Hm0 & E1 & E2 & E3 & E4 & E5).
    pose proof (hv_tier HG _ _ Hm0 Hne) as [T1 T2 T3 T4 T5 T6].
    assert (hlive m = hlive m0 /\ hbacked m = hbacked m0) as [F1 F2] by (unfold hlive, hbacked; by rewrite E3, E4).
    constructor; rewrite ?E1, ?E2, ?E3, ?E4, ?E5, ?F1, ?F2; try done.
    + intros Hl q qn Hq Hqn. pose proof (gadd_parent q m0 i Hm0 Hq) as Hqi.
      destruct (gadd_old _ _ Hqn Hqi) as (q0 & Hq0 & _ & _ & G3 & _).
      unfold hlive at 1. rewrite G3. exact (T5 Hl q q0 Hq Hq0).
    + intros Hl q qn Hq Hqn. pose proof (gadd_parent q m0 i Hm0 Hq) as Hqi.
      destruct (gadd_old _ _ Hqn Hqi) as (q0 & Hq0 & _ & _ & _ & G4 & _).
      unfold hbacked at 1. rewrite G4. exact (T6 Hl q q0 Hq Hq0).
Qed.

(** The status of the other nodes. *)
Lemma gadd_at (f : HShape -> bool) d j :
  j <> id -> (forall ch n, f (with_ch ch n) = f n) ->
  match g_ns G' !! j with Some n => f n | None => d end = match g_ns G !! j with Some n => f n | None => d end.
Proof.
  intros Hj Hf. apply lns_lookup in Hn as [_ Hg]. simpl. destruct (decide (j = node)) as [->|].
  - by rewrite lookup_insert_eq, Hf, Hg.
  - by rewrite !lookup_insert_ne by done.
Qed.

Lemma gadd_leaf_at j : j <> node -> j <> id -> leaf_at (g_ns G') j = leaf_at (g_ns G) j.
Proof.
  intros Hjn Hji. unfold leaf_at. simpl. rewrite !lookup_insert_ne by done.
  destruct (g_ns G !! j) as [m|] eqn:Hm; [|done]. destruct (decide (j ∈ g_un G)) as [Hu|Hu].
  { destruct (hv_un HG j Hu) as (m' & E & Hl & _). assert (m' = m) as -> by congruence.
    unfold g_leaf. by rewrite Hl. }
  apply g_leaf_ext; try done. intros ck' c Hc. apply (gadd_at hlive false); [|done]. intros ->.
  destruct (hok_child HG j m ck' id) as (cn & E & _); [by apply lns_lookup|done|].
  destruct gadd_ids as (_ & ? & _). congruence.
Qed.

Lemma gadd_hleaf_at j : j <> node -> j <> id -> hleaf_at (g_un G) (g_ns G') j = hleaf_at (g_un G) (g_ns G) j.
Proof.
  intros Hjn Hji. unfold hleaf_at. case_bool_decide as Hu; [|done]. cbn [andb]. simpl g_ns.
  rewrite !lookup_insert_ne by done. destruct (g_ns G !! j) as [m|] eqn:Hm; [|done].
  apply g_hleaf_ext; try done. intros ck' c Hc. apply (gadd_at hbacked false); [|done]. intros ->.
  destruct (hok_child HG j m ck' id) as (cn & E & _); [by apply lns_lookup|done|].
  destruct gadd_ids as (_ & ? & _). congruence.
Qed.

Lemma gadd_hok : hok ps eagle (Y ∪ {[node; id]}) G'.
Proof.
  destruct gadd_ids as (H1 & H2 & H3). constructor.
  - rewrite gadd_full. apply (add_inv_tree Had).
  - destruct (hv_root HG) as (r & Hr & R1 & R2). simpl g_root. rewrite gadd_lns.
    destruct (decide (g_root G = node)) as [E|E].
    + rewrite E in *. exists nn'. rewrite lookup_insert_eq. assert (r = nn) as -> by congruence. done.
    + exists r. rewrite !lookup_insert_ne by done. done.
  - exact gadd_tier.
  - eapply (exact_change _ _ _ Y); [apply (hv_lv HG)|]. intros j Hj. split; [set_solver|].
    apply gadd_leaf_at; set_solver.
  - eapply (exact_change _ _ _ Y); [apply (hv_hl HG)|]. intros j Hj. split; [set_solver|].
    apply gadd_hleaf_at; set_solver.
  - intros j Hj. simpl in Hj. destruct (hv_un HG j Hj) as (m & Hm & Hl & Hc). exists m. split_and!; [|done|simpl; lia].
    apply lns_lookup in Hn as [Hnu _]. destruct (hok_fresh HG) as [_ Hu]. simpl.
    by rewrite !lookup_insert_ne by congruence.
Qed.
End add.

(** ** Removing a leaf *)

Section remove.
Context (ps : nat) (eagle : bool) (Y : gset nat) (G : HAbs) (HG : hok ps eagle Y G).
Context (c : nat) (cn : HShape) (p : nat) (pn : HShape) (ck : ChildKey).
Context (Hcn : lns G !! c = Some cn) (Hpn : lns G !! p = Some pn).
Context (Hdl : delete_pre ps eagle (gfull G) c (fsh cn) p (fsh pn) ck).
Local Abbreviation pn' := (with_ch (delete ck (hs_ch pn)) pn).

(** An evicted leaf is unlinked and stays in the store; a leaf on the device is deleted. *)
Definition g_unlink : HAbs :=
  mkHAbs (<[p := pn']> (g_ns G)) (g_un G ∪ {[c]}) (g_root G) (g_ctr G) (g_ev G) (g_pr G) (g_lv G) (g_hl G).
Definition g_delete : HAbs :=
  mkHAbs (delete c (<[p := pn']> (g_ns G))) (g_un G) (g_root G) (g_ctr G)
    (g_ev G - Z.of_nat (key_len (hs_key cn))) (g_pr G) (g_lv G) (g_hl G).

Lemma gremove_ids : p <> c /\ c <> g_root G /\ hs_lock cn = 0 /\ hs_ch cn = ∅ /\ hs_ch pn !! ck = Some c.
Proof. destruct Hdl as [D1 D2 D3 D4 D5 D6 D7 D8 D9 D10]. pose proof (delete_ne Hdl). done. Qed.

Lemma gunlink_lns : lns g_unlink = delete c (<[p := pn']> (lns G)).
Proof.
  destruct gremove_ids as (Hpc & _). apply lns_lookup in Hpn as [Hpu Hpg]. apply map_eq. intros j.
  apply option_eq. intros m. rewrite lns_lookup, lookup_delete_Some, lookup_insert_Some, lns_lookup. simpl.
  rewrite lookup_insert_Some. set_solver.
Qed.
Lemma gdelete_lns : lns g_delete = delete c (<[p := pn']> (lns G)).
Proof.
  destruct gremove_ids as (Hpc & _). apply lns_lookup in Hpn as [Hpu Hpg]. unfold lns. simpl.
  rewrite map_filter_delete, map_filter_insert_True by done. done.
Qed.

(** Both remove the node from the full view. *)
Lemma gremove_full G' :
  lns G' = delete c (<[p := pn']> (lns G)) -> g_root G' = g_root G -> g_ctr G' = g_ctr G -> g_pr G' = g_pr G ->
  g_ev G' - ev_len c cn = g_ev G - Z.of_nat (key_len (hs_key cn)) ->
  gfull G' = delete_abs (gfull G) c (fsh cn) p (fsh pn) ck.
Proof.
  intros El Er Ec Ep Ee. destruct gremove_ids as (Hpc & _). apply gfull_char; try done; rewrite ?El.
  - apply (delete_inv_leaves Hdl), gfull_leaves.
  - by rewrite fmap_delete, fmap_insert.
  - rewrite (msum_delete _ _ c cn) by (by rewrite lookup_insert_ne).
    rewrite (msum_update _ _ p pn) by done. change (ev_len p pn') with (ev_len p pn). simpl.
    unfold sh_len. simpl. lia.
Qed.

Lemma gunlink_full : hlive cn = false -> gfull g_unlink = delete_abs (gfull G) c (fsh cn) p (fsh pn) ck.
Proof. intros Hl. apply gremove_full; try done; [apply gunlink_lns|]. unfold ev_len. rewrite Hl. simpl. lia. Qed.
Lemma gdelete_full : hlive cn = true -> gfull g_delete = delete_abs (gfull G) c (fsh cn) p (fsh pn) ck.
Proof. intros Hl. apply gremove_full; try done; [apply gdelete_lns|]. unfold ev_len. rewrite Hl. simpl. lia. Qed.

Lemma gremove_lookup G' i m :
  lns G' = delete c (<[p := pn']> (lns G)) -> lns G' !! i = Some m ->
  i <> c /\ exists m0, lns G !! i = Some m0 /\ hs_par m = hs_par m0 /\ hs_key m = hs_key m0 /\
    hs_val m = hs_val m0 /\ hs_host m = hs_host m0 /\ hs_lock m = hs_lock m0.
Proof.
  intros -> [Hic [[<- <-]|[_ Hi]]%lookup_insert_Some]%lookup_delete_Some; [|by eauto 10].
  split; [done|]. by exists pn.
Qed.

Lemma gremove_tier G' i m :
  lns G' = delete c (<[p := pn']> (lns G)) -> lns G' !! i = Some m -> i <> g_root G -> tier_ok G' m.
Proof.
  intros El Hi Hne. destruct (gremove_lookup G' i m El Hi) as (Hic & m0 & Hm0 & E1 & E2 & E3 & E4 & E5).
  pose proof (hv_tier HG _ _ Hm0 Hne) as [T1 T2 T3 T4 T5 T6].
  assert (hlive m = hlive m0 /\ hbacked m = hbacked m0) as [F1 F2] by (unfold hlive, hbacked; by rewrite E3, E4).
  constructor; rewrite ?E1, ?E2, ?E3, ?E4, ?E5, ?F1, ?F2; try done.
  - intros Hl q qn Hq Hqn. destruct (gremove_lookup G' q qn El Hqn) as (_ & q0 & Hq0 & _ & _ & G3 & _).
    unfold hlive at 1. rewrite G3. exact (T5 Hl q q0 Hq Hq0).
  - intros Hl q qn Hq Hqn. destruct (gremove_lookup G' q qn El Hqn) as (_ & q0 & Hq0 & _ & _ & _ & G4 & _).
    unfold hbacked at 1. rewrite G4. exact (T6 Hl q q0 Hq Hq0).
Qed.

Lemma gremove_root G' :
  lns G' = delete c (<[p := pn']> (lns G)) ->
  exists r, lns G' !! g_root G = Some r /\ hs_val r = Some [] /\ hs_host r = Some [].
Proof.
  intros ->. destruct gremove_ids as (Hpc & Hcr & _). destruct (hv_root HG) as (r & Hr & R1 & R2).
  rewrite lookup_delete_ne by done. destruct (decide (g_root G = p)) as [E|E].
  - rewrite E in *. rewrite lookup_insert_eq. exists pn'. assert (r = pn) as -> by congruence. done.
  - rewrite lookup_insert_ne by done. eauto.
Qed.

(** A node's children lose [c] only if the node is [p]. *)
Lemma gremove_child j m ck' x : lns G !! j = Some m -> hs_ch m !! ck' = Some x -> j <> p -> x <> c.
Proof.
  intros Hj Hx Hjp ->. destruct (hok_child HG j m ck' c Hj Hx) as (cn' & E & _ & Hp' & _).
  destruct Hdl as [_ _ _ _ _ Hp _ _ _ _]. simpl in Hp. congruence.
Qed.

Lemma gunlink_hok hl :
  hlive cn = false -> exact (hleaf_at (g_un g_unlink) (g_ns g_unlink)) hl (Y ∪ {[p]}) ->
  hok2 ps eagle Y (Y ∪ {[p]}) (mkHAbs (g_ns g_unlink) (g_un g_unlink) (g_root G) (g_ctr G) (g_ev G) (g_pr G) (g_lv G) hl).
Proof.
  intros Hl Hhl. destruct gremove_ids as (Hpc & Hcr & Hlk & Hch & Hin).
  pose proof Hpn as [Hpu Hpg]%lns_lookup. pose proof Hcn as [Hcu Hcg]%lns_lookup.
  assert (forall j, live_at (g_ns g_unlink) j = live_at (g_ns G) j) as Hla.
  { intros j. unfold live_at. simpl. destruct (decide (j = p)) as [->|]; [by rewrite lookup_insert_eq, Hpg|].
    by rewrite lookup_insert_ne. }
  assert (exact (leaf_at (g_ns g_unlink)) (g_lv G) Y) as Hlv.
  { eapply (exact_change _ _ _ Y); [apply (hv_lv HG)|]. intros j Hj. split; [done|]. unfold leaf_at. simpl.
    destruct (decide (j = p)) as [->|Hjp].
    - rewrite lookup_insert_eq, Hpg. unfold g_leaf. simpl. change (hlive pn') with (hlive pn). f_equal. f_equal.
      apply bool_eq_iff. rewrite !existsb_child. simpl. change (<[p:=pn']> (g_ns G)) with (g_ns g_unlink).
      setoid_rewrite Hla. split.
      + intros (ck' & x & [_ Hx]%lookup_delete_Some & Ht). eauto.
      + intros (ck' & x & Hx & Ht). exists ck', x. split; [|done]. rewrite lookup_delete_ne; [done|].
        intros <-. assert (x = c) as -> by congruence. by rewrite (live_at_lookup _ _ _ Hcg), Hl in Ht.
    - rewrite lookup_insert_ne by done. destruct (g_ns G !! j) as [m|]; [|done].
      by apply g_leaf_ext. }
  constructor; [|exact Hlv|exact Hhl]. constructor; simpl.
  - pose proof (delete_inv_tree Hdl) as HT. rewrite <-gunlink_full in HT by done. exact HT.
  - apply (gremove_root g_unlink), gunlink_lns.
  - intros i m Hi Hne. eapply (tier_ok_ext g_unlink); [done|]. eapply gremove_tier; [apply gunlink_lns|done|done].
  - eapply exact_weaken; [exact Hlv|set_solver].
  - eapply exact_weaken; [exact Hhl|set_solver].
  - intros i [Hi|Hi]%elem_of_union.
    + destruct (hv_un HG i Hi) as (m & Hm & R). exists m. rewrite lookup_insert_ne by congruence. done.
    + apply elem_of_singleton in Hi as ->. exists cn. rewrite lookup_insert_ne by done.
      split_and!; [done|done|]. apply (it_fresh (hv_tree HG) c (fsh cn)), gfull_lookup_1. done.
Qed.

Lemma gunlink_hleaf :
  exact (hleaf_at (g_un g_unlink) (g_ns g_unlink)) (g_hl G ∖ {[c]}) (Y ∪ {[p]}).
Proof.
  destruct gremove_ids as (Hpc & Hcr & Hlk & Hch & Hin). pose proof Hpn as [Hpu Hpg]%lns_lookup.
  intros j Hj. unfold hleaf_at. simpl. destruct (decide (j = c)) as [->|Hjc].
  - rewrite bool_decide_eq_false_2 by set_solver. simpl. set_solver.
  - rewrite lookup_insert_ne by set_solver. rewrite elem_of_difference, (hv_hl HG j) by set_solver.
    unfold hleaf_at. replace (bool_decide (j ∉ g_un G ∪ {[c]})) with (bool_decide (j ∉ g_un G))
      by (apply bool_decide_ext; set_solver).
    case_bool_decide as Hu; simpl; [|naive_solver]. destruct (g_ns G !! j) as [m|] eqn:Hm; [|naive_solver].
    assert (g_hleaf (<[p:=pn']> (g_ns G)) m = g_hleaf (g_ns G) m) as ->; [|set_solver].
    apply g_hleaf_ext; try done. intros ck' x Hx. unfold backed_at.
    destruct (decide (x = p)) as [->|]; [by rewrite lookup_insert_eq, Hpg|by rewrite lookup_insert_ne].
Qed.

Lemma gdelete_hok :
  hlive cn = true ->
  hok2 ps eagle (Y ∪ {[p]}) Y
    (mkHAbs (g_ns g_delete) (g_un G) (g_root G) (g_ctr G) (g_ev g_delete) (g_pr G) (g_lv G ∖ {[c]}) (g_hl G)).
Proof.
  intros Hl. destruct gremove_ids as (Hpc & Hcr & Hlk & Hch & Hin).
  pose proof Hpn as [Hpu Hpg]%lns_lookup. pose proof Hcn as [Hcu Hcg]%lns_lookup.
  assert (hlive pn = true) as Hpl.
  { apply (to_live (hv_tier HG _ _ Hcn Hcr) Hl p pn); [|done]. by destruct Hdl. }
  assert (forall f j, j <> c -> (forall ch n, f (with_ch ch n) = f n) ->
    match g_ns g_delete !! j with Some n => f n | None => false end
    = match g_ns G !! j with Some n => f n | None => false end) as Hat.
  { intros f j Hjc Hf. simpl. rewrite lookup_delete_ne by done.
    destruct (decide (j = p)) as [->|]; [by rewrite lookup_insert_eq, Hf, Hpg|by rewrite lookup_insert_ne]. }
  assert (exact (leaf_at (g_ns g_delete)) (g_lv G ∖ {[c]}) (Y ∪ {[p]})) as Hlv.
  { intros j Hj. unfold leaf_at at 1. destruct (decide (j = c)) as [->|Hjc].
    { simpl. rewrite lookup_delete_eq. set_solver. }
    simpl. rewrite lookup_delete_ne, lookup_insert_ne by set_solver.
    rewrite elem_of_difference, (hv_lv HG j) by set_solver. unfold leaf_at.
    destruct (g_ns G !! j) as [m|] eqn:Hm; [|naive_solver].
    destruct (decide (j ∈ g_un G)) as [Hu|Hu].
    { destruct (hv_un HG j Hu) as (m' & E & Hm' & _). assert (m' = m) as -> by congruence.
      unfold g_leaf. rewrite Hm'. simpl. naive_solver. }
    rewrite (g_leaf_ext (g_ns G) (delete c (<[p:=pn']> (g_ns G))) m m); try done; [set_solver|].
    intros ck' x Hx. apply (Hat hlive); [|done]. eapply gremove_child; [by apply lns_lookup|done|set_solver]. }
  assert (exact (hleaf_at (g_un G) (g_ns g_delete)) (g_hl G) Y) as Hhl.
  { eapply (exact_change _ _ _ Y); [apply (hv_hl HG)|]. intros j Hj. split; [done|].
    unfold hleaf_at. case_bool_decide as Hu; [|done]. cbn [andb]. simpl g_ns.
    destruct (decide (j = c)) as [->|Hjc].
    { rewrite lookup_delete_eq, Hcg. unfold g_hleaf. by rewrite Hl. }
    rewrite lookup_delete_ne by done. destruct (decide (j = p)) as [->|Hjp].
    { rewrite lookup_insert_eq, Hpg. unfold g_hleaf. change (hlive pn') with (hlive pn). by rewrite Hpl. }
    rewrite lookup_insert_ne by done. destruct (g_ns G !! j) as [m|] eqn:Hm; [|done].
    apply g_hleaf_ext; try done. intros ck' x Hx. apply (Hat hbacked); [|done].
    eapply gremove_child; [by apply lns_lookup|done|done]. }
  constructor; [|exact Hlv|exact Hhl]. constructor; simpl.
  - pose proof (delete_inv_tree Hdl) as HT. rewrite <-gdelete_full in HT by done. exact HT.
  - apply (gremove_root g_delete), gdelete_lns.
  - intros i m Hi Hne. eapply (tier_ok_ext g_delete); [done|]. eapply gremove_tier; [apply gdelete_lns|done|done].
  - eapply exact_weaken; [exact Hlv|set_solver].
  - eapply exact_weaken; [exact Hhl|set_solver].
  - intros i Hi. destruct (hv_un HG i Hi) as (m & Hm & R). exists m.
    rewrite lookup_delete_ne, lookup_insert_ne by congruence. done.
Qed.
End remove.
