(* ===== verification/HiProofs.v ===== *)
(** * Running HiRadixCache on states that satisfy its invariant

    Each method of HiRadix, seen through [habs]: it returns normally, makes the primitive
    changes of HiPrims, and keeps the invariant.  This file has the accesses, the splits
    and matching. *)

From stdpp Require Import base tactics list gmap strings.
From Stdlib Require Import ZArith Lia.
From S2P Require Import Prelude PyStr RadixKey TreeNode EvictPolicy Allocator AllocatorProofs KVEvents.
From S2P Require Import RadixTree RadixInv RadixPaths RadixSlots RadixWalk RadixProofs RadixLocks ReqPool.
From S2P Require Import HiController HiRadix HiInv HiPrims.

Section access.
Context {T B Page : Type}.
Local Abbreviation Hi := (HiCache T B Page).
Implicit Types s : Hi.

Definition habs (s : Hi) : HAbs :=
  mkHAbs (hshape <$> nodes (tree s)) (unlinked s) (root_node (tree s)) (counter (tree s))
    (evictable_size_ (tree s)) (protected_size_ (tree s)) (evictable_leaves (tree s))
    (evictable_host_leaves s).

(** The rest of the state: pools, transfers and the storage side. *)
Definition hrest (s : Hi) :=
  (kv_pool (tree s), req_to_token (tree s), (host s, ongoing_write_through s, ongoing_load_back s, xfer s),
   (pol s, ongoing_prefetch s, ongoing_backup s, prefetch_loaded_tokens_by_reqid s, sto s)).

(** ** Accesses *)

Lemma hs_tree_id s : hs_tree (tree s) s = s.
Proof. by destruct s. Qed.

Lemma hbind_ret {A C} (a : A) (f : A -> PyM Hi C) s : (mret a ≫= f) s = f a s.
Proof. done. Qed.
Lemma hbind_get {C} (f : Hi -> PyM Hi C) s : (py_get ≫= f) s = f s s.
Proof. done. Qed.
Lemma hbind_modify {C} g (f : unit -> PyM Hi C) s : (py_modify g ≫= f) s = f tt (g s).
Proof. done. Qed.
Lemma hbind_some {A C} e (a : A) (f : A -> PyM Hi C) s : (some_or e (Some a) ≫= f) s = f a s.
Proof. done. Qed.
Lemma hbind_lift {A C} (a : A) (f : A -> PyM Hi C) s : (py_lift (Ret a) ≫= f) s = f a s.
Proof. done. Qed.
Lemma hbind_assoc {A C D} (m : PyM Hi A) (f : A -> PyM Hi C) (g : C -> PyM Hi D) s :
  ((m ≫= f) ≫= g) s = (m ≫= fun a => f a ≫= g) s.
Proof. unfold mbind, PyM_bind. by destruct (m s) as [[]]. Qed.

Lemma on_tree_ok {A} (m : PyM (Cache T) A) s r t : m (tree s) = (r, t) -> on_tree m s = (r, hs_tree t s).
Proof. intros E. unfold on_tree. by rewrite E. Qed.

Lemma node_at_ok s i n : nodes (tree s) !! i = Some n -> node_at i s = (Ret n, s).
Proof.
  intros Hn. unfold node_at. rewrite (on_tree_ok _ _ _ _ (get_node_ok (tree s) i n Hn)). by rewrite hs_tree_id.
Qed.

(** The state with another node store. *)
Definition hnodes (ns : gmap nat TreeNode) (s : Hi) : Hi := hs_tree (set_nodes ns (tree s)) s.

Lemma update_at_ok s i f n :
  nodes (tree s) !! i = Some n -> update_at i f s = (Ret tt, hnodes (<[i := f n]> (nodes (tree s))) s).
Proof.
  intros Hn. unfold update_at. apply on_tree_ok. rewrite (upd_node_ok _ _ _ _ Hn). done.
Qed.

Lemma put_at_ok s i n : on_tree (put_node i n) s = (Ret tt, hnodes (<[i := n]> (nodes (tree s))) s).
Proof. by apply on_tree_ok. Qed.

Lemma habs_lookup s i n : g_ns (habs s) !! i = Some n <-> exists m, nodes (tree s) !! i = Some m /\ hshape m = n.
Proof. simpl. rewrite lookup_fmap_Some. naive_solver. Qed.

Lemma habs_linked s i n :
  lns (habs s) !! i = Some n -> exists m, nodes (tree s) !! i = Some m /\ hshape m = n /\ (i ∉ unlinked s).
Proof. intros [Hu (m & Hm & <-)%habs_lookup]%lns_lookup. by exists m. Qed.

Lemma habs_linked_1 s i m : nodes (tree s) !! i = Some m -> i ∉ unlinked s -> lns (habs s) !! i = Some (hshape m).
Proof. intros Hm Hu. apply lns_lookup. split; [done|]. apply habs_lookup. eauto. Qed.

(** An update that does not show in the shape. *)
Lemma update_quiet s i f n :
  nodes (tree s) !! i = Some n -> (forall n, hshape (f n) = hshape n) ->
  exists s', update_at i f s = (Ret tt, s') /\ habs s' = habs s /\ hrest s' = hrest s /\
    nodes (tree s') = <[i := f n]> (nodes (tree s)).
Proof.
  intros Hn Hf. eexists. split; [by apply update_at_ok|]. split_and!; [|done|done].
  unfold habs. simpl. rewrite fmap_insert, Hf, insert_id; [done|]. by rewrite lookup_fmap, Hn.
Qed.

Lemma fresh_ok s : exists s', on_tree fresh_id s = (Ret (counter (tree s)), s') /\
  habs s' = mkHAbs (g_ns (habs s)) (g_un (habs s)) (g_root (habs s)) (S (g_ctr (habs s))) (g_ev (habs s))
              (g_pr (habs s)) (g_lv (habs s)) (g_hl (habs s)) /\
  hrest s' = hrest s /\ nodes (tree s') = nodes (tree s).
Proof. eexists. split; [by apply on_tree_ok|]. done. Qed.

(** ** Leaf statuses *)

Lemma existsb_map {A C} (f : C -> bool) (g : A -> C) l : existsb f (g <$> l) = existsb (fun x => f (g x)) l.
Proof. induction l; simpl; [done|]. by f_equal. Qed.

Lemma live_children s n : has_live_child (nodes (tree s)) n = existsb (live_at (g_ns (habs s))) (child_ids (hshape n)).
Proof.
  unfold has_live_child, child_ids. apply existsb_ext_in. intros c _. unfold live_at. simpl.
  rewrite lookup_fmap. destruct (nodes (tree s) !! c) as [m|]; [|done]. unfold evicted, hlive. simpl. by destruct (value m).
Qed.

Lemma backed_children s n :
  has_backuped_child (nodes (tree s)) n = existsb (backed_at (g_ns (habs s))) (child_ids (hshape n)).
Proof.
  unfold has_backuped_child, child_ids. apply existsb_ext_in. intros c _. unfold backed_at. simpl.
  rewrite lookup_fmap. by destruct (nodes (tree s) !! c) as [m|].
Qed.

Lemma evicted_live n : evicted n = negb (hlive (hshape n)).
Proof. unfold evicted, hlive. simpl. by destruct (value n). Qed.

Lemma leaf_status_ok s i n :
  nodes (tree s) !! i = Some n ->
  exists s', on_tree (_update_leaf_status i) s = (Ret tt, s') /\ habs s' = g_relv (habs s) i /\ hrest s' = hrest s /\
    nodes (tree s') = nodes (tree s).
Proof.
  intros Hn. unfold _update_leaf_status.
  assert (leaf_at (g_ns (habs s)) i
          = negb (evicted n || (0 <? lock_ref n) || has_live_child (nodes (tree s)) n)) as E.
  { unfold leaf_at. simpl. rewrite lookup_fmap, Hn. simpl. unfold g_leaf. by rewrite live_children, evicted_live. }
  destruct (evicted n || (0 <? lock_ref n) || has_live_child (nodes (tree s)) n) eqn:Ec.
  - eexists. split; [apply on_tree_ok; rewrite (py_bind_Ret _ _ _ _ _ (get_node_ok _ _ _ Hn)), bind_get, Ec; done|].
    split_and!; [|done|done]. unfold g_relv. rewrite E. done.
  - eexists. split; [apply on_tree_ok; rewrite (py_bind_Ret _ _ _ _ _ (get_node_ok _ _ _ Hn)), bind_get, Ec; done|].
    split_and!; [|done|done]. unfold g_relv. rewrite E. done.
Qed.

Lemma host_status_ok s i n :
  nodes (tree s) !! i = Some n -> i ∉ unlinked s ->
  exists s', _update_host_leaf_status i s = (Ret tt, s') /\ habs s' = g_rehl (habs s) i /\ hrest s' = hrest s /\
    nodes (tree s') = nodes (tree s).
Proof.
  intros Hn Hu. unfold _update_host_leaf_status. py_step (node_at_ok s i n Hn). rewrite hbind_get.
  assert (hleaf_at (g_un (habs s)) (g_ns (habs s)) i
          = negb (negb (evicted n) || (0 <? lock_ref n) || has_backuped_child (nodes (tree s)) n)) as E.
  { unfold hleaf_at. simpl. rewrite bool_decide_eq_true_2 by done. rewrite lookup_fmap, Hn. simpl.
    unfold g_hleaf. by rewrite backed_children, evicted_live, negb_involutive. }
  destruct (negb (evicted n) || (0 <? lock_ref n) || has_backuped_child (nodes (tree s)) n); eexists;
    (split; [done|]; split_and!; [|done|done]; unfold g_rehl; by rewrite E).
Qed.

End access.

(** Run a node assignment at the head of a sequence. *)
Ltac run_put := match goal with |- context [(on_tree (put_node ?i ?n) ≫= ?f) ?s] =>
  rewrite (py_bind_Ret (on_tree (put_node i n)) f s tt _ (put_at_ok s i n)) end.
Tactic Notation "run_update" uconstr(n) "by" tactic3(tac) :=
  match goal with |- context [(update_at ?i ?g ≫= ?f) ?s] =>
    let Hn := fresh in assert (nodes (tree s) !! i = Some n) as Hn by tac;
    rewrite (py_bind_Ret (update_at i g) f s tt _ (update_at_ok s i g n Hn)); clear Hn end.

Section hiproofs.
Context {T B Page : Type}.
Context (cfg : Config) (now : nat -> Z).
Local Abbreviation Hi := (HiCache T B Page).
Local Abbreviation ps := (cfg_page_size cfg).
Local Abbreviation eagle := (is_eagle cfg).
Implicit Types s : Hi.

Lemma clock_ok s : exists t s', on_tree (monotonic now) s = (Ret t, s') /\ habs s' = habs s /\ hrest s' = hrest s /\
  nodes (tree s') = nodes (tree s).
Proof. do 2 eexists. split; [by apply on_tree_ok|]. done. Qed.

(** ** Splitting *)

Context (Hps : (0 < ps)%nat).

Lemma split_ok s p pn c cn ck rest k :
  lns (habs s) !! p = Some pn -> lns (habs s) !! c = Some cn ->
  hok ps eagle ∅ (habs s) ->
  split_pre ps eagle (gfull (habs s)) p (fsh pn) c (fsh cn) ck rest k (tier_val cn) ->
  exists s', hi_split_node cfg now c k s = (Ret (counter (tree s)), s') /\
    habs s' = g_split (habs s) p pn c cn ck rest k /\ hrest s' = hrest s.
Proof.
  intros Hp Hc Ho Hsp. destruct (gsplit_ids Ho Hsp) as (H1 & H2 & H3 & _). simpl in H2, H3.
  destruct Hsp as [_ _ _ Sp _ Sck Sin _ _ _ _ Srest _].
  apply habs_linked in Hp as (pm & Hpm & <- & Hpu). apply habs_linked in Hc as (cm & Hcm & <- & Hcu).
  simpl in Sp, Sck, Srest. unfold hi_split_node. py_step (node_at_ok s c cm Hcm).
  destruct (clock_ok s) as (ta & s1 & E1 & A1 & R1 & N1). py_step E1.
  destruct (clock_ok s1) as (tc & s2 & E2 & A2 & R2 & N2). py_step E2.
  destruct (fresh_ok s2) as (s3 & E3 & A3 & R3 & N3). py_step E3.
  assert (counter (tree s2) = counter (tree s)) as Ectr.
  { change (g_ctr (habs s2) = g_ctr (habs s)). by rewrite A2, A1. }
  rewrite Ectr, Srest, Sp, Sck, hbind_lift, hbind_some, hbind_lift.
  run_put. run_put.
  run_update pm by (simpl; rewrite !lookup_insert_ne by done; by rewrite N3, N2, N1).
  eexists. split; [reflexivity|]. split.
  - unfold habs at 1. simpl. rewrite !fmap_insert.
    change (hshape <$> nodes (tree s3)) with (g_ns (habs s3)).
    change (unlinked s3) with (g_un (habs s3)). change (root_node (tree s3)) with (g_root (habs s3)).
    change (counter (tree s3)) with (g_ctr (habs s3)). change (evictable_size_ (tree s3)) with (g_ev (habs s3)).
    change (protected_size_ (tree s3)) with (g_pr (habs s3)). change (evictable_leaves (tree s3)) with (g_lv (habs s3)).
    change (evictable_host_leaves s3) with (g_hl (habs s3)). rewrite A3, A2, A1. done.
  - change (hrest s3 = hrest s). congruence.
Qed.

(** ** Matching *)

(** A path down through evicted nodes, with its length. *)
Inductive hostpath (G : HAbs) : nat -> nat -> nat -> Prop :=
  | hp_nil i : hostpath G i 0 i
  | hp_snoc i l j c cn : hostpath G i l j -> lns G !! c = Some cn -> hs_par cn = Some j -> hlive cn = false ->
      hostpath G i (l + key_len (hs_key cn)) c.

Lemma hostpath_app G i l j l' c : hostpath G i l j -> hostpath G j l' c -> hostpath G i (l + l') c.
Proof.
  intros H1. induction 1 as [|j l' b c cn H2 IH Hc Hp Hl]; [by rewrite Nat.add_0_r|].
  rewrite Nat.add_assoc. by eapply hp_snoc; [apply IH|..].
Qed.

(** Everything but the children. *)
Definition kept (n n' : HShape) : Prop :=
  hs_par n' = hs_par n /\ hs_key n' = hs_key n /\ hs_val n' = hs_val n /\ hs_host n' = hs_host n /\ hs_lock n' = hs_lock n.

Lemma kept_refl n : kept n n.
Proof. done. Qed.
Lemma kept_trans n n1 n2 : kept n n1 -> kept n1 n2 -> kept n n2.
Proof. unfold kept. naive_solver congruence. Qed.
Lemma kept_live n n' : kept n n' -> hlive n' = hlive n.
Proof. intros (_ & _ & E & _). unfold hlive. by rewrite E. Qed.

(** The nodes of rank up to [r] are kept. *)
Definition kept_upto (d : nat -> nat) (r : nat) (G G' : HAbs) : Prop :=
  forall i n, lns G !! i = Some n -> (d i <= r)%nat -> exists n', lns G' !! i = Some n' /\ kept n n'.

(** The device part [vals] of a descent from [node] to [j] over [m] units, and its host part. *)
Definition two_tiers (G G' : HAbs) (node : nat) (k : RadixKey) (vals : list (list Z)) (m j : nat) : Prop :=
  match lns G !! node with
  | None => False
  | Some n =>
      if hlive n then
        exists jd jn l, hostpath G' jd l j /\ lns G' !! jd = Some jn /\ hlive jn = true /\ (l <= m)%nat /\
          path (gfull G') (extra_key k) node (take (m - l) (units k)) (concat vals) jd
      else vals = [] /\ hostpath G' node m j
  end.

Lemma path_self G ek i n : lns G !! i = Some n -> path (gfull G) ek i [] [] i.
Proof. intros Hi. eapply path_nil. by apply gfull_lookup_1. Qed.

Lemma two_tiers_stop G node n k : lns G !! node = Some n -> two_tiers G G node k [] 0 node.
Proof.
  intros Hn. unfold two_tiers. rewrite Hn. destruct (hlive n) eqn:E; [|split; [done|constructor]].
  exists node, n, 0%nat. split_and!; [constructor|done|done|lia|]. rewrite take_0. simpl. by eapply path_self.
Qed.

(** The children of a linked node, in the terms of the code. *)
Lemma found_linked s node n ck c :
  hok ps eagle ∅ (habs s) -> nodes (tree s) !! node = Some n -> node ∉ unlinked s -> children n !! ck = Some c ->
  exists cm, nodes (tree s) !! c = Some cm /\ (c ∉ unlinked s) /\ parent cm = Some node /\
    child_key ps (key cm) = Ret ck /\ c <> root_node (tree s).
Proof.
  intros Ho Hn Hu Hc. destruct (hok_child Ho node (hshape n) ck c (habs_linked_1 _ _ _ Hn Hu) Hc)
    as (cn & (cm & Hcm & <- & Hcu)%habs_linked & Hr & Hp & Hk). eauto 10.
Qed.

(** Touching a linked node on the way down. *)
Lemma touch_child s c cm :
  nodes (tree s) !! c = Some cm ->
  exists t s', (t0 ← on_tree (monotonic now); update_at c (set_last_access t0)) s = (Ret tt, s') /\
    habs s' = habs s /\ hrest s' = hrest s /\ nodes (tree s') = <[c := set_last_access t cm]> (nodes (tree s)).
Proof.
  intros Hcm. destruct (clock_ok s) as (t & s1 & E1 & A1 & R1 & N1).
  destruct (update_quiet s1 c (set_last_access t) cm) as (s2 & E2 & A2 & R2 & N2); [by rewrite N1|done|].
  exists t, s2. py_step E1. split_and!; [done|congruence|congruence|by rewrite N2, N1].
Qed.

(** The split where a descent ends inside [c]. *)
Lemma split_step hs s node n c cn k ck L :
  hinv ps eagle hs (habs s) -> lns (habs s) !! node = Some n -> lns (habs s) !! c = Some cn ->
  hs_ch n !! ck = Some c -> (ps <= key_len k)%nat -> is_bigram k = eagle ->
  child_key ps k = Ret ck -> L = plen ps (fsh cn) k -> (L < key_len (hs_key cn))%nat ->
  exists rest s', hi_split_node cfg now c L s = (Ret (counter (tree s)), s') /\
    habs s' = g_split (habs s) node n c cn ck rest L /\ hrest s' = hrest s /\ hinv ps eagle hs (habs s') /\
    walked ps eagle hs (gfull (habs s)) (gfull (habs s')) node k L (take L (tier_val cn)) (counter (tree s)) /\
    lns (habs s') !! counter (tree s) = Some (g_upper rest c node L cn) /\
    split_pre ps eagle (gfull (habs s)) node (fsh n) c (fsh cn) ck rest L (tier_val cn).
Proof.
  intros [HI Ho] Hn Hc Hch Hk Hb Hck -> Hlt.
  destruct (walked_partial ps eagle Hps hs (gfull (habs s)) HI node c (fsh n) (fsh cn) k ck (tier_val cn)
    Hk Hb (gfull_lookup_1 _ _ _ Hn) Hck Hch (gfull_lookup_1 _ _ _ Hc) eq_refl Hlt) as (rest & Hsp & Hw).
  destruct (split_ok s node n c cn ck rest _ Hn Hc Ho Hsp) as (s' & E & A & R).
  exists rest, s'. rewrite A. split_and!; [done|done|done|by apply gsplit_hinv| | |done].
  - rewrite (gsplit_full Ho Hn Hc Hsp). exact Hw.
  - apply (gsplit_lookup Ho Hn Hc Hsp). right. right. left. done.
Qed.

Lemma split_kept s node n c cn ck rest L d :
  hok ps eagle ∅ (habs s) -> lns (habs s) !! node = Some n -> lns (habs s) !! c = Some cn ->
  split_pre ps eagle (gfull (habs s)) node (fsh n) c (fsh cn) ck rest L (tier_val cn) -> (d node < d c)%nat ->
  kept_upto d (d node) (habs s) (g_split (habs s) node n c cn ck rest L).
Proof.
  intros Ho Hn Hc Hsp Hd i ni Hi Hr. destruct (gsplit_ids Ho Hsp) as (_ & _ & _ & Hfr & _).
  destruct (decide (i = node)) as [->|Hne].
  - eexists. split; [apply (gsplit_lookup Ho Hn Hc Hsp); by left|]. assert (ni = n) as -> by congruence. done.
  - exists ni. split; [|done]. apply (gsplit_lookup Ho Hn Hc Hsp). right. right. right.
    split_and!; [done| |congruence|done]. intros ->. lia.
Qed.

(** A step of the descent onto a child matched in full. *)
Lemma two_tiers_step G G1 node n c cn k vals m j L d ck :
  hok ps eagle ∅ G -> ranked (gfull G) d -> lns G !! node = Some n -> lns G !! c = Some cn -> hs_ch n !! ck = Some c ->
  L = key_len (hs_key cn) -> take L (units k) = units (hs_key cn) -> extra_key (hs_key cn) = extra_key k ->
  kept_upto d (d c) G G1 -> extends (gfull G) (gfull G1) ->
  (m <= key_len (key_drop L k))%nat ->
  two_tiers G G1 c (key_drop L k) vals m j ->
  two_tiers G G1 node k (match hs_val cn with Some v => v :: vals | None => vals end) (L + m) j.
Proof.
  intros Ho Hd Hn Hc Hch HL Hu He HK HE Hm. unfold two_tiers. rewrite Hn, Hc.
  destruct (hok_child Ho node n ck c Hn Hch) as (cn' & E & Hcr & Hcp & Hck). assert (cn' = cn) as -> by congruence.
  destruct (HK c cn Hc) as (cn1 & Hc1 & K1); [lia|].
  assert (d node < d c)%nat as Hdn by (destruct (Hd c (fsh cn) (gfull_lookup_1 _ _ _ Hc)) as [_ Hd']; by apply Hd').
  destruct (HK node n Hn) as (n1 & Hn1 & K2); [lia|].
  assert (hlive cn = false -> hostpath G1 node L c) as Hone.
  { intros Hl. destruct K1 as (F1 & F2 & F3 & _).
    assert (hostpath G1 node (0 + key_len (hs_key cn1)) c) as HP.
    { eapply hp_snoc; [constructor|done|congruence|]. unfold hlive in *. by rewrite F3. }
    rewrite HL. by rewrite F2 in HP. }
  destruct (hlive cn) eqn:Elc.
  - destruct (hs_val cn) as [v|] eqn:Ev; [|unfold hlive in Elc; by rewrite Ev in Elc].
    rewrite (to_live (hv_tier Ho _ _ Hc Hcr) Elc node n Hcp Hn).
    intros (jd & jn & l & P1 & P2 & P3 & P4 & P5). exists jd, jn, l. split_and!; [done|done|done|lia|].
    autorewrite with keydb in P5. simpl concat.
    replace (L + m - l)%nat with (L + (m - l))%nat by lia. rewrite <-take_take_drop, Hu.
    eapply path_app; [|exact P5]. rewrite <-He. apply (ex_path _ _ HE).
    eapply (path_one _ _ _ (fsh n) ck c (fsh cn)); [by apply gfull_lookup_1|done|by apply gfull_lookup_1|done|].
    simpl. unfold tier_val. by rewrite Ev.
  - assert (hs_val cn = None) as -> by (unfold hlive in Elc; by destruct (hs_val cn)).
    intros [-> HP]. pose proof (hostpath_app _ _ _ _ _ _ (Hone eq_refl) HP) as HQ.
    destruct (hlive n) eqn:En; [|done]. exists node, n1, (L + m)%nat.
    split_and!; [done|done|by rewrite (kept_live _ _ K2)|done|]. rewrite Nat.sub_diag, take_0. simpl.
    by eapply path_self.
Qed.

(** One node after the other split in two. *)
Inductive splits : HAbs -> HAbs -> Prop :=
  | splits_refl G : splits G G
  | splits_step G p pn c cn ck rest k G' :
      hok ps eagle ∅ G -> lns G !! p = Some pn -> lns G !! c = Some cn ->
      split_pre ps eagle (gfull G) p (fsh pn) c (fsh cn) ck rest k (tier_val cn) ->
      splits (g_split G p pn c cn ck rest k) G' -> splits G G'.

Lemma append_live_ok acc n : append_live acc n = acc ++ match hs_val (hshape n) with Some v => [v] | None => [] end.
Proof. unfold append_live. simpl. destruct (value n); [done|]. by rewrite app_nil_r. Qed.

Lemma hi_match_loop_ok hs d fuel : forall s node n k ck acc,
  hinv ps eagle hs (habs s) -> ranked (gfull (habs s)) d -> lns (habs s) !! node = Some n -> is_bigram k = eagle ->
  aligned ps (key_len k) -> (key_len k < fuel)%nat -> ((0 < key_len k)%nat -> child_key ps k = Ret ck) ->
  exists vals j s' m vs,
    hi_match_loop cfg now fuel node k ck acc s = (Ret (acc ++ vals, j), s') /\ hrest s' = hrest s /\
    hinv ps eagle hs (habs s') /\ kept_upto d (d node) (habs s) (habs s') /\
    walked ps eagle hs (gfull (habs s)) (gfull (habs s')) node k m vs j /\
    two_tiers (habs s) (habs s') node k vals m j /\ splits (habs s) (habs s').
Proof.
  induction fuel as [|fuel IH]; intros s node n k ck acc HG Hd Hn Hb Hal Hf Hck; [lia|].
  cbn [hi_match_loop]. destruct (Nat.ltb_spec 0 (key_len k)) as [Hpos|Hz].
  2: { exists [], node, s, 0%nat, []. rewrite app_nil_r. split_and!; try done.
       - intros i ni Hi _. by exists ni.
       - eapply walked_empty; [done|apply HG|by apply gfull_lookup_1|lia].
       - by eapply two_tiers_stop.
       - constructor. }
  specialize (Hck Hpos). assert (ps <= key_len k)%nat as Hpk by (by apply aligned_pos_le).
  pose proof HG as [HI Ho]. pose proof Hn as (nm & Hnm & <- & Hnu)%habs_linked. py_step (node_at_ok s node nm Hnm).
  destruct (children nm !! ck) as [c|] eqn:Hch.
  2: { exists [], node, s, 0%nat, []. rewrite app_nil_r. split_and!; try done.
       - intros i ni Hi _. by exists ni.
       - eapply walked_stop; [done|done|done|done|by apply gfull_lookup_1|done|done].
       - by eapply two_tiers_stop.
       - constructor. }
  destruct (found_linked s node nm ck c Ho Hnm Hnu Hch) as (cm & Hcm & Hcu & Hcp & Hckc & Hcr).
  destruct (touch_child s c cm Hcm) as (t & s1 & E1 & A1 & R1 & N1).
  rewrite <-hbind_assoc. py_step E1.
  assert (nodes (tree s1) !! c = Some (set_last_access t cm)) as Hcm1 by (rewrite N1; apply lookup_insert_eq).
  py_step (node_at_ok s1 c _ Hcm1). pose proof (habs_linked_1 s c cm Hcm Hcu) as Hc.
  pose proof (gfull_lookup_1 _ _ _ Hn) as Han. pose proof (gfull_lookup_1 _ _ _ Hc) as Hac.
  pose proof (step_match ps eagle Hps _ (hv_tree Ho) node c (fsh (hshape nm)) (fsh (hshape cm)) k ck _
    Hpk Hal Hb Han Hck Hch Hac eq_refl) as Hmatch.
  pose proof (plen_bounds ps eagle Hps _ (hv_tree Ho) node c (fsh (hshape nm)) (fsh (hshape cm)) k ck _
    Hpk Hb Han Hck Hch Hac eq_refl) as (P1 & P2 & P3 & P4 & P5).
  pose proof (step_node ps eagle Hps _ (hv_tree Ho) node c (fsh (hshape nm)) (fsh (hshape cm)) k ck _
    Hpk Hb Han Hck Hch Hac eq_refl) as (Hok & He & Hlen).
  assert (d node < d c)%nat as Hdn by (destruct (Hd c _ Hac) as [_ Hd']; by apply Hd').
  simpl sh_key in *. simpl key in *. rewrite Hmatch, hbind_lift.
  set (L := plen ps (fsh (hshape cm)) k) in *. rewrite <-A1 in HG, Hn, Hc.
  destruct (Nat.ltb_spec L (key_len (key cm))) as [Hlt|Hge].
  - destruct (split_step hs s1 node (hshape nm) c (hshape cm) k ck L HG Hn Hc Hch Hpk Hb Hck eq_refl Hlt)
      as (rest & s2 & E2 & A2 & R2 & HG2 & Hw & Hid & Hsp). py_step E2.
    pose proof Hid as (im & Him & Hish & _)%habs_linked. py_step (node_at_ok s2 _ im Him).
    rewrite append_live_ok, Hish. rewrite A1 in *.
    eexists (match hs_val (g_upper rest c node L (hshape cm)) with Some v => [v] | None => [] end), _, s2, L, _.
    split_and!; [done|congruence|done|rewrite A2; by apply split_kept|exact Hw| |rewrite A2; by eapply splits_step; [..|constructor]].
    unfold two_tiers. rewrite Hn. simpl.
    pose proof (wk_path _ _ _ _ _ _ _ _ _ _ Hw) as Hpath.
    assert (hlive (hshape cm) = hlive (g_upper rest c node L (hshape cm))) as Elu
      by (unfold hlive; simpl; by destruct (value cm)).
    assert (key_len (hs_key (g_upper rest c node L (hshape cm))) = L) as Ek
      by (simpl; autorewrite with keydb; lia).
    assert (hlive (hshape cm) = false -> hostpath (habs s2) node L (counter (tree s1))) as Hhp.
    { intros El. rewrite <-Ek at 1. apply (hp_snoc _ _ 0 node); [constructor|done|done|congruence]. }
    destruct (hlive (hshape nm)) eqn:En.
    + destruct (value cm) as [v|] eqn:Ev; simpl.
      * exists (counter (tree s1)), (g_upper rest c node L (hshape cm)), 0%nat.
        split_and!; [constructor|done|rewrite <-Elu; unfold hlive; simpl; by rewrite Ev|lia|].
        rewrite Nat.sub_0_r, app_nil_r. unfold tier_val in Hpath. simpl in Hpath. rewrite Ev in Hpath. exact Hpath.
      * destruct (split_kept s node (hshape nm) c (hshape cm) ck rest L d Ho Hn Hc Hsp Hdn node _ Hn) as (n2 & Hn2 & K2); [lia|].
        rewrite <-A2 in Hn2. exists node, n2, L.
        split_and!; [apply Hhp; unfold hlive; simpl; by rewrite Ev|done|by rewrite (kept_live _ _ K2)|lia|].
        rewrite Nat.sub_diag, take_0. by eapply path_self.
    + pose proof (hok_evicted_child Ho node _ ck c (hshape cm) Hn En Hch Hc) as El.
      split; [|by apply Hhp]. unfold hlive in El. simpl in *. by destruct (value cm).
  - assert (L = key_len (key cm)) as HL by lia.
    destruct (next_child_key_ok cfg Hps (key_drop L k) ck (tree s1)) as (ck' & E2 & Hck').
    { autorewrite with keydb. by apply aligned_sub. }
    pose proof (on_tree_ok _ _ _ _ E2) as E3. rewrite hs_tree_id in E3. unfold hi_next_key. py_step E3.
    rewrite append_live_ok. change (hs_val (hshape (set_last_access t cm))) with (hs_val (hshape cm)).
    destruct (IH s1 c (hshape cm) (key_drop L k) ck' (acc ++ match hs_val (hshape cm) with Some v => [v] | None => [] end))
      as (vals & j & s2 & m & vs & E4 & R4 & HG4 & K4 & Hw & Ht & Hspl);
      [done|by rewrite A1|done|by autorewrite with keydb|autorewrite with keydb; by apply aligned_sub|
       autorewrite with keydb; lia|done|].
    rewrite A1 in *.
    exists (match hs_val (hshape cm) with Some v => v :: vals | None => vals end), j, s2, (L + m)%nat, (tier_val (hshape cm) ++ vs).
    rewrite E4. split_and!; [|congruence|done| | | |done].
    + f_equal. f_equal. f_equal. rewrite <-(assoc_L (++)). by destruct (hs_val (hshape cm)).
    + intros i ni Hi' Hr. apply K4; [done|lia].
    + eapply walked_full; try done.
    + eapply (two_tiers_step (habs s) (habs s2) node (hshape nm) c (hshape cm)); try done.
      * rewrite <-P5. apply take_ge. rewrite length_units. simpl. lia.
      * apply Hw.
      * apply Hw.
Qed.

(** ** Climbing *)

Lemma climb_evicted_ok d s i l j jn :
  hok ps eagle ∅ (habs s) -> ranked (gfull (habs s)) d -> hostpath (habs s) i l j ->
  lns (habs s) !! i = Some jn -> hlive jn = true ->
  forall fuel h, is_Some (lns (habs s) !! j) -> (d j < fuel)%nat -> climb_evicted fuel j h s = (Ret (i, h + l)%nat, s).
Proof.
  intros Ho Hd Hhp Hi Hl. induction Hhp as [|i l j c cn Hhp IH Hc Hcp Hcl]; intros fuel h Hs Hf.
  - destruct fuel as [|fuel]; [lia|]. cbn [climb_evicted]. apply habs_linked in Hi as (m & Hm & <- & _).
    py_step (node_at_ok s i m Hm). rewrite evicted_live, Hl. by rewrite Nat.add_0_r.
  - destruct fuel as [|fuel]; [lia|]. cbn [climb_evicted].
    pose proof Hc as (cm & Hcm & <- & _)%habs_linked. py_step (node_at_ok s c cm Hcm).
    rewrite evicted_live, Hcl. cbn [negb]. destruct (hok_evicted Ho c _ Hc Hcl) as (Hr & Hb & _).
    unfold hbacked in Hb. simpl in Hb, Hcp. destruct (host_value cm) as [h'|] eqn:Eh; [|done].
    rewrite hbind_some, Hcp, hbind_some.
    destruct (Hd c _ (gfull_lookup_1 _ _ _ Hc)) as [_ Hd']. specialize (Hd' j Hcp).
    destruct (hok_parent Ho c _ Hc Hr) as (q & qn & _ & Hq & Hqn & _). simpl in Hq.
    assert (q = j) as -> by congruence.
    rewrite (IH Hi fuel) by (try done; lia). rewrite (to_host (hv_tier Ho _ _ Hc Hr) h' Eh). do 2 f_equal. simpl. f_equal. lia.
Qed.

Lemma climb_backuped_ok d s fuel : forall j,
  hok ps eagle ∅ (habs s) -> ranked (gfull (habs s)) d -> is_Some (lns (habs s) !! j) -> (d j < fuel)%nat ->
  exists b bn, climb_backuped fuel j s = (Ret b, s) /\ lns (habs s) !! b = Some bn /\ hbacked bn = true.
Proof.
  induction fuel as [|fuel IH]; intros j Ho Hd [jn Hj] Hf; [lia|]. cbn [climb_backuped].
  pose proof Hj as (m & Hm & <- & _)%habs_linked. py_step (node_at_ok s j m Hm).
  change (backuped m) with (hbacked (hshape m)). destruct (hbacked (hshape m)) eqn:Eb; [by eauto|].
  assert (j <> g_root (habs s)) as Hr.
  { intros ->. destruct (hv_root Ho) as (r & Hr & _ & Hh). assert (r = hshape m) as -> by congruence.
    unfold hbacked in Eb. by rewrite Hh in Eb. }
  destruct (hok_parent Ho j _ Hj Hr) as (q & qn & _ & Hq & Hqn & _). simpl in Hq. rewrite Hq, hbind_some.
  destruct (Hd j _ (gfull_lookup_1 _ _ _ Hj)) as [_ Hd']. specialize (Hd' q Hq).
  apply IH; try done; lia.
Qed.

Lemma climb_live_ok d s fuel : forall j,
  hok ps eagle ∅ (habs s) -> ranked (gfull (habs s)) d -> is_Some (lns (habs s) !! j) -> (d j < fuel)%nat ->
  exists b bn, climb_live fuel j s = (Ret b, s) /\ lns (habs s) !! b = Some bn /\ hlive bn = true.
Proof.
  induction fuel as [|fuel IH]; intros j Ho Hd [jn Hj] Hf; [lia|]. cbn [climb_live].
  pose proof Hj as (m & Hm & <- & _)%habs_linked. py_step (node_at_ok s j m Hm).
  rewrite evicted_live. destruct (hlive (hshape m)) eqn:Eb; [by eauto|]. cbn [negb].
  destruct (hok_evicted Ho j _ Hj Eb) as (Hr & _).
  destruct (hok_parent Ho j _ Hj Hr) as (q & qn & _ & Hq & Hqn & _). simpl in Hq. rewrite Hq, hbind_some.
  destruct (Hd j _ (gfull_lookup_1 _ _ _ Hj)) as [_ Hd']. specialize (Hd' q Hq).
  apply IH; [done|done|by eexists|lia].
Qed.

(** What [match_prefix] finds: the longest prefix on either tier, of which the part on the
    device comes first. *)
Record hi_matched (hs : list nat) (s s' : Hi) (k : RadixKey) (r : HiMatchResult) (m : nat) (vs : list Z) (j : nat) :
    Prop := mkHiMatched {
  hmt_rest : hrest s' = hrest s;
  hmt_splits : splits (habs s) (habs s');
  hmt_inv : hinv ps eagle hs (habs s');
  hmt_walked : walked ps eagle hs (gfull (habs s)) (gfull (habs s')) (root_node (tree s)) k m vs j;
  hmt_host : hostpath (habs s') (last_device_node (hm_match r)) (host_hit_length r) j;
  hmt_live : exists n, lns (habs s') !! last_device_node (hm_match r) = Some n /\ hlive n = true;
  hmt_le : (host_hit_length r <= m)%nat;
  hmt_path : path (gfull (habs s')) (extra_key k) (root_node (tree s)) (take (m - host_hit_length r) (units k))
    (device_indices (hm_match r)) (last_device_node (hm_match r));
  hmt_backed : exists n, lns (habs s') !! last_host_node (hm_match r) = Some n /\ hbacked n = true;
  hmt_best : best_match_node (hm_match r) = last_host_node (hm_match r) }.

Lemma hi_match_prefix_ok hs s k :
  hinv ps eagle hs (habs s) -> disable cfg = false -> is_bigram k = false \/ eagle = true ->
  exists r s' m vs j, hi_match_prefix cfg now k s = (Ret r, s') /\
    hi_matched hs s s' (lookup_key cfg k) r m vs j.
Proof.
  intros HG Hdis Hk. destruct (lookup_key_ok cfg Hps k Hk) as (Hb & Hal & He). pose proof HG as [HI Ho].
  destruct (hv_root Ho) as (r0 & Hr0 & Hv0 & Hh0).
  destruct (hok_root_live Ho _ _ Hr0 eq_refl) as [Hl0 _].
  unfold hi_match_prefix. rewrite Hdis. cbv zeta. fold (lookup_key cfg k).
  destruct (Nat.eqb_spec (key_len (lookup_key cfg k)) 0) as [Hz|Hnz].
  { eexists _, s, 0%nat, [], (root_node (tree s)). split.
    - assert (on_tree empty_match_result s
        = (Ret (mkMatchResult [] (root_node (tree s)) (root_node (tree s)) (root_node (tree s))), s)) as E
        by (unfold on_tree; simpl; by rewrite hs_tree_id).
      unfold hi_empty_match. py_step E. reflexivity.
    - simpl. constructor; simpl; try done.
      + constructor.
      + eapply walked_empty; [done|done|by apply gfull_lookup_1|done].
      + constructor.
      + by eauto.
      + rewrite take_0. by eapply path_self.
      + exists r0. split; [done|]. unfold hbacked. by rewrite Hh0. }
  rewrite hbind_get. destruct (clock_ok s) as (t & s1 & E1 & A1 & R1 & N1).
  pose proof Hr0 as (rm & Hrm & <- & _)%habs_linked.
  destruct (update_quiet s1 (root_node (tree s)) (set_last_access t) rm) as (s2 & E2 & A2 & R2 & N2); [by rewrite N1|done|].
  destruct (child_key_total ps (lookup_key cfg k) Hps) as [pk Hpk]; [apply aligned_pos_le; [done|done|lia]|].
  assert (habs s2 = habs s) as A2' by congruence.
  destruct (it_rank (hv_tree Ho)) as [d Hd].
  destruct (hi_match_loop_ok hs d (S (key_len (lookup_key cfg k))) s2 (root_node (tree s)) (hshape rm) (lookup_key cfg k)
    (extra_key (lookup_key cfg k), pk) []) as (vals & j & s3 & m & vs & E3 & R3 & HG3 & K3 & Hw & Ht & Hspl);
    [by rewrite A2'|by rewrite A2'|by rewrite A2'|done|done|lia|done|].
  assert (hi_match_prefix_helper cfg now (root_node (tree s)) (lookup_key cfg k) s = (Ret (vals, j), s3)) as E4.
  { unfold hi_match_prefix_helper. py_step E1. py_step E2. by rewrite Hpk, hbind_lift. }
  py_step E4. rewrite hbind_get. rewrite A2' in *. unfold two_tiers in Ht. change (root_node (tree s)) with (g_root (habs s)) in Ht.
  rewrite Hr0, Hl0 in Ht. destruct Ht as (jd & jn & l & T1 & T2 & T3 & T4 & T5).
  pose proof HG3 as [HI3 Ho3]. destruct (it_rank (hv_tree Ho3)) as [d3 Hd3].
  assert (is_Some (lns (habs s3) !! j)) as Hjs.
  { destruct (path_end _ _ _ _ _ _ (wk_path _ _ _ _ _ _ _ _ _ _ Hw)) as [? (n & Hn & _)%gfull_lookup]. eauto. }
  assert (d3 j < S (counter (tree s3)))%nat as Hdj.
  { destruct Hjs as [n Hn]. destruct (Hd3 j _ (gfull_lookup_1 _ _ _ Hn)) as [Hlt _]. simpl in Hlt. lia. }
  rewrite (py_bind_Ret _ _ _ _ _ (climb_evicted_ok d3 s3 jd l j jn Ho3 Hd3 T1 T2 T3 _ 0%nat Hjs Hdj)).
  destruct (climb_backuped_ok d3 s3 (S (counter (tree s3))) j Ho3 Hd3 Hjs Hdj) as (b & bn & E5 & Hbn & Hbb).
  py_step E5. eexists _, s3, m, vs, j. split; [reflexivity|].
  constructor; simpl; try done; [congruence|by eauto|by eauto].
Qed.
End hiproofs.
