(* ===== verification/HiLocks.v ===== *)
(** * Lock walks of HiRadixCache

    [inc_lock_ref] and [dec_lock_ref] of the two-tier cache also recompute both leaf
    statuses of every node they pass.  A walk may start in a state where the nodes on its
    way have outdated statuses; at the root the whole invariant holds. *)

From stdpp Require Import base tactics list gmap strings.
From Stdlib Require Import ZArith Lia.
From S2P Require Import Prelude PyStr RadixKey TreeNode EvictPolicy Allocator AllocatorProofs KVEvents.
From S2P Require Import RadixTree RadixInv RadixPaths RadixSlots RadixWalk RadixProofs RadixLocks ReqPool.
From S2P Require Import HiController HiRadix HiInv HiPrims HiProofs.

Section hilocks.
Context {T B Page : Type} (cfg : Config).
Local Abbreviation Hi := (HiCache T B Page).
Local Abbreviation ps := (cfg_page_size cfg).
Local Abbreviation eagle := (is_eagle cfg).
Implicit Types s : Hi.

(** ** Lock walks *)

(** [j] is [i] or above it. *)
Inductive anc (G : HAbs) : nat -> nat -> Prop :=
  | anc_refl i : anc G i i
  | anc_up i n p j : lns G !! i = Some n -> hs_par n = Some p -> anc G p j -> anc G i j.

(** Only locks, sizes and leaf sets differ. *)
Record same_tiers (G G' : HAbs) : Prop := mkSameTiers {
  st_un : g_un G' = g_un G;
  st_root : g_root G' = g_root G;
  st_ctr : g_ctr G' = g_ctr G;
  st_node : forall j, with_hlock 0 <$> g_ns G' !! j = with_hlock 0 <$> g_ns G !! j }.

Lemma same_tiers_refl G : same_tiers G G.
Proof. done. Qed.
Lemma same_tiers_trans G G1 G2 : same_tiers G G1 -> same_tiers G1 G2 -> same_tiers G G2.
Proof. intros [H1 H2 H3 H4] [R1 R2 R3 R4]. constructor; congruence. Qed.
Lemma same_tiers_sym G G' : same_tiers G G' -> same_tiers G' G.
Proof. intros [H1 H2 H3 H4]. by constructor. Qed.

Lemma same_tiers_lookup G G' i n :
  same_tiers G G' -> lns G !! i = Some n ->
  exists n', lns G' !! i = Some n' /\ hs_ch n' = hs_ch n /\ hs_par n' = hs_par n /\ hs_key n' = hs_key n /\
    hs_val n' = hs_val n /\ hs_host n' = hs_host n.
Proof.
  intros [H1 H2 H3 H4] [Hu Hi]%lns_lookup. specialize (H4 i). rewrite Hi in H4. simpl in H4.
  destruct (g_ns G' !! i) as [n'|] eqn:E; [|done]. exists n'. rewrite lns_lookup, H1, E.
  injection H4 as ? ? ? ? ?. done.
Qed.

Lemma anc_same G G' i j : same_tiers G G' -> anc G i j -> anc G' i j.
Proof.
  intros HS. induction 1 as [|i n p j Hi Hp _ IH]; [constructor|].
  destruct (same_tiers_lookup _ _ _ _ HS Hi) as (n' & Hn' & _ & Hp' & _). by apply (anc_up G' i n' p j Hn'); [rewrite Hp'|].
Qed.

Lemma glock_same G i n l : lns G !! i = Some n -> same_tiers G (g_lock G i n l).
Proof.
  intros [_ Hi]%lns_lookup. constructor; try done. intros j. simpl.
  destruct (decide (j = i)) as [->|]; [by rewrite lookup_insert_eq, Hi|by rewrite lookup_insert_ne].
Qed.

(** The exceptions still on the way to the root. *)
Definition above (G : HAbs) (i : nat) (Y : gset nat) : Prop := forall j, j ∈ Y -> j <> g_root G /\ anc G i j.

(** One iteration, after the sizes. *)
Lemma lock_iter_ok Y W s i m l :
  hok2 ps eagle Y W (habs s) -> nodes (tree s) !! i = Some m -> i ∉ unlinked s -> i <> root_node (tree s) ->
  hlive (hshape m) = true -> 0 <= l ->
  let G' := g_lock (habs s) i (hshape m) l in
  exists s2 s3 s4,
    update_at i (fun n => set_lock_ref (lock_ref n + (l - lock_ref m)) n)
      (hs_tree (set_sizes (g_ev G') (g_pr G') (tree s)) s) = (Ret tt, s2) /\
    on_tree (_update_leaf_status i) s2 = (Ret tt, s3) /\ _update_host_leaf_status i s3 = (Ret tt, s4) /\
    habs s4 = G' /\ hrest s4 = hrest s.
Proof.
  intros Ho Hm Hu Hr Hl Hpos G'. set (s1 := hs_tree _ s).
  assert (nodes (tree s1) !! i = Some m) as Hm1 by done.
  set (m' := set_lock_ref l m).
  assert (update_at i (fun n => set_lock_ref (lock_ref n + (l - lock_ref m)) n) s1
          = (Ret tt, hnodes (<[i := m']> (nodes (tree s1))) s1)) as E2.
  { rewrite (update_at_ok s1 i _ m Hm1). unfold m'. replace (lock_ref m + (l - lock_ref m)) with l by lia. done. }
  set (s2 := hnodes _ s1) in E2.
  assert (nodes (tree s2) !! i = Some m') as Hm2 by (simpl; apply lookup_insert_eq).
  destruct (leaf_status_ok s2 i m' Hm2) as (s3 & E3 & A3 & R3 & N3).
  destruct (host_status_ok s3 i m') as (s4 & E4 & A4 & R4 & N4).
  { by rewrite N3. }
  { change (i ∉ g_un (habs s3)). rewrite A3. done. }
  exists s2, s3, s4. split_and!; [done|done|done| |by rewrite R4, R3].
  rewrite A4, A3. unfold G', g_lock. f_equal. f_equal. unfold habs at 1. simpl. by rewrite fmap_insert.
Qed.

Record hwalking (hs : list nat) (q : Z) (i : nat) (Y W : gset nat) (G : HAbs) : Prop := mkHwalking {
  hw_walk : walking cfg hs q i (gfull G);
  hw_ok : hok2 ps eagle Y W G;
  hw_Y : above G i Y;
  hw_W : above G i W;
  hw_live : exists n, lns G !! i = Some n /\ hlive n = true }.

Lemma hwalking_root hs q Y W G : hwalking hs q (g_root G) Y W G -> hinv ps eagle hs G.
Proof.
  intros [H1 H2 HY HW _].
  assert (forall Z, above G (g_root G) Z -> Z = ∅) as Hnone.
  { intros Z HZ. apply elem_of_equiv_empty_L. intros j Hj. destruct (HZ j Hj) as [Hne Ha].
    inversion Ha as [|? n p ? Hn Hp]; subst; [done|].
    destruct (it_root (hv_tree (h2_ok _ _ _ _ _ H2))) as (r & (r0 & Hr0 & <-)%gfull_lookup & Hrp & _).
    simpl in *. congruence. }
  split; [by apply (walking_root cfg hs q)|]. eapply hok2_hok; [exact H2|by apply Hnone|by apply Hnone].
Qed.

Lemma hwalking_step hs q i Y W G n p :
  hwalking hs q i Y W G -> lns G !! i = Some n -> i <> g_root G -> hs_par n = Some p -> 0 <= hs_lock n + q ->
  hwalking hs q p (Y ∖ {[i]}) (W ∖ {[i]}) (g_lock G i n (hs_lock n + q)) /\
  gfull (g_lock G i n (hs_lock n + q)) = lock_abs (gfull G) i (fsh n) (hs_lock n + q).
Proof.
  intros [H1 H2 HY HW (n0 & Hn0 & Hl)] Hi Hr Hp Hpos. assert (n0 = n) as -> by congruence.
  destruct (glock_ok ps eagle Y W G i n (hs_lock n + q) H2 Hi Hr Hl Hpos) as [G1 G2].
  pose proof (glock_same G i n (hs_lock n + q) Hi) as HS.
  assert (forall Z, above G i Z -> above (g_lock G i n (hs_lock n + q)) p (Z ∖ {[i]})) as Habv.
  { intros Z HZ j [Hj Hji]%elem_of_difference. destruct (HZ j Hj) as [Hne Ha]. split; [done|].
    inversion Ha as [|? n1 p1 ? Hn1 Hp1 Ha1]; subst; [set_solver|].
    apply (anc_same G); [done|]. congruence. }
  split; [|exact G2]. constructor.
  - rewrite G2. by apply (walking_step cfg hs q i (gfull G) (fsh n) p); [|apply gfull_lookup_1|..].
  - done.
  - by apply Habv.
  - by apply Habv.
  - pose proof (h2_ok _ _ _ _ _ H2) as Ho.
    destruct (hok_parent Ho i n Hi Hr) as (p' & pn & _ & Hp' & Hpn & _). assert (p' = p) as -> by congruence.
    pose proof (to_live (hv_tier Ho _ _ Hi Hr) Hl p pn Hp Hpn) as Hpl.
    destruct (same_tiers_lookup _ _ _ _ HS Hpn) as (pn' & Hpn' & _ & _ & _ & Ev & _).
    exists pn'. split; [done|]. unfold hlive in *. by rewrite Ev.
Qed.

(** ** The walks *)

(** The sizes after a lock count changes at a node that is not the root. *)
Lemma lock_sizes G i n l :
  i <> g_root G ->
  g_ev (g_lock G i n l) = g_ev G - (if hs_lock n =? 0 then Z.of_nat (key_len (hs_key n)) else 0)
                            + (if l =? 0 then Z.of_nat (key_len (hs_key n)) else 0) /\
  g_pr (g_lock G i n l) = g_pr G - (if hs_lock n =? 0 then 0 else Z.of_nat (key_len (hs_key n)))
                            + (if l =? 0 then 0 else Z.of_nat (key_len (hs_key n))).
Proof.
  intros Hr. simpl. unfold unlocked_len, locked_len, sh_len. rewrite !decide_False by done. simpl.
  destruct (hs_lock n =? 0), (l =? 0); split; done.
Qed.

Lemma on_tree_sizes s ev pr (f : Cache T -> Cache T) :
  f (tree s) = set_sizes ev pr (tree s) -> on_tree (py_modify f) s = (Ret tt, hs_tree (set_sizes ev pr (tree s)) s).
Proof. intros E. unfold on_tree, py_modify. by rewrite E. Qed.

Lemma hs_sizes_id s : hs_tree (set_sizes (evictable_size_ (tree s)) (protected_size_ (tree s)) (tree s)) s = s.
Proof. by rewrite set_sizes_id, hs_tree_id. Qed.

Lemma ranked_tiers G G' d : same_tiers G G' -> ranked (gfull G) d -> ranked (gfull G') d.
Proof.
  intros HS Hd j m (n' & Hn' & <-)%gfull_lookup.
  destruct (same_tiers_lookup _ _ _ _ (same_tiers_sym _ _ HS) Hn') as (n & Hn & _ & Hp & _).
  destruct (Hd j _ (gfull_lookup_1 _ _ _ Hn)) as [H1 H2]. split; [simpl in *; by rewrite (st_ctr _ _ HS)|].
  intros p Hpar. apply H2. simpl in *. congruence.
Qed.

(** What both loops rely on at the node they visit. *)
Lemma hwalking_here hs q s i Y W :
  hwalking hs q i Y W (habs s) ->
  exists m, nodes (tree s) !! i = Some m /\ (i ∉ unlinked s) /\ lns (habs s) !! i = Some (hshape m) /\
    hlive (hshape m) = true /\ (i <> root_node (tree s) -> 0 <= lock_ref m /\ 0 <= lock_ref m + q /\
      exists p, parent m = Some p).
Proof.
  intros Hw. destruct (hw_live _ _ _ _ _ _ Hw) as (n & Hn & Hl).
  pose proof Hn as (m & Hm & <- & Hu)%habs_linked. exists m. do 4 (split; [assumption|]). intros Hr.
  pose proof (h2_ok _ _ _ _ _ (hw_ok _ _ _ _ _ _ Hw)) as Ho.
  pose proof (node_lock_nonneg _ _ _ _ _ (hv_tree Ho) (gfull_lookup_1 _ _ _ Hn)).
  pose proof (walking_lock_pos cfg hs q i _ _ (hw_walk _ _ _ _ _ _ Hw) (gfull_lookup_1 _ _ _ Hn) Hr).
  destruct (hok_parent Ho _ _ Hn Hr) as (p & _ & _ & Hp & _). simpl in *. eauto.
Qed.

(** The statements of an iteration after the size update, run from [s]. *)
Lemma iter_run hs q s i m p Y W (f : TreeNode -> TreeNode) :
  hwalking hs q i Y W (habs s) -> nodes (tree s) !! i = Some m -> i ∉ unlinked s ->
  i <> root_node (tree s) -> hlive (hshape m) = true -> parent m = Some p -> 0 <= lock_ref m + q ->
  (forall n, f n = set_lock_ref (lock_ref n + q) n) ->
  let G' := g_lock (habs s) i (hshape m) (lock_ref m + q) in
  exists s2 s3 s4,
    update_at i f (hs_tree (set_sizes (g_ev G') (g_pr G') (tree s)) s) = (Ret tt, s2) /\
    on_tree (_update_leaf_status i) s2 = (Ret tt, s3) /\ _update_host_leaf_status i s3 = (Ret tt, s4) /\
    habs s4 = G' /\ hrest s4 = hrest s /\ hwalking hs q p (Y ∖ {[i]}) (W ∖ {[i]}) (habs s4) /\
    same_tiers (habs s) (habs s4).
Proof.
  intros Hw Hm Hu Hr Hl Hp Hpos Hf G'. pose proof (habs_linked_1 _ _ _ Hm Hu) as Hn.
  destruct (lock_iter_ok Y W s i m (lock_ref m + q) (hw_ok _ _ _ _ _ _ Hw) Hm Hu Hr Hl Hpos)
    as (s2 & s3 & s4 & E2 & E3 & E4 & A4 & R4).
  destruct (hwalking_step hs q i Y W (habs s) (hshape m) p Hw Hn Hr Hp Hpos) as [Hw' _].
  exists s2, s3, s4. split_and!; try done.
  - rewrite <-E2. rewrite !(update_at_ok _ i _ m) by done. rewrite Hf. do 5 f_equal. lia.
  - by rewrite A4.
  - rewrite A4. by apply glock_same.
Qed.

Lemma hi_inc_loop_ok hs d fuel : forall s i delta Y W,
  hwalking hs 1 i Y W (habs s) -> ranked (gfull (habs s)) d -> (d i < fuel)%nat ->
  exists s', hi_inc_loop fuel (Some i) delta s = (Ret (delta + (g_ev (habs s') - g_ev (habs s))), s') /\
    hinv ps eagle hs (habs s') /\ same_tiers (habs s) (habs s') /\ hrest s' = hrest s.
Proof.
  induction fuel as [|fuel IH]; intros s i delta Y W Hw Hd Hf; [lia|].
  cbn [hi_inc_loop]. rewrite hbind_get. case_bool_decide as Hroot.
  { injection Hroot as ->. exists s. split_and!; [|by eapply hwalking_root|apply same_tiers_refl|done].
    unfold mret, PyM_ret. do 2 f_equal. lia. }
  assert (i <> root_node (tree s)) as Hne by congruence. rewrite hbind_some.
  destruct (hwalking_here _ _ _ _ _ _ Hw) as (m & Hm & Hu & Hn & Hl & Hpos).
  destruct (Hpos Hne) as (Hp0 & Hp1 & p & Hp). py_step (node_at_ok s i m Hm).
  destruct (iter_run hs 1 s i m p Y W (fun n => set_lock_ref (lock_ref n + 1) n) Hw Hm Hu Hne Hl Hp Hp1)
    as (s2 & s3 & s4 & E2 & E3 & E4 & A4 & R4 & Hw4 & S4); [done|].
  destruct (lock_sizes (habs s) i (hshape m) (lock_ref m + 1) Hne) as [Z1 Z2].
  rewrite (proj2 (Z.eqb_neq (lock_ref m + 1) 0)) in Z1, Z2 by lia. cbn [hshape hs_lock hs_key] in Z1, Z2.
  rewrite Z1, Z2 in E2.
  assert ((if lock_ref m =? 0 then on_tree (py_modify (fun t => set_sizes (evictable_size_ t - Z.of_nat (key_len (key m)))
                                      (protected_size_ t + Z.of_nat (key_len (key m))) t)) else mret tt) s
    = (Ret tt, hs_tree (set_sizes (g_ev (habs s) - (if lock_ref m =? 0 then Z.of_nat (key_len (key m)) else 0) + 0)
                          (g_pr (habs s) - (if lock_ref m =? 0 then 0 else Z.of_nat (key_len (key m)))
                             + Z.of_nat (key_len (key m))) (tree s)) s)) as E1.
  { destruct (lock_ref m =? 0).
    - apply on_tree_sizes. simpl. f_equal; lia.
    - unfold mret, PyM_ret. f_equal. rewrite <-(hs_sizes_id s) at 1. simpl. do 2 f_equal; lia. }
  py_step E1. py_step E2. py_step E3. py_step E4. rewrite Hp.
  destruct (Hd i _ (gfull_lookup_1 _ _ _ Hn)) as [_ Hdp]. specialize (Hdp p Hp).
  destruct (IH s4 p (if lock_ref m =? 0 then delta - Z.of_nat (key_len (key m)) else delta) _ _ Hw4)
    as (s5 & E5 & H5 & S5 & R5); [by eapply ranked_tiers|lia|].
  exists s5. split_and!; [|done|by eapply same_tiers_trans|congruence].
  rewrite E5. do 2 f_equal. rewrite A4, Z1. destruct (lock_ref m =? 0); lia.
Qed.

Lemma hi_dec_loop_ok hs d fuel : forall s i delta Y W,
  hwalking hs (-1) i Y W (habs s) -> ranked (gfull (habs s)) d -> (d i < fuel)%nat ->
  exists s', hi_dec_loop fuel (Some i) delta s = (Ret (delta + (g_ev (habs s') - g_ev (habs s))), s') /\
    hinv ps eagle hs (habs s') /\ same_tiers (habs s) (habs s') /\ hrest s' = hrest s.
Proof.
  induction fuel as [|fuel IH]; intros s i delta Y W Hw Hd Hf; [lia|].
  cbn [hi_dec_loop]. rewrite hbind_get. case_bool_decide as Hroot.
  { injection Hroot as ->. exists s. split_and!; [|by eapply hwalking_root|apply same_tiers_refl|done].
    unfold mret, PyM_ret. do 2 f_equal. lia. }
  assert (i <> root_node (tree s)) as Hne by congruence. rewrite hbind_some.
  destruct (hwalking_here _ _ _ _ _ _ Hw) as (m & Hm & Hu & Hn & Hl & Hpos).
  destruct (Hpos Hne) as (Hp0 & Hp1 & p & Hp). py_step (node_at_ok s i m Hm).
  destruct (iter_run hs (-1) s i m p Y W (fun n => set_lock_ref (lock_ref n - 1) n) Hw Hm Hu Hne Hl Hp Hp1)
    as (s2 & s3 & s4 & E2 & E3 & E4 & A4 & R4 & Hw4 & S4); [done|].
  destruct (lock_sizes (habs s) i (hshape m) (lock_ref m + -1) Hne) as [Z1 Z2].
  rewrite (proj2 (Z.eqb_neq (hs_lock (hshape m)) 0)) in Z1, Z2 by (simpl; lia).
  replace (lock_ref m + -1 =? 0) with (lock_ref m =? 1) in Z1, Z2 by (apply bool_eq_iff; rewrite !Z.eqb_eq; lia).
  cbn [hshape hs_lock hs_key] in Z1, Z2. rewrite Z1, Z2 in E2.
  assert ((if lock_ref m =? 1 then on_tree (py_modify (fun t => set_sizes (evictable_size_ t + Z.of_nat (key_len (key m)))
                                      (protected_size_ t - Z.of_nat (key_len (key m))) t)) else mret tt) s
    = (Ret tt, hs_tree (set_sizes (g_ev (habs s) - 0 + (if lock_ref m =? 1 then Z.of_nat (key_len (key m)) else 0))
                          (g_pr (habs s) - Z.of_nat (key_len (key m))
                             + (if lock_ref m =? 1 then 0 else Z.of_nat (key_len (key m)))) (tree s)) s)) as E1.
  { destruct (lock_ref m =? 1).
    - apply on_tree_sizes. simpl. f_equal; lia.
    - unfold mret, PyM_ret. f_equal. rewrite <-(hs_sizes_id s) at 1. simpl. do 2 f_equal; lia. }
  py_step E1. py_step E2. py_step E3. py_step E4. rewrite Hp. rewrite bool_decide_eq_true_2 by done.
  rewrite (py_bind_Ret (py_assert true) _ s4 tt s4 eq_refl).
  destruct (Hd i _ (gfull_lookup_1 _ _ _ Hn)) as [_ Hdp]. specialize (Hdp p Hp).
  destruct (IH s4 p (if lock_ref m =? 1 then delta + Z.of_nat (key_len (key m)) else delta) _ _ Hw4)
    as (s5 & E5 & H5 & S5 & R5); [by eapply ranked_tiers|lia|].
  exists s5. split_and!; [|done|by eapply same_tiers_trans|congruence].
  rewrite E5. do 2 f_equal. rewrite A4, Z1. destruct (lock_ref m =? 1); lia.
Qed.

(** A walk from a live node that may have outdated statuses above it. *)
Lemma hi_inc_from hs s i Y W :
  disable cfg = false -> hwalking hs 1 i Y W (habs s) ->
  exists s', hi_inc_lock_ref cfg i s = (Ret (g_ev (habs s') - g_ev (habs s)), s') /\
    hinv ps eagle hs (habs s') /\ same_tiers (habs s) (habs s') /\ hrest s' = hrest s.
Proof.
  intros Hdis Hw. unfold hi_inc_lock_ref. rewrite Hdis, hbind_get.
  destruct (it_rank (wg_tree _ _ _ _ _ (hw_walk _ _ _ _ _ _ Hw))) as [d Hd].
  destruct (hw_live _ _ _ _ _ _ Hw) as (n & Hn & _).
  destruct (Hd i _ (gfull_lookup_1 _ _ _ Hn)) as [Hlt _]. simpl in Hlt.
  destruct (hi_inc_loop_ok hs d (S (counter (tree s))) s i 0 Y W Hw Hd) as (s' & E & H'); [lia|].
  exists s'. rewrite E. split; [do 2 f_equal; lia|done].
Qed.

Lemma hi_inc_lock_ref_ok hs s i n :
  disable cfg = false -> hinv ps eagle hs (habs s) -> lns (habs s) !! i = Some n -> hlive n = true ->
  exists s', hi_inc_lock_ref cfg i s = (Ret (g_ev (habs s') - g_ev (habs s)), s') /\
    hinv ps eagle (i :: hs) (habs s') /\ same_tiers (habs s) (habs s') /\ hrest s' = hrest s.
Proof.
  intros Hdis [HI Ho] Hn Hl. apply (hi_inc_from (i :: hs) s i ∅ ∅ Hdis). constructor.
  - apply walking_start; [done|]. eexists. by apply gfull_lookup_1.
  - by apply hok_hok2.
  - intros j. set_solver.
  - intros j. set_solver.
  - by eauto.
Qed.

Lemma hi_dec_lock_ref_ok hs hs' s i n :
  disable cfg = false -> hinv ps eagle hs (habs s) -> hs ≡ₚ i :: hs' ->
  lns (habs s) !! i = Some n -> hlive n = true ->
  exists s', hi_dec_lock_ref cfg i s = (Ret (g_ev (habs s') - g_ev (habs s)), s') /\
    hinv ps eagle hs' (habs s') /\ same_tiers (habs s) (habs s') /\ hrest s' = hrest s.
Proof.
  intros Hdis [HI Ho] Hperm Hn Hl. unfold hi_dec_lock_ref. rewrite Hdis, hbind_get.
  destruct (it_rank (hv_tree Ho)) as [d Hd].
  destruct (Hd i _ (gfull_lookup_1 _ _ _ Hn)) as [Hlt _]. simpl in Hlt.
  destruct (hi_dec_loop_ok hs' d (S (counter (tree s))) s i 0 ∅ ∅) as (s' & E & H').
  - constructor; [by eapply walking_finish|by apply hok_hok2| | |by eauto]; intros j; set_solver.
  - done.
  - lia.
  - exists s'. rewrite E. split; [do 2 f_equal; lia|done].
Qed.
End hilocks.
