(* ===== verification/HiRes.v ===== *)
(** * The KV slots held by the two tiers

    Every device slot is held by one node of the tree, by a request, or by the device pool;
    every host slot by one node, by a transfer that is under way, or by the host pool.  The
    record [res] states this for fixed totals [D] and [L]; the lemmas follow the slots
    through the primitive changes of HiPrims. *)

From stdpp Require Import base tactics list gmap strings.
From Stdlib Require Import ZArith Lia.
From S2P Require Import Prelude PyStr RadixKey TreeNode EvictPolicy Allocator AllocatorProofs KVEvents.
From S2P Require Import RadixTree RadixInv RadixPaths RadixSlots RadixWalk RadixProofs RadixLocks ReqPool.
From S2P Require Import HiController HiRadix HiInv HiPrims HiProofs HiLocks.

(** ** The resources *)

Definition dslots (G : HAbs) : list Z := cat hs_val (lns G).
Definition hslots (G : HAbs) : list Z := cat hs_host (lns G).

Section res.
Context {T : Type} `{!KVAllocator T} (ps : nat) (eagle : bool).
Context (D L : list Z).

(** Slots [held] outside the tree on the device, [hheld] on the host. *)
Record res (held hheld : list Z) (G : HAbs) (a : T) (h : HostSlots) : Prop := mkRes {
  rs_kv : kv_ok a;
  rs_group : kv_in_group a = false;
  rs_page : kv_page a = Z.of_nat ps;
  rs_hpage : h_page_size h = Z.of_nat ps;
  rs_paged : forall i n v, lns G !! i = Some n -> hs_val n = Some v -> paged (Z.of_nat ps) v;
  rs_dev : dslots G ++ held ++ kv_owned a ≡ₚ D;
  rs_host : hslots G ++ hheld ++ h_free h ≡ₚ L }.

(** The same indices at every node. *)
Definition same_vals (G G' : HAbs) : Prop :=
  forall i, (fun n => (hs_val n, hs_host n)) <$> lns G' !! i = (fun n => (hs_val n, hs_host n)) <$> lns G !! i.

Lemma same_vals_slots f G G' :
  (forall n n', hs_val n' = hs_val n -> hs_host n' = hs_host n -> f n' = f n) ->
  same_vals G G' -> cat f (lns G') = cat f (lns G).
Proof.
  intros Hf HS. apply cat_ext. intros i. specialize (HS i).
  destruct (lns G' !! i) as [n'|], (lns G !! i) as [n|]; simpl in *; try done.
  injection HS as E1 E2. f_equal. unfold slot_list. by rewrite (Hf n n').
Qed.

Lemma res_same held hheld G G' a h : same_vals G G' -> res held hheld G a h -> res held hheld G' a h.
Proof.
  intros HS [R1 R2 R3 R4 R5 R6 R7]. constructor; try done.
  - intros i n' v Hi Hv. specialize (HS i). rewrite Hi in HS. destruct (lns G !! i) as [n|] eqn:E; [|done].
    injection HS as E1 _. apply (R5 i n); congruence.
  - unfold dslots. by rewrite (same_vals_slots hs_val G G').
  - unfold hslots. by rewrite (same_vals_slots hs_host G G').
Qed.

Lemma same_tiers_vals G G' : same_tiers G G' -> same_vals G G'.
Proof.
  intros HS i. destruct (lns G !! i) as [n|] eqn:E.
  - destruct (same_tiers_lookup _ _ _ _ HS E) as (n' & -> & _ & _ & _ & E1 & E2). simpl. by rewrite E1, E2.
  - destruct (lns G' !! i) as [n'|] eqn:E'; [|done].
    destruct (same_tiers_lookup _ _ _ _ (same_tiers_sym _ _ HS) E') as (n & ? & _). congruence.
Qed.

Lemma res_locks held hheld G G' a h : same_tiers G G' -> res held hheld G a h -> res held hheld G' a h.
Proof. intros HS. by apply res_same, same_tiers_vals. Qed.

Lemma gsplit_slots Y G p pn c cn ck rest k f :
  hok ps eagle Y G -> lns G !! p = Some pn -> lns G !! c = Some cn ->
  split_pre ps eagle (gfull G) p (fsh pn) c (fsh cn) ck rest k (tier_val cn) ->
  f = hs_val \/ f = hs_host -> cat f (lns (g_split G p pn c cn ck rest k)) ≡ₚ cat f (lns G).
Proof.
  intros Ho Hpn Hcn Hsp Hf. destruct (gsplit_ids Ho Hsp) as (H1 & H2 & H3 & H4 & _).
  rewrite (gsplit_lns Ho Hpn Hcn). erewrite (cat_update_id _ _ p pn);
    [|rewrite !lookup_insert_ne by done; done|by destruct Hf as [-> | ->]].
  rewrite (cat_delete f (<[c := _]> _) c) by apply lookup_insert_eq.
  rewrite delete_insert_eq, delete_insert_ne by done. rewrite cat_insert by (by rewrite lookup_delete_ne).
  rewrite (cat_delete f (lns G) c cn) by done. rewrite (assoc_L (++)). apply Permutation_app_tail.
  assert (slot_list f (g_upper rest c p k cn) ++ slot_list f (g_lower (g_ctr G) k cn) = slot_list f cn) as <-;
    [|solve_Permutation].
  destruct Hf as [-> | ->]; unfold slot_list; simpl;
    [destruct (hs_val cn)|destruct (hs_host cn)]; simpl; try done; apply take_drop.
Qed.

Lemma res_split Y held hheld G a h p pn c cn ck rest k :
  hok ps eagle Y G -> lns G !! p = Some pn -> lns G !! c = Some cn ->
  split_pre ps eagle (gfull G) p (fsh pn) c (fsh cn) ck rest k (tier_val cn) ->
  res held hheld G a h -> res held hheld (g_split G p pn c cn ck rest k) a h.
Proof.
  intros Ho Hpn Hcn Hsp [R1 R2 R3 R4 R5 R6 R7]. constructor; try done.
  - intros i n v Hi Hv. pose proof Hsp as [_ _ _ _ _ _ _ _ _ _ Hal _ Hps].
    apply (gsplit_lookup Ho Hpn Hcn Hsp) in Hi as [[-> ->]|[[-> ->]|[[-> ->]|(_ & _ & _ & Hi)]]].
    + by apply (R5 p pn).
    + simpl in Hv. apply fmap_Some in Hv as (w & Hw & ->). by apply paged_split, (R5 c cn).
    + simpl in Hv. apply fmap_Some in Hv as (w & Hw & ->). by apply paged_split, (R5 c cn).
    + by apply (R5 i n).
  - unfold dslots. by rewrite (gsplit_slots Y G p pn c cn) by auto.
  - unfold hslots. by rewrite (gsplit_slots Y G p pn c cn) by auto.
Qed.

(** A node replaced by another: the slots move to or from outside. *)
Lemma res_put held hheld held' hheld' G G' a h a' h' i n n' :
  lns G !! i = Some n -> lns G' = <[i := n']> (lns G) ->
  kv_ok a' -> kv_in_group a' = false -> kv_page a' = Z.of_nat ps -> h_page_size h' = Z.of_nat ps ->
  (forall v, hs_val n' = Some v -> paged (Z.of_nat ps) v) ->
  slot_list hs_val n' ++ held' ++ kv_owned a' ≡ₚ slot_list hs_val n ++ held ++ kv_owned a ->
  slot_list hs_host n' ++ hheld' ++ h_free h' ≡ₚ slot_list hs_host n ++ hheld ++ h_free h ->
  res held hheld G a h -> res held' hheld' G' a' h'.
Proof.
  intros Hi E P1 P2 P3 P4 Hv Hd Hh [R1 R2 R3 R4 R5 R6 R7]. constructor; try done.
  - intros j m v Hj Hm. rewrite E in Hj. apply lookup_insert_Some in Hj as [[<- <-]|[_ Hj]]; [auto|by apply (R5 j m)].
  - rewrite <-R6. unfold dslots. rewrite E. apply (Permutation_app_inv_l (slot_list hs_val n)).
    rewrite (assoc_L (++)), (cat_update hs_val _ i n n' Hi). transitivity (cat hs_val (lns G) ++ (slot_list hs_val n' ++ held' ++ kv_owned a'));
      [solve_Permutation|]. rewrite Hd. solve_Permutation.
  - rewrite <-R7. unfold hslots. rewrite E. apply (Permutation_app_inv_l (slot_list hs_host n)).
    rewrite (assoc_L (++)), (cat_update hs_host _ i n n' Hi). transitivity (cat hs_host (lns G) ++ (slot_list hs_host n' ++ hheld' ++ h_free h'));
      [solve_Permutation|]. rewrite Hh. solve_Permutation.
Qed.

(** A node removed, its parent's children changed. *)
Lemma res_remove held hheld G G' a h a' h' c cn p pn pn' :
  p <> c -> lns G !! c = Some cn -> lns G !! p = Some pn -> lns G' = delete c (<[p := pn']> (lns G)) ->
  hs_val pn' = hs_val pn -> hs_host pn' = hs_host pn ->
  kv_ok a' -> kv_in_group a' = false -> kv_page a' = Z.of_nat ps -> h_page_size h' = Z.of_nat ps ->
  kv_owned a' ≡ₚ slot_list hs_val cn ++ kv_owned a -> h_free h' ≡ₚ slot_list hs_host cn ++ h_free h ->
  res held hheld G a h -> res held hheld G' a' h'.
Proof.
  intros Hne Hc Hp E V1 V2 P1 P2 P3 P4 Hd Hh [R1 R2 R3 R4 R5 R6 R7].
  assert (forall f, f = hs_val \/ f = hs_host -> cat f (lns G) ≡ₚ slot_list f cn ++ cat f (lns G')) as Hcat.
  { intros f Hf. rewrite E, <-(cat_delete f (<[p:=pn']> (lns G)) c cn) by (by rewrite lookup_insert_ne).
    by rewrite (cat_update_id f _ p pn) by (destruct Hf as [-> | ->]; unfold slot_list; congruence). }
  constructor; try done.
  - intros j m v Hj Hm. rewrite E in Hj. apply lookup_delete_Some in Hj as [_ Hj].
    apply lookup_insert_Some in Hj as [[<- <-]|[_ Hj]]; [apply (R5 p pn); congruence|by apply (R5 j m)].
  - rewrite <-R6, Hd. unfold dslots. rewrite (Hcat hs_val) by auto. solve_Permutation.
  - rewrite <-R7, Hh. unfold hslots. rewrite (Hcat hs_host) by auto. solve_Permutation.
Qed.

(** A leaf added with slots from outside. *)
Lemma res_add held hheld held' hheld' G G' a h node nn nn' id leaf :
  node <> id -> lns G !! node = Some nn -> lns G !! id = None -> lns G' = <[node := nn']> (<[id := leaf]> (lns G)) ->
  hs_val nn' = hs_val nn -> hs_host nn' = hs_host nn ->
  (forall v, hs_val leaf = Some v -> paged (Z.of_nat ps) v) ->
  held ≡ₚ slot_list hs_val leaf ++ held' -> hheld ≡ₚ slot_list hs_host leaf ++ hheld' ->
  res held hheld G a h -> res held' hheld' G' a h.
Proof.
  intros Hne Hn Hid E V1 V2 Hv Hd Hh [R1 R2 R3 R4 R5 R6 R7].
  assert (forall f, f = hs_val \/ f = hs_host -> cat f (lns G') ≡ₚ slot_list f leaf ++ cat f (lns G)) as Hcat.
  { intros f Hf. rewrite E. rewrite (cat_update_id f _ node nn);
      [by apply cat_insert|by rewrite lookup_insert_ne|destruct Hf as [-> | ->]; unfold slot_list; congruence]. }
  constructor; try done.
  - intros j m v Hj Hm. rewrite E in Hj. apply lookup_insert_Some in Hj as [[<- <-]|[_ Hj]]; [apply (R5 node nn); congruence|].
    apply lookup_insert_Some in Hj as [[<- <-]|[_ Hj]]; [auto|by apply (R5 j m)].
  - rewrite <-R6, Hd. unfold dslots. rewrite (Hcat hs_val) by auto. solve_Permutation.
  - rewrite <-R7, Hh. unfold hslots. rewrite (Hcat hs_host) by auto. solve_Permutation.
Qed.
End res.
