(* ===== verification/HiHost.v ===== *)
(** * Host memory: eviction and backup

    [evict_host] unlinks evicted leaves of the tree one by one and gives their host slots
    back; nodes that are on the device are never touched ([trims]).  [write_backup] finds
    host slots for a node on the device, evicting from the host if it has to, and locks the
    node until the copy is acknowledged. *)

From stdpp Require Import base tactics list gmap strings.
From Stdlib Require Import ZArith Lia.
From S2P Require Import Prelude PyStr RadixKey TreeNode EvictPolicy Allocator AllocatorProofs KVEvents.
From S2P Require Import RadixTree RadixInv RadixPaths RadixSlots RadixWalk RadixProofs RadixLocks ReqPool.
From S2P Require Import HiController HiRadix HiInv HiPrims HiProofs HiLocks HiRes.

(** ** Unlinking evicted leaves *)

(** [G'] is [G] without some evicted nodes. *)
Record trims (G G' : HAbs) : Prop := mkTrims {
  tr_root : g_root G' = g_root G;
  tr_ctr : g_ctr G' = g_ctr G;
  tr_ev : g_ev G' = g_ev G;
  tr_pr : g_pr G' = g_pr G;
  tr_node : forall i n', lns G' !! i = Some n' ->
    exists n, lns G !! i = Some n /\ kept n n' /\ forall ck c, hs_ch n' !! ck = Some c -> hs_ch n !! ck = Some c;
  tr_live : forall i n, lns G !! i = Some n -> hlive n = true -> is_Some (lns G' !! i) }.

Lemma trims_refl G : trims G G.
Proof.
  constructor; try done. intros i n' Hi. exists n'. split_and!; [done|apply kept_refl|done].
Qed.

Lemma trims_trans G G1 G2 : trims G G1 -> trims G1 G2 -> trims G G2.
Proof.
  intros [R1 R2 R3 R4 R5 R6] [S1 S2 S3 S4 S5 S6]. constructor; try congruence.
  - intros i n2 Hi. destruct (S5 i n2 Hi) as (n1 & H1 & K1 & C1). destruct (R5 i n1 H1) as (n & H0 & K0 & C0).
    exists n. split_and!; [done|by eapply kept_trans|auto].
  - intros i n Hi Hl. destruct (R6 i n Hi Hl) as [n1 H1]. destruct (R5 i n1 H1) as (n0 & H0 & K0 & _).
    apply (S6 i n1 H1). rewrite (kept_live _ _ K0). congruence.
Qed.

(** A live node stays, with everything but its evicted children. *)
Lemma trims_live G G' i n : trims G G' -> lns G !! i = Some n -> hlive n = true ->
  exists n', lns G' !! i = Some n' /\ kept n n'.
Proof.
  intros HT Hi Hl. destruct (tr_live _ _ HT i n Hi Hl) as [n' Hn'].
  destruct (tr_node _ _ HT i n' Hn') as (n0 & H0 & K & _). exists n'. split; [done|]. congruence.
Qed.

Section unlink.
Context (ps : nat) (eagle : bool) (Hps : (0 < ps)%nat).

Lemma hleaf_facts hs G c :
  hinv ps eagle hs G -> c ∈ g_hl G ->
  exists cn p pn ck, lns G !! c = Some cn /\ lns G !! p = Some pn /\ hlive cn = false /\
    delete_pre ps eagle (gfull G) c (fsh cn) p (fsh pn) ck.
Proof.
  intros [HI Ho] Hc. apply (hv_hl Ho) in Hc; [|set_solver]. unfold hleaf_at in Hc.
  apply andb_true_iff in Hc as [Hu Hc]. apply bool_decide_eq_true in Hu.
  destruct (g_ns G !! c) as [cn|] eqn:Hg; [|done]. assert (lns G !! c = Some cn) as Hcn by (by apply lns_lookup).
  unfold g_hleaf in Hc. apply negb_true_iff, orb_false_iff in Hc as [[H1 H2]%orb_false_iff H3].
  destruct (hok_evicted Ho _ _ Hcn H1) as (Hr & Hb & Hlk).
  destruct (hok_parent Ho _ _ Hcn Hr) as (p & pn & ck & Hp & Hpn & Hck & Hin & Hne).
  exists cn, p, pn, ck. split_and!; try done. constructor; try done; [apply Ho|by apply gfull_lookup_1| |by apply gfull_lookup_1].
  simpl. destruct (decide (hs_ch cn = ∅)) as [|(ck' & x & Hx)%map_choose]; [done|]. exfalso.
  destruct (hok_child Ho _ _ _ _ Hcn Hx) as (xn & Hxn & Hxr & _).
  pose proof (hok_evicted_child Ho _ _ _ _ _ Hcn H1 Hx Hxn) as Hxl.
  destruct (hok_evicted Ho _ _ Hxn Hxl) as (_ & Hxb & _). apply not_true_iff_false in H3. apply H3.
  apply existsb_child. exists ck', x. split; [done|]. apply lns_lookup in Hxn as [_ Hxn].
  by rewrite (backed_at_lookup _ _ _ Hxn).
Qed.

(** A node with a backed-up child is not a host leaf. *)
Lemma not_hleaf hs G p pn ck c cn :
  hinv ps eagle hs G -> lns G !! p = Some pn -> hs_ch pn !! ck = Some c -> lns G !! c = Some cn -> hbacked cn = true ->
  p ∉ g_hl G.
Proof.
  intros [HI Ho] Hp Hin Hc Hb Hl. apply (hv_hl Ho) in Hl; [|set_solver]. unfold hleaf_at in Hl.
  apply andb_true_iff in Hl as [_ Hl]. pose proof Hp as [_ Hg]%lns_lookup. rewrite Hg in Hl. unfold g_hleaf in Hl.
  apply negb_true_iff, orb_false_iff in Hl as [_ H3]. apply not_true_iff_false in H3. apply H3.
  apply existsb_child. exists ck, c. split; [done|]. apply lns_lookup in Hc as [_ Hc]. by rewrite (backed_at_lookup _ _ _ Hc).
Qed.

(** The state after one iteration of the host eviction. *)
Definition g_unlinked (G : HAbs) (c p : nat) (pn : HShape) (ck : ChildKey) : HAbs :=
  let G1 := g_unlink G c p pn ck in
  g_rehl (mkHAbs (g_ns G1) (g_un G1) (g_root G) (g_ctr G) (g_ev G) (g_pr G) (g_lv G) (g_hl G ∖ {[c]})) p.

Lemma gunlinked_ok hs G c cn p pn ck :
  hinv ps eagle hs G -> lns G !! c = Some cn -> lns G !! p = Some pn -> hlive cn = false ->
  delete_pre ps eagle (gfull G) c (fsh cn) p (fsh pn) ck ->
  let G' := g_unlinked G c p pn ck in
  hinv ps eagle hs G' /\ trims G G' /\ lns G' = delete c (<[p := with_ch (delete ck (hs_ch pn)) pn]> (lns G)).
Proof.
  intros [HI Ho] Hc Hp Hl Hdl G'.
  pose proof (gunlink_lns _ _ _ _ Ho _ _ _ _ _ Hc Hp Hdl) as El. change (lns (g_unlink G c p pn ck)) with (lns G') in El.
  assert (p <> c) as Hpc by exact (delete_ne Hdl).
  pose proof (gunlink_hleaf _ _ _ _ Ho _ _ _ _ _ Hc Hp Hdl) as Hhl.
  pose proof (gunlink_hok _ _ _ _ Ho _ _ _ _ _ Hc Hp Hdl _ Hl Hhl) as H2.
  apply (grehl_ok _ _ _ _ _ p) in H2. split_and!; [split| |done].
  - assert (gfull G' = delete_abs (gfull G) c (fsh cn) p (fsh pn) ck) as ->; [|by apply (delete_inv Hdl)].
    rewrite <-(gunlink_full _ _ _ _ Ho _ _ _ _ _ Hc Hp Hdl Hl). done.
  - apply (hok2_hok _ _ _ _ _ H2); [done|set_solver].
  - constructor; try done.
    + intros i n' Hi. rewrite El in Hi. apply lookup_delete_Some in Hi as [Hic Hi].
      apply lookup_insert_Some in Hi as [[<- <-]|[Hip Hi]].
      * exists pn. split_and!; [done|done|]. intros ck' x Hx. simpl in Hx. by apply lookup_delete_Some in Hx as [_ ?].
      * exists n'. split_and!; [done|apply kept_refl|done].
    + intros i n Hi Hln. rewrite El. rewrite lookup_delete_ne by congruence.
      destruct (decide (i = p)) as [->|]; [rewrite lookup_insert_eq; eauto|rewrite lookup_insert_ne by done; eauto].
Qed.
End unlink.

(** ** [evict_host] *)

(** The part of the state that tree and pool operations leave alone. *)
Definition hctl {T B Page} (s : HiCache T B Page) :=
  (req_to_token (tree s), ongoing_write_through s, ongoing_load_back s, xfer s,
   (pol s, ongoing_prefetch s, ongoing_backup s, prefetch_loaded_tokens_by_reqid s, sto s)).

Lemma hrest_parts {T B Page} (s s' : HiCache T B Page) :
  hrest s' = hrest s -> hctl s' = hctl s /\ kv_pool (tree s') = kv_pool (tree s) /\ host s' = host s.
Proof. unfold hrest, hctl. intros E. injection E. intros. split_and!; congruence. Qed.

Lemma evicted_no_status G p pn :
  p ∉ g_un G -> g_ns G !! p = Some pn -> hlive pn = false -> hs_lock pn = 0 -> hs_ch pn = ∅ -> hleaf_at (g_un G) (g_ns G) p = true.
Proof.
  intros Hu Hg Hl Hk Hc. unfold hleaf_at. rewrite bool_decide_eq_true_2, Hg by done. simpl.
  unfold g_hleaf. rewrite Hl, Hk, no_child by done. done.
Qed.

Section host.
Context {T : Type} `{!KVAllocator T} {H : Type} `{!HeapQ H} {B Page : Type}.
Context (cfg : Config) (sha256 : list Z -> string).
Context (Hps : (0 < cfg_page_size cfg)%nat) (Hevents : enable_kv_cache_events cfg = false) (Hdis : disable cfg = false).
Local Abbreviation Hi := (HiCache T B Page).
Local Abbreviation ps := (cfg_page_size cfg).
Local Abbreviation eagle := (is_eagle cfg).
Context (D L : list Z).
Implicit Types s : Hi.

(** Invariant and resources of a state. *)
Record hstate (hs : list nat) (held hheld : list Z) (s : Hi) : Prop := mkHstate {
  hz_inv : hinv ps eagle hs (habs s);
  hz_res : res ps D L held hheld (habs s) (kv_pool (tree s)) (host s) }.

Definition heap_ids (h : H) : list nat := he_node <$> heap_items h.

Lemma entries_nodup (ns : gmap nat TreeNode) l :
  NoDup l -> NoDup (he_node <$> omap (fun id => entry_of_node cfg id <$> ns !! id) l).
Proof.
  intros Hnd. induction Hnd as [|i l Hi Hnd IH]; simpl; [constructor|].
  destruct (ns !! i) as [n|]; simpl; [|done]. constructor; [|done].
  rewrite list_elem_of_fmap. intros (e & Ee & (j & Hj & He)%list_elem_of_omap).
  destruct (ns !! j); [|done]. injection He as <-. simpl in Ee. by subst.
Qed.

(** The nodes of the heap are host leaves not popped so far ([R]); what was popped and is
    still linked is a host leaf, so no parent of a leaf was. *)
Record hheap (G : HAbs) (h : H) (R : gset nat) : Prop := mkHheap {
  hh_nodup : NoDup (heap_ids h);
  hh_leaf : forall i, i ∈ heap_ids h -> i ∈ g_hl G /\ i ∈ R;
  hh_popped : forall i, is_Some (lns G !! i) -> i ∉ R -> i ∈ g_hl G }.

Lemma hheap_pop G h e h' R :
  hheap G h R -> heappop h = Some (e, h') ->
  he_node e ∈ g_hl G /\ he_node e ∈ R /\ hheap G h' (R ∖ {[he_node e]}) /\ (he_node e ∉ heap_ids h').
Proof.
  intros [H1 H2 H3] [Hp _]%heappop_Some.
  assert (heap_ids h ≡ₚ he_node e :: heap_ids h') as E by (unfold heap_ids; by rewrite Hp). rewrite E in H1.
  apply NoDup_cons in H1 as [Hn H1]. destruct (H2 (he_node e)) as [H4 H5]; [rewrite E; left|]. split_and!; try done.
  constructor; [done| |].
  - intros i Hi. destruct (H2 i); [rewrite E; by right|]. split; [done|]. set_solver.
  - intros i Hi Hr. destruct (decide (i = he_node e)) as [->|]; [done|]. apply H3; [done|set_solver].
Qed.

Lemma hheap_unlink hs G h R c cn p pn ck :
  hinv ps eagle hs G -> hheap G h R -> c ∉ heap_ids h -> lns G !! c = Some cn -> lns G !! p = Some pn ->
  hlive cn = false -> delete_pre ps eagle (gfull G) c (fsh cn) p (fsh pn) ck ->
  hheap (g_unlinked G c p pn ck) h R /\ p ∈ R /\ (p ∉ heap_ids h) /\
  (hs_ch pn !! ck = Some c /\ (delete ck (hs_ch pn) = ∅ -> hlive pn = false -> p ∈ g_hl (g_unlinked G c p pn ck))).
Proof.
  intros HG [H1 H2 H3] Hch Hc Hp Hl Hdl. pose proof HG as [HI Ho]. pose proof (delete_ne Hdl) as Hpc.
  destruct (hok_evicted Ho _ _ Hc Hl) as (_ & Hcb & _).
  pose proof Hdl as [_ _ _ _ _ Hpar _ _ Hin _]. simpl in Hin.
  pose proof (not_hleaf ps eagle Hps hs G p pn ck c cn HG Hp Hin Hc Hcb) as Hpn.
  destruct (gunlinked_ok ps eagle Hps hs G c cn p pn ck HG Hc Hp Hl Hdl) as (HG' & HT & El).
  assert (forall j, j <> p -> j ∈ g_hl (g_unlinked G c p pn ck) <-> j ∈ g_hl G /\ j <> c) as Hother.
  { intros j Hj. unfold g_unlinked, g_rehl, set_status. simpl. destruct (hleaf_at _ _ _); set_solver. }
  assert (p ∉ heap_ids h) as Hph by (intros Hx; by apply H2 in Hx as [? _]).
  assert (p ∈ R) as HpR.
  { destruct (decide (p ∈ R)) as [|Hr]; [done|]. exfalso. apply Hpn, H3; eauto. }
  split_and!; [|done|done|done|].
  - constructor; [done| |].
    + intros i Hi. destruct (H2 i Hi) as [Hl1 Hr]. split; [|done]. apply Hother; [congruence|].
      split; [done|]. by intros ->.
    + intros i [n' Hi] Hr. rewrite El in Hi. apply lookup_delete_Some in Hi as [Hic Hi]. assert (i <> p) by congruence.
      rewrite lookup_insert_ne in Hi by done. apply Hother; [done|]. split; [|done]. apply H3; eauto.
  - intros Hemp Hpl. pose proof HG' as [_ Ho']. apply (hv_hl Ho'); [set_solver|].
    destruct (hok_evicted Ho _ _ Hp Hpl) as (_ & _ & Hlk). apply lns_lookup in Hp as [Hpu _].
    eapply evicted_no_status; [simpl; set_solver|simpl; apply lookup_insert_eq|done|done|done].
Qed.

Lemma hheap_push G h R e : hheap G h R -> he_node e ∈ g_hl G -> he_node e ∈ R -> he_node e ∉ heap_ids h ->
  hheap G (heappush e h) R.
Proof.
  intros [H1 H2 H3] Hl Hr Hn. assert (heap_ids (heappush e h) ≡ₚ he_node e :: heap_ids h) as E.
  { unfold heap_ids. by rewrite heappush_items. }
  constructor; [rewrite E; by apply NoDup_cons| |done]. intros i Hi. rewrite E in Hi. apply elem_of_cons in Hi as [->|]; auto.
Qed.

Lemma res_host_freed held hheld G G' a h c cn p pn ck v :
  lns G !! c = Some cn -> lns G !! p = Some pn -> p <> c ->
  lns G' = delete c (<[p := with_ch (delete ck (hs_ch pn)) pn]> (lns G)) ->
  hs_val cn = None -> hs_host cn = Some v ->
  res ps D L held hheld G a h -> res ps D L held hheld G' a (host_free v h).2.
Proof.
  intros Hc Hp Hne El Ev Eh HR. pose proof HR as [R1 R2 R3 R4 R5 R6 R7].
  eapply (res_remove ps D L held hheld G G' a h a (host_free v h).2 c cn p pn); try done.
  - unfold slot_list. by rewrite Ev.
  - unfold slot_list. rewrite Eh. simpl. apply Permutation_app_comm.
Qed.

Lemma evict_host_loop_ok hs held hheld fuel : forall s h num n0 R,
  hstate hs held hheld s -> hheap (habs s) h R -> (size R < fuel)%nat ->
  exists s', evict_host_loop cfg sha256 fuel num h n0 s = (Ret tt, s') /\ hstate hs held hheld s' /\
    trims (habs s) (habs s') /\ hctl s' = hctl s /\ kv_pool (tree s') = kv_pool (tree s).
Proof.
  induction fuel as [|fuel IH]; intros s h num n0 R [HG HR] Hh Hf; [lia|]. cbn [evict_host_loop].
  destruct (n0 <? num); [|exists s; split_and!; [done|done|apply trims_refl|done|done]].
  destruct (heappop h) as [[e h']|] eqn:Hpop; [|exists s; split_and!; [done|done|apply trims_refl|done|done]].
  destruct (hheap_pop _ _ _ _ _ Hh Hpop) as (Hc & HcR & Hh' & Hnew). set (c := he_node e) in *.
  destruct (hleaf_facts ps eagle Hps hs _ c HG Hc) as (cn & p & pn & ck & Hcn & Hpn & Hl & Hdl).
  pose proof HG as [HI Ho]. destruct (hok_evicted Ho _ _ Hcn Hl) as (Hr & Hb & _).
  assert (size (R ∖ {[c]}) < fuel)%nat as Hf'.
  { rewrite size_difference, size_singleton by set_solver. assert (size R <> 0)%nat; [|lia].
    intros E%size_empty_inv. set_solver. }
  rewrite hbind_get. rewrite bool_decide_eq_false_2 by done.
  pose proof Hcn as (cm & Hcm & Ecm & Hcu)%habs_linked. pose proof Hpn as (pm & Hpm & Epm & Hpu)%habs_linked.
  py_step (node_at_ok s c cm Hcm). rewrite evicted_live, Ecm, Hl. cbn [negb].
  destruct (0 <? host_ref_counter cm); [by apply (IH s h' num n0 (R ∖ {[c]}))|].
  assert (forall {A} (f : unit -> PyM Hi A), (on_tree (_record_remove_event cfg sha256 cm (Some CPU)) ≫= f) s = f tt s) as Erec.
  { intros A f. unfold mbind, PyM_bind, on_tree, _record_remove_event. rewrite Hevents. cbn. by rewrite hs_tree_id. }
  rewrite Erec. clear Erec.
  destruct (hs_host cn) as [hv|] eqn:Ehv; [|unfold hbacked in Hb; by rewrite Ehv in Hb].
  assert (host_value cm = Some hv) as Ehv' by (rewrite <-Ecm in Ehv; exact Ehv).
  assert (hs_val cn = None) as Evn by (unfold hlive in Hl; by destruct (hs_val cn)).
  rewrite Ehv', hbind_some. unfold ctl_evict_host at 1. rewrite hbind_assoc. unfold hi_host_free. rewrite hbind_modify.
  rewrite hbind_ret. set (s1 := HiRadix.hs_host _ s).
  pose proof Hdl as [_ _ _ _ _ Dp _ Dck Din _]. pose proof (delete_ne Hdl) as Hpc.
  rewrite <-Ecm in Dp, Dck. rewrite <-Epm in Din. simpl in Dp, Dck, Din. rewrite Dck, hbind_lift, Dp, hbind_some.
  assert (nodes (tree s1) !! p = Some pm) as Hpm1 by done. py_step (node_at_ok s1 p pm Hpm1).
  run_update pm by done. set (s2 := hnodes _ s1).
  rewrite bool_decide_eq_true_2 by done. rewrite (py_bind_Ret (py_assert true) _ s2 tt s2 eq_refl).
  rewrite !hbind_modify. set (s3 := hs_leaves _ _).
  set (pm' := set_children (delete ck (children pm)) pm).
  assert (nodes (tree s3) !! p = Some pm') as Hpm3 by (simpl; apply lookup_insert_eq).
  destruct (host_status_ok s3 p pm' Hpm3) as (s4 & E4 & A4 & R4 & N4); [simpl; set_solver|]. py_step E4.
  assert (habs s4 = g_unlinked (habs s) c p pn ck) as A4'.
  { rewrite A4. unfold g_unlinked. f_equal. unfold habs at 1. simpl. rewrite fmap_insert, <-Epm. done. }
  assert (nodes (tree s4) !! p = Some pm') as Hpm4 by (by rewrite N4). py_step (node_at_ok s4 p pm' Hpm4).
  destruct (gunlinked_ok ps eagle Hps hs _ c cn p pn ck HG Hcn Hpn Hl Hdl) as (HG4 & HT4 & El). rewrite <-A4' in HG4, HT4, El.
  destruct (hheap_unlink hs _ h' _ c cn p pn ck HG Hh' Hnew Hcn Hpn Hl Hdl) as (Hh4 & HpR & Hph & _ & Hpush).
  rewrite <-A4' in Hh4, Hpush. apply hrest_parts in R4 as (C4 & K4 & Ho4).
  assert (res ps D L held hheld (habs s4) (kv_pool (tree s4)) (host s4)) as HR4.
  { rewrite K4, Ho4. change (host s3) with (host_free hv (host s)).2. change (kv_pool (tree s3)) with (kv_pool (tree s)).
    by apply (res_host_freed held hheld (habs s) (habs s4) _ _ c cn p pn ck hv). }
  destruct (IH s4 (if bool_decide (children pm' = ∅) && evicted pm' then heappush (entry_of_node cfg p pm') h' else h')
    num (n0 + len hv) (R ∖ {[c]})) as (s5 & E5 & H5 & T5 & C5 & K5); [done| |done|].
  { destruct (bool_decide (children pm' = ∅) && evicted pm') eqn:Ep; [|done].
    apply andb_true_iff in Ep as [Ep1%bool_decide_eq_true Ep2]. apply hheap_push; [done| |done|done]. simpl.
    apply Hpush; rewrite <-Epm; [exact Ep1|]. rewrite evicted_live in Ep2. by apply negb_true_iff in Ep2. }
  exists s5. split_and!; [done|done|by eapply trims_trans|by rewrite C5, C4|by rewrite K5, K4].
Qed.

Lemma evict_host_ok hs held hheld s num :
  hstate hs held hheld s ->
  exists s', evict_host (H := H) cfg sha256 num s = (Ret tt, s') /\ hstate hs held hheld s' /\
    trims (habs s) (habs s') /\ hctl s' = hctl s /\ kv_pool (tree s') = kv_pool (tree s).
Proof.
  intros HS. unfold evict_host. rewrite hbind_get.
  apply (evict_host_loop_ok hs held hheld _ s _ num 0 (dom (lns (habs s)))); [done| |].
  - assert (heap_ids (heapify (host_leaf_entries cfg s)) ≡ₚ he_node <$> host_leaf_entries cfg s) as E.
    { unfold heap_ids. by rewrite heapify_items. }
    constructor.
    + rewrite E. apply entries_nodup, NoDup_elements.
    + intros i Hi. rewrite E in Hi. apply list_elem_of_fmap in Hi as (e & -> & (j & Hj & He)%list_elem_of_omap).
      apply elem_of_elements in Hj. destruct (nodes (tree s) !! j); [|done]. injection He as <-. simpl. split; [done|].
      destruct (hleaf_facts ps eagle Hps hs _ j (hz_inv _ _ _ _ HS) Hj) as (cn & _ & _ & _ & Hcn & _).
      apply elem_of_dom. eauto.
    + intros i [n Hn] Hi. exfalso. apply Hi, elem_of_dom. eauto.
  - apply Nat.lt_succ_r. rewrite <-(size_dom (nodes (tree s))). apply subseteq_size. intros i [n Hn]%elem_of_dom.
    apply habs_linked in Hn as (m & Hm & _). apply elem_of_dom. eauto.
Qed.

(** ** The invariant of the cache *)

(** Handles of users [uh], of ongoing writes and of ongoing loads. *)
Definition all_handles (uh : list nat) (s : Hi) : list nat :=
  uh ++ elements (ongoing_write_through s) ++ elements (ongoing_load_back s).

(** The acknowledgements to come are those of the ongoing transfers, and a node that is being
    written has its host slots. *)
Record hgood (uh : list nat) (held hheld : list Z) (s : Hi) : Prop := mkHgood {
  gd_state : hstate (all_handles uh s) held hheld s;
  gd_queue : write_queue (xfer s) = [];
  gd_writes : concat (ack_node_ids <$> ack_write_queue (xfer s)) ≡ₚ elements (ongoing_write_through s);
  gd_loads : concat (co_node_ids <$> load_queue (xfer s)) ++ concat (ack_node_ids <$> ack_load_queue (xfer s))
               ≡ₚ elements (ongoing_load_back s);
  gd_backed : forall i, i ∈ ongoing_write_through s -> exists n, lns (habs s) !! i = Some n /\ hbacked n = true;
  gd_policy : is_write_back s = false;
  gd_storage : enable_storage (pol s) = false }.

Lemma hctl_parts s s' : hctl s' = hctl s ->
  ongoing_write_through s' = ongoing_write_through s /\ ongoing_load_back s' = ongoing_load_back s /\
  xfer s' = xfer s /\ pol s' = pol s.
Proof. unfold hctl. intros E. injection E. done. Qed.

Lemma hinv_perm hs hs' G : hs ≡ₚ hs' -> hinv ps eagle hs G -> hinv ps eagle hs' G.
Proof.
  intros Hp [[I1 [I2 I3] I4 I5] Ho]. split; [|done]. constructor; try done. split.
  - intros h Hh. apply I2. by rewrite Hp.
  - intros i n Hi Hr. rewrite <-(handles_at_perm _ _ i Hp). auto.
Qed.

(** Operations that leave the transfers alone. *)
Lemma hgood_frame uh uh' held hheld held' hheld' s s' :
  hgood uh held hheld s -> hctl s' = hctl s -> hstate (all_handles uh' s) held' hheld' s' ->
  (forall i n, i ∈ ongoing_write_through s -> lns (habs s) !! i = Some n -> hbacked n = true ->
     exists n', lns (habs s') !! i = Some n' /\ hbacked n' = true) ->
  hgood uh' held' hheld' s'.
Proof.
  intros [G1 G2 G3 G4 G5 G6 G7] (E1 & E2 & E3 & E4)%hctl_parts HS Hb.
  constructor; unfold all_handles, is_write_back in *; rewrite ?E1, ?E2, ?E3, ?E4; try done.
  intros i Hi. destruct (G5 i Hi) as (n & Hn & Hbn). by apply (Hb i n).
Qed.

(** A handle is a live node. *)
Lemma handle_live hs G i : hinv ps eagle hs G -> i ∈ hs -> exists n, lns G !! i = Some n /\ hlive n = true.
Proof.
  intros [HI Ho] Hi. destruct (proj1 (inv_l _ _ _ _ HI) i Hi) as [m (n & Hn & <-)%gfull_lookup].
  exists n. split; [done|]. destruct (hlive n) eqn:E; [done|].
  destruct (hok_evicted Ho _ _ Hn E) as (Hr & _ & Hlk).
  pose proof (handle_locks_path cfg hs (gfull G) None i [] [] i (fsh n) HI Hi (path_nil _ _ _ _ (gfull_lookup_1 _ _ _ Hn)) Hr
    (gfull_lookup_1 _ _ _ Hn)) as Hpos. simpl in Hpos. lia.
Qed.

(** ** What is on the device stays there *)

Definition keeps (G G' : HAbs) : Prop :=
  g_root G' = g_root G /\
  forall ek us vs b bn, path (gfull G) ek (g_root G) us vs b -> lns G !! b = Some bn -> hlive bn = true ->
    path (gfull G') ek (g_root G) us vs b /\ exists bn', lns G' !! b = Some bn' /\ hlive bn' = true.

Lemma keeps_refl G : keeps G G.
Proof. split; [done|]. eauto. Qed.
Lemma keeps_trans G G1 G2 : keeps G G1 -> keeps G1 G2 -> keeps G G2.
Proof.
  intros [R1 K1] [R2 K2]. split; [congruence|]. intros ek us vs b bn Hp Hb Hl.
  destruct (K1 ek us vs b bn Hp Hb Hl) as (Hp1 & bn1 & Hb1 & Hl1). rewrite R1 in K2. eauto.
Qed.

Lemma path_live Y G ek a us vs b bn :
  hok ps eagle Y G -> path (gfull G) ek a us vs b -> lns G !! b = Some bn -> hlive bn = true ->
  exists n, lns G !! a = Some n /\ hlive n = true.
Proof.
  intros Ho Hp. induction Hp as [i n Hi|i n ck c cn v us vs j Hi Hch Hcn He Hv Hp IH]; intros Hb Hl; [eauto|].
  destruct (IH Hb Hl) as (cn' & Hc' & Hcl). apply gfull_lookup in Hi as (n0 & Hi & <-).
  destruct (hok_child Ho i n0 ck c Hi Hch) as (cn1 & Hc1 & Hcr & Hpar & _).
  exists n0. split; [done|]. assert (cn1 = cn') as -> by congruence. by apply (to_live (hv_tier Ho _ _ Hc' Hcr) Hcl i n0).
Qed.

(** Live nodes with their parents, keys and indices in place keep the paths to them. *)
Definition live_kept (G G' : HAbs) : Prop :=
  forall i n, lns G !! i = Some n -> hlive n = true -> exists n', lns G' !! i = Some n' /\
    hs_par n' = hs_par n /\ hs_key n' = hs_key n /\ hs_val n' = hs_val n.

Lemma live_kept_path Y Y' G G' ek a us vs b :
  hok ps eagle Y G -> hok ps eagle Y' G' -> g_root G' = g_root G -> live_kept G G' ->
  path (gfull G) ek a us vs b -> forall bn, lns G !! b = Some bn -> hlive bn = true -> path (gfull G') ek a us vs b.
Proof.
  intros Ho Ho' Hr Hn Hp.
  induction Hp as [i n Hi|i n ck c cn v us vs j Hi Hch Hcn He Hv Hp IH]; intros bn Hb Hl.
  - destruct (Hn i bn Hb Hl) as (bn' & Hb' & _). by eapply path_nil, gfull_lookup_1.
  - specialize (IH bn Hb Hl). destruct (path_live Y G ek c us vs j bn Ho Hp Hb Hl) as (cn0 & Hc0 & Hcl).
    assert (cn = fsh cn0) as -> by (apply gfull_lookup_1 in Hc0; congruence).
    apply gfull_lookup in Hi as (n0 & Hi & <-). destruct (hok_child Ho i n0 ck c Hi Hch) as (cn1 & Hc1 & Hcr & Hpar & Hck).
    assert (cn1 = cn0) as -> by congruence. destruct (Hn c cn0 Hc0 Hcl) as (cn' & Hc' & P1 & P2 & P3).
    rewrite <-Hr in Hcr. destruct (hok_parent Ho' c cn' Hc' Hcr) as (q & qn & ck' & Q1 & Q2 & Q3 & Q4 & _).
    assert (q = i) as -> by congruence. assert (ck' = ck) as -> by congruence.
    change (sh_key (fsh cn0)) with (hs_key cn0). rewrite <-P2.
    eapply (path_cons _ _ i (fsh qn) ck c (fsh cn')); [by apply gfull_lookup_1|done|by apply gfull_lookup_1| | |done].
    + simpl in *. congruence.
    + simpl in *. rewrite <-Hv. unfold tier_val, hlive in *. rewrite P3. by destruct (hs_val cn0).
Qed.

Lemma keeps_nodes Y Y' G G' :
  hok ps eagle Y G -> hok ps eagle Y' G' -> g_root G' = g_root G -> live_kept G G' -> keeps G G'.
Proof.
  intros Ho Ho' Hr Hn. split; [done|]. intros ek us vs b bn Hp Hb Hl. split; [by apply (live_kept_path Y Y' G G' ek _ us vs b Ho Ho' Hr Hn Hp bn)|].
  destruct (Hn b bn Hb Hl) as (bn' & Hb' & _ & _ & E). exists bn'. split; [done|]. unfold hlive in *. by rewrite E.
Qed.

Lemma keeps_trims Y Y' G G' : hok ps eagle Y G -> hok ps eagle Y' G' -> trims G G' -> keeps G G'.
Proof.
  intros Ho Ho' HT. apply (keeps_nodes Y Y'); [done|done|apply HT|]. intros i n Hi Hlv.
  destruct (trims_live _ _ _ _ HT Hi Hlv) as (n' & Hn' & K). destruct K as (K1 & K2 & K3 & _). by exists n'.
Qed.

Lemma keeps_tiers Y Y' G G' : hok ps eagle Y G -> hok ps eagle Y' G' -> same_tiers G G' -> keeps G G'.
Proof.
  intros Ho Ho' HT. apply (keeps_nodes Y Y'); [done|done|apply HT|]. intros i n Hi Hlv.
  destruct (same_tiers_lookup _ _ _ _ HT Hi) as (n' & Hn' & _ & E1 & E2 & E3 & _). eauto 10.
Qed.
End host.
