(* ===== verification/HiBackup.v ===== *)
(** * Write-through to the host

    [write_backup] allocates host slots for a node on the device and queues the copy; the node
    is locked until the copy is acknowledged by [writing_check].  [_inc_hit_count] starts a
    backup when a node has been hit often enough. *)

From stdpp Require Import base tactics list gmap strings.
From Stdlib Require Import ZArith Lia.
From S2P Require Import Prelude PyStr RadixKey TreeNode EvictPolicy Allocator AllocatorProofs KVEvents.
From S2P Require Import RadixTree RadixInv RadixPaths RadixSlots RadixWalk RadixProofs RadixLocks ReqPool.
From S2P Require Import HiController HiRadix HiInv HiPrims HiProofs HiLocks HiRes HiHost.

Lemma elements_add (X : gset nat) i : i ∉ X -> elements (X ∪ {[i]}) ≡ₚ i :: elements X.
Proof. intros Hi. rewrite (comm_L (∪)). by apply elements_union_singleton. Qed.

Lemma elements_del (X : gset nat) i : i ∈ X -> elements X ≡ₚ i :: elements (X ∖ {[i]}).
Proof.
  intros Hi. rewrite <-elements_add by set_solver. f_equiv. intros j. destruct (decide (j = i)); set_solver.
Qed.

Section backup.
Context {T : Type} `{!KVAllocator T} {H : Type} `{!HeapQ H} {B Page : Type}.
Context (cfg : Config) (sha256 : list Z -> string).
Context (Hps : (0 < cfg_page_size cfg)%nat) (Hevents : enable_kv_cache_events cfg = false) (Hdis : disable cfg = false).
Context (D L : list Z).
Local Abbreviation Hi := (HiCache T B Page).
Local Abbreviation ps := (cfg_page_size cfg).
Local Abbreviation eagle := (is_eagle cfg).
Local Abbreviation hstate := (hstate cfg D L).
Local Abbreviation hgood := (hgood cfg D L).
Implicit Types s : Hi.

(** ** The host pool *)

Lemma aligned_mod (n : nat) (p : Z) : p = Z.of_nat ps -> aligned ps n -> Z.of_nat n mod p = 0.
Proof. intros -> Hal. rewrite <-Nat2Z.inj_mod. unfold aligned in Hal. by rewrite Hal. Qed.

Lemma hi_host_alloc_ok hs held hheld s (n : nat) :
  hstate hs held hheld s -> aligned ps n ->
  exists o s', hi_host_alloc (Z.of_nat n) s = (Ret o, s') /\
    match o with
    | None => s' = s
    | Some h => length h = n /\ hstate hs held (h ++ hheld) s' /\ habs s' = habs s /\ tree s' = tree s /\ hctl s' = hctl s
    end.
Proof.
  intros [HG HR] Hal. pose proof HR as [R1 R2 R3 R4 R5 R6 R7]. unfold hi_host_alloc, host_alloc.
  rewrite (aligned_mod n) by done. cbn [negb Z.eqb]. destruct (Z.ltb_spec (host_available_size (host s)) (Z.of_nat n)) as [|Hge].
  { exists None. eexists. split; [done|]. by destruct s. }
  eexists (Some _), _. split; [done|]. unfold ztake, zdrop. rewrite Nat2Z.id.
  unfold host_available_size, len in Hge. split_and!; [rewrite length_take; lia| |done|done|done]. split; [done|].
  constructor; try done. simpl. rewrite <-R7.
  transitivity (hslots (habs s) ++ hheld ++ (take n (h_free (host s)) ++ drop n (h_free (host s))));
    [solve_Permutation|by rewrite take_drop].
Qed.

(** The acknowledgement of a copy started at once. *)
Definition push_ack (id : nat) (x : Transfers) : Transfers :=
  mkTransfers [] (load_queue x) (ack_write_queue x ++ [mkAck (co_counter x) [id]]) (ack_load_queue x)
    (S (co_counter x)) (producer_index x) (consumer_index x).

Lemma ctl_write_ok hs held hheld s v id :
  hstate hs held hheld s -> aligned ps (length v) -> write_queue (xfer s) = [] ->
  exists o s', ctl_write v id s = (Ret o, s') /\
    match o with
    | None => s' = s
    | Some h => length h = length v /\ hstate hs held (h ++ hheld) s' /\ habs s' = habs s /\ tree s' = tree s /\
        hctl s' = hctl (hs_xfer (push_ack id (xfer s)) s)
    end.
Proof.
  intros HS Hal Hq. destruct (hi_host_alloc_ok hs held hheld s (length v) HS Hal) as (o & s1 & E1 & H1).
  unfold ctl_write. change (len v) with (Z.of_nat (length v)). py_step E1.
  destruct o as [h|]; [|by exists None, s1]. destruct H1 as (Hlen & HS1 & A1 & Tr1 & C1).
  pose proof (hctl_parts _ _ C1) as (_ & _ & X1 & _).
  eexists (Some h), _. split.
  { unfold on_xfer, mbind, PyM_bind, new_CacheOperation, py_modify, start_writing, merge_ops, py_get. cbn.
    rewrite X1, Hq. cbn. unfold mret, PyM_ret. reflexivity. }
  destruct HS1 as [HG1 HR1]. split_and!; [done|by split|done|done|]. unfold hctl in *. simpl.
  injection C1 as -> -> -> _ -> -> -> -> ->. done.
Qed.

(** ** Backing up a node *)

Lemma parent_not_backuped_ok Y s i m p pn :
  hok ps eagle Y (habs s) -> nodes (tree s) !! i = Some m -> lns (habs s) !! i = Some (hshape m) ->
  parent m = Some p -> lns (habs s) !! p = Some pn ->
  parent_not_backuped m s = (Ret (negb (hbacked pn)), s).
Proof.
  intros Ho Hm Hi Hp Hpn. unfold parent_not_backuped. rewrite hbind_get.
  destruct (hv_root Ho) as (r & Hr & _ & Hh). case_bool_decide as E.
  - assert (p = g_root (habs s)) as -> by (simpl in *; congruence). assert (r = pn) as -> by congruence.
    unfold hbacked. rewrite Hh. done.
  - rewrite Hp, hbind_some. pose proof Hpn as (pm & Hpm & <- & _)%habs_linked.
    by rewrite (py_bind_Ret _ _ _ _ _ (node_at_ok s p pm Hpm)).
Qed.

(** The node takes the host slots that were allocated for it. *)
Lemma set_host_ok hs held hheld s i m p pn h :
  hstate hs held (h ++ hheld) s -> nodes (tree s) !! i = Some m -> lns (habs s) !! i = Some (hshape m) ->
  i <> root_node (tree s) -> hlive (hshape m) = true -> hbacked (hshape m) = false ->
  parent m = Some p -> lns (habs s) !! p = Some pn -> hbacked pn = true -> length h = key_len (key m) ->
  exists s', update_at i (set_host_value (Some h)) s = (Ret tt, s') /\ hstate hs held hheld s' /\ hctl s' = hctl s /\
    lns (habs s') = <[i := with_host (Some h) (hshape m)]> (lns (habs s)) /\ g_root (habs s') = g_root (habs s) /\
    g_ctr (habs s') = g_ctr (habs s) /\ g_ev (habs s') = g_ev (habs s) /\ g_pr (habs s') = g_pr (habs s).
Proof.
  intros [[HI Ho] HR] Hm Hi Hr Hlv Hb Hp Hpn Hpb Hlen.
  destruct (ghost_hok ps eagle ∅ (habs s) i (hshape m) p pn h Ho Hi Hr Hlv Hp Hpn Hpb Hlen) as [Ho' Hf].
  set (G' := g_put _ _ _ _ _ _ _) in *. eexists. split; [by apply update_at_ok|].
  set (s' := hnodes _ s). assert (habs s' = G') as A' by (unfold habs at 1; simpl; by rewrite fmap_insert).
  assert (lns G' = <[i := with_host (Some h) (hshape m)]> (lns (habs s))) as El by (by eapply gput_lns).
  rewrite A'. split_and!; try done. split.
  - rewrite A'. split; [by rewrite Hf|done].
  - rewrite A'. pose proof HR as [R1 R2 R3 R4 R5 R6 R7].
    assert (host_value m = None) as Ehm by (unfold hbacked in Hb; simpl in Hb; by destruct (host_value m)).
    eapply (res_put ps D L held (h ++ hheld) held hheld _ _ _ _ _ _ i (hshape m)); try done.
    + intros v Hv. by apply (R5 i (hshape m)).
    + unfold slot_list. simpl. rewrite Ehm. simpl. solve_Permutation.
Qed.

(** What a backup may change: the indices and lock counts of other nodes stay, host-only
    nodes may go. *)
Definition backs (G G' : HAbs) : Prop :=
  g_root G' = g_root G /\ live_kept G G' /\
  (forall i n', lns G' !! i = Some n' -> exists n, lns G !! i = Some n /\ hs_par n' = hs_par n /\
     hs_key n' = hs_key n /\ hs_val n' = hs_val n /\ (hbacked n = true -> hbacked n' = true) /\
     (hlive n = false -> hs_host n' = hs_host n)).

Lemma backs_refl G : backs G G.
Proof. split_and!; [done| |]; intros i n Hi; eauto 10. Qed.

Lemma backs_trans G G1 G2 : backs G G1 -> backs G1 G2 -> backs G G2.
Proof.
  intros (R1 & K1 & B1) (R2 & K2 & B2). split_and!; [congruence| |].
  - intros i n Hi Hlv. destruct (K1 i n Hi Hlv) as (n1 & H1 & P1 & P2 & P3).
    destruct (K2 i n1 H1) as (n2 & H2 & Q1 & Q2 & Q3); [unfold hlive in *; by rewrite P3|].
    exists n2. split_and!; congruence.
  - intros i n2 H2. destruct (B2 i n2 H2) as (n1 & H1 & Q1 & Q2 & Q3 & Q4 & Q5).
    destruct (B1 i n1 H1) as (n & Hn & P1 & P2 & P3 & P4 & P5). exists n.
    split_and!; try congruence; [auto|]. intros Hlv. rewrite Q5, P5; [done|done|]. unfold hlive in *. by rewrite P3.
Qed.

Lemma backs_trims G G' : trims G G' -> backs G G'.
Proof.
  intros HT. split_and!; [apply HT| |].
  - intros i n Hi Hlv. destruct (trims_live _ _ _ _ HT Hi Hlv) as (n' & Hn' & K1 & K2 & K3 & _). eauto.
  - intros i n' Hi. destruct (tr_node _ _ HT i n' Hi) as (n & Hn & (K1 & K2 & K3 & K4 & _) & _).
    exists n. split_and!; try done. unfold hbacked. by rewrite K4.
Qed.

Lemma backs_tiers G G' : same_tiers G G' -> backs G G'.
Proof.
  intros HS. split_and!; [apply HS| |].
  - intros i n Hi _. destruct (same_tiers_lookup _ _ _ _ HS Hi) as (n' & ? & _ & ? & ? & ? & _). eauto.
  - intros i n' Hi. destruct (same_tiers_lookup _ _ _ _ (same_tiers_sym _ _ HS) Hi) as (n & Hn & _ & P1 & P2 & P3 & P4).
    exists n. split_and!; try done. unfold hbacked. by rewrite P4.
Qed.

Lemma backs_keeps Y Y' G G' : hok ps eagle Y G -> hok ps eagle Y' G' -> backs G G' -> keeps G G'.
Proof. intros Ho Ho' (H1 & H2 & _). by apply (keeps_nodes cfg Y Y'). Qed.

Lemma backs_host G G' i n h :
  lns G !! i = Some n -> hlive n = true -> hbacked n = false -> g_root G' = g_root G ->
  lns G' = <[i := with_host (Some h) n]> (lns G) -> backs G G'.
Proof.
  intros Hi Hlv Hb Hr El. split_and!; [done| |].
  - intros j m Hj _. rewrite El. destruct (decide (j = i)) as [->|].
    + rewrite lookup_insert_eq. eexists. split; [done|]. assert (m = n) as -> by congruence. done.
    + rewrite lookup_insert_ne by done. eauto.
  - intros j m Hj. rewrite El in Hj. apply lookup_insert_Some in Hj as [[<- <-]|[_ Hj]].
    + exists n. split_and!; try done. congruence.
    + exists m. done.
Qed.

(** A node that may be backed up. *)
Record backup_pre (s : Hi) (i : nat) (m : TreeNode) : Prop := mkBackupPre {
  bp_node : nodes (tree s) !! i = Some m;
  bp_linked : lns (habs s) !! i = Some (hshape m);
  bp_root : i <> root_node (tree s);
  bp_live : hlive (hshape m) = true;
  bp_fresh : hbacked (hshape m) = false }.

Definition backup_tail (i : nat) (h : list Z) : PyM Hi Z :=
  _ ← update_at i (set_host_value (Some h));
  _ ← py_assert (negb (length h =? 0)%nat);
  _ ← py_modify (fun s => hs_writes (ongoing_write_through s ∪ {[i]}) s);
  _ ← hi_inc_lock_ref cfg i;
  mret (len h).

Lemma backup_tail_ok uh held hheld s s1 i m p pn h :
  hgood uh held hheld s -> backup_pre s i m -> parent m = Some p -> lns (habs s) !! p = Some pn -> hbacked pn = true ->
  length h = key_len (key m) -> hstate (all_handles uh s) held (h ++ hheld) s1 -> habs s1 = habs s ->
  hctl s1 = hctl (hs_xfer (push_ack i (xfer s)) s) -> nodes (tree s1) !! i = Some m ->
  exists s', backup_tail i h s1 = (Ret (len h), s') /\ hgood uh held hheld s' /\ backs (habs s) (habs s').
Proof.
  intros [G1 G2 G3 G4 G5 G6 G7] [B1 B2 B3 B4 B5] Hp Hpn Hpb Hlen HS1 A1 C1 N1.
  pose proof (hctl_parts _ _ C1) as (W1 & O1 & X1 & P1). simpl in W1, O1, X1, P1.
  pose proof (hok_key_pos (proj2 (hz_inv _ _ _ _ _ _ _ G1)) i _ B2 B3) as Hpos. simpl in Hpos.
  destruct (set_host_ok (all_handles uh s) held hheld s1 i m p pn h) as (s2 & E2 & HS2 & C2 & El & Er & _);
    [done|done|by rewrite A1|by change (i <> g_root (habs s1)); rewrite A1|done|done|done|by rewrite A1|done|done|].
  unfold backup_tail. py_step E2. rewrite (proj2 (Nat.eqb_neq (length h) 0)) by lia.
  rewrite (py_bind_Ret (py_assert true) _ s2 tt s2 eq_refl), hbind_modify. set (s3 := hs_writes _ s2).
  rewrite A1 in El, Er. assert (habs s3 = habs s2) as A3 by done. destruct HS2 as [HG2 HR2].
  assert (lns (habs s3) !! i = Some (with_host (Some h) (hshape m))) as Hi3 by (rewrite A3, El; apply lookup_insert_eq).
  destruct (hi_inc_lock_ref_ok cfg (all_handles uh s) s3 i _ Hdis HG2 Hi3 B4) as (s4 & E4 & HG4 & T4 & R4). py_step E4.
  exists s4. split; [done|]. apply hrest_parts in R4 as (C4 & K4 & Ho4).
  pose proof (hctl_parts _ _ C4) as (W4 & O4 & X4 & P4). pose proof (hctl_parts _ _ C2) as (W2 & O2 & X2 & P2).
  simpl in W4, O4, X4, P4. rewrite W2, W1 in W4. rewrite O2, O1 in O4. rewrite X2, X1 in X4. rewrite P2, P1 in P4.
  assert (i ∉ ongoing_write_through s) as Hnew.
  { intros Hin. destruct (G5 i Hin) as (n & Hn & Hb). congruence. }
  pose proof (elements_add _ _ Hnew) as Hel. split.
  - constructor.
    + split.
      * eapply hinv_perm; [|exact HG4]. unfold all_handles. rewrite W4, O4, Hel. solve_Permutation.
      * rewrite K4, Ho4. eapply res_locks; [exact T4|]. exact HR2.
    + by rewrite X4.
    + rewrite X4, W4. simpl. rewrite fmap_app, concat_app, G3, Hel. simpl. solve_Permutation.
    + by rewrite X4, O4.
    + intros j Hj. rewrite W4 in Hj. destruct (decide (j = i)) as [->|Hji].
      * destruct (same_tiers_lookup _ _ _ _ T4 Hi3) as (n' & Hn' & _ & _ & _ & _ & Eh). exists n'. split; [done|].
        unfold hbacked. by rewrite Eh.
      * destruct (G5 j) as (n & Hn & Hb); [set_solver|]. assert (lns (habs s3) !! j = Some n) as Hj3
          by (rewrite A3, El, lookup_insert_ne by done; done).
        destruct (same_tiers_lookup _ _ _ _ T4 Hj3) as (n' & Hn' & _ & _ & _ & _ & Eh). exists n'. split; [done|].
        unfold hbacked in *. by rewrite Eh.
    + unfold is_write_back. by rewrite P4.
    + by rewrite P4.
  - eapply backs_trans; [by apply (backs_host (habs s) (habs s3) i (hshape m) h)|]. by apply backs_tiers.
Qed.

Lemma trims_pre Y s s' i m :
  backup_pre s i m -> trims (habs s) (habs s') -> hok ps eagle Y (habs s') ->
  exists m', backup_pre s' i m' /\ parent m' = parent m /\ value m' = value m /\ key m' = key m.
Proof.
  intros [B1 B2 B3 B4 B5] HT Ho. destruct (trims_live _ _ _ _ HT B2 B4) as (n' & Hn' & K).
  pose proof Hn' as (m' & Hm' & <- & _)%habs_linked. destruct K as (K1 & K2 & K3 & K4 & K5). simpl in *.
  exists m'. split_and!; try done. constructor; try done.
  - change (i <> g_root (habs s')). by rewrite (tr_root _ _ HT).
  - unfold hlive in *. simpl in *. by rewrite K3.
  - unfold hbacked in *. simpl in *. by rewrite K4.
Qed.

Lemma write_backup_ok uh held hheld s i m :
  hgood uh held hheld s -> backup_pre s i m ->
  exists z s', write_backup (H := H) cfg sha256 i false s = (Ret z, s') /\ hgood uh held hheld s' /\
    backs (habs s) (habs s').
Proof.
  intros HG HB. pose proof HG as [[[HI Ho] HR] G2 _ _ _ _ _]. pose proof HB as [B1 B2 B3 B4 B5].
  destruct (hok_parent Ho i _ B2 B3) as (p & pn & ck & Hp & Hpn & _ & _ & Hne). simpl in Hp.
  unfold write_backup. py_step (node_at_ok s i m B1). cbn beta iota.
  rewrite (py_bind_Ret _ _ _ _ _ (parent_not_backuped_ok ∅ s i m p pn Ho B1 B2 Hp Hpn)).
  destruct (hbacked pn) eqn:Hpb; cbn [negb]; [|exists 0, s; split_and!; [done|done|apply backs_refl]].
  destruct (value m) as [v|] eqn:Hv; [|unfold hlive in B4; simpl in B4; by rewrite Hv in B4]. rewrite hbind_some.
  pose proof (to_val (hv_tier Ho _ _ B2 B3) v Hv) as Hvl. simpl in Hvl.
  assert (aligned ps (length v)) as Hal.
  { rewrite Hvl. exact (nk_aligned (it_node (hv_tree Ho) _ _ (gfull_lookup_1 _ _ _ B2) B3)). }
  destruct (ctl_write_ok _ held hheld s v i (gd_state _ _ _ _ _ _ _ HG) Hal G2) as (o & s1 & E1 & H1). py_step E1.
  destruct o as [h|].
  { destruct H1 as (Hlen & HS1 & A1 & Tr1 & C1). rewrite hbind_ret.
    destruct (backup_tail_ok uh held hheld s s1 i m p pn h) as (s' & E' & HG' & HB'); try done;
      [congruence|by rewrite Tr1|]. eauto. }
  subst s1. rewrite hbind_assoc.
  destruct (evict_host_ok (H := H) cfg sha256 Hps Hevents Hdis D L _ held hheld s (len v) (gd_state _ _ _ _ _ _ _ HG))
    as (s1 & E2 & HS1 & T1 & C1 & K1). py_step E2.
  assert (hgood uh held hheld s1) as HG1.
  { eapply hgood_frame; [done|done|done|]. intros j n Hj Hn Hb.
    destruct (handle_live cfg Hps _ (habs s) j (hz_inv _ _ _ _ _ _ _ (gd_state _ _ _ _ _ _ _ HG))) as (n0 & Hn0 & Hlv);
      [unfold all_handles; set_solver|]. assert (n0 = n) as -> by congruence.
    destruct (trims_live _ _ _ _ T1 Hn Hlv) as (n' & Hn' & (_ & _ & _ & K4 & _)). exists n'. split; [done|].
    unfold hbacked in *. by rewrite K4. }
  destruct (trims_pre ∅ s s1 i m HB T1 (proj2 (hz_inv _ _ _ _ _ _ _ HS1))) as (m1 & HB1 & Ep & Ev & Ek).
  pose proof HG1 as [_ G21 _ _ _ _ _].
  destruct (ctl_write_ok _ held hheld s1 v i (gd_state _ _ _ _ _ _ _ HG1) Hal G21) as (o & s2 & E3 & H2). py_step E3.
  destruct o as [h|]; [|subst s2; exists 0, s1; split_and!; [done|done|by apply backs_trims]].
  destruct H2 as (Hlen & HS2 & A2 & Tr2 & C2).
  assert (exists pn1, lns (habs s1) !! p = Some pn1 /\ hbacked pn1 = true) as (pn1 & Hpn1 & Hpb1).
  { destruct (hv_tier Ho _ _ B2 B3) as [_ _ _ _ T5 _]. pose proof (T5 B4 p pn Hp Hpn) as Hpl.
    destruct (trims_live _ _ _ _ T1 Hpn Hpl) as (pn1 & Hpn1 & (_ & _ & _ & K4 & _)). exists pn1. split; [done|].
    unfold hbacked in *. by rewrite K4. }
  destruct (backup_tail_ok uh held hheld s1 s2 i m1 p pn1 h) as (s' & E' & HG' & HB'); try done.
  - congruence.
  - congruence.
  - by rewrite Tr2, (bp_node _ _ _ HB1).
  - exists (len h), s'. split_and!; [done|done|]. eapply backs_trans; [by apply backs_trims|done].
Qed.

(** [_inc_hit_count] on a live node. *)
Lemma hi_inc_hit_count_ok uh held hheld s i m chunked :
  hgood uh held hheld s -> nodes (tree s) !! i = Some m -> lns (habs s) !! i = Some (hshape m) ->
  i <> root_node (tree s) -> hlive (hshape m) = true ->
  exists s', hi_inc_hit_count (H := H) cfg sha256 i chunked s = (Ret tt, s') /\ hgood uh held hheld s' /\
    backs (habs s) (habs s').
Proof.
  intros HG Hm Hi Hr Hlv. unfold hi_inc_hit_count. rewrite hbind_get, (gd_policy _ _ _ _ _ _ _ HG).
  destruct chunked; cbn [orb]; [exists s; split_and!; [done|done|apply backs_refl]|].
  set (m1 := set_hit_count (hit_count m + 1) m).
  destruct (update_quiet s i (fun n => set_hit_count (hit_count n + 1) n) m Hm) as (s1 & E1 & A1 & R1 & N1); [done|].
  py_step E1. assert (nodes (tree s1) !! i = Some m1) as Hm1 by (rewrite N1; apply lookup_insert_eq).
  py_step (node_at_ok s1 i m1 Hm1). apply hrest_parts in R1 as (C1 & K1 & Ho1).
  assert (hgood uh held hheld s1) as HG1.
  { destruct HG as [[HGi HRi] ? ? ? ? ? ?].
    eapply hgood_frame; [by constructor|done| |rewrite A1; eauto]. split; rewrite A1; [done|]. by rewrite K1, Ho1. }
  destruct (negb (backuped m1) && (write_through_threshold (pol s) <=? hit_count m1)) eqn:Eb;
    [|exists s1; rewrite A1; split_and!; [done|done|apply backs_refl]].
  apply andb_true_iff in Eb as [Eb%negb_true_iff _].
  destruct (write_backup_ok uh held hheld s1 i m1 HG1) as (z & s2 & E2 & HG2 & HB2).
  - constructor; [done|by rewrite A1|by change (i <> g_root (habs s1)); rewrite A1|done|exact Eb].
  - py_step E2. exists s2. rewrite <-A1. done.
Qed.
End backup.
