(* ===== verification/HiEvict.v ===== *)
(** * Eviction from the device

    [evict] takes unlocked leaves of the device tier: a leaf with a copy on the host loses
    its device indices and stays in the tree, one without is deleted.  Nodes on the host only
    and locked nodes are never touched ([sheds]). *)

From stdpp Require Import base tactics list gmap strings.
From Stdlib Require Import ZArith Lia.
From S2P Require Import Prelude PyStr RadixKey TreeNode EvictPolicy Allocator AllocatorProofs KVEvents.
From S2P Require Import RadixTree RadixInv RadixPaths RadixSlots RadixWalk RadixProofs RadixLocks ReqPool.
From S2P Require Import HiController HiRadix HiInv HiPrims HiProofs HiLocks HiRes HiHost.

(** ** What eviction may change *)

Record sheds (G G' : HAbs) : Prop := mkSheds {
  sd_root : g_root G' = g_root G;
  sd_ctr : g_ctr G' = g_ctr G;
  sd_kept : forall i n, lns G !! i = Some n -> hlive n = false \/ 0 < hs_lock n ->
    exists n', lns G' !! i = Some n' /\ kept n n';
  sd_back : forall i n', lns G' !! i = Some n' -> exists n, lns G !! i = Some n /\ hs_par n' = hs_par n /\
    hs_key n' = hs_key n /\ hs_host n' = hs_host n /\ hs_lock n' = hs_lock n /\ (hlive n' = true -> hs_val n' = hs_val n) }.

Lemma sheds_refl G : sheds G G.
Proof. constructor; try done; intros i n Hi; [|eauto 10]. intros _. exists n. split; [done|apply kept_refl]. Qed.

Lemma sheds_trans G G1 G2 : sheds G G1 -> sheds G1 G2 -> sheds G G2.
Proof.
  intros [R1 C1 K1 B1] [R2 C2 K2 B2]. constructor; [congruence|congruence| |].
  - intros i n Hi Hn. destruct (K1 i n Hi Hn) as (n1 & H1 & Ka).
    destruct (K2 i n1 H1) as (n2 & H2 & Kb).
    { pose proof (kept_live _ _ Ka). destruct Ka as (_ & _ & _ & _ & El). destruct Hn; [left; congruence|right; congruence]. }
    exists n2. split; [done|]. by eapply kept_trans.
  - intros i n2 H2. destruct (B2 i n2 H2) as (n1 & H1 & P1 & P2 & P3 & P4 & P5).
    destruct (B1 i n1 H1) as (n & Hn & Q1 & Q2 & Q3 & Q4 & Q5). exists n. split_and!; try congruence.
    intros Hlv. rewrite P5 by done. apply Q5. unfold hlive in *. by rewrite <-P5.
Qed.

(** One leaf [x] with parent [p] evicted. *)
Record shed1 (G G' : HAbs) (x p : nat) : Prop := mkShed1 {
  s1_sheds : sheds G G';
  s1_old : forall i n', lns G' !! i = Some n' -> exists n, lns G !! i = Some n /\
    (forall ck c, hs_ch n' !! ck = Some c -> hs_ch n !! ck = Some c) /\ (hlive n' = true -> hlive n = true /\ i <> x);
  s1_live : forall i n, lns G !! i = Some n -> i <> x -> hlive n = true -> exists n', lns G' !! i = Some n' /\ hlive n' = true;
  s1_lv : forall j, j ∈ g_lv G' -> j ∈ g_lv G \/ j = p }.

Definition no_live_child (G : HAbs) (n : HShape) : Prop :=
  forall ck c cn, hs_ch n !! ck = Some c -> lns G !! c = Some cn -> hlive cn = false.

Lemma shed1_no_live G G' x p i n n' :
  shed1 G G' x p -> lns G !! i = Some n -> lns G' !! i = Some n' -> no_live_child G n -> no_live_child G' n'.
Proof.
  intros HS Hi Hi' Hn ck c cn' Hc Hcn'. destruct (s1_old _ _ _ _ HS _ _ Hi') as (n0 & Hn0 & Hch & _).
  assert (n0 = n) as -> by congruence. destruct (s1_old _ _ _ _ HS _ _ Hcn') as (cn & Hcn & _ & Hlv).
  destruct (hlive cn') eqn:E; [|done]. destruct (Hlv eq_refl) as [Hl _].
  rewrite (Hn ck c cn (Hch _ _ Hc) Hcn) in Hl. done.
Qed.

Section evict.
Context {T : Type} `{!KVAllocator T} {H : Type} `{!HeapQ H} {B Page : Type}.
Context (cfg : Config) (sha256 : list Z -> string).
Context (Hps : (0 < cfg_page_size cfg)%nat) (Hevents : enable_kv_cache_events cfg = false).
Context (D L : list Z) (HD : NoDup D).
Local Abbreviation Hi := (HiCache T B Page).
Local Abbreviation ps := (cfg_page_size cfg).
Local Abbreviation eagle := (is_eagle cfg).
Local Abbreviation hstate := (hstate cfg D L).
Implicit Types s : Hi.

Lemma no_remove_event {A} (n : TreeNode) md (f : unit -> PyM Hi A) s :
  (on_tree (_record_remove_event cfg sha256 n md) ≫= f) s = f tt s.
Proof. unfold mbind, PyM_bind, on_tree, _record_remove_event. rewrite Hevents. cbn. by rewrite hs_tree_id. Qed.

(** Slots of a node given back to the device pool. *)
Lemma release_pool held hheld G a h i n v :
  res ps D L held hheld G a h -> lns G !! i = Some n -> hs_val n = Some v ->
  kv_ok (kv_free v a) /\ kv_page (kv_free v a) = Z.of_nat ps /\ kv_in_group (kv_free v a) = false /\
  kv_owned (kv_free v a) ≡ₚ v ++ kv_owned a.
Proof.
  intros [R1 R2 R3 R4 R5 R6 R7] Hi Hv. destruct (kv_free_spec v a) as (P1 & P2 & P3 & P4).
  - done.
  - rewrite R3. by apply (R5 i n).
  - assert (NoDup (dslots G ++ held ++ kv_owned a)) as Hnd by (by rewrite R6). unfold dslots in Hnd.
    rewrite (cat_delete hs_val (lns G) i n Hi) in Hnd. unfold slot_list in Hnd. rewrite Hv in Hnd. simpl in Hnd.
    assert (v ++ cat hs_val (delete i (lns G)) ++ held ++ kv_owned a ≡ₚ
      (kv_owned a ++ v) ++ cat hs_val (delete i (lns G)) ++ held) as E by solve_Permutation.
    rewrite <-(assoc_L (++)), E in Hnd. by apply NoDup_app in Hnd as (? & _).
  - split_and!; [done|congruence|congruence|]. rewrite P4. solve_Permutation.
Qed.

Lemma live_value m : hlive (hshape m) = true -> exists v, value m = Some v.
Proof. unfold hlive. simpl. destruct (value m); [eauto|done]. Qed.

(** ** A leaf with a copy on the host *)

Lemma evict_backuped_ok hs held hheld s x m p :
  hstate hs held hheld s -> x ∈ g_lv (habs s) -> nodes (tree s) !! x = Some m -> lns (habs s) !! x = Some (hshape m) ->
  hbacked (hshape m) = true -> parent m = Some p ->
  exists v s', value m = Some v /\ _evict_backuped cfg sha256 x s = (Ret (len v), s') /\ hstate hs held hheld s' /\
    hctl s' = hctl s /\ shed1 (habs s) (habs s') x p /\ g_ev (habs s') = g_ev (habs s) - len v /\
    length (kv_owned (kv_pool (tree s'))) = (length v + length (kv_owned (kv_pool (tree s))))%nat /\ host s' = host s.
Proof.
  intros [HG HR] Hx Hm Hi Hb Hp. pose proof HG as [HI Ho].
  destruct (leaf_facts ps eagle hs (habs s) HG x (hshape m) Hi Hx) as (Hlv & Hlk & Hr & Hch).
  destruct (hok_parent Ho x _ Hi Hr) as (p' & pn & ck & Hp' & Hpn & _ & _ & Hne). simpl in Hp'.
  assert (p' = p) as -> by congruence. destruct (live_value m Hlv) as [v Hv].
  pose proof (to_val (hv_tier Ho _ _ Hi Hr) v Hv) as Hvl. simpl in Hvl.
  pose proof (hok_key_pos Ho x _ Hi Hr) as Hpos. simpl in Hpos.
  exists v. unfold _evict_backuped. py_step (node_at_ok s x m Hm). rewrite no_remove_event, Hv, hbind_some.
  set (s1 := hs_tree (set_pool (kv_free v (kv_pool (tree s))) (tree s)) s).
  assert (evict_device v s = (Ret (len v), s1)) as E1 by done. py_step E1.
  rewrite (proj2 (Z.ltb_lt 0 (len v))) by (unfold len; lia). rewrite (py_bind_Ret (py_assert true) _ s1 tt s1 eq_refl).
  set (s2 := hs_tree (set_sizes (evictable_size_ (tree s1) - len v) (protected_size_ (tree s1)) (tree s1)) s1).
  assert (on_tree (py_modify (fun t => set_sizes (evictable_size_ t - len v) (protected_size_ t) t)) s1 = (Ret tt, s2)) as E2
    by done. py_step E2. run_update m by done. set (s3 := hnodes _ s2). set (m' := set_value None m).
  assert (nodes (tree s3) !! x = Some m') as Hm3 by (simpl; apply lookup_insert_eq).
  destruct (leaf_status_ok s3 x m' Hm3) as (s4 & E4 & A4 & R4 & N4). py_step E4.
  pose proof (proj1 (lns_lookup _ _ _) Hi) as [Hu _]. simpl in Hu.
  destruct (host_status_ok s4 x m') as (s5 & E5 & A5 & R5 & N5).
  { by rewrite N4. }
  { change (x ∉ g_un (habs s4)). rewrite A4. done. }
  py_step E5. rewrite Hp, hbind_some. pose proof Hpn as (pm & Hpm & Epm & Hpu)%habs_linked.
  destruct (leaf_status_ok s5 p pm) as (s6 & E6 & A6 & R6 & N6).
  { rewrite N5, N4. simpl. by rewrite lookup_insert_ne. }
  py_step E6. exists s6.
  destruct (gevict_hinv ps eagle hs (habs s) HG x (hshape m) Hi Hx Hb p pn Hp Hpn) as [HG' _].
  set (G' := g_put _ _ _ _ _ _ _) in HG'.
  assert (habs s6 = G') as A6'.
  { rewrite A6, A5, A4. unfold G', g_relv, g_rehl, g_put. simpl. rewrite !fmap_insert. unfold len. rewrite Hvl. done. }
  assert (lns G' = <[x := with_val None (hshape m)]> (lns (habs s))) as El by (by eapply gput_lns).
  assert (hrest s6 = hrest s3) as (C6 & K6 & Ho6)%hrest_parts by congruence.
  destruct (release_pool held hheld (habs s) _ _ x (hshape m) v HR Hi Hv) as (P1 & P2 & P3 & P4).
  rewrite A6', K6, Ho6, C6. split_and!; try done.
  - split; rewrite A6'; [done|]. rewrite K6, Ho6.
    eapply (res_put ps D L held hheld held hheld (habs s) _ _ _ _ _ x (hshape m)); try done; [apply HR|].
    unfold slot_list. simpl. rewrite Hv. simpl. change (kv_pool (tree s3)) with (kv_free v (kv_pool (tree s))). rewrite P4.
    solve_Permutation.
  - constructor.
    + constructor; try done.
      * intros i n Hn Hc. exists n. split; [|apply kept_refl]. rewrite El. rewrite lookup_insert_ne; [done|].
        intros <-. assert (n = hshape m) as -> by congruence. destruct Hc; [congruence|lia].
      * intros i n' Hn'. rewrite El in Hn'. apply lookup_insert_Some in Hn' as [[<- <-]|[_ Hn']]; [by exists (hshape m)|eauto 10].
    + intros i n' Hn'. rewrite El in Hn'. apply lookup_insert_Some in Hn' as [[<- <-]|[Hix Hn']].
      * exists (hshape m). done.
      * exists n'. done.
    + intros i n Hn Hix Hl. exists n. split; [|done]. by rewrite El, lookup_insert_ne by congruence.
    + intros j. simpl. unfold set_status. destruct (leaf_at _ p), (leaf_at _ x); set_solver.
  - unfold len. by rewrite Hvl.
  - change (kv_pool (tree s3)) with (kv_free v (kv_pool (tree s))). by rewrite P4, length_app.
Qed.

(** ** A leaf on the device only *)

Lemma on_tree_bind {A C} (m : PyM (Cache T) A) (f : A -> PyM (Cache T) C) s :
  on_tree (m ≫= f) s = (on_tree m ≫= fun a => on_tree (f a)) s.
Proof.
  unfold on_tree, mbind, PyM_bind. destruct (m (tree s)) as [[a|e|] t]; done.
Qed.
Lemma on_tree_lift {A} (o : Outcome A) s : on_tree (py_lift o) s = py_lift o s.
Proof. unfold on_tree, py_lift. by rewrite hs_tree_id. Qed.

Lemma on_tree_assert s : on_tree (py_assert true) s = (Ret tt, s).
Proof. unfold on_tree, py_assert. cbn. by rewrite hs_tree_id. Qed.

(** The tree after [_delete_leaf]. *)
Definition g_deleted (G : HAbs) (c : nat) (cn : HShape) (p : nat) (pn : HShape) (ck : ChildKey) : HAbs :=
  let G1 := g_delete G c cn p pn ck in
  g_relv (mkHAbs (g_ns G1) (g_un G) (g_root G) (g_ctr G) (g_ev G1) (g_pr G) (g_lv G ∖ {[c]}) (g_hl G)) p.

Lemma hdelete_leaf_ok s c cm p pm ck :
  nodes (tree s) !! c = Some cm -> nodes (tree s) !! p = Some pm -> p <> c ->
  child_key ps (key cm) = Ret ck -> parent cm = Some p -> children pm !! ck = Some c ->
  exists s', on_tree (_delete_leaf cfg c) s = (Ret tt, s') /\
    habs s' = g_deleted (habs s) c (hshape cm) p (hshape pm) ck /\ hrest s' = hrest s.
Proof.
  intros Hc Hp Hne Hck Hpar Hin. unfold _delete_leaf. rewrite on_tree_bind. py_step (node_at_ok s c cm Hc).
  rewrite Hck, Hpar, on_tree_bind. rewrite (py_bind_Ret _ _ s ck s) by (by rewrite on_tree_lift).
  rewrite on_tree_bind. rewrite (py_bind_Ret _ _ s p s) by (unfold of_option; exact (on_tree_lift (Ret p) s)).
  rewrite on_tree_bind. py_step (node_at_ok s p pm Hp). rewrite on_tree_bind.
  py_step (put_at_ok s p (set_children (delete ck (children pm)) pm)). set (s1 := hnodes _ s).
  rewrite on_tree_bind, bool_decide_eq_true_2 by done.
  py_step (on_tree_assert s1).
  rewrite !on_tree_bind. set (s2 := hs_tree (set_nodes (delete c (nodes (tree s1))) (tree s1)) s1).
  rewrite (py_bind_Ret _ _ s1 tt s2) by done. rewrite on_tree_bind.
  set (s3 := hs_tree (set_sizes (evictable_size_ (tree s2) - Z.of_nat (key_len (key cm))) (protected_size_ (tree s2)) (tree s2)) s2).
  rewrite (py_bind_Ret _ _ s2 tt s3) by done. rewrite on_tree_bind.
  set (s4 := hs_tree (set_leaves (evictable_leaves (tree s3) ∖ {[c]}) (tree s3)) s3).
  rewrite (py_bind_Ret _ _ s3 tt s4) by done.
  destruct (leaf_status_ok s4 p (set_children (delete ck (children pm)) pm)) as (s5 & E5 & A5 & R5 & _).
  { simpl. rewrite lookup_delete_ne by done. apply lookup_insert_eq. }
  exists s5. split_and!; [done| |done]. rewrite A5. unfold g_deleted. f_equal. unfold habs at 1. simpl.
  by rewrite fmap_delete, fmap_insert.
Qed.

Lemma gdeleted_ok hs G c cn p pn ck :
  hinv ps eagle hs G -> lns G !! c = Some cn -> lns G !! p = Some pn -> hlive cn = true ->
  delete_pre ps eagle (gfull G) c (fsh cn) p (fsh pn) ck ->
  let G' := g_deleted G c cn p pn ck in
  hinv ps eagle hs G' /\ lns G' = delete c (<[p := with_ch (delete ck (hs_ch pn)) pn]> (lns G)).
Proof.
  intros [HI Ho] Hc Hp Hlv Hdl G'. pose proof (gdelete_lns _ _ _ _ _ _ _ _ Hp Hdl) as El.
  pose proof (gdelete_hok _ _ _ _ Ho _ _ _ _ _ Hc Hp Hdl Hlv) as H2. apply (grelv_ok _ _ _ _ _ p) in H2.
  split; [split|done].
  - assert (gfull G' = delete_abs (gfull G) c (fsh cn) p (fsh pn) ck) as ->; [|by apply (delete_inv Hdl)].
    by rewrite <-(gdelete_full _ _ _ _ _ _ _ _ Hc Hp Hdl Hlv).
  - apply (hok2_hok _ _ _ _ _ H2); [set_solver|done].
Qed.

Lemma leaf_only_delete hs G x n :
  hinv ps eagle hs G -> x ∈ g_lv G -> lns G !! x = Some n -> hbacked n = false ->
  exists p pn ck, hs_par n = Some p /\ lns G !! p = Some pn /\ delete_pre ps eagle (gfull G) x (fsh n) p (fsh pn) ck.
Proof.
  intros HG Hx Hi Hb. pose proof HG as [HI Ho].
  destruct (leaf_facts ps eagle hs G HG x n Hi Hx) as (Hlv & Hlk & Hr & Hch).
  destruct (hok_parent Ho x n Hi Hr) as (p & pn & ck & Hp & Hpn & Hck & Hin & _).
  exists p, pn, ck. split_and!; try done. constructor; try done; [apply Ho|by apply gfull_lookup_1| |by apply gfull_lookup_1].
  simpl. destruct (decide (hs_ch n = ∅)) as [|(ck' & c & Hc)%map_choose]; [done|]. exfalso.
  destruct (hok_child Ho _ _ _ _ Hi Hc) as (cn & Hcn & Hcr & Hcp & _).
  pose proof (hv_tier Ho _ _ Hcn Hcr) as [_ _ T3 _ _ T6].
  rewrite (T6 (T3 (Hch _ _ _ Hc Hcn)) x n Hcp Hi) in Hb. done.
Qed.

Lemma evict_regular_ok hs held hheld s x m p :
  hstate hs held hheld s -> x ∈ g_lv (habs s) -> nodes (tree s) !! x = Some m -> lns (habs s) !! x = Some (hshape m) ->
  hbacked (hshape m) = false -> parent m = Some p ->
  exists v s', value m = Some v /\ _evict_regular cfg sha256 x s = (Ret (len v), s') /\ hstate hs held hheld s' /\
    hctl s' = hctl s /\ shed1 (habs s) (habs s') x p /\ g_ev (habs s') = g_ev (habs s) - len v /\
    length (kv_owned (kv_pool (tree s'))) = (length v + length (kv_owned (kv_pool (tree s))))%nat /\ host s' = host s.
Proof.
  intros [HG HR] Hx Hm Hi Hb Hp. pose proof HG as [HI Ho].
  destruct (leaf_facts ps eagle hs (habs s) HG x (hshape m) Hi Hx) as (Hlv & Hlk & Hr & Hch).
  destruct (leaf_only_delete hs _ x _ HG Hx Hi Hb) as (p' & pn & ck & Hp' & Hpn & Hdl). simpl in Hp'.
  assert (p' = p) as -> by congruence. destruct (live_value m Hlv) as [v Hv].
  pose proof (to_val (hv_tier Ho _ _ Hi Hr) v Hv) as Hvl. simpl in Hvl. pose proof (delete_ne Hdl) as Hne.
  pose proof Hdl as [_ _ _ _ Dleaf _ _ Dck Din _]. simpl in Dleaf, Dck, Din.
  pose proof Hpn as (pm & Hpm & Epm & Hpu)%habs_linked. rewrite <-Epm in Din. simpl in Din.
  exists v. unfold _evict_regular. py_step (node_at_ok s x m Hm). rewrite bool_decide_eq_true_2 by done.
  rewrite (py_bind_Ret (py_assert true) _ s tt s eq_refl), no_remove_event, Hv, hbind_some.
  set (s1 := hs_tree (set_pool (kv_free v (kv_pool (tree s))) (tree s)) s).
  rewrite (py_bind_Ret _ _ s tt s1) by done.
  destruct (hdelete_leaf_ok s1 x m p pm ck) as (s2 & E2 & A2 & R2); try done. py_step E2. exists s2.
  rewrite Epm in A2. change (habs s1) with (habs s) in A2.
  destruct (gdeleted_ok hs (habs s) x (hshape m) p pn ck HG Hi Hpn Hlv Hdl) as [HG2 El]. rewrite <-A2 in HG2, El.
  apply hrest_parts in R2 as (C2 & K2 & Ho2).
  destruct (release_pool held hheld (habs s) _ _ x (hshape m) v HR Hi Hv) as (P1 & P2 & P3 & P4).
  assert (host_value m = None) as Ehm by (unfold hbacked in Hb; simpl in Hb; by destruct (host_value m)).
  rewrite K2, Ho2, C2. split_and!; try done.
  - split; [done|]. rewrite K2, Ho2. change (kv_pool (tree s1)) with (kv_free v (kv_pool (tree s))).
    eapply (res_remove ps D L held hheld (habs s) (habs s2) (kv_pool (tree s)) (host s) _ _ x (hshape m) p pn _ Hne Hi Hpn El); try done.
    + apply HR.
    + unfold slot_list. simpl. by rewrite Hv.
    + unfold slot_list. simpl. by rewrite Ehm.
  - constructor.
    + constructor; [by rewrite A2|by rewrite A2| |].
      * intros i n Hn Hc. rewrite El. rewrite lookup_delete_ne.
        2: { intros <-. assert (n = hshape m) as -> by congruence. destruct Hc; [congruence|lia]. }
        destruct (decide (i = p)) as [->|].
        -- rewrite lookup_insert_eq. eexists. split; [done|]. assert (n = pn) as -> by congruence. done.
        -- rewrite lookup_insert_ne by done. exists n. split; [done|apply kept_refl].
      * intros i n' Hn'. rewrite El in Hn'. apply lookup_delete_Some in Hn' as [_ Hn'].
        apply lookup_insert_Some in Hn' as [[<- <-]|[_ Hn']]; [by exists pn|eauto 10].
    + intros i n' Hn'. rewrite El in Hn'. apply lookup_delete_Some in Hn' as [Hix Hn'].
      apply lookup_insert_Some in Hn' as [[<- <-]|[_ Hn']]; [|by exists n'].
      exists pn. split_and!; [done| |done]. intros ck' c. simpl. by intros [_ ?]%lookup_delete_Some.
    + intros i n Hn Hix Hl. rewrite El, lookup_delete_ne by congruence. destruct (decide (i = p)) as [->|].
      * rewrite lookup_insert_eq. eexists. split; [done|]. assert (n = pn) as -> by congruence. done.
      * rewrite lookup_insert_ne by done. eauto.
    + intros j. rewrite A2. simpl. unfold set_status. destruct (leaf_at _ p); set_solver.
  - rewrite A2. simpl. unfold len. by rewrite Hvl.
  - change (kv_pool (tree s1)) with (kv_free v (kv_pool (tree s))). by rewrite P4, length_app.
Qed.

(** ** The loop *)

(** The heap holds live nodes without live children, not popped so far ([R]); what was popped
    and is still live was locked and has no live child either, so no parent of a leaf was. *)
Record eheap (G : HAbs) (h : H) (R : gset nat) : Prop := mkEheap {
  eh_nodup : NoDup (heap_ids h);
  eh_in : forall i, i ∈ heap_ids h -> i ∈ R /\ exists n, lns G !! i = Some n /\ hlive n = true /\ no_live_child G n;
  eh_popped : forall i n, lns G !! i = Some n -> hlive n = true -> i ∉ R -> no_live_child G n }.

Lemma eheap_pop G h e h' R :
  eheap G h R -> heappop h = Some (e, h') ->
  heap_ids h ≡ₚ he_node e :: heap_ids h' /\ he_node e ∈ R /\ eheap G h' (R ∖ {[he_node e]}) /\ (he_node e ∉ heap_ids h') /\
  exists n, lns G !! he_node e = Some n /\ hlive n = true /\ no_live_child G n.
Proof.
  intros [H1 H2 H3] [Hp _]%heappop_Some.
  assert (heap_ids h ≡ₚ he_node e :: heap_ids h') as E by (unfold heap_ids; by rewrite Hp). rewrite E in H1.
  apply NoDup_cons in H1 as [Hn H1]. destruct (H2 (he_node e)) as (H4 & n & N1 & N2 & N3); [rewrite E; left|].
  split_and!; eauto. constructor; [done| |].
  - intros i Hi. destruct (H2 i) as [Hr Hx]; [rewrite E; by right|]. split; [set_solver|done].
  - intros i ni Hi Hl Hr. destruct (decide (i = he_node e)) as [->|]; [|apply (H3 i); [done|done|set_solver]].
    by assert (ni = n) as -> by congruence.
Qed.

Lemma eheap_shed G G' h R x p :
  eheap G h R -> x ∉ heap_ids h -> shed1 G G' x p -> eheap G' h R.
Proof.
  intros [H1 H2 H3] Hx HS. constructor; [done| |].
  - intros i Hi. destruct (H2 i Hi) as (Hr & n & Hn & Hl & Hc). split; [done|].
    destruct (s1_live _ _ _ _ HS i n Hn) as (n' & Hn' & Hl'); [congruence|done|]. exists n'. split_and!; [done|done|].
    by eapply shed1_no_live.
  - intros i n' Hn' Hl' Hr. destruct (s1_old _ _ _ _ HS _ _ Hn') as (n & Hn & _ & Hl).
    eapply shed1_no_live; [done|done|done|]. apply (H3 i n Hn); [by apply Hl|done].
Qed.

Lemma eheap_push G h R e n : eheap G h R -> he_node e ∈ R -> he_node e ∉ heap_ids h ->
  lns G !! he_node e = Some n -> hlive n = true -> no_live_child G n -> eheap G (heappush e h) R.
Proof.
  intros [H1 H2 H3] Hr Hn Hl Hlv Hc. assert (heap_ids (heappush e h) ≡ₚ he_node e :: heap_ids h) as E.
  { unfold heap_ids. by rewrite heappush_items. }
  constructor; [rewrite E; by apply NoDup_cons| |done]. intros i Hi. rewrite E in Hi. apply elem_of_cons in Hi as [->|]; eauto.
Qed.

(** The test before a parent is pushed. *)
Lemma leaving_ok hs s p pm :
  hinv ps eagle hs (habs s) -> lns (habs s) !! p = Some (hshape pm) ->
  all_children_leaving (nodes (tree s)) [] pm = true <-> no_live_child (habs s) (hshape pm).
Proof.
  intros [HI Ho] Hp. unfold all_children_leaving. rewrite forallb_forall. split.
  - intros Hall ck c cn Hc Hcn. pose proof Hcn as (cm & Hcm & <- & _)%habs_linked.
    specialize (Hall c). rewrite Hcm, evicted_live in Hall. apply negb_true_iff. apply Hall.
    apply list_elem_of_In, (elem_of_child_ids (hshape pm)). eauto.
  - intros Hno c [ck Hc]%list_elem_of_In%(elem_of_child_ids (hshape pm)). simpl.
    destruct (hok_child Ho _ _ _ _ Hp Hc) as (cn & Hcn & _). pose proof (Hno ck c cn Hc Hcn) as Hl.
    pose proof Hcn as (cm & Hcm & <- & _)%habs_linked. by rewrite Hcm, evicted_live, Hl.
Qed.

(** A live unlocked node without live children is an evictable leaf, and conversely. *)
Lemma leaf_iff hs G i n :
  hinv ps eagle hs G -> lns G !! i = Some n ->
  i ∈ g_lv G <-> hlive n = true /\ hs_lock n = 0 /\ no_live_child G n.
Proof.
  intros HG Hi. split.
  - intros Hx. destruct (leaf_facts ps eagle hs G HG i n Hi Hx) as (H1 & H2 & _ & H3). done.
  - intros (H1 & H2 & H3). pose proof HG as [_ Ho]. apply (hv_lv Ho); [set_solver|].
    pose proof Hi as [_ Hg]%lns_lookup. rewrite (leaf_at_lookup _ _ _ Hg). unfold g_leaf. rewrite H1, H2. simpl.
    apply negb_true_iff, not_true_iff_false. intros (ck & c & Hc & Hl)%existsb_child.
    destruct (hok_child Ho _ _ _ _ Hi Hc) as (cn & Hcn & _). pose proof (H3 ck c cn Hc Hcn) as Hcl.
    apply lns_lookup in Hcn as [_ Hcn]. rewrite (live_at_lookup _ _ _ Hcn) in Hl. congruence.
Qed.

(** What a run of evictions leaves. *)
Record evicted_to (hs : list nat) (held hheld : list Z) (s s' : Hi) (f : Z) : Prop := mkEvictedTo {
  et_state : hstate hs held hheld s';
  et_ctl : hctl s' = hctl s;
  et_sheds : sheds (habs s) (habs s');
  et_pos : 0 <= f;
  et_size : g_ev (habs s') = g_ev (habs s) - f;
  et_pool : Z.of_nat (length (kv_owned (kv_pool (tree s')))) = Z.of_nat (length (kv_owned (kv_pool (tree s)))) + f;
  et_host : host s' = host s }.

Lemma evicted_refl hs held hheld s : hstate hs held hheld s -> evicted_to hs held hheld s s 0.
Proof. intros. constructor; try done; [apply sheds_refl|lia|lia]. Qed.

Lemma evicted_cons hs held hheld s s1 s2 x p v f :
  hstate hs held hheld s1 -> hctl s1 = hctl s -> shed1 (habs s) (habs s1) x p ->
  g_ev (habs s1) = g_ev (habs s) - len v ->
  length (kv_owned (kv_pool (tree s1))) = (length v + length (kv_owned (kv_pool (tree s))))%nat -> host s1 = host s ->
  evicted_to hs held hheld s1 s2 f -> evicted_to hs held hheld s s2 (len v + f).
Proof.
  intros H1 C1 S1 Z1 K1 Ho1 [E1 E2 E3 E4 E5 E6 E7]. unfold len in *. constructor; try done; try lia; [congruence| |congruence].
  eapply sheds_trans; [apply S1|done].
Qed.

Lemma hi_evict_loop_ok hs held hheld fuel : forall s h num n0 R,
  hstate hs held hheld s -> is_write_back s = false -> eheap (habs s) h R ->
  (forall i, i ∈ g_lv (habs s) -> i ∈ heap_ids h) -> (size R < fuel)%nat ->
  exists f s', hi_evict_loop cfg sha256 fuel num h n0 [] s = (Ret (n0 + f, []), s') /\
    evicted_to hs held hheld s s' f /\ (num <= n0 + f \/ g_lv (habs s') = ∅).
Proof.
  induction fuel as [|fuel IH]; intros s h num n0 R HS Hpol Hh Hall Hf; [lia|]. cbn [hi_evict_loop].
  destruct (Z.ltb_spec n0 num) as [Hlt|Hge].
  2: { exists 0, s. rewrite Z.add_0_r. split_and!; [done|by apply evicted_refl|by left]. }
  destruct (heappop h) as [[e h']|] eqn:Hpop.
  2: { exists 0, s. rewrite Z.add_0_r. split_and!; [done|by apply evicted_refl|]. right.
       apply heappop_None in Hpop. apply elem_of_equiv_empty_L. intros i Hi%Hall. unfold heap_ids in Hi.
       rewrite Hpop in Hi. by apply elem_of_nil in Hi. }
  destruct (eheap_pop _ _ _ _ _ Hh Hpop) as (Hperm & HxR & Hh' & Hnew & n & Hn & Hlv & Hnc). set (x := he_node e) in *.
  assert (size (R ∖ {[x]}) < fuel)%nat as Hf'.
  { rewrite size_difference, size_singleton by set_solver. assert (size R <> 0)%nat; [|lia]. intros E%size_empty_inv. set_solver. }
  pose proof (hz_inv _ _ _ _ _ _ _ HS) as HG. pose proof HG as [HI Ho].
  pose proof Hn as (m & Hm & <- & Hu)%habs_linked. py_step (node_at_ok s x m Hm).
  assert (forall i, i ∈ g_lv (habs s) -> i <> x -> i ∈ heap_ids h') as Hall'.
  { intros i Hi Hne. apply Hall in Hi. rewrite Hperm in Hi. by apply elem_of_cons in Hi as [|]. }
  destruct (Z.ltb_spec 0 (lock_ref m)) as [Hlk|Hlk].
  { apply (IH s h' num n0 (R ∖ {[x]})); try done. intros i Hi. apply Hall'; [done|]. intros ->.
    apply (leaf_iff hs (habs s) x (hshape m) HG Hn) in Hi as (_ & E & _). simpl in E. lia. }
  assert (x ∈ g_lv (habs s)) as Hx.
  { apply (leaf_iff hs (habs s) x (hshape m) HG Hn). split_and!; [done| |done].
    pose proof (node_lock_nonneg _ _ _ _ _ (hv_tree Ho) (gfull_lookup_1 _ _ _ Hn)) as Hnn. simpl in *. lia. }
  destruct (leaf_facts ps eagle hs (habs s) HG x _ Hn Hx) as (_ & _ & Hr & _).
  destruct (hok_parent Ho x _ Hn Hr) as (p & pn & ck & Hp & Hpn & _ & Hin & _). simpl in Hp.
  pose proof (to_live (hv_tier Ho _ _ Hn Hr) Hlv p pn Hp Hpn) as Hpl.
  rewrite hbind_get, Hpol.
  assert (exists v s1, (if negb (backuped m) then n1 ← _evict_regular cfg sha256 x; mret (n1, [])
              else n1 ← _evict_backuped cfg sha256 x; mret (n1, [])) s = (Ret (len v, [] : list nat), s1) /\
    hstate hs held hheld s1 /\ hctl s1 = hctl s /\ shed1 (habs s) (habs s1) x p /\ g_ev (habs s1) = g_ev (habs s) - len v /\
    length (kv_owned (kv_pool (tree s1))) = (length v + length (kv_owned (kv_pool (tree s))))%nat /\ host s1 = host s)
    as (v & s1 & E1 & HS1 & C1 & S1 & Z1 & K1 & Ho1).
  { destruct (backuped m) eqn:Eb; cbn [negb].
    - destruct (evict_backuped_ok hs held hheld s x m p HS Hx Hm Hn Eb Hp) as (v & s1 & _ & E1 & R1).
      exists v, s1. by rewrite (py_bind_Ret _ _ _ _ _ E1).
    - destruct (evict_regular_ok hs held hheld s x m p HS Hx Hm Hn Eb Hp) as (v & s1 & _ & E1 & R1).
      exists v, s1. by rewrite (py_bind_Ret _ _ _ _ _ E1). }
  py_step E1. rewrite Hp, hbind_some.
  destruct (s1_live _ _ _ _ S1 p pn Hpn) as (pn1 & Hpn1 & Hpl1); [|done|].
  { intros ->. destruct (hok_parent Ho x _ Hn Hr) as (q & _ & _ & Hq & _ & _ & _ & Hqx). simpl in Hq. congruence. }
  pose proof Hpn1 as (pm1 & Hpm1 & <- & _)%habs_linked. py_step (node_at_ok s1 p pm1 Hpm1). rewrite hbind_get.
  pose proof (eheap_shed _ _ _ _ _ _ Hh' Hnew S1) as Hh1.
  assert (~ no_live_child (habs s) pn) as Hpc.
  { intros Hno. rewrite (Hno ck x (hshape m) Hin Hn) in Hlv. done. }
  assert (p ∈ R ∖ {[x]}) as HpR.
  { destruct (decide (p ∈ R ∖ {[x]})) as [|Hno]; [done|]. exfalso. apply Hpc. by apply (eh_popped _ _ _ Hh' p pn). }
  assert (p ∉ heap_ids h') as Hph.
  { intros Hin'. destruct (eh_in _ _ _ Hh' p Hin') as (_ & pn0 & E & _ & Hno). apply Hpc.
    by assert (pn = pn0) as -> by congruence. }
  pose proof (leaving_ok hs s1 p pm1 (hz_inv _ _ _ _ _ _ _ HS1) Hpn1) as Hleave.
  pose proof (hctl_parts _ _ C1) as (_ & _ & _ & P1).
  destruct (IH s1 (if all_children_leaving (nodes (tree s1)) [] pm1 then heappush (entry_of_node cfg p pm1) h' else h')
    num (n0 + len v) (R ∖ {[x]})) as (f & s2 & E2 & R2 & Hstop).
  - done.
  - unfold is_write_back in *. by rewrite P1.
  - destruct (all_children_leaving _ _ _) eqn:El; [|done]. apply (eheap_push _ _ _ _ (hshape pm1)); try done. by apply Hleave.
  - intros i Hi. destruct (decide (i = p)) as [->|Hip].
    + apply (leaf_iff hs _ p _ (hz_inv _ _ _ _ _ _ _ HS1) Hpn1) in Hi as (_ & _ & Hno).
      rewrite (proj2 Hleave Hno). unfold heap_ids. rewrite heappush_items. left.
    + assert (i ∈ heap_ids h') as Hi'.
      { destruct (s1_lv _ _ _ _ S1 i Hi) as [Hi0|]; [|done]. apply Hall'; [done|]. intros ->.
        destruct (proj2 (hz_inv _ _ _ _ _ _ _ HS1)) as [_ _ _ Hex _ _]. pose proof Hi as Hi1.
        apply Hex in Hi1; [|set_solver]. unfold leaf_at in Hi1. destruct (g_ns (habs s1) !! x) as [n'|] eqn:Eg; [|done].
        destruct (decide (x ∈ g_un (habs s1))) as [Hun|Hun].
        - destruct (hv_un (proj2 (hz_inv _ _ _ _ _ _ _ HS1)) x Hun) as (n0' & E & Hl' & _).
          assert (n0' = n') as -> by congruence. unfold g_leaf in Hi1. by rewrite Hl' in Hi1.
        - destruct (s1_old _ _ _ _ S1 x n') as (? & _ & _ & Hbad); [by apply lns_lookup|].
          unfold g_leaf in Hi1. destruct (hlive n'); [by destruct (Hbad eq_refl)|done]. }
      destruct (all_children_leaving _ _ _); [|done]. unfold heap_ids. rewrite heappush_items. by right.
  - done.
  - exists (len v + f), s2. rewrite Z.add_assoc. split_and!; [done|by eapply evicted_cons|].
    destruct Hstop; [left; lia|by right].
Qed.

Lemma msum_fmap {A C} (f : nat -> C -> Z) (g : A -> C) (m : gmap nat A) :
  msum f (g <$> m) = msum (fun i x => f i (g x)) m.
Proof.
  induction m as [|i x m Hi IH] using map_ind; [by rewrite fmap_empty|].
  rewrite fmap_insert, !msum_insert; [by rewrite IH|done|by rewrite lookup_fmap, Hi].
Qed.

(** With no evictable leaf every node on the device is locked. *)
Lemma no_leaf_locked hs G : hinv ps eagle hs G -> g_lv G = ∅ -> g_ev G = 0.
Proof.
  intros HG Hempty. pose proof HG as [HI Ho]. destruct (it_rank (hv_tree Ho)) as [d Hd].
  assert (forall r i n, (g_ctr G - d i < r)%nat -> lns G !! i = Some n -> i <> g_root G -> hlive n = true -> hs_lock n <> 0) as Hk.
  { intros r. induction r as [|r IH]; intros i n Hr Hi Hne Hlv Hz; [lia|].
    assert (~ no_live_child G n) as Hc.
    { intros Hno. assert (i ∈ g_lv G) as Hin by (by apply (leaf_iff hs G i n HG Hi)). rewrite Hempty in Hin. set_solver. }
    apply Hc. intros ck c cn Hch Hcn. destruct (hlive cn) eqn:Ecl; [|done]. exfalso.
    destruct (hok_child Ho i n ck c Hi Hch) as (cn' & Hcn' & Hcr & Hpar & _). assert (cn' = cn) as -> by congruence.
    destruct (Hd c _ (gfull_lookup_1 _ _ _ Hcn)) as [H1 H2]. specialize (H2 i Hpar). simpl in H1.
    apply (IH c cn); [lia|done|done|done|].
    pose proof (proj2 (inv_l _ _ _ _ HI) i _ (gfull_lookup_1 _ _ _ Hi) Hne) as HL. simpl in HL. rewrite Hz in HL.
    assert (0 <= handles_at hs i) by (unfold handles_at; lia).
    pose proof (msum_ge (fun _ m => if decide (sh_parent m = Some i) then sh_lock m else 0) (a_ns (gfull G)) c (fsh cn)) as Hge.
    simpl in Hge. rewrite decide_True in Hge by done. fold (locks_below (gfull G) i) in Hge.
    pose proof (node_lock_nonneg _ _ _ _ _ (hv_tree Ho) (gfull_lookup_1 _ _ _ Hcn)) as Hn. simpl in Hn.
    enough (hs_lock cn <= locks_below (gfull G) i) by lia. apply Hge; [|by apply (gfull_lookup_1 G)].
    intros j m Hj. case_decide; [|done]. by apply (node_lock_nonneg _ _ (gfull G) j m (hv_tree Ho)). }
  destruct (inv_s _ _ _ _ HI) as [Hev _]. simpl in Hev.
  assert (msum ev_len (lns G) = msum (unlocked_len (g_root G)) (fsh <$> lns G)) as E; [|lia].
  rewrite msum_fmap. apply msum_agree; [|by eauto].
  - intros i n Hi. exists n. split; [done|]. unfold ev_len, unlocked_len, sh_len. simpl.
    case_decide as Hr.
    + by rewrite (proj1 (hok_root_live Ho i n Hi Hr)).
    + destruct (hlive n) eqn:Elv.
      * rewrite (proj2 (Z.eqb_neq (hs_lock n) 0)); [done|]. by apply (Hk (S (g_ctr G - d i)) i n); [lia|..].
      * destruct (hok_evicted Ho i n Hi Elv) as (_ & _ & ->). done.
Qed.

Lemma hi_evict_ok hs held hheld s num :
  hstate hs held hheld s -> is_write_back s = false ->
  exists f s', hi_evict (H := H) cfg sha256 num s = (Ret f, s') /\ evicted_to hs held hheld s s' f /\
    (num <= f \/ g_ev (habs s') = 0).
Proof.
  intros HS Hpol. pose proof (hz_inv _ _ _ _ _ _ _ HS) as HG. unfold hi_evict. rewrite hbind_get.
  assert (heap_ids (heapify (leaf_entries cfg (tree s))) ≡ₚ he_node <$> leaf_entries cfg (tree s)) as E.
  { unfold heap_ids. by rewrite heapify_items. }
  assert (forall i, i ∈ he_node <$> leaf_entries cfg (tree s) <-> i ∈ g_lv (habs s) /\ is_Some (nodes (tree s) !! i)) as Hin.
  { intros i. unfold leaf_entries. rewrite list_elem_of_fmap. split.
    - intros (e & -> & (j & Hj%elem_of_elements & He)%list_elem_of_omap).
      destruct (nodes (tree s) !! j) eqn:En; [|done]. injection He as <-. simpl. rewrite En. eauto.
    - intros (Hl & n & Hn). exists (entry_of_node cfg i n). split; [done|]. apply list_elem_of_omap. exists i.
      split; [by apply elem_of_elements|]. by rewrite Hn. }
  assert (forall i, i ∈ g_lv (habs s) -> exists n, lns (habs s) !! i = Some n) as Hlinked.
  { intros i Hi. apply (hv_lv (proj2 HG)) in Hi; [|set_solver]. unfold leaf_at in Hi.
    destruct (g_ns (habs s) !! i) as [n|] eqn:Eg; [|done]. exists n. apply lns_lookup. split; [|done]. intros Hu.
    destruct (hv_un (proj2 HG) i Hu) as (n' & E' & Hl & _). assert (n' = n) as -> by congruence.
    unfold g_leaf in Hi. by rewrite Hl in Hi. }
  destruct (hi_evict_loop_ok hs held hheld (S (size (nodes (tree s)))) s (heapify (leaf_entries cfg (tree s))) num 0
    (dom (lns (habs s)))) as (f & s1 & E1 & R1 & Hstop); [done|done| | | |].
  - constructor.
    + rewrite E. apply entries_nodup, NoDup_elements.
    + intros i Hi. rewrite E in Hi. apply Hin in Hi as [Hi _]. destruct (Hlinked i Hi) as [n Hn].
      split; [apply elem_of_dom; eauto|]. exists n.
      destruct (proj1 (leaf_iff hs (habs s) i n HG Hn) Hi) as (Hi1 & _ & Hi2). done.
    + intros i n Hn _ Hr. exfalso. apply Hr, elem_of_dom. eauto.
  - intros i Hi. rewrite E. apply Hin. split; [done|]. destruct (Hlinked i Hi) as [n (m & Hm & _)%habs_linked]. eauto.
  - apply Nat.lt_succ_r. rewrite <-(size_dom (nodes (tree s))). apply subseteq_size. intros i [n Hn]%elem_of_dom.
    apply habs_linked in Hn as (m & Hm & _). apply elem_of_dom. eauto.
  - rewrite (py_bind_Ret _ _ _ _ _ E1). pose proof (hctl_parts _ _ (et_ctl _ _ _ _ _ _ R1)) as (_ & _ & _ & P1).
    rewrite hbind_get. assert (is_write_back s1 = false) as -> by (unfold is_write_back in *; by rewrite P1).
    rewrite hbind_ret. exists f, s1. split_and!; [done|done|]. destruct Hstop as [|Hno]; [by left|right].
    by apply (no_leaf_locked hs), Hno; apply R1.
Qed.

(** A handle keeps its host slots. *)
Lemma sheds_backed hs G G' i n :
  hinv ps eagle hs G -> sheds G G' -> i ∈ hs -> lns G !! i = Some n -> hbacked n = true ->
  exists n', lns G' !! i = Some n' /\ hbacked n' = true.
Proof.
  intros [HI Ho] HS Hi Hn Hb. assert (0 < hs_lock n) as Hlk.
  { destruct (decide (i = g_root G)) as [->|Hr]; [pose proof (proj2 (hok_root_live Ho _ _ Hn eq_refl)); lia|].
    apply (handle_locks_path cfg hs (gfull G) None i [] [] i (fsh n) HI); try done;
      [by eapply path_nil, gfull_lookup_1|by apply gfull_lookup_1]. }
  destruct (sd_kept _ _ HS _ n Hn (or_intror Hlk)) as (n' & Hn' & (_ & _ & _ & K4 & _)).
  exists n'. split; [done|]. unfold hbacked in *. by rewrite K4.
Qed.

(** Eviction keeps the invariant of the whole cache. *)
Lemma evicted_good uh held hheld s s' f :
  hgood cfg D L uh held hheld s -> evicted_to (all_handles uh s) held hheld s s' f -> hgood cfg D L uh held hheld s'.
Proof.
  intros HG [E1 E2 E3 E4 E5 E6 E7]. eapply hgood_frame; [done|done|done|]. intros i n Hi Hn Hb.
  eapply sheds_backed; [apply HG|done|unfold all_handles; set_solver|done|done].
Qed.
End evict.
