(* ===== verification/HiLoad.v ===== *)
(** * Loading back from the host

    [load_back] brings the evicted nodes on the way down to a node back to the device, all or
    none of them: it locks the nearest ancestor on the device, allocates (evicting if it has
    to), assigns the new indices down the path and locks the node until the copy has arrived. *)

From stdpp Require Import base tactics list gmap strings.
From Stdlib Require Import ZArith Lia.
From S2P Require Import Prelude PyStr RadixKey TreeNode EvictPolicy Allocator AllocatorProofs KVEvents.
From S2P Require Import RadixTree RadixInv RadixPaths RadixSlots RadixWalk RadixProofs RadixLocks ReqPool.
From S2P Require Import HiController HiRadix HiInv HiPrims HiProofs HiLocks HiRes HiHost HiBackup HiEvict.

(** ** Losing device nodes only *)

Record thins (G G' : HAbs) : Prop := mkThins {
  tn_root : g_root G' = g_root G;
  tn_host : forall i n, lns G !! i = Some n -> hlive n = false -> exists n', lns G' !! i = Some n' /\
    hs_par n' = hs_par n /\ hs_key n' = hs_key n /\ hs_val n' = hs_val n /\ hs_host n' = hs_host n;
  tn_back : forall i n', lns G' !! i = Some n' -> exists n, lns G !! i = Some n /\ hs_par n' = hs_par n /\
    hs_key n' = hs_key n /\ hs_host n' = hs_host n /\ (hlive n' = true -> hs_val n' = hs_val n) }.

Lemma thins_trans G G1 G2 : thins G G1 -> thins G1 G2 -> thins G G2.
Proof.
  intros [R1 K1 B1] [R2 K2 B2]. constructor; [congruence| |].
  - intros i n Hi Hl. destruct (K1 i n Hi Hl) as (n1 & H1 & P1 & P2 & P3 & P4).
    destruct (K2 i n1 H1) as (n2 & H2 & Q1 & Q2 & Q3 & Q4); [unfold hlive in *; by rewrite P3|].
    exists n2. split_and!; congruence.
  - intros i n2 H2. destruct (B2 i n2 H2) as (n1 & H1 & Q1 & Q2 & Q3 & Q4).
    destruct (B1 i n1 H1) as (n & Hn & P1 & P2 & P3 & P4). exists n. split_and!; try congruence.
    intros Hl. rewrite Q4 by done. apply P4. unfold hlive in *. by rewrite <-Q4.
Qed.

Lemma thins_tiers G G' : same_tiers G G' -> thins G G'.
Proof.
  intros HS. constructor; [apply HS| |].
  - intros i n Hi _. destruct (same_tiers_lookup _ _ _ _ HS Hi) as (n' & ? & _ & ? & ? & ? & ?). eauto 10.
  - intros i n' Hi. destruct (same_tiers_lookup _ _ _ _ (same_tiers_sym _ _ HS) Hi) as (n & ? & _ & ? & ? & ? & ?). eauto 10.
Qed.

Lemma thins_sheds G G' : sheds G G' -> thins G G'.
Proof.
  intros HS. constructor; [apply HS| |].
  - intros i n Hi Hl. destruct (sd_kept _ _ HS i n Hi (or_introl Hl)) as (n' & Hn' & (? & ? & ? & ? & _)). eauto 10.
  - intros i n' Hi. destruct (sd_back _ _ HS i n' Hi) as (n & ? & ? & ? & ? & _ & ?). eauto 10.
Qed.

(** ** The path to load *)

(** The nodes [l] lead down from [a], each evicted. *)
Fixpoint down (G : HAbs) (a : nat) (l : list nat) : Prop :=
  match l with
  | [] => True
  | c :: l' => (exists cn, lns G !! c = Some cn /\ hs_par cn = Some a /\ hlive cn = false) /\ down G c l'
  end.
Definition ends_at (a : nat) (l : list nat) (i : nat) : Prop := default a (last l) = i.

Lemma ends_at_cons a c l i : ends_at a (c :: l) i <-> ends_at c l i.
Proof. unfold ends_at. rewrite last_cons. by destruct (last l). Qed.

Lemma down_thins G G' a l : thins G G' -> down G a l -> down G' a l.
Proof.
  intros HT. revert a. induction l as [|c l IH]; intros a; [done|]. intros [(cn & Hc & Hp & Hl) Hd]. split; [|by apply IH].
  destruct (tn_host _ _ HT c cn Hc Hl) as (cn' & Hc' & E1 & E2 & E3 & E4). exists cn'. split_and!; [done|congruence|].
  unfold hlive in *. by rewrite E3.
Qed.

(** The host slots and the total length of the nodes. *)
Definition host_of (G : HAbs) (l : list nat) : list Z := concat ((fun c => match lns G !! c with Some n => slot_list hs_host n | None => [] end) <$> l).

Section load.
Context {T : Type} `{!KVAllocator T} {H : Type} `{!HeapQ H} {B Page : Type}.
Context (cfg : Config) (sha256 : list Z -> string).
Context (Hps : (0 < cfg_page_size cfg)%nat) (Hevents : enable_kv_cache_events cfg = false) (Hdis : disable cfg = false).
Context (D L : list Z) (HD : NoDup D).
Local Abbreviation Hi := (HiCache T B Page).
Local Abbreviation ps := (cfg_page_size cfg).
Local Abbreviation eagle := (is_eagle cfg).
Local Abbreviation hstate := (hstate cfg D L).
Local Abbreviation hgood := (hgood cfg D L).
Implicit Types s : Hi.

Lemma load_path_ok d s fuel : forall i acc,
  hok ps eagle ∅ (habs s) -> ranked (gfull (habs s)) d -> is_Some (lns (habs s) !! i) -> (d i < fuel)%nat ->
  exists a an l, load_path fuel i acc s = (Ret (a, l ++ acc), s) /\ lns (habs s) !! a = Some an /\ hlive an = true /\
    down (habs s) a l /\ ends_at a l i.
Proof.
  induction fuel as [|fuel IH]; intros i acc Ho Hd [n Hi] Hf; [lia|]. cbn [load_path].
  pose proof Hi as (m & Hm & <- & Hu)%habs_linked. py_step (node_at_ok s i m Hm). rewrite evicted_live.
  destruct (hlive (hshape m)) eqn:El; cbn [negb].
  { exists i, (hshape m), []. done. }
  destruct (hok_evicted Ho _ _ Hi El) as (Hr & Hb & _). unfold hbacked in Hb. simpl in Hb.
  assert (backuped m = true) as -> by (unfold backuped; by destruct (host_value m)).
  rewrite (py_bind_Ret (py_assert true) _ s tt s eq_refl).
  destruct (hok_parent Ho _ _ Hi Hr) as (p & pn & ck & Hp & Hpn & _). simpl in Hp. rewrite Hp, hbind_some.
  destruct (Hd i _ (gfull_lookup_1 _ _ _ Hi)) as [_ Hdp]. specialize (Hdp p Hp).
  destruct (IH p (i :: acc) Ho Hd) as (a & an & l & E & Ha & Hal & Hdn & Hend); [eauto|lia|].
  exists a, an, (l ++ [i]). rewrite <-(assoc_L (++)). split_and!; [done|done|done| |].
  - clear -Hdn Hend Hi Hp El. revert a Hdn Hend. induction l as [|c l IH]; intros a Hdn Hend.
    + unfold ends_at in Hend. simpl in *. subst a. eauto.
    + destruct Hdn as [Hc Hdn]. split; [done|]. apply (IH c Hdn). by apply ends_at_cons in Hend.
  - unfold ends_at. by rewrite last_snoc.
Qed.

Lemma host_values_ok Y s l : forall a,
  hok ps eagle Y (habs s) -> down (habs s) a l ->
  host_values l s = (Ret (host_of (habs s) l), s) /\ aligned ps (length (host_of (habs s) l)).
Proof.
  induction l as [|c l IH]; intros a Ho Hd; [split; [done|apply aligned_0]|].
  destruct Hd as [(cn & Hc & Hp & Hl) Hd]. destruct (IH c Ho Hd) as [E Hal].
  destruct (hok_evicted Ho _ _ Hc Hl) as (Hr & Hb & _). pose proof Hc as (m & Hm & <- & _)%habs_linked.
  destruct (host_value m) as [h|] eqn:Eh; [|unfold hbacked in Hb; simpl in Hb; by rewrite Eh in Hb].
  cbn [host_values]. py_step (node_at_ok s c m Hm). rewrite Eh, hbind_some. py_step E.
  assert (host_of (habs s) (c :: l) = h ++ host_of (habs s) l) as ->.
  { unfold host_of. simpl. rewrite Hc. unfold slot_list. simpl. by rewrite Eh. }
  split; [done|]. rewrite length_app. apply aligned_add; [done| |done].
  rewrite (to_host (hv_tier Ho _ _ Hc Hr) h Eh). apply (nk_aligned (it_node (hv_tree Ho) _ _ (gfull_lookup_1 _ _ _ Hc) Hr)).
Qed.

Lemma down_host_thins G G' a l : thins G G' -> down G a l -> host_of G' l = host_of G l.
Proof.
  intros HT. revert a. induction l as [|c l IH]; intros a; [done|]. intros [(cn & Hc & Hp & Hl) Hd].
  destruct (tn_host _ _ HT c cn Hc Hl) as (cn' & Hc' & E1 & E2 & E3 & E4).
  change (host_of G' (c :: l)) with (match lns G' !! c with Some n => slot_list hs_host n | None => [] end ++ host_of G' l).
  rewrite (IH c Hd), Hc'. unfold host_of. simpl. rewrite Hc. unfold slot_list. by rewrite E4.
Qed.

(** ** Assigning the new indices *)

Fixpoint revives (G : HAbs) (l : list nat) (d : list Z) : HAbs :=
  match l with
  | [] => G
  | c :: l' =>
      match lns G !! c with
      | None => G
      | Some n =>
          let k := key_len (hs_key n) in
          revives (g_put G c (with_val (Some (take k d)) n) (g_ev G + Z.of_nat k) (g_pr G) (g_lv G) (g_hl G)) l' (drop k d)
      end
  end.

(** The nodes hold consecutive pieces of [d]. *)
Fixpoint carries (G : HAbs) (l : list nat) (d : list Z) : Prop :=
  match l with
  | [] => d = []
  | c :: l' => exists n, lns G !! c = Some n /\ hs_val n = Some (take (key_len (hs_key n)) d) /\
      carries G l' (drop (key_len (hs_key n)) d)
  end.

Lemma down_put G c cn v ev pr lv hl a l :
  lns G !! c = Some cn -> c ∉ l -> down G a l -> down (g_put G c (with_val v cn) ev pr lv hl) a l.
Proof.
  intros Hc. revert a. induction l as [|x l IH]; intros a Hn; [done|]. intros [(xn & Hx & Hp & Hl) Hd].
  apply not_elem_of_cons in Hn as [Hxc Hn]. split; [|by apply IH]. exists xn. split_and!; try done.
  rewrite (gput_lns G c cn) by done. by rewrite lookup_insert_ne.
Qed.

(** A path down from a node does not come back to it. *)
Lemma down_rank d Y G a an l : hok ps eagle Y G -> ranked (gfull G) d -> lns G !! a = Some an -> down G a l ->
  Forall (fun c => (d a < d c)%nat) l.
Proof.
  intros Ho Hd. revert a an. induction l as [|c l IH]; intros a an Ha; [constructor|]. intros [(cn & Hc & Hp & Hl) Hdn].
  destruct (Hd c _ (gfull_lookup_1 _ _ _ Hc)) as [_ Hlt]. specialize (Hlt a Hp). constructor; [done|].
  eapply Forall_impl; [by eapply (IH c)|]. simpl. lia.
Qed.

Lemma down_fresh Y G a an l : hok ps eagle Y G -> lns G !! a = Some an -> down G a l -> a ∉ l.
Proof.
  intros Ho Ha Hdn Hin. destruct (it_rank (hv_tree Ho)) as [d Hd].
  pose proof (down_rank d Y G a an l Ho Hd Ha Hdn) as Hf. rewrite Forall_forall in Hf. specialize (Hf a Hin). lia.
Qed.

Local Abbreviation put1 G c n d := (g_put G c (with_val (Some (take (key_len (hs_key n)) d)) n)
  (g_ev G + Z.of_nat (key_len (hs_key n))) (g_pr G) (g_lv G) (g_hl G)).

Lemma revives_parts l : forall G d j, with_val None <$> lns (revives G l d) !! j = with_val None <$> lns G !! j.
Proof.
  induction l as [|c l IH]; intros G d j; [done|]. cbn [revives]. destruct (lns G !! c) as [n|] eqn:Hc; [|done]. cbv zeta.
  rewrite IH, (gput_lns G c n) by done. destruct (decide (j = c)) as [->|]; [by rewrite lookup_insert_eq, Hc|by rewrite lookup_insert_ne].
Qed.

Lemma revives_other l : forall G d j, j ∉ l -> lns (revives G l d) !! j = lns G !! j.
Proof.
  induction l as [|c l IH]; intros G d j Hj; [done|]. apply not_elem_of_cons in Hj as [Hjc Hj].
  cbn [revives]. destruct (lns G !! c) as [n|] eqn:Hc; [|done]. cbv zeta.
  rewrite IH by done. rewrite (gput_lns G c n) by done. by rewrite lookup_insert_ne.
Qed.

Lemma parts_lookup G G' j n :
  (forall j, with_val None <$> lns G' !! j = with_val None <$> lns G !! j) -> lns G !! j = Some n ->
  exists n', lns G' !! j = Some n' /\ hs_ch n' = hs_ch n /\ hs_par n' = hs_par n /\ hs_key n' = hs_key n /\
    hs_host n' = hs_host n /\ hs_lock n' = hs_lock n.
Proof.
  intros HP Hn. specialize (HP j). rewrite Hn in HP. destruct (lns G' !! j) as [n'|]; [|done].
  simpl in HP. injection HP as ? ? ? ? ?. eauto 10.
Qed.

Lemma anc_parts G G' i j :
  (forall j, with_val None <$> lns G' !! j = with_val None <$> lns G !! j) -> anc G i j -> anc G' i j.
Proof.
  intros HP. induction 1 as [|i n p j Hi Hp _ IH]; [constructor|].
  destruct (parts_lookup _ _ _ _ HP Hi) as (n' & Hn' & _ & Hp' & _). apply (anc_up G' i n' p j); congruence.
Qed.

Lemma anc_trans G i j k : anc G i j -> anc G j k -> anc G i k.
Proof. induction 1 as [|i n p j Hi Hp _ IH]; [done|]. intros Hk. eapply anc_up; eauto. Qed.

(** Everything on the way down is above its end. *)
Lemma down_anc G l : forall a i, down G a l -> ends_at a l i -> forall j, j = a \/ j ∈ l -> anc G i j.
Proof.
  induction l as [|c l IH]; intros a i Hd He j Hj.
  - unfold ends_at in He. simpl in He. destruct Hj as [->|Hj]; [subst; constructor|by apply elem_of_nil in Hj].
  - destruct Hd as [(cn & Hc & Hp & _) Hd]. apply ends_at_cons in He.
    destruct Hj as [->|[->|Hj]%elem_of_cons].
    + apply (anc_trans G i c); [apply (IH c i Hd He); by left|]. eapply anc_up; [done|done|constructor].
    + apply (IH c i Hd He). by left.
    + apply (IH c i Hd He). by right.
Qed.

Lemma host_of_put G c cn v ev pr lv hl l :
  lns G !! c = Some cn -> host_of (g_put G c (with_val v cn) ev pr lv hl) l = host_of G l.
Proof.
  intros Hc. unfold host_of. f_equal. apply list_fmap_ext. intros _ x _. rewrite (gput_lns G c cn) by done.
  destruct (decide (x = c)) as [->|]; [by rewrite lookup_insert_eq, Hc|by rewrite lookup_insert_ne].
Qed.

Lemma host_of_cons Y G c l cn :
  hok ps eagle Y G -> lns G !! c = Some cn -> hlive cn = false ->
  length (host_of G (c :: l)) = (key_len (hs_key cn) + length (host_of G l))%nat.
Proof.
  intros Ho Hc Hl. destruct (hok_evicted Ho _ _ Hc Hl) as (Hr & Hb & _).
  unfold host_of. simpl. rewrite length_app, Hc. f_equal. unfold slot_list.
  destruct (hs_host cn) as [h|] eqn:Eh; [|unfold hbacked in Hb; by rewrite Eh in Hb].
  by apply (to_host (hv_tier Ho _ _ Hc Hr)).
Qed.

Lemma hok2_weaken Y W Y' W' G : hok2 ps eagle Y W G -> Y ⊆ Y' -> W ⊆ W' -> hok2 ps eagle Y' W' G.
Proof.
  intros HG HY HW. replace G with (mkHAbs (g_ns G) (g_un G) (g_root G) (g_ctr G) (g_ev G) (g_pr G) (g_lv G) (g_hl G)) by (by destruct G).
  eapply hok2_change; [exact HG|eapply exact_weaken; [exact (h2_lv _ _ _ _ _ HG)|done]|eapply exact_weaken; [exact (h2_hl _ _ _ _ _ HG)|done]].
Qed.

Lemma revives_ok hs held hheld pool h l : forall Y W G a an d,
  hok2 ps eagle Y W G -> inv ps eagle hs (gfull G) -> lns G !! a = Some an -> hlive an = true -> down G a l ->
  length d = length (host_of G l) -> paged (Z.of_nat ps) d -> res ps D L (d ++ held) hheld G pool h ->
  let G' := revives G l d in
  hok2 ps eagle (Y ∪ (({[a]} ∪ list_to_set l) ∖ {[g_root G]})) (W ∪ list_to_set l) G' /\
  inv ps eagle hs (gfull G') /\ res ps D L held hheld G' pool h /\ carries G' l d /\
  g_ev G' = g_ev G + Z.of_nat (length d) /\ g_root G' = g_root G /\ g_pr G' = g_pr G.
Proof.
  induction l as [|c l IH]; intros Y W G a an d H2 HI Ha Hal Hd Hlen Hpg HR.
  { unfold host_of in Hlen. simpl in Hlen. destruct d; [|done]. simpl. split_and!; try done; [|lia].
    eapply hok2_weaken; [exact H2|set_solver|set_solver]. }
  destruct Hd as [(cn & Hc & Hp & Hl) Hd]. pose proof (h2_ok _ _ _ _ _ H2) as Ho.
  destruct (hok_evicted Ho _ _ Hc Hl) as (Hr & _ & _). set (k := key_len (hs_key cn)).
  pose proof (host_of_cons _ G c l cn Ho Hc Hl) as Hk. fold k in Hk.
  assert (aligned ps k) as Hal_k by exact (nk_aligned (it_node (hv_tree Ho) _ _ (gfull_lookup_1 _ _ _ Hc) Hr)).
  destruct (paged_split ps k d Hps Hal_k Hpg) as [Pt Pd].
  assert (length (take k d) = k) as Htk by (rewrite length_take; lia).
  destruct (grevive_ok ps eagle Y W G c cn a an (take k d) H2 Hc Hr Hl Hp Ha Hal Htk) as [H2' Ef].
  fold k in H2', Ef. set (G1 := g_put _ _ _ _ _ _ _) in H2', Ef.
  assert (lns G1 = <[c := with_val (Some (take k d)) cn]> (lns G)) as El by (by eapply gput_lns).
  pose proof (down_fresh _ G c cn l Ho Hc Hd) as Hcl.
  cbn [revives]. rewrite Hc. cbv zeta. fold k. fold G1.
  destruct (IH _ _ G1 c (with_val (Some (take k d)) cn) (drop k d) H2') as (I1 & I2 & I3 & I4 & I5 & I6 & I7).
  - rewrite Ef. apply revalue_inv; [by apply gfull_lookup_1|done|done|done].
  - rewrite El. apply lookup_insert_eq.
  - done.
  - by apply down_put.
  - unfold G1. rewrite (host_of_put G c cn) by done. rewrite length_drop. lia.
  - done.
  - pose proof HR as [R1 R2 R3 R4 R5 R6 R7].
    eapply (res_put ps D L (d ++ held) hheld (drop k d ++ held) hheld G G1 pool h pool h c cn); try done.
    + intros v [= <-]. done.
    + unfold slot_list. simpl. unfold hlive in Hl. destruct (hs_val cn); [done|]. simpl.
      rewrite !(assoc_L (++)), take_drop. done.
  - split_and!; try done.
    + eapply hok2_weaken; [exact I1|simpl; set_solver|simpl; set_solver].
    + cbn [carries]. exists (with_val (Some (take k d)) cn). rewrite revives_other by done. rewrite El, lookup_insert_eq. done.
    + rewrite I5, length_drop. simpl. lia.
Qed.

(** The code adds the total to the evictable size after the assignments. *)
Definition with_ev (e : Z) (G : HAbs) : HAbs :=
  mkHAbs (g_ns G) (g_un G) (g_root G) (g_ctr G) e (g_pr G) (g_lv G) (g_hl G).

Lemma revives_ev l : forall e e' G d, with_ev e (revives (with_ev e' G) l d) = with_ev e (revives G l d).
Proof.
  induction l as [|c l IH]; intros e e' G d; [done|]. cbn [revives]. change (lns (with_ev e' G)) with (lns G).
  destruct (lns G !! c) as [n|]; [|done]. cbv zeta.
  change (g_put (with_ev e' G) c (with_val (Some (take (key_len (hs_key n)) d)) n) (g_ev (with_ev e' G) + Z.of_nat (key_len (hs_key n)))
    (g_pr (with_ev e' G)) (g_lv (with_ev e' G)) (g_hl (with_ev e' G)))
    with (with_ev (e' + Z.of_nat (key_len (hs_key n))) (put1 G c n d)). apply IH.
Qed.

Lemma no_store_event {A} i md (f : unit -> PyM Hi A) s :
  (on_tree (_record_store_event cfg sha256 i md) ≫= f) s = f tt s.
Proof. unfold mbind, PyM_bind, on_tree, _record_store_event. rewrite Hevents. cbn. by rewrite hs_tree_id. Qed.

Definition hosted (G : HAbs) (c : nat) : Prop :=
  exists n h, lns G !! c = Some n /\ hs_host n = Some h /\ length h = key_len (hs_key n).

Lemma assign_values_ok l : forall s d,
  Forall (hosted (habs s)) l ->
  exists s', assign_values cfg sha256 l d s = (Ret tt, s') /\ hrest s' = hrest s /\
    habs s' = with_ev (g_ev (habs s)) (revives (habs s) l d).
Proof.
  induction l as [|c l IH]; intros s d Hall.
  { exists s. split_and!; [done|done|]. reflexivity. }
  apply Forall_cons in Hall as [(n & h & Hc & Hh & Hlen) Hall]. pose proof Hc as (m & Hm & <- & Hu)%habs_linked.
  simpl in Hh, Hlen. cbn [assign_values]. py_step (node_at_ok s c m Hm). rewrite Hh, hbind_some, Hlen.
  run_update m by done. rewrite no_store_event. set (s1 := hnodes _ s).
  assert (habs s1 = with_ev (g_ev (habs s)) (put1 (habs s) c (hshape m) d)) as A1.
  { unfold habs at 1. simpl. rewrite fmap_insert. done. }
  destruct (IH s1 (drop (key_len (key m)) d)) as (s2 & E2 & R2 & A2).
  { rewrite A1. eapply Forall_impl; [exact Hall|]. intros x (n & hx & Hx & Hhx & Hlx).
    change (lns (with_ev ?e ?G)) with (lns G) in *.
    destruct (decide (x = c)) as [->|Hne].
    - exists (with_val (Some (take (key_len (key m)) d)) (hshape m)), h. split_and!; [|done|done].
      change (lns (put1 (habs s) c (hshape m) d) !! c = Some (with_val (Some (take (key_len (key m)) d)) (hshape m))).
      rewrite (gput_lns (habs s) c (hshape m)) by done. apply lookup_insert_eq.
    - exists n, hx. split_and!; [|done|done]. change (lns (put1 (habs s) c (hshape m) d) !! x = Some n).
      rewrite (gput_lns (habs s) c (hshape m)) by done. by rewrite lookup_insert_ne. }
  exists s2. split_and!; [done|by rewrite R2|]. rewrite A2, A1. cbn [revives]. rewrite Hc. cbv zeta.
  change (g_ev (with_ev ?e ?G)) with e. apply revives_ev.
Qed.

(** ** Allocation on the device *)

Lemma hi_kv_alloc_ok hs held hheld s (n : nat) :
  hstate hs held hheld s -> aligned ps n ->
  exists o s', hi_kv_alloc (Z.of_nat n) s = (Ret o, s') /\ habs s' = habs s /\ hctl s' = hctl s /\ host s' = host s /\
    match o with
    | None => hstate hs held hheld s' /\ (length (kv_owned (kv_pool (tree s))) < n)%nat
    | Some l => length l = n /\ paged (Z.of_nat ps) l /\ hstate hs (l ++ held) hheld s'
    end.
Proof.
  intros [HG HR] Hal. pose proof HR as [R1 R2 R3 R4 R5 R6 R7]. unfold hi_kv_alloc.
  destruct (kv_alloc_spec (Z.of_nat n) (kv_pool (tree s)) R1 R2) as (o & a & E & P1 & P2 & P3 & P4); [lia| |].
  { rewrite R3. rewrite <-(aligned_floor ps n Hps Hal), Nat2Z.inj_mul. apply Z.divide_factor_r. }
  rewrite E. eexists o, _. split; [done|]. split_and!; [done|done|done|]. rewrite R3 in P2, P4.
  destruct o as [l|].
  - destruct P4 as (Q1 & Q2 & Q3). unfold len in Q1. split_and!; [lia|done|]. split; [done|].
    constructor; try done. simpl. rewrite <-R6, Q3. solve_Permutation.
  - destruct P4 as (Q1 & Q2). unfold len in Q1. split; [|lia]. split; [done|]. constructor; try done. simpl. by rewrite Q2.
Qed.

(** A queued load. *)
Definition push_load (id : nat) (hv d : list Z) (x : Transfers) : Transfers :=
  mkTransfers (write_queue x) (load_queue x ++ [mkCacheOperation hv d [id] (co_counter x) (co_counter x)])
    (ack_write_queue x) (ack_load_queue x) (S (co_counter x)) (producer_index x) (consumer_index x).

Lemma ctl_load_ok hs held hheld s hv i :
  hstate hs held hheld s -> aligned ps (length hv) ->
  exists o s', ctl_load hv i s = (Ret o, s') /\ habs s' = habs s /\ host s' = host s /\
    match o with
    | None => hstate hs held hheld s' /\ hctl s' = hctl s /\ (length (kv_owned (kv_pool (tree s))) < length hv)%nat
    | Some d => length d = length hv /\ paged (Z.of_nat ps) d /\ hstate hs (d ++ held) hheld s' /\
        hctl s' = hctl (hs_xfer (push_load i hv d (xfer s)) s)
    end.
Proof.
  intros HS Hal. destruct (hi_kv_alloc_ok hs held hheld s (length hv) HS Hal) as (o & s1 & E1 & A1 & C1 & Ho1 & H1).
  unfold ctl_load. change (len hv) with (Z.of_nat (length hv)). py_step E1. 
  destruct o as [d|]; [|exists None, s1; destruct H1; by split_and!].
  destruct H1 as (Hlen & Hpg & [HG1 HR1]). pose proof (hctl_parts _ _ C1) as (_ & _ & X1 & _).
  eexists (Some d), _. split.
  { unfold on_xfer, mbind, PyM_bind, new_CacheOperation, py_modify. cbn. unfold mret, PyM_ret. reflexivity. }
  split_and!; [done|done|done|done|by split|]. unfold hctl in *. simpl. rewrite X1.
  injection C1 as -> -> -> _ -> -> -> -> ->. done.
Qed.

(** ** [load_back] *)

Definition writes_backed (W : gset nat) (G : HAbs) : Prop :=
  forall j, j ∈ W -> exists n, lns G !! j = Some n /\ hbacked n = true.

Lemma writes_backed_tiers W G G' : same_tiers G G' -> writes_backed W G -> writes_backed W G'.
Proof.
  intros HS HW j Hj. destruct (HW j Hj) as (n & Hn & Hb).
  destruct (same_tiers_lookup _ _ _ _ HS Hn) as (n' & Hn' & _ & _ & _ & _ & E). exists n'. split; [done|].
  unfold hbacked in *. by rewrite E.
Qed.

(** What a load leaves: nothing but evictions, or the path in place on the device. *)
Definition loaded (G G' : HAbs) (i : nat) (o : option (list Z)) : Prop :=
  match o with
  | None => thins G G'
  | Some d => exists a l G1, thins G G1 /\ down G a l /\ ends_at a l i /\ (exists an, lns G1 !! a = Some an /\ hlive an = true) /\
      length d = length (host_of G l) /\ same_tiers (revives G1 l d) G' /\ carries G' l d
  end.

Lemma carries_tiers G G' l : forall d, same_tiers G G' -> carries G l d -> carries G' l d.
Proof.
  induction l as [|c l IH]; intros d HS Hc; [done|]. destruct Hc as (n & Hn & Hv & Hc).
  destruct (same_tiers_lookup _ _ _ _ HS Hn) as (n' & Hn' & _ & _ & Ek & Ev & _). exists n'. rewrite Ek, Ev. auto.
Qed.

(** The end of [load_back], from the unlocking of the ancestor on. *)
Definition load_finish (a i : nat) (l : list nat) (o : option (list Z)) : PyM Hi (option (list Z)) :=
  _ ← hi_dec_lock_ref cfg a;
  match o with
  | None => mret None
  | Some d =>
      _ ← py_modify (fun s => hs_loads (ongoing_load_back s ∪ {[i]}) s);
      _ ← assign_values cfg sha256 l d;
      _ ← on_tree (py_modify (fun t => set_sizes (evictable_size_ t + len d) (protected_size_ t) t));
      _ ← hi_inc_lock_ref cfg i;
      mret (Some d)
  end.

Lemma load_unlock hs held hheld s a n :
  hstate (a :: hs) held hheld s -> lns (habs s) !! a = Some n -> hlive n = true ->
  exists z s', hi_dec_lock_ref cfg a s = (Ret z, s') /\ hstate hs held hheld s' /\ hctl s' = hctl s /\
    same_tiers (habs s) (habs s').
Proof.
  intros [HG HR] Hn Hl. destruct (hi_dec_lock_ref_ok cfg (a :: hs) hs s a n Hdis HG) as (s' & E & HG' & T' & R'); try done.
  apply hrest_parts in R' as (C' & K' & Ho'). eexists _, s'. split_and!; [done| |done|done].
  split; [done|]. rewrite K', Ho'. by eapply res_locks.
Qed.

Lemma load_finish_none uh held hheld s s2 a i l :
  hgood uh held hheld s -> hstate (a :: all_handles uh s) held hheld s2 -> hctl s2 = hctl s ->
  thins (habs s) (habs s2) -> writes_backed (ongoing_write_through s) (habs s2) ->
  exists s', load_finish a i l None s2 = (Ret None, s') /\ hgood uh held hheld s' /\ thins (habs s) (habs s').
Proof.
  intros HG HS2 C2 HT HW. destruct (handle_live cfg Hps _ (habs s2) a (hz_inv _ _ _ _ _ _ _ HS2)) as (an & Ha & Hal); [left|].
  destruct (load_unlock _ held hheld s2 a an HS2 Ha Hal) as (z & s3 & E3 & HS3 & C3 & T3).
  unfold load_finish. py_step E3. exists s3. split_and!; [done| |].
  - eapply hgood_frame; [exact HG|congruence|exact HS3|]. intros j n Hj _ _. by apply (writes_backed_tiers _ _ _ T3 HW).
  - eapply thins_trans; [exact HT|by apply thins_tiers].
Qed.

Lemma carries_live G l : forall d j, carries G l d -> j ∈ l -> exists n, lns G !! j = Some n /\ hlive n = true.
Proof.
  induction l as [|c l IH]; intros d j Hc Hj; [by apply elem_of_nil in Hj|]. destruct Hc as (n & Hn & Hv & Hc).
  apply elem_of_cons in Hj as [->|Hj]; [|by eapply IH]. exists n. split; [done|]. unfold hlive. by rewrite Hv.
Qed.

Lemma down_evicted G l : forall a j, down G a l -> j ∈ l -> exists n, lns G !! j = Some n /\ hlive n = false.
Proof.
  induction l as [|c l IH]; intros a j Hd Hj; [by apply elem_of_nil in Hj|]. destruct Hd as [(cn & Hc & _ & Hl) Hd].
  apply elem_of_cons in Hj as [->|Hj]; [by eauto|by eapply (IH c)].
Qed.

Lemma load_finish_some uh held hheld s s2 a i n l hv d :
  hgood uh held hheld s -> lns (habs s) !! i = Some n -> hlive n = false -> down (habs s) a l -> ends_at a l i -> l <> [] ->
  hstate (a :: all_handles uh s) (d ++ held) hheld s2 -> hctl s2 = hctl (hs_xfer (push_load i hv d (xfer s)) s) ->
  thins (habs s) (habs s2) -> writes_backed (ongoing_write_through s) (habs s2) ->
  length d = length (host_of (habs s) l) -> paged (Z.of_nat ps) d ->
  exists s', load_finish a i l (Some d) s2 = (Ret (Some d), s') /\ hgood uh held hheld s' /\
    loaded (habs s) (habs s') i (Some d).
Proof.
  intros HG Hi Hl Hd He Hne HS2 C2 HT HW Hlen Hpg.
  destruct (handle_live cfg Hps _ (habs s2) a (hz_inv _ _ _ _ _ _ _ HS2)) as (an & Ha & Hal); [left|].
  destruct (load_unlock _ (d ++ held) hheld s2 a an HS2 Ha Hal) as (z & s3 & E3 & [HG3 HR3] & C3 & T3).
  unfold load_finish. py_step E3. rewrite hbind_modify. set (s4 := hs_loads _ s3).
  assert (thins (habs s) (habs s3)) as HT3 by (eapply thins_trans; [exact HT|by apply thins_tiers]).
  destruct (same_tiers_lookup _ _ _ _ T3 Ha) as (an3 & Ha3 & _ & _ & _ & Ev3 & _).
  assert (hlive an3 = true) as Hal3 by (unfold hlive in *; by rewrite Ev3).
  pose proof (down_thins _ _ a l HT3 Hd) as Hd3. pose proof (down_host_thins _ _ a l HT3 Hd) as Hho.
  pose proof HG3 as [HI3 Ho3].
  destruct (assign_values_ok l s4 d) as (s5 & E5 & R5 & A5).
  { change (habs s4) with (habs s3). clear -Hd3 Ho3. revert a Hd3. induction l as [|c l IH]; intros a Hd; [constructor|].
    destruct Hd as [(cn & Hc & _ & Hl) Hd]. constructor; [|by apply (IH c)].
    destruct (hok_evicted Ho3 _ _ Hc Hl) as (Hr & Hb & _). destruct (hs_host cn) as [h|] eqn:Eh; [|unfold hbacked in Hb; by rewrite Eh in Hb].
    exists cn, h. split_and!; [done|done|]. by apply (to_host (hv_tier Ho3 _ _ Hc Hr)). }
  py_step E5. change (habs s4) with (habs s3) in A5.
  set (s6 := hs_tree (set_sizes (evictable_size_ (tree s5) + len d) (protected_size_ (tree s5)) (tree s5)) s5).
  rewrite (py_bind_Ret _ _ s5 tt s6) by done.
  destruct (revives_ok (all_handles uh s) held hheld (kv_pool (tree s3)) (host s3) l ∅ ∅ (habs s3) a an3 d)
    as (V1 & V2 & V3 & V4 & V5 & V6 & V7); [by apply hok_hok2|done|done|done|done|congruence|done|done|].
  set (G' := revives (habs s3) l d) in *.
  assert (habs s6 = G') as A6.
  { replace (habs s6) with (with_ev (g_ev (habs s5) + len d) (habs s5)) by done. rewrite A5.
    change (with_ev ?e (with_ev ?f ?G)) with (with_ev e G). change (g_ev (with_ev ?e ?G)) with e.
    unfold len. rewrite <-V5. by destruct G'. }
  apply hrest_parts in R5 as (C5 & K5 & Ho5).
  pose proof (revives_parts l (habs s3) d) as Hparts. fold G' in Hparts.
  assert (i ∈ l) as Hil.
  { unfold ends_at in He. destruct (last l) as [x|] eqn:Ex; [|by apply last_None in Ex]. simpl in He. subst x. by apply last_Some_elem_of. }
  destruct (carries_live _ _ _ i V4 Hil) as (n' & Hn' & Hl').
  pose proof (down_anc (habs s3) l a i Hd3 He) as Hanc.
  destruct (hi_inc_from cfg (i :: all_handles uh s) s6 i (∅ ∪ (({[a]} ∪ list_to_set l) ∖ {[g_root (habs s3)]})) (∅ ∪ list_to_set l) Hdis)
    as (s7 & E7 & HG7 & T7 & R7).
  { rewrite A6. constructor.
    - apply walking_start; [done|]. eexists. by apply gfull_lookup_1.
    - exact V1.
    - intros j Hj. split; [rewrite V6; set_solver|]. apply (anc_parts (habs s3)); [done|]. apply Hanc. set_solver.
    - intros j Hj. assert (j ∈ l) as Hjl by set_solver. destruct (down_evicted _ _ _ j Hd3 Hjl) as (jn & Hjn & Hjl').
      split; [rewrite V6; by apply (hok_evicted Ho3 _ _ Hjn Hjl')|]. apply (anc_parts (habs s3)); [done|]. apply Hanc. by right.
    - by eauto. }
  py_step E7. exists s7. split; [done|]. rewrite A6 in T7.
  apply hrest_parts in R7 as (C7 & K7 & Ho7).
  pose proof (hctl_parts _ _ C2) as (W2 & O2 & X2 & P2). pose proof (hctl_parts _ _ C3) as (W3 & O3 & X3 & P3).
  pose proof (hctl_parts _ _ C5) as (W5 & O5 & X5 & P5). pose proof (hctl_parts _ _ C7) as (W7 & O7 & X7 & P7).
  simpl in W2, O2, X2, P2, W5, O5, X5, P5, W7, O7, X7, P7.
  rewrite W5, W3, W2 in W7. rewrite O5, O3, O2 in O7. rewrite X5, X3, X2 in X7. rewrite P5, P3, P2 in P7.
  pose proof HG as [[HGs _] Gq Gw Gl Gb Gp Gs].
  assert (i ∉ ongoing_load_back s) as Hnew.
  { intros Hin. destruct (handle_live cfg Hps _ _ i HGs) as (n0 & Hn0 & Hl0); [unfold all_handles; set_solver|]. congruence. }
  pose proof (elements_add _ _ Hnew) as Hel. split.
  - constructor.
    + split.
      * eapply hinv_perm; [|exact HG7]. unfold all_handles. rewrite W7, O7, Hel. solve_Permutation.
      * rewrite K7, Ho7. change (kv_pool (tree s6)) with (kv_pool (tree s5)). change (host s6) with (host s5).
        rewrite K5, Ho5. eapply res_locks; [exact T7|]. exact V3.
    + by rewrite X7.
    + by rewrite X7, W7.
    + rewrite X7, O7. simpl. rewrite fmap_app, concat_app, Hel, <-Gl. simpl. solve_Permutation.
    + intros j Hj. rewrite W7 in Hj. destruct (writes_backed_tiers _ _ _ T3 HW j Hj) as (n3 & Hn3 & Hb3).
      destruct (parts_lookup _ _ _ _ Hparts Hn3) as (n6 & Hn6 & _ & _ & _ & Eh & _).
      apply (writes_backed_tiers {[j]} _ _ T7); [|set_solver]. intros j' ->%elem_of_singleton. exists n6. split; [done|].
      unfold hbacked in *. by rewrite Eh.
    + unfold is_write_back in *. by rewrite P7.
    + by rewrite P7.
  - exists a, l, (habs s3). split_and!; try done; [by eauto|]. by eapply carries_tiers.
Qed.

Lemma load_back_ok uh held hheld s i n quota :
  hgood uh held hheld s -> lns (habs s) !! i = Some n -> hlive n = false ->
  exists o s', load_back (H := H) cfg sha256 i quota s = (Ret o, s') /\ hgood uh held hheld s' /\
    loaded (habs s) (habs s') i o.
Proof.
  intros HG Hi Hl. pose proof HG as [[HGs HRs] Gq Gw Gl Gb Gp Gs]. pose proof HGs as [HIs Hos].
  unfold load_back. rewrite hbind_get. destruct (it_rank (hv_tree Hos)) as [dr Hdr].
  destruct (Hdr i _ (gfull_lookup_1 _ _ _ Hi)) as [Hlt _]. simpl in Hlt.
  destruct (load_path_ok dr s (S (counter (tree s))) i [] Hos Hdr) as (a & an & l & E0 & Ha & Hal & Hd & He); [eauto|lia|].
  rewrite app_nil_r in E0. rewrite (py_bind_Ret _ _ _ _ _ E0). cbn beta iota.
  assert (l <> []) as Hne. { intros ->. unfold ends_at in He. simpl in He. congruence. }
  destruct (hi_inc_lock_ref_ok cfg _ s a an Hdis HGs Ha Hal) as (s1 & E1 & HG1 & T1 & R1). py_step E1.
  apply hrest_parts in R1 as (C1 & K1 & Ho1).
  assert (hstate (a :: all_handles uh s) held hheld s1) as HS1.
  { split; [done|]. rewrite K1, Ho1. by eapply res_locks. }
  rewrite (proj2 (Nat.eqb_neq (length l) 0)) by (by destruct l). rewrite hbind_ret.
  pose proof (thins_tiers _ _ T1) as HT1. pose proof (down_thins _ _ a l HT1 Hd) as Hd1.
  destruct (host_values_ok ∅ s1 l a (proj2 HG1) Hd1) as [E2 Hal2]. py_step E2.
  rewrite (down_host_thins _ _ a l HT1 Hd) in *. set (hv := host_of (habs s) l) in *.
  pose proof (writes_backed_tiers _ _ _ T1 Gb) as HW1.
  destruct ((length hv <? load_back_threshold)%nat || _).
  { destruct (load_finish_none uh held hheld s s1 a i l HG HS1 C1 HT1 HW1) as (s' & E & HG' & HT). eauto. }
  destruct (ctl_load_ok _ held hheld s1 hv i HS1 Hal2) as (o & s2 & E3 & A2 & Ho2 & H2). py_step E3.
  pose proof (hctl_parts _ _ C1) as (_ & _ & X1 & P1).
  destruct o as [d|].
  { rewrite hbind_ret. destruct H2 as (Hlen & Hpg & HS2 & C2).
    destruct (load_finish_some uh held hheld s s2 a i n l hv d) as (s' & E & HG' & HL); try done; rewrite ?A2; try done; [|eauto].
    rewrite C2. unfold hctl in *. simpl. rewrite X1. injection C1 as -> -> -> _ -> -> -> -> ->. done. }
  destruct H2 as (HS2 & C2 & _). rewrite hbind_assoc.
  assert (is_write_back s2 = false) as Hpol.
  { unfold is_write_back in *. pose proof (hctl_parts _ _ C2) as (_ & _ & _ & P2). by rewrite P2, P1. }
  destruct (hi_evict_ok (H := H) cfg sha256 Hps Hevents D L HD _ held hheld s2 (len hv) HS2 Hpol) as (f & s3 & E4 & [V1 V2 V3 _ _ _ _] & _).
  py_step E4. destruct (ctl_load_ok _ held hheld s3 hv i V1 Hal2) as (o & s4 & E5 & A4 & _ & H4). py_step E5.
  assert (thins (habs s) (habs s3)) as HT3.
  { eapply thins_trans; [exact HT1|]. rewrite <-A2. by apply thins_sheds. }
  assert (writes_backed (ongoing_write_through s) (habs s3)) as HW3.
  { intros j Hj. destruct (HW1 j Hj) as (nj & Hnj & Hbj). rewrite <-A2 in Hnj.
    eapply (sheds_backed cfg Hps (a :: all_handles uh s) (habs s2)); [apply HS2|done| |done|done].
    right. unfold all_handles. set_solver. }
  assert (hctl s3 = hctl s) as C3 by congruence. pose proof (hctl_parts _ _ C3) as (_ & _ & X3 & _).
  destruct o as [d|].
  - destruct H4 as (Hlen & Hpg & HS4 & C4).
    destruct (load_finish_some uh held hheld s s4 a i n l hv d) as (s' & E & HG' & HL); try done; rewrite ?A4; try done; [|eauto].
    rewrite C4. unfold hctl in *. simpl. rewrite X3. injection C3 as -> -> -> _ -> -> -> -> ->. done.
  - destruct H4 as (HS4 & C4 & _).
    destruct (load_finish_none uh held hheld s s4 a i l HG HS4) as (s' & E & HG' & HT); [congruence|by rewrite A4|by rewrite A4|eauto].
Qed.
End load.
