(* ===== verification/HiChecks.v ===== *)
(** * Acknowledgements and the scheduler's entry points

    [init_load_back], [writing_check] and [loading_check]: transfers that have finished are
    unlocked, in the order in which they were started. *)

From stdpp Require Import base tactics list gmap strings.
From Stdlib Require Import ZArith Lia.
From S2P Require Import Prelude PyStr RadixKey TreeNode EvictPolicy Allocator AllocatorProofs KVEvents.
From S2P Require Import RadixTree RadixInv RadixPaths RadixSlots RadixWalk RadixProofs RadixLocks ReqPool.
From S2P Require Import HiController HiRadix HiInv HiPrims HiProofs HiLocks HiRes HiHost HiBackup HiEvict HiLoad.

Section checks.
Context {T : Type} `{!KVAllocator T} {H : Type} `{!HeapQ H} {B Page : Type} `{!StorageBackend B Page}.
Context (cfg : Config) (sha256 : list Z -> string).
Context (Hps : (0 < cfg_page_size cfg)%nat) (Hevents : enable_kv_cache_events cfg = false) (Hdis : disable cfg = false).
Context (D L : list Z) (HD : NoDup D).
Local Abbreviation Hi := (HiCache T B Page).
Local Abbreviation ps := (cfg_page_size cfg).
Local Abbreviation eagle := (is_eagle cfg).
Local Abbreviation hstate := (hstate cfg D L).
Local Abbreviation hgood := (hgood cfg D L).
Implicit Types s : Hi.

(** ** [init_load_back] *)

Lemma init_load_back_ok uh held hheld s i quota :
  hgood uh held hheld s -> is_Some (lns (habs s) !! i) ->
  exists d j s' n, init_load_back (H := H) cfg sha256 i quota s = (Ret (d, j), s') /\ hgood uh held hheld s' /\
    lns (habs s') !! j = Some n /\ hlive n = true /\
    (j = i /\ d = [] /\ s' = s \/ j = i /\ loaded (habs s) (habs s') i (Some d) \/ d = [] /\ loaded (habs s) (habs s') i None).
Proof.
  intros HG [n Hi]. pose proof Hi as (m & Hm & <- & Hu)%habs_linked. unfold init_load_back.
  py_step (node_at_ok s i m Hm). rewrite evicted_live. destruct (hlive (hshape m)) eqn:El; cbn [negb].
  { eexists [], i, s, _. split_and!; try done. by left. }
  destruct (load_back_ok (H := H) cfg sha256 Hps Hevents Hdis D L HD uh held hheld s i _ quota HG Hi El) as (o & s1 & E1 & HG1 & HL).
  py_step E1. destruct o as [d|].
  - pose proof HL as (a & l & G1 & HT & Hd & He & Ha & _ & _ & Hc).
    assert (i ∈ l) as Hil.
    { unfold ends_at in He. destruct (last l) as [x|] eqn:Ex; [simpl in He; subst x; by apply last_Some_elem_of|].
      apply last_None in Ex as ->. simpl in He. subst a. destruct Ha as (an & Ha & Hal).
      destruct (tn_host _ _ HT i _ Hi El) as (n1 & Hn1 & _ & _ & Ev & _). assert (n1 = an) as -> by congruence.
      unfold hlive in *. rewrite Ev in Hal. congruence. }
    destruct (carries_live _ _ _ i Hc Hil) as (n & Hn & Hl). eexists d, i, s1, n. split_and!; try done. right. by left.
  - rewrite hbind_get. pose proof HL as HT. destruct (tn_host _ _ HT i _ Hi El) as (n1 & Hn1 & _).
    pose proof HG1 as [[[HI1 Ho1] _] _ _ _ _ _ _]. destruct (it_rank (hv_tree Ho1)) as [d Hd].
    destruct (Hd i _ (gfull_lookup_1 _ _ _ Hn1)) as [Hlt _]. simpl in Hlt.
    destruct (climb_live_ok cfg Hps d s1 (S (counter (tree s1))) i Ho1 Hd) as (j & jn & E2 & Hj & Hjl); [eauto|lia|].
    py_step E2. eexists [], j, s1, jn. split_and!; try done. right. by right.
Qed.

(** ** [writing_check] *)

(** The state with an acknowledgement still in its queue. *)
Definition repush (e : nat) (ids : list nat) (s : Hi) : Hi :=
  hs_xfer (set_ack_write_queue (mkAck e ids :: ack_write_queue (xfer s)) (xfer s)) s.

Lemma ack_writes_ok uh held hheld e ids : forall s,
  hgood uh held hheld (repush e ids s) ->
  exists s', ack_writes cfg sha256 true ids s = (Ret tt, s') /\ hgood uh held hheld (repush e [] s') /\
    same_tiers (habs s) (habs s') /\ xfer s' = xfer s.
Proof.
  induction ids as [|i ids IH]; intros s HG; [exists s; split_and!; [done|done|apply same_tiers_refl|done]|].
  pose proof HG as [[HGs HRs] Gq Gw Gl Gb Gp Gs]. simpl in *.
  assert (i ∈ ongoing_write_through s) as Hin by (apply elem_of_elements; rewrite <-Gw; left).
  cbn [ack_writes]. rewrite hbind_get, bool_decide_eq_true_2, hbind_modify by done.
  rewrite (no_store_event cfg sha256 Hevents). set (s1 := hs_writes _ s).
  pose proof (elements_del _ _ Hin) as Hel.
  destruct (handle_live cfg Hps _ _ i HGs) as (n & Hn & Hl); [unfold all_handles; set_solver|].
  assert (all_handles uh (repush e (i :: ids) s) ≡ₚ i :: all_handles uh s1) as Hperm.
  { unfold all_handles. simpl. rewrite Hel. solve_Permutation. }
  destruct (hi_dec_lock_ref_ok cfg _ (all_handles uh s1) s1 i n Hdis HGs Hperm Hn Hl) as (s2 & E2 & HG2 & T2 & R2).
  rewrite hbind_assoc. py_step E2. rewrite hbind_ret. rewrite Gs, hbind_ret. apply hrest_parts in R2 as (C2 & K2 & Ho2).
  pose proof (hctl_parts _ _ C2) as (W2 & O2 & X2 & P2). simpl in W2, O2, X2, P2.
  destruct (IH s2) as (s3 & E3 & HG3 & T3 & Q3).
  { constructor; simpl.
    - split.
      + change (habs (repush e ids s2)) with (habs s2). unfold all_handles in *. simpl in *. by rewrite W2, O2.
      + change (habs (repush e ids s2)) with (habs s2). simpl. rewrite K2, Ho2. eapply res_locks; [exact T2|]. exact HRs.
    - by rewrite X2.
    - rewrite X2, W2. rewrite Hel in Gw. by apply (Permutation_cons_inv (a := i)).
    - by rewrite X2, O2.
    - intros j Hj. rewrite W2 in Hj. change (habs (repush e ids s2)) with (habs s2).
      apply (writes_backed_tiers (ongoing_write_through s) _ _ T2); [exact Gb|set_solver].
    - unfold is_write_back in *. simpl in *. by rewrite P2.
    - by rewrite P2. }
  exists s3. split_and!; [done|done|eapply same_tiers_trans; [exact T2|done]|by rewrite Q3, X2].
Qed.

Lemma repush_nil uh held hheld e s : hgood uh held hheld (repush e [] s) -> hgood uh held hheld s.
Proof. intros [[G0 G1] G2 G3 G4 G5 G6 G7]. by constructor. Qed.

Lemma ack_finished_ok uh held hheld n : forall s,
  hgood uh held hheld s -> (n <= length (ack_write_queue (xfer s)))%nat ->
  exists s', ack_finished cfg sha256 n s = (Ret tt, s') /\ hgood uh held hheld s' /\ same_tiers (habs s) (habs s') /\
    xfer s' = set_ack_write_queue (drop n (ack_write_queue (xfer s))) (xfer s).
Proof.
  induction n as [|n IH]; intros s HG Hn; [exists s; split_and!; [done|done|apply same_tiers_refl|rewrite drop_0; by destruct (xfer s)]|].
  cbn [ack_finished]. rewrite hbind_get. destruct (ack_write_queue (xfer s)) as [|a q] eqn:Eq; [simpl in Hn; lia|].
  set (s1 := hs_xfer (set_ack_write_queue q (xfer s)) s). rewrite (py_bind_Ret _ _ s tt s1) by done.
  destruct (ack_writes_ok uh held hheld (ack_event a) (ack_node_ids a) s1) as (s2 & E2 & HG2 & T2 & Q2).
  { unfold repush. simpl. replace (mkAck (ack_event a) (ack_node_ids a)) with a by (by destruct a). rewrite <-Eq.
    assert (hs_xfer (set_ack_write_queue (ack_write_queue (xfer s)) (set_ack_write_queue q (xfer s))) s1 = s) as ->; [|done].
    unfold s1. destruct s as [? ? ? ? ? ? x]. simpl. by destruct x. }
  py_step E2. apply repush_nil in HG2. destruct (IH s2 HG2) as (s3 & E3 & HG3 & T3 & Q3); [rewrite Q2; simpl in *; lia|].
  exists s3. split_and!; [done|done|eapply same_tiers_trans; [exact T2|done]|]. rewrite Q3, Q2. done.
Qed.

Lemma finished_prefix_le done acks : (finished_prefix done acks <= length acks)%nat.
Proof. induction acks as [|a acks IH]; simpl; [lia|]. destruct (done (ack_event a)); lia. Qed.

Lemma writing_check_ok uh held hheld s finished reduce_min :
  hgood uh held hheld s -> (forall n, (reduce_min n <= n)%nat) ->
  exists s', writing_check cfg sha256 finished reduce_min s = (Ret tt, s') /\ hgood uh held hheld s' /\
    same_tiers (habs s) (habs s') /\
    (ongoing_write_through s = ∅ /\ s' = s \/
     xfer s' = set_ack_write_queue (drop (reduce_min (finished_prefix finished (ack_write_queue (xfer s)))) (ack_write_queue (xfer s))) (xfer s)).
Proof.
  intros HG Hmin. unfold writing_check. rewrite hbind_get. case_bool_decide as He.
  { exists s. split_and!; [done|done|apply same_tiers_refl|by left]. }
  destruct (ack_finished_ok uh held hheld (reduce_min (finished_prefix finished (ack_write_queue (xfer s)))) s HG)
    as (s' & E & R1 & R2 & R3); [pose proof (finished_prefix_le finished (ack_write_queue (xfer s)));
      specialize (Hmin (finished_prefix finished (ack_write_queue (xfer s)))); lia|]. eauto 10.
Qed.

(** ** [loading_check] *)

Definition with_acks (q : list HiCacheAck) (s : Hi) : Hi := hs_xfer (set_ack_load_queue q (xfer s)) s.

Lemma ack_loads_ok uh held hheld e q ids : forall s,
  hgood uh held hheld (with_acks (mkAck e ids :: q) s) ->
  exists s', ack_loads cfg ids s = (Ret tt, s') /\ hgood uh held hheld (with_acks (mkAck e [] :: q) s') /\
    same_tiers (habs s) (habs s') /\ xfer s' = xfer s.
Proof.
  induction ids as [|i ids IH]; intros s HG; [exists s; split_and!; [done|done|apply same_tiers_refl|done]|].
  pose proof HG as [[HGs HRs] Gq Gw Gl Gb Gp Gs]. simpl in *.
  assert (i ∈ ongoing_load_back s) as Hin by (apply elem_of_elements; rewrite <-Gl; set_solver).
  cbn [ack_loads]. rewrite hbind_get, bool_decide_eq_true_2, hbind_modify by done. set (s1 := hs_loads _ s).
  pose proof (elements_del _ _ Hin) as Hel.
  destruct (handle_live cfg Hps _ _ i HGs) as (n & Hn & Hl); [unfold all_handles; set_solver|].
  assert (all_handles uh (with_acks (mkAck e (i :: ids) :: q) s) ≡ₚ i :: all_handles uh s1) as Hperm.
  { unfold all_handles. simpl. rewrite Hel. solve_Permutation. }
  destruct (hi_dec_lock_ref_ok cfg _ (all_handles uh s1) s1 i n Hdis HGs Hperm Hn Hl) as (s2 & E2 & HG2 & T2 & R2).
  py_step E2. apply hrest_parts in R2 as (C2 & K2 & Ho2).
  pose proof (hctl_parts _ _ C2) as (W2 & O2 & X2 & P2). simpl in W2, O2, X2, P2.
  destruct (IH s2) as (s3 & E3 & HG3 & T3 & X3).
  { constructor; simpl.
    - split.
      + change (habs (with_acks (mkAck e ids :: q) s2)) with (habs s2). unfold all_handles in *. simpl in *. by rewrite W2, O2.
      + change (habs (with_acks (mkAck e ids :: q) s2)) with (habs s2). simpl. rewrite K2, Ho2. eapply res_locks; [exact T2|]. exact HRs.
    - by rewrite X2.
    - by rewrite X2, W2.
    - rewrite X2, O2. apply (Permutation_cons_inv (a := i)). rewrite <-Hel, <-Gl. solve_Permutation.
    - intros j Hj. rewrite W2 in Hj. change (habs (with_acks (mkAck e ids :: q) s2)) with (habs s2).
      apply (writes_backed_tiers (ongoing_write_through s) _ _ T2); [exact Gb|done].
    - unfold is_write_back in *. simpl in *. by rewrite P2.
    - by rewrite P2. }
  exists s3. split_and!; [done|done|eapply same_tiers_trans; [exact T2|done]|by rewrite X3, X2].
Qed.

Lemma ack_load_acks_ok uh held hheld q acks : forall s,
  hgood uh held hheld (with_acks (acks ++ q) s) ->
  exists s', ack_load_acks cfg acks s = (Ret tt, s') /\ hgood uh held hheld (with_acks q s') /\
    same_tiers (habs s) (habs s') /\ xfer s' = xfer s.
Proof.
  induction acks as [|a acks IH]; intros s HG; [exists s; split_and!; [done|done|apply same_tiers_refl|done]|].
  cbn [ack_load_acks]. destruct (ack_loads_ok uh held hheld (ack_event a) (acks ++ q) (ack_node_ids a) s) as (s1 & E1 & HG1 & T1 & X1).
  { replace (mkAck (ack_event a) (ack_node_ids a)) with a by (by destruct a). done. }
  py_step E1. destruct (IH s1) as (s2 & E2 & HG2 & T2 & X2).
  { destruct HG1 as [[G0 G1] G2 G3 G4 G5 G6 G7]. by constructor. }
  exists s2. split_and!; [done|done|eapply same_tiers_trans; [exact T1|done]|congruence].
Qed.

Lemma loading_check_ok uh held hheld s finished :
  hgood uh held hheld s ->
  exists s', loading_check cfg finished s = (Ret tt, s') /\ hgood uh held hheld s' /\ same_tiers (habs s) (habs s') /\
    xfer s' = set_ack_load_queue (drop (finished_prefix finished (ack_load_queue (xfer s))) (ack_load_queue (xfer s))) (xfer s).
Proof.
  intros HG. unfold loading_check. rewrite hbind_get. cbv zeta. set (k := finished_prefix _ _).
  destruct (ack_load_acks_ok uh held hheld (drop k (ack_load_queue (xfer s))) (take k (ack_load_queue (xfer s))) s)
    as (s1 & E1 & HG1 & T1 & X1).
  { rewrite take_drop. assert (with_acks (ack_load_queue (xfer s)) s = s) as ->; [|done].
    destruct s as [? ? ? ? ? ? x]. unfold with_acks. simpl. by destruct x. }
  py_step E1. eexists. split; [unfold on_xfer, py_modify; reflexivity|]. rewrite X1. split_and!; [|done|done].
  assert (hs_xfer (set_ack_load_queue (drop k (ack_load_queue (xfer s))) (xfer s)) s1 = with_acks (drop k (ack_load_queue (xfer s))) s1) as ->;
    [by unfold with_acks; rewrite X1|done].
Qed.

(** ** [ready_to_load_host_cache]: the queued loads start as one transfer. *)
Lemma ready_to_load_ok uh held hheld s ready :
  hgood uh held hheld s -> (forall i, ready i = true) ->
  exists z s', ready_to_load_host_cache ready s = (Ret z, s') /\ hgood uh held hheld s' /\ habs s' = habs s /\
    load_queue (xfer s') = [].
Proof.
  intros HG Hr. unfold ready_to_load_host_cache, on_xfer, start_loading. rewrite (py_bind_Ret py_get _ (xfer s) (xfer s) (xfer s) eq_refl).
  destruct (load_queue (xfer s)) as [|op ops] eqn:Eq.
  { simpl. exists (-1), s. split_and!; try done. unfold mret, PyM_ret. f_equal. by destruct s. }
  assert (exists z s', (let '(r, x) := (producer_id ← update_producer ready; op ← merge_ops (op :: ops);
      _ ← py_modify (set_load_queue []);
      _ ← py_modify (fun x => set_ack_load_queue (ack_load_queue x ++ [mkAck (co_id op) (co_node_ids op)]) x);
      mret producer_id) (xfer s) in (r, hs_xfer x s)) = (Ret z, s') /\
      exists x, s' = hs_xfer x s /\ write_queue x = write_queue (xfer s) /\ load_queue x = [] /\
        ack_write_queue x = ack_write_queue (xfer s) /\
        concat (ack_node_ids <$> ack_load_queue x)
          = concat (ack_node_ids <$> ack_load_queue (xfer s)) ++ concat (co_node_ids <$> op :: ops)) as (z & s' & E & x & -> & X1 & X2 & X3 & X4).
  { unfold update_producer, mbind, PyM_bind, py_modify, py_get, py_assert. cbn. rewrite Hr. cbn.
    destruct ops; cbn; eexists _, _; (split; [reflexivity|]); eexists; (split; [reflexivity|]);
      cbn; rewrite fmap_app, concat_app; cbn; rewrite ?app_nil_r; done. }
  exists z, (hs_xfer x s). split; [exact E|]. split_and!; [|done|done].
  destruct HG as [[G0 G1] G2 G3 G4 G5 G6 G7]. constructor; simpl.
  - by split.
  - congruence.
  - by rewrite X3.
  - rewrite X2, X4, <-G4, Eq. simpl. solve_Permutation.
  - exact G5.
  - exact G6.
  - exact G7.
Qed.
End checks.
