(* ===== verification/HiInsert.v ===== *)
(** * Insertion into the two-tier cache

    The descent of [insert] splits nodes, counts hits on nodes that are on the device (which
    may start a backup and evict from the host), and lets evicted nodes take over the new
    indices; what is left of the key becomes a new leaf.  Afterwards the whole key is on the
    device: a prefix with the indices it had, the rest with the indices given. *)

From stdpp Require Import base tactics list gmap strings.
From Stdlib Require Import ZArith Lia.
From S2P Require Import Prelude PyStr RadixKey TreeNode EvictPolicy Allocator AllocatorProofs KVEvents.
From S2P Require Import RadixTree RadixInv RadixPaths RadixSlots RadixWalk RadixProofs RadixLocks ReqPool.
From S2P Require Import HiController HiRadix HiInv HiPrims HiProofs HiLocks HiRes HiHost HiBackup HiEvict HiLoad.

Section insert.
Context {T : Type} `{!KVAllocator T} {H : Type} `{!HeapQ H} {B Page : Type}.
Context (cfg : Config) (now : nat -> Z) (sha256 : list Z -> string).
Context (Hps : (0 < cfg_page_size cfg)%nat) (Hevents : enable_kv_cache_events cfg = false) (Hdis : disable cfg = false).
Context (D L : list Z) (HD : NoDup D).
Local Abbreviation Hi := (HiCache T B Page).
Local Abbreviation ps := (cfg_page_size cfg).
Local Abbreviation eagle := (is_eagle cfg).
Local Abbreviation hstate := (hstate cfg D L).
Local Abbreviation hgood := (hgood cfg D L).
Implicit Types s : Hi.

(** ** Changes that do not show *)

Lemma hgood_same uh held hheld s s' :
  hgood uh held hheld s -> habs s' = habs s -> hrest s' = hrest s -> hgood uh held hheld s'.
Proof.
  intros HG A (C & K & Ho)%hrest_parts. pose proof (gd_state _ _ _ _ _ _ _ HG) as [HGi HRi].
  eapply hgood_frame; [done|done| |rewrite A; eauto]. split; rewrite A; [done|]. by rewrite K, Ho.
Qed.

Lemma raise_ok s c cm prio :
  nodes (tree s) !! c = Some cm ->
  exists s', on_tree (raise_priority c prio) s = (Ret tt, s') /\ habs s' = habs s /\ hrest s' = hrest s /\
    nodes (tree s') = <[c := set_priority (Z.max (priority cm) prio) cm]> (nodes (tree s)).
Proof. intros Hc. by apply (update_quiet s c (fun n => set_priority (Z.max (priority n) prio) n) cm Hc). Qed.

(** ** Splits keep what is on the device *)

Lemma split_linked Y G p pn c cn ck rest k i n :
  hok ps eagle Y G -> lns G !! p = Some pn -> lns G !! c = Some cn ->
  split_pre ps eagle (gfull G) p (fsh pn) c (fsh cn) ck rest k (tier_val cn) -> lns G !! i = Some n ->
  exists n', lns (g_split G p pn c cn ck rest k) !! i = Some n' /\ hlive n' = hlive n /\ hbacked n' = hbacked n.
Proof.
  intros Ho Hp Hc Hsp Hi. destruct (gsplit_ids Ho Hsp) as (_ & _ & _ & Hfr & _).
  destruct (gsplit_linked _ _ _ _ Ho _ _ _ _ _ _ _ Hp Hc Hsp i n Hi) as [n' Hn'].
  destruct (gsplit_flags _ _ _ _ Ho _ _ _ _ _ _ _ Hp Hc Hsp i n' Hn') as (m0 & Hm0 & E1 & E2 & _).
  rewrite decide_False in Hm0 by congruence. assert (m0 = n) as -> by congruence. eauto.
Qed.

Lemma split_keeps Y G p pn c cn ck rest k :
  hok ps eagle Y G -> lns G !! p = Some pn -> lns G !! c = Some cn ->
  split_pre ps eagle (gfull G) p (fsh pn) c (fsh cn) ck rest k (tier_val cn) ->
  keeps G (g_split G p pn c cn ck rest k).
Proof.
  intros Ho Hp Hc Hsp. split; [done|]. intros ek us vs b bn Hpath Hb Hl. split.
  - rewrite (gsplit_full Ho Hp Hc Hsp). by apply (ex_path _ _ (split_extends _ _ _ _ _ _ _ _ _ _ _ Hsp)).
  - destruct (split_linked Y G p pn c cn ck rest k b bn Ho Hp Hc Hsp Hb) as (bn' & Hb' & E & _). exists bn'. split; [done|congruence].
Qed.

(** ** One step down *)

(** The node [node'] below [node] that carries the first [l] units of [k]. *)
Record stepped (s s' : Hi) (node : nat) (k : RadixKey) (c : nat) (lv : bool) (l node' : nat) : Prop := mkStepped {
  sp_keeps : keeps (habs s) (habs s');
  sp_bounds : (0 < l <= key_len k)%nat /\ aligned ps l;
  sp_node : exists n', lns (habs s') !! node' = Some n' /\ hs_par n' = Some node /\ hlive n' = lv /\
    key_len (hs_key n') = l /\ node' <> g_root (habs s') /\
    units (hs_key n') = take l (units k) /\ extra_key (hs_key n') = extra_key k }.

(** The statements of an iteration up to the choice of the node. *)
Definition step_code (prio : Z) (k : RadixKey) (c : nat) : PyM Hi (nat * nat) :=
  t ← on_tree (monotonic now);
  _ ← update_at c (set_last_access t);
  _ ← on_tree (raise_priority c prio);
  cn ← node_at c;
  l ← py_lift (key_match ps (key cn) k);
  i ← (if (l =? key_len (key cn))%nat then mret c
       else id ← hi_split_node cfg now c l; _ ← on_tree (raise_priority id prio); mret id);
  mret (l, i).

Lemma step_code_bind {A} prio k c (f : nat -> nat -> PyM Hi A) s :
  (t ← on_tree (monotonic now);
   _ ← update_at c (set_last_access t);
   _ ← on_tree (raise_priority c prio);
   cn ← node_at c;
   l ← py_lift (key_match ps (key cn) k);
   i ← (if (l =? key_len (key cn))%nat then mret c
        else id ← hi_split_node cfg now c l; _ ← on_tree (raise_priority id prio); mret id);
   f l i) s = (step_code prio k c ≫= fun p => f p.1 p.2) s.
Proof.
  unfold step_code, mbind, PyM_bind. destruct (on_tree (monotonic now) s) as [[t|?|] s1]; try done.
  destruct (update_at c (set_last_access t) s1) as [[[]|?|] s2]; try done.
  destruct (on_tree (raise_priority c prio) s2) as [[[]|?|] s3]; try done.
  destruct (node_at c s3) as [[cn|?|] s4]; try done.
  destruct (py_lift (key_match ps (key cn) k) s4) as [[l|?|] s5]; try done.
  destruct (l =? key_len (key cn))%nat; [done|]. unfold hi_split_node at 1.
  destruct (hi_split_node cfg now c l s5) as [[i|?|] s6] eqn:E; unfold hi_split_node in E; rewrite E; try done.
  by destruct (on_tree (raise_priority i prio) s6) as [[[]|?|] s7].
Qed.

Lemma step_code_ok uh held hheld s node nm k ck c cm prio :
  hgood uh held hheld s -> nodes (tree s) !! node = Some nm -> node ∉ unlinked s -> is_bigram k = eagle ->
  aligned ps (key_len k) -> (0 < key_len k)%nat -> child_key ps k = Ret ck -> children nm !! ck = Some c ->
  nodes (tree s) !! c = Some cm ->
  exists l node' s', step_code prio k c s = (Ret (l, node'), s') /\ hgood uh held hheld s' /\
    stepped s s' node k c (hlive (hshape cm)) l node'.
Proof.
  intros HG Hnm Hnu Hb Hal Hpos Hck Hch Hcm0. pose proof HG as [[HGs HRs] _ _ _ _ _ _]. pose proof HGs as [HI Ho].
  assert (ps <= key_len k)%nat as Hpk by (by apply aligned_pos_le). pose proof (habs_linked_1 s node nm Hnm Hnu) as Hn.
  destruct (found_linked cfg s node nm ck c Ho Hnm Hnu Hch) as (cm' & Hcm & Hcu & Hcp & Hckc & Hcr).
  assert (cm' = cm) as -> by congruence.
  pose proof (habs_linked_1 s c cm Hcm Hcu) as Hc.
  pose proof (gfull_lookup_1 _ _ _ Hn) as Han. pose proof (gfull_lookup_1 _ _ _ Hc) as Hac.
  pose proof (step_match ps eagle Hps _ (hv_tree Ho) node c (fsh (hshape nm)) (fsh (hshape cm)) k ck _
    Hpk Hal Hb Han Hck Hch Hac eq_refl) as Hmatch.
  pose proof (plen_bounds ps eagle Hps _ (hv_tree Ho) node c (fsh (hshape nm)) (fsh (hshape cm)) k ck _
    Hpk Hb Han Hck Hch Hac eq_refl) as (P1 & P2 & P3 & P4 & P5).
  pose proof (step_node ps eagle Hps _ (hv_tree Ho) node c (fsh (hshape nm)) (fsh (hshape cm)) k ck _
    Hpk Hb Han Hck Hch Hac eq_refl) as (Hok & He & Hlen).
  simpl sh_key in *. set (l := plen ps (fsh (hshape cm)) k) in *.
  unfold step_code. destruct (touch_child now s c cm Hcm) as (t & s1 & E1 & A1 & R1 & N1).
  rewrite <-hbind_assoc. py_step E1.
  assert (nodes (tree s1) !! c = Some (set_last_access t cm)) as Hcm1 by (rewrite N1; apply lookup_insert_eq).
  destruct (raise_ok s1 c _ prio Hcm1) as (s2 & E2 & A2 & R2 & N2). py_step E2.
  assert (nodes (tree s2) !! c = Some (set_priority (Z.max (priority (set_last_access t cm)) prio) (set_last_access t cm))) as Hcm2
    by (rewrite N2; apply lookup_insert_eq).
  py_step (node_at_ok s2 c _ Hcm2). simpl key. rewrite Hmatch, hbind_lift.
  assert (hgood uh held hheld s2) as HG2 by (by apply (hgood_same uh held hheld s); congruence).
  assert (habs s2 = habs s) as A2' by congruence.
  assert ((0 < l <= key_len k)%nat /\ aligned ps l) as Hbounds by (split; [lia|done]).
  destruct (Nat.eqb_spec l (key_len (key cm))) as [HL|HL].
  - rewrite hbind_ret. exists l, c, s2. split_and!; [done|done|]. constructor; [rewrite A2'; apply keeps_refl|done|].
    exists (hshape cm). rewrite A2'. split_and!; try done.
    rewrite <-P5. symmetry. apply take_ge. rewrite length_units. simpl. lia.
  - assert (l < key_len (key cm))%nat as Hlt by lia. pose proof HG2 as [[HGs2 HRs2] _ _ _ _ _ _].
    destruct (split_step cfg now Hps (all_handles uh s2) s2 node (hshape nm) c (hshape cm) k ck l)
      as (rest & s3 & E3 & A3 & R3 & HG3 & Hw & Hid & Hsp); try done; rewrite ?A2'; try done. rewrite A2' in *.
    rewrite hbind_assoc. py_step E3. pose proof Hid as (im & Him & Hish & Hiu)%habs_linked.
    destruct (raise_ok s3 _ im prio Him) as (s4 & E4 & A4 & R4 & N4). rewrite hbind_assoc. py_step E4. rewrite hbind_ret.
    exists l, (counter (tree s2)), s4. split; [done|]. assert (habs s4 = habs s3) as A4' by congruence.
    pose proof (hrest_parts _ _ R3) as (C3 & K3 & Ho3).
    assert (hgood uh held hheld s3) as HGd3.
    { eapply hgood_frame; [exact HG2|done| |].
      - split; [done|]. rewrite K3, Ho3, A3. eapply res_split; try done.
      - intros j nj Hj Hnj Hbj. rewrite A2' in Hnj. rewrite A3.
        destruct (split_linked ∅ (habs s) node (hshape nm) c (hshape cm) ck rest l j nj Ho Hn Hc Hsp Hnj) as (n' & Hn' & _ & Eb).
        exists n'. split; [done|congruence]. }
    split; [by apply (hgood_same uh held hheld s3)|]. rewrite <-A4' in Hid, Hw. constructor.
    + rewrite A4', A3. by apply (split_keeps ∅).
    + done.
    + eexists. split; [exact Hid|]. split_and!.
      * done.
      * unfold hlive. simpl. by destruct (value cm).
      * simpl. autorewrite with keydb. lia.
      * rewrite A4', A3. change (counter (tree s2)) with (g_ctr (habs s2)). rewrite A2'.
        by destruct (gsplit_ids Ho Hsp) as (_ & _ & _ & _ & _ & Hne).
      * simpl. by autorewrite with keydb.
      * simpl. by autorewrite with keydb.
Qed.

(** ** Visiting a node *)

(** An evicted node takes over new indices. *)
Definition revive_code (i : nat) (n : TreeNode) (nv : list Z) : PyM Hi nat :=
  _ ← update_at i (set_value (Some nv));
  _ ← on_tree (py_modify (fun t => set_sizes (evictable_size_ t + len nv) (protected_size_ t) t));
  _ ← on_tree (_update_leaf_status i);
  _ ← _update_host_leaf_status i;
  par ← some_or AttributeError (parent n);
  _ ← on_tree (_update_leaf_status par);
  mret 0%nat.

Lemma path_from_parent Y G i n p :
  hok ps eagle Y G -> lns G !! i = Some n -> i <> g_root G -> hs_par n = Some p ->
  path (gfull G) (extra_key (hs_key n)) p (units (hs_key n)) (tier_val n) i.
Proof.
  intros Ho Hi Hr Hp. destruct (hok_parent Ho i n Hi Hr) as (p' & pn & ck & Hp' & Hpn & _ & Hin & _).
  assert (p' = p) as -> by congruence.
  apply (path_one _ _ p (fsh pn) ck i (fsh n)); try done; by apply gfull_lookup_1.
Qed.

Lemma revive_ok uh held hheld s i m p pn v :
  hgood uh (v ++ held) hheld s -> nodes (tree s) !! i = Some m -> lns (habs s) !! i = Some (hshape m) ->
  hlive (hshape m) = false -> parent m = Some p -> lns (habs s) !! p = Some pn -> hlive pn = true ->
  length v = key_len (key m) -> paged (Z.of_nat ps) v ->
  exists s', revive_code i m v s = (Ret 0%nat, s') /\ hgood uh held hheld s' /\ keeps (habs s) (habs s') /\
    lns (habs s') = <[i := with_val (Some v) (hshape m)]> (lns (habs s)) /\ i <> g_root (habs s') /\
    no_live_child (habs s') (with_val (Some v) (hshape m)) /\ g_root (habs s') = g_root (habs s).
Proof.
  intros HG Hm Hi Hl Hp Hpn Hpl Hlen Hpg. pose proof HG as [[HGs HRs] Gq Gw Gl Gb Gp Gs]. pose proof HGs as [HI Ho].
  destruct (hok_evicted Ho _ _ Hi Hl) as (Hr & _ & _). pose proof (proj1 (lns_lookup _ _ _) Hi) as [Hu _]. simpl in Hu.
  destruct (grevive_ok ps eagle ∅ ∅ (habs s) i (hshape m) p pn v (hok_hok2 _ _ _ _ Ho) Hi Hr Hl Hp Hpn Hpl Hlen) as [H2 Ef].
  set (G1 := g_put _ _ _ _ _ _ _) in H2, Ef.
  apply (grelv_ok _ _ _ _ _ i) in H2. apply (grehl_ok _ _ _ _ _ i) in H2. apply (grelv_ok _ _ _ _ _ p) in H2.
  set (G2 := g_relv (g_rehl (g_relv G1 i) i) p) in H2.
  assert (lns G2 = <[i := with_val (Some v) (hshape m)]> (lns (habs s))) as El
    by (change (lns G2) with (lns G1); by apply (gput_lns (habs s) i (hshape m))).
  unfold revive_code. run_update m by done. set (s1 := hnodes _ s).
  set (s2 := hs_tree (set_sizes (evictable_size_ (tree s1) + len v) (protected_size_ (tree s1)) (tree s1)) s1).
  rewrite (py_bind_Ret _ _ s1 tt s2) by done. set (m' := set_value (Some v) m).
  assert (nodes (tree s2) !! i = Some m') as Hm2 by (simpl; apply lookup_insert_eq).
  destruct (leaf_status_ok s2 i m' Hm2) as (s4 & E4 & A4 & R4 & N4). py_step E4.
  destruct (host_status_ok s4 i m') as (s5 & E5 & A5 & R5 & N5); [by rewrite N4| |].
  { change (i ∉ g_un (habs s4)). rewrite A4. done. }
  py_step E5. rewrite Hp, hbind_some. pose proof Hpn as (pm & Hpm & Epm & Hpu)%habs_linked.
  assert (p <> i) as Hpi by (intros ->; congruence).
  destruct (leaf_status_ok s5 p pm) as (s6 & E6 & A6 & R6 & N6); [rewrite N5, N4; simpl; by rewrite lookup_insert_ne|].
  py_step E6. exists s6. split; [done|].
  assert (habs s6 = G2) as A6'.
  { rewrite A6, A5, A4. unfold G2, G1, g_relv, g_rehl, g_put. simpl. rewrite !fmap_insert. unfold len. by rewrite Hlen. }
  assert (hrest s6 = hrest s2) as (C6 & K6 & Ho6)%hrest_parts by congruence.
  assert (hinv ps eagle (all_handles uh s) G2) as HG2.
  { split; [|eapply hok2_hok; [exact H2|set_solver|set_solver]].
    change (gfull G2) with (gfull G1). rewrite Ef. apply revalue_inv; [by apply gfull_lookup_1|done|done|done]. }
  rewrite A6'. split_and!; [|apply (keeps_nodes cfg ∅ ∅); [done|apply HG2|done|]|done|done| |done].
  - eapply hgood_frame; [exact HG|done| |].
    + split; rewrite A6'; [done|]. rewrite K6, Ho6. pose proof HRs as [R1 R2 R3 R4' R5' R6' R7'].
      eapply (res_put ps D L (v ++ held) hheld held hheld (habs s) G2 _ _ _ _ i (hshape m) _ Hi El); try done.
      * by intros w [= <-].
      * unfold slot_list. simpl. unfold hlive in Hl. simpl in Hl. destruct (value m); [done|]. simpl.
        change (kv_pool (tree s2)) with (kv_pool (tree s)). by rewrite (assoc_L (++)).
    + intros j nj Hj Hnj Hbj. rewrite A6', El. destruct (decide (j = i)) as [->|Hji].
      * rewrite lookup_insert_eq. eexists. split; [done|]. assert (nj = hshape m) as -> by congruence. done.
      * rewrite lookup_insert_ne by done. eauto.
  - intros j nj Hnj Hlj. rewrite El. destruct (decide (j = i)) as [->|]; [congruence|]. rewrite lookup_insert_ne by done. eauto.
  - intros ck c cn Hc Hcn. rewrite El in Hcn. simpl in Hc.
    destruct (hok_child Ho i _ ck c Hi Hc) as (cn0 & Hcn0 & _ & Hcp & _).
    rewrite lookup_insert_ne in Hcn; [by eapply (hok_evicted_child Ho i _ ck c)|]. intros <-.
    assert (cn0 = hshape m) as -> by congruence. simpl in Hcp. congruence.
Qed.

Lemma hgood_perm uh held held' hheld s : held ≡ₚ held' -> hgood uh held hheld s -> hgood uh held' hheld s.
Proof.
  intros Hp [[HI [R1 R2 R3 R4 R5 R6 R7]] G1 G2 G3 G4 G5 G6]. constructor; try done. split; [done|].
  constructor; try done. by rewrite <-Hp.
Qed.

Lemma good_ok uh held hheld s : hgood uh held hheld s -> hok ps eagle ∅ (habs s).
Proof. intros [[[_ Ho] _] _ _ _ _ _ _]. exact Ho. Qed.

Lemma visit_live uh held hheld s i m l v chunked :
  hgood uh held hheld s -> nodes (tree s) !! i = Some m -> lns (habs s) !! i = Some (hshape m) ->
  i <> g_root (habs s) -> hlive (hshape m) = true ->
  exists s', visit_node (H := H) cfg sha256 i l v chunked s = (Ret l, s') /\ hgood uh held hheld s' /\ keeps (habs s) (habs s').
Proof.
  intros HG Hm Hi Hr Hl.
  destruct (hi_inc_hit_count_ok (H := H) cfg sha256 Hps Hevents Hdis D L uh held hheld s i m chunked HG Hm Hi Hr Hl)
    as (s1 & E1 & HG1 & HB). unfold visit_node. py_step (node_at_ok s i m Hm). rewrite evicted_live, Hl. cbn [negb]. py_step E1.
  exists s1. split_and!; [done|done|]. apply (backs_keeps cfg ∅ ∅); [exact (good_ok _ _ _ _ HG)|exact (good_ok _ _ _ _ HG1)|exact HB].
Qed.

Lemma take_more {A} (a b : nat) (v : list A) : take (a + b) v = take a v ++ take b (drop a v).
Proof.
  revert v. induction a as [|a IH]; intros v; [done|]. destruct v as [|x v]; [by rewrite drop_nil, !take_nil|]. simpl. by rewrite IH.
Qed.

Lemma drop_take_more {A} (l r m : nat) (v : list A) :
  (r <= m)%nat -> drop (l + r) (take (l + m) v) = drop r (take m (drop l v)).
Proof. intros Hr. rewrite !skipn_firstn_comm, drop_drop. f_equal. lia. Qed.

(** Where a descent ended: after [m] units, the first [r] of them on the device before. *)
Record inserted_upto (uh : list nat) (held hheld : list Z) (s s' : Hi) (k : RadixKey) (v : list Z)
    (us0 : list KeyUnit) (vs0 : list Z) (m r : nat) (old : list Z) (node' : nat) (k' : RadixKey) (ck' : ChildKey) : Prop := mkUpto {
  iu_good : hgood uh (take r v ++ drop m v ++ held) hheld s';
  iu_keeps : keeps (habs s) (habs s');
  iu_bounds : (r <= m <= key_len k)%nat /\ aligned ps m /\ length old = r;
  iu_rest : remains k v m k' (drop m v);
  iu_node : exists n', lns (habs s') !! node' = Some n' /\ hlive n' = true /\
    ((0 < key_len k')%nat -> child_key ps k' = Ret ck' /\ hs_ch n' !! ck' = None);
  iu_path : path (gfull (habs s')) (extra_key k) (g_root (habs s')) (us0 ++ take m (units k))
    (vs0 ++ old ++ drop r (take m v)) node' }.

Lemma upto_stop uh held hheld s k v us0 vs0 node n ck :
  hgood uh (v ++ held) hheld s -> lns (habs s) !! node = Some n -> hlive n = true ->
  path (gfull (habs s)) (extra_key k) (g_root (habs s)) us0 vs0 node ->
  ((0 < key_len k)%nat -> child_key ps k = Ret ck /\ hs_ch n !! ck = None) ->
  inserted_upto uh held hheld s s k v us0 vs0 0 0 [] node k ck.
Proof.
  intros HG Hn Hl Hp Hs. constructor.
  - by rewrite take_0, drop_0.
  - apply keeps_refl.
  - split_and!; [lia..|apply aligned_0|done].
  - apply remains_0.
  - eauto.
  - by rewrite !take_0, drop_0, !app_nil_r.
Qed.

(** An iteration over [l] units followed by the rest of the loop. *)
Lemma upto_step uh held hheld s s1 s' k v us0 vs0 l (lv : bool) piece m r old node' k' ck' :
  keeps (habs s) (habs s1) -> length v = key_len k -> (l <= key_len k)%nat -> aligned ps l -> length piece = l ->
  (lv = false -> r = 0%nat /\ piece = take l v) ->
  inserted_upto uh (if lv then take l v ++ held else held) hheld s1 s' (key_drop l k) (drop l v)
    (us0 ++ take l (units k)) (vs0 ++ piece) m r old node' k' ck' ->
  inserted_upto uh held hheld s s' k v us0 vs0 (l + m) (if lv then l + r else 0)
    (if lv then piece ++ old else []) node' k' ck'.
Proof.
  intros HK Hlen Hl Hal Hpl Hlv [U1 U2 (U3 & U4 & U5) U6 U7 U8].
  autorewrite with keydb in U3, U8. rewrite drop_drop in U6.
  constructor.
  - eapply hgood_perm; [|exact U1]. rewrite drop_drop. destruct lv.
    + rewrite take_more. solve_Permutation.
    + destruct (Hlv eq_refl) as [-> _]. by rewrite !take_0.
  - by eapply keeps_trans.
  - split_and!; [destruct lv; lia|lia|by apply aligned_add|]. destruct lv; [rewrite length_app; lia|done].
  - by apply remains_drop.
  - done.
  - rewrite take_more. rewrite <-(assoc_L (++)) in U8. destruct lv.
    + rewrite drop_take_more by lia. rewrite <-!(assoc_L (++)) in *. exact U8.
    + destruct (Hlv eq_refl) as [-> ->]. rewrite drop_0. destruct old; [|simpl in U5; lia]. simpl in *.
      rewrite drop_0 in U8. rewrite take_more. rewrite <-!(assoc_L (++)) in *. exact U8.
Qed.

Lemma hi_insert_loop_ok uh hheld prio chunked fuel : forall s held node n k v ck total us0 vs0 (fl : bool),
  hgood uh (v ++ held) hheld s -> lns (habs s) !! node = Some n -> hlive n = true ->
  (fl = false -> no_live_child (habs s) n) ->
  path (gfull (habs s)) (extra_key k) (g_root (habs s)) us0 vs0 node ->
  is_bigram k = eagle -> aligned ps (key_len k) -> (key_len k < fuel)%nat ->
  ((0 < key_len k)%nat -> child_key ps k = Ret ck) -> length v = key_len k -> paged (Z.of_nat ps) v ->
  exists node' k' ck' m r old s',
    hi_insert_loop (H := H) cfg now sha256 fuel prio chunked node k v ck total s
    = (Ret (node', k', drop m v, ck', total + r)%nat, s') /\
    inserted_upto uh held hheld s s' k v us0 vs0 m r old node' k' ck' /\ (fl = false -> r = 0%nat).
Proof.
  induction fuel as [|fuel IH]; intros s held node n k v ck total us0 vs0 fl HG Hn Hl Hfl Hp Hb Hal Hf Hck Hlen Hpg; [lia|].
  cbn [hi_insert_loop]. destruct (Nat.ltb_spec 0 (key_len k)) as [Hpos|Hz].
  2: { exists node, k, ck, 0%nat, 0%nat, [], s. rewrite Nat.add_0_r, drop_0. split_and!; [done| |done].
       eapply upto_stop; try done. lia. }
  specialize (Hck Hpos). pose proof Hn as (nm & Hnm & <- & Hnu)%habs_linked. py_step (node_at_ok s node nm Hnm).
  destruct (children nm !! ck) as [c|] eqn:Hch.
  2: { exists node, k, ck, 0%nat, 0%nat, [], s. rewrite Nat.add_0_r, drop_0. split_and!; [done| |done]. by eapply upto_stop. }
  pose proof (good_ok _ _ _ _ HG) as Ho.
  destruct (found_linked cfg s node nm ck c Ho Hnm Hnu Hch) as (cm & Hcm & Hcu & _).
  rewrite (step_code_bind prio k c (fun l i => matched ← visit_node (H := H) cfg sha256 i l v chunked;
    let k' := key_drop l k in ck' ← hi_next_key cfg k' ck;
    hi_insert_loop (H := H) cfg now sha256 fuel prio chunked i k' (drop l v) ck' (total + matched)%nat)).
  destruct (step_code_ok uh (v ++ held) hheld s node nm k ck c cm prio HG Hnm Hnu Hb Hal Hpos Hck Hch Hcm)
    as (l & node' & s1 & E1 & HG1 & [K1 [[B1 B2] B3] (n1 & Hn1 & Hpar1 & Hlv1 & Hkl1 & Hr1 & Hun1 & Hex1)]).
  py_step E1. cbn [fst snd]. destruct K1 as [Kr Kp].
  destruct (Kp _ _ _ node (hshape nm) Hp Hn Hl) as (Hp1 & nn1 & Hnn1 & Hnl1). rewrite <-Kr in Hp1.
  pose proof (path_from_parent ∅ _ _ _ node (good_ok _ _ _ _ HG1) Hn1 Hr1 Hpar1) as Hpath1. rewrite Hun1, Hex1 in Hpath1.
  pose proof (path_app _ _ _ _ _ _ _ _ _ Hp1 Hpath1) as Hp1'.
  pose proof Hn1 as (m1 & Hm1 & Em1 & Hu1)%habs_linked. subst n1.
  destruct (paged_split ps l v Hps B3 Hpg) as [Pt Pd].
  assert (length (take l v) = l) as Htl by (rewrite length_take; lia).
  destruct (hlive (hshape cm)) eqn:Ecl.
  - (* on the device *)
    destruct (visit_live uh (v ++ held) hheld s1 node' m1 l v chunked HG1 Hm1 Hn1 Hr1 Hlv1) as (s2 & E2 & HG2 & K2).
    py_step E2. pose proof K2 as [K2r K2p].
    destruct (K2p _ _ _ node' _ Hp1' Hn1 Hlv1) as (Hp2 & n2 & Hn2 & Hl2). rewrite <-K2r in Hp2.
    destruct (next_child_key_ok cfg Hps (key_drop l k) ck (tree s2)) as (ck2 & E3 & Hck2).
    { autorewrite with keydb. by apply aligned_sub. }
    pose proof (on_tree_ok _ _ _ _ E3) as E4. rewrite hs_tree_id in E4. unfold hi_next_key. py_step E4.
    destruct (IH s2 (take l v ++ held) node' n2 (key_drop l k) (drop l v) ck2 (total + l)%nat
      (us0 ++ take l (units k)) (vs0 ++ tier_val (hshape m1)) true) as (j & k' & ck' & m & r & old & s3 & E5 & U5 & _);
      try done; autorewrite with keydb; try done; [|by apply aligned_sub|lia|rewrite length_drop; lia|].
    { eapply hgood_perm; [|exact HG2]. rewrite <-(take_drop l v) at 1. solve_Permutation. }
    exists j, k', ck', (l + m)%nat, (l + r)%nat, (tier_val (hshape m1) ++ old), s3.
    rewrite E5. rewrite drop_drop, Nat.add_assoc. split_and!; [done| |].
    + eapply (upto_step uh held hheld s s2 s3 k v us0 vs0 l true); try done; [by eapply keeps_trans; [split|]|].
      rewrite (tier_val_len (good_ok _ _ _ _ HG1) node' _ Hn1 Hr1). done.
    + intros Hff. exfalso. specialize (Hfl Hff ck c (hshape cm) Hch (habs_linked_1 _ _ _ Hcm Hcu)). congruence.
  - (* evicted *)
    assert (exists s2, visit_node (H := H) cfg sha256 node' l v chunked s1 = (Ret 0%nat, s2) /\
      hgood uh (drop l v ++ held) hheld s2 /\ keeps (habs s1) (habs s2) /\
      lns (habs s2) = <[node' := with_val (Some (take l v)) (hshape m1)]> (lns (habs s1)) /\ node' <> g_root (habs s2) /\
      no_live_child (habs s2) (with_val (Some (take l v)) (hshape m1)) /\ g_root (habs s2) = g_root (habs s1))
      as (s2 & E2 & HG2 & K2 & El2 & Hr2 & Hnc2 & Rt2).
    { unfold visit_node. rewrite (py_bind_Ret _ _ _ _ _ (node_at_ok s1 node' m1 Hm1)). rewrite evicted_live, Hlv1. cbn [negb]. cbv zeta.
      apply (revive_ok uh (drop l v ++ held) hheld s1 node' m1 node nn1 (take l v)); try done; [|by rewrite Htl].
      rewrite (assoc_L (++)), take_drop. done. }
    py_step E2. assert (lns (habs s2) !! node' = Some (with_val (Some (take l v)) (hshape m1))) as Hn2
      by (rewrite El2; apply lookup_insert_eq).
    destruct (next_child_key_ok cfg Hps (key_drop l k) ck (tree s2)) as (ck2 & E3 & Hck2).
    { autorewrite with keydb. by apply aligned_sub. }
    pose proof (on_tree_ok _ _ _ _ E3) as E4. rewrite hs_tree_id in E4. unfold hi_next_key. py_step E4.
    assert (path (gfull (habs s2)) (extra_key k) (g_root (habs s2)) (us0 ++ take l (units k)) (vs0 ++ take l v) node') as Hp2.
    { destruct K2 as [_ K2p]. destruct (K2p _ _ _ node nn1 Hp1 Hnn1 Hnl1) as (Hp2 & _). rewrite <-Rt2 in Hp2.
      eapply path_app; [exact Hp2|].
      pose proof (path_from_parent ∅ _ _ _ node (good_ok _ _ _ _ HG2) Hn2 Hr2 Hpar1) as Hq2. simpl in Hq2, Hun1, Hex1.
      rewrite Hun1, Hex1 in Hq2. exact Hq2. }
    destruct (IH s2 held node' _ (key_drop l k) (drop l v) ck2 (total + 0)%nat
      (us0 ++ take l (units k)) (vs0 ++ take l v) false HG2 Hn2) as (j & k' & ck' & m & r & old & s3 & E5 & U5 & Hz5);
      try done; autorewrite with keydb; try done; [by apply aligned_sub|lia|rewrite length_drop; lia|].
    specialize (Hz5 eq_refl). subst r. exists j, k', ck', (l + m)%nat, 0%nat, [], s3.
    rewrite E5. rewrite drop_drop, !Nat.add_0_r. split_and!; [done| |done].
    apply (upto_step uh held hheld s s2 s3 k v us0 vs0 l false (take l v) m 0%nat old j k' ck'); try done.
    eapply keeps_trans; [by split|done].
Qed.

(** ** The new leaf *)

(** The tree after the leaf is in place and both leaf statuses are recomputed. *)
Definition g_added (G : HAbs) (node : nat) (nn : HShape) (ck : ChildKey) (key : RadixKey) (v : list Z) : HAbs :=
  g_relv (g_relv (g_add G node nn ck key (Some v) None) node) (g_ctr G).

Lemma gadded_ok hs G node nn ck key v :
  hinv ps eagle hs G -> lns G !! node = Some nn -> hlive nn = true ->
  add_pre ps eagle (gfull G) node (fsh nn) ck key v ->
  let G' := g_added G node nn ck key v in
  hinv ps eagle hs G' /\ gfull G' = add_abs (gfull G) node (fsh nn) ck key v /\
  lns G' = <[node := with_ch (<[ck := g_ctr G]> (hs_ch nn)) nn]> (<[g_ctr G := g_newleaf node key (Some v) None]> (lns G)) /\
  lns G !! g_ctr G = None /\ node <> g_ctr G /\ g_ctr G <> g_root G.
Proof.
  intros [HI Ho] Hn Hl Had G'. destruct (gadd_ids _ _ _ _ Ho _ _ _ _ _ Had) as (I1 & I2 & I3).
  assert (Some v = Some v /\ @None (list Z) = None /\ hlive nn = true \/ Some v = None /\ @None (list Z) = Some v /\ hbacked nn = true) as Hvh
    by (by left).
  pose proof (gadd_hok _ _ _ _ Ho _ _ _ _ _ _ _ Hn Had Hvh) as H1.
  pose proof (gadd_full _ _ _ _ Ho _ _ _ _ _ _ _ Hn Had Hvh) as Hf.
  set (G1 := g_add G node nn ck key (Some v) None) in *.
  assert (hok2 ps eagle {[node; g_ctr G]} ∅ G1) as H2.
  { constructor; [eapply (eq_rect _ (fun Z => hok ps eagle Z G1)); [exact H1|set_solver]| |].
    - eapply exact_weaken; [apply (hv_lv H1)|set_solver].
    - intros j _. change (g_hl G1) with (g_hl G). destruct (decide (j = node)) as [->|Hjn].
      + pose proof Hn as [Hu Hg]%lns_lookup. rewrite (hv_hl Ho node) by set_solver. unfold hleaf_at. simpl.
        rewrite lookup_insert_eq, Hg. unfold g_hleaf. change (hlive (with_ch (<[ck:=g_ctr G]> (hs_ch nn)) nn)) with (hlive nn).
        by rewrite Hl.
      + destruct (decide (j = g_ctr G)) as [->|Hjc].
        * rewrite (hv_hl Ho (g_ctr G)) by set_solver. destruct (hok_fresh Ho) as [Hfr _]. unfold hleaf_at. simpl.
          rewrite lookup_insert_ne, lookup_insert_eq, Hfr by done. unfold g_hleaf. simpl. by rewrite !andb_false_r.
        * rewrite (hv_hl Ho j) by set_solver. unfold G1. simpl g_un.
          by rewrite (gadd_hleaf_at _ _ _ _ Ho _ _ _ _ _ _ _ Hn Had j Hjn Hjc). }
  apply (grelv_ok _ _ _ _ _ node) in H2. apply (grelv_ok _ _ _ _ _ (g_ctr G)) in H2. split_and!; try done.
  - split; [|eapply hok2_hok; [exact H2|set_solver|done]].
    change (gfull G') with (gfull G1). rewrite Hf. by apply (add_inv Had).
  - exact (gadd_lns _ _ _ _ Ho _ _ _ _ _ _ Hn).
Qed.

Lemma hi_add_leaf_ok uh held hheld s node nm ck k v prio chunked us vs :
  hgood uh (v ++ held) hheld s -> nodes (tree s) !! node = Some nm -> lns (habs s) !! node = Some (hshape nm) ->
  hlive (hshape nm) = true -> add_pre ps eagle (gfull (habs s)) node (fsh (hshape nm)) ck k v -> paged (Z.of_nat ps) v ->
  path (gfull (habs s)) (extra_key k) (g_root (habs s)) us vs node ->
  exists s' j n', hi_add_leaf (H := H) cfg now sha256 node k v ck prio chunked s = (Ret tt, s') /\ hgood uh held hheld s' /\
    keeps (habs s) (habs s') /\ lns (habs s') !! j = Some n' /\ hlive n' = true /\
    path (gfull (habs s')) (extra_key k) (g_root (habs s')) (us ++ units k) (vs ++ v) j.
Proof.
  intros HG Hnm Hn Hl Had Hpg Hp. pose proof HG as [[HGs HRs] Gq Gw Gl Gb Gp Gs].
  destruct (gadded_ok (all_handles uh s) (habs s) node (hshape nm) ck k v HGs Hn Hl Had) as (HGa & Hf & El & I1 & I2 & I3).
  set (Ga := g_added _ _ _ _ _ _) in *. pose proof (ad_len _ _ _ _ _ _ _ _ Had) as Hlen.
  unfold hi_add_leaf. destruct (clock_ok now s) as (ta & s1 & E1 & A1 & R1 & N1). py_step E1.
  destruct (clock_ok now s1) as (tc & s2 & E2 & A2 & R2 & N2). py_step E2.
  destruct (fresh_ok s2) as (s3 & E3 & A3 & R3 & N3). py_step E3.
  assert (counter (tree s2) = counter (tree s)) as Ectr by (change (g_ctr (habs s2) = g_ctr (habs s)); by rewrite A2, A1).
  rewrite Ectr. set (id := counter (tree s)) in *. change (g_ctr (habs s)) with id in *.
  set (leaf := new_TreeNode ta tc prio ∅ (Some node) k (Some v) 0 0 None). run_put. set (s4 := hnodes _ s3).
  run_update nm by (simpl; rewrite lookup_insert_ne by congruence; by rewrite N3, N2, N1). set (s5 := hnodes _ s4).
  set (s6 := hs_tree (set_sizes (evictable_size_ (tree s5) + len v) (protected_size_ (tree s5)) (tree s5)) s5).
  rewrite (py_bind_Ret _ _ s5 tt s6) by done. set (nm' := set_children (<[ck := id]> (children nm)) nm).
  assert (nodes (tree s6) !! node = Some nm') as Hnm6 by (simpl; apply lookup_insert_eq).
  destruct (leaf_status_ok s6 node nm' Hnm6) as (s7 & E7 & A7 & R7 & N7). py_step E7.
  assert (nodes (tree s7) !! id = Some leaf) as Hid7 by (rewrite N7; simpl; rewrite lookup_insert_ne by congruence; apply lookup_insert_eq).
  destruct (leaf_status_ok s7 id leaf Hid7) as (s8 & E8 & A8 & R8 & N8). py_step E8. rewrite hbind_get.
  assert (hrest s8 = hrest s) as R8'.
  { rewrite R8, R7. change (hrest s6) with (hrest s3). congruence. }
  assert (habs s6 = g_add (habs s) node (hshape nm) ck k (Some v) None) as A6.
  { unfold habs at 1. simpl. rewrite !fmap_insert. change (hshape <$> nodes (tree s3)) with (g_ns (habs s3)).
    change (unlinked s3) with (g_un (habs s3)). change (root_node (tree s3)) with (g_root (habs s3)).
    change (counter (tree s3)) with (g_ctr (habs s3)). change (evictable_size_ (tree s3)) with (g_ev (habs s3)).
    change (protected_size_ (tree s3)) with (g_pr (habs s3)). change (evictable_leaves (tree s3)) with (g_lv (habs s3)).
    change (evictable_host_leaves s3) with (g_hl (habs s3)). rewrite A3, A2, A1. unfold g_add, len. rewrite Hlen. done. }
  assert (habs s8 = Ga) as A8' by (by rewrite A8, A7, A6). apply hrest_parts in R8' as (C8 & K8 & Ho8).
  pose proof (hctl_parts _ _ C8) as (_ & _ & _ & P8). rewrite P8, Gs, Hevents. cbn [orb]. rewrite hbind_ret.
  rewrite (no_store_event cfg sha256 Hevents).
  assert (is_write_back s8 = false) as -> by (unfold is_write_back in *; by rewrite P8).
  assert (lns (habs s8) !! id = Some (hshape leaf)) as Hid8.
  { rewrite A8', El. rewrite lookup_insert_ne by congruence. apply lookup_insert_eq. }
  assert (hgood uh held hheld s8) as HG8.
  { eapply hgood_frame; [exact HG|done| |].
    - split; rewrite A8'; [done|]. rewrite K8, Ho8.
      eapply (res_add ps D L (v ++ held) hheld held hheld (habs s) Ga _ _ node (hshape nm) _ id _ I2 Hn I1 El); try done.
      by intros w [= <-].
    - intros j nj Hj Hnj Hbj. rewrite A8', El. destruct (decide (j = node)) as [->|Hjn].
      + rewrite lookup_insert_eq. eexists. split; [done|]. assert (nj = hshape nm) as -> by congruence. done.
      + rewrite !lookup_insert_ne by congruence. eauto. }
  assert (keeps (habs s) (habs s8)) as K8'.
  { rewrite A8'. split; [done|]. intros ek us' vs' b bn Hpb Hb Hbl. split.
    - rewrite Hf. by apply (add_path_fwd _ _ _ _ _ _ _ _ _ Had).
    - rewrite El. destruct (decide (b = node)) as [->|Hbn].
      + rewrite lookup_insert_eq. eexists. split; [done|]. assert (bn = hshape nm) as -> by congruence. done.
      + rewrite !lookup_insert_ne by congruence. eauto. }
  assert (path (gfull (habs s8)) (extra_key k) (g_root (habs s8)) (us ++ units k) (vs ++ v) id) as Hp8.
  { rewrite A8'. change (g_root Ga) with (g_root (habs s)). rewrite Hf. eapply path_app.
    - by apply (add_path_fwd _ _ _ _ _ _ _ _ _ Had).
    - by apply (add_path_leaf _ _ _ _ _ _ _ _ _ Had). }
  destruct (hi_inc_hit_count_ok (H := H) cfg sha256 Hps Hevents Hdis D L uh held hheld s8 id leaf chunked HG8) as (s9 & E9 & HG9 & HB9);
    [by rewrite N8|done|by change (id <> g_root (habs s8)); rewrite A8'|done|].
  pose proof (backs_keeps cfg ∅ ∅ _ _ (good_ok _ _ _ _ HG8) (good_ok _ _ _ _ HG9) HB9) as K9. pose proof K9 as [K9r K9p].
  destruct (K9p _ _ _ id (hshape leaf) Hp8 Hid8 eq_refl) as (Hp9 & n9 & Hn9 & Hl9). rewrite <-K9r in Hp9.
  exists s9, id, n9. split_and!; [done|done|by eapply keeps_trans|done|done|done].
Qed.

(** ** [insert] *)

(** The whole key [k] is on the device: [old] for its first [m] units, [v] for the rest. *)
Record hi_inserted (uh : list nat) (held hheld : list Z) (s s' : Hi) (k : RadixKey) (v : list Z) (m : nat) (old : list Z) (j : nat) :
    Prop := mkHiInserted {
  hn_good : hgood uh (take m v ++ held) hheld s';
  hn_keeps : keeps (habs s) (habs s');
  hn_len : (m <= key_len k)%nat /\ length old = m;
  hn_live : exists n, lns (habs s') !! j = Some n /\ hlive n = true;
  hn_path : path (gfull (habs s')) (extra_key k) (g_root (habs s')) (units k) (old ++ drop m v) j }.

Lemma hi_insert_ok uh held hheld s params w :
  ip_value params = Some w -> is_bigram (ip_key params) = false \/ eagle = true ->
  length (insert_value cfg params) = key_len (lookup_key cfg (ip_key params)) ->
  paged (Z.of_nat ps) (insert_value cfg params) -> hgood uh (insert_value cfg params ++ held) hheld s ->
  exists m old j s', hi_insert (H := H) cfg now sha256 params s = (Ret m, s') /\
    hi_inserted uh held hheld s s' (lookup_key cfg (ip_key params)) (insert_value cfg params) m old j.
Proof.
  intros Hw Hk Hlen Hpg HG. destruct (lookup_key_ok cfg Hps (ip_key params) Hk) as (Hb & Hal & He).
  unfold hi_insert.
  assert ((maybe_to_bigram_view eagle (ip_key params) (ip_value params)).1
          = (maybe_to_bigram_view (V := Z) eagle (ip_key params) None).1) as E1.
  { unfold maybe_to_bigram_view. by destruct (eagle && negb (is_bigram (ip_key params))). }
  assert (exists w', (maybe_to_bigram_view eagle (ip_key params) (ip_value params)).2 = Some w') as [w' Ew].
  { unfold maybe_to_bigram_view. rewrite Hw. destruct (eagle && negb (is_bigram (ip_key params))); simpl; eauto. }
  assert (insert_value cfg params = take (key_len (lookup_key cfg (ip_key params))) w') as Eiv by (unfold insert_value; by rewrite Ew).
  destruct (maybe_to_bigram_view eagle (ip_key params) (ip_value params)) as [k0 v0] eqn:E.
  simpl in E1, Ew. rewrite E1. fold (lookup_key cfg (ip_key params)). set (k := lookup_key cfg (ip_key params)) in *.
  set (v := insert_value cfg params) in *. pose proof (good_ok _ _ _ _ HG) as Ho.
  destruct (hv_root Ho) as (r & Hr & Hrv & _). assert (hlive r = true) as Hrl by (unfold hlive; by rewrite Hrv).
  destruct (Nat.eqb_spec (key_len k) 0) as [Hz|Hnz].
  { exists 0%nat, [], (root_node (tree s)), s. split; [done|]. assert (v = []) as -> by (apply length_zero_iff_nil; lia).
    assert (units k = []) as Eu by (apply length_zero_iff_nil; rewrite length_units; lia).
    constructor; [done|apply keeps_refl|split; [lia|done]|eauto|]. rewrite Eu. eapply path_nil. by apply gfull_lookup_1. }
  rewrite Ew, hbind_some, hbind_get. rewrite <-Eiv.
  destruct (child_key_total ps k Hps) as [pk Hpk]; [apply aligned_pos_le; [done|done|lia]|]. rewrite Hpk, hbind_lift.
  destruct (hi_insert_loop_ok uh hheld (default 0 (ip_priority params)) (ip_chunked params) (S (key_len k)) s held
    (root_node (tree s)) r k v (extra_key k, pk) 0 [] [] true)
    as (node & k' & ck' & m & q & old & s1 & E2 & [U1 U2 (U3 & U4 & U5) U6 (n1 & Hn1 & Hl1 & Hst) U8] & _); try done; [by eapply path_nil, gfull_lookup_1|lia|].
  py_step E2. cbn beta iota. pose proof U6 as [R1 R2 R3 R4]. simpl in U8.
  assert (key_len k' = key_len k - m)%nat as Hk' by (by rewrite <-!length_units, R1, length_drop).
  destruct (Nat.ltb_spec 0 (key_len k')) as [Hpos|Hz'].
  - destruct (Hst Hpos) as [Hck Hno]. pose proof Hn1 as (nm & Hnm & <- & _)%habs_linked.
    destruct (paged_split ps m v Hps U4 Hpg) as [_ Pd].
    assert (add_pre ps eagle (gfull (habs s1)) node (fsh (hshape nm)) ck' k' (drop m v)) as Had.
    { constructor; try done; [apply (hv_tree (good_ok _ _ _ _ U1))|by apply gfull_lookup_1|rewrite length_drop; lia|
        rewrite Hk'; by apply aligned_sub|congruence]. }
    destruct (hi_add_leaf_ok uh (take q v ++ held) hheld s1 node nm ck' k' (drop m v) (default 0 (ip_priority params)) (ip_chunked params)
      (take m (units k)) (old ++ drop q (take m v))) as (s2 & j & n2 & E3 & HG2 & K2 & Hn2 & Hl2 & Hp2); try done.
    { eapply hgood_perm; [|exact U1]. solve_Permutation. }
    { rewrite R2. exact U8. }
    py_step E3. exists q, old, j, s2. split; [done|]. constructor; [done|by eapply keeps_trans|split; [lia|done]|eauto|].
    rewrite R1, R2 in Hp2. rewrite take_drop, <-(assoc_L (++)) in Hp2.
    assert (drop q v = drop q (take m v) ++ drop m v) as ->; [|done].
    rewrite <-(take_drop m v) at 1. rewrite drop_app_le; [done|]. rewrite length_take. lia.
  - rewrite hbind_ret. assert (m = key_len k) as -> by lia. exists q, old, node, s1. split; [done|].
    rewrite drop_ge in U1 by lia. rewrite !take_ge in U8 by (rewrite ?length_units; lia).
    constructor; [done|done|split; [lia|done]|eauto|done].
Qed.
End insert.
