(* ===== verification/HiOps.v ===== *)
(** * Requests to the two-tier cache

    The requests that the scheduler and the users of HiRadixCache make ([HiOp]), what they
    owe the cache ([may_run]) and what they do ([run_op]); under the write-through policies
    without a storage backend every request returns normally and keeps the invariant, and so
    does a run of any length from a fresh cache. *)

From stdpp Require Import base tactics list gmap strings.
From Stdlib Require Import ZArith Lia.
From S2P Require Import Prelude PyStr RadixKey TreeNode EvictPolicy Allocator AllocatorProofs KVEvents.
From S2P Require Import RadixTree RadixInv RadixPaths RadixSlots RadixWalk RadixProofs RadixLocks RadixClaims ReqPool.
From S2P Require Import HiController HiRadix HiInv HiPrims HiProofs HiLocks HiRes HiHost HiBackup HiEvict HiLoad.
From S2P Require Import HiChecks HiInsert.

(** A path is determined by its units. *)
Lemma path_det ps eagle A ek : (0 < ps)%nat -> inv_tree ps eagle A -> forall r i us vs j vs' j',
  (length us < r)%nat -> path A ek i us vs j -> path A ek i us vs' j' -> vs = vs' /\ j = j'.
Proof.
  intros Hps HA. induction r as [|r IH]; intros i us vs j vs' j' Hr Hp Hp'; [lia|].
  destruct (path_first _ _ _ _ _ _ Hp) as [(Eu & Ev & E)|(n & ck & c & cn & v & us1 & vs1 & Hi & Hch & Hcn & He & Hv & Hp1 & Eu & Ev)];
  destruct (path_first _ _ _ _ _ _ Hp') as [(Eu' & Ev' & E')|(n' & ck' & c' & cn' & v' & us1' & vs1' & Hi' & Hch' & Hcn' & He' & Hv' & Hp1' & Eu' & Ev')].
  - split; congruence.
  - destruct (child_node _ _ A _ _ _ _ HA Hi' Hch') as (m & E1 & Hok & _). assert (m = cn') as -> by congruence.
    pose proof (nk_pos Hok) as Hpos. rewrite <-length_units in Hpos. rewrite Eu in Eu'. symmetry in Eu'. apply app_nil in Eu' as [E2 _].
    rewrite E2 in Hpos. simpl in Hpos. lia.
  - destruct (child_node _ _ A _ _ _ _ HA Hi Hch) as (m & E1 & Hok & _). assert (m = cn) as -> by congruence.
    pose proof (nk_pos Hok) as Hpos. rewrite <-length_units in Hpos. rewrite Eu' in Eu. symmetry in Eu. apply app_nil in Eu as [E2 _].
    rewrite E2 in Hpos. simpl in Hpos. lia.
  - assert (n' = n) as -> by congruence.
    destruct (child_node _ _ A _ _ _ _ HA Hi Hch) as (m & E & Hok & _). assert (m = cn) as -> by congruence.
    destruct (child_node _ _ A _ _ _ _ HA Hi Hch') as (m' & E' & Hok' & _). assert (m' = cn') as -> by congruence.
    pose proof (page_le _ _ A c cn Hps Hok) as Hcl. pose proof (page_le _ _ A c' cn' Hps Hok') as Hcl'.
    assert (c' = c /\ cn' = cn) as [-> ->].
    { eapply (same_child ps eagle Hps A HA i n ck c cn ck' c' cn' ek); try done.
      pose proof Eu as F. pose proof Eu' as F'. apply (f_equal (take ps)) in F. apply (f_equal (take ps)) in F'.
      rewrite !take_app_le in F by (rewrite ?length_units; lia).
      rewrite !take_app_le in F' by (rewrite ?length_units; lia). congruence. }
    rewrite Eu in Eu'. apply app_inv_head in Eu' as <-.
    destruct (IH c us1 vs1 j vs1' j') as [E1 E2]; [|done|done|split; congruence].
    rewrite Eu, length_app, length_units in Hr. pose proof (nk_pos Hok). lia.
Qed.

Section claims.
Context {T : Type} `{!KVAllocator T} {H : Type} `{!HeapQ H} {B Page : Type} `{!StorageBackend B Page}.
Context (cfg : Config) (now : nat -> Z) (sha256 : list Z -> string).
Context (Hps : (0 < cfg_page_size cfg)%nat) (Hevents : enable_kv_cache_events cfg = false) (Hdis : disable cfg = false).
Local Abbreviation Hi := (HiCache T B Page).
Local Abbreviation ps := (cfg_page_size cfg).
Local Abbreviation eagle := (is_eagle cfg).
Implicit Types s : Hi.

Section slots.
Context (D L : list Z) (HD : NoDup D).
Local Abbreviation hgood := (hgood cfg D L).

(** ** Matching *)

Lemma splits_good uh held hheld s s' :
  hgood uh held hheld s -> hinv ps eagle (all_handles uh s) (habs s') -> splits cfg (habs s) (habs s') ->
  hrest s' = hrest s -> hgood uh held hheld s' /\ keeps (habs s) (habs s').
Proof.
  intros HG HG' Hsp (C & K & Ho)%hrest_parts. pose proof (gd_state _ _ _ _ _ _ _ HG) as [_ HR].
  assert (res ps D L held hheld (habs s') (kv_pool (tree s)) (host s) /\ keeps (habs s) (habs s') /\
    forall i n, lns (habs s) !! i = Some n -> exists n', lns (habs s') !! i = Some n' /\ hbacked n' = hbacked n) as (HR' & HK & Hb).
  { clear HG HG' C K Ho. revert HR. generalize (kv_pool (tree s)) as a, (host s) as h. generalize (habs s) (habs s') Hsp. clear Hsp.
    intros G G' Hsp a h. induction Hsp as [G|G p pn c cn ck rest k G' Ho Hp Hc Hpre _ IH]; intros HR.
    - split_and!; [done|apply keeps_refl|eauto].
    - destruct (IH (res_split ps eagle D L _ held hheld G a h p pn c cn ck rest k Ho Hp Hc Hpre HR)) as (R' & K' & B').
      split_and!; [done|eapply keeps_trans; [exact (split_keeps cfg _ _ _ _ _ _ _ _ _ Ho Hp Hc Hpre)|done]|].
      intros i n Hi. destruct (split_linked cfg ∅ G p pn c cn ck rest k i n Ho Hp Hc Hpre Hi) as (n1 & H1 & _ & E1).
      destruct (B' i n1 H1) as (n2 & H2 & E2). exists n2. split; [done|congruence]. }
  split; [|done]. eapply hgood_frame; [exact HG|done| |].
  - split; [done|]. by rewrite K, Ho.
  - intros i n _ Hn Hbn. destruct (Hb i n Hn) as (n' & Hn' & E). exists n'. split; [done|congruence].
Qed.

Lemma match_good uh held hheld s k :
  hgood uh held hheld s -> is_bigram k = false \/ eagle = true ->
  exists r s' m vs j, hi_match_prefix cfg now k s = (Ret r, s') /\ hgood uh held hheld s' /\ keeps (habs s) (habs s') /\
    hi_matched cfg (all_handles uh s) s s' (lookup_key cfg k) r m vs j.
Proof.
  intros HG Hk. pose proof (gd_state _ _ _ _ _ _ _ HG) as [HGi HR].
  destruct (hi_match_prefix_ok cfg now Hps (all_handles uh s) s k HGi Hdis Hk) as (r & s' & m & vs & j & E & HM).
  destruct (splits_good uh held hheld s s' HG) as [HG' HK]; [apply HM|apply HM|apply HM|].
  exists r, s', m, vs, j. done.
Qed.

(** ** Acknowledgements *)

Lemma check_events_ok uh held hheld s w_done l_done reduce_min :
  hgood uh held hheld s -> (forall n, (reduce_min n <= n)%nat) ->
  exists s', check_hicache_events cfg sha256 w_done l_done reduce_min s = (Ret tt, s') /\ hgood uh held hheld s' /\
    same_tiers (habs s) (habs s') /\ load_queue (xfer s') = load_queue (xfer s) /\
    ack_load_queue (xfer s') = drop (finished_prefix l_done (ack_load_queue (xfer s))) (ack_load_queue (xfer s)) /\
    (ongoing_write_through s = ∅ /\ ack_write_queue (xfer s') = ack_write_queue (xfer s) \/ ack_write_queue (xfer s')
       = drop (reduce_min (finished_prefix w_done (ack_write_queue (xfer s)))) (ack_write_queue (xfer s))).
Proof.
  intros HG Hmin. unfold check_hicache_events.
  destruct (writing_check_ok cfg sha256 Hps Hevents Hdis D L HD uh held hheld s w_done reduce_min HG Hmin) as (s1 & E1 & HG1 & T1 & Q1).
  py_step E1. destruct (loading_check_ok cfg sha256 Hps Hevents Hdis D L HD uh held hheld s1 l_done HG1) as (s2 & E2 & HG2 & T2 & Q2).
  py_step E2. rewrite hbind_get, (gd_storage _ _ _ _ _ _ _ HG2). exists s2. rewrite Q2.
  split_and!; [done|done|by eapply same_tiers_trans|..]; destruct Q1 as [[E ->]| ->]; simpl; auto.
Qed.

(** ** Requests *)

(** One call of the scheduler or of a request into the cache, with what its environment
    decides: the slots a user keeps after inserting or freeing some of those it holds, the
    transfers that have finished, the result of the all-reduce over the ranks. *)
Inductive HiOp :=
  | OpMatch (k : RadixKey)
  | OpInsert (params : InsertParams) (rest : list Z)
  | OpLock (i : nat)
  | OpUnlock (i : nat) (rest : list nat)
  | OpEvict (num : Z)
  | OpLoad (i : nat) (quota : option Z)
  | OpStart (ready : Z -> bool)
  | OpEvents (w_done l_done : nat -> bool) (reduce_min : nat -> nat)
  | OpAlloc (n : nat)
  | OpFree (idx rest : list Z).

(** Handles and device slots held by the users, and the cache. *)
Definition HiWorld : Type := list nat * list Z * Hi.

(** The cache runs [m]; what it returns decides what the users hold afterwards. *)
Definition with_users {A} (m : PyM Hi A) (f : A -> list nat * list Z) : PyM HiWorld unit := fun w =>
  match m w.2 with
  | (Ret a, s') => (Ret tt, (f a, s'))
  | (Raise e, s') => (Raise e, (w.1, s'))
  | (OutOfFuel, s') => (OutOfFuel, (w.1, s'))
  end.

Definition run_op (op : HiOp) : PyM HiWorld unit := fun w =>
  let uh := w.1.1 in let held := w.1.2 in
  match op with
  | OpMatch k => with_users (hi_match_prefix cfg now k) (fun _ => (uh, held)) w
  | OpInsert params rest =>
      with_users (hi_insert (H := H) cfg now sha256 params) (fun m => (uh, take m (insert_value cfg params) ++ rest)) w
  | OpLock i => with_users (hi_inc_lock_ref cfg i) (fun _ => (i :: uh, held)) w
  | OpUnlock i rest => with_users (hi_dec_lock_ref cfg i) (fun _ => (rest, held)) w
  | OpEvict num => with_users (hi_evict (H := H) cfg sha256 num) (fun _ => (uh, held)) w
  | OpLoad i quota => with_users (init_load_back (H := H) cfg sha256 i quota) (fun _ => (uh, held)) w
  | OpStart ready => with_users (ready_to_load_host_cache ready) (fun _ => (uh, held)) w
  | OpEvents w_done l_done reduce_min =>
      with_users (check_hicache_events cfg sha256 w_done l_done reduce_min) (fun _ => (uh, held)) w
  | OpAlloc n => with_users (hi_kv_alloc (Z.of_nat n)) (fun o => (uh, default [] o ++ held)) w
  | OpFree idx rest => with_users (on_tree (kv_release idx)) (fun _ => (uh, rest)) w
  end.

(** What the callers owe the cache: slots come and go in whole pages and only if they are
    held, keys have one slot per unit, locks are taken on device nodes of the tree and
    released once, a load starts when its buffer is free. *)
Definition may_run (op : HiOp) (w : HiWorld) : Prop :=
  let uh := w.1.1 in let held := w.1.2 in let s := w.2 in
  match op with
  | OpMatch k => is_bigram k = false \/ eagle = true
  | OpInsert params rest =>
      is_Some (ip_value params) /\ (is_bigram (ip_key params) = false \/ eagle = true) /\
      length (insert_value cfg params) = key_len (lookup_key cfg (ip_key params)) /\
      paged (Z.of_nat ps) (insert_value cfg params) /\ held ≡ₚ insert_value cfg params ++ rest
  | OpLock i => exists n, lns (habs s) !! i = Some n /\ hlive n = true
  | OpUnlock i rest => uh ≡ₚ i :: rest
  | OpEvict _ => True
  | OpLoad i _ => is_Some (lns (habs s) !! i)
  | OpStart ready => forall i, ready i = true
  | OpEvents _ _ reduce_min => forall n, (reduce_min n <= n)%nat
  | OpAlloc n => aligned ps n
  | OpFree idx rest => held ≡ₚ idx ++ rest /\ paged (Z.of_nat ps) idx
  end.

Definition hi_step (w w' : HiWorld) : Prop := exists op, may_run op w /\ run_op op w = (Ret tt, w').
Definition wgood (w : HiWorld) : Prop := hgood w.1.1 w.1.2 [] w.2.

Lemma lock_good uh held s i n :
  hgood uh held [] s -> lns (habs s) !! i = Some n -> hlive n = true ->
  exists z s', hi_inc_lock_ref cfg i s = (Ret z, s') /\ hgood (i :: uh) held [] s'.
Proof.
  intros HG Hn Hl. pose proof (gd_state _ _ _ _ _ _ _ HG) as [HI HR].
  destruct (hi_inc_lock_ref_ok cfg _ s i n Hdis HI Hn Hl) as (s' & E & HI' & HT & (C & K & Ho)%hrest_parts).
  eexists _, s'. split; [done|]. eapply hgood_frame; [done|done| |].
  - split; [done|]. rewrite K, Ho. by eapply res_locks.
  - intros j m _ Hm Hb. destruct (same_tiers_lookup _ _ _ _ HT Hm) as (m' & Hm' & _ & _ & _ & _ & E2).
    exists m'. split; [done|]. unfold hbacked in *. by rewrite E2.
Qed.

Lemma unlock_good uh uh' held s i :
  hgood uh held [] s -> uh ≡ₚ i :: uh' ->
  exists z s', hi_dec_lock_ref cfg i s = (Ret z, s') /\ hgood uh' held [] s'.
Proof.
  intros HG Hp. pose proof (gd_state _ _ _ _ _ _ _ HG) as [HI HR].
  destruct (handle_live cfg Hps _ _ i HI) as (n & Hn & Hl); [unfold all_handles; rewrite Hp; set_solver|].
  destruct (hi_dec_lock_ref_ok cfg _ (all_handles uh' s) s i n Hdis HI) as (s' & E & HI' & HT & (C & K & Ho)%hrest_parts);
    [unfold all_handles; by rewrite Hp|done|done|].
  eexists _, s'. split; [done|]. eapply hgood_frame; [done|done| |].
  - split; [done|]. rewrite K, Ho. by eapply res_locks.
  - intros j m _ Hm Hb. destruct (same_tiers_lookup _ _ _ _ HT Hm) as (m' & Hm' & _ & _ & _ & _ & E2).
    exists m'. split; [done|]. unfold hbacked in *. by rewrite E2.
Qed.

Lemma alloc_good uh held s n :
  hgood uh held [] s -> aligned ps n ->
  exists o s', hi_kv_alloc (Z.of_nat n) s = (Ret o, s') /\ hgood uh (default [] o ++ held) [] s'.
Proof.
  intros HG Hal. pose proof (gd_state _ _ _ _ _ _ _ HG) as HS.
  destruct (hi_kv_alloc_ok cfg Hps D L _ held [] s n HS Hal) as (o & s' & E & A & C & Ho & R). exists o, s'. split; [done|].
  eapply hgood_frame; [done|done| |rewrite A; eauto]. destruct o as [l|]; simpl; [apply R|apply R].
Qed.

Lemma free_good uh held held' s idx :
  hgood uh held [] s -> held ≡ₚ idx ++ held' -> paged (Z.of_nat ps) idx ->
  exists s', on_tree (kv_release idx) s = (Ret tt, s') /\ hgood uh held' [] s'.
Proof.
  intros HG Hp Hpg. pose proof (gd_state _ _ _ _ _ _ _ HG) as [HI [R1 R2 R3 R4 R5 R6 R7]].
  destruct (kv_free_spec idx (kv_pool (tree s)) R1) as (F1 & F2 & F3 & F4); [by rewrite R3| |].
  { pose proof HD as Hnd. rewrite <-R6, Hp in Hnd. apply NoDup_app in Hnd as (_ & _ & Hnd).
    assert ((idx ++ held') ++ kv_owned (kv_pool (tree s)) ≡ₚ held' ++ kv_owned (kv_pool (tree s)) ++ idx) as E by solve_Permutation.
    rewrite E in Hnd. by apply NoDup_app in Hnd as (_ & _ & ?). }
  eexists. split; [unfold on_tree, kv_release, py_modify; reflexivity|]. eapply hgood_frame; [exact HG|done| |].
  - split; [exact HI|]. constructor; simpl; try done; [congruence|congruence|]. rewrite F4, <-R6, Hp. solve_Permutation.
  - intros j m _ Hm Hb. exists m. done.
Qed.

(** Every request that may run returns normally and keeps the invariant. *)
Lemma run_op_ok op w : wgood w -> may_run op w -> exists w', run_op op w = (Ret tt, w') /\ wgood w'.
Proof.
  destruct w as [[uh held] s]. unfold wgood. simpl. intros HG Hm.
  assert (forall A (m : PyM Hi A) f a s', m s = (Ret a, s') -> hgood (f a).1 (f a).2 [] s' ->
    exists w', with_users m f (uh, held, s) = (Ret tt, w') /\ hgood w'.1.1 w'.1.2 [] w'.2) as Hrun.
  { intros A m f a s' E HG'. exists (f a, s'). split; [|done]. unfold with_users. simpl. by rewrite E. }
  destruct op as [k|params rest|i|i rest|num|i quota|ready|wd ld rm|n|idx rest]; simpl in *.
  - destruct (match_good uh held [] s k HG Hm) as (r & s' & m & vs & j & E & HG' & _). eauto.
  - destruct Hm as ([w Hw] & Hk & Hl & Hpg & Hp).
    destruct (hi_insert_ok (H := H) cfg now sha256 Hps Hevents Hdis D L HD uh rest [] s params w Hw Hk Hl Hpg) as (m & old & j & s' & E & HN);
      [by eapply hgood_perm|]. eapply Hrun; [exact E|]. apply HN.
  - destruct Hm as (n & Hn & Hl). destruct (lock_good uh held s i n HG Hn Hl) as (z & s' & E & HG'). eauto.
  - destruct (unlock_good uh rest held s i HG Hm) as (z & s' & E & HG'). eauto.
  - destruct (hi_evict_ok (H := H) cfg sha256 Hps Hevents D L HD (all_handles uh s) held [] s num) as (f & s' & E & HE & _);
      [apply HG|apply HG|]. eapply Hrun; [exact E|]. simpl. by eapply evicted_good.
  - destruct (init_load_back_ok (H := H) cfg sha256 Hps Hevents Hdis D L HD uh held [] s i quota HG Hm) as (d & j & s' & n & E & HG' & _). eauto.
  - destruct (ready_to_load_ok cfg D L uh held [] s ready HG Hm) as (z & s' & E & HG' & _). eauto.
  - destruct (check_events_ok uh held [] s wd ld rm HG Hm) as (s' & E & HG' & _). eauto.
  - destruct (alloc_good uh held s n HG Hm) as (o & s' & E & HG'). eauto.
  - destruct Hm as [Hp Hpg]. destruct (free_good uh held rest s idx HG Hp Hpg) as (s' & E & HG'). eauto.
Qed.

Lemma steps_good w w' : wgood w -> rtc hi_step w w' -> wgood w'.
Proof.
  intros HG. induction 1 as [|w w1 w2 (op & Hm & E) _ IH]; [done|]. apply IH.
  destruct (run_op_ok op w HG Hm) as (w1' & E' & HG'). rewrite E in E'. by injection E' as ->.
Qed.
End slots.

(** ** A fresh cache *)

(** A cache that has not been used: its pools are well formed with the same page size, no
    transfer is under way, the policy is not write-back and no storage is attached. *)
Record hi_fresh (s : Hi) : Prop := mkHiFresh {
  hf_kv : kv_ok (kv_pool (tree s));
  hf_group : kv_in_group (kv_pool (tree s)) = false;
  hf_page : kv_page (kv_pool (tree s)) = Z.of_nat ps;
  hf_hpage : h_page_size (host s) = Z.of_nat ps;
  hf_writes : ongoing_write_through s = ∅;
  hf_loads : ongoing_load_back s = ∅;
  hf_policy : is_write_back s = false;
  hf_storage : enable_storage (pol s) = false }.

Definition root_hshape : HShape := mkHShape ∅ None (mkRadixKey [] None false) (Some []) (Some []) 1.
Definition empty_habs : HAbs := mkHAbs {[0%nat := root_hshape]} ∅ 0 1 0 0 ∅ ∅.

Lemma empty_lns : lns empty_habs = {[0%nat := root_hshape]}.
Proof.
  apply map_eq. intros i. apply option_eq. intros n. rewrite lns_lookup. simpl. split; [by intros [_ ?]|]. intros. split; [set_solver|done].
Qed.

Lemma empty_hinv : hinv ps eagle [] empty_habs.
Proof.
  pose proof (init_inv cfg 0%nat) as HI.
  assert (gfull empty_habs = mkAbs {[0%nat := root_shape]} 0 1 0 0 ∅) as E.
  { apply gfull_char; [apply HI|by rewrite empty_lns, map_fmap_singleton|done|done| |done].
    rewrite empty_lns. symmetry. apply msum_zero. by intros i n [<- <-]%lookup_singleton_Some. }
  split; [by rewrite E|]. constructor; rewrite ?E, ?empty_lns.
  - apply HI.
  - exists root_hshape. simpl. by rewrite lookup_singleton_eq.
  - intros i n [<- <-]%lookup_singleton_Some. done.
  - intros j _. unfold leaf_at. simpl. destruct (({[0%nat := root_hshape]} : gmap nat HShape) !! j) as [n|] eqn:El; [|set_solver].
    apply lookup_singleton_Some in El as [<- <-]. set_solver.
  - intros j _. unfold hleaf_at. simpl. destruct (({[0%nat := root_hshape]} : gmap nat HShape) !! j) as [n|] eqn:El.
    + apply lookup_singleton_Some in El as [<- <-]. simpl. rewrite andb_false_r. set_solver.
    + rewrite andb_false_r. set_solver.
  - set_solver.
Qed.

(** [reset] of a fresh cache gives the empty tree, with every slot in its pool. *)
Lemma reset_good s :
  hi_fresh s -> exists s', hi_reset cfg now s = (Ret tt, s') /\
    hgood cfg (kv_owned (kv_pool (tree s))) (seqZ 0 (h_size (host s))) [] [] [] s' /\ habs s' = empty_habs.
Proof.
  intros [F1 F2 F3 F4 F5 F6 F7 F8].
  assert (exists s', hi_reset cfg now s = (Ret tt, s') /\ habs s' = empty_habs /\ kv_pool (tree s') = kv_pool (tree s) /\
    host s' = host_clear (host s) /\ ongoing_write_through s' = ∅ /\ ongoing_load_back s' = ∅ /\ pol s' = pol s /\
    write_queue (xfer s') = [] /\ load_queue (xfer s') = [] /\ ack_write_queue (xfer s') = [] /\ ack_load_queue (xfer s') = [])
    as (s' & E & A & K & Ho & W & O & P & X1 & X2 & X3 & X4).
  { unfold hi_reset, ctl_reset, reset, _record_all_cleared_event. rewrite Hevents.
    unfold mbind, PyM_bind, on_tree, on_xfer, py_modify, py_get, monotonic, fresh_id. simpl. rewrite F8. simpl.
    eexists. split; [reflexivity|]. simpl. rewrite F5, F6. by split_and!. }
  exists s'. split; [done|]. split; [|done].
  constructor; unfold all_handles; rewrite ?W, ?O, ?X1, ?X2, ?X3, ?X4, ?P, ?A, ?elements_empty; try done.
  { split; rewrite A; [rewrite ?W, ?O, ?elements_empty; apply empty_hinv|]. rewrite K, Ho.
    assert (forall f, slot_list f root_hshape = [] -> cat f (lns empty_habs) = []) as Hcat.
    { intros f Hf. rewrite empty_lns. unfold cat. rewrite map_fmap_singleton, Hf, map_to_list_singleton. done. }
    constructor; try done; unfold dslots, hslots; rewrite ?Hcat by done; try done. intros i n v Hi. rewrite empty_lns in Hi. apply lookup_singleton_Some in Hi as [<- <-]. intros [= <-]. apply paged_nil. }
  unfold is_write_back in *. by rewrite P.
Qed.
End claims.
