(* ===== verification/HiClaims.v ===== *)
(** * What the two-tier cache guarantees

    Properties of HiRadixCache under the write-through policies without a storage backend, on
    every state reachable from a fresh cache: no request raises, device and host slots are
    conserved, both tiers are closed under parents, lookups return the longest prefix of
    either tier, insertion puts the whole key on the device, loading back is all or nothing,
    and finished transfers release their locks. *)

From stdpp Require Import base tactics list gmap strings.
From Stdlib Require Import ZArith Lia.
From S2P Require Import Prelude PyStr RadixKey TreeNode EvictPolicy Allocator AllocatorProofs KVEvents.
From S2P Require Import RadixTree RadixInv RadixPaths RadixSlots RadixWalk RadixProofs RadixLocks RadixClaims ReqPool.
From S2P Require Import HiController HiRadix HiInv HiPrims HiProofs HiLocks HiRes HiHost HiBackup HiEvict HiLoad.
From S2P Require Import HiChecks HiInsert HiOps.

(** ** Sums over the tree *)

Lemma msum_add {A} (f g : nat -> A -> Z) m : msum (fun i x => f i x + g i x) m = msum f m + msum g m.
Proof.
  induction m as [|i x m Hi IH] using map_ind; [by rewrite !msum_empty|]. rewrite !msum_insert by done. lia.
Qed.

Lemma length_cat (f : HShape -> option (list Z)) m : Z.of_nat (length (cat f m)) = msum (fun _ n => Z.of_nat (length (slot_list f n))) m.
Proof.
  induction m as [|i n m Hi IH] using map_ind; [done|]. rewrite msum_insert, (Permutation_length (cat_insert f m i n Hi)), length_app by done. lia.
Qed.

(** The two size counters count the device slots of the tree. *)
Lemma sizes_device ps eagle hs G : hinv ps eagle hs G -> g_ev G + g_pr G = Z.of_nat (length (dslots G)).
Proof.
  intros [HI Ho]. destruct (inv_s _ _ _ _ HI) as [E1 E2]. simpl in E1, E2. rewrite msum_fmap in E1, E2.
  unfold dslots. rewrite length_cat.
  enough (msum (fun i n => unlocked_len (g_root G) i (fsh n)) (lns G) + msum (fun i n => locked_len (g_root G) i (fsh n)) (lns G)
    = msum (fun _ n => Z.of_nat (length (slot_list hs_val n))) (lns G) + msum ev_len (lns G)) by lia.
  rewrite <-!msum_add. apply msum_ext. intros i n Hi. unfold unlocked_len, locked_len, ev_len, slot_list, sh_len, hlive. simpl.
  case_decide as Hr.
  - subst i. destruct (hv_root Ho) as (r & Hr & Hv & _). assert (n = r) as -> by congruence. by rewrite Hv.
  - pose proof (hv_tier Ho i n Hi Hr) as HT. destruct (hs_val n) as [v|] eqn:Ev; simpl.
    + rewrite (to_val HT v Ev). destruct (_ =? 0); lia.
    + destruct (_ =? 0); lia.
Qed.

(** Without handles nothing is locked. *)
Lemma no_handles_unlocked ps eagle A i n :
  inv ps eagle [] A -> a_ns A !! i = Some n -> i <> a_root A -> sh_lock n = 0.
Proof.
  intros HI. destruct (it_rank (inv_t _ _ _ _ HI)) as [d Hd].
  enough (forall r i n, (a_ctr A - d i < r)%nat -> a_ns A !! i = Some n -> i <> a_root A -> sh_lock n = 0) by eauto.
  clear i n. intros r. induction r as [|r IH]; intros i n Hr Hi Hne; [lia|].
  pose proof (proj2 (inv_l _ _ _ _ HI) i n Hi Hne) as HL. simpl in HL. rewrite Z.add_0_r in HL. rewrite HL.
  change (handles_at [] i) with 0. apply msum_zero. intros c cn Hc. case_decide as Hp; [|done].
  destruct (Hd c cn Hc) as [H1 H2]. specialize (H2 i Hp). apply (IH c cn); [lia|done|].
  intros ->. destruct (it_root (inv_t _ _ _ _ HI)) as (r0 & Hr0 & Hpar & _). congruence.
Qed.

Lemma path_aligned ps eagle A : (0 < ps)%nat -> inv_tree ps eagle A -> forall ek i us vs j, path A ek i us vs j -> aligned ps (length us).
Proof.
  intros Hps HA ek i us vs j. induction 1 as [|i n ck c cn v us vs j Hi Hc Hcn He Hv Hp IH]; [apply aligned_0|].
  destruct (child_node _ _ A _ _ _ _ HA Hi Hc) as (cn' & E & Hok & _). assert (cn' = cn) as -> by congruence.
  rewrite length_app, length_units. by apply aligned_add; [|apply Hok|].
Qed.

Section claims.
Context {T : Type} `{!KVAllocator T} {H : Type} `{!HeapQ H} {B Page : Type} `{!StorageBackend B Page}.
Context (cfg : Config) (now : nat -> Z) (sha256 : list Z -> string).
Context (Hps : (0 < cfg_page_size cfg)%nat) (Hevents : enable_kv_cache_events cfg = false) (Hdis : disable cfg = false).
Local Abbreviation Hi := (HiCache T B Page).
Local Abbreviation ps := (cfg_page_size cfg).
Local Abbreviation eagle := (is_eagle cfg).
Local Abbreviation hi_step := (hi_step (H := H) cfg now sha256).
Local Abbreviation run_op := (run_op (H := H) cfg now sha256).
Implicit Types s : Hi.

Lemma reachable_good s0 s1 uh held s :
  hi_fresh cfg s0 -> hi_reset cfg now s0 = (Ret tt, s1) -> rtc hi_step ([], [], s1) (uh, held, s) ->
  hgood cfg (kv_owned (kv_pool (tree s0))) (seqZ 0 (h_size (host s0))) uh held [] s.
Proof.
  intros HF E Hr. destruct (reset_good cfg now Hps Hevents Hdis s0 HF) as (s1' & E' & HG & _). rewrite E in E'. injection E' as <-.
  apply (steps_good (H := H) cfg now sha256 Hps Hevents Hdis _ _ (kv_ok_NoDup _ (hf_kv _ _ HF)) ([], [], s1) (uh, held, s)); done.
Qed.

(** C4. In every state that requests reach from a fresh cache, the tree over both tiers
    satisfies the radix invariant with one handle per user and per transfer under way; a
    node on the device (in host memory) has its parent there too, a locked node is on the
    device, and every node is on some tier; both sets of evictable leaves are exact; the
    evictable and protected sizes together count the device slots of the tree; every
    device slot is in the tree, with a user or in the pool, and every host slot is in the
    tree or in its pool, each exactly once. *)
Theorem hicache_invariant s0 s1 uh held s :
  hi_fresh cfg s0 -> hi_reset cfg now s0 = (Ret tt, s1) -> rtc hi_step ([], [], s1) (uh, held, s) ->
  let G := habs s in
  inv ps eagle (all_handles uh s) (gfull G) /\
  (forall i n, lns G !! i = Some n -> i <> g_root G -> tier_ok G n) /\
  (forall i, i ∈ evictable_leaves (tree s) <-> leaf_at (g_ns G) i = true) /\
  (forall i, i ∈ evictable_host_leaves s <-> hleaf_at (g_un G) (g_ns G) i = true) /\
  evictable_size_ (tree s) + protected_size_ (tree s) = Z.of_nat (length (dslots G)) /\
  dslots G ++ held ++ kv_owned (kv_pool (tree s)) ≡ₚ kv_owned (kv_pool (tree s0)) /\
  NoDup (dslots G ++ held ++ kv_owned (kv_pool (tree s))) /\
  hslots G ++ h_free (host s) ≡ₚ seqZ 0 (h_size (host s0)) /\
  NoDup (hslots G ++ h_free (host s)).
Proof.
  intros HF E Hr G. pose proof (reachable_good s0 s1 uh held s HF E Hr) as HG.
  pose proof (gd_state _ _ _ _ _ _ _ HG) as [[HI Ho] [R1 R2 R3 R4 R5 R6 R7]]. fold G in HI, Ho, R5, R6, R7. simpl in R7.
  split_and!; [done|apply Ho| | |exact (sizes_device ps eagle (all_handles uh s) G (conj HI Ho))|done| |done|].
  - intros i. apply (hv_lv Ho). set_solver.
  - intros i. apply (hv_hl Ho). set_solver.
  - rewrite R6. by apply kv_ok_NoDup, HF.
  - rewrite R7. apply NoDup_seqZ.
Qed.

(** C14. Every request that its caller may make in a reachable state (matching, inserting,
    locking, unlocking, evicting, loading back, starting transfers, collecting the finished
    ones, allocating and freeing) terminates within its fuel and returns without raising. *)
Theorem hicache_requests_return s0 s1 w op :
  hi_fresh cfg s0 -> hi_reset cfg now s0 = (Ret tt, s1) -> rtc hi_step ([], [], s1) w -> may_run cfg op w ->
  exists w', run_op op w = (Ret tt, w').
Proof.
  intros HF E Hr Hm. destruct w as [[uh held] s]. pose proof (reachable_good s0 s1 uh held s HF E Hr) as HG.
  destruct (run_op_ok (H := H) cfg now sha256 Hps Hevents Hdis _ _ (kv_ok_NoDup _ (hf_kv _ _ HF)) op (uh, held, s) HG Hm) as (w' & Ew & _).
  eauto.
Qed.

Section slots.
Context (D L : list Z) (HD : NoDup D).
Local Abbreviation hgood := (hgood cfg D L).

(** C17. [match_prefix] finds the longest page-aligned prefix of the key over both tiers: it
    returns the device indices of the part on the device, whose last node is on the device,
    and the number of units that follow on evicted nodes, each the parent of the next; the
    last host node has a host copy; everything on the device stays where it is. *)
Theorem hi_match_two_tiers uh held hheld s k :
  hgood uh held hheld s -> is_bigram k = false \/ eagle = true ->
  let key := lookup_key cfg k in
  exists r s' m vs j, hi_match_prefix cfg now k s = (Ret r, s') /\ hgood uh held hheld s' /\ keeps (habs s) (habs s') /\
    longest ps (gfull (habs s)) (root_node (tree s)) key m vs /\
    (host_hit_length r <= m)%nat /\ device_indices (hm_match r) = take (m - host_hit_length r) vs /\
    path (gfull (habs s')) (extra_key key) (root_node (tree s)) (take m (units key)) vs j /\
    hostpath (habs s') (last_device_node (hm_match r)) (host_hit_length r) j /\
    (exists n, lns (habs s') !! last_device_node (hm_match r) = Some n /\ hlive n = true) /\
    (exists n, lns (habs s') !! last_host_node (hm_match r) = Some n /\ hbacked n = true).
Proof.
  intros HG Hk key. destruct (match_good cfg now Hps Hdis D L uh held hheld s k HG Hk) as (r & s' & m & vs & j & E & HG' & HK & HM).
  fold key in HM. exists r, s', m, vs, j. pose proof (hmt_walked _ _ _ _ _ _ _ _ _ HM) as [W1 W2 W3 W4].
  pose proof (hmt_le _ _ _ _ _ _ _ _ _ HM) as Hle. pose proof (hmt_path _ _ _ _ _ _ _ _ _ HM) as HP.
  split_and!; try done; try apply HM. pose proof (inv_t _ _ _ _ W1) as HA.
  pose proof (path_length _ _ Hps _ HA _ _ _ _ _ HP) as El. pose proof (path_aligned _ _ _ Hps HA _ _ _ _ _ HP) as Hal.
  pose proof (path_length _ _ Hps _ HA _ _ _ _ _ W4) as El'.
  eapply (cached_unique ps eagle Hps _ HA _ _ _ _ _ _ (Nat.lt_succ_diag_r _) Hal).
  - split; [done|]. exists [], [], (last_device_node (hm_match r)). by rewrite !app_nil_r.
  - replace (take (m - host_hit_length r) (units key)) with (take (m - host_hit_length r) (take m (units key)))
      by (rewrite take_take; f_equal; lia).
    apply cached_prefix. split; [done|]. exists [], [], j. by rewrite !app_nil_r.
Qed.

(** C18. After inserting a key with its indices, looking it up finds all of it on the device:
    the indices that were there for some prefix of length [m], the inserted ones for the
    rest, and nothing left to load from the host.  [m] is the length the insertion reports;
    the first [m] inserted slots stay with the caller, the others belong to the tree; what
    was on the device stays where it was. *)
Theorem hi_insert_then_match uh held hheld s params w :
  ip_value params = Some w -> is_bigram (ip_key params) = false \/ eagle = true ->
  length (insert_value cfg params) = key_len (lookup_key cfg (ip_key params)) ->
  paged (Z.of_nat ps) (insert_value cfg params) -> hgood uh (insert_value cfg params ++ held) hheld s ->
  exists m old s1 r s2, hi_insert (H := H) cfg now sha256 params s = (Ret m, s1) /\
    hi_match_prefix cfg now (ip_key params) s1 = (Ret r, s2) /\
    (m <= key_len (lookup_key cfg (ip_key params)))%nat /\ length old = m /\
    device_indices (hm_match r) = old ++ drop m (insert_value cfg params) /\ host_hit_length r = 0%nat /\
    hgood uh (take m (insert_value cfg params) ++ held) hheld s1 /\ keeps (habs s) (habs s1).
Proof.
  intros Hw Hk Hl Hpg HG.
  destruct (hi_insert_ok (H := H) cfg now sha256 Hps Hevents Hdis D L HD uh held hheld s params w Hw Hk Hl Hpg HG)
    as (m & old & j & s1 & E1 & [N1 N2 [N3 N4] (jn & Hj & Hjl) N5]).
  destruct (match_good cfg now Hps Hdis D L uh _ hheld s1 (ip_key params) N1 Hk) as (r & s2 & m2 & vs & j2 & E2 & HG2 & HK2 & HM).
  exists m, old, s1, r, s2. pose proof HM as [M1 M2 M3 [W1 W2 [L1 L2 L3 L4] W4] M5 M6 M7 M8 M9 M10].
  set (key := lookup_key cfg (ip_key params)) in *. destruct (lookup_key_ok cfg Hps (ip_key params) Hk) as (_ & Hal & _). fold key in Hal.
  pose proof (path_length _ _ Hps _ (hv_tree (good_ok _ _ _ _ _ _ _ N1)) _ _ _ _ _ N5) as El.
  assert (m2 = key_len key) as ->.
  { enough (key_len key <= m2)%nat by lia. apply (L4 _ (old ++ drop m (insert_value cfg params)) Hal (le_n _)).
    rewrite take_ge by (rewrite length_units; lia). split; [done|]. exists [], [], j. by rewrite !app_nil_r. }
  rewrite take_ge in W4 by (rewrite length_units; lia).
  destruct (proj2 HK2 _ _ _ _ _ N5 Hj Hjl) as (P2 & jn2 & Hj2 & Hjl2).
  destruct (path_det ps eagle _ (extra_key key) Hps (inv_t _ _ _ _ W1) _ _ _ _ _ _ _ (Nat.lt_succ_diag_r _) P2 W4) as [Ev Ej]. subst j2.
  assert (last_device_node (hm_match r) = j /\ host_hit_length r = 0%nat) as [Ed Eh].
  { inversion M5 as [|i l j' c cn _ Hc _ Hev]; [done|]. subst. congruence. }
  rewrite Eh, Nat.sub_0_r, take_ge in M8 by (rewrite length_units; lia). rewrite Ed in M8.
  destruct (path_det ps eagle _ (extra_key key) Hps (inv_t _ _ _ _ W1) _ _ _ _ _ _ _ (Nat.lt_succ_diag_r _) M8 P2) as [Ev' _].
  split_and!; done.
Qed.

(** What [init_load_back] does to the tree: the evicted nodes [l] between the device node [a]
    and [i] receive consecutive pieces of the new indices [d], other evicted nodes stay. *)
Definition chain_loaded (G G' : HAbs) (i : nat) (d : list Z) : Prop :=
  exists a l, down G a l /\ ends_at a l i /\ length d = length (host_of G l) /\ carries G' l d /\
    forall c n, lns G !! c = Some n -> hlive n = false -> c ∉ l -> live_at (lns G') c = false.

Lemma loaded_chain G G' i d : loaded G G' i (Some d) -> chain_loaded G G' i d /\
  forall c n, lns G !! c = Some n -> hlive n = false -> exists n', lns G' !! c = Some n' /\ hs_key n' = hs_key n /\ hs_host n' = hs_host n.
Proof.
  intros (a & l & G1 & HT & Hd & He & _ & Hlen & HS & Hc).
  assert (forall c n, lns G !! c = Some n -> hlive n = false -> exists n1 n', lns (revives G1 l d) !! c = Some n1 /\ lns G' !! c = Some n' /\
    hs_val n' = hs_val n1 /\ hs_key n' = hs_key n /\ hs_host n' = hs_host n /\ (c ∉ l -> hs_val n1 = None)) as Hn.
  { intros c n Hn Hl. destruct (tn_host _ _ HT c n Hn Hl) as (n1 & Hn1 & _ & E1 & E2 & E3).
    pose proof (revives_parts l G1 d c) as Hp. rewrite Hn1 in Hp. destruct (lns (revives G1 l d) !! c) as [n2|] eqn:Hn2; [|done].
    simpl in Hp. injection Hp as P1 P2 P3 P4 P5. destruct (same_tiers_lookup _ _ _ _ HS Hn2) as (n3 & Hn3 & _ & _ & Q1 & Q2 & Q3).
    exists n2, n3. split_and!; try done; try congruence. intros Hcl. rewrite revives_other in Hn2 by done.
    assert (n2 = n1) as -> by congruence. rewrite E2. unfold hlive in Hl. by destruct (hs_val n). }
  split; [exists a, l; split_and!; try done|].
  - intros c n Hcn Hl Hcl. destruct (Hn c n Hcn Hl) as (n1 & n' & _ & Hn' & E & _ & _ & E1). unfold live_at. rewrite Hn'.
    unfold hlive. by rewrite E, E1.
  - intros c n Hcn Hl. destruct (Hn c n Hcn Hl) as (n1 & n' & _ & Hn' & _ & E1 & E2 & _). eauto.
Qed.

(** C19. Loading back is all or nothing: either the whole chain of evicted nodes from the
    nearest device node down to [i] comes to the device, the new indices spread over it in
    order, or every evicted node stays evicted and no index is returned; the node returned
    is on the device, and every host copy is kept. *)
Theorem load_back_all_or_nothing uh held hheld s i quota :
  hgood uh held hheld s -> is_Some (lns (habs s) !! i) ->
  exists d j s', init_load_back (H := H) cfg sha256 i quota s = (Ret (d, j), s') /\ hgood uh held hheld s' /\
    live_at (lns (habs s')) j = true /\
    (j = i /\ chain_loaded (habs s) (habs s') i d \/
     d = [] /\ forall c n, lns (habs s) !! c = Some n -> hlive n = false -> live_at (lns (habs s')) c = false) /\
    (forall c n, lns (habs s) !! c = Some n -> hlive n = false ->
       exists n', lns (habs s') !! c = Some n' /\ hs_key n' = hs_key n /\ hs_host n' = hs_host n).
Proof.
  intros HG Hi.
  destruct (init_load_back_ok (H := H) cfg sha256 Hps Hevents Hdis D L HD uh held hheld s i quota HG Hi) as (d & j & s' & n & E & HG' & Hn & Hl & Hc).
  exists d, j, s'. split_and!; [done|done|unfold live_at; by rewrite Hn| |].
  - destruct Hc as [(-> & -> & ->)|[(-> & HL)|(-> & HL)]].
    + right. split; [done|]. intros c cn Hcn. unfold live_at. by rewrite Hcn.
    + left. split; [done|]. by apply loaded_chain.
    + right. split; [done|]. intros c cn Hcn Hcl. destruct (tn_host _ _ HL c cn Hcn Hcl) as (n1 & Hn1 & _ & _ & E1 & _).
      unfold live_at, hlive in *. by rewrite Hn1, E1.
  - intros c cn Hcn Hcl. destruct Hc as [(-> & -> & ->)|[(-> & HL)|(-> & HL)]]; [eauto|by apply (proj2 (loaded_chain _ _ _ _ HL) c)|].
    destruct (tn_host _ _ HL c cn Hcn Hcl) as (n1 & Hn1 & _ & E1 & _ & E2). eauto.
Qed.

(** C21. [evict] frees as many device slots as it reports, gives exactly those back to the
    pool and leaves the host pool alone; it reports fewer than asked for only when nothing
    on the device is left to evict.  Nodes that are locked or on the host only are not
    touched, and every node that remains keeps its key, its place, its host copy and its
    locks. *)
Theorem hi_evict_spec uh held hheld s num :
  hgood uh held hheld s ->
  exists f s', hi_evict (H := H) cfg sha256 num s = (Ret f, s') /\ hgood uh held hheld s' /\
    (num <= f \/ evictable_size_ (tree s') = 0) /\
    0 <= f /\ evictable_size_ (tree s') = evictable_size_ (tree s) - f /\
    Z.of_nat (length (kv_owned (kv_pool (tree s')))) = Z.of_nat (length (kv_owned (kv_pool (tree s)))) + f /\
    host s' = host s /\ sheds (habs s) (habs s').
Proof.
  intros HG. destruct (hi_evict_ok (H := H) cfg sha256 Hps Hevents D L HD (all_handles uh s) held hheld s num) as (f & s' & E & HE & Hor);
    [apply HG|apply HG|]. pose proof HE as [E1 E2 E3 E4 E5 E6 E7]. exists f, s'.
  split_and!; try done. by eapply (evicted_good cfg sha256 Hps Hevents D L HD).
Qed.

(** C20. Transfers drain: once the copy engine is ready and has finished every transfer,
    starting the queued loads and collecting the acknowledgements leaves no transfer under
    way and all four queues empty, releases every lock a transfer held without moving any
    slot, and, when no user holds a handle, leaves nothing protected. *)
Theorem transfers_drain uh held hheld s ready :
  hgood uh held hheld s -> (forall i, ready i = true) ->
  exists z s1 s', ready_to_load_host_cache ready s = (Ret z, s1) /\
    check_hicache_events cfg sha256 (fun _ => true) (fun _ => true) id s1 = (Ret tt, s') /\
    hgood uh held hheld s' /\ same_tiers (habs s) (habs s') /\
    ongoing_write_through s' = ∅ /\ ongoing_load_back s' = ∅ /\
    load_queue (xfer s') = [] /\ ack_load_queue (xfer s') = [] /\
    concat (ack_node_ids <$> ack_write_queue (xfer s')) = [] /\ (uh = [] -> protected_size_ (tree s') = 0).
Proof.
  intros HG Hr. destruct (ready_to_load_ok cfg D L uh held hheld s ready HG Hr) as (z & s1 & E1 & HG1 & A1 & Q1).
  destruct (check_events_ok cfg sha256 Hps Hevents Hdis D L HD uh held hheld s1 (fun _ => true) (fun _ => true) id HG1)
    as (s2 & E2 & HG2 & T2 & Q2 & Q3 & Q4); [done|].
  assert (forall acks, finished_prefix (fun _ => true) acks = length acks) as Hall.
  { induction acks as [|a acks IH]; [done|]. simpl. by rewrite IH. }
  assert (ack_load_queue (xfer s2) = []) as Q3' by (by rewrite Q3, Hall, drop_all).
  assert (concat (ack_node_ids <$> ack_write_queue (xfer s2)) = []) as Q4'.
  { destruct Q4 as [[E ->]| ->]; [|unfold id; by rewrite Hall, drop_all].
    pose proof (gd_writes _ _ _ _ _ _ _ HG1) as Hw. rewrite E, elements_empty in Hw. by apply Permutation_nil_r in Hw. }
  assert (ongoing_write_through s2 = ∅) as W.
  { pose proof (gd_writes _ _ _ _ _ _ _ HG2) as Hw. rewrite Q4' in Hw. symmetry in Hw. apply Permutation_nil_r in Hw.
    apply leibniz_equiv. by apply elements_empty_inv in Hw. }
  assert (ongoing_load_back s2 = ∅) as O.
  { pose proof (gd_loads _ _ _ _ _ _ _ HG2) as Hw. rewrite Q2, Q1, Q3' in Hw. simpl in Hw. symmetry in Hw. apply Permutation_nil_r in Hw.
    apply leibniz_equiv. by apply elements_empty_inv in Hw. }
  exists z, s1, s2. split_and!; try done; [by rewrite <-A1|congruence|].
  intros ->. pose proof (gd_state _ _ _ _ _ _ _ HG2) as [[HI _] _]. unfold all_handles in HI. rewrite W, O, !elements_empty in HI.
  destruct (inv_s _ _ _ _ HI) as [_ Hpr]. change (protected_size_ (tree s2)) with (a_pr (gfull (habs s2))). rewrite Hpr.
  apply msum_zero. intros i n Hn. unfold locked_len. case_decide; [done|]. by rewrite (no_handles_unlocked ps eagle _ i n HI Hn).
Qed.
End slots.
End claims.

(** ** A concrete cache *)

#[local] Existing Instance demo_alloc.
Local Abbreviation dstep := (hi_step (H := list HeapEntry) demo_cfg demo_now demo_sha).

Definition hdemo0 : HiCache Alloc unit unit :=
  mkHi (set_pool (paged_init 16 2 false) demo0) ∅ (mkHostSlots 2 12 []) ∅ ∅ ∅ (mkTransfers [] [] [] [] 0 (-1) (-1))
    (mkPolicies false "write_through" 1 "best_effort" 2 2 1000 0 0 0 false) [] [] []
    (mkSto ∅ 0 [] [] [] [] [] [] 0 tt ∅).
Definition hdemo1 : HiCache Alloc unit unit := py_exec (hi_reset demo_cfg demo_now) hdemo0.
Definition run_demo (op : HiOp) (w : HiWorld) : HiWorld (T := Alloc) (B := unit) (Page := unit) :=
  py_exec (run_op (H := list HeapEntry) demo_cfg demo_now demo_sha op) w.
Definition hdemo_params : InsertParams :=
  mkInsertParams (mkRadixKey (seqZ 70 12) None false) (Some (seqZ 2 12)) None false.
Definition all_done : HiOp := OpEvents (fun _ => true) (fun _ => true) id.

(** Slots allocated, a key inserted and written to the host, the write collected, the key
    evicted from the device. *)
Definition wdemo1 : HiWorld := ([], [], hdemo1).
Definition wdemo2 : HiWorld := run_demo (OpAlloc 12) wdemo1.
Definition wdemo3 : HiWorld := run_demo (OpInsert hdemo_params []) wdemo2.
Definition wdemo4 : HiWorld := run_demo all_done wdemo3.
Definition wdemo5 : HiWorld := run_demo (OpEvict 12) wdemo4.

Lemma hdemo_fresh : hi_fresh demo_cfg hdemo0.
Proof. constructor; try done. apply (paged_init_ok 16 2 false). lia. Qed.

Lemma hdemo_reset : hi_reset demo_cfg demo_now hdemo0 = (Ret tt, hdemo1).
Proof. vm_compute. reflexivity. Qed.

Lemma demo_runs op w : may_run demo_cfg op w ->
  (run_op (H := list HeapEntry) demo_cfg demo_now demo_sha op w).1 = Ret tt -> dstep w (run_demo op w).
Proof.
  intros Hm E. exists op. split; [done|]. unfold run_demo, py_exec. by destruct (run_op demo_cfg demo_now demo_sha op w) as [o w'] eqn:Er; simpl in E; subst o.
Qed.

Lemma wdemo2_steps : rtc dstep wdemo1 wdemo2.
Proof. apply rtc_once, (demo_runs (OpAlloc 12) wdemo1); [vm_compute; reflexivity|vm_compute; reflexivity]. Qed.

Lemma demo_paged : paged (Z.of_nat (cfg_page_size demo_cfg)) (insert_value demo_cfg hdemo_params).
Proof. exists (seqZ 1 6). split; [vm_compute; reflexivity|apply NoDup_seqZ]. Qed.

Lemma wdemo3_steps : rtc dstep wdemo1 wdemo3.
Proof.
  eapply rtc_r; [apply wdemo2_steps|]. apply (demo_runs (OpInsert hdemo_params []) wdemo2); [|vm_compute; reflexivity].
  split_and!; [by eexists|by left|vm_compute; reflexivity|apply demo_paged|vm_compute; reflexivity].
Qed.

Lemma wdemo4_steps : rtc dstep wdemo1 wdemo4.
Proof. eapply rtc_r; [apply wdemo3_steps|]. apply (demo_runs all_done wdemo3); [|vm_compute; reflexivity].
  intros n. apply le_n. Qed.

Lemma wdemo5_steps : rtc dstep wdemo1 wdemo5.
Proof. eapply rtc_r; [apply wdemo4_steps|]. apply (demo_runs (OpEvict 12) wdemo4); [exact I|vm_compute; reflexivity]. Qed.

Lemma hdemo_good w : rtc dstep wdemo1 w ->
  hgood demo_cfg (kv_owned (kv_pool (tree hdemo0))) (seqZ 0 12) w.1.1 w.1.2 [] w.2.
Proof.
  destruct w as [[uh held] s]. intros Hr.
  exact (reachable_good demo_cfg demo_now demo_sha demo_ps eq_refl eq_refl hdemo0 hdemo1 uh held s hdemo_fresh hdemo_reset Hr).
Qed.

Lemma hdemo_NoDup : NoDup (kv_owned (kv_pool (tree hdemo0))).
Proof. apply kv_ok_NoDup, hdemo_fresh. Qed.

Lemma hicache_invariant_witness :
  NoDup (hslots (habs wdemo5.2) ++ h_free (host wdemo5.2)) /\
  evictable_size_ (tree wdemo5.2) + protected_size_ (tree wdemo5.2) = 0.
Proof.
  assert (wdemo5 = ([], [], wdemo5.2)) as E by (vm_compute; reflexivity).
  pose proof wdemo5_steps as Hr. rewrite E in Hr.
  destruct (hicache_invariant (H := list HeapEntry) demo_cfg demo_now demo_sha demo_ps eq_refl eq_refl hdemo0 hdemo1 [] []
    wdemo5.2 hdemo_fresh hdemo_reset Hr) as (_ & _ & _ & _ & Hs & _ & _ & _ & Hn).
  split; [exact Hn|]. rewrite Hs. vm_compute. reflexivity.
Defined.

Lemma hicache_requests_return_witness :
  exists w', run_op (H := list HeapEntry) demo_cfg demo_now demo_sha (OpLoad 1 None) wdemo5 = (Ret tt, w').
Proof.
  apply (hicache_requests_return (H := list HeapEntry) demo_cfg demo_now demo_sha demo_ps eq_refl eq_refl hdemo0 hdemo1 wdemo5
    (OpLoad 1 None) hdemo_fresh hdemo_reset wdemo5_steps).
  eexists. vm_compute. reflexivity.
Defined.

Lemma hi_match_two_tiers_witness :
  exists r s', hi_match_prefix demo_cfg demo_now (mkRadixKey (seqZ 70 13) None false) wdemo5.2 = (Ret r, s') /\
    host_hit_length r = 12%nat /\ device_indices (hm_match r) = [].
Proof.
  destruct (hi_match_two_tiers demo_cfg demo_now demo_ps eq_refl (kv_owned (kv_pool (tree hdemo0))) (seqZ 0 12) wdemo5.1.1 wdemo5.1.2 []
    wdemo5.2 (mkRadixKey (seqZ 70 13) None false) (hdemo_good _ wdemo5_steps) (or_introl eq_refl)) as (r & s' & m & vs & j & E & _).
  exists r, s'. split; [exact E|]. vm_compute in E. injection E as <- _. split; reflexivity.
Defined.

Lemma hi_insert_then_match_witness :
  exists m s1 r s2, hi_insert (H := list HeapEntry) demo_cfg demo_now demo_sha hdemo_params wdemo2.2 = (Ret m, s1) /\
    hi_match_prefix demo_cfg demo_now (ip_key hdemo_params) s1 = (Ret r, s2) /\ host_hit_length r = 0%nat.
Proof.
  destruct (hi_insert_then_match (H := list HeapEntry) demo_cfg demo_now demo_sha demo_ps eq_refl eq_refl
    (kv_owned (kv_pool (tree hdemo0))) (seqZ 0 12) hdemo_NoDup [] [] [] wdemo2.2 hdemo_params (seqZ 2 12) eq_refl (or_introl eq_refl))
    as (m & old & s1 & r & s2 & E1 & E2 & _ & _ & _ & Eh & _).
  - vm_compute. reflexivity.
  - exact demo_paged.
  - exact (hdemo_good wdemo2 wdemo2_steps).
  - exists m, s1, r, s2. auto.
Defined.

Lemma load_back_all_or_nothing_witness :
  exists d j s', init_load_back (H := list HeapEntry) demo_cfg demo_sha 1 None wdemo5.2 = (Ret (d, j), s') /\
    live_at (lns (habs s')) j = true /\ length d = 12%nat.
Proof.
  destruct (load_back_all_or_nothing (H := list HeapEntry) demo_cfg demo_sha demo_ps eq_refl eq_refl
    (kv_owned (kv_pool (tree hdemo0))) (seqZ 0 12) hdemo_NoDup wdemo5.1.1 wdemo5.1.2 [] wdemo5.2 1 None (hdemo_good _ wdemo5_steps))
    as (d & j & s' & E & _ & Hl & _); [eexists; vm_compute; reflexivity|].
  exists d, j, s'. split; [exact E|]. split; [exact Hl|]. vm_compute in E. injection E as <- _ _. reflexivity.
Defined.

Lemma hi_evict_spec_witness :
  exists f s', hi_evict (H := list HeapEntry) demo_cfg demo_sha 3 wdemo4.2 = (Ret f, s') /\ (3 <= f \/ evictable_size_ (tree s') = 0).
Proof.
  destruct (hi_evict_spec (H := list HeapEntry) demo_cfg demo_sha demo_ps eq_refl
    (kv_owned (kv_pool (tree hdemo0))) (seqZ 0 12) hdemo_NoDup wdemo4.1.1 wdemo4.1.2 [] wdemo4.2 3 (hdemo_good _ wdemo4_steps))
    as (f & s' & E & _ & Hf & _). eauto.
Defined.

Lemma transfers_drain_witness :
  ongoing_write_through wdemo3.2 <> ∅ /\
  exists z s1 s', ready_to_load_host_cache (fun _ => true) wdemo3.2 = (Ret z, s1) /\
    check_hicache_events demo_cfg demo_sha (fun _ => true) (fun _ => true) id s1 = (Ret tt, s') /\
    ongoing_write_through s' = ∅ /\ protected_size_ (tree s') = 0.
Proof.
  split; [vm_compute; discriminate|].
  destruct (transfers_drain demo_cfg demo_sha demo_ps eq_refl eq_refl
    (kv_owned (kv_pool (tree hdemo0))) (seqZ 0 12) hdemo_NoDup wdemo3.1.1 wdemo3.1.2 [] wdemo3.2 (fun _ => true) (hdemo_good _ wdemo3_steps))
    as (z & s1 & s' & E1 & E2 & _ & _ & W & _ & _ & _ & _ & Hp); [done|].
  exists z, s1, s'. split; [exact E1|]. split; [exact E2|]. split; [exact W|]. apply Hp. vm_compute. reflexivity.
Defined.
