(* ===== verification/HiBugs.v ===== *)
(** * Runs in which the three-tier cache goes wrong

    Outside the setting of HiClaims (write-through, no storage backend) the code does not
    keep its invariants.  Each example here is a run of the model on a small cache with a
    storage backend that is a finite map from page hashes to pages, or with the write-back
    policy. *)

From stdpp Require Import base tactics list gmap strings.
From Stdlib Require Import ZArith Lia.
From S2P Require Import Prelude PyStr RadixKey TreeNode EvictPolicy Allocator AllocatorProofs KVEvents.
From S2P Require Import RadixTree RadixClaims ReqPool HiController HiRadix.

#[local] Existing Instance demo_alloc.

(** ** A storage backend *)

Definition Store : Type := gmap string nat.

Fixpoint hits (b : Store) (ks : list string) : nat :=
  match ks with
  | [] => 0
  | k :: ks' => match b !! k with Some _ => S (hits b ks') | None => 0 end
  end.

#[local] Instance map_store : StorageBackend Store nat := {|
  sb_batch_exists ks _ := fun b => (Ret (hits b ks), b);
  sb_batch_get ks := fun b => (Ret (Some ((fun k => b !! k) <$> ks)), b);
  sb_batch_set ks vs := fun b => (Ret true, foldr (fun kv m => <[kv.1 := kv.2]> m) b (zip ks vs)) |}.

(** A hash that names the nonzero bytes of its input. *)
Definition hex_digit (n : Z) : string :=
  default "?" (["0"; "1"; "2"; "3"; "4"; "5"; "6"; "7"; "8"; "9"; "a"; "b"; "c"; "d"; "e"; "f"] !! Z.to_nat n).
Definition demo_hash (l : list Z) : string :=
  foldr (fun x s => hex_digit (x / 16 mod 16) +:+ hex_digit (x mod 16) +:+ s) "" (filter (fun x => x <> 0) l).

Local Abbreviation St := (HiCache Alloc Store nat).
Local Abbreviation evict_hi := (hi_evict (H := list HeapEntry) demo_cfg demo_hash).

Definition small (storage : bool) (policy : string) (threshold : Z) (host_size : Z) (pages : list Z) (b : Store) : St :=
  mkHi (set_pool (set_pages pages [] (paged_init 24 2 false)) demo0) ∅ (mkHostSlots 2 host_size []) ∅ ∅ ∅
    (mkTransfers [] [] [] [] 0 (-1) (-1))
    (mkPolicies storage policy threshold "best_effort" 2 2 1000 0 0 0 false) [] [] []
    (mkSto ∅ 0 [] [] [] [] [] [] 0 b ∅).

Definition put (toks vals : list Z) : PyM St nat :=
  hi_insert (H := list HeapEntry) demo_cfg demo_now demo_hash (mkInsertParams (mkRadixKey toks None false) (Some vals) None false).
Definition start_prefetch (req : string) (toks : list Z) : PyM St unit :=
  prefetch_from_storage (H := list HeapEntry) demo_cfg demo_now demo_hash req 0 toks None None.
Definition prefetch_thread : PyM St unit := on_sto (prefetch_thread_item 2 demo_hash 128 2 id).
Definition io_thread : PyM St unit := on_sto (prefetch_io_aux_item 2 128).
Definition backup_thread : PyM St unit := on_sto (backup_thread_item 2 128 0%nat false).

(** ** A prefetched suffix below a node that is not in host memory *)

Definition orphan_suffix : PyM St Z :=
  _ ← hi_reset demo_cfg demo_now;
  _ ← start_prefetch "r" [1; 2; 3; 4];
  _ ← put [1; 2] [2; 3];
  _ ← prefetch_thread;
  _ ← io_thread;
  _ ← check_prefetch_progress demo_cfg demo_now demo_hash "r" id id;
  evict_hi 2.

Definition two_pages : Store := {[ "0102" := 7%nat; "01020304" := 8%nat ]}.

(** The suffix [3, 4] that the prefetch brings lands under the node [1, 2], which was inserted
    meanwhile and is on the device only; that node then counts as an evictable leaf, and
    evicting it fails on the assertion that it has no children. *)
Theorem prefetched_suffix_breaks_evict :
  (orphan_suffix (small true "write_through_selective" 2 12 (seqZ 3 6) two_pages)).1 = Raise AssertionError.
Proof. vm_compute. reflexivity. Qed.

(** ** Write-back: a node being loaded loses its host slots *)

Definition load_under_write_back : PyM St (Z * option (list Z)) :=
  _ ← hi_reset demo_cfg demo_now;
  _ ← put (seqZ 1 12) (seqZ 2 12);
  n ← evict_hi 12;
  _ ← hi_kv_alloc 12;
  _ ← put (seqZ 30 12) (seqZ 2 12);
  r ← load_back (H := list HeapEntry) demo_cfg demo_hash 1 None;
  mret (n, r).


(** Loading node 1 back evicts node 2, whose write-back evicts node 1 from the host: node 1
    leaves the tree while it is loaded, and the host slots it is loaded from are given to
    node 2. *)
Theorem write_back_loads_reused_slots :
  let '(r, s) := load_under_write_back (small false "write_back" 2 12 [] ∅) in
  r = Ret (12, Some (seqZ 2 12)) /\ unlinked s = {[1%nat]} /\ ongoing_load_back s = {[1%nat]} /\
  (co_host_indices <$> load_queue (xfer s)) = [seqZ 0 12] /\
  (host_value <$> nodes (tree s) !! 2%nat) = Some (Some (seqZ 0 12)).
Proof. vm_compute. split_and!; reflexivity. Qed.

(** ** A node split while it is written: the upper half never reaches the storage *)

Definition split_while_writing : PyM St unit :=
  _ ← hi_reset demo_cfg demo_now;
  _ ← put [1; 2; 3; 4] [2; 3; 4; 5];
  _ ← hi_match_prefix demo_cfg demo_now (mkRadixKey [1; 2] None false);
  _ ← writing_check demo_cfg demo_hash (fun _ => true) id;
  backup_thread.

(** Both halves of the split node are on the host and know their hashes, nothing is left to
    write, but only the lower page is in the storage. *)
Theorem split_loses_backup :
  let '(r, s) := split_while_writing (small true "write_through" 1 12 (seqZ 3 6) ∅) in
  r = Ret tt /\ (hash_value <$> nodes (tree s) !! 2%nat) = Some (Some ["0102"]) /\
  (host_value <$> nodes (tree s) !! 2%nat) = Some (Some [0; 1]) /\
  backup_queue (sto s) = [] /\ ongoing_write_through s = ∅ /\
  backend (sto s) !! "01020304" = Some 0%nat /\ backend (sto s) !! "0102" = None.
Proof. vm_compute. split_and!; reflexivity. Qed.

(** ** A shortened prefetch *)
Definition short_prefetch : PyM St unit :=
  _ ← hi_reset demo_cfg demo_now;
  _ ← start_prefetch "r" [1; 2; 3; 4];
  _ ← prefetch_thread;
  io_thread.

(** With room for one page only, the operation keeps the key of two: the IO thread indexes
    past the host slots and dies. *)
Theorem short_prefetch_kills_io_thread :
  (short_prefetch (small true "write_through" 1 2 (seqZ 3 6) two_pages)).1 = Raise IndexError.
Proof. vm_compute. reflexivity. Qed.

(** ** Resetting with pages to release *)
Definition reset_with_releases : PyM St unit :=
  _ ← hi_reset demo_cfg demo_now;
  _ ← start_prefetch "r" [1; 2; 3; 4];
  _ ← prefetch_thread;
  _ ← hi_reset demo_cfg demo_now;
  drain_storage_control_queues id.

(** The pages of a revoked prefetch are released after the pool has been cleared: the free
    list has them twice. *)
Theorem reset_releases_twice :
  let '(r, s) := reset_with_releases (small true "write_through" 1 12 (seqZ 3 6) ∅) in
  r = Ret tt /\ h_free (host s) = seqZ 0 12 ++ [0; 1; 2; 3].
Proof. vm_compute. split; reflexivity. Qed.
