(* ===== verification/PyNum.v ===== *)
(** * Python numbers

    An [int] is exact; a [float] is a rational that a rounding function has chosen, and every
    operation with a [float] operand rounds its exact result (IEEE 754 arithmetic in the range
    where neither overflow nor NaN occurs).  The rounding function is a parameter; the laws
    used of it are that it is monotone and leaves integers up to [2^53] alone. *)

From stdpp Require Import base tactics list.
From Stdlib Require Import ZArith Lia QArith Lqa.
From S2P Require Import Prelude.

#[local] Open Scope Z_scope.

Inductive PyNum :=
  | NInt (z : Z)
  | NFloat (q : Q).

Class Rounding (rnd : Q -> Q) : Prop := {
  rnd_mono x y : (x <= y)%Q -> (rnd x <= rnd y)%Q;
  rnd_int z : Z.abs z <= 2 ^ 53 -> (rnd (inject_Z z) == inject_Z z)%Q }.

(** Exact rationals are one such arithmetic. *)
#[global] Instance exact_rounding : Rounding (fun q => q).
Proof. by split. Qed.

Section num.
Context (rnd : Q -> Q).

Definition num_val (x : PyNum) : Q := match x with NInt z => inject_Z z | NFloat q => q end.
(** [float(x)] *)
Definition to_float (x : PyNum) : Q := match x with NInt z => rnd (inject_Z z) | NFloat q => q end.

Definition num_add (x y : PyNum) : PyNum :=
  match x, y with
  | NInt a, NInt b => NInt (a + b)
  | _, _ => NFloat (rnd (to_float x + to_float y)%Q)
  end.
Definition num_sub (x y : PyNum) : PyNum :=
  match x, y with
  | NInt a, NInt b => NInt (a - b)
  | _, _ => NFloat (rnd (to_float x - to_float y)%Q)
  end.
Definition num_mul (x y : PyNum) : PyNum :=
  match x, y with
  | NInt a, NInt b => NInt (a * b)
  | _, _ => NFloat (rnd (to_float x * to_float y)%Q)
  end.

(** Comparisons are exact. *)
Definition num_leb (x y : PyNum) : bool := Qle_bool (num_val x) (num_val y).
Definition num_ltb (x y : PyNum) : bool := negb (Qle_bool (num_val y) (num_val x)).
(** [min(x, y)] returns its first argument on a tie. *)
Definition num_min (x y : PyNum) : PyNum := if num_ltb y x then y else x.
(** [int(x)] truncates towards zero. *)
Definition num_int (x : PyNum) : Z :=
  match x with NInt z => z | NFloat q => Z.quot (Qnum q) (Z.pos (Qden q)) end.

Definition num_sum (l : list PyNum) : PyNum := foldl num_add (NInt 0) l.

Lemma num_leb_le x y : num_leb x y = true <-> (num_val x <= num_val y)%Q.
Proof. apply Qle_bool_iff. Qed.

Lemma num_ltb_lt x y : num_ltb x y = true <-> (num_val x < num_val y)%Q.
Proof.
  unfold num_ltb. rewrite negb_true_iff. split; intros H.
  - apply Qnot_le_lt. intros E%Qle_bool_iff. congruence.
  - destruct (Qle_bool (num_val y) (num_val x)) eqn:E; [|done]. apply Qle_bool_iff in E. lra.
Qed.

Lemma num_ltb_int x y : num_ltb (NInt x) (NInt y) = (x <? y).
Proof.
  apply eq_true_iff_eq. rewrite num_ltb_lt, Z.ltb_lt. simpl. by rewrite <-Zlt_Qlt.
Qed.

Lemma num_leb_int x y : num_leb (NInt x) (NInt y) = (x <=? y).
Proof. apply eq_true_iff_eq. rewrite num_leb_le, Z.leb_le. simpl. by rewrite <-Zle_Qle. Qed.

Context `{!Rounding rnd}.

(** Adding an integer to a number at least [z] gives one at least their sum. *)
Lemma num_add_ge x z n :
  (inject_Z z <= num_val x)%Q -> Z.abs n <= 2 ^ 53 -> Z.abs (z + n) <= 2 ^ 53 ->
  (inject_Z (z + n) <= num_val (num_add x (NInt n)))%Q.
Proof.
  intros Hx Hn Hz. destruct x as [a|q]; simpl in *.
  - rewrite <-Zle_Qle in *. lia.
  - rewrite <-(rnd_int (z + n)) by done. apply rnd_mono. rewrite (rnd_int n) by done.
    rewrite inject_Z_plus. lra.
Qed.

(** Subtracting from an integer a number at least [z]. *)
Lemma num_sub_le x z n :
  (inject_Z z <= num_val x)%Q -> Z.abs n <= 2 ^ 53 -> Z.abs (n - z) <= 2 ^ 53 ->
  (num_val (num_sub (NInt n) x) <= inject_Z (n - z))%Q.
Proof.
  intros Hx Hn Hz. destruct x as [a|q]; simpl in *.
  - rewrite <-Zle_Qle in *. lia.
  - rewrite <-(rnd_int (n - z)) by done. apply rnd_mono. rewrite (rnd_int n) by done.
    unfold Z.sub. rewrite inject_Z_plus, inject_Z_opp. lra.
Qed.
End num.
