(* ===== verification/DecodeBatch.v ===== *)
(** * Decode batches of the scheduler (managers/schedule_batch.py, managers/scheduler.py)

    Before every decode step the scheduler drops finished requests from the running batch,
    checks that the KV memory suffices for one more token each, retracts requests when it does
    not, puts those back into the waiting queue, and allocates the slots.  A batch keeps its requests and vectors with an entry for
    each of them.  Speculative decoding enters the memory estimate only; sliding windows,
    Mamba states, penalties and encoder-decoder models are left out. *)

From stdpp Require Import base tactics list gmap strings.
From Stdlib Require Import ZArith Lia QArith.
From S2P Require Import Prelude PyStr RadixKey TreeNode EvictPolicy Allocator AllocatorProofs BatchAlloc RowTable KVEvents.
From S2P Require Import RadixTree MemAlloc ReqPool MemBatch PyNum.

#[local] Open Scope Z_scope.

(** ** Requests and batches *)

(** The fields of a running request that these steps read and write. *)
Record RReq := mkRReq {
  rr_kv : KVReq;
  rr_max_new_tokens : Z;
  rr_finished : bool;            (* finished_reason is set *)
  rr_to_abort : bool;            (* to_finish is FINISH_ABORT *)
  rr_return_logprob : bool;
  rr_stream : bool;
  rr_grammar : bool;
  rr_input_embeds : bool;
  rr_retraction_count : Z;
  rr_is_retracted : bool;
  rr_already_computed : Z;
  rr_extend_batch_idx : Z;
  rr_decode_batch_idx : Z }.

Definition rr_rid (r : RReq) : nat := kr_rid (rr_kv r).
Definition rr_req (r : RReq) : Req := kr_req (rr_kv r).

Record Batch := mkBatch {
  b_reqs : list RReq;
  b_req_pool_indices : list Z;
  b_seq_lens : list Z;
  b_orig_seq_lens : list Z;
  b_seq_lens_sum : Z;
  b_input_ids : option (list Z);
  b_output_ids : option (list Z);
  b_out_cache_loc : option (list Z);
  b_return_logprob : bool;
  b_top_logprobs_nums : option (list Z);
  b_token_ids_logprobs : option (list (option (list Z)));
  b_has_stream : bool;
  b_has_grammar : bool;
  b_is_prefill_only : bool }.

Definition is_empty (b : Batch) : bool := match b_reqs b with [] => true | _ => false end.

(** [[l[i] for i in keep]] *)
Fixpoint select {A} (l : list A) (keep : list nat) : Outcome (list A) :=
  match keep with
  | [] => Ret []
  | i :: keep => x ← or_raise IndexError (l !! i); xs ← select l keep; Ret (x :: xs)
  end.

Definition select_opt {A} (o : option (list A)) (keep : list nat) : Outcome (option (list A)) :=
  match o with Some l => l' ← select l keep; Ret (Some l') | None => Ret None end.

(** Subscripting [None] raises. *)
Definition select_some {A} (o : option (list A)) (keep : list nat) : Outcome (option (list A)) :=
  match o with Some l => l' ← select l keep; Ret (Some l') | None => Raise TypeError end.

Definition with_reqs_only (rs : list RReq) (b : Batch) : Batch :=
  mkBatch rs (b_req_pool_indices b) (b_seq_lens b) (b_orig_seq_lens b) (b_seq_lens_sum b) (b_input_ids b) (b_output_ids b)
    (b_out_cache_loc b) (b_return_logprob b) (b_top_logprobs_nums b) (b_token_ids_logprobs b) (b_has_stream b) (b_has_grammar b)
    (b_is_prefill_only b).

(** [filter_batch]: by explicit indices, or the unfinished requests that are not excluded. *)
Definition unfinished_indices (exclude : list nat) (b : Batch) : list nat :=
  omap (fun i => match b_reqs b !! i with
                 | Some r => if negb (rr_finished r) && negb (bool_decide (rr_rid r ∈ exclude)) then Some i else None
                 | None => None
                 end) (List.seq 0 (length (b_reqs b))).

Definition filter_batch (exclude : list nat) (keep_indices : option (list nat)) (b : Batch) : Outcome Batch :=
  let keep := default (unfinished_indices exclude b) keep_indices in
  match keep with
  | [] => Ret (with_reqs_only [] b)
  | _ =>
      if (length keep =? length (b_reqs b))%nat then Ret b
      else
        reqs ← select (b_reqs b) keep;
        req_pool_indices ← select (b_req_pool_indices b) keep;
        seq_lens ← select (b_seq_lens b) keep;
        orig_seq_lens ← select (b_orig_seq_lens b) keep;
        output_ids ← select_opt (b_output_ids b) keep;
        let return_logprob := existsb rr_return_logprob reqs in
        top ← (if return_logprob then select_some (b_top_logprobs_nums b) keep else Ret None);
        ids ← (if return_logprob then select_some (b_token_ids_logprobs b) keep else Ret None);
        Ret (mkBatch reqs req_pool_indices seq_lens orig_seq_lens (sumZ seq_lens) (b_input_ids b) output_ids None
               return_logprob top ids (existsb rr_stream reqs) (existsb rr_grammar reqs) (b_is_prefill_only b))
  end.

(** [merge_batch] *)
Definition cat_opt {A} (a b : option (list A)) : Outcome (option (list A)) :=
  match a, b with
  | Some x, Some y => Ret (Some (x ++ y))
  | None, _ => Ret None
  | Some _, None => Raise TypeError
  end.

Definition merge_logprobs {A} (pad : A) (n m : nat) (self other : bool) (a b : option (list A)) : Outcome (option (list A)) :=
  if self && other then
    match a, b with Some x, Some y => Ret (Some (x ++ y)) | _, _ => Raise TypeError end
  else if self then match a with Some x => Ret (Some (x ++ replicate m pad)) | None => Raise AttributeError end
  else if other then match b with Some y => Ret (Some (replicate n pad ++ y)) | None => Raise TypeError end
  else Ret a.

Definition merge_batch (b o : Batch) : Outcome Batch :=
  output_ids ← cat_opt (b_output_ids b) (b_output_ids o);
  let n := length (b_reqs b) in
  let k := length (b_reqs o) in
  top ← merge_logprobs 0 n k (b_return_logprob b) (b_return_logprob o) (b_top_logprobs_nums b) (b_top_logprobs_nums o);
  ids ← merge_logprobs None n k (b_return_logprob b) (b_return_logprob o) (b_token_ids_logprobs b) (b_token_ids_logprobs o);
  Ret (mkBatch (b_reqs b ++ b_reqs o) (b_req_pool_indices b ++ b_req_pool_indices o) (b_seq_lens b ++ b_seq_lens o)
         (b_orig_seq_lens b ++ b_orig_seq_lens o) (b_seq_lens_sum b + b_seq_lens_sum o) (b_input_ids b) output_ids None
         (b_return_logprob b || b_return_logprob o) top ids (b_has_stream b || b_has_stream o) (b_has_grammar b || b_has_grammar o)
         (b_is_prefill_only b && b_is_prefill_only o)).

(** ** The memory the next decode step needs *)

(** Speculative decoding: the algorithm, its numbers and whether it runs in the overlapped
    scheduler. *)
Record SpecCfg := mkSpecCfg {
  speculative : bool;
  enable_overlap : bool;
  supports_spec_v2 : bool;
  speculative_num_steps : option Z;
  speculative_eagle_topk : option Z;
  speculative_num_draft_tokens : Z }.

(** [x or 1] *)
Definition or_one (x : option Z) : Z := match x with None | Some 0 => 1 | Some n => n end.

Definition is_spec_v2 (sp : SpecCfg) : Outcome bool :=
  let ret := enable_overlap sp && speculative sp in
  if negb ret || supports_spec_v2 sp then Ret ret else Raise AssertionError.

(** managers/utils.py [get_alloc_len_per_decode] *)
Definition get_alloc_len_per_decode (sp : SpecCfg) (page_size : Z) : Outcome Z :=
  if negb (speculative sp) then Ret 1
  else
    let spec_steps := or_one (speculative_num_steps sp) in
    let spec_topk := or_one (speculative_eagle_topk sp) in
    if (page_size =? 1) || (spec_topk =? 1) then Ret (Z.max (spec_steps * spec_topk) (speculative_num_draft_tokens sp))
    else Raise NotImplementedError.

Definition committed (r : RReq) : Z := Z.of_nat (kv_committed_len (rr_req r)).
Definition allocated (r : RReq) : Z := Z.of_nat (kv_allocated_len (rr_kv r)).

Definition _new_tokens_required_next_decode_spec_v2 (sp : SpecCfg) (requests : list RReq) (page_size : Z) : Outcome Z :=
  alloc_len ← get_alloc_len_per_decode sp page_size;
  Ret (sumZ ((fun r =>
    let x := Z.max 0 (committed r + 2 * alloc_len - allocated r) in
    let cur := allocated r in
    let nxt := cur + x in
    ceil_align nxt page_size - ceil_align cur page_size) <$> requests)).

Definition new_tokens_required_next_decode (sp : SpecCfg) (page_size : Z) (requests : list RReq) : Outcome Z :=
  if negb (speculative sp) then
    let new_pages := sumZ ((fun r => if committed r mod page_size =? 0 then 1 else 0) <$> requests) in
    Ret (new_pages * page_size)
  else
    is_spec_v2 sp ≫= fun v2 : bool =>
    if v2 then _new_tokens_required_next_decode_spec_v2 sp requests page_size
    else
      let len_per_topk := or_one (speculative_num_steps sp) in
      let spec_topk := or_one (speculative_eagle_topk sp) in
      let spec_tokens := speculative_num_draft_tokens sp in
      let '(len_per_topk, spec_tokens) :=
        if (1 <? page_size) && (1 <? spec_topk) then (ceil_align (len_per_topk + page_size) page_size, ceil_align spec_tokens page_size)
        else if 1 <? page_size then (ceil_align len_per_topk page_size, ceil_align spec_tokens page_size)
        else (len_per_topk, spec_tokens) in
      Ret (Z.max (len_per_topk * spec_topk) spec_tokens * Z.of_nat (length requests)).

(** [a / b] on integers, and [min(1.0, x)] *)
Definition true_div (rnd : Q -> Q) (a b : Z) : Outcome PyNum :=
  if b =? 0 then Raise ZeroDivisionError else Ret (NFloat (rnd (inject_Z a / inject_Z b)%Q)).

(** [max(x, y)] returns its first argument on a tie. *)
Definition num_max (x y : PyNum) : PyNum := if num_ltb x y then y else x.

(** ** The waiting queue

    scheduler.py [_add_request_to_queue] outside disaggregation and without a hierarchical
    cache: what is put into the queue, and the abort messages sent to the tokenizer. *)

Record QueueCfg := mkQueueCfg {
  max_queued_requests : option Z;
  enable_priority_scheduling : bool;
  schedule_low_priority_values_first : bool;
  abort_on_priority_when_disabled : bool }.

(** Why a request gets an [AbortReq]. *)
Inductive AbortReason := PriorityDisabled | QueueFull | HigherPriority | RetractOutOfMemory.
#[global] Instance AbortReason_eq_dec : EqDecision AbortReason.
Proof. solve_decision. Defined.

(** A waiting request with its [wait_queue_entry_time]; the messages sent so far; how often
    the clock was read. *)
Record Queue := mkQueue {
  waiting_queue : list (RReq * Z);
  aborts_sent : list (nat * AbortReason);
  clock_reads : nat }.

Definition send_abort (rid : nat) (why : AbortReason) (q : Queue) : Queue :=
  mkQueue (waiting_queue q) (aborts_sent q ++ [(rid, why)]) (clock_reads q).

Definition rr_priority (r : RReq) : option Z := req_priority (rr_req r).
Definition set_req_priority (p : Z) (r : RReq) : RReq :=
  let q := rr_req r in
  mkRReq
    (mkKVReq (rr_rid r)
       (mkReq (req_pool_idx q) (origin_input_ids q) (output_ids q) (fill_ids q) (req_extra_key q) (Some p) (cache_protected_len q)
          (last_node q) (prefix_indices q) (kv_committed_len q) (kv_committed_freed q) (reasoning_tokens q))
       (kv_allocated_len (rr_kv r)) (kv_overallocated_freed (rr_kv r)) (skip_radix_cache_insert (rr_kv r)))
    (rr_max_new_tokens r) (rr_finished r) (rr_to_abort r) (rr_return_logprob r) (rr_stream r) (rr_grammar r) (rr_input_embeds r)
    (rr_retraction_count r) (rr_is_retracted r) (rr_already_computed r) (rr_extend_batch_idx r) (rr_decode_batch_idx r).

(** Tuples of two numbers, compared. *)
Definition key_gt (x y : Z * Z) : bool := (y.1 <? x.1) || ((y.1 =? x.1) && (y.2 <? x.2)).

Section queue.
Context (qc : QueueCfg) (perf_counter : nat -> Z).

(** [sys.maxsize] *)
Definition sys_maxsize : Z := 2 ^ 63 - 1.

(** The request, with a priority if it needs one; whether it is accepted. *)
Definition _set_or_validate_priority (r : RReq) (q : Queue) : bool * RReq * Queue :=
  if enable_priority_scheduling qc && bool_decide (rr_priority r = None)
  then (true, set_req_priority (if schedule_low_priority_values_first qc then sys_maxsize else - sys_maxsize - 1) r, q)
  else if negb (enable_priority_scheduling qc) && negb (bool_decide (rr_priority r = None)) && abort_on_priority_when_disabled qc
  then (false, r, send_abort (rr_rid r) PriorityDisabled q)
  else (true, r, q).

Definition direction : Z := if schedule_low_priority_values_first qc then 1 else -1.

(** [direction * item.priority] raises for a request without a priority. *)
Definition queue_key (w : RReq * Z) : Outcome (Z * Z) :=
  p ← or_raise TypeError (rr_priority w.1); Ret (direction * p, w.2).

(** [max(enumerate(l), key=key_fn)]: the first of the largest. *)
Fixpoint max_from (i : nat) (best : nat * RReq) (key : Z * Z) (l : list (RReq * Z)) : Outcome (nat * RReq) :=
  match l with
  | [] => Ret best
  | w :: l => k ← queue_key w; if key_gt k key then max_from (S i) (i, w.1) k l else max_from (S i) best key l
  end.
Definition least_preferred (l : list (RReq * Z)) : Outcome (nat * RReq) :=
  match l with
  | [] => Raise ValueError
  | w :: l => k ← queue_key w; max_from 1 (0%nat, w.1) k l
  end.

(** Whether the incoming request is refused. *)
Definition _abort_on_queued_limit (recv_req : RReq) (q : Queue) : Outcome (bool * Queue) :=
  if match max_queued_requests qc with None => true | Some n => Z.of_nat (length (waiting_queue q)) + 1 <=? n end
  then Ret (false, q)
  else
    '(req_to_abort, why, q) ←
      (if enable_priority_scheduling qc then
         '(idx, candidate) ← least_preferred (waiting_queue q);
         p ← or_raise TypeError (rr_priority recv_req);
         p' ← or_raise TypeError (rr_priority candidate);
         if direction * p <? direction * p'
         then Ret (candidate, HigherPriority, mkQueue (delete idx (waiting_queue q)) (aborts_sent q) (clock_reads q))
         else Ret (recv_req, QueueFull, q)
       else Ret (recv_req, QueueFull, q));
    Ret (bool_decide (rr_rid req_to_abort = rr_rid recv_req), send_abort (rr_rid req_to_abort) why q).

Definition _add_request_to_queue (r : RReq) (q : Queue) : Outcome Queue :=
  let '(accepted, r, q) := _set_or_validate_priority r q in
  if negb accepted then Ret q
  else
    '(refused, q) ← _abort_on_queued_limit r q;
    if (refused : bool) then Ret q
    else Ret (mkQueue (waiting_queue q ++ [(r, perf_counter (clock_reads q))]) (aborts_sent q) (S (clock_reads q))).

(** The requests of a retraction, one after the other. *)
Fixpoint requeue (rs : list RReq) (q : Queue) : Outcome Queue :=
  match rs with
  | [] => Ret q
  | r :: rs => q ← _add_request_to_queue r q; requeue rs q
  end.
End queue.

(** ** Steps on the batch and the memory *)

Section decode.
Context {T : Type} `{!KVAllocator T} `{!BatchKV T} {H : Type} `{!HeapQ H}.
Context (cfg : Config) (now : nat -> Z) (sha256 : list Z -> string) {B : Type} (kv_backup : T -> B).
Context (rnd : Q -> Q) (sp : SpecCfg) (RETRACT_DECODE_STEPS : Z).
Local Abbreviation St := (Batch * Mem T)%type.
Local Abbreviation M := (PyM (Batch * Mem T)).

Definition with_mem {A} (m : PyM (Mem T) A) : M A := fun s => let '(r, x) := m s.2 in (r, (s.1, x)).
Definition on_batch (f : Batch -> Outcome Batch) : M unit := fun s =>
  match f s.1 with Ret b => (Ret tt, (b, s.2)) | Raise e => (Raise e, s) | OutOfFuel => (OutOfFuel, s) end.

(** The fields of a request that the row pool reads. *)
Definition set_pool_fields (rid : nat) (chunked : Z -> Z) (len : Z -> Z) (s : Mem T) : Mem T :=
  mkMem (mem_cache s)
    (set_rows (free_rows (mem_rows s))
       (alter (fun q => mkPoolReq (pool_idx q) (chunked (is_chunked q)) (len (committed_len q))) rid (reqs (mem_rows s)))
       (mem_rows s)).

Definition check_decode_mem (selected_indices : option (list nat)) : M bool :=
  s ← py_get;
  requests ← py_lift (match selected_indices with Some l => select (b_reqs s.1) l | None => Ret (b_reqs s.1) end);
  num_tokens ← py_lift (new_tokens_required_next_decode sp (kv_page (kv_pool (mem_cache s.2))) requests);
  _ ← with_mem (lift_cache (evict_from_tree_cache (H := H) cfg sha256 kv_available false num_tokens));
  s ← py_get;
  mret (num_tokens <=? kv_available (kv_pool (mem_cache s.2))).

(** [reset_for_retract] *)
Definition reset_req (input_embeds : bool) (r : Req) : Req :=
  mkReq (req_pool_idx r) (origin_input_ids r) (if input_embeds then [] else output_ids r) (fill_ids r) (req_extra_key r) (req_priority r)
    0 None [] 0 false (reasoning_tokens r).
Definition reset_for_retract (r : RReq) : RReq :=
  mkRReq (mkKVReq (rr_rid r) (reset_req (rr_input_embeds r) (rr_req r)) 0 false (skip_radix_cache_insert (rr_kv r)))
    (rr_max_new_tokens r) (rr_finished r) (rr_to_abort r) (rr_return_logprob r) (rr_stream r) (rr_grammar r) (rr_input_embeds r)
    (rr_retraction_count r + 1) true 0 0 0.

Definition set_rr_kv (k : KVReq) (r : RReq) : RReq :=
  mkRReq k (rr_max_new_tokens r) (rr_finished r) (rr_to_abort r) (rr_return_logprob r) (rr_stream r) (rr_grammar r) (rr_input_embeds r)
    (rr_retraction_count r) (rr_is_retracted r) (rr_already_computed r) (rr_extend_batch_idx r) (rr_decode_batch_idx r).
Definition mark_abort (r : RReq) : RReq :=
  mkRReq (rr_kv r) (rr_max_new_tokens r) (rr_finished r) true (rr_return_logprob r) (rr_stream r) (rr_grammar r) (rr_input_embeds r)
    (rr_retraction_count r) (rr_is_retracted r) (rr_already_computed r) (rr_extend_batch_idx r) (rr_decode_batch_idx r).

Definition get_req (idx : nat) : M RReq := s ← py_get; py_lift (or_raise IndexError (b_reqs s.1 !! idx)).
Definition put_req (idx : nat) (r : RReq) : M unit :=
  py_modify (fun s : Batch * Mem T => (with_reqs_only (<[idx := r]> (b_reqs s.1)) s.1, s.2)).

(** [release_req] without a HiSparse coordinator and outside disaggregated decoding: the
    request after the release. *)
Definition release_req (idx : nat) (remaining : Z) : M RReq :=
  r ← get_req idx;
  k ← with_mem (release_kv_cache cfg now sha256 (speculative sp) (rr_kv r) false);
  _ ← with_mem (lift_cache (evict_from_tree_cache (H := H) cfg sha256 kv_available false (remaining * RETRACT_DECODE_STEPS)));
  let r := reset_for_retract (set_rr_kv k r) in
  _ ← put_req idx r;
  _ ← with_mem (py_modify (set_pool_fields (rr_rid r) (fun _ => 0) (fun _ => 0)));
  mret r.

(** The order of retraction: most output first, then shortest input; the last goes first. *)
Definition retract_key (b : Batch) (i : nat) : Z * Z :=
  match b_reqs b !! i with
  | Some r => (Z.of_nat (length (output_ids (rr_req r))), - Z.of_nat (length (origin_input_ids (rr_req r))))
  | None => (0, 0)
  end.
(** [sort(key, reverse=True)] keeps the order of equal elements. *)
Fixpoint insert_desc {A} (key : A -> Z * Z) (x : A) (l : list A) : list A :=
  match l with
  | [] => [x]
  | y :: l' => if key_gt (key y) (key x) then y :: insert_desc key x l' else x :: y :: l'
  end.
Definition sort_desc {A} (key : A -> Z * Z) (l : list A) : list A := foldr (insert_desc key) [] l.

(** The loop of [retract_decode]: the indices kept and the requests retracted. *)
Fixpoint retract_loop (fuel : nat) (first_iter : bool) (sorted_indices : list nat) (retracted : list RReq) : M (list nat * list RReq) :=
  match fuel with
  | O => fun s => (OutOfFuel, s)
  | S fuel =>
      ok ← (if first_iter then mret false else check_decode_mem (Some sorted_indices));
      if (ok : bool) then mret (sorted_indices, retracted)
      else if (length sorted_indices =? 1)%nat then mret (sorted_indices, retracted)
      else
        match last sorted_indices with
        | None => py_raise IndexError
        | Some idx =>
            let kept := take (pred (length sorted_indices)) sorted_indices in
            r ← release_req idx (Z.of_nat (length kept));
            retract_loop fuel false kept (retracted ++ [r])
        end
  end.

(** The new estimate, from the requests that stay. *)
Definition estimate_ratio : M PyNum :=
  s ← py_get;
  let total_decoded_tokens := sumZ ((fun r => Z.of_nat (length (output_ids (rr_req r)))) <$> b_reqs s.1) in
  let total_max_new_tokens := sumZ (rr_max_new_tokens <$> b_reqs s.1) in
  ratio ← py_lift (true_div rnd (total_decoded_tokens + RETRACT_DECODE_STEPS * Z.of_nat (length (b_reqs s.1))) (total_max_new_tokens + 1));
  mret (num_min (NFloat 1) ratio).

Definition retract_decode : M (list RReq * PyNum * list RReq) :=
  s ← py_get;
  let indices := List.seq 0 (length (b_reqs s.1)) in
  let sorted_indices := if speculative sp then indices else sort_desc (retract_key s.1) indices in
  '(sorted_indices, retracted_reqs) ← retract_loop (S (length sorted_indices)) true sorted_indices [];
  short ← (if (length sorted_indices <=? 1)%nat
           then ok ← check_decode_mem (Some sorted_indices); mret (negb ok)
           else mret false);
  '(sorted_indices, reqs_to_abort) ←
    (if (short : bool) then
       match last sorted_indices with
       | None => py_raise IndexError
       | Some last_idx =>
           r ← get_req last_idx;
           _ ← put_req last_idx (mark_abort r);
           r ← release_req last_idx 0;
           mret (take (pred (length sorted_indices)) sorted_indices, [r])
       end
     else mret (sorted_indices, []));
  _ ← on_batch (filter_batch [] (Some sorted_indices));
  new_estimate_ratio ← estimate_ratio;
  mret (retracted_reqs, new_estimate_ratio, reqs_to_abort).

(** [prepare_for_decode] without speculation, penalties or encoders *)
Definition set_lens (c a : nat) (k : KVReq) : KVReq :=
  let r := kr_req k in
  mkKVReq (kr_rid k)
    (mkReq (req_pool_idx r) (origin_input_ids r) (output_ids r) (fill_ids r) (req_extra_key r) (req_priority r) (cache_protected_len r)
       (last_node r) (prefix_indices r) c (kv_committed_freed r) (reasoning_tokens r))
    a (kv_overallocated_freed k) (skip_radix_cache_insert k).
Definition bump_req (r : RReq) : RReq :=
  mkRReq (set_lens (S (kv_committed_len (rr_req r))) (S (kv_allocated_len (rr_kv r))) (rr_kv r))
    (rr_max_new_tokens r) (rr_finished r) (rr_to_abort r) (rr_return_logprob r) (rr_stream r) (rr_grammar r) (rr_input_embeds r)
    (rr_retraction_count r) (rr_is_retracted r) (rr_already_computed r) (rr_extend_batch_idx r) (rr_decode_batch_idx r + 1).

(** [input_ids = output_ids; output_ids = None] *)
Definition feed_outputs (b : Batch) : Batch :=
  mkBatch (b_reqs b) (b_req_pool_indices b) (b_seq_lens b) (b_orig_seq_lens b) (b_seq_lens_sum b) (b_output_ids b) None (b_out_cache_loc b)
    (b_return_logprob b) (b_top_logprobs_nums b) (b_token_ids_logprobs b) (b_has_stream b) (b_has_grammar b) (b_is_prefill_only b).
Definition bump_batch (out : list Z) (b : Batch) : Batch :=
  mkBatch (bump_req <$> b_reqs b) (b_req_pool_indices b) (Z.succ <$> b_seq_lens b) (Z.succ <$> b_orig_seq_lens b)
    (b_seq_lens_sum b + Z.of_nat (length (b_reqs b))) (b_input_ids b) (b_output_ids b) (Some out) (b_return_logprob b) (b_top_logprobs_nums b)
    (b_token_ids_logprobs b) (b_has_stream b) (b_has_grammar b) (b_is_prefill_only b).

Definition prepare_for_decode : M unit :=
  _ ← on_batch (fun b => Ret (feed_outputs b));
  s ← py_get;
  out_cache_loc ← with_mem (alloc_for_decode (H := H) cfg sha256 kv_backup
    (mkDecodeBatch (b_req_pool_indices s.1) (b_seq_lens s.1) None) 1);
  _ ← on_batch (fun b => Ret (bump_batch out_cache_loc b));
  with_mem (py_modify (fun x => foldl (fun x r => set_pool_fields (rr_rid r) id Z.succ x) x (b_reqs s.1))).

(** scheduler.py [update_running_batch], without the test mode, metrics and log; with the
    scheduler's estimate, whether it takes the batch for full, and its queue. *)
Record RunState := mkRunState { rs_new_token_ratio : PyNum; batch_is_full : bool; rs_queue : Queue }.
Record Updated := mkUpdated { retracted_reqs : list RReq; reqs_to_abort : list RReq; run_state : RunState }.

Definition update_running_batch (qc : QueueCfg) (perf_counter : nat -> Z) (new_token_ratio_decay min_new_token_ratio : PyNum) (g : RunState) : M Updated :=
  s ← py_get;
  let initial_bs := length (b_reqs s.1) in
  _ ← on_batch (filter_batch [] None);
  s ← py_get;
  if is_empty s.1 then mret (mkUpdated [] [] (mkRunState (rs_new_token_ratio g) false (rs_queue g)))
  else
    ok ← check_decode_mem None;
    '(retracted, aborted, ratio, q) ←
      (if (ok : bool)
       then mret ([], [], num_max (num_sub rnd (rs_new_token_ratio g) new_token_ratio_decay) min_new_token_ratio, rs_queue g)
       else
         '(retracted, ratio, aborted) ← retract_decode;
         let q := foldl (fun q r => send_abort (rr_rid r) RetractOutOfMemory q) (rs_queue g) aborted in
         q ← py_lift (requeue qc perf_counter retracted q);
         mret (retracted, aborted, ratio, q));
    s ← py_get;
    let full := batch_is_full g && negb (length (b_reqs s.1) <? initial_bs)%nat in
    let u := mkUpdated retracted aborted (mkRunState ratio full q) in
    if is_empty s.1 then mret u
    else _ ← prepare_for_decode; mret u.

(** [retract_all] *)
Fixpoint release_all (n : nat) (idxs : list nat) : M unit :=
  match idxs with
  | [] => mret tt
  | idx :: idxs => _ ← release_req idx (Z.of_nat n - Z.of_nat idx); release_all n idxs
  end.
Definition retract_all : M (list RReq) :=
  s ← py_get;
  let n := length (b_reqs s.1) in
  _ ← release_all n (List.seq 0 n);
  s ← py_get;
  _ ← on_batch (filter_batch (rr_rid <$> b_reqs s.1) None);
  mret (b_reqs s.1).
End decode.
