(* ===== verification/WaitQueue.v ===== *)
(** * Putting requests back into the waiting queue

    [_add_request_to_queue] accounts for every request: it waits, or a message was sent that
    it was aborted.  A full queue and the priority mode decide which of the two. *)

From stdpp Require Import base tactics list strings.
From Stdlib Require Import ZArith Lia QArith.
From S2P Require Import Prelude PyStr RadixKey TreeNode EvictPolicy Allocator AllocatorProofs BatchAlloc RowTable KVEvents.
From S2P Require Import RadixTree MemAlloc ReqPool MemBatch PyNum DecodeBatch.

#[local] Open Scope Z_scope.

Section queue.
Context (qc : QueueCfg) (perf_counter : nat -> Z).
Implicit Types (q : Queue) (r : RReq).

(** With priorities, every waiting request has one and the queue has room for one. *)
Record queue_wf q : Prop := mkQueueWf {
  qw_priority : enable_priority_scheduling qc = true -> Forall (fun w => is_Some (rr_priority w.1)) (waiting_queue q);
  qw_limit n : enable_priority_scheduling qc = true -> max_queued_requests qc = Some n -> 1 <= n }.

Definition waiting_rids q : list nat := (fun w => rr_rid w.1) <$> waiting_queue q.

(** The request with the priority [_set_or_validate_priority] gives it. *)
Definition prioritized r : RReq :=
  if enable_priority_scheduling qc && bool_decide (rr_priority r = None)
  then set_req_priority (if schedule_low_priority_values_first qc then sys_maxsize else - sys_maxsize - 1) r else r.

Lemma prioritized_rid r : rr_rid (prioritized r) = rr_rid r.
Proof. unfold prioritized. by destruct (_ && _). Qed.

Lemma prioritized_some r : enable_priority_scheduling qc = true -> is_Some (rr_priority (prioritized r)).
Proof.
  intros He. unfold prioritized. rewrite He. cbn [andb]. case_bool_decide as Hp; [by eexists|]. by apply not_eq_None_Some in Hp.
Qed.

(** ** The least preferred waiting request *)

Lemma queue_key_ok w p : rr_priority w.1 = Some p -> queue_key qc w = Ret (direction qc * p, w.2).
Proof. intros Hp. unfold queue_key. by rewrite Hp. Qed.

Lemma max_from_ok l pre i best key w0 :
  Forall (fun w => is_Some (rr_priority w.1)) l -> length pre = i -> (pre ++ l) !! best.1 = Some w0 -> best.2 = w0.1 ->
  exists j w, max_from qc i best key l = Ret (j, w.1) /\ (pre ++ l) !! j = Some w.
Proof.
  revert pre i best key w0. induction l as [|w l IH]; intros pre i best key w0 Hf Hi Hb Hb2; cbn [max_from].
  - exists best.1, w0. destruct best as [b1 b2]. cbn in *. by subst.
  - apply Forall_cons in Hf as [[p Hp] Hf]. rewrite (queue_key_ok w p Hp). cbn [mbind Outcome_bind].
    assert (pre ++ w :: l = (pre ++ [w]) ++ l) as E by (by rewrite <-(assoc_L (++))).
    destruct (key_gt _ key); rewrite E in *.
    + apply (IH (pre ++ [w]) _ (i, w.1) _ w Hf); [rewrite length_app; cbn; lia| |done]. cbn [fst].
      rewrite <-(assoc_L (++)), lookup_app_r, <-Hi, Nat.sub_diag by lia. done.
    + apply (IH (pre ++ [w]) _ best _ w0 Hf); [rewrite length_app; cbn; lia|done|done].
Qed.

Lemma least_preferred_ok l : l <> [] -> Forall (fun w => is_Some (rr_priority w.1)) l ->
  exists j w, least_preferred qc l = Ret (j, w.1) /\ l !! j = Some w.
Proof.
  destruct l as [|w l]; [done|]. intros _ [[p Hp] Hf]%Forall_cons. cbn [least_preferred]. rewrite (queue_key_ok w p Hp). cbn [mbind Outcome_bind].
  by apply (max_from_ok l [w] 1 (0%nat, w.1) _ w).
Qed.

(** ** One request *)

(** What adding [rs] did: every request of the queue and of [rs] waits or was sent an abort;
    a waiting request was there before or is one of [rs]. *)
Record queued (rs : list RReq) q q' : Prop := mkQueued {
  qd_wf : queue_wf q';
  qd_rids : exists sent, aborts_sent q' = aborts_sent q ++ sent /\ waiting_rids q' ++ sent.*1 ≡ₚ waiting_rids q ++ (rr_rid <$> rs) /\
    (sent = [] -> (waiting_queue q').*1 = (waiting_queue q).*1 ++ (prioritized <$> rs));
  qd_from w : w ∈ waiting_queue q' -> w ∈ waiting_queue q \/ w.1 ∈ prioritized <$> rs;
  qd_limit n : max_queued_requests qc = Some n -> Z.of_nat (length (waiting_queue q)) <= n -> Z.of_nat (length (waiting_queue q')) <= n;
  qd_plain : max_queued_requests qc = None -> enable_priority_scheduling qc || negb (abort_on_priority_when_disabled qc) = true ->
    aborts_sent q' = aborts_sent q }.

Lemma queued_nil q : queue_wf q -> queued [] q q.
Proof. intros Hw. constructor; try done; [|auto]. exists []. rewrite !app_nil_r. done. Qed.

Lemma queued_trans rs1 rs2 q q1 q2 : queued rs1 q q1 -> queued rs2 q1 q2 -> queued (rs1 ++ rs2) q q2.
Proof.
  intros [_ (s1 & E1 & P1 & F1) W1 L1 N1] [Hw (s2 & E2 & P2 & F2) W2 L2 N2]. constructor.
  - done.
  - exists (s1 ++ s2). split_and!; [by rewrite E2, E1, (assoc_L (++))| |].
    + rewrite !fmap_app. transitivity ((waiting_rids q2 ++ s2.*1) ++ s1.*1); [solve_Permutation|]. rewrite P2.
      transitivity ((waiting_rids q1 ++ s1.*1) ++ (rr_rid <$> rs2)); [solve_Permutation|]. by rewrite P1, (assoc_L (++)).
    + intros [-> ->]%app_nil. rewrite F2, F1, fmap_app, (assoc_L (++)); done.
  - intros w [Hq%W1|Hr]%W2; rewrite fmap_app, elem_of_app; tauto.
  - eauto.
  - intros Hn He. rewrite N2, N1; done.
Qed.

Lemma queued_append r t q k :
  queue_wf q -> (forall n, max_queued_requests qc = Some n -> Z.of_nat (length (waiting_queue q)) + 1 <= n) ->
  queued [r] q (mkQueue (waiting_queue q ++ [(prioritized r, t)]) (aborts_sent q) k).
Proof.
  intros [W1 W2] Hn. constructor; cbn [waiting_queue aborts_sent].
  - constructor; [|done]. intros He. cbn. apply Forall_app. split; [auto|]. constructor; [|done]. by apply prioritized_some.
  - exists []. rewrite !app_nil_r. split; [done|]. unfold waiting_rids. cbn [waiting_queue]. rewrite !fmap_app. cbn. by rewrite prioritized_rid.
  - intros w [Hq|Hr%list_elem_of_singleton]%elem_of_app; [by left|right]. subst w. left.
  - intros n E _. specialize (Hn n E). rewrite length_app. cbn. lia.
  - done.
Qed.

(** A request that is not added: the message is the one sent. *)
Lemma queued_refused r why q :
  queue_wf q -> (max_queued_requests qc = None -> enable_priority_scheduling qc || negb (abort_on_priority_when_disabled qc) = false) ->
  queued [r] q (send_abort (rr_rid r) why q).
Proof.
  intros [W1 W2] Hn. constructor; cbn; try done; [exists [(rr_rid r, why)]; by split|auto|].
  intros E. rewrite (Hn E). done.
Qed.

(** A waiting request gives way to a better one. *)
Lemma queued_instead r t q k j w :
  queue_wf q -> waiting_queue q !! j = Some w -> max_queued_requests qc <> None ->
  queued [r] q (mkQueue (delete j (waiting_queue q) ++ [(prioritized r, t)]) (aborts_sent q ++ [(rr_rid w.1, HigherPriority)]) k).
Proof.
  intros [W1 W2] Hj Hn. pose proof (delete_Permutation _ _ _ Hj) as Hp. constructor; cbn [waiting_queue aborts_sent].
  - constructor; [|done]. intros He. specialize (W1 He). cbn. rewrite Hp in W1. apply Forall_cons in W1 as [_ W1].
    apply Forall_app. split; [done|]. constructor; [|done]. by apply prioritized_some.
  - exists [(rr_rid w.1, HigherPriority)]. split_and!; [done| |done]. unfold waiting_rids. cbn [waiting_queue]. rewrite fmap_app. cbn. rewrite prioritized_rid.
    rewrite (Permutation_map (fun w => rr_rid w.1) Hp). cbn. solve_Permutation.
  - intros w' [Hq|Hr%list_elem_of_singleton]%elem_of_app; [left; rewrite Hp; by right|right]. subst w'. left.
  - intros n E Hl. apply Permutation_length in Hp. rewrite length_app. cbn in *. lia.
  - done.
Qed.

Lemma add_request_ok r q : queue_wf q -> (rr_rid r ∉ waiting_rids q) ->
  exists q', _add_request_to_queue qc perf_counter r q = Ret q' /\ queued [r] q q'.
Proof.
  intros Hw Hrid. unfold _add_request_to_queue.
  destruct (negb (enable_priority_scheduling qc) && negb (bool_decide (rr_priority r = None)) && abort_on_priority_when_disabled qc) eqn:Eb.
  { unfold _set_or_validate_priority. pose proof Eb as [[He%negb_true_iff _]%andb_true_iff Ha]%andb_true_iff. rewrite He in Eb |- *. cbn [andb negb] in *.
    rewrite Eb. eexists. split; [reflexivity|]. apply queued_refused; [done|]. by rewrite He, Ha. }
  assert (_set_or_validate_priority qc r q = (true, prioritized r, q)) as ->.
  { unfold _set_or_validate_priority, prioritized. rewrite Eb. by destruct (_ && bool_decide _). }
  cbn [negb]. unfold _abort_on_queued_limit.
  destruct (match max_queued_requests qc with None => true | Some n => Z.of_nat (length (waiting_queue q)) + 1 <=? n end) eqn:El.
  { cbn [mbind Outcome_bind]. eexists. split; [reflexivity|]. apply queued_append; [done|]. intros n En. rewrite En in El. by apply Z.leb_le. }
  destruct (max_queued_requests qc) as [n|] eqn:En; [|done]. apply Z.leb_gt in El.
  assert (bool_decide (rr_rid (prioritized r) = rr_rid (prioritized r)) = true) as Hself by (by apply bool_decide_eq_true_2).
  assert (queued [r] q (send_abort (rr_rid (prioritized r)) QueueFull q)) as Hrefuse by (rewrite prioritized_rid; apply queued_refused; [done|congruence]).
  destruct (enable_priority_scheduling qc) eqn:He.
  2: { cbn [mbind Outcome_bind]. rewrite Hself. eauto. }
  pose proof (qw_limit _ Hw n He En) as Hn. destruct (prioritized_some r He) as [p Hp].
  destruct (least_preferred_ok (waiting_queue q)) as (j & w & Ej & Hj); [intros E0; rewrite E0 in El; cbn in El; lia|exact (qw_priority _ Hw He)|].
  rewrite Ej. cbn [mbind Outcome_bind]. rewrite Hp. cbn [or_raise mbind Outcome_bind].
  destruct (Forall_lookup_1 _ _ _ _ (qw_priority _ Hw He) Hj) as [p' Hp']. rewrite Hp'. cbn [or_raise mbind Outcome_bind].
  destruct (direction qc * p <? direction qc * p'); cbn [mbind Outcome_bind].
  - rewrite bool_decide_eq_false_2; [eexists; split; [reflexivity|]; apply (queued_instead r _ q _ j w); congruence|].
    rewrite prioritized_rid. intros E0. apply Hrid. rewrite <-E0. unfold waiting_rids. apply list_elem_of_fmap. exists w. split; [done|]. by eapply list_elem_of_lookup_2.
  - rewrite Hself. eauto.
Qed.

(** ** The requests of a retraction *)

Lemma queued_rids rs q q' rid : queued rs q q' -> rid ∈ waiting_rids q' -> rid ∈ waiting_rids q \/ rid ∈ rr_rid <$> rs.
Proof.
  intros HQ Hr. destruct (qd_rids _ _ _ HQ) as (sent & _ & Hp & _). apply elem_of_app. rewrite <-Hp. apply elem_of_app. by left.
Qed.

Lemma requeue_ok rs q : queue_wf q -> NoDup (rr_rid <$> rs) -> (forall r, r ∈ rs -> rr_rid r ∉ waiting_rids q) ->
  exists q', requeue qc perf_counter rs q = Ret q' /\ queued rs q q'.
Proof.
  revert q. induction rs as [|r rs IH]; intros q Hw Hnd Hrs; [exists q; split; [done|by apply queued_nil]|].
  rewrite fmap_cons in Hnd. apply NoDup_cons in Hnd as [Hr Hnd].
  destruct (add_request_ok r q Hw) as (q1 & E1 & H1); [apply Hrs; left|].
  destruct (IH q1) as (q2 & E2 & H2); [exact (qd_wf _ _ _ H1)|done| |].
  - intros r' Hr' Hin. destruct (queued_rids _ _ _ _ H1 Hin) as [Hq|Hq]; [apply (Hrs r'); [by right|done]|].
    apply list_elem_of_singleton in Hq. apply Hr. rewrite <-Hq. by apply list_elem_of_fmap_2.
  - exists q2. split; [cbn [requeue]; by rewrite E1|exact (queued_trans [r] rs q q1 q2 H1 H2)].
Qed.

(** The queue after an update: a message for each request of [aborted], then the requests of
    [retracted] in their order.  Each of them, and each that was waiting, waits now or was
    sent a message; when none was sent, or no limit and no priority mode asks for one, the
    queue is the old one and the retracted requests behind it. *)
Record requeued (retracted aborted : list RReq) q q' : Prop := mkRequeued {
  rq_rids : exists sent,
    aborts_sent q' = aborts_sent q ++ ((fun r => (rr_rid r, RetractOutOfMemory)) <$> aborted) ++ sent /\
    waiting_rids q' ++ sent.*1 ≡ₚ waiting_rids q ++ (rr_rid <$> retracted) /\
    (sent = [] -> (waiting_queue q').*1 = (waiting_queue q).*1 ++ (prioritized <$> retracted)) /\
    (max_queued_requests qc = None -> enable_priority_scheduling qc || negb (abort_on_priority_when_disabled qc) = true -> sent = []);
  rq_from w : w ∈ waiting_queue q' -> w ∈ waiting_queue q \/ w.1 ∈ prioritized <$> retracted;
  rq_limit n : max_queued_requests qc = Some n -> Z.of_nat (length (waiting_queue q)) <= n -> Z.of_nat (length (waiting_queue q')) <= n;
  rq_wf : queue_wf q' }.

Lemma send_aborts_eq aborted q : foldl (fun q r => send_abort (rr_rid r) RetractOutOfMemory q) q aborted
  = mkQueue (waiting_queue q) (aborts_sent q ++ ((fun r => (rr_rid r, RetractOutOfMemory)) <$> aborted)) (clock_reads q).
Proof.
  revert q. induction aborted as [|r rs IH]; intros q; cbn [foldl]; [rewrite fmap_nil, app_nil_r; by destruct q|].
  rewrite IH. cbn. by rewrite <-(assoc_L (++)).
Qed.

Lemma requeue_update rs aborted q : queue_wf q -> NoDup (rr_rid <$> rs) -> (forall r, r ∈ rs -> rr_rid r ∉ waiting_rids q) ->
  exists q', requeue qc perf_counter rs (foldl (fun q r => send_abort (rr_rid r) RetractOutOfMemory q) q aborted) = Ret q' /\ requeued rs aborted q q'.
Proof.
  intros [W1 W2] Hnd Hrs. rewrite send_aborts_eq. set (q0 := mkQueue _ _ _). assert (queue_wf q0) as Hw by (by constructor).
  destruct (requeue_ok rs q0 Hw Hnd Hrs) as (q' & E & [Q1 (sent & E1 & E2 & E3) Q3 Q4 Q5]). exists q'. split; [done|]. constructor; [|done|done|done].
  exists sent. split_and!; [by rewrite E1, (assoc_L (++))|done|done|]. intros Hn He. specialize (Q5 Hn He). rewrite E1 in Q5.
  apply (f_equal length) in Q5. rewrite length_app in Q5. destruct sent; [done|]. cbn in Q5. lia.
Qed.

Lemma requeued_none q : queue_wf q -> requeued [] [] q q.
Proof. intros Hw. constructor; [|auto|done|done]. exists []. rewrite !app_nil_r. done. Qed.
End queue.
