(* ===== verification/BatchShape.v ===== *)
(** * The shape of a batch

    Every vector of a batch has an entry for each of its requests, and the aggregate fields
    agree with them; [filter_batch], [merge_batch] and [prepare_for_decode] keep that, and
    keep every request together with its row and its lengths. *)

From stdpp Require Import base tactics list gmap strings.
From Stdlib Require Import ZArith Lia QArith.
From S2P Require Import Prelude PyStr RadixKey TreeNode EvictPolicy Allocator AllocatorProofs BatchAlloc RowTable KVEvents.
From S2P Require Import RadixTree MemAlloc ReqPool MemBatch PyNum DecodeBatch.

#[local] Open Scope Z_scope.

(** ** Selecting by index *)

Definition pick {A} (l : list A) (keep : list nat) : list A := omap (fun i => l !! i) keep.
Definition in_range {A} (l : list A) (keep : list nat) : Prop := Forall (fun i => (i < length l)%nat) keep.

Lemma pick_cons {A} (l : list A) i keep : pick l (i :: keep) = match l !! i with Some x => x :: pick l keep | None => pick l keep end.
Proof. done. Qed.

Lemma select_ok {A} (l : list A) keep : in_range l keep -> select l keep = Ret (pick l keep).
Proof.
  induction 1 as [|i keep Hi _ IH]; [done|]. destruct (lookup_lt_is_Some_2 l i Hi) as [x Hx].
  cbn [select]. rewrite pick_cons, Hx, IH. done.
Qed.

Lemma length_pick {A} (l : list A) keep : in_range l keep -> length (pick l keep) = length keep.
Proof.
  induction 1 as [|i keep Hi _ IH]; [done|]. destruct (lookup_lt_is_Some_2 l i Hi) as [x Hx]. rewrite pick_cons, Hx. cbn. by rewrite IH.
Qed.

Lemma in_range_eq {A B} (l : list A) (k : list B) keep : length l = length k -> in_range l keep -> in_range k keep.
Proof. intros E. unfold in_range. by rewrite E. Qed.

Lemma pick_zip {A B} (l : list A) (k : list B) keep :
  length l = length k -> in_range l keep -> pick (zip l k) keep = zip (pick l keep) (pick k keep).
Proof.
  intros E. induction 1 as [|i keep Hi _ IH]; [done|]. destruct (lookup_lt_is_Some_2 l i Hi) as [x Hx].
  rewrite E in Hi. destruct (lookup_lt_is_Some_2 k i Hi) as [y Hy].
  rewrite !pick_cons, lookup_zip_with, Hx, Hy. cbn. by rewrite IH.
Qed.

Lemma pick_all {A} (l : list A) : pick l (List.seq 0 (length l)) = l.
Proof.
  unfold pick. assert (forall (k p : list A), omap (fun i => (p ++ k) !! i) (List.seq (length p) (length k)) = k) as Hk; [|exact (Hk l [])].
  intros k. induction k as [|x k IH]; intros p; [done|]. cbn [length List.seq omap list_omap].
  rewrite lookup_app_r, Nat.sub_diag by lia. cbn. f_equal.
  specialize (IH (p ++ [x])). rewrite length_app in IH. cbn [length] in IH. replace (length p + 1)%nat with (S (length p)) in IH by lia.
  rewrite <-(assoc_L (++)) in IH. exact IH.
Qed.

Lemma pick_lookup {A} (l : list A) keep j : in_range l keep -> pick l keep !! j = keep !! j ≫= fun i => l !! i.
Proof.
  intros Hr. revert j. induction Hr as [|i keep Hi _ IH]; intros j; [done|]. destruct (lookup_lt_is_Some_2 l i Hi) as [x Hx].
  rewrite pick_cons, Hx. destruct j as [|j]; [done|]. apply IH.
Qed.

Lemma existsb_pick {A} (f : A -> bool) l keep : existsb f (pick l keep) = true -> existsb f l = true.
Proof.
  rewrite !existsb_exists. intros (x & Hx & Hf). exists x. split; [|done].
  apply list_elem_of_In in Hx. unfold pick in Hx. apply list_elem_of_omap in Hx as (i & _ & Hi). apply list_elem_of_In. by eapply list_elem_of_lookup_2.
Qed.

(** ** The shape *)

Record batch_wf (b : Batch) : Prop := mkBatchWf {
  bw_rows : length (b_req_pool_indices b) = length (b_reqs b);
  bw_seq : length (b_seq_lens b) = length (b_reqs b);
  bw_orig : length (b_orig_seq_lens b) = length (b_reqs b);
  bw_sum : b_seq_lens_sum b = sumZ (b_seq_lens b);
  bw_out l : b_output_ids b = Some l -> length l = length (b_reqs b);
  bw_top : b_return_logprob b = true -> exists l, b_top_logprobs_nums b = Some l /\ length l = length (b_reqs b);
  bw_ids : b_return_logprob b = true -> exists l, b_token_ids_logprobs b = Some l /\ length l = length (b_reqs b);
  bw_logprob : b_return_logprob b = existsb rr_return_logprob (b_reqs b);
  bw_stream : b_has_stream b = existsb rr_stream (b_reqs b);
  bw_grammar : b_has_grammar b = existsb rr_grammar (b_reqs b) }.

(** A request with its row and its lengths. *)
Definition entries (b : Batch) : list (RReq * Z * (Z * Z)) :=
  zip (zip (b_reqs b) (b_req_pool_indices b)) (zip (b_seq_lens b) (b_orig_seq_lens b)).

Lemma unfinished_range exclude b : in_range (b_reqs b) (unfinished_indices exclude b).
Proof.
  apply Forall_forall. intros i Hi. unfold unfinished_indices in Hi. apply list_elem_of_omap in Hi as (j & _ & Hj).
  destruct (b_reqs b !! j) as [r|] eqn:Er; [|done]. destruct (_ && _); [|done]. injection Hj as ->. by eapply lookup_lt_Some.
Qed.

(** The indices [filter_batch] keeps: a selection as long as the batch leaves it alone. *)
Definition kept_indices (b : Batch) (keep : list nat) : list nat :=
  if (length keep =? length (b_reqs b))%nat then List.seq 0 (length (b_reqs b)) else keep.

Lemma entries_pick b keep : batch_wf b -> in_range (b_reqs b) keep ->
  zip (zip (pick (b_reqs b) keep) (pick (b_req_pool_indices b) keep)) (zip (pick (b_seq_lens b) keep) (pick (b_orig_seq_lens b) keep))
  = pick (entries b) keep.
Proof.
  intros [H1 H2 H3 _ _ _ _ _ _ _] Hr. unfold entries.
  assert (in_range (b_seq_lens b) keep) as Hr2 by (by eapply in_range_eq, Hr).
  rewrite <-(pick_zip (b_reqs b)), <-(pick_zip (b_seq_lens b)) by (done || lia).
  symmetry. apply pick_zip.
  - rewrite !length_zip. lia.
  - eapply in_range_eq, Hr. rewrite length_zip. lia.
Qed.

Lemma select_opt_ok {A B} (o : option (list A)) (k : list B) keep :
  (forall l, o = Some l -> length l = length k) -> in_range k keep ->
  select_opt o keep = Ret ((fun l => pick l keep) <$> o) /\ (forall l, (fun l => pick l keep) <$> o = Some l -> length l = length keep).
Proof.
  intros Ho Hr. destruct o as [l|]; [|done]. assert (in_range l keep) as Hl by (eapply in_range_eq, Hr; by rewrite (Ho l eq_refl)).
  cbn. rewrite select_ok by done. split; [done|]. intros l' [= <-]. by apply length_pick.
Qed.

Lemma select_some_ok {A B} (o : option (list A)) (k : list B) keep :
  (exists l, o = Some l /\ length l = length k) -> in_range k keep -> exists l', select_some o keep = Ret (Some l') /\ length l' = length keep.
Proof.
  intros (l & -> & Hl) Hr. assert (in_range l keep) as Hr2 by (by eapply in_range_eq, Hr). cbn. rewrite select_ok by done.
  eexists. split; [done|]. by apply length_pick.
Qed.

Lemma filter_batch_ok exclude ko b :
  batch_wf b -> let keep := default (unfinished_indices exclude b) ko in in_range (b_reqs b) keep ->
  exists b', filter_batch exclude ko b = Ret b' /\
    (keep = [] -> b' = with_reqs_only [] b) /\
    (keep <> [] -> batch_wf b' /\ entries b' = pick (entries b) (kept_indices b keep) /\ b_reqs b' = pick (b_reqs b) (kept_indices b keep)).
Proof.
  intros Hwf keep Hr. pose proof Hwf as [H1 H2 H3 H4 H5 H6 H7 H8 H9 H10]. unfold filter_batch. fold keep.
  destruct keep as [|i0 keep0] eqn:Ek; [by eexists|]. rewrite <-Ek in *. clearbody keep. unfold kept_indices.
  destruct (Nat.eqb_spec (length keep) (length (b_reqs b))) as [El|El].
  - exists b. split_and!; [done|by rewrite Ek|]. intros _. split_and!; [done| |by rewrite pick_all].
    assert (length (b_reqs b) = length (entries b)) as -> by (unfold entries; rewrite !length_zip; lia). by rewrite pick_all.
  - assert (forall A (l : list A), length l = length (b_reqs b) -> in_range l keep) as Hrs by (intros A l E; by eapply in_range_eq, Hr).
    rewrite !select_ok by auto.
    destruct (select_opt_ok (b_output_ids b) (b_reqs b) keep H5 Hr) as [Eo Ho]. rewrite Eo.
    set (reqs := pick (b_reqs b) keep). set (lp := existsb rr_return_logprob reqs).
    assert (length reqs = length keep) as Hlen by (by apply length_pick).
    assert (exists top ids, (if lp then select_some (b_top_logprobs_nums b) keep else Ret None) = Ret top /\
      (if lp then select_some (b_token_ids_logprobs b) keep else Ret None) = Ret ids /\
      (lp = true -> exists l, top = Some l /\ length l = length keep) /\ (lp = true -> exists l, ids = Some l /\ length l = length keep))
      as (top & ids & Et & Ei & Ht & Hi).
    { destruct lp eqn:Elp; [|by exists None, None]. assert (b_return_logprob b = true) as Hl by (rewrite H8; by eapply existsb_pick).
      destruct (select_some_ok _ _ _ (H6 Hl) Hr) as (t & -> & Ht). destruct (select_some_ok _ _ _ (H7 Hl) Hr) as (u & -> & Hu).
      exists (Some t), (Some u). split_and!; [done|done|intros _; by exists t|intros _; by exists u]. }
    unfold mbind. cbn. fold reqs lp. rewrite Et, Ei. cbn. eexists. split; [done|]. split; [by rewrite Ek|]. intros _. split_and!; [|by apply entries_pick|done].
    constructor; cbn; rewrite ?Hlen; try done; try (by apply length_pick; auto).
Qed.

Lemma zip_app_eq {A B} (a a' : list A) (b b' : list B) : length a = length b -> zip (a ++ a') (b ++ b') = zip a b ++ zip a' b'.
Proof. intros E. by apply zip_with_app. Qed.

Lemma entries_app b o : batch_wf b ->
  zip (zip (b_reqs b ++ b_reqs o) (b_req_pool_indices b ++ b_req_pool_indices o))
    (zip (b_seq_lens b ++ b_seq_lens o) (b_orig_seq_lens b ++ b_orig_seq_lens o)) = entries b ++ entries o.
Proof.
  intros [H1 H2 H3 _ _ _ _ _ _ _]. unfold entries. by rewrite !zip_app_eq by (rewrite ?length_zip_with; lia).
Qed.

(** Lists of logprob settings that cover the requests of both batches. *)
Lemma merge_logprobs_ok {A} (pad : A) n m f g a b :
  (f = true -> exists l, a = Some l /\ length l = n) -> (g = true -> exists l, b = Some l /\ length l = m) ->
  exists c, merge_logprobs pad n m f g a b = Ret c /\ (f || g = true -> exists l, c = Some l /\ length l = (n + m)%nat).
Proof.
  intros Ha Hb. unfold merge_logprobs.
  destruct f; [destruct (Ha eq_refl) as (x & -> & Hx)|]; (destruct g; [destruct (Hb eq_refl) as (y & -> & Hy)|]); cbn;
    (eexists; split; [reflexivity|]); intros Hfg; try done; eexists; (split; [reflexivity|]); rewrite length_app, ?length_replicate; lia.
Qed.

Lemma merge_batch_ok b o :
  batch_wf b -> batch_wf o -> (is_Some (b_output_ids b) -> is_Some (b_output_ids o)) ->
  exists b', merge_batch b o = Ret b' /\ batch_wf b' /\ entries b' = entries b ++ entries o /\ b_reqs b' = b_reqs b ++ b_reqs o.
Proof.
  intros Hb Ho Hout. pose proof Hb as [H1 H2 H3 H4 H5 H6 H7 H8 H9 H10]. pose proof Ho as [K1 K2 K3 K4 K5 K6 K7 K8 K9 K10].
  destruct (merge_logprobs_ok 0 (length (b_reqs b)) (length (b_reqs o)) _ _ _ _ H6 K6) as (top & Et & Ht).
  destruct (merge_logprobs_ok None (length (b_reqs b)) (length (b_reqs o)) _ _ _ _ H7 K7) as (ids & Ei & Hi).
  assert (exists out, cat_opt (b_output_ids b) (b_output_ids o) = Ret out /\
    forall l, out = Some l -> length l = (length (b_reqs b) + length (b_reqs o))%nat) as (out & Eo & Hl).
  { unfold cat_opt. destruct (b_output_ids b) as [x|]; [|by eexists]. destruct Hout as [y Hy]; [by eexists|]. rewrite Hy. eexists. split; [done|].
    intros l [= <-]. rewrite length_app, (H5 x eq_refl), (K5 y Hy). done. }
  unfold merge_batch. rewrite Eo. unfold mbind. cbn. rewrite Et. cbn. rewrite Ei. cbn. eexists. split; [done|].
  split_and!; [|by apply entries_app|done]. constructor; cbn; rewrite ?length_app; try lia; try done.
  - by rewrite H4, K4, sumZ_app.
  - by rewrite existsb_app, H8, K8.
  - by rewrite existsb_app, H9, K9.
  - by rewrite existsb_app, H10, K10.
Qed.

Lemma existsb_fmap {A B} (f : B -> bool) (g : A -> B) l : existsb f (g <$> l) = existsb (fun x => f (g x)) l.
Proof. induction l as [|x l IH]; [done|]. rewrite fmap_cons. cbn. by rewrite IH. Qed.

Lemma sum_succ l : sumZ (Z.succ <$> l) = sumZ l + Z.of_nat (length l).
Proof. induction l as [|x l IH]; [done|]. rewrite fmap_cons. unfold sumZ in *. cbn [foldr length]. lia. Qed.

Lemma bump_batch_wf out b : batch_wf b -> batch_wf (bump_batch out (feed_outputs b)).
Proof.
  intros [H1 H2 H3 H4 H5 H6 H7 H8 H9 H10]. constructor; cbn; rewrite ?length_fmap; try done.
  - by rewrite sum_succ, H4, H2.
  - by rewrite existsb_fmap.
  - by rewrite existsb_fmap.
  - by rewrite existsb_fmap.
Qed.

Lemma feed_outputs_wf b : batch_wf b -> batch_wf (feed_outputs b).
Proof. intros [H1 H2 H3 H4 H5 H6 H7 H8 H9 H10]. by constructor. Qed.

Definition bump_entry (e : RReq * Z * (Z * Z)) : RReq * Z * (Z * Z) := (bump_req e.1.1, e.1.2, (Z.succ e.2.1, Z.succ e.2.2)).

Lemma entries_bump out b : entries (bump_batch out (feed_outputs b)) = bump_entry <$> entries b.
Proof.
  unfold entries. cbn. generalize (b_reqs b), (b_req_pool_indices b), (b_seq_lens b), (b_orig_seq_lens b).
  intros rs. induction rs as [|r rs IH]; intros ps ns os; [done|]. destruct ps as [|p ps]; [done|]. destruct ns as [|n ns], os as [|o os]; try done.
  cbn. f_equal. apply IH.
Qed.

Section shape.
Context {T : Type} `{!KVAllocator T} `{!BatchKV T} {H : Type} `{!HeapQ H}.
Context (cfg : Config) (sha256 : list Z -> string) {B : Type} (kv_backup : T -> B).

Lemma prepare_shape b s r b' s' :
  prepare_for_decode (H := H) cfg sha256 kv_backup (b, s) = (r, (b', s')) ->
  match r with
  | Ret _ => exists out, b' = bump_batch out (feed_outputs b)
  | _ => b' = feed_outputs b /\ forall out, (alloc_for_decode (H := H) cfg sha256 kv_backup (mkDecodeBatch (b_req_pool_indices b) (b_seq_lens b) None) 1 s).1 <> Ret out
  end.
Proof.
  intros E. unfold prepare_for_decode, mbind, PyM_bind, on_batch, py_get, with_mem, py_modify in E. cbn in E.
  destruct (alloc_for_decode _ _ _ _ _ _) as [[out|e|] x] eqn:Ea; cbn in E; simplify_eq/=; try done. by eexists.
Qed.

(** C9. The vectors of a batch stay in step with its requests.  For a batch whose vectors have
    an entry for each request: [filter_batch] with indices in range succeeds and, if a request
    is left, gives such a batch with exactly the requests at the kept indices, each still with
    its own row and lengths (if none is left, only the list of requests is emptied; its
    callers test that); [merge_batch] with another such batch, which has output ids when this
    one has them, succeeds and gives such a batch with the requests of both.
    [prepare_for_decode] gives such a batch whether it returns or not: with every length one
    more if it returns, with the lengths as they were if not, which happens only when its
    allocation of slots does not return. *)
Theorem batch_stays_aligned b :
  batch_wf b ->
  (forall exclude ko, let keep := default (unfinished_indices exclude b) ko in in_range (b_reqs b) keep ->
     exists b', filter_batch exclude ko b = Ret b' /\
       (keep = [] -> b_reqs b' = []) /\ (keep <> [] -> batch_wf b' /\ entries b' = pick (entries b) (kept_indices b keep))) /\
  (forall o, batch_wf o -> (is_Some (b_output_ids b) -> is_Some (b_output_ids o)) ->
     exists b', merge_batch b o = Ret b' /\ batch_wf b' /\ entries b' = entries b ++ entries o) /\
  (forall s r b' s', prepare_for_decode (H := H) cfg sha256 kv_backup (b, s) = (r, (b', s')) ->
     batch_wf b' /\
     match r with
     | Ret _ => entries b' = bump_entry <$> entries b
     | _ => entries b' = entries b /\
         forall out, (alloc_for_decode (H := H) cfg sha256 kv_backup (mkDecodeBatch (b_req_pool_indices b) (b_seq_lens b) None) 1 s).1 <> Ret out
     end).
Proof.
  intros Hwf. split; [|split].
  - intros exclude ko keep Hr. destruct (filter_batch_ok exclude ko b Hwf Hr) as (b' & E & H1 & H2). exists b'. split_and!; [done| |].
    + intros Hk. by rewrite (H1 Hk).
    + intros Hk. by destruct (H2 Hk) as (? & ? & _).
  - intros o Ho Hout. destruct (merge_batch_ok b o Hwf Ho Hout) as (b' & E & H1 & H2 & _). by exists b'.
  - intros s r b' s' E. pose proof (prepare_shape b s r b' s' E) as Hs. destruct r.
    + destruct Hs as [out ->]. split; [by apply bump_batch_wf|apply entries_bump].
    + destruct Hs as [-> Hs]. split; [by apply feed_outputs_wf|done].
    + destruct Hs as [-> Hs]. split; [by apply feed_outputs_wf|done].
Qed.
End shape.

(** ** A batch of two requests *)

#[local] Instance shape_alloc : KVAllocator Alloc := paged_KVAllocator false.
#[local] Instance shape_batch : BatchKV Alloc := paged_BatchKV false.

Definition shape_req (rid : nat) (lp : bool) : RReq :=
  mkRReq (mkKVReq rid (mkReq rid [7; 8] [9] [7; 8; 9] None None 0 (Some 0%nat) [] 2 false 0) 2 false false) 4 (rid =? 2)%nat false lp true false false
    0 false 0 0 0.
Definition shape_demo : Batch :=
  mkBatch [shape_req 1 true; shape_req 2 false] [1; 2] [2; 2] [2; 2] 4 None (Some [9; 9]) None true (Some [3; 0]) (Some [None; None]) true false false.

Lemma shape_demo_wf : batch_wf shape_demo.
Proof. constructor; try done; [by intros l [= <-]|by exists [3; 0]|by exists [None; None]]. Qed.

Lemma batch_stays_aligned_witness :
  (exists b', filter_batch [] None shape_demo = Ret b' /\ batch_wf b' /\ entries b' = [(shape_req 1 true, 1, (2, 2))]) /\
  exists b', merge_batch shape_demo shape_demo = Ret b' /\ batch_wf b'.
Proof.
  destruct (batch_stays_aligned (H := list HeapEntry) (mkConfig false 2 false false false false LRUStrategy) (fun _ => "") backup_state shape_demo shape_demo_wf) as (Hf & Hm & _).
  split.
  - destruct (Hf [] None) as (b' & E & _ & Hk); [repeat constructor|]. exists b'. destruct Hk as [H1 H2]; [done|]. by rewrite H2.
  - destruct (Hm shape_demo shape_demo_wf) as (b' & E & H1 & _); [done|]. by exists b'.
Defined.
