(* ===== verification/DecodeProofs.v ===== *)
(** * Decode steps keep the memory

    The running batch is tied to the requests in flight, and every step of
    [update_running_batch] is followed on both: checking the memory changes nothing that a
    request owns, retracting a request returns its slots, and the requests that stay get the
    slot of their next token. *)

From stdpp Require Import base tactics list gmap strings.
From Stdlib Require Import ZArith Lia QArith Sorted.
From S2P Require Import Prelude PyStr RadixKey TreeNode EvictPolicy Allocator AllocatorProofs BatchAlloc RowTable KVEvents.
From S2P Require Import RadixTree RadixInv RadixPaths RadixSlots RadixWalk RadixProofs RadixLocks RadixEvict RadixClaims.
From S2P Require Import Lifecycle MemAlloc ReqPool MemBatch LiveSet ExtendLive Serving PyNum DecodeBatch BatchShape.

#[local] Open Scope Z_scope.

(** ** The order of retraction *)

Lemma insert_desc_perm {A} (key : A -> Z * Z) (x : A) l : insert_desc key x l ≡ₚ x :: l.
Proof.
  induction l as [|y l IH]; [done|]. cbn. destruct (key_gt _ _); [|done]. rewrite IH. apply Permutation_swap.
Qed.

Lemma sort_desc_perm {A} (key : A -> Z * Z) l : sort_desc key l ≡ₚ l.
Proof. induction l as [|x l IH]; [done|]. cbn. by rewrite insert_desc_perm, IH. Qed.

Lemma key_gt_total a c : key_gt a c = false -> key_gt c a = true \/ a = c.
Proof.
  unfold key_gt. rewrite orb_false_iff, orb_true_iff, !andb_true_iff, andb_false_iff, !Z.ltb_lt, !Z.ltb_ge, Z.eqb_eq, Z.eqb_neq.
  destruct a as [a1 a2], c as [c1 c2]. cbn. intros [H1 [H2|H2]]; [lia|]. destruct (decide (a1 = c1)) as [->|]; [|lia].
  destruct (decide (a2 = c2)) as [->|]; [by right|lia].
Qed.

Lemma key_gt_trans a c d : key_gt a c = true -> key_gt c d = true -> key_gt a d = true.
Proof. unfold key_gt. rewrite !orb_true_iff, !andb_true_iff, !Z.ltb_lt, !Z.eqb_eq. lia. Qed.

Lemma key_gt_asym a c : key_gt a c = true -> key_gt c a = false.
Proof.
  unfold key_gt. rewrite orb_true_iff, orb_false_iff, andb_true_iff, andb_false_iff, !Z.ltb_lt, !Z.ltb_ge, Z.eqb_eq, Z.eqb_neq. lia.
Qed.

Definition before {A} (key : A -> Z * Z) (x y : A) : Prop := key_gt (key y) (key x) = false.

Lemma insert_desc_sorted {A} (key : A -> Z * Z) (x : A) l : StronglySorted (before key) l -> StronglySorted (before key) (insert_desc key x l).
Proof.
  induction 1 as [|y l Hs IH Hy]; [repeat constructor|]. cbn. destruct (key_gt (key y) (key x)) eqn:E.
  - constructor; [done|]. rewrite insert_desc_perm. constructor; [by apply key_gt_asym|done].
  - constructor; [by constructor|]. constructor; [done|]. rewrite Forall_forall in Hy |- *. intros z Hz. specialize (Hy z Hz). unfold before in *.
    destruct (key_gt (key z) (key x)) eqn:Ez; [|done]. exfalso.
    destruct (key_gt_total _ _ E) as [Hxy|Hxy]; [|congruence]. rewrite (key_gt_trans _ _ _ Ez Hxy) in Hy. done.
Qed.

Lemma sort_desc_sorted {A} (key : A -> Z * Z) l : StronglySorted (before key) (sort_desc key l).
Proof. induction l as [|x l IH]; [constructor|]. by apply insert_desc_sorted. Qed.

Section decode.
Context {T : Type} `{!KVAllocator T} `{!KVPartial T} `{!BatchKV T} {H : Type} `{!HeapQ H}.
Context (cfg : Config) (now : nat -> Z) (sha256 : list Z -> string) {B : Type} (kv_backup : T -> B).
Context (rnd : Q -> Q) (sp : SpecCfg) (RETRACT_DECODE_STEPS : Z).
Local Abbreviation ps := (cfg_page_size cfg).
Local Abbreviation pg := (Z.of_nat (cfg_page_size cfg)).
Context (Hps : (0 < ps)%nat) (Hevents : enable_kv_cache_events cfg = false) (Hd : disable cfg = false).
Context (Heagle : is_eagle cfg = false) (Hspec : speculative sp = false).
Implicit Types (s : Mem T) (acts xs : list Active) (x : Active) (b : Batch).
Local Abbreviation St := (Batch * Mem T)%type.

(** ** Requests of the batch and requests in flight *)

(** A request with row [v] and length [n] in the batch runs on what [x] owns: all its tokens
    but the last generated one have slots. *)
Record runs s (r : RReq) (v n : Z) x : Prop := mkRuns {
  rn_rid : rr_rid r = ac_rid x;
  rn_req : req_is (rr_req r) x;
  rn_freed : kv_committed_freed (rr_req r) = false /\ kv_overallocated_freed (rr_kv r) = false;
  rn_len : kv_committed_len (rr_req r) = length (ac_ids x) /\ kv_allocated_len (rr_kv r) = length (ac_ids x);
  rn_ids : take (length (ac_ids x)) (origin_input_ids (rr_req r) ++ output_ids (rr_req r)) = ac_ids x;
  rn_prot : (ac_prot x <= _cache_commit_len cfg (rr_req r))%nat;
  rn_row : row_of s (ac_rid x) = Some v;
  rn_seq : n = len (ac_vals x);
  rn_room : (0 < length (ac_vals x) <= stride s)%nat }.

Definition track s b (i : nat) x : Prop :=
  exists r v n, b_reqs b !! i = Some r /\ b_req_pool_indices b !! i = Some v /\ b_seq_lens b !! i = Some n /\ runs s r v n x.

Lemma runs_mono s s' r v n x : row_of s' (ac_rid x) = row_of s (ac_rid x) -> stride s' = stride s -> runs s r v n x -> runs s' r v n x.
Proof. intros Hr Hs [H1 H2 H3 H4 H5 H6 H7 H8 H9]. constructor; try done; [by rewrite Hr|by rewrite Hs]. Qed.

(** The slots that are free or can be evicted. *)
Definition capacity s : Z := len (kv_owned (kv_pool (mem_cache s))) + evictable_size_ (mem_cache s).
(** The slots of the pages that one more token each takes. *)
Definition decode_need xs : Z := sumZ ((fun x => if len (ac_vals x) mod pg =? 0 then 1 else 0) <$> xs) * pg.

(** ** Room *)

(** Nothing that a request has changes, and no slot goes. *)
Record kept_mem acts s s' : Prop := mkKeptMem {
  km_live : live cfg acts (mem_cache s');
  km_mem : mem_ok acts s';
  km_rows : mem_rows s' = mem_rows s;
  km_slots : all_slots cfg acts (mem_cache s') ≡ₚ all_slots cfg acts (mem_cache s);
  km_capacity : capacity s' = capacity s }.

Lemma with_mem_Ret {A} (m : PyM (Mem T) A) b s a s' : m s = (Ret a, s') -> with_mem m (b, s) = (Ret a, (b, s')).
Proof. intros E. unfold with_mem. cbn [fst snd]. by rewrite E. Qed.

Lemma evict_mem_ok acts s n :
  live cfg acts (mem_cache s) -> mem_ok acts s ->
  exists s', lift_cache (evict_from_tree_cache (H := H) cfg sha256 kv_available false n) s = (Ret tt, s') /\ kept_mem acts s s' /\
    (n <=? kv_available (kv_pool (mem_cache s'))) = (n <=? capacity s).
Proof.
  intros HL HM. destruct (make_room (H := H) cfg now sha256 Hps Hevents Hd acts (mem_cache s) n HL) as (c1 & E & HG & Hor & Hev & Hcap).
  exists (mkMem c1 (mem_rows s)). pose proof (grants_nil_live cfg acts _ _ HL HG) as HL1. pose proof HG as [_ (G1 & G2 & _) _ _ Grows Gsl].
  split_and!; [by apply lift_cache_Ret| |].
  - constructor; cbn [mem_cache mem_rows]; [done| |done| |exact Hcap].
    + destruct HM as [M1 M2 M3 M4 M5]. constructor; cbn [mem_cache mem_rows]; [done| | |done|]; rewrite ?Grows; [done|done|].
      eapply Forall_impl; [exact M5|]. intros y. unfold act_row, row_of. cbn [mem_cache mem_rows]. by rewrite Grows.
    + unfold all_slots. rewrite app_nil_r in Gsl. by rewrite !(assoc_L (++)), Gsl.
  - cbn [mem_cache]. rewrite kv_available_spec by done. unfold capacity. rewrite <-Hcap. apply eq_true_iff_eq. rewrite !Z.leb_le. lia.
Qed.

(** Reading the requests at tracked positions. *)
Lemma track_reqs s b js xs : Forall2 (track s b) js xs -> exists rs, pick (b_reqs b) js = rs /\ in_range (b_reqs b) js /\
  Forall2 (fun r x => kv_committed_len (rr_req r) = length (ac_ids x)) rs xs.
Proof.
  induction 1 as [|i x js xs (r & v & n & Hr & _ & _ & Hx) _ (rs & E & Hin & IH)]; [exists []; split_and!; [done|constructor|constructor]|].
  exists (r :: rs). rewrite pick_cons, Hr, E. split_and!; [done| |].
  - constructor; [by eapply lookup_lt_Some|done].
  - constructor; [exact (proj1 (rn_len _ _ _ _ _ Hx))|done].
Qed.

Lemma act_vals_len acts c x : live cfg acts c -> x ∈ acts -> length (ac_vals x) = length (ac_ids x).
Proof. intros HL Hx. pose proof (lv_acts _ _ _ HL) as HA. rewrite Forall_forall in HA. by destruct (HA x Hx) as [(_ & _ & ?) _ _]. Qed.

Lemma new_tokens_ok acts c xs rs :
  live cfg acts c -> xs ⊆ acts -> Forall2 (fun r x => kv_committed_len (rr_req r) = length (ac_ids x)) rs xs ->
  new_tokens_required_next_decode sp (kv_page (kv_pool c)) rs = Ret (decode_need xs).
Proof.
  intros HL Hsub Hf. unfold new_tokens_required_next_decode. rewrite Hspec. cbn [negb]. pose proof (lv_kv _ _ _ HL) as (_ & _ & ->).
  unfold decode_need. do 3 f_equal. induction Hf as [|r x rs xs Hx _ IH]; [done|]. rewrite !fmap_cons.
  rewrite IH by set_solver. f_equal. unfold committed, len. rewrite Hx, (act_vals_len acts c x HL) by set_solver. done.
Qed.

(** The indices that a check looks at. *)
Definition checked b (sel : option (list nat)) : list nat := default (List.seq 0 (length (b_reqs b))) sel.

Lemma check_decode_mem_ok acts s b sel xs :
  live cfg acts (mem_cache s) -> mem_ok acts s -> xs ⊆ acts -> Forall2 (track s b) (checked b sel) xs ->
  exists s', check_decode_mem (H := H) cfg sha256 sp sel (b, s) = (Ret (decode_need xs <=? capacity s), (b, s')) /\ kept_mem acts s s'.
Proof.
  intros HL HM Hsub Hf. destruct (track_reqs s b _ xs Hf) as (rs & Ers & Hin & Hrs).
  destruct (evict_mem_ok acts s (decode_need xs) HL HM) as (s' & Ee & HK & Hb). exists s'. split; [|done].
  assert (match sel with Some l => select (b_reqs b) l | None => Ret (b_reqs b) end = Ret rs) as Esel.
  { unfold checked in *. destruct sel as [l|]; cbn [default] in *; [rewrite <-Ers; by apply select_ok|]. by rewrite <-Ers, pick_all. }
  unfold check_decode_mem. erewrite py_bind_Ret by reflexivity. cbn [fst snd]. rewrite Esel.
  erewrite py_bind_Ret by reflexivity. rewrite (new_tokens_ok acts _ xs rs HL Hsub Hrs). erewrite py_bind_Ret by reflexivity.
  erewrite py_bind_Ret by (apply with_mem_Ret; exact Ee). erewrite py_bind_Ret by reflexivity. cbn [snd]. by rewrite Hb.
Qed.

Lemma kept_track acts s s' b i x : kept_mem acts s s' -> track s b i x -> track s' b i x.
Proof.
  intros HK (r & v & n & H1 & H2 & H3 & H4). exists r, v, n. split_and!; [done..|]. revert H4. apply runs_mono; unfold row_of, stride; by rewrite (km_rows _ _ _ HK).
Qed.

(** ** Giving a request up *)

Lemma alter_known {A} (f : A -> A) (k : nat) (m : gmap nat A) a : m !! k = Some a -> alter f k m = <[k := f a]> m.
Proof.
  intros Hk. apply map_eq. intros j. destruct (decide (j = k)) as [->|Hne].
  - by rewrite lookup_alter_eq, lookup_insert_eq, Hk.
  - by rewrite lookup_alter_ne, lookup_insert_ne.
Qed.

Lemma alter_unknown {A} (f : A -> A) (k : nat) (m : gmap nat A) : m !! k = None -> alter f k m = m.
Proof.
  intros Hk. apply map_eq. intros j. destruct (decide (j = k)) as [->|Hne]; [by rewrite lookup_alter_eq, Hk|by rewrite lookup_alter_ne].
Qed.

Lemma set_pool_fields_ok acts s rid f g :
  mem_ok acts s -> let s' := set_pool_fields rid f g s in
  mem_ok acts s' /\ mem_cache s' = mem_cache s /\ (forall r, row_of s' r = row_of s r) /\ stride s' = stride s.
Proof.
  intros [M1 M2 M3 M4 M5] s'.
  assert (forall r, row_of s' r = row_of s r) as Hrow.
  { intros r. unfold row_of, s', set_pool_fields. cbn [mem_rows set_rows reqs]. destruct (decide (r = rid)) as [->|Hne].
    - rewrite lookup_alter_eq. by destruct (reqs (mem_rows s) !! rid).
    - by rewrite lookup_alter_ne. }
  split_and!; [|done|done|done]. constructor; [|exact M2|exact M3|done|].
  - unfold s', set_pool_fields. cbn [mem_rows]. destruct (reqs (mem_rows s) !! rid) as [q|] eqn:Hq.
    + rewrite (alter_known _ _ _ q Hq).
      by refine (proj1 (row_step_ok _ _ (row_update rid q _ (mem_rows s) Hq _) M1)).
    + rewrite (alter_unknown _ _ _ Hq). by destruct (mem_rows s).
  - apply Forall_forall. intros x Hx. rewrite Forall_forall in M5. destruct (M5 x Hx) as [[q Hq] A2]. split.
    + unfold s', set_pool_fields. cbn [mem_rows set_rows reqs]. destruct (decide (ac_rid x = rid)) as [<-|Hne].
      * rewrite lookup_alter_eq, Hq. by eexists.
      * rewrite lookup_alter_ne by done. by eexists.
    + intros v. rewrite Hrow. apply A2.
Qed.

Definition retracted_req (v : Z) (r : RReq) : RReq := reset_for_retract (set_rr_kv (released_req v (rr_kv r)) r).

Record freed_mem x acts s s' : Prop := mkFreedMem {
  fm_live : live cfg acts (mem_cache s');
  fm_mem : mem_ok acts s';
  fm_slots : all_slots cfg acts (mem_cache s') ≡ₚ all_slots cfg (x :: acts) (mem_cache s);
  fm_row : row_of s' (ac_rid x) = None;
  fm_rows r : r <> ac_rid x -> row_of s' r = row_of s r;
  fm_stride : stride s' = stride s }.

Lemma release_req_ok idx rem b s r v n x acts :
  b_reqs b !! idx = Some r -> runs s r v n x -> live cfg (x :: acts) (mem_cache s) -> mem_ok (x :: acts) s ->
  exists s', release_req (H := H) cfg now sha256 sp RETRACT_DECODE_STEPS idx rem (b, s)
    = (Ret (retracted_req v r), (with_reqs_only (<[idx := retracted_req v r]> (b_reqs b)) b, s')) /\ freed_mem x acts s s'.
Proof.
  intros Hi [R1 R2 (R3 & R4) (R5 & R6) R7 R8 R9 R10 R11] HL HM.
  assert (_cache_commit_len cfg (rr_req r) <= length (ac_ids x))%nat as Hc by (unfold _cache_commit_len; destruct (_ && _); lia).
  destruct (release_kv_cache_ok cfg now sha256 Hps Hevents Hd Heagle x acts s (rr_kv r) v (speculative sp) false HL HM R1 R9 R2 R3 R4 R6)
    as (s1 & E1 & L1 & M1 & Hno & Hoth & Hstr & Hall); [|exact (conj R8 Hc)| |].
  { unfold committed_ids. rewrite <-R7, take_take. f_equal. change (kr_req (rr_kv r)) with (rr_req r). lia. }
  { intros _ Hs. change (kr_req (rr_kv r)) with (rr_req r). unfold _cache_commit_len. rewrite Hs. done. }
  destruct (evict_mem_ok acts s1 (rem * RETRACT_DECODE_STEPS) L1 M1) as (s2 & E2 & HK & _).
  destruct (set_pool_fields_ok acts s2 (rr_rid r) (fun _ => 0) (fun _ => 0) (km_mem _ _ _ HK)) as (F1 & F2 & F3 & F4).
  exists (set_pool_fields (rr_rid r) (fun _ => 0) (fun _ => 0) s2). split.
  - unfold release_req. erewrite py_bind_Ret.
    2: { unfold get_req. erewrite py_bind_Ret by reflexivity. cbn [fst]. rewrite Hi. reflexivity. }
    erewrite py_bind_Ret by (apply with_mem_Ret; exact E1). erewrite py_bind_Ret by (apply with_mem_Ret; exact E2).
    fold (retracted_req v r). erewrite py_bind_Ret by reflexivity. erewrite py_bind_Ret by reflexivity. reflexivity.
  - constructor.
    + rewrite F2. exact (km_live _ _ _ HK).
    + exact F1.
    + rewrite F2, (km_slots _ _ _ HK). exact Hall.
    + rewrite F3. unfold row_of. rewrite (km_rows _ _ _ HK). exact Hno.
    + intros q Hq. rewrite F3. unfold row_of. rewrite (km_rows _ _ _ HK). exact (Hoth q Hq).
    + rewrite F4. unfold stride. rewrite (km_rows _ _ _ HK). exact Hstr.
Qed.

(** ** Retracting *)

Definition was_retracted b (i : nat) (r' : RReq) : Prop := exists r v, b_reqs b !! i = Some r /\ r' = retracted_req v r.

(** The fields of a request that the batch summarizes. *)
Definition same_flags (r r' : RReq) : Prop :=
  rr_return_logprob r' = rr_return_logprob r /\ rr_stream r' = rr_stream r /\ rr_grammar r' = rr_grammar r.

#[local] Instance same_flags_refl : Reflexive same_flags.
Proof. by intros r. Qed.
#[local] Instance same_flags_trans : Transitive same_flags.
Proof. intros r1 r2 r3 (A1 & A2 & A3) (B1 & B2 & B3). split_and!; congruence. Qed.

Lemma flags_insert l i r r' : l !! i = Some r -> same_flags r r' -> Forall2 same_flags l (<[i := r']> l).
Proof.
  intros Hi Hr. apply Forall2_same_length_lookup_2; [by rewrite length_insert|]. intros j a c Ha Hc.
  apply list_lookup_insert_Some in Hc as [(-> & -> & _)|[_ Hc]]; [by simplify_eq|]. by simplify_eq.
Qed.

Lemma existsb_flags (f : RReq -> bool) l l' :
  (forall r r', same_flags r r' -> f r' = f r) -> Forall2 same_flags l l' -> existsb f l' = existsb f l.
Proof. intros Hf. induction 1 as [|r r' l l' Hr _ IH]; [done|]. cbn. by rewrite (Hf r r' Hr), IH. Qed.

Lemma batch_wf_flags b rs : batch_wf b -> Forall2 same_flags (b_reqs b) rs -> batch_wf (with_reqs_only rs b).
Proof.
  intros [H1 H2 H3 H4 H5 H6 H7 H8 H9 H10] Hf. pose proof (Forall2_length _ _ _ Hf) as El. constructor; cbn; rewrite <-?El; try done.
  - rewrite (existsb_flags _ (b_reqs b)); [done|by intros ?? (?&?&?)|done].
  - rewrite (existsb_flags _ (b_reqs b)); [done|by intros ?? (?&?&?)|done].
  - rewrite (existsb_flags _ (b_reqs b)); [done|by intros ?? (?&?&?)|done].
Qed.

(** What retracting all but the first [k] of the requests [js] does. *)
Record retracts (js : list nat) xs rest b s (k : nat) (rs : list RReq) b' s' : Prop := mkRetracts {
  rt_batch : b' = with_reqs_only (b_reqs b') b /\ Forall2 same_flags (b_reqs b) (b_reqs b');
  rt_same i : i ∈ take k js -> b_reqs b' !! i = b_reqs b !! i;
  rt_track : Forall2 (track s' b') (take k js) (take k xs);
  rt_reqs : Forall2 (was_retracted b) (reverse (drop k js)) rs;
  rt_live : live cfg (take k xs ++ rest) (mem_cache s');
  rt_mem : mem_ok (take k xs ++ rest) s';
  rt_slots : all_slots cfg (take k xs ++ rest) (mem_cache s') ≡ₚ all_slots cfg (xs ++ rest) (mem_cache s);
  rt_none r : r ∈ ac_rid <$> drop k xs -> row_of s' r = None;
  rt_rows r : (r ∉ ac_rid <$> drop k xs) -> row_of s' r = row_of s r;
  rt_stride : stride s' = stride s }.

Lemma retracts_none js xs rest b s s' :
  length js = length xs -> kept_mem (xs ++ rest) s s' -> Forall2 (track s b) js xs -> retracts js xs rest b s (length js) [] b s'.
Proof.
  intros El HK Hf.
  assert (forall A (l : list A), length l = length js -> drop (length js) l = []) as Hdr by (intros A l Hl; apply drop_ge; lia).
  assert (forall A (l : list A), length l = length js -> take (length js) l = l) as Htk by (intros A l Hl; apply take_ge; lia).
  constructor; rewrite ?(Hdr _ js), ?(Hdr _ xs), ?(Htk _ js), ?(Htk _ xs) by done.
  - split; [by destruct b|reflexivity].
  - done.
  - eapply Forall2_impl; [exact Hf|]. intros i x. by eapply kept_track.
  - constructor.
  - exact (km_live _ _ _ HK).
  - exact (km_mem _ _ _ HK).
  - exact (km_slots _ _ _ HK).
  - intros r Hr. by apply elem_of_nil in Hr.
  - intros r _. unfold row_of. by rewrite (km_rows _ _ _ HK).
  - unfold stride. by rewrite (km_rows _ _ _ HK).
Qed.

Lemma retracts_one js xs rest b s i x rem :
  Forall2 (track s b) (js ++ [i]) (xs ++ [x]) -> length js = length xs -> NoDup (js ++ [i]) ->
  live cfg ((xs ++ [x]) ++ rest) (mem_cache s) -> mem_ok ((xs ++ [x]) ++ rest) s ->
  exists r' b1 s1, release_req (H := H) cfg now sha256 sp RETRACT_DECODE_STEPS i rem (b, s) = (Ret r', (b1, s1)) /\
    retracts (js ++ [i]) (xs ++ [x]) rest b s (length js) [r'] b1 s1.
Proof.
  intros Hf El Hnd HL HM. apply Forall2_app_inv in Hf as [Hf1 Hf2]; [|done]. apply Forall2_cons in Hf2 as [(r & v & n & Hr & Hv & Hn & Hrun) _].
  assert ((xs ++ [x]) ++ rest ≡ₚ x :: xs ++ rest) as Hp by (rewrite <-(assoc_L (++)); cbn [app]; symmetry; apply Permutation_middle).
  destruct (release_req_ok i rem b s r v n x (xs ++ rest) Hr Hrun (live_perm cfg _ _ _ Hp HL) (mem_ok_perm _ _ _ Hp HM)) as (s1 & E & HF).
  exists (retracted_req v r), (with_reqs_only (<[i := retracted_req v r]> (b_reqs b)) b), s1. split; [exact E|].
  assert (i ∉ js) as Hni by (apply NoDup_app in Hnd as (_ & Hd' & _); intros Hi; apply (Hd' i Hi); left).
  assert (forall y, y ∈ xs -> ac_rid y <> ac_rid x) as Hne.
  { intros y Hy Hxy. pose proof (mo_rids _ _ (mem_ok_perm _ _ _ Hp HM)) as Hr2. rewrite fmap_cons in Hr2. apply NoDup_cons in Hr2 as [Hr2 _].
    apply Hr2. rewrite <-Hxy. apply list_elem_of_fmap_2, elem_of_app. by left. }
  destruct HF as [F1 F2 F3 F4 F5 F6].
  constructor; rewrite ?take_app_length, ?drop_app_length, ?(take_app_length' xs), ?(drop_app_length' xs) by done.
  - split; [done|]. by eapply flags_insert.
  - intros j Hj. cbn. apply list_lookup_insert_ne. intros <-. done.
  - apply Forall2_same_length_lookup_2; [done|]. intros k j y Hj Hy. destruct (Forall2_lookup_lr _ _ _ _ _ _ Hf1 Hj Hy) as (r1 & v1 & n1 & T1 & T2 & T3 & T4).
    exists r1, v1, n1. cbn. apply list_elem_of_lookup_2 in Hj, Hy. split_and!; [|done|done|].
    + rewrite list_lookup_insert_ne; [done|]. intros <-. done.
    + revert T4. apply runs_mono; [|done]. apply F5. by apply Hne.
  - repeat constructor. by exists r, v.
  - done.
  - done.
  - by rewrite F3, (all_slots_perm _ _ _ _ Hp).
  - intros q ->%list_elem_of_singleton. done.
  - intros q Hq. apply F5. intros ->. apply Hq. left.
  - done.
Qed.

Lemma retracts_more js i xs x rest b s r' b1 s1 k rs b2 s2 :
  length js = length xs -> (k <= length js)%nat -> NoDup (js ++ [i]) ->
  retracts (js ++ [i]) (xs ++ [x]) rest b s (length js) [r'] b1 s1 -> retracts js xs rest b1 s1 k rs b2 s2 ->
  retracts (js ++ [i]) (xs ++ [x]) rest b s k (r' :: rs) b2 s2.
Proof.
  intros El Hk Hnd [A1 A2 A3 A4 A5 A6 A7 A8 A9 A10] [C1 C2 C3 C4 C5 C6 C7 C8 C9 C10].
  rewrite take_app_length, ?(take_app_length' xs), ?(drop_app_length' xs), ?drop_app_length in * by done.
  assert (forall j, j ∈ js -> b_reqs b1 !! j = b_reqs b !! j) as Hsame by exact A2.
  constructor; rewrite ?take_app_le, ?drop_app_le by lia; try done.
  - destruct A1 as [A1 A1'], C1 as [C1 C1']. split; [by rewrite C1, A1 at 1|]. by etrans.
  - intros j Hj. rewrite C2 by done. apply Hsame. by eapply subseteq_take.
  - rewrite reverse_app. cbn [app]. apply Forall2_cons in A4 as [A4 _]. constructor; [done|].
    apply Forall2_same_length_lookup_2; [by eapply Forall2_length|]. intros m j q Hj Hq.
    destruct (Forall2_lookup_lr _ _ _ _ _ _ C4 Hj Hq) as (r0 & v0 & T1 & T2). exists r0, v0. split; [|done].
    rewrite <-Hsame; [done|]. apply list_elem_of_lookup_2, elem_of_reverse in Hj. rewrite reverse_involutive in Hj. by eapply subseteq_drop.
  - by rewrite C7, A7.
  - intros r Hr. rewrite fmap_app in Hr. destruct (decide (r ∈ ac_rid <$> drop k xs)) as [Hin|Hnin]; [by apply C8|].
    rewrite C9 by done. apply elem_of_app in Hr as [Hr|Hr]; [done|]. by apply A8.
  - intros r Hr. rewrite fmap_app in Hr. rewrite C9 by set_solver. apply A9. set_solver.
  - by rewrite C10.
Qed.

Lemma retracts_start js xs rest b s s1 k rs b' s' :
  kept_mem (xs ++ rest) s s1 -> retracts js xs rest b s1 k rs b' s' -> retracts js xs rest b s k rs b' s'.
Proof.
  intros HK [A1 A2 A3 A4 A5 A6 A7 A8 A9 A10]. constructor; try done.
  - by rewrite A7, (km_slots _ _ _ HK).
  - intros r Hr. rewrite A9 by done. unfold row_of. by rewrite (km_rows _ _ _ HK).
  - rewrite A10. unfold stride. by rewrite (km_rows _ _ _ HK).
Qed.

Lemma kept_mem_refl acts s : live cfg acts (mem_cache s) -> mem_ok acts s -> kept_mem acts s s.
Proof. by constructor. Qed.

(** The loop ends, with a first part of the order kept: all that fit, or one request. *)
Lemma retract_loop_ok fuel : forall first_iter js xs rest b s acc,
  js <> [] -> (length js <= fuel)%nat -> Forall2 (track s b) js xs -> NoDup js ->
  live cfg (xs ++ rest) (mem_cache s) -> mem_ok (xs ++ rest) s ->
  exists k rs b' s', retract_loop (H := H) cfg now sha256 sp RETRACT_DECODE_STEPS fuel first_iter js acc (b, s) = (Ret (take k js, acc ++ rs), (b', s')) /\
    (1 <= k <= length js)%nat /\ retracts js xs rest b s k rs b' s' /\
    (k = 1%nat \/ decode_need (take k xs) <= capacity s') /\ (first_iter = true -> (k < length js)%nat \/ length js = 1%nat).
Proof.
  induction fuel as [|fuel IH]; intros first_iter js xs rest b s acc Hne Hfuel Hf Hnd HL HM; [destruct js; [done|cbn in Hfuel; lia]|].
  pose proof (Forall2_length _ _ _ Hf) as El. assert (0 < length js)%nat as Hpos by (destruct js; [done|cbn; lia]).
  assert (exists ok s1, (if first_iter then mret false else check_decode_mem (H := H) cfg sha256 sp (Some js)) (b, s) = (Ret ok, (b, s1)) /\
    kept_mem (xs ++ rest) s s1 /\ (ok = true -> first_iter = false /\ decode_need xs <= capacity s1)) as (ok & s1 & Ec & HK & Hok).
  { destruct first_iter; [exists false, s; split_and!; [done|by apply kept_mem_refl|done]|].
    destruct (check_decode_mem_ok (xs ++ rest) s b (Some js) xs HL HM) as (s1 & E & HK); [set_solver|done|].
    eexists _, s1. split_and!; [exact E|done|]. intros Hle%Z.leb_le. rewrite (km_capacity _ _ _ HK). done. }
  cbn [retract_loop]. erewrite py_bind_Ret by exact Ec.
  assert (forall P : Prop, P -> (take (length js) js, acc ++ []) = (js, acc) /\ take (length js) xs = xs /\ P) as Hall.
  { intros P HP. split_and!; [by rewrite take_ge, app_nil_r|apply take_ge; lia|done]. }
  pose proof (retracts_none js xs rest b s s1 El HK Hf) as Hnone.
  destruct ok; [|destruct (Nat.eqb_spec (length js) 1) as [E1|E1]].
  - destruct (Hok eq_refl) as [-> Hcap]. exists (length js), [], b, s1. destruct (Hall _ Hcap) as (-> & -> & _).
    split_and!; [done|lia|lia|done|by right|done].
  - exists (length js), [], b, s1. destruct (Hall _ I) as (-> & -> & _). split_and!; [done|lia|lia|done|by left|by right].
  - destruct js as [|i js _] using rev_ind; [done|]. destruct xs as [|x xs _] using rev_ind; [rewrite length_app in El; cbn in El; lia|].
    rewrite !length_app in *. cbn [length] in *. assert (length js = length xs) as El' by lia.
    assert (Forall2 (track s1 b) (js ++ [i]) (xs ++ [x])) as Hf1 by (eapply Forall2_impl; [exact Hf|]; intros ??; by eapply kept_track).
    destruct (retracts_one js xs rest b s1 i x (Z.of_nat (length js)) Hf1 El' Hnd (km_live _ _ _ HK) (km_mem _ _ _ HK)) as (r' & b1 & s2 & E2 & H1).
    rewrite last_snoc. replace (pred (length js + 1)) with (length js) by lia. rewrite take_app_length.
    erewrite py_bind_Ret by exact E2.
    pose proof H1 as [_ _ T1 _ T2 T3 _ _ _ _]. rewrite take_app_length in T1. rewrite !(take_app_length' xs) in T1, T2, T3 by done.
    destruct (IH false js xs rest b1 s2 (acc ++ [r'])) as (k & rs & b' & s' & E3 & Hk & H2 & Hend & _); [|lia|done| |done|done|].
    { intros ->. cbn in E1. lia. }
    { by apply NoDup_app in Hnd as (? & _). }
    exists k, (r' :: rs), b', s'. rewrite !take_app_le by lia. rewrite E3, <-(assoc_L (++)). cbn [app].
    split_and!; [done|lia|lia| |done|left; lia]. eapply retracts_start; [exact HK|].
    eapply retracts_more; [done|lia|done|exact H1|exact H2].
Qed.

(** *** Positions after filtering *)

Lemma track_entries s b i x : batch_wf b ->
  (track s b i x <-> exists r v n m, entries b !! i = Some (r, v, (n, m)) /\ runs s r v n x).
Proof.
  intros [H1 H2 H3 _ _ _ _ _ _ _]. unfold track, entries. split.
  - intros (r & v & n & Hr & Hv & Hn & Hx). pose proof (lookup_lt_Some _ _ _ Hr) as Hi. rewrite <-H3 in Hi.
    destruct (lookup_lt_is_Some_2 _ _ Hi) as [m Hm]. exists r, v, n, m. rewrite !lookup_zip_with, Hr, Hv, Hn, Hm. done.
  - intros (r & v & n & m & He & Hx). apply lookup_zip_with_Some in He as ([r1 v1] & [n1 m1] & [= -> -> -> ->] & Ha & Hb).
    apply lookup_zip_with_Some in Ha as (? & ? & [= <- <-] & Ha1 & Ha2). apply lookup_zip_with_Some in Hb as (? & ? & [= <- <-] & Hb1 & _). by eexists _, _, _.
Qed.

Lemma entries_length b : batch_wf b -> length (entries b) = length (b_reqs b).
Proof. intros [H1 H2 H3 _ _ _ _ _ _ _]. unfold entries. rewrite !length_zip_with. lia. Qed.

Lemma track_range s b js xs : Forall2 (track s b) js xs -> in_range (b_reqs b) js.
Proof. intros Hf. by destruct (track_reqs s b js xs Hf) as (_ & _ & ? & _). Qed.

Lemma track_picked s b b' js xs :
  batch_wf b -> batch_wf b' -> entries b' = pick (entries b) js -> Forall2 (track s b) js xs ->
  Forall2 (track s b') (List.seq 0 (length js)) xs.
Proof.
  intros Hw Hw' He Hf. pose proof (Forall2_length _ _ _ Hf) as El. assert (in_range (entries b) js) as Hr.
  { eapply in_range_eq; [|by eapply track_range]. by rewrite entries_length. }
  apply Forall2_same_length_lookup_2; [by rewrite length_seq|]. intros k j x Hj Hx. apply lookup_seq in Hj as [-> Hk]. cbn.
  destruct (lookup_lt_is_Some_2 js k Hk) as [i Hi]. pose proof (Forall2_lookup_lr _ _ _ _ _ _ Hf Hi Hx) as Ht.
  apply (track_entries s b i x Hw) in Ht as (r & v & n & m & Hen & Hrun). apply track_entries; [done|]. exists r, v, n, m. split; [|done].
  rewrite He, pick_lookup by done. rewrite Hi. exact Hen.
Qed.
End decode.
