(* ===== verification/UpdateBatch.v ===== *)
(** * The running batch before a decode step

    [retract_decode] and [update_running_batch] as a whole: they return, keep every slot, and
    leave a batch whose next tokens have slots. *)

From stdpp Require Import base tactics list gmap strings sorting.
From Stdlib Require Import ZArith Lia QArith Sorted.
From S2P Require Import Prelude PyStr RadixKey TreeNode EvictPolicy Allocator AllocatorProofs BatchAlloc RowTable KVEvents.
From S2P Require Import RadixTree RadixInv RadixPaths RadixSlots RadixWalk RadixProofs RadixLocks RadixEvict RadixClaims.
From S2P Require Import Lifecycle MemAlloc ReqPool MemBatch LiveSet ExtendLive Serving PyNum DecodeBatch WaitQueue BatchShape DecodeProofs.

#[local] Open Scope Z_scope.

Lemma length_omap_le {A B} (f : A -> option B) l : (length (omap f l) <= length l)%nat.
Proof. induction l as [|x l IH]; [done|]. cbn. destruct (f x); cbn in *; lia. Qed.

Lemma omap_full (f : nat -> option nat) l : (forall i j, f i = Some j -> j = i) -> length (omap f l) = length l -> omap f l = l.
Proof.
  intros Hf. induction l as [|i l IH]; [done|]. cbn. destruct (f i) as [j|] eqn:E.
  - intros [= Hl]. rewrite (Hf i j E), IH; done.
  - intros Hl. pose proof (length_omap_le f l). cbn in *. lia.
Qed.

Section update.
Context {T : Type} `{!KVAllocator T} `{!KVPartial T} `{!BatchKV T} {H : Type} `{!HeapQ H}.
Context (cfg : Config) (now : nat -> Z) (sha256 : list Z -> string) {B : Type} (kv_backup : T -> B).
Context (rnd : Q -> Q) (sp : SpecCfg) (RETRACT_DECODE_STEPS : Z).
Local Abbreviation ps := (cfg_page_size cfg).
Local Abbreviation pg := (Z.of_nat (cfg_page_size cfg)).
Context (Hps : (0 < ps)%nat) (Hevents : enable_kv_cache_events cfg = false) (Hd : disable cfg = false).
Context (Heagle : is_eagle cfg = false) (Hspec : speculative sp = false).
Implicit Types (s : Mem T) (acts xs : list Active) (x : Active) (b : Batch).

(** What [retract_decode] does: the first [k] requests of the order [js] stay. *)
Record stays (js : list nat) xs rest b s (k : nat) (rs ab : list RReq) b' s' : Prop := mkStays {
  st_kept : b_reqs b' = pick (b_reqs b) (take k js);
  st_wf : (0 < k)%nat -> batch_wf b';
  st_track : Forall2 (track cfg s' b') (List.seq 0 k) (take k xs);
  st_reqs : Forall2 (was_retracted b) (reverse (drop (Nat.max 1 k) js)) rs;
  st_abort : if (k =? 0)%nat then exists i r v, js !! 0%nat = Some i /\ b_reqs b !! i = Some r /\ ab = [retracted_req v (mark_abort r)] else ab = [];
  st_live : live cfg (take k xs ++ rest) (mem_cache s');
  st_mem : mem_ok (take k xs ++ rest) s';
  st_slots : all_slots cfg (take k xs ++ rest) (mem_cache s') ≡ₚ all_slots cfg (xs ++ rest) (mem_cache s);
  st_none r : r ∈ ac_rid <$> drop k xs -> row_of s' r = None;
  st_rows r : (r ∉ ac_rid <$> drop k xs) -> row_of s' r = row_of s r;
  st_stride : stride s' = stride s;
  st_fits : (0 < k)%nat -> decode_need cfg (take k xs) <= capacity s' }.

Lemma pick_same {A} (l l' : list A) js : (forall i, i ∈ js -> l' !! i = l !! i) -> pick l' js = pick l js.
Proof.
  induction js as [|i js IH]; intros Hs; [done|]. rewrite !pick_cons, (Hs i) by left. rewrite IH; [done|]. intros j Hj. apply Hs. by right.
Qed.

(** Filtering at the end of the loop. *)
Lemma filter_retracted js xs rest b s k rs b1 s1 :
  batch_wf b -> js ≡ₚ List.seq 0 (length (b_reqs b)) -> length js = length xs -> (1 <= k <= length js)%nat ->
  ((k < length js)%nat \/ length js = 1%nat) -> retracts cfg js xs rest b s k rs b1 s1 ->
  exists b', filter_batch [] (Some (take k js)) b1 = Ret b' /\ b_reqs b' = pick (b_reqs b) (take k js) /\ batch_wf b' /\
    Forall2 (track cfg s1 b') (List.seq 0 k) (take k xs).
Proof.
  intros Hw Hp El Hk Hsmall [(A1 & A1') A2 A3 _ _ _ _ _ _ _]. assert (batch_wf b1) as Hw1 by (rewrite A1; by apply batch_wf_flags).
  pose proof (Forall2_length _ _ _ A1') as Hlen. pose proof (Permutation_length Hp) as Hjs. rewrite length_seq in Hjs.
  assert (length (take k js) = k) as Htk by (rewrite length_take; lia).
  destruct (filter_batch_ok [] (Some (take k js)) b1 Hw1) as (b' & E & _ & Hf); [exact (track_range cfg s1 b1 _ _ A3)|]. cbn [default] in Hf.
  destruct Hf as (W & En & Hr); [intros E0; apply (f_equal length) in E0; cbn in E0; unfold id in *; lia|]. exists b'.
  assert (kept_indices b1 (take k js) = take k js) as Ek.
  { unfold kept_indices. rewrite Htk. destruct (Nat.eqb_spec k (length (b_reqs b1))) as [E1|]; [|done]. destruct Hsmall as [|H1]; [lia|].
    rewrite <-Hlen, <-Hjs, H1. rewrite H1 in Hjs. rewrite <-Hjs in Hp. rewrite take_ge by lia. apply Permutation_singleton_r in Hp. done. }
  unfold id in *. rewrite Ek in En, Hr. split_and!; [done| |done|].
  - rewrite Hr. apply pick_same. exact A2.
  - rewrite <-Htk at 1. exact (track_picked cfg Hps s1 b1 b' _ _ Hw1 W En A3).
Qed.

Lemma retracts_end js xs rest b s k rs b' s1 s2 :
  retracts cfg js xs rest b s k rs b' s1 -> kept_mem cfg (take k xs ++ rest) s1 s2 -> retracts cfg js xs rest b s k rs b' s2.
Proof.
  intros [A1 A2 A3 A4 A5 A6 A7 A8 A9 A10] HK. assert (forall r, row_of s2 r = row_of s1 r) as Hrow by (intros r; unfold row_of; by rewrite (km_rows _ _ _ _ HK)).
  constructor; try done.
  - eapply Forall2_impl; [exact A3|]. intros i x. by apply (kept_track cfg (take k xs ++ rest)).
  - exact (km_live _ _ _ _ HK).
  - exact (km_mem _ _ _ _ HK).
  - by rewrite (km_slots _ _ _ _ HK).
  - intros r Hr. rewrite Hrow. auto.
  - intros r Hr. rewrite Hrow. auto.
  - rewrite <-A10. unfold stride. by rewrite (km_rows _ _ _ _ HK).
Qed.

Lemma estimate_ratio_ok b s : Forall (fun r => 0 <= rr_max_new_tokens r) (b_reqs b) ->
  exists q, estimate_ratio (T := T) rnd RETRACT_DECODE_STEPS (b, s) = (Ret q, (b, s)).
Proof.
  intros Hm. unfold estimate_ratio. erewrite py_bind_Ret by reflexivity. cbn [fst]. unfold true_div.
  assert (0 <= sumZ (rr_max_new_tokens <$> b_reqs b)) as Hs by (apply sumZ_nonneg, Forall_fmap; exact Hm).
  destruct (Z.eqb_spec (sumZ (rr_max_new_tokens <$> b_reqs b) + 1) 0) as [E|_]; [lia|]. eexists. by erewrite py_bind_Ret by reflexivity.
Qed.

(** The last request is given up. *)
Lemma abort_last i x rest b s b1 s1 js xs rs :
  js !! 0%nat = Some i -> xs !! 0%nat = Some x -> retracts cfg js xs rest b s 1 rs b1 s1 ->
  exists r' b3 s3,
    (r ← get_req i; _ ← put_req i (mark_abort r); r ← release_req (H := H) cfg now sha256 sp RETRACT_DECODE_STEPS i 0; mret ([] : list nat, [r])) (b1, s1)
      = (Ret ([], [r']), (b3, s3)) /\
    stays js xs rest b s 0 rs [r'] (with_reqs_only [] b3) s3.
Proof.
  intros Hi Hx [A1 A2 A3 A4 A5 A6 A7 A8 A9 A10]. destruct js as [|? js]; [done|]. destruct xs as [|? xs]; [done|]. injection Hi as ->. injection Hx as ->.
  cbn [take firstn skipn] in *. apply Forall2_cons in A3 as [(r & v & n & Hr & Hv & Hn & Hrun) _].
  set (b2 := with_reqs_only (<[i := mark_abort r]> (b_reqs b1)) b1).
  assert (b_reqs b2 !! i = Some (mark_abort r)) as Hr2 by (cbn; apply list_lookup_insert_eq; by eapply lookup_lt_Some).
  assert (Forall2 (track cfg s1 b2) ([] ++ [i]) ([] ++ [x])) as Ht.
  { repeat constructor. exists (mark_abort r), v, n. split_and!; [done|done|done|]. destruct Hrun. by constructor. }
  destruct (retracts_one (H := H) cfg now sha256 sp RETRACT_DECODE_STEPS Hps Hevents Hd Heagle [] [] rest b2 s1 i x 0 Ht eq_refl
    (NoDup_singleton i) A5 A6) as (r' & b3 & s3 & E & [C1 C2 C3 C4 C5 C6 C7 C8 C9 C10]).
  exists r', b3, s3. split.
  { erewrite py_bind_Ret. 2: { unfold get_req. erewrite py_bind_Ret by reflexivity. cbn [fst]. rewrite Hr. reflexivity. }
    erewrite py_bind_Ret by reflexivity. erewrite py_bind_Ret by exact E. reflexivity. }
  cbn [app length take drop reverse rev_append] in *. constructor; cbn [take drop Nat.max Nat.eqb app] in *; try done.
  - lia.
  - apply Forall2_cons in C4 as [(r0 & v0 & Hr0 & ->) _]. exists i, r, v0. split_and!; [done| |congruence]. rewrite <-Hr. symmetry. apply A2. left.
  - rewrite C7. exact A7.
  - intros q Hq. rewrite fmap_cons in Hq. destruct (decide (q ∈ ac_rid <$> [x])) as [Hin|Hnin]; [by apply C8|]. rewrite C9 by done.
    apply elem_of_cons in Hq as [->|Hq]; [exfalso; apply Hnin; left|]. by apply A8.
  - intros q Hq. rewrite fmap_cons in Hq. rewrite C9, A9; [done| |]; set_solver.
  - by rewrite C10.
  - lia.
Qed.

(** The order of [retract_decode], and the requests in that order. *)
Definition retract_order b : list nat := sort_desc (retract_key b) (List.seq 0 (length (b_reqs b))).

Lemma order_track s b xs : Forall2 (track cfg s b) (List.seq 0 (length (b_reqs b))) xs ->
  exists ys, ys ≡ₚ xs /\ Forall2 (track cfg s b) (retract_order b) ys.
Proof.
  intros Hf. pose proof (sort_desc_perm (retract_key b) (List.seq 0 (length (b_reqs b)))) as Hp. symmetry in Hp.
  destruct (Permutation_Forall2 Hp Hf) as (ys & Hy & Hf'). by exists ys.
Qed.

Lemma pick_Forall {A} (P : A -> Prop) l js : Forall P l -> Forall P (pick l js).
Proof.
  intros HP. apply Forall_forall. intros a Ha. unfold pick in Ha. apply list_elem_of_omap in Ha as (i & _ & Hi). by eapply Forall_lookup_1.
Qed.

Lemma retract_decode_ok b s xs rest :
  batch_wf b -> b_reqs b <> [] -> Forall (fun r => 0 <= rr_max_new_tokens r) (b_reqs b) ->
  Forall2 (track cfg s b) (retract_order b) xs -> live cfg (xs ++ rest) (mem_cache s) -> mem_ok (xs ++ rest) s ->
  exists k rs ab q b' s', retract_decode (H := H) cfg now sha256 rnd sp RETRACT_DECODE_STEPS (b, s) = (Ret (rs, q, ab), (b', s')) /\
    (k <= length (b_reqs b))%nat /\ stays (retract_order b) xs rest b s k rs ab b' s'.
Proof.
  intros Hw Hne Hm Hf HL HM. set (js := retract_order b) in *.
  assert (js ≡ₚ List.seq 0 (length (b_reqs b))) as Hp by apply sort_desc_perm.
  pose proof (Permutation_length Hp) as Hlen. rewrite length_seq in Hlen. pose proof (Forall2_length _ _ _ Hf) as El.
  assert (js <> []) as Hjs by (intros E; rewrite E in Hlen; by destruct (b_reqs b)).
  destruct (retract_loop_ok (H := H) cfg now sha256 sp RETRACT_DECODE_STEPS Hps Hevents Hd Heagle Hspec (S (length js)) true js xs rest b s [] Hjs ltac:(lia) Hf)
    as (k & rs & b1 & s1 & E1 & Hk & HR & Hend & Hfirst); [rewrite Hp; apply NoDup_seq|done|done|].
  specialize (Hfirst eq_refl). cbn [app] in E1.
  unfold retract_decode. erewrite py_bind_Ret by reflexivity. cbn [fst]. rewrite Hspec. fold (retract_order b). fold js.
  erewrite py_bind_Ret by exact E1. cbv beta iota.
  assert (length (take k js) = k) as Htk by (rewrite length_take; lia). rewrite Htk.
  (* once memory is found to suffice *)
  assert (forall s2, retracts cfg js xs rest b s k rs b1 s2 -> decode_need cfg (take k xs) <= capacity s2 ->
    exists q b', (_ ← on_batch (filter_batch [] (Some (take k js))); q ← estimate_ratio rnd RETRACT_DECODE_STEPS; mret (rs, q, [] : list RReq)) (b1, s2) = (Ret (rs, q, []), (b', s2)) /\
      stays js xs rest b s k rs [] b' s2) as Hdone.
  { intros s2 HR2 Hfit. destruct (filter_retracted js xs rest b s k rs b1 s2 Hw Hp El Hk Hfirst HR2) as (b' & Ef & Hkept & Hw' & Ht').
    destruct (estimate_ratio_ok b' s2) as [q Eq]; [rewrite Hkept; by apply pick_Forall|]. exists q, b'. split.
    - erewrite py_bind_Ret by (unfold on_batch; cbn [fst snd]; rewrite Ef; reflexivity). by erewrite py_bind_Ret by exact Eq.
    - destruct HR2 as [A1 A2 A3 A4 A5 A6 A7 A8 A9 A10]. constructor; try done.
      + by replace (Nat.max 1 k) with k by lia.
      + destruct (Nat.eqb_spec k 0); [lia|done]. }
  destruct (Nat.leb_spec k 1) as [Hk1|Hk1].
  2: { erewrite py_bind_Ret by reflexivity. erewrite py_bind_Ret by reflexivity. cbv beta iota.
       destruct (Hdone s1 HR) as (q & b' & -> & Hst); [destruct Hend as [|?]; [lia|done]|]. exists k, rs, [], q, b', s1. split_and!; [done|lia|done]. }
  assert (k = 1%nat) as -> by lia.
  destruct (check_decode_mem_ok (H := H) cfg now sha256 sp Hps Hevents Hd Heagle Hspec (take 1 xs ++ rest) s1 b1 (Some (take 1 js)) (take 1 xs)
    (rt_live _ _ _ _ _ _ _ _ _ _ HR) (rt_mem _ _ _ _ _ _ _ _ _ _ HR)) as (s2 & Ec & HK); [set_solver|exact (rt_track _ _ _ _ _ _ _ _ _ _ HR)|].
  erewrite py_bind_Ret by (erewrite py_bind_Ret by exact Ec; reflexivity).
  pose proof (retracts_end _ _ _ _ _ _ _ _ _ _ HR HK) as HR2. destruct (Z.leb_spec (decode_need cfg (take 1 xs)) (capacity s1)) as [Hfit|Hshort].
  - cbn [negb]. erewrite py_bind_Ret by reflexivity. cbv beta iota. rewrite <-(km_capacity _ _ _ _ HK) in Hfit.
    destruct (Hdone s2 HR2 Hfit) as (q & b' & -> & Hst). exists 1%nat, rs, [], q, b', s2. split_and!; [done|lia|done].
  - cbn [negb]. destruct js as [|i js']; [done|]. destruct xs as [|x xs']; [done|].
    destruct (abort_last i x rest b s b1 s2 (i :: js') (x :: xs') rs eq_refl eq_refl HR2) as (r' & b3 & s3 & Ea & Hst).
    cbn [take last pred length]. erewrite py_bind_Ret by exact Ea. cbv beta iota.
    destruct (estimate_ratio_ok (with_reqs_only [] b3) s3 (Forall_nil_2 _)) as [q Eq].
    erewrite py_bind_Ret by reflexivity. erewrite py_bind_Ret by exact Eq.
    exists 0%nat, rs, [r'], q, (with_reqs_only [] b3), s3. split_and!; [done|lia|done].
Qed.

(** ** The slots of the next tokens *)

(** A request that can be decoded: it has a token without a slot, and its row has room. *)
Definition ready s (r : RReq) : Prop :=
  (kv_committed_len (rr_req r) < length (origin_input_ids (rr_req r) ++ output_ids (rr_req r)))%nat /\ (kv_committed_len (rr_req r) < stride s)%nat.

Definition next_id (r : RReq) : Z := default 0 ((origin_input_ids (rr_req r) ++ output_ids (rr_req r)) !! kv_committed_len (rr_req r)).
Definition next_of xs (rs : list RReq) : list (Active * list Z) := zip_with (fun x r => (x, [next_id r])) xs rs.

Lemma new_page_for_one n : 0 <= n -> ceil_div (n + 1) pg - ceil_div n pg = if n mod pg =? 0 then 1 else 0.
Proof.
  intros Hn. pose proof (Z.div_mod n pg ltac:(lia)) as Hm. pose proof (Z.mod_pos_bound n pg ltac:(lia)) as Hb.
  destruct (Z.eqb_spec (n mod pg) 0) as [E|E].
  - rewrite (ceil_div_unique ps Hps (n + 1) (n / pg + 1)), (ceil_div_unique ps Hps n (n / pg)) by nia. lia.
  - rewrite (ceil_div_unique ps Hps (n + 1) (n / pg + 1)), (ceil_div_unique ps Hps n (n / pg + 1)) by nia. lia.
Qed.

Lemma need_of_next xs rs : length xs = length rs -> pages_needed cfg (next_of xs rs) * pg = decode_need cfg xs.
Proof.
  intros El. unfold decode_need, pages_needed. f_equal. revert rs El. induction xs as [|x xs IH]; intros [|r rs] El; try done.
  cbn in El. injection El as El. specialize (IH rs El). unfold next_of in *. cbn [zip_with] in *. rewrite !fmap_cons in *.
  unfold num_new_pages_of in *. cbn [zip_with sumZ foldr fst snd] in *. unfold sumZ in *. cbn [foldr].
  rewrite <-IH, <-new_page_for_one by apply len_nonneg. done.
Qed.

Lemma next_of_fst xs rs : length xs = length rs -> (next_of xs rs).*1 = xs.
Proof. revert rs. induction xs as [|x xs IH]; intros [|r rs] El; try done. cbn in *. f_equal. apply IH. lia. Qed.

Lemma bump_fields acts s rs : mem_ok acts s ->
  let s' := foldl (fun m r => set_pool_fields (rr_rid r) id Z.succ m) s rs in
  mem_ok acts s' /\ mem_cache s' = mem_cache s /\ (forall r, row_of s' r = row_of s r) /\ stride s' = stride s.
Proof.
  revert s. induction rs as [|r rs IH]; intros s HM; [done|]. cbn [foldl].
  destruct (set_pool_fields_ok acts s (rr_rid r) id Z.succ HM) as (F1 & F2 & F3 & F4).
  destruct (IH _ F1) as (G1 & G2 & G3 & G4). split_and!; [done|congruence|intros q; by rewrite G3|congruence].
Qed.

(** A tracked batch, as vectors. *)
Lemma track_vectors s b xs :
  batch_wf b -> Forall2 (track cfg s b) (List.seq 0 (length (b_reqs b))) xs ->
  length xs = length (b_reqs b) /\ b_seq_lens b = (fun x => len (ac_vals x)) <$> xs /\
  Forall2 (fun x v => row_of s (ac_rid x) = Some v) xs (b_req_pool_indices b) /\
  (forall i x, xs !! i = Some x -> track cfg s b i x).
Proof.
  intros [H1 H2 _ _ _ _ _ _ _ _] Hf. pose proof (Forall2_length _ _ _ Hf) as El. rewrite length_seq in El.
  assert (forall i x, xs !! i = Some x -> track cfg s b i x) as Ht.
  { intros i x Hi. destruct (Forall2_lookup_r _ _ _ _ _ Hf Hi) as (j & Hj & Hx). by apply lookup_seq in Hj as [-> _]. }
  split_and!; [done| | |done].
  - apply list_eq_same_length with (length (b_reqs b)); [rewrite length_fmap; lia|lia|]. intros i n m _ Hn Hm.
    rewrite list_lookup_fmap in Hm. destruct (xs !! i) as [x|] eqn:Hx; [|done]. injection Hm as <-.
    destruct (Ht i x Hx) as (r & v & n' & _ & _ & Hn' & Hr). rewrite Hn in Hn'. injection Hn' as <-. exact (rn_seq _ _ _ _ _ _ Hr).
  - apply Forall2_same_length_lookup_2; [lia|]. intros i x v Hx Hv. destruct (Ht i x Hx) as (r & v' & n' & _ & Hv' & _ & Hr).
    rewrite Hv in Hv'. injection Hv' as <-. exact (rn_row _ _ _ _ _ _ Hr).
Qed.

(** A request after its step runs on what it owned and the slot of its next token. *)
Lemma runs_bump s s' r v n x it :
  runs cfg s r v n x -> ready s r -> it_act it = x -> it_sfx it = [next_id r] -> length (ac_vals x) = length (ac_ids x) ->
  length (ac_vals (it_grown ps it)) = length (ac_ids (it_grown ps it)) ->
  row_of s' (ac_rid x) = row_of s (ac_rid x) -> stride s' = stride s ->
  runs cfg s' (bump_req r) v (Z.succ n) (it_grown ps it).
Proof.
  intros [R1 [Q1 Q2 Q3] R3 (R4 & R4') R5 R6 R7 R8 R9] [N1 N2] Hx Hs Hv Hv' Hrow Hstr. subst x.
  assert (length (ac_ids (it_grown ps it)) = S (length (ac_ids (it_act it)))) as El by (cbn; rewrite Hs, length_app; cbn; lia).
  constructor.
  - exact R1.
  - by constructor.
  - exact R3.
  - rewrite El. cbn. by rewrite R4, R4'.
  - rewrite El. change (origin_input_ids (rr_req (bump_req r)) ++ output_ids (rr_req (bump_req r))) with (origin_input_ids (rr_req r) ++ output_ids (rr_req r)).
    cbn [it_grown ac_ids]. rewrite Hs. unfold next_id. rewrite R4 in *. destruct (lookup_lt_is_Some_2 _ _ N1) as [t Ht]. rewrite Ht.
    rewrite (take_S_r _ _ _ Ht), R5. done.
  - cbn [it_grown ac_prot]. etrans; [exact R6|]. unfold _cache_commit_len, bump_req, set_lens, rr_req.
    cbn [rr_kv kr_req kv_committed_len origin_input_ids reasoning_tokens]. destruct (_ && _); lia.
  - cbn [it_grown ac_rid]. congruence.
  - unfold len in *. rewrite Hv', El. lia.
  - rewrite Hv', El, Hstr. lia.
Qed.

Lemma prepare_for_decode_ok b s xs rest :
  batch_wf b -> Forall2 (track cfg s b) (List.seq 0 (length (b_reqs b))) xs -> Forall (ready s) (b_reqs b) ->
  live cfg (xs ++ rest) (mem_cache s) -> mem_ok (xs ++ rest) s -> decode_need cfg xs <= capacity s ->
  exists out ys s', prepare_for_decode (H := H) cfg sha256 kv_backup (b, s) = (Ret tt, (bump_batch out (feed_outputs b), s')) /\
    Forall2 (track cfg s' (bump_batch out (feed_outputs b))) (List.seq 0 (length (b_reqs b))) ys /\
    live cfg (ys ++ rest) (mem_cache s') /\ mem_ok (ys ++ rest) s' /\
    all_slots cfg (ys ++ rest) (mem_cache s') ≡ₚ all_slots cfg (xs ++ rest) (mem_cache s) /\
    (forall r, row_of s' r = row_of s r).
Proof.
  intros Hw Hf Hready HL HM Hfit. destruct (track_vectors s b xs Hw Hf) as (El & Eseq & Hrows & Ht).
  set (bs := next_of xs (b_reqs b)). set (rows := Z.to_nat <$> b_req_pool_indices b).
  assert (bs.*1 = xs) as Efst by (by apply next_of_fst).
  assert (forall i p, bs !! i = Some p -> exists x r v n, xs !! i = Some x /\ b_reqs b !! i = Some r /\ b_req_pool_indices b !! i = Some v /\
    b_seq_lens b !! i = Some n /\ p = (x, [next_id r]) /\ runs cfg s r v n x) as Hbs.
  { intros i p Hp. apply lookup_zip_with_Some in Hp as (x & r & -> & Hx & Hr). destruct (Ht i x Hx) as (r' & v & n & Hr' & Hv & Hn & Hrun).
    rewrite Hr in Hr'. injection Hr' as <-. by exists x, r, v, n. }
  assert (Z.of_nat <$> rows = b_req_pool_indices b) as Erows.
  { unfold rows. rewrite <-list_fmap_compose. rewrite <-(list_fmap_id (b_req_pool_indices b)) at 2. apply list_fmap_ext. intros i v Hv. cbn.
    destruct (Forall2_lookup_r _ _ _ _ _ Hrows Hv) as (x & _ & Hx). pose proof (row_range s _ _ (mo_rows _ _ HM) Hx). lia. }
  pose proof (alloc_for_decode_ok (H := H) cfg now sha256 Hps Hevents Hd kv_backup (xs ++ rest) rest s bs rows HL HM) as Hok.
  rewrite Efst in Hok. specialize (Hok (Permutation_refl _)). assert (pages_needed cfg bs * pg = decode_need cfg xs) as Epn by (by apply need_of_next). rewrite Epn in Hok. fold (capacity s) in Hok.
  rewrite (proj2 (Z.leb_le _ _) Hfit) in Hok. destruct Hok as (items & s1 & E & I1 & _ & L1 & M1 & Hmr & Hall).
  { apply Forall2_same_length_lookup_2.
    - unfold bs, next_of, rows. rewrite length_zip_with, length_fmap, (bw_rows _ Hw). lia.
    - intros i p v Hp Hv. destruct (Hbs i p Hp) as (x & r & v' & n & Hx & _ & Hv' & _ & -> & Hrun). cbn.
      rewrite (rn_row _ _ _ _ _ _ Hrun). rewrite <-Erows, list_lookup_fmap, Hv in Hv'. by injection Hv' as <-. }
  { apply Forall_lookup. intros i p Hp. destruct (Hbs i p Hp) as (x & r & v & n & Hx & Hr & _ & _ & -> & Hrun). cbn. split; [done|].
    pose proof (rn_room _ _ _ _ _ _ Hrun). destruct (Forall_lookup_1 _ _ _ _ Hready Hr) as [_ Hn]. rewrite (proj1 (rn_len _ _ _ _ _ _ Hrun)) in Hn.
    rewrite (act_vals_len cfg (xs ++ rest) (mem_cache s) x HL) in * by (apply elem_of_app; left; by eapply list_elem_of_lookup_2). lia. }
  assert (decode_of bs rows = mkDecodeBatch (b_req_pool_indices b) (b_seq_lens b) None) as Edb.
  { unfold decode_of. rewrite Erows, Eseq, <-Efst, <-list_fmap_compose. done. }
  rewrite Edb in E. set (out := concat (it_out ps <$> items)) in *. set (ys := it_grown ps <$> items) in *.
  destruct (bump_fields (ys ++ rest) s1 (b_reqs b) M1) as (F1 & F2 & F3 & F4). set (s2 := foldl _ s1 (b_reqs b)) in *.
  assert (forall r, row_of s2 r = row_of s r) as Hrow2 by (intros r; rewrite F3; unfold row_of; by rewrite Hmr).
  exists out, ys, s2. split_and!; [| |by rewrite F2|done|by rewrite F2|done].
  - unfold prepare_for_decode. erewrite py_bind_Ret by reflexivity. erewrite py_bind_Ret by reflexivity. cbn [fst snd b_req_pool_indices b_seq_lens feed_outputs].
    erewrite py_bind_Ret by (apply with_mem_Ret; exact E). erewrite py_bind_Ret by reflexivity. reflexivity.
  - pose proof (f_equal length I1) as Il. unfold bs, next_of in Il. rewrite length_fmap, length_zip_with in Il.
    apply Forall2_same_length_lookup_2; [unfold ys; rewrite length_seq, length_fmap; lia|]. intros i j y Hj Hy. apply lookup_seq in Hj as [-> _]. cbn [Nat.add].
    unfold ys in Hy. rewrite list_lookup_fmap in Hy. destruct (items !! i) as [it|] eqn:Hit; [|done]. injection Hy as <-.
    assert (bs !! i = Some (it_act it, it_sfx it)) as Hb by (by rewrite <-I1, list_lookup_fmap, Hit).
    destruct (Hbs i _ Hb) as (x & r & v & n & Hx & Hr & Hv & Hn & [= Ea Es] & Hrun).
    exists (bump_req r), v, (Z.succ n). cbn [bump_batch feed_outputs b_reqs b_req_pool_indices b_seq_lens]. rewrite !list_lookup_fmap, Hr, Hn.
    split_and!; [done|done|done|]. eapply runs_bump; [exact Hrun|by eapply Forall_lookup_1|done|done| | |by rewrite Hrow2|].
    + apply (act_vals_len cfg (xs ++ rest) (mem_cache s) x HL). apply elem_of_app. left. by eapply list_elem_of_lookup_2.
    + apply (act_vals_len cfg (ys ++ rest) (mem_cache s1) _ L1). apply elem_of_app. left. unfold ys. apply list_elem_of_fmap_2. by eapply list_elem_of_lookup_2.
    + rewrite F4. unfold stride. by rewrite Hmr.
Qed.

(** ** The whole update *)

(** A request that goes back to the queue: its tokens are kept (but for those generated from
    input embeddings), what it had in the KV memory is reset. *)
Record rerun (r r' : RReq) : Prop := mkRerun {
  re_rid : rr_rid r' = rr_rid r;
  re_ids : origin_input_ids (rr_req r') = origin_input_ids (rr_req r) /\
           output_ids (rr_req r') = if rr_input_embeds r then [] else output_ids (rr_req r);
  re_kv : kv_committed_len (rr_req r') = 0%nat /\ kv_allocated_len (rr_kv r') = 0%nat /\ kv_committed_freed (rr_req r') = false /\
          kv_overallocated_freed (rr_kv r') = false;
  re_cache : last_node (rr_req r') = None /\ prefix_indices (rr_req r') = [] /\ cache_protected_len (rr_req r') = 0%nat;
  re_count : rr_is_retracted r' = true /\ rr_retraction_count r' = rr_retraction_count r + 1 }.

Definition req_order (r : RReq) : Z * Z := (Z.of_nat (length (output_ids (rr_req r))), - Z.of_nat (length (origin_input_ids (rr_req r)))).

Lemma pick_app {A} (l : list A) js ks : pick l (js ++ ks) = pick l js ++ pick l ks.
Proof. apply omap_app. Qed.

Lemma elem_of_pick {A} (l : list A) js a : a ∈ pick l js <-> exists i, i ∈ js /\ l !! i = Some a.
Proof. apply list_elem_of_omap. Qed.

Lemma reruns b js rs : Forall2 (was_retracted b) js rs -> Forall2 rerun (pick (b_reqs b) js) rs.
Proof.
  induction 1 as [|i r' js rs (r & v & Hr & ->) _ IH]; [constructor|]. rewrite pick_cons, Hr. constructor; [by constructor|done].
Qed.

Lemma stays_outcome b s xs rest k rs ab b' s' :
  let js := retract_order b in
  (k <= length js)%nat -> Forall2 (track cfg s b) js xs -> stays js xs rest b s k rs ab b' s' ->
  let kept := pick (b_reqs b) (take k js) in
  let gone := pick (b_reqs b) (reverse (drop k js)) in
  kept ++ gone ≡ₚ b_reqs b /\ Forall2 rerun gone (rs ++ ab) /\ (forall r r', r ∈ kept -> r' ∈ gone -> key_gt (req_order r') (req_order r) = false) /\
  (ab <> [] -> kept = [] /\ length ab = 1%nat) /\ (forall r, r ∈ gone -> row_of s' (rr_rid r) = None).
Proof.
  intros js Hk Hf [S1 _ _ S4 S5 _ _ _ S9 _ _ _] kept gone.
  assert (js ≡ₚ List.seq 0 (length (b_reqs b))) as Hp by apply sort_desc_perm.
  split_and!.
  - unfold kept, gone. rewrite <-pick_app. rewrite <-(pick_all (b_reqs b)) at 2. unfold pick. apply omap_Permutation.
    by rewrite reverse_Permutation, take_drop.
  - unfold gone. destruct (Nat.eqb_spec k 0) as [->|Hk0].
    + destruct S5 as (i & r & v & Hi & Hr & ->). destruct js as [|j js']; [done|]. injection Hi as ->. cbn [drop skipn]. rewrite reverse_cons, pick_app.
      apply Forall2_app; [by apply reruns|]. rewrite pick_cons, Hr. repeat constructor.
    + subst ab. rewrite app_nil_r. replace (Nat.max 1 k) with k in S4 by lia. by apply reruns.
  - intros r r' (i & Hi & Hr)%elem_of_pick (j & Hj & Hr')%elem_of_pick. rewrite elem_of_reverse in Hj.
    pose proof (sort_desc_sorted (retract_key b) (List.seq 0 (length (b_reqs b)))) as Hs. fold (retract_order b) in Hs. fold js in Hs.
    rewrite <-(take_drop k js) in Hs. pose proof (StronglySorted_app_1_elem_of _ _ _ _ _ Hs Hi Hj) as Hb. unfold before, retract_key in Hb.
    by rewrite Hr, Hr' in Hb.
  - intros Hab. unfold kept. destruct (Nat.eqb_spec k 0) as [->|Hk0]; [|done]. by destruct S5 as (i & r & v & _ & _ & ->).
  - intros r (i & Hi & Hr)%elem_of_pick. rewrite elem_of_reverse in Hi. apply list_elem_of_lookup in Hi as (m & Hm). rewrite lookup_drop in Hm.
    destruct (Forall2_lookup_l _ _ _ _ _ Hf Hm) as (x & Hx & (r1 & v & n & Hr1 & _ & _ & Hrun)). rewrite Hr in Hr1. injection Hr1 as <-.
    rewrite (rn_rid _ _ _ _ _ _ Hrun). apply S9. apply list_elem_of_fmap_2. apply list_elem_of_lookup. exists m. by rewrite lookup_drop.
Qed.


(** The unfinished requests of the batch. *)
Definition running b : list RReq := pick (b_reqs b) (unfinished_indices [] b).

Lemma filter_finished b s xs :
  batch_wf b -> Forall2 (track cfg s b) (unfinished_indices [] b) xs ->
  exists b1, filter_batch [] None b = Ret b1 /\ b_reqs b1 = running b /\
    (b_reqs b1 <> [] -> batch_wf b1 /\ Forall2 (track cfg s b1) (List.seq 0 (length (b_reqs b1))) xs) /\ (b_reqs b1 = [] -> xs = []).
Proof.
  intros Hw Hf. pose proof (unfinished_range [] b) as Hr. destruct (filter_batch_ok [] None b Hw Hr) as (b1 & E & H1 & H2). cbn [default] in H1, H2.
  set (keep := unfinished_indices [] b) in *. exists b1. split; [done|].
  destruct (decide (keep = [])) as [E0|E0].
  - rewrite (H1 E0). cbn. unfold running. fold keep. rewrite E0 in Hf |- *. split_and!; [done|done|]. intros _. by apply Forall2_nil_inv_l in Hf.
  - destruct (H2 E0) as (W & En & Hreq). assert (kept_indices b keep = keep) as Ek.
    { unfold kept_indices. destruct (Nat.eqb_spec (length keep) (length (b_reqs b))) as [El|]; [|done]. symmetry. apply omap_full.
      - intros i j. destruct (b_reqs b !! i); [|done]. destruct (_ && _); [|done]. by intros [= ->].
      - by rewrite length_seq. }
    rewrite Ek in En, Hreq. assert (length (b_reqs b1) = length keep) as El by (rewrite Hreq; by apply length_pick).
    split_and!; [done| |].
    + intros _. split; [done|]. rewrite El. exact (track_picked cfg Hps s b b1 _ _ Hw W En Hf).
    + intros E1. rewrite E1 in El. destruct keep; done.
Qed.

(** With enough memory. *)
Lemma update_fits b s s1 xs rest :
  batch_wf b -> Forall2 (track cfg s b) (List.seq 0 (length (b_reqs b))) xs -> Forall (ready s) (b_reqs b) ->
  kept_mem cfg (xs ++ rest) s s1 -> decode_need cfg xs <= capacity s ->
  exists out ys s', prepare_for_decode (H := H) cfg sha256 kv_backup (b, s1) = (Ret tt, (bump_batch out (feed_outputs b), s')) /\
    Forall2 (track cfg s' (bump_batch out (feed_outputs b))) (List.seq 0 (length (b_reqs b))) ys /\
    live cfg (ys ++ rest) (mem_cache s') /\ mem_ok (ys ++ rest) s' /\
    all_slots cfg (ys ++ rest) (mem_cache s') ≡ₚ all_slots cfg (xs ++ rest) (mem_cache s).
Proof.
  intros Hw Hf Hr HK Hfit. destruct (prepare_for_decode_ok b s1 xs rest Hw) as (out & ys & s' & E & P1 & P2 & P3 & P4 & _).
  - eapply Forall2_impl; [exact Hf|]. intros i x. by apply (kept_track cfg (xs ++ rest)).
  - eapply Forall_impl; [exact Hr|]. intros r. unfold ready, stride. by rewrite (km_rows _ _ _ _ HK).
  - exact (km_live _ _ _ _ HK).
  - exact (km_mem _ _ _ _ HK).
  - by rewrite (km_capacity _ _ _ _ HK).
  - exists out, ys, s'. split_and!; try done. by rewrite P4, (km_slots _ _ _ _ HK).
Qed.

(** Without: the requests that stay after retraction, and their next slots. *)
Lemma update_retracts b s s1 xs rest :
  batch_wf b -> b_reqs b <> [] -> Forall2 (track cfg s b) (List.seq 0 (length (b_reqs b))) xs -> Forall (ready s) (b_reqs b) ->
  Forall (fun r => 0 <= rr_max_new_tokens r) (b_reqs b) -> kept_mem cfg (xs ++ rest) s s1 ->
  exists rs ab q b2 s2 kept gone, retract_decode (H := H) cfg now sha256 rnd sp RETRACT_DECODE_STEPS (b, s1) = (Ret (rs, q, ab), (b2, s2)) /\
    b_reqs b2 = kept /\ kept ++ gone ≡ₚ b_reqs b /\ Forall2 rerun gone (rs ++ ab) /\
    (forall r r', r ∈ kept -> r' ∈ gone -> key_gt (req_order r') (req_order r) = false) /\ (ab <> [] -> kept = [] /\ length ab = 1%nat) /\
    exists b' s' ys, (if is_empty b2 then mret tt else prepare_for_decode (H := H) cfg sha256 kv_backup) (b2, s2) = (Ret tt, (b', s')) /\
      b_reqs b' = bump_req <$> kept /\ (kept <> [] -> batch_wf b') /\ (forall r, r ∈ gone -> row_of s' (rr_rid r) = None) /\
      Forall2 (track cfg s' b') (List.seq 0 (length kept)) ys /\ live cfg (ys ++ rest) (mem_cache s') /\ mem_ok (ys ++ rest) s' /\
      all_slots cfg (ys ++ rest) (mem_cache s') ≡ₚ all_slots cfg (xs ++ rest) (mem_cache s).
Proof.
  intros Hw Hne Hf Hr Hm HK.
  assert (Forall2 (track cfg s1 b) (List.seq 0 (length (b_reqs b))) xs) as Hf1 by (eapply Forall2_impl; [exact Hf|]; intros i x; by apply (kept_track cfg (xs ++ rest))).
  destruct (order_track s1 b xs Hf1) as (zs & Hz & Hfz). assert (zs ++ rest ≡ₚ xs ++ rest) as Hp by (by rewrite Hz).
  pose proof (live_perm cfg _ _ _ (symmetry Hp) (km_live _ _ _ _ HK)) as HL1. pose proof (mem_ok_perm _ _ _ (symmetry Hp) (km_mem _ _ _ _ HK)) as HM1.
  destruct (retract_decode_ok b s1 zs rest Hw Hne Hm Hfz HL1 HM1) as (k & rs & ab & q & b2 & s2 & E & Hk & Hst).
  assert (length (retract_order b) = length (b_reqs b)) as Hlen by (unfold retract_order; by rewrite sort_desc_perm, length_seq).
  destruct (stays_outcome b s1 zs rest k rs ab b2 s2 ltac:(lia) Hfz Hst) as (O1 & O2 & O3 & O4 & O5).
  set (kept := pick _ (take k _)) in *. set (gone := pick _ (reverse _)) in *. exists rs, ab, q, b2, s2, kept, gone.
  destruct Hst as [S1 S2 S3 _ _ S6 S7 S8 _ _ S11 S12]. fold kept in S1. split_and!; [done..|].
  assert (length kept = k) as Hlk.
  { unfold kept. rewrite length_pick, length_take; [lia|]. apply Forall_take. exact (track_range cfg s1 b _ _ Hfz). }
  assert (all_slots cfg (take k zs ++ rest) (mem_cache s2) ≡ₚ all_slots cfg (xs ++ rest) (mem_cache s)) as Hsl.
  { by rewrite S8, (all_slots_perm _ _ _ _ Hp), (km_slots _ _ _ _ HK). }
  unfold is_empty. rewrite S1. destruct kept as [|r0 rs0] eqn:Ek.
  - cbn in Hlk. subst k. exists b2, s2, []. split_and!; try done; constructor.
  - rewrite <-Ek in *. assert (0 < k)%nat as Hk0 by (rewrite <-Hlk, Ek; cbn; lia).
    destruct (prepare_for_decode_ok b2 s2 (take k zs) rest (S2 Hk0)) as (out & ys & s' & E' & P1 & P2 & P3 & P4 & P5).
    + by rewrite S1, Hlk.
    + rewrite S1. apply pick_Forall. eapply Forall_impl; [exact Hr|]. intros r. unfold ready. rewrite S11. unfold stride. by rewrite (km_rows _ _ _ _ HK).
    + done.
    + done.
    + by apply S12.
    + eexists _, s', ys. rewrite S1 in P1. split_and!; [exact E'|cbn; by rewrite S1|intros _; apply bump_batch_wf; auto| |done|done|done|by rewrite P4].
      intros r Hgr. rewrite P5. auto.
Qed.

(** Requests with rows of their own have names of their own. *)
Lemma track_rids s b xs rest : Forall2 (track cfg s b) (List.seq 0 (length (b_reqs b))) xs -> mem_ok (xs ++ rest) s -> NoDup (rr_rid <$> b_reqs b).
Proof.
  intros Hf HM. assert (rr_rid <$> b_reqs b = ac_rid <$> xs) as ->.
  { pose proof (Forall2_length _ _ _ Hf) as El. rewrite length_seq in El. apply list_eq. intros i. rewrite !list_lookup_fmap.
    destruct (xs !! i) as [x|] eqn:Hx.
    - destruct (Forall2_lookup_r _ _ _ _ _ Hf Hx) as (j & [-> _]%lookup_seq & r & v & n & Hr & _ & _ & Hrun). cbn [Nat.add] in Hr. rewrite Hr.
      cbn. by rewrite (rn_rid _ _ _ _ _ _ Hrun).
    - apply lookup_ge_None in Hx. by rewrite lookup_ge_None_2 by lia. }
  pose proof (mo_rids _ _ HM) as Hnd. rewrite fmap_app in Hnd. by apply NoDup_app in Hnd as [Hnd _].
Qed.

Lemma rerun_rids gone rs : Forall2 rerun gone rs -> rr_rid <$> rs = rr_rid <$> gone.
Proof. induction 1 as [|r r' gone rs Hr _ IH]; [done|]. cbn. by rewrite IH, (re_rid _ _ Hr). Qed.

(** What is retracted can be queued again. *)
Lemma retracted_queue s b xs rest (qc : QueueCfg) q kept gone rs ab :
  Forall2 (track cfg s b) (List.seq 0 (length (b_reqs b))) xs -> mem_ok (xs ++ rest) s -> kept ++ gone ≡ₚ b_reqs b -> Forall2 rerun gone (rs ++ ab) ->
  (forall r, r ∈ b_reqs b -> rr_rid r ∉ waiting_rids q) ->
  NoDup (rr_rid <$> rs) /\ (forall r, r ∈ rs -> rr_rid r ∉ waiting_rids q).
Proof.
  intros Hf HM Hp Hre Hw. pose proof (track_rids s b xs rest Hf HM) as Hnd. pose proof (rerun_rids gone _ Hre) as Er.
  rewrite fmap_app in Er. assert (forall i, i ∈ rr_rid <$> rs -> i ∈ rr_rid <$> b_reqs b) as Hsub.
  { intros i Hi. rewrite <-Hp, fmap_app, elem_of_app. right. rewrite <-Er. apply elem_of_app. by left. }
  split.
  - rewrite <-Hp, fmap_app, <-Er in Hnd. apply NoDup_app in Hnd as (_ & _ & Hnd). by apply NoDup_app in Hnd as [Hnd _].
  - intros r Hr. assert (rr_rid r ∈ rr_rid <$> b_reqs b) as (r' & -> & Hr')%list_elem_of_fmap by (by apply Hsub, list_elem_of_fmap_2). auto.
Qed.

End update.

(** ** Two requests and no memory left *)

#[local] Instance upd_alloc : KVAllocator Alloc := paged_KVAllocator false.
#[local] Instance upd_partial : KVPartial Alloc := paged_KVPartial false.
#[local] Instance upd_batch : BatchKV Alloc := paged_BatchKV false.

Definition up_reqs : gmap nat PoolReq := <[2%nat := mkPoolReq None 0 0]> (<[1%nat := mkPoolReq None 0 0]> ∅).
Definition up0 : Mem Alloc := mkMem (set_req_to_token (replicate 3 (replicate 12 0)) demo2) (new_ReqToTokenPool 2 12 ∅).
Definition up1 : Mem Alloc := with_reqs up_reqs up0.
Definition up_start (ids : list Z) (s : Mem Alloc) : MatchResult * Mem Alloc :=
  let m := match_prefix demo_cfg demo_now (mkRadixKey ids None false) (mem_cache s) in
  match m.1 with
  | Ret r => (r, mkMem (inc_lock_ref demo_cfg (Some (last_device_node r)) m.2).2 (mem_rows s))
  | _ => (mkMatchResult [] 0 0 0, s)
  end.
Definition up_a : list Z := [7; 8; 9; 10; 11; 12; 13; 14].
Definition up_b : list Z := [21; 22; 23; 24; 25; 26; 27; 28].
Definition up2 : Mem Alloc := (up_start up_a up1).2.
Definition up3 : Mem Alloc := (up_start up_b up2).2.
Definition up_fa : InFlight := mkInFlight 1 None [7; 8; 9; 10] [2; 3; 4; 5] 1 4.
Definition up_fb : InFlight := mkInFlight 2 None [] [] 0 0.
Definition up_bs : list (InFlight * list Z) := [(up_fa, [11; 12; 13; 14]); (up_fb, up_b)].
Definition up_extended := alloc_for_extend (H := list HeapEntry) demo_cfg demo_sha true [0%nat; 1%nat] backup_state (extend_batch up_bs) up3.
Definition up4 : Mem Alloc := up_extended.2.

Lemma up0_live : live demo_cfg [] (mem_cache up0).
Proof.
  destruct sv0_live as [L1 L2 L3 _ L5]. constructor; [exact L1|exact L2|exact L3|constructor|exact L5].
Qed.

Lemma up0_mem : mem_ok [] up0.
Proof.
  constructor; [exact (Permutation_refl (seqZ 1 2))|split; [simpl; lia|reflexivity]| |constructor|constructor].
  repeat constructor.
Qed.

Definition up_flights : list InFlight :=
  [mkInFlight 1 None up_a [2; 3; 4; 5; 6; 7; 8; 9] 1 4; mkInFlight 2 None up_b [10; 11; 12; 13; 14; 15; 16; 17] 0 0].

Lemma up_steps : rtc (serve (H := list HeapEntry) demo_cfg demo_now demo_sha true backup_state) ([], up0) (up_flights, up4).
Proof.
  eapply rtc_l; [apply (sv_arrive _ _ _ _ _ [] up0 1 (mkPoolReq None 0 0)); reflexivity|].
  eapply rtc_l; [apply (sv_arrive _ _ _ _ _ [] _ 2 (mkPoolReq None 0 0)); reflexivity|].
  change (with_reqs _ (with_reqs _ _)) with up1.
  set (ma := match_prefix demo_cfg demo_now (mkRadixKey up_a None false) (mem_cache up1)).
  assert (ma = (Ret (mkMatchResult [2; 3; 4; 5] 1 1 1), ma.2)) as Ea by (vm_compute; reflexivity).
  assert (inc_lock_ref demo_cfg (Some 1%nat) ma.2 = (Ret (-4), mem_cache up2)) as La by (vm_compute; reflexivity).
  eapply rtc_l; [apply (sv_start _ _ _ _ _ [] up1 1 up_a None _ _ _ _ ltac:(by eexists) eq_refl (not_elem_of_nil _) Ea La)|].
  assert (mkMem (mem_cache up2) (mem_rows up1) = up2) as -> by (vm_compute; reflexivity).
  set (mb := match_prefix demo_cfg demo_now (mkRadixKey up_b None false) (mem_cache up2)).
  assert (mb = (Ret (mkMatchResult [] 0 0 0), mb.2)) as Eb by (vm_compute; reflexivity).
  assert (inc_lock_ref demo_cfg (Some 0%nat) mb.2 = (Ret 0, mem_cache up3)) as Lb by (vm_compute; reflexivity).
  eapply rtc_l; [eapply (sv_start _ _ _ _ _ _ up2 2 up_b None _ _ _ _ ltac:(by eexists) eq_refl _ Eb Lb)|].
  assert (mkMem (mem_cache up3) (mem_rows up2) = up3) as -> by (vm_compute; reflexivity).
  assert (alloc_for_extend (H := list HeapEntry) demo_cfg demo_sha true [0%nat; 1%nat] backup_state (extend_batch up_bs) up3
    = (Ret ([6; 7; 8; 9; 10; 11; 12; 13; 14; 15; 16; 17], [1; 2]), up4)) as Ee by (vm_compute; reflexivity).
  assert (up_flights = (longer up4 <$> up_bs) ++ []) as -> by (vm_compute; reflexivity). apply rtc_once.
  eapply (sv_extend _ _ _ _ _ _ up3 up_bs [] [0%nat; 1%nat] _ up4).
  - change ([up_fb; up_fa] ≡ₚ [up_fa; up_fb]). apply Permutation_swap.
  - reflexivity.
  - vm_compute. reflexivity.
  - repeat constructor; vm_compute; discriminate.
  - exact Ee.
  Unshelve. change ((2 : nat) ∉ [1%nat]). clear. intros E%list_elem_of_singleton. discriminate E.
Qed.

Definition up_req (rid row node prot : nat) (origin output : list Z) : RReq :=
  mkRReq (mkKVReq rid (mkReq row origin output origin None None prot (Some node) [] 8 false 0) 8 false false) 16 false false false true false false
    0 false 0 1 1.
Definition up_batch_state : Batch :=
  mkBatch [up_req 1 1 1 4 up_a [15]; up_req 2 2 0 0 [21; 22; 23; 24; 25; 26; 27] [28; 29]] [1; 2] [8; 8] [8; 8] 16 None (Some [15; 29]) None
    false None None true false false.
Definition no_spec : SpecCfg := mkSpecCfg false true true None None 0.
(** A third request waits already. *)
Definition up_queue : Queue := mkQueue [(up_req 3 0 0 0 [31; 32] [], 5)] [] 1.
Definition up_qc : QueueCfg := mkQueueCfg None false false false.
Definition up_clock (n : nat) : Z := 10 * Z.of_nat n.
Local Abbreviation up_updated :=
  (update_running_batch (H := list HeapEntry) demo_cfg demo_now demo_sha backup_state (fun q => q) no_spec 20 up_qc up_clock (NFloat (1 # 1000)) (NFloat (1 # 10))
    (mkRunState (NFloat (1 # 2)) true up_queue) (up_batch_state, up4)).

Lemma up_wf : batch_wf up_batch_state.
Proof. by constructor; try done; intros l [= <-]. Qed.

Lemma up_runs x1 x2 : seen x1 = mkInFlight 1 None up_a [2; 3; 4; 5; 6; 7; 8; 9] 1 4 ->
  seen x2 = mkInFlight 2 None up_b [10; 11; 12; 13; 14; 15; 16; 17] 0 0 ->
  Forall2 (track demo_cfg up4 up_batch_state) (unfinished_indices [] up_batch_state) [x1; x2].
Proof.
  intros [= A1 A2 A3 A4 A5 A6] [= B1 B2 B3 B4 B5 B6]. change (unfinished_indices [] up_batch_state) with [0%nat; 1%nat].
  assert (row_of up4 1 = Some 1 /\ row_of up4 2 = Some 2 /\ stride up4 = 12%nat) as (E1 & E2 & E3) by (vm_compute; split_and!; reflexivity).
  constructor; [|constructor; [|constructor]].
  - eexists _, 1, 8. split_and!; [reflexivity|reflexivity|reflexivity|]. constructor; rewrite ?A1, ?A3, ?A4, ?A6.
    + reflexivity.
    + constructor; rewrite ?A2, ?A5, ?A6; reflexivity.
    + split; reflexivity.
    + split; reflexivity.
    + reflexivity.
    + apply Nat.leb_le. reflexivity.
    + exact E1.
    + reflexivity.
    + rewrite E3. cbn. lia.
  - eexists _, 2, 8. split_and!; [reflexivity|reflexivity|reflexivity|]. constructor; rewrite ?B1, ?B3, ?B4, ?B6.
    + reflexivity.
    + constructor; rewrite ?B2, ?B5, ?B6; reflexivity.
    + split; reflexivity.
    + split; reflexivity.
    + reflexivity.
    + apply Nat.leb_le. reflexivity.
    + exact E2.
    + reflexivity.
    + rewrite E3. cbn. lia.
Qed.

Lemma up_served : exists x1 x2, Forall2 (track demo_cfg up4 up_batch_state) (unfinished_indices [] up_batch_state) [x1; x2] /\
  live demo_cfg [x1; x2] (mem_cache up4) /\ mem_ok [x1; x2] up4.
Proof.
  destruct (serving_live (H := list HeapEntry) demo_cfg demo_now demo_sha demo_ps eq_refl eq_refl eq_refl true backup_state eq_refl
    up0 _ up4 up0_live up0_mem (fun r => eq_refl) up_steps) as (acts & S1 & S2 & S3).
  destruct acts as [|x1 [|x2 [|? ?]]]; try discriminate S1. injection S1. intros. exists x1, x2. split_and!; [|exact S2|exact S3].
  apply up_runs; unfold seen; congruence.
Qed.

