(* ===== verification/PrefixCache.v ===== *)
(** * The prefix cache as the scheduler sees it (mem_cache/base_prefix_cache.py)

    [BasePrefixCache] is the interface between the scheduler and the caches: matching, locks,
    loading back and the sizes of pool and tree.  [RadixCache] and [HiRadixCache] implement
    it.  A Python dictionary of children is iterated in insertion order, which the models of
    the caches do not keep: the order is an argument of the instances.  [pc_count] is the number of nodes ever created,
    a bound on the depth of the tree. *)

From stdpp Require Import base tactics list gmap strings.
From Stdlib Require Import ZArith Lia.
From S2P Require Import Prelude PyStr RadixKey TreeNode EvictPolicy Allocator AllocatorProofs KVEvents.
From S2P Require Import RadixTree ReqPool HiController HiRadix.

(** The sizes the scheduler adds up; those of a sliding window exist for hybrid pools only. *)
Record Sizes := mkSizes {
  sz_available : Z;
  sz_full_available : Z;
  sz_swa_available : Z;
  sz_evictable : Z;
  sz_full_evictable : Z;
  sz_swa_evictable : Z }.

Class PrefixCache (C : Type) := {
  pc_match : RadixKey -> PyM C HiMatchResult;
  pc_inc_lock : option nat -> PyM C unit;
  pc_dec_lock : option nat -> PyM C unit;
  pc_init_load_back : nat -> PyM C (list Z * nat);
  pc_root : C -> nat;
  pc_count : C -> nat;
  pc_children : C -> nat -> list nat;
  pc_sizes : C -> Sizes;
  pc_disable : bool }.

(** [zero_match_result] *)
Definition zero_match_result {C} `{!PrefixCache C} (is_chunk_cache : bool) (c : C) (r : HiMatchResult) : HiMatchResult :=
  if is_chunk_cache then r
  else mkHiMatch (mkMatchResult (take 0 (device_indices (hm_match r))) (pc_root c) (pc_root c) (pc_root c)) 0.

Section instances.
Context {T : Type} `{!KVAllocator T} {H : Type} `{!HeapQ H} {B Page : Type}.
Context (cfg : Config) (now : nat -> Z) (sha256 : list Z -> string).
Context (available : T -> Z) (order : gmap ChildKey nat -> list nat).

Definition ordered_children (ns : gmap nat TreeNode) (i : nat) : list nat :=
  match ns !! i with Some n => order (children n) | None => [] end.

Definition drop_result {C A} (m : PyM C A) : PyM C unit := _ ← m; mret tt.

(** [None.lock_ref] fails, unless the cache is disabled. *)
Definition no_node {C} : PyM C unit := if disable cfg then mret tt else py_raise AttributeError.

(** The plain cache has no host tier, and [BasePrefixCache] no sliding window. *)
Definition radix_PrefixCache : PrefixCache (Cache T) := {|
  pc_match k := r ← match_prefix cfg now k; mret (mkHiMatch r 0);
  pc_inc_lock i := drop_result (inc_lock_ref cfg i);
  pc_dec_lock i := drop_result (dec_lock_ref cfg i);
  pc_init_load_back _ := py_raise NotImplementedError;
  pc_root s := root_node s;
  pc_count s := counter s;
  pc_children s i := ordered_children (nodes s) i;
  pc_sizes s := mkSizes (available (kv_pool s)) 0 0 (evictable_size_ s) 0 0;
  pc_disable := disable cfg |}.

Definition hi_PrefixCache : PrefixCache (HiCache T B Page) := {|
  pc_match k := hi_match_prefix cfg now k;
  pc_inc_lock i := match i with Some i => drop_result (hi_inc_lock_ref cfg i) | None => no_node end;
  pc_dec_lock i := match i with Some i => drop_result (hi_dec_lock_ref cfg i) | None => no_node end;
  pc_init_load_back i := init_load_back (H := H) cfg sha256 i None;
  pc_root s := root_node (tree s);
  pc_count s := counter (tree s);
  pc_children s i := ordered_children (nodes (tree s)) i;
  pc_sizes s := mkSizes (available (kv_pool (tree s))) 0 0 (evictable_size_ (tree s)) 0 0;
  pc_disable := disable cfg |}.
End instances.
