(* ===== verification/CacheLaws.v ===== *)
(** * What a prefix cache promises to the scheduler

    [PrefixCacheLaws] are the laws the scheduling policies and the admission of requests rely
    on: nodes form a finite tree, matching and locking succeed on the nodes a match returns
    and leave the contents alone, and the memory budget (free plus evictable slots) is
    determined by the set of nodes that are held.  [RadixCache] meets them. *)

From stdpp Require Import base tactics list gmap strings.
From Stdlib Require Import ZArith Lia.
From S2P Require Import Prelude PyStr RadixKey TreeNode EvictPolicy Allocator AllocatorProofs KVEvents.
From S2P Require Import RadixTree RadixInv RadixPaths RadixSlots RadixWalk RadixProofs RadixLocks RadixClaims ReqPool.
From S2P Require Import HiController HiRadix PrefixCache.

(** ** Steps of the monad *)

Lemma py_bind_get {S B} (f : S -> PyM S B) s : (py_get ≫= f) s = f s s.
Proof. done. Qed.
Lemma py_bind_modify {S B} g (f : unit -> PyM S B) s : (py_modify g ≫= f) s = f tt (g s).
Proof. done. Qed.

(** ** Trees *)

(** Nodes [P] with parents [par] and depths [d] below [N]; [ch] lists the children. *)
Record tree_shape (P : nat -> Prop) (root N : nat) (ch : nat -> list nat) (par : nat -> option nat) (d : nat -> nat) : Prop :=
  mkTreeShape {
  ts_root : P root;
  ts_nodup : forall i, P i -> NoDup (ch i);
  ts_child : forall i j, P i -> j ∈ ch i <-> P j /\ par j = Some i;
  ts_depth : forall i, P i -> (d i < N)%nat;
  ts_parent : forall i, P i -> i = root \/ exists p, par i = Some p /\ P p;
  ts_rank : forall i p, P i -> par i = Some p -> (d p < d i)%nat }.

(** ** The laws *)

(** Free and evictable slots. *)
Definition pc_budget {C} `{!PrefixCache C} (c : C) : Z := sz_available (pc_sizes c) + sz_evictable (pc_sizes c).

Class PrefixCacheLaws (C : Type) `{!PrefixCache C} := {
  pc_ok : list nat -> C -> Prop;
  pc_node : C -> nat -> Prop;
  pc_same : C -> C -> Prop;
  pc_loadable : C -> nat -> nat -> nat -> Prop;
  pc_capacity : Z;
  law_capacity hs c : pc_ok hs c -> 0 <= pc_budget c <= pc_capacity;
  law_perm hs hs' c : hs ≡ₚ hs' -> pc_ok hs c -> pc_ok hs' c;
  law_root hs c : pc_ok hs c -> pc_node c (pc_root c);
  law_tree hs c : pc_ok hs c -> exists par d, tree_shape (pc_node c) (pc_root c) (pc_count c) (pc_children c) par d;
  law_match hs c k : pc_ok hs c -> is_bigram k = false ->
    exists m c', pc_match k c = (Ret m, c') /\ pc_ok hs c' /\ pc_budget c' = pc_budget c /\
      (forall i, pc_node c i -> pc_node c' i) /\ pc_node c' (last_device_node (hm_match m)) /\
      (length (device_indices (hm_match m)) + host_hit_length m <= length (token_ids k))%nat /\
      (host_hit_length m <> 0%nat ->
       pc_loadable c' (last_device_node (hm_match m)) (best_match_node (hm_match m)) (host_hit_length m));
  law_same_refl c : pc_same c c;
  law_same_sym c c' : pc_same c c' -> pc_same c' c;
  law_same_trans c c1 c2 : pc_same c c1 -> pc_same c1 c2 -> pc_same c c2;
  law_same_node c c' i : pc_same c c' -> pc_node c i -> pc_node c' i;
  law_same_load c c' i j n : pc_same c c' -> pc_loadable c i j n -> pc_loadable c' i j n;
  law_inc hs c i : pc_ok hs c -> pc_node c i ->
    exists c', pc_inc_lock (Some i) c = (Ret tt, c') /\ pc_ok (i :: hs) c' /\ pc_same c c';
  law_dec hs hs' c i : pc_ok hs c -> hs ≡ₚ i :: hs' ->
    exists c', pc_dec_lock (Some i) c = (Ret tt, c') /\ pc_ok hs' c' /\ pc_same c c';
  law_budget hs hs' c c' : pc_same c c' -> pc_ok hs c -> pc_ok hs' c' ->
    (forall h, h ∈ hs' -> h ∈ hs) -> pc_budget c <= pc_budget c';
  law_load hs c i j n : pc_ok hs c -> i ∈ hs -> pc_loadable c i j n ->
    exists d i' c', pc_init_load_back j c = (Ret (d, i'), c') /\ pc_ok hs c' /\ pc_node c' i' /\ (length d <= n)%nat /\
      (forall c2, pc_inc_lock (Some i') c' = (Ret tt, c2) -> pc_budget c - Z.of_nat (length d) <= pc_budget c2) }.

(** Holding the same nodes gives the same budget. *)
Lemma same_budget {C} `{PrefixCacheLaws C} hs hs' c c' :
  pc_same c c' -> pc_ok hs c -> pc_ok hs' c' -> (forall h, h ∈ hs <-> h ∈ hs') -> pc_budget c <= pc_budget c'.
Proof. intros Hs H1 H2 He. apply (law_budget hs hs'); [done..|]. intros h. by rewrite He. Qed.

(** ** RadixCache *)

(** Summing over two maps with the same keys. *)
Lemma msum_le {A} (f g : nat -> A -> Z) (m m' : gmap nat A) :
  (forall i x, m !! i = Some x -> exists y, m' !! i = Some y /\ f i x <= g i y) ->
  (forall i y, m' !! i = Some y -> is_Some (m !! i)) -> msum f m <= msum g m'.
Proof.
  revert m'. induction m as [|i x m Hi IH] using map_ind; intros m' H1 H2.
  - assert (m' = ∅) as ->; [|by rewrite !msum_empty]. apply map_empty. intros i. destruct (m' !! i) as [y|] eqn:E; [|done].
    destruct (H2 i y E) as [? Hx]. by rewrite lookup_empty in Hx.
  - destruct (H1 i x (lookup_insert_eq _ _ _)) as (y & Hy & Hf).
    rewrite msum_insert by done. specialize (IH (delete i m')). pose proof (msum_delete g _ _ _ Hy).
    enough (msum f m <= msum g (delete i m')) by lia. apply IH.
    + intros j z Hj. assert (j <> i) by congruence. rewrite lookup_delete_ne by done.
      apply H1. by rewrite lookup_insert_ne.
    + intros j z [Hne Hj]%lookup_delete_Some. destruct (H2 j z Hj) as [w Hw].
      rewrite lookup_insert_ne in Hw by congruence. eauto.
Qed.

Lemma msum_pos {A} (f : nat -> A -> Z) (m : gmap nat A) :
  0 < msum f m -> exists i x, m !! i = Some x /\ 0 < f i x.
Proof.
  induction m as [|i x m Hi IH] using map_ind; [by rewrite msum_empty|].
  rewrite msum_insert by done. intros Hp. destruct (decide (0 < f i x)).
  - exists i, x. by rewrite lookup_insert_eq.
  - destruct IH as (j & y & Hj & Hy); [lia|]. exists j, y. rewrite lookup_insert_ne by congruence. done.
Qed.

Lemma handles_at_pos hs i : 0 < handles_at hs i <-> i ∈ hs.
Proof.
  unfold handles_at. split.
  - intros Hp. destruct (List.filter _ hs) as [|x l] eqn:E; [simpl in Hp; lia|].
    assert (List.In x (List.filter (fun h => bool_decide (h = i)) hs)) as Hx by (rewrite E; by left).
    apply List.filter_In in Hx as [Hx Hb%bool_decide_eq_true]. subst. by apply list_elem_of_In.
  - intros Hin. destruct (List.filter (fun h => bool_decide (h = i)) hs) as [|x l] eqn:E; [|simpl; lia].
    assert (List.In i (List.filter (fun h => bool_decide (h = i)) hs)) as Hx.
    { apply List.filter_In. split; [by apply list_elem_of_In|by apply bool_decide_eq_true]. }
    by rewrite E in Hx.
Qed.

Section locked.
Context (ps : nat) (eagle : bool).

(** With fewer handles fewer nodes are locked. *)
Lemma locked_mono hs hs' A A' :
  inv ps eagle hs A -> inv ps eagle hs' A' -> same_contents A A' -> (forall h, h ∈ hs' -> h ∈ hs) ->
  forall i n n', a_ns A !! i = Some n -> a_ns A' !! i = Some n' -> 0 < sh_lock n' -> 0 < sh_lock n.
Proof.
  intros [HA [_ HL] _ _] [HA' [_ HL'] _ _] HS Hsub. destruct (it_rank HA) as [d Hd].
  assert (forall r i n n', (a_ctr A - d i < r)%nat -> a_ns A !! i = Some n -> a_ns A' !! i = Some n' ->
    0 < sh_lock n' -> 0 < sh_lock n) as Hlock.
  2: { intros i n n'. by apply (Hlock (S (a_ctr A - d i))); lia. }
  intros r. induction r as [|r IH]; intros i n n' Hr Hn Hn' Hp; [lia|].
  destruct (decide (i = a_root A)) as [->|Hne].
  { destruct (it_root HA) as (x & Hx & _ & _ & Hxl). simplify_eq. lia. }
  pose proof (HL i n Hn Hne) as E. pose proof (HL' i n' Hn') as E'. rewrite (sc_root _ _ HS) in E'. specialize (E' Hne).
  pose proof (locks_below_nonneg ps eagle A i HA). assert (0 <= handles_at hs i) by (unfold handles_at; lia).
  destruct (decide (0 < handles_at hs' i)) as [Hh|Hh].
  { apply handles_at_pos, Hsub, handles_at_pos in Hh. lia. }
  assert (0 < locks_below A' i) as Hb by lia. unfold locks_below in Hb.
  apply msum_pos in Hb as (j & m' & Hj & Hm'). case_decide as Hpar; [|lia].
  destruct (same_lookup _ _ _ _ (same_sym _ _ HS) Hj) as (m & Hm & Em).
  assert (sh_parent m = Some i) as Hpm by (injection Em; congruence).
  destruct (Hd j m Hm) as [Hjc Hjr]. specialize (Hjr i Hpm). destruct (Hd i n Hn) as [Hic _].
  assert (0 < sh_lock m) by (eapply IH; [|done..]; lia).
  assert (sh_lock m <= locks_below A i); [|lia]. unfold locks_below.
  etransitivity; [|apply (msum_ge _ _ j m); [|done]].
  - simpl. by rewrite decide_True.
  - intros k x Hk. case_decide; [|done]. exact (node_lock_nonneg _ _ A k x HA Hk).
Qed.

Lemma evictable_mono hs hs' A A' :
  inv ps eagle hs A -> inv ps eagle hs' A' -> same_contents A A' -> (forall h, h ∈ hs' -> h ∈ hs) -> a_ev A <= a_ev A'.
Proof.
  intros HI HI' HS Hsub. destruct (inv_s _ _ _ _ HI) as [-> _]. destruct (inv_s _ _ _ _ HI') as [-> _].
  apply msum_le.
  - intros i n Hn. destruct (same_lookup _ _ _ _ HS Hn) as (n' & Hn' & En). exists n'. split; [done|].
    unfold unlocked_len. rewrite (sc_root _ _ HS). case_decide; [done|].
    assert (sh_len n' = sh_len n) as -> by (unfold sh_len; f_equal; f_equal; injection En; congruence).
    pose proof (locked_mono hs hs' A A' HI HI' HS Hsub i n n' Hn Hn').
    pose proof (node_lock_nonneg _ _ A i n (inv_t _ _ _ _ HI) Hn).
    pose proof (node_lock_nonneg _ _ A' i n' (inv_t _ _ _ _ HI') Hn').
    assert (0 <= sh_len n) by (unfold sh_len; lia).
    destruct (Z.eqb_spec (sh_lock n) 0), (Z.eqb_spec (sh_lock n') 0); lia.
  - intros i n' Hn'. destruct (same_lookup _ _ _ _ (same_sym _ _ HS) Hn') as (n & Hn & _). eauto.
Qed.
End locked.

Section radix_laws.
Context {T : Type} `{!KVAllocator T}.
Context (cfg : Config) (now : nat -> Z) (available : T -> Z) (order : gmap ChildKey nat -> list nat).
Context (Hps : (0 < cfg_page_size cfg)%nat) (Hd : disable cfg = false).
(** Iterating over a dictionary gives every value. *)
Context (Horder : forall m, order m ≡ₚ (map_to_list m).*2).
(** The size of the pool. *)
Context (capacity : Z).
Local Abbreviation ps := (cfg_page_size cfg).
Local Abbreviation eagle := (is_eagle cfg).
Implicit Types s : Cache T.

Local Instance radix_pc : PrefixCache (Cache T) := radix_PrefixCache cfg now available order.

Definition radix_same (s s' : Cache T) : Prop := same_contents (abs s) (abs s') /\ frame s s'.
Definition parent_of (s : Cache T) (i : nat) : option nat := nodes s !! i ≫= parent.

Lemma ordered_child s i j m :
  nodes s !! i = Some m -> j ∈ ordered_children order (nodes s) i <-> exists ck, children m !! ck = Some j.
Proof.
  intros Hm. unfold ordered_children. rewrite Hm, Horder, list_elem_of_fmap. split.
  - intros ([ck j'] & -> & Hin%elem_of_map_to_list). eauto.
  - intros [ck Hck]. exists (ck, j). split; [done|]. by apply elem_of_map_to_list.
Qed.

Lemma radix_tree hs s : inv ps eagle hs (abs s) ->
  exists par d, tree_shape (fun i => is_Some (nodes s !! i)) (root_node s) (counter s) (ordered_children order (nodes s)) par d.
Proof.
  intros [HA _ _ _]. destruct (it_rank HA) as [d Hrk]. exists (parent_of s), d.
  assert (forall i m, nodes s !! i = Some m -> a_ns (abs s) !! i = Some (shape m)) as Habs by apply abs_lookup_1.
  assert (forall i j m, nodes s !! i = Some m -> j ∈ ordered_children order (nodes s) i <->
            is_Some (nodes s !! j) /\ parent_of s j = Some i) as Hch.
  { intros i j m Hm. rewrite (ordered_child s i j m Hm). split.
    - intros [ck Hck]. destruct (it_child HA i _ (Habs i m Hm) ck j Hck) as (cn & (jm & Hj & <-)%abs_lookup & Hp & _).
      split; [eauto|]. unfold parent_of. by rewrite Hj.
    - intros [[jm Hj] Hp]. unfold parent_of in Hp. rewrite Hj in Hp. simpl in Hp.
      assert (j <> a_root (abs s)) as Hne.
      { intros ->. destruct (it_root HA) as (r & (rm & Hr & <-)%abs_lookup & Hrp & _). simplify_eq. simpl in Hrp. congruence. }
      destruct (nk_parent (it_node HA j _ (Habs j jm Hj) Hne)) as (p & pn & ck & Hp' & Hpn & _ & Hc).
      simpl in Hp'. assert (p = i) as -> by congruence. rewrite (Habs i m Hm) in Hpn. injection Hpn as <-. eauto. }
  constructor.
  - destruct (it_root HA) as (r & (rm & Hr & _)%abs_lookup & _). eauto.
  - intros i [m Hm]. unfold ordered_children. rewrite Hm, Horder. apply NoDup_fmap_2_strong; [|apply NoDup_map_to_list].
    intros [k1 j1] [k2 j2] H1%elem_of_map_to_list H2%elem_of_map_to_list E. simpl in E. subst j2.
    destruct (it_child HA i _ (Habs i m Hm) k1 j1 H1) as (c1 & Hc1 & _ & E1).
    destruct (it_child HA i _ (Habs i m Hm) k2 j1 H2) as (c2 & Hc2 & _ & E2). congruence.
  - intros i j [m Hm]. by eapply Hch.
  - intros i [m Hm]. apply (Hrk i _ (Habs i m Hm)).
  - intros i [m Hm]. destruct (decide (i = root_node s)) as [|Hne]; [by left|right].
    destruct (nk_parent (it_node HA i _ (Habs i m Hm) Hne)) as (p & pn & ck & Hp & (pm & Hpn & _)%abs_lookup & _).
    exists p. unfold parent_of. rewrite Hm. eauto.
  - intros i p [m Hm] Hp. unfold parent_of in Hp. rewrite Hm in Hp. by apply (Hrk i _ (Habs i m Hm)).
Qed.

Lemma radix_node_abs s i : is_Some (nodes s !! i) <-> is_Some (a_ns (abs s) !! i).
Proof. simpl. by rewrite lookup_fmap, fmap_is_Some. Qed.

Lemma lookup_key_len k : (key_len (lookup_key cfg k) <= length (token_ids k))%nat.
Proof.
  unfold lookup_key. rewrite page_aligned_len by done. etransitivity; [rewrite Nat.mul_comm; by apply Nat.Div0.mul_div_le|].
  unfold maybe_to_bigram_view, key_len. destruct (eagle && negb (is_bigram k)); simpl; repeat case_match; lia.
Qed.

(** The slots of pool and tree are no more than the pool has. *)
Definition radix_ok (hs : list nat) (s : Cache T) : Prop :=
  inv ps eagle hs (abs s) /\ 0 <= available (kv_pool s) /\
  available (kv_pool s) + evictable_size_ s + protected_size_ s <= capacity.

Lemma radix_sizes hs s : inv ps eagle hs (abs s) -> 0 <= evictable_size_ s /\ 0 <= protected_size_ s.
Proof.
  intros HI. change (evictable_size_ s) with (a_ev (abs s)). change (protected_size_ s) with (a_pr (abs s)).
  destruct (inv_s _ _ _ _ HI) as [-> ->].
  split; apply msum_nonneg; intros i x _; unfold unlocked_len, locked_len, sh_len; repeat case_match; lia.
Qed.

Lemma radix_ok_same hs hs' s s' : radix_ok hs s -> radix_same s s' -> inv ps eagle hs' (abs s') -> radix_ok hs' s'.
Proof.
  intros (_ & Ha & Hc) [HS [F _]] HI. split; [done|]. rewrite F. split; [done|].
  pose proof (sc_total _ _ HS) as Ht. simpl in Ht. lia.
Qed.

#[refine] Definition radix_laws : PrefixCacheLaws (Cache T) := {|
  pc_ok := radix_ok;
  pc_node s i := is_Some (nodes s !! i);
  pc_same := radix_same;
  pc_loadable _ _ _ _ := False;
  pc_capacity := capacity |}.
Proof.
  - intros hs s (HI & Ha & Hc). destruct (radix_sizes hs s HI). unfold pc_budget. simpl. lia.
  - intros hs hs' s Hp [[I1 [I2 I3] I4 I5] Hc]. split; [|done]. constructor; try done. split.
    + intros h Hh. apply I2. by rewrite Hp.
    + intros i n Hi Hr. rewrite <-(handles_at_perm _ _ i Hp). auto.
  - intros hs s ([HA _ _ _] & _). destruct (it_root HA) as (r & Hr & _). apply radix_node_abs. by eexists.
  - intros hs s [HI _]. by apply (radix_tree hs).
  - intros hs s k (HI & Ha & Hc) Hk.
    destruct (match_prefix_ok cfg now Hps hs s k HI Hd (or_introl Hk)) as (r & s' & m & E & [F _] & HW & _).
    pose proof (wk_ext _ _ _ _ _ _ _ _ _ _ HW) as [_ Hev Hpr _ _]. simpl in Hev, Hpr.
    exists (mkHiMatch r 0), s'. simpl. erewrite py_bind_Ret by exact E. split_and!; [done| | | | | |done].
    + split; [apply HW|]. by rewrite F, Hev, Hpr.
    + unfold pc_budget. simpl. by rewrite F, Hev.
    + intros i. rewrite !radix_node_abs. by apply extends_some, HW.
    + apply radix_node_abs. exact (path_end _ _ _ _ _ _ (wk_path _ _ _ _ _ _ _ _ _ _ HW)).
    + destruct (wk_longest _ _ _ _ _ _ _ _ _ _ HW) as [_ Hm [Hlen _] _]. rewrite length_take, length_units in Hlen.
      rewrite Nat.add_0_r. etransitivity; [|apply (lookup_key_len k)]. lia.
  - intros s. split; [apply same_refl|done].
  - intros s s' [HS HF]. split; [by apply same_sym|]. destruct HF. by split.
  - intros s s1 s2 [H1 F1] [H2 F2]. split; [by eapply same_trans|by eapply frame_trans].
  - intros s s' i [HS _]. rewrite !radix_node_abs. intros [n Hn]. destruct (same_lookup _ _ _ _ HS Hn) as (n' & Hn' & _). by eexists.
  - done.
  - intros hs s i Hok Hi. apply radix_node_abs in Hi.
    destruct (inc_lock_ref_ok cfg hs s i (proj1 Hok) Hd Hi) as (s' & E & HI' & HS & HF).
    exists s'. simpl. unfold drop_result. erewrite py_bind_Ret by exact E. split_and!; [done| |done]. by eapply radix_ok_same.
  - intros hs hs' s i Hok Hp. destruct (dec_lock_ref_ok cfg hs hs' s i (proj1 Hok) Hd Hp) as (s' & E & HI' & HS & HF).
    exists s'. simpl. unfold drop_result. erewrite py_bind_Ret by exact E. split_and!; [done| |done]. by eapply radix_ok_same.
  - intros hs hs' s s' [HS [F _]] [HI _] [HI' _] Hsub. unfold pc_budget. simpl. rewrite F.
    pose proof (evictable_mono _ _ _ _ _ _ HI HI' HS Hsub) as Hev. simpl in Hev. lia.
  - done.
Defined.
End radix_laws.
