(* ===== verification/SchedPolicy.v ===== *)
(** * Scheduling policies (managers/schedule_policy.py)

    [SchedulePolicy] orders the waiting queue: by priority and arrival, by longest cached
    prefix (requests that share a prefix with another waiting request are held back), by a
    depth-first walk of the cache weighted by the requests below each node, by longest
    output, at random, or by routing key.

    A request is the record of the fields the scheduler reads and writes; methods that assign
    to a request return the changed record.  The random shuffle is a parameter.  Times are
    compared only, so they are integers. *)

From stdpp Require Import base tactics list gmap strings.
From Stdlib Require Import ZArith Lia.
From S2P Require Import Prelude PyStr RadixKey TreeNode EvictPolicy Allocator AllocatorProofs KVEvents.
From S2P Require Import RadixTree ReqPool HiController HiRadix PrefixCache.

(** ** Requests *)

Record SReq := mkSReq {
  rid : string;
  q_origin : list Z;
  q_output : list Z;
  q_fill : list Z;
  q_extra : option string;
  q_prefix : list Z;
  q_last : option nat;
  q_last_host : option nat;
  q_best : option nat;
  q_host_hit : nat;
  q_extend : Z;
  q_protected : nat;
  q_max_new : Z;
  q_ignore_eos : bool;
  q_priority : option Z;
  q_entry_time : Z;
  q_routing : option string;
  q_finished : bool;
  q_logprob_start : Z;
  q_extend_logprob : Z;
  q_return_logprob : bool;
  q_streaming : bool;
  q_overrides : bool }.

(** [match_prefix_for_req] assigns the result of a match. *)
Definition set_match (m : HiMatchResult) (r : SReq) : SReq :=
  mkSReq (rid r) (q_origin r) (q_output r) (q_fill r) (q_extra r) (device_indices (hm_match m))
    (Some (last_device_node (hm_match m))) (Some (last_host_node (hm_match m)))
    (Some (best_match_node (hm_match m))) (host_hit_length m) (q_extend r) (q_protected r)
    (q_max_new r) (q_ignore_eos r) (q_priority r) (q_entry_time r) (q_routing r) (q_finished r)
    (q_logprob_start r) (q_extend_logprob r) (q_return_logprob r) (q_streaming r) (q_overrides r).

Definition zlen {A} (l : list A) : Z := Z.of_nat (length l).

Definition q_set_extend (n lp : Z) (r : SReq) : SReq :=
  mkSReq (rid r) (q_origin r) (q_output r) (q_fill r) (q_extra r) (q_prefix r) (q_last r)
    (q_last_host r) (q_best r) (q_host_hit r) n (q_protected r) (q_max_new r) (q_ignore_eos r)
    (q_priority r) (q_entry_time r) (q_routing r) (q_finished r) (q_logprob_start r) lp
    (q_return_logprob r) (q_streaming r) (q_overrides r).

(** [Req.set_extend_input_len] (managers/schedule_batch.py) *)
Definition set_extend_input_len (n : Z) (r : SReq) : SReq :=
  let logprob_start_len :=
    if q_logprob_start r =? -1 then zlen (q_fill r)
    else Z.max (q_logprob_start r) (zlen (q_prefix r)) in
  q_set_extend n (Z.min (logprob_start_len - zlen (q_prefix r)) n) r.

(** ** Python's stable sort with a key *)

Section sort.
Context {A K : Type} (lt : K -> K -> bool) (key : A -> K).

Fixpoint insert_on (x : A) (l : list A) : list A :=
  match l with
  | [] => [x]
  | y :: l' => if lt (key y) (key x) then y :: insert_on x l' else x :: y :: l'
  end.
Definition sort_on (l : list A) : list A := foldr insert_on [] l.
End sort.

(** Comparison of tuples. *)
Definition lt_pair {K1 K2} (lt1 : K1 -> K1 -> bool) (lt2 : K2 -> K2 -> bool) (a b : K1 * K2) : bool :=
  lt1 a.1 b.1 || (negb (lt1 b.1 a.1) && lt2 a.2 b.2).
(** An integer or [float("inf")]. *)
Definition lt_inf (a b : option Z) : bool :=
  match a, b with
  | Some x, Some y => x <? y
  | Some _, None => true
  | None, _ => false
  end.

(** ** SchedulePolicy *)

Inductive Policy := LPM | DFS_WEIGHT | FCFS | LOF | RANDOM | ROUTING_KEY.
#[global] Instance Policy_eq_dec : EqDecision Policy.
Proof. solve_decision. Defined.

Definition cache_aware (p : Policy) : bool := match p with LPM | DFS_WEIGHT => true | _ => false end.

Definition _validate_and_adjust_policy (policy : string) (tree_disabled : bool) : Outcome Policy :=
  if bool_decide (policy = "lpm"%string) then Ret (if tree_disabled then FCFS else LPM)
  else if bool_decide (policy = "dfs-weight"%string) then Ret (if tree_disabled then FCFS else DFS_WEIGHT)
  else if bool_decide (policy = "fcfs"%string) then Ret FCFS
  else if bool_decide (policy = "lof"%string) then Ret LOF
  else if bool_decide (policy = "random"%string) then Ret RANDOM
  else if bool_decide (policy = "routing-key"%string) then Ret ROUTING_KEY
  else Raise ValueError.

Definition _determine_active_policy (policy : Policy) (waiting_queue : list SReq) : Policy :=
  if bool_decide (policy = LPM) && (128 <? zlen waiting_queue) then FCFS else policy.

(** Environment settings. *)
Record SchedEnv := mkSchedEnv {
  in_batch_check_threshold : Z;
  in_batch_deprioritize_threshold : Z;
  clip_max_new_tokens : Z;
  radix_force_miss : bool }.

(** *** Sorts of the queue *)

Definition longest_prefix_key (dep : gset string) (r : SReq) : option Z :=
  if bool_decide (rid r ∈ dep) then None else Some (- zlen (q_prefix r)).
Definition _sort_by_longest_prefix (waiting_queue : list SReq) (dep : gset string) : list SReq :=
  sort_on lt_inf (longest_prefix_key dep) waiting_queue.

(** Keys are computed before sorting; [None * int] raises. *)
Definition signed_priority (sign : Z) (r : SReq) : Outcome Z :=
  match q_priority r with Some p => Ret (p * sign) | None => Raise TypeError end.

Fixpoint with_keys {A K} (key : A -> Outcome K) (l : list A) : Outcome (list (K * A)) :=
  match l with
  | [] => Ret []
  | x :: l' => k ← key x; kl ← with_keys key l'; Ret ((k, x) :: kl)
  end.
Definition sort_keyed {A K} (lt : K -> K -> bool) (key : A -> Outcome K) (l : list A) : Outcome (list A) :=
  kl ← with_keys key l; Ret (sort_on lt fst kl).*2.

Definition _sort_by_longest_output (waiting_queue : list SReq) (enable_priority : bool) (sign : Z) : Outcome (list SReq) :=
  if enable_priority then
    sort_keyed (lt_pair Z.ltb Z.ltb) (fun r => p ← signed_priority sign r; Ret (p, - q_max_new r)) waiting_queue
  else Ret (sort_on Z.ltb (fun r => - q_max_new r) waiting_queue).

Definition _sort_by_priority_and_fcfs (waiting_queue : list SReq) (sign : Z) : Outcome (list SReq) :=
  sort_keyed (lt_pair Z.ltb Z.ltb) (fun r => p ← signed_priority sign r; Ret (p, q_entry_time r)) waiting_queue.

(** [Counter] of the nonempty routing keys of the running batch. *)
Definition truthy_key (k : option string) : option string :=
  match k with Some ""%string | None => None | Some s => Some s end.
Definition routing_key_counts (running : list SReq) : gmap string Z :=
  foldl (fun m r => match truthy_key (q_routing r) with
                    | Some k => <[k := default 0 (m !! k) + 1]> m
                    | None => m
                    end) ∅ running.
Definition routing_sort_key (counts : gmap string Z) (r : SReq) : Z * Z * string :=
  match truthy_key (q_routing r) with
  | Some k => match counts !! k with Some n => (0, - n, k) | None => (1, 0, k) end
  | None => (1, 0, ""%string)
  end.
Definition _sort_by_routing_key (waiting_queue running : list SReq) : list SReq :=
  let counts := routing_key_counts running in
  if bool_decide (counts = ∅) then waiting_queue
  else sort_on (lt_pair (lt_pair Z.ltb Z.ltb) String.ltb) (routing_sort_key counts) waiting_queue.

Section policy.
Context {C : Type} `{!PrefixCache C}.
Context (env : SchedEnv) (is_chunk_cache : bool) (now : nat -> Z) (sha256 : list Z -> string).
Context (shuffle : list SReq -> list SReq).

(** *** Depth-first order *)

(** Requests by their last node, in order of first occurrence. *)
Definition last_node_to_reqs (waiting_queue : list SReq) : list (option nat * list SReq) :=
  foldl (fun d r => dict_set (q_last r) (default [] (dict_get (q_last r) d) ++ [r]) d) [] waiting_queue.
Definition initial_weights (d : list (option nat * list SReq)) : list (option nat * Z) :=
  (fun kv => (kv.1, zlen kv.2)) <$> d.
Definition weight_of (w : list (option nat * Z)) (i : nat) : Z := default 0 (dict_get (Some i) w).

Fixpoint _calc_weight (fuel : nat) (c : C) (cur : nat) (w : list (option nat * Z)) : Outcome (list (option nat * Z)) :=
  match fuel with
  | O => OutOfFuel
  | S f =>
      (fix loop (cs : list nat) w :=
         match cs with
         | [] => Ret w
         | child :: cs' =>
             w1 ← _calc_weight f c child w;
             loop cs' (dict_set (Some cur) (weight_of w1 cur + weight_of w1 child) w1)
         end) (pc_children c cur) w
  end.

Fixpoint _get_dfs_priority (fuel : nat) (c : C) (cur : nat) (w : list (option nat * Z))
    (d : list (option nat * list SReq)) (q : list SReq) : Outcome (list SReq) :=
  match fuel with
  | O => OutOfFuel
  | S f =>
      let children := sort_on Z.ltb (fun x => - weight_of w x) (pc_children c cur) in
      q' ← (fix loop (cs : list nat) (q : list SReq) :=
              match cs with
              | [] => Ret q
              | child :: cs' => q1 ← _get_dfs_priority f c child w d q; loop cs' q1
              end) children q;
      Ret (q' ++ default [] (dict_get (Some cur) d))
  end.

(** The recursion is as deep as the tree. *)
Definition _sort_by_dfs_weight (waiting_queue : list SReq) (c : C) : Outcome (list SReq) :=
  let d := last_node_to_reqs waiting_queue in
  w ← _calc_weight (S (pc_count c)) c (pc_root c) (initial_weights d);
  _get_dfs_priority (S (pc_count c)) c (pc_root c) w d [].

(** *** Prefix matches *)

(** [RadixCache.create_simulated()]: pages of one token, no pools. *)
Definition sim_cfg : Config := mkConfig false 1 false false false false LRUStrategy.

(** The cache of the server, and the tree over the waiting queue. *)
Definition PolState : Type := C * Cache unit.
Definition on_cache {A} (m : PyM C A) : PyM PolState A := fun s => let '(r, c) := m s.1 in (r, (c, s.2)).
Definition on_sim {A} (m : PyM (Cache unit) A) : PyM PolState A := fun s => let '(r, t) := m s.2 in (r, (s.1, t)).

Definition match_prefix_for_req (r : SReq) (token_ids : list Z) : PyM C SReq :=
  m ← pc_match (mkRadixKey token_ids (q_extra r) false);
  c ← py_get;
  mret (set_match (if radix_force_miss env then zero_match_result is_chunk_cache c m else m) r).

(** One request of the queue; the set is [temporary_deprioritized]. *)
Definition prefix_match_step (r : SReq) (dep : gset string) : PyM PolState (SReq * gset string) :=
  let prefix_ids := q_origin r ++ q_output r in
  r ← on_cache (match_prefix_for_req r prefix_ids);
  if zlen (q_prefix r) <=? in_batch_check_threshold env then
    m ← on_sim (match_prefix sim_cfg now (mkRadixKey prefix_ids (q_extra r) false));
    let matched := if radix_force_miss env then take 0 (device_indices m) else device_indices m in
    if in_batch_deprioritize_threshold env <=? zlen matched then mret (r, dep ∪ {[rid r]})
    else
      _ ← on_sim (RadixTree.insert sim_cfg now sha256
            (mkInsertParams (mkRadixKey prefix_ids (q_extra r) false)
               (Some (replicate (length prefix_ids) 0)) (Some 0) false));
      mret (r, dep)
  else mret (r, dep).

Fixpoint prefix_match_loop (waiting_queue : list SReq) (dep : gset string) : PyM PolState (list SReq * gset string) :=
  match waiting_queue with
  | [] => mret ([], dep)
  | r :: q =>
      x ← prefix_match_step r dep;
      y ← prefix_match_loop q x.2;
      mret (x.1 :: y.1, y.2)
  end.

Definition _compute_prefix_matches (waiting_queue : list SReq) : PyM PolState (list SReq * gset string) :=
  _ ← on_sim (reset sim_cfg now);
  prefix_match_loop waiting_queue ∅.

(** *** [calc_priority] *)

Record SchedulePolicy := mkSchedulePolicy {
  sp_policy : Policy;
  enable_priority_scheduling : bool;
  schedule_low_priority_values_first : bool }.

Definition priority_sign (sp : SchedulePolicy) : Z := if schedule_low_priority_values_first sp then 1 else -1.

Definition calc_priority (sp : SchedulePolicy) (waiting_queue : list SReq) (running : option (list SReq)) :
    PyM PolState (bool * list SReq) :=
  if bool_decide (sp_policy sp = FCFS) then
    if enable_priority_scheduling sp
    then q ← py_lift (_sort_by_priority_and_fcfs waiting_queue (priority_sign sp)); mret (false, q)
    else mret (false, waiting_queue)
  else
    match _determine_active_policy (sp_policy sp) waiting_queue with
    | LPM =>
        x ← _compute_prefix_matches waiting_queue;
        mret (true, _sort_by_longest_prefix x.1 x.2)
    | DFS_WEIGHT =>
        x ← _compute_prefix_matches waiting_queue;
        s ← py_get;
        q ← py_lift (_sort_by_dfs_weight x.1 s.1);
        mret (true, q)
    | FCFS => mret (false, waiting_queue)
    | LOF =>
        q ← py_lift (_sort_by_longest_output waiting_queue (enable_priority_scheduling sp) (priority_sign sp));
        mret (false, q)
    | RANDOM => mret (false, shuffle waiting_queue)
    | ROUTING_KEY =>
        mret (false, match running with Some b => _sort_by_routing_key waiting_queue b | None => waiting_queue end)
    end.
End policy.
