(* ===== verification/SchedProofs.v ===== *)
(** * Properties of the scheduling policies

    Sorting by a key is stable and sorts; the depth-first walk visits every node of the cache
    once; whatever the policy, [calc_priority] returns the requests of the queue, each
    exactly once, with nothing but their match results changed. *)

From stdpp Require Import base tactics list list_numbers gmap strings sorting.
From Stdlib Require Import ZArith Lia OrdersEx.
From S2P Require Import Prelude PyStr RadixKey TreeNode EvictPolicy Allocator AllocatorProofs KVEvents.
From S2P Require Import RadixTree RadixInv RadixPaths RadixSlots RadixWalk RadixProofs RadixLocks RadixClaims ReqPool.
From S2P Require Import HiController HiRadix PrefixCache CacheLaws SchedPolicy.

(** ** Stable sorting *)

(** A strict weak order: ties are transitive. *)
Class WeakOrder {K} (lt : K -> K -> bool) : Prop := {
  wo_asym a b : lt a b = true -> lt b a = false;
  wo_cotrans a b c : lt a c = true -> lt a b = true \/ lt b c = true }.

#[global] Instance Zltb_weak : WeakOrder Z.ltb.
Proof.
  split.
  - intros a b. rewrite Z.ltb_lt, Z.ltb_ge. lia.
  - intros a b c. rewrite !Z.ltb_lt. lia.
Qed.

#[global] Instance lt_inf_weak : WeakOrder lt_inf.
Proof.
  split.
  - intros [a|] [b|]; simpl; try done. apply wo_asym.
  - intros [a|] [b|] [c|]; simpl; auto. apply wo_cotrans.
Qed.

#[global] Instance lt_pair_weak {K1 K2} (lt1 : K1 -> K1 -> bool) (lt2 : K2 -> K2 -> bool) :
  WeakOrder lt1 -> WeakOrder lt2 -> WeakOrder (lt_pair lt1 lt2).
Proof.
  intros W1 W2. unfold lt_pair. split.
  - intros [a1 a2] [b1 b2]. simpl. pose proof (wo_asym (lt := lt1) a1 b1). pose proof (wo_asym (lt := lt2) a2 b2).
    destruct (lt1 a1 b1), (lt1 b1 a1), (lt2 a2 b2), (lt2 b2 a2); naive_solver.
  - intros [a1 a2] [b1 b2] [c1 c2]. simpl.
    pose proof (wo_cotrans (lt := lt1) a1 b1 c1). pose proof (wo_cotrans (lt := lt2) a2 b2 c2).
    pose proof (wo_cotrans (lt := lt1) c1 b1 a1). pose proof (wo_cotrans (lt := lt1) b1 c1 a1). pose proof (wo_cotrans (lt := lt1) b1 a1 c1).
    pose proof (wo_cotrans (lt := lt1) c1 a1 b1). pose proof (wo_asym (lt := lt1) a1 b1).
    pose proof (wo_asym (lt := lt1) b1 c1). pose proof (wo_asym (lt := lt1) a1 c1).
    destruct (lt1 a1 b1), (lt1 b1 a1), (lt1 b1 c1), (lt1 c1 b1), (lt1 a1 c1), (lt1 c1 a1), (lt2 a2 b2), (lt2 b2 c2); naive_solver.
Qed.

#[global] Instance string_ltb_weak : WeakOrder String.ltb.
Proof.
  assert (forall a b, String.compare a b = String_as_OT.compare a b) as Hc.
  { induction a as [|x a IH]; intros [|y b]; cbn; done. }
  assert (forall a b, String.ltb a b = true <-> String_as_OT.lt a b) as Hlt.
  { intros a b. unfold String.ltb, String_as_OT.lt. rewrite Hc. by destruct (String_as_OT.compare a b). }
  split.
  - intros a b Hab. apply not_true_iff_false. rewrite Hlt in Hab |- *. intros Hba. by apply (irreflexivity String_as_OT.lt a), (transitivity Hab).
  - intros a b c. rewrite !Hlt. intros Hac. destruct (String_as_OT.compare_spec a b) as [->|?|Hba]; [by right|by left|right]. by transitivity a.
Qed.

Section sorting.
Context {A K : Type} (lt : K -> K -> bool) (key : A -> K).

Definition in_order (x y : A) : Prop := lt (key y) (key x) = false.

Lemma insert_on_perm x l : insert_on lt key x l ≡ₚ x :: l.
Proof. induction l as [|y l IH]; simpl; [done|]. case_match; [|done]. rewrite IH. constructor. Qed.

Lemma sort_on_perm l : sort_on lt key l ≡ₚ l.
Proof. induction l as [|x l IH]; simpl; [done|]. by rewrite insert_on_perm, IH. Qed.

Context `{!WeakOrder lt}.

Lemma insert_on_sorted x l : StronglySorted in_order l -> StronglySorted in_order (insert_on lt key x l).
Proof.
  induction 1 as [|y l Hl IH Hy]; simpl; [by repeat constructor|]. destruct (lt (key y) (key x)) eqn:E.
  - constructor; [done|]. apply Forall_forall. intros z. rewrite insert_on_perm. intros [->|Hz]%elem_of_cons.
    + by apply wo_asym.
    + by apply (proj1 (Forall_forall _ _) Hy).
  - constructor; [by constructor|]. constructor; [done|]. apply Forall_forall. intros z Hz.
    pose proof (proj1 (Forall_forall _ _) Hy z Hz) as Hyz. unfold in_order in *.
    destruct (lt (key z) (key x)) eqn:E'; [|done]. destruct (wo_cotrans _ (key y) _ E'); congruence.
Qed.

Lemma sort_on_sorted l : StronglySorted in_order (sort_on lt key l).
Proof. induction l; simpl; [constructor|]. by apply insert_on_sorted. Qed.

(** Elements with tied keys keep their order. *)
Definition tied (k : K) (x : A) : bool := negb (lt k (key x)) && negb (lt (key x) k).

Lemma insert_on_stable k x l :
  StronglySorted in_order l -> List.filter (tied k) (insert_on lt key x l) = List.filter (tied k) (x :: l).
Proof.
  induction 1 as [|y l Hl IH Hy]; [done|]. simpl insert_on. destruct (lt (key y) (key x)) eqn:E; [|done].
  cbn [List.filter]. rewrite IH. cbn [List.filter].
  destruct (tied k x) eqn:Ex, (tied k y) eqn:Ey; try done. exfalso. unfold tied in *.
  apply andb_true_iff in Ex as [X1%negb_true_iff X2%negb_true_iff]. apply andb_true_iff in Ey as [Y1%negb_true_iff Y2%negb_true_iff].
  destruct (wo_cotrans _ k _ E); congruence.
Qed.

Lemma sort_on_stable k l : List.filter (tied k) (sort_on lt key l) = List.filter (tied k) l.
Proof.
  induction l as [|x l IH]; [done|]. simpl sort_on. rewrite insert_on_stable by apply sort_on_sorted.
  cbn [List.filter]. by rewrite IH.
Qed.
End sorting.

Lemma with_keys_ok {A K} (key : A -> Outcome K) l : (forall x, x ∈ l -> exists k, key x = Ret k) ->
  exists kl, with_keys key l = Ret kl /\ kl.*2 = l /\ forall k x, (k, x) ∈ kl -> key x = Ret k.
Proof.
  induction l as [|x l IH]; intros Hk; [exists []; split_and!; set_solver|].
  destruct (Hk x) as [k Hx]; [left|]. destruct IH as (kl & E & E2 & Hkl); [set_solver|].
  exists ((k, x) :: kl). simpl. rewrite Hx. simpl. rewrite E. simpl. split_and!; [done|by simpl; f_equal|].
  intros k' x' [[= -> ->]|Hin]%elem_of_cons; auto.
Qed.

Lemma sort_keyed_perm {A K} (lt : K -> K -> bool) (key : A -> Outcome K) l :
  (forall x, x ∈ l -> exists k, key x = Ret k) -> exists l', sort_keyed lt key l = Ret l' /\ l' ≡ₚ l.
Proof.
  intros Hk. destruct (with_keys_ok key l Hk) as (kl & E & E2 & _). unfold sort_keyed. rewrite E. simpl.
  eexists. split; [done|]. by rewrite sort_on_perm, E2.
Qed.

(** ** Depth-first walks of a tree *)

Lemma elem_of_concat_fmap {A B} (f : A -> list B) l y : y ∈ concat (f <$> l) <-> exists x, x ∈ l /\ y ∈ f x.
Proof.
  induction l as [|x l IH]; simpl; [set_solver|]. rewrite elem_of_app, IH. set_solver.
Qed.

Fixpoint dfs (ch : nat -> list nat) (fuel i : nat) : list nat :=
  match fuel with
  | O => []
  | S f => concat (dfs ch f <$> ch i) ++ [i]
  end.

Section walk.
Context {P root N ch par d} (HT : tree_shape P root N ch par d).

(** [below i j]: [j] is [i] or a descendant of it. *)
Inductive below (i : nat) : nat -> Prop :=
  | below_refl : P i -> below i i
  | below_step j p : P j -> par j = Some p -> below i p -> below i j.

Lemma below_node i j : below i j -> P i /\ P j.
Proof. induction 1; naive_solver. Qed.

Lemma below_depth i j : below i j -> (d i <= d j)%nat.
Proof. induction 1 as [|j p Hj Hp _ IH]; [done|]. pose proof (ts_rank _ _ _ _ _ _ HT j p Hj Hp). lia. Qed.

(** The ancestors of a node form a chain. *)
Lemma below_chain i i' j : below i j -> below i' j -> below i i' \/ below i' i.
Proof.
  induction 1 as [Hi|j p Hj Hp Hb IH]; intros H'; [by right|].
  inversion H' as [|j' p' _ Hp' Hb']; subst; [left; by eapply below_step|]. apply IH. congruence.
Qed.

Lemma below_sibling i c c' j : P i -> c ∈ ch i -> c' ∈ ch i -> below c j -> below c' j -> c = c'.
Proof.
  intros Hi Hc Hc' Hb Hb'. apply (ts_child _ _ _ _ _ _ HT) in Hc as [Pc Hpc], Hc' as [Pc' Hpc']; [|done..].
  assert (forall a b, P a -> P b -> par a = Some i -> par b = Some i -> below a b -> a = b) as Hw.
  { intros a b Pa Pb Ha Hb0 Hab. inversion Hab as [|? p Pj Hp Hbp]; subst; [done|]. assert (p = i) as -> by congruence.
    pose proof (below_depth _ _ Hbp). pose proof (ts_rank _ _ _ _ _ _ HT a i Pa Ha). lia. }
  destruct (below_chain _ _ _ Hb Hb'); [by apply Hw|symmetry; by apply Hw].
Qed.

Lemma below_child i j : P i -> below i j <-> j = i \/ exists c, c ∈ ch i /\ below c j.
Proof.
  intros Hi. split.
  - induction 1 as [|j p Hj Hp Hb IH]; [by left|]. right. destruct IH as [->|(c & Hc & Hcb)].
    + exists j. split; [by apply (ts_child _ _ _ _ _ _ HT)|by constructor].
    + exists c. split; [done|]. by eapply below_step.
  - intros [->|(c & Hc & Hb)]; [by constructor|]. apply (ts_child _ _ _ _ _ _ HT) in Hc as [Pc Hp]; [|done].
    induction Hb as [|j p Hj Hp' _ IH]; [eapply below_step; [done|done|by constructor]|by eapply below_step].
Qed.

Lemma dfs_spec fuel : forall i, P i -> (N - d i < fuel)%nat ->
  NoDup (dfs ch fuel i) /\ forall j, j ∈ dfs ch fuel i <-> below i j.
Proof.
  induction fuel as [|f IH]; intros i Hi Hf; [lia|]. simpl.
  assert (forall c, c ∈ ch i -> P c /\ (N - d c < f)%nat) as Hc.
  { intros c Hc. apply (ts_child _ _ _ _ _ _ HT) in Hc as [Pc Hp]; [|done].
    pose proof (ts_rank _ _ _ _ _ _ HT c i Pc Hp). pose proof (ts_depth _ _ _ _ _ _ HT c Pc). split; [done|lia]. }
  assert (forall j, j ∈ concat (dfs ch f <$> ch i) <-> exists c, c ∈ ch i /\ below c j) as Hin.
  { intros j. rewrite elem_of_concat_fmap. split; intros (c & Hci & Hj); exists c; (split; [done|]); destruct (Hc c Hci); by apply IH. }
  split.
  - apply NoDup_app. split_and!; [|intros j Hj ->%list_elem_of_singleton|apply NoDup_singleton].
    + apply NoDup_concat_fmap; [by apply (ts_nodup _ _ _ _ _ _ HT)| |].
      * intros c Hci. destruct (Hc c Hci). by apply IH.
      * intros c c' j Hci Hci' Hj Hj'. destruct (Hc c Hci) as [Pc Fc], (Hc c' Hci') as [Pc' Fc'].
        apply (below_sibling i c c' j); [done|done|done|by apply (IH c Pc Fc)|by apply (IH c' Pc' Fc')].
    + apply Hin in Hj as (c & Hci & Hb). apply below_depth in Hb. apply (ts_child _ _ _ _ _ _ HT) in Hci as [Pc Hp]; [|done].
      pose proof (ts_rank _ _ _ _ _ _ HT c i Pc Hp). lia.
  - intros j. rewrite elem_of_app, Hin, list_elem_of_singleton, (below_child i j Hi). naive_solver.
Qed.

(** From the root every node is visited. *)
Lemma below_root j : P j -> below root j.
Proof.
  intros Hj. remember (d j) as n eqn:En. revert j En Hj. induction (lt_wf n) as [n _ IH]. intros j -> Hj.
  destruct (ts_parent _ _ _ _ _ _ HT j Hj) as [->|(p & Hp & Pp)]; [by constructor|].
  eapply below_step; [done|done|]. by apply (IH (d p)); [eapply ts_rank|..].
Qed.
End walk.

(** Reordering the children keeps the tree. *)
Lemma tree_shape_perm {P root N ch par d} ch' :
  tree_shape P root N ch par d -> (forall i, ch' i ≡ₚ ch i) -> tree_shape P root N ch' par d.
Proof.
  intros [H1 H2 H3 H4 H5 H6] Hp. constructor; try done.
  - intros i Hi. rewrite Hp. auto.
  - intros i j Hi. rewrite Hp. auto.
Qed.

(** ** Requests grouped by their last node *)

Section groups.
Context {A : Type} (key : A -> option nat).

Definition group (k : option nat) (l : list A) : list A := List.filter (fun r => bool_decide (key r = k)) l.

Lemma filter_partition (p : A -> bool) (l : list A) :
  List.filter p l ++ List.filter (fun x => negb (p x)) l ≡ₚ l.
Proof.
  induction l as [|x l IH]; simpl; [done|]. destruct (p x); simpl; [by rewrite IH|].
  rewrite <-Permutation_middle. by rewrite IH.
Qed.

Lemma elem_of_filter_b (p : A -> bool) l x : x ∈ List.filter p l <-> x ∈ l /\ p x = true.
Proof. by rewrite !list_elem_of_In, List.filter_In. Qed.

Lemma filter_filter_b (p q : A -> bool) l :
  (forall x, p x = true -> q x = true) -> List.filter p (List.filter q l) = List.filter p l.
Proof.
  intros Hpq. induction l as [|x l IH]; simpl; [done|]. destruct (q x) eqn:Eq; simpl; rewrite IH; [done|].
  destruct (p x) eqn:Ep; [|done]. by rewrite Hpq in Eq.
Qed.

(** Every element is in the group of its key. *)
Lemma concat_groups_perm (ks : list nat) : forall l,
  NoDup ks -> (forall r, r ∈ l -> exists i, key r = Some i /\ i ∈ ks) ->
  concat ((fun i => group (Some i) l) <$> ks) ≡ₚ l.
Proof.
  induction ks as [|i ks IH]; intros l Hnd Hin.
  { destruct l as [|r l]; [done|]. destruct (Hin r) as (i & _ & Hi); [left|]. by apply not_elem_of_nil in Hi. }
  apply NoDup_cons in Hnd as [Hi Hnd]. rewrite fmap_cons. cbn [concat]. set (p := fun r => bool_decide (key r = Some i)).
  etransitivity; [|apply (filter_partition p l)]. apply Permutation_app; [done|].
  assert ((fun j => group (Some j) l) <$> ks = (fun j => group (Some j) (List.filter (fun x => negb (p x)) l)) <$> ks) as ->.
  { apply list_fmap_ext. intros _ j Hj%list_elem_of_lookup_2. unfold group. symmetry. apply filter_filter_b.
    intros x Hx%bool_decide_eq_true. apply negb_true_iff, bool_decide_eq_false. rewrite Hx. congruence. }
  apply IH; [done|]. intros r [Hr Hp%negb_true_iff%bool_decide_eq_false]%elem_of_filter_b.
  destruct (Hin r Hr) as (j & Hj & [->|Hjk]%elem_of_cons); [done|eauto].
Qed.
End groups.

Lemma foldl_snoc {A B} (f : A -> B -> A) a l x : foldl f a (l ++ [x]) = f (foldl f a l) x.
Proof. by rewrite foldl_app. Qed.

(** The dictionary of [_sort_by_dfs_weight] holds the groups. *)
Lemma last_node_to_reqs_spec (q : list SReq) k :
  default [] (dict_get k (last_node_to_reqs q)) = group q_last k q.
Proof.
  induction q as [|r q IH] using rev_ind; [done|]. unfold last_node_to_reqs, group in *.
  rewrite foldl_snoc, List.filter_app. cbn [List.filter]. fold (last_node_to_reqs q) in *.
  destruct (decide (q_last r = k)) as [->|Hne].
  - rewrite dict_get_set_eq, bool_decide_true by done. simpl. by rewrite <-IH.
  - rewrite dict_get_set_ne, bool_decide_false, app_nil_r by congruence. exact IH.
Qed.

Lemma initial_weights_spec (q : list SReq) i :
  weight_of (initial_weights (last_node_to_reqs q)) i = zlen (group q_last (Some i) q).
Proof.
  rewrite <-last_node_to_reqs_spec. unfold weight_of, initial_weights.
  induction (last_node_to_reqs q) as [|[k v] l IH]; [done|]. simpl. case_decide; [done|]. exact IH.
Qed.

(** ** The depth-first order *)

Section dfs_order.
Context {C : Type} `{!PrefixCache C}.
Context (c : C) {P : nat -> Prop} {par : nat -> option nat} {d : nat -> nat}.
Context (HT : tree_shape P (pc_root c) (pc_count c) (pc_children c) par d).
Local Abbreviation N := (pc_count c).

Lemma child_fuel i j f : P i -> j ∈ pc_children c i -> (N - d i < S f)%nat -> P j /\ (N - d j < f)%nat.
Proof.
  intros Hi Hj Hf. apply (ts_child _ _ _ _ _ _ HT) in Hj as [Pj Hp]; [|done].
  pose proof (ts_rank _ _ _ _ _ _ HT j i Pj Hp). pose proof (ts_depth _ _ _ _ _ _ HT j Pj). split; [done|lia].
Qed.

(** Children in the order of their weights. *)
Definition by_weight (w : list (option nat * Z)) (i : nat) : list nat :=
  sort_on Z.ltb (fun x => - weight_of w x) (pc_children c i).

Lemma get_dfs_priority_eq w dict f : forall i q, P i -> (N - d i < f)%nat ->
  _get_dfs_priority f c i w dict q
  = Ret (q ++ concat ((fun j => default [] (dict_get (Some j) dict)) <$> dfs (by_weight w) f i)).
Proof.
  induction f as [|f IH]; intros i q Hi Hf; [lia|]. cbn [_get_dfs_priority dfs]. fold (by_weight w i).
  assert (forall j, j ∈ by_weight w i -> P j /\ (N - d j < f)%nat) as Hch.
  { intros j Hj. unfold by_weight in Hj. rewrite sort_on_perm in Hj. by eapply child_fuel. }
  clear Hf. rewrite fmap_app, concat_app. simpl. rewrite app_nil_r.
  enough (forall cs q, (forall j, j ∈ cs -> P j /\ (N - d j < f)%nat) ->
    (fix loop (cs : list nat) (q : list SReq) : Outcome (list SReq) :=
       match cs with
       | [] => Ret q
       | child :: cs' => q1 ← _get_dfs_priority f c child w dict q; loop cs' q1
       end) cs q
    = Ret (q ++ concat ((fun j => default [] (dict_get (Some j) dict)) <$> concat (dfs (by_weight w) f <$> cs)))) as Hl.
  { rewrite Hl by done. simpl. by rewrite <-(assoc_L (++)). }
  clear Hch. induction cs as [|j cs IHl]; intros q' Hch; [by rewrite app_nil_r|].
  destruct (Hch j) as [Pj Fj]; [left|]. rewrite IH by done. simpl. rewrite IHl by (intros; apply Hch; by right).
  by rewrite fmap_app, concat_app, (assoc_L (++)).
Qed.

(** *** The weights *)

Lemma dfs_fuel f : forall f' i, P i -> (N - d i < f)%nat -> (N - d i < f')%nat -> dfs (pc_children c) f i = dfs (pc_children c) f' i.
Proof.
  induction f as [|f IH]; intros [|f'] i Hi Hf Hf'; [lia..|]. simpl. do 2 f_equal. apply list_fmap_ext.
  intros _ j Hj%list_elem_of_lookup_2. destruct (child_fuel i j f Hi Hj Hf), (child_fuel i j f' Hi Hj Hf'). by apply IH.
Qed.

(** The weights at and below a node. *)
Definition total (w : nat -> Z) (i : nat) : Z := sumZ (w <$> dfs (pc_children c) (S N) i).

Lemma total_ext w w' i : P i -> (forall k, below (P := P) (par := par) i k -> w k = w' k) -> total w i = total w' i.
Proof.
  intros Hi Hw. unfold total. f_equal. apply list_fmap_ext. intros _ k Hk%list_elem_of_lookup_2.
  apply Hw. apply (dfs_spec HT (S N) i); [done|lia|done].
Qed.

Lemma total_eq w i : P i -> total w i = sumZ (total w <$> pc_children c i) + w i.
Proof.
  intros Hi. unfold total at 1. cbn [dfs]. rewrite fmap_app, sumZ_app. f_equal; [|simpl; lia].
  assert (forall j, j ∈ pc_children c i -> P j /\ (N - d j < N)%nat) as Hch by (intros j Hj; apply (child_fuel i j N); [done..|lia]).
  induction (pc_children c i) as [|j l IHl]; [done|]. cbn [fmap list_fmap concat]. rewrite fmap_app, sumZ_app.
  change (list_fmap nat Z w) with (@fmap list _ nat Z w). rewrite IHl by (intros; apply Hch; by right).
  simpl. f_equal. unfold total. destruct (Hch j) as [Pj Fj]; [left|]. do 2 f_equal. apply dfs_fuel; [done|done|lia].
Qed.

(** What a walk below the children [done] of [i] has made of the weights [w0]. *)
Definition weighed (w0 w : list (option nat * Z)) (i : nat) (visited : list nat) : Prop :=
  weight_of w i = weight_of w0 i + sumZ (total (weight_of w0) <$> visited) /\
  forall k, k <> i ->
    ((exists j, j ∈ visited /\ below (P := P) (par := par) j k) -> weight_of w k = total (weight_of w0) k) /\
    (~ (exists j, j ∈ visited /\ below (P := P) (par := par) j k) -> weight_of w k = weight_of w0 k).

Lemma below_child_ne i j k : P i -> j ∈ pc_children c i -> below (P := P) (par := par) j k -> k <> i.
Proof.
  intros Hi Hj Hb ->. apply (below_depth HT) in Hb. apply (ts_child _ _ _ _ _ _ HT) in Hj as [Pj Hp]; [|done].
  pose proof (ts_rank _ _ _ _ _ _ HT j i Pj Hp). lia.
Qed.

Lemma below_trans i j k : below (P := P) (par := par) i j -> below (P := P) (par := par) j k -> below (P := P) (par := par) i k.
Proof. intros Hij. induction 1 as [|k p Hk Hp _ IH]; [done|]. by eapply below_step. Qed.

Lemma weight_of_set w i v k : weight_of (dict_set (Some i) v w) k = if decide (k = i) then v else weight_of w k.
Proof.
  unfold weight_of. case_decide; [subst; by rewrite dict_get_set_eq|]. by rewrite dict_get_set_ne by congruence.
Qed.

(** The effect of [_calc_weight] on the weights. *)
Definition calculated (w w' : list (option nat * Z)) (i : nat) : Prop :=
  (forall k, below (P := P) (par := par) i k -> weight_of w' k = total (weight_of w) k) /\
  (forall k, ~ below (P := P) (par := par) i k -> weight_of w' k = weight_of w k).

(** One more child. *)
Lemma weighed_step w0 w w1 i visited j rest :
  P i -> pc_children c i = visited ++ j :: rest -> weighed w0 w i visited -> calculated w w1 j ->
  weighed w0 (dict_set (Some i) (weight_of w1 i + weight_of w1 j) w1) i (visited ++ [j]).
Proof.
  intros Hi Hl [Hwi Hwk] [H1 H2]. pose proof (ts_nodup _ _ _ _ _ _ HT i Hi) as Hnd. rewrite Hl in Hnd.
  assert (j ∈ pc_children c i) as Hj by (rewrite Hl; set_solver).
  assert (forall j', j' ∈ visited -> j' ∈ pc_children c i /\ j' <> j) as Hv.
  { intros j' Hj'. split; [rewrite Hl; set_solver|]. intros ->. apply NoDup_app in Hnd as (_ & Hd & _). apply (Hd j Hj'). left. }
  pose proof (proj1 (ts_child _ _ _ _ _ _ HT i j Hi) Hj) as [Pj _].
  assert (forall k, below (P := P) (par := par) j k -> weight_of w k = weight_of w0 k) as Hfresh.
  { intros k Hk. apply Hwk; [by eapply below_child_ne|]. intros (j' & Hj' & Hb'). destruct (Hv j' Hj') as [Hc' Hne].
    apply Hne. by apply (below_sibling HT i j' j k). }
  assert (forall k, below (P := P) (par := par) j k -> total (weight_of w) k = total (weight_of w0) k) as Htot.
  { intros k Hk. apply total_ext; [exact (proj2 (below_node _ _ Hk))|]. intros k' Hk'. apply Hfresh. by eapply below_trans. }
  split.
  - rewrite weight_of_set, decide_True by done. rewrite fmap_app, sumZ_app. simpl.
    rewrite (H2 i) by (intros Hb; by apply (below_child_ne i j i Hi Hj Hb)).
    rewrite (H1 j), Htot by (by constructor). lia.
  - intros k Hk. rewrite weight_of_set, decide_False by done. split.
    + intros (j' & [Hj'| ->%list_elem_of_singleton]%elem_of_app & Hb).
      * destruct (Hv j' Hj') as [Hc' Hne]. rewrite (H2 k); [by apply Hwk; [|exists j']|].
        intros Hb'. apply Hne. by apply (below_sibling HT i j' j k).
      * rewrite (H1 k) by done. by apply Htot.
    + intros Hno. rewrite (H2 k); [apply Hwk; [done|]|]; intros Hb; apply Hno; [|set_solver].
      destruct Hb as (j' & ? & ?). exists j'. set_solver.
Qed.

Lemma calc_weight_spec f : forall i w, P i -> (N - d i < f)%nat -> exists w', _calc_weight f c i w = Ret w' /\ calculated w w' i.
Proof.
  induction f as [|f IH]; intros i w Hi Hf; [lia|]. cbn [_calc_weight].
  enough (forall cs visited w1, pc_children c i = visited ++ cs -> weighed w w1 i visited ->
    exists w', (fix loop (cs : list nat) w :=
         match cs with
         | [] => Ret w
         | child :: cs' => w1 ← _calc_weight f c child w; loop cs' (dict_set (Some i) (weight_of w1 i + weight_of w1 child) w1)
         end) cs w1 = Ret w' /\ weighed w w' i (pc_children c i)) as Hloop.
  { destruct (Hloop (pc_children c i) [] w eq_refl) as (w' & E & [Hwi Hwk]).
    { split; [simpl; lia|]. intros k _. split; [|done]. intros (j & Hj & _). by apply not_elem_of_nil in Hj. }
    exists w'. split; [exact E|]. split; intros k Hb.
    - apply (below_child HT i k Hi) in Hb as [->|Hb]; [rewrite Hwi, (total_eq _ i Hi); lia|].
      apply Hwk; [|done]. destruct Hb as (j & Hj & Hb). by eapply below_child_ne.
    - apply Hwk; [intros ->; apply Hb; by constructor|]. intros Hb'. apply Hb, (below_child HT); auto. }
  induction cs as [|j cs IHl]; intros visited w1 Hl Hw; [exists w1; split; [done|by rewrite Hl, app_nil_r]|].
  destruct (child_fuel i j f Hi) as [Pj Fj]; [rewrite Hl; set_solver|done|].
  destruct (IH j w1 Pj Fj) as (w2 & E & Hc). rewrite E. cbn [mbind Outcome_bind].
  apply (IHl (visited ++ [j])); [by rewrite <-(assoc_L (++))|]. by eapply weighed_step.
Qed.

(** Every request with a node of the tree appears once. *)
Lemma sort_by_dfs_weight_perm q :
  (forall r, r ∈ q -> exists i, q_last r = Some i /\ P i) ->
  exists q' w, _sort_by_dfs_weight q c = Ret q' /\ q' ≡ₚ q /\
    (forall i, P i -> weight_of w i = total (fun k => zlen (group q_last (Some k) q)) i) /\
    q' = concat ((fun i => group q_last (Some i) q) <$> dfs (by_weight w) (S N) (pc_root c)).
Proof.
  intros Hq. unfold _sort_by_dfs_weight. pose proof (ts_root _ _ _ _ _ _ HT) as Hr.
  destruct (calc_weight_spec (S N) (pc_root c) (initial_weights (last_node_to_reqs q)) Hr) as (w & Ew & Hw & _); [lia|].
  rewrite Ew. cbn [mbind Outcome_bind]. rewrite get_dfs_priority_eq by (done || lia).
  assert (tree_shape P (pc_root c) N (by_weight w) par d) as HT'.
  { eapply tree_shape_perm; [exact HT|]. intros i. apply sort_on_perm. }
  destruct (dfs_spec HT' (S N) (pc_root c)) as [Hnd Hin]; [done|lia|].
  assert ((fun j => default [] (dict_get (Some j) (last_node_to_reqs q))) <$> dfs (by_weight w) (S N) (pc_root c)
    = (fun i => group q_last (Some i) q) <$> dfs (by_weight w) (S N) (pc_root c)) as ->.
  { apply list_fmap_ext. intros. apply last_node_to_reqs_spec. }
  eexists _, w. split_and!; [done| |intros i Hi|done]; simpl.
  2: { rewrite (Hw i) by (by apply (below_root HT)). apply total_ext; [done|]. intros k _. apply initial_weights_spec. }
  apply concat_groups_perm; [done|].
  intros r Hrq. destruct (Hq r Hrq) as (i & Hi & Pi). exists i. split; [done|]. apply Hin. by apply (below_root HT').
Qed.
End dfs_order.

(** ** Prefixes shared inside the waiting queue

    [_compute_prefix_matches] puts the requests with a short cached prefix into a simulated
    tree and matches the next ones against it.  What that tree has is what was put into it,
    so a request is deprioritized exactly if it shares enough tokens with one that came
    before it. *)

(** *** The requests that repeat earlier ones *)

Definition prompt (r : SReq) : list Z := q_origin r ++ q_output r.

(** How many first tokens [r] shares with one of [seen]. *)
Definition shared (r r' : SReq) : nat := if decide (q_extra r' = q_extra r) then common_prefix (prompt r) (prompt r') else 0%nat.
Definition shared_with (r : SReq) (seen : list SReq) : nat := max_list_with (shared r) seen.

(** The requests of a queue that has been matched which repeat one of [seen] or an earlier
    one: of those whose cached prefix is short. *)
Fixpoint repeated (env : SchedEnv) (seen q : list SReq) : list string :=
  match q with
  | [] => []
  | r :: q =>
      if zlen (q_prefix r) <=? in_batch_check_threshold env then
        if in_batch_deprioritize_threshold env <=? (if radix_force_miss env then 0 else Z.of_nat (shared_with r seen))
        then rid r :: repeated env seen q
        else repeated env (r :: seen) q
      else repeated env seen q
  end.

Lemma max_with_elem {A} (f : A -> nat) l x : x ∈ l -> (f x <= max_list_with f l)%nat.
Proof. induction 1; cbn; lia. Qed.

Lemma max_with_le {A} (f : A -> nat) l n : (forall x, x ∈ l -> (f x <= n)%nat) -> (max_list_with f l <= n)%nat.
Proof.
  induction l as [|y l IH]; intros Hl; cbn; [lia|]. pose proof (Hl y ltac:(left)). assert (max_list_with f l <= n)%nat by (apply IH; intros; apply Hl; by right). lia.
Qed.

(** *** What the simulated tree has *)

Definition sim_ok (t : Cache unit) : Prop := inv (cfg_page_size sim_cfg) (is_eagle sim_cfg) [] (abs t).

(** The tree has the beginnings of the prompts in [seen], each in its namespace. *)
Definition sim_has (seen : list SReq) (t : Cache unit) : Prop :=
  sim_ok t /\ forall ek us, (exists ws, cached (abs t) ek us ws) <-> us = [] \/ exists r, r ∈ seen /\ q_extra r = ek /\ us `prefix_of` (Tok <$> prompt r).

Lemma aligned_1 n : aligned 1 n.
Proof. unfold aligned. apply Nat.mod_1_r. Qed.

Lemma sim_lookup ids ek : lookup_key sim_cfg (mkRadixKey ids ek false) = mkRadixKey ids ek false.
Proof.
  unfold lookup_key, page_aligned. cbn. done.
Qed.

Lemma cached_empty t ek : sim_ok t -> exists ws, cached (abs t) ek [] ws.
Proof. intros Ht. destruct (it_root (inv_t _ _ _ _ Ht)) as (r & Hr & _). exists []. by eapply cached_nil. Qed.

(** The length of the longest cached prefix is what is shared. *)
Lemma sim_longest seen t r m vs : sim_has seen t -> longest 1 (abs t) (root_node t) (mkRadixKey (prompt r) (q_extra r) false) m vs ->
  m = shared_with r seen /\ length vs = m.
Proof.
  intros [Ht Hs] [_ L1 L2 L3]. cbn [key_len is_bigram token_ids units extra_key] in *.
  assert (length (take m (Tok <$> prompt r)) = m) as Hm by (rewrite length_take, length_fmap; lia).
  split; [|by rewrite <-(proj1 L2)]. apply Nat.le_antisymm.
  - destruct (proj1 (Hs (q_extra r) (take m (Tok <$> prompt r)))) as [E0|(r' & Hr' & Hek & Hp)]; [by exists vs|rewrite E0 in Hm; cbn in Hm; lia|].
    transitivity (common_prefix (prompt r) (prompt r')).
    + apply common_prefix_greatest; [done| |].
      * apply prefix_length in Hp. rewrite Hm, length_fmap in Hp. done.
      * destruct Hp as [l Hl]. apply (f_equal (take m)) in Hl. rewrite take_app_le, take_take, Nat.min_id in Hl by lia.
        apply (list_fmap_eq_inj Tok); [by intros ? ? [= ->]|]. by rewrite !fmap_take.
    + transitivity (shared r r'); [unfold shared; by rewrite decide_True|]. by apply (max_with_elem (shared r)).
  - unfold shared_with. apply max_with_le. intros r' Hr'. unfold shared. destruct (decide (q_extra r' = q_extra r)) as [Hek|]; [|lia].
    destruct (common_prefix_le (prompt r) (prompt r')) as [C1 C2].
    destruct (proj2 (Hs (q_extra r) (take (common_prefix (prompt r) (prompt r')) (Tok <$> prompt r)))) as [ws Hc].
    { right. exists r'. split_and!; [done|done|]. rewrite <-fmap_take, (common_prefix_take (prompt r) (prompt r')), fmap_take by lia. apply prefix_take. }
    eapply L3; [apply aligned_1|exact C1|exact Hc].
Qed.

Lemma sim_match now seen t r : sim_has seen t ->
  exists m t', match_prefix sim_cfg now (mkRadixKey (prompt r) (q_extra r) false) t = (Ret m, t') /\ sim_has seen t' /\
    length (device_indices m) = shared_with r seen.
Proof.
  intros Hs. pose proof Hs as [Ht Hc].
  destruct (match_prefix_ok sim_cfg now ltac:(simpl; lia) [] t (mkRadixKey (prompt r) (q_extra r) false) Ht eq_refl) as (m & t' & n & E & _ & [W1 W2 W3 _ _ _] & _);
    [by left|]. rewrite sim_lookup in W3. destruct (sim_longest seen t r n _ Hs W3) as [-> El].
  exists m, t'. split; [done|]. split; [split; [done|]|done]. intros ek us. rewrite <-Hc. destruct (it_root (inv_t _ _ _ _ Ht)) as (r0 & Hr0 & _).
  unfold cached. rewrite (ex_root _ _ W2). setoid_rewrite (extends_cached _ _ ek (a_root (abs t)) us _ W2); [done|by exists r0].
Qed.

Lemma sim_insert now sha seen t r : sim_has seen t ->
  exists m t', RadixTree.insert sim_cfg now sha
    (mkInsertParams (mkRadixKey (prompt r) (q_extra r) false) (Some (replicate (length (prompt r)) 0)) (Some 0) false) t = (Ret m, t') /\ sim_has (r :: seen) t'.
Proof.
  intros Hs. pose proof Hs as [Ht Hc]. destruct (insert_ok sim_cfg now sha ltac:(simpl; lia) eq_refl [] t
    (mkInsertParams (mkRadixKey (prompt r) (q_extra r) false) (Some (replicate (length (prompt r)) 0)) (Some 0) false) Ht eq_refl)
    as (m & vs & t' & E & _ & HI); [by left| |].
  { unfold insert_value, lookup_key. simpl. unfold key_len. simpl. rewrite length_take, length_replicate. lia. }
  exists m, t'. split; [done|]. destruct HI as [I1 I2 I3 I4 _ _ _ _ _ _]. cbn [ip_key] in *. rewrite sim_lookup in *. cbn [extra_key units is_bigram token_ids] in *.
  split; [done|]. intros ek us. destruct (decide (ek = q_extra r)) as [->|Hne].
  - setoid_rewrite I3. split.
    + intros [ws [Hw|(n & -> & _)]].
      * destruct (proj1 (Hc (q_extra r) us)) as [->|(r' & H1 & H2 & H3)]; [by exists ws|by left|]. right. exists r'. split_and!; [by right|done|done].
      * right. exists r. split_and!; [left|done|apply prefix_take].
    + intros [->|(r' & [->|Hr']%elem_of_cons & Hek & Hp)].
      * destruct (cached_empty t (q_extra r) Ht) as [ws Hw]. exists ws. by left.
      * eexists. right. exists (length us). split; [|reflexivity]. destruct Hp as [l ->]. by rewrite take_app_length.
      * destruct (proj2 (Hc (q_extra r) us)) as [ws Hw]; [right; by exists r'|]. exists ws. by left.
  - setoid_rewrite I4; [|done]. rewrite Hc. setoid_rewrite elem_of_cons. split; [naive_solver|]. intros [?|(r' & [->|?] & ? & ?)]; [naive_solver|done|naive_solver].
Qed.

Lemma sim_reset now t : exists t', reset sim_cfg now t = (Ret tt, t') /\ sim_has [] t'.
Proof.
  destruct (reset_ok sim_cfg now t) as (t1 & E & Ht1 & _ & Hns). exists t1. split; [done|]. split; [done|]. intros ek us. split.
  - intros [ws (Hl & w & x & j & Hp)]. left. inversion Hp as [|? ? ? ? ? ? ? ? ? Hi Hch]; subst; [by destruct us|].
    rewrite Hns in Hi. apply lookup_singleton_Some in Hi as [_ <-]. done.
  - intros [->|(r & Hr & _)]; [by apply cached_empty|by apply not_elem_of_nil in Hr].
Qed.
