(* ===== verification/SchedClaims.v ===== *)
(** * What the scheduling policies guarantee

    Against the laws of a prefix cache: whatever the policy, [calc_priority] succeeds,
    returns the requests of the queue in some order, and changes nothing but their match
    results; the order is the one the policy names. *)

From stdpp Require Import base tactics list gmap strings sorting.
From Stdlib Require Import ZArith Lia.
From S2P Require Import Prelude PyStr RadixKey TreeNode EvictPolicy Allocator AllocatorProofs KVEvents.
From S2P Require Import RadixTree RadixInv RadixPaths RadixSlots RadixWalk RadixProofs RadixLocks RadixClaims ReqPool.
From S2P Require Import HiController HiRadix PrefixCache CacheLaws SchedPolicy SchedProofs.

(** A request, or the same request with a new match result. *)
Definition same_request (r r' : SReq) : Prop := r' = r \/ exists m, r' = set_match m r.

Lemma sorted_impl {A} (R R' : A -> A -> Prop) l : (forall x y, R x y -> R' x y) -> StronglySorted R l -> StronglySorted R' l.
Proof. intros HR. induction 1 as [|x l _ IH Hx]; constructor; [done|]. eapply Forall_impl; [done|]. auto. Qed.

(** Keys of a sort that cannot fail. *)
Lemma sort_keyed_sorted {A K} (lt : K -> K -> bool) `{!WeakOrder lt} (key : A -> Outcome K) l l' :
  sort_keyed lt key l = Ret l' ->
  StronglySorted (fun x y => exists kx ky, key x = Ret kx /\ key y = Ret ky /\ lt ky kx = false) l'.
Proof.
  unfold sort_keyed. destruct (with_keys key l) as [kl| |] eqn:E; [|done..]. cbn [mbind Outcome_bind]. intros [= <-].
  assert (Forall (fun kx => key kx.2 = Ret kx.1) kl) as Hk.
  { revert kl E. induction l as [|x l IH]; intros kl E; [by injection E as <-|]. simpl in E.
    destruct (key x) as [k| |] eqn:Ek; [|done..]. simpl in E. destruct (with_keys key l) as [kl'| |]; [|done..].
    simpl in E. injection E as <-. constructor; [done|by apply IH]. }
  rewrite <-(sort_on_perm lt fst) in Hk. pose proof (sort_on_sorted lt fst kl) as Hs.
  induction Hs as [|[k x] l' Hl IH Hx]; simpl; constructor; apply Forall_cons in Hk as [Hkx Hk]; [by apply IH|].
  apply Forall_fmap, Forall_forall. intros [k' y] Hy. exists k, k'. split_and!; [done| |].
  - by apply (proj1 (Forall_forall _ _) Hk (k', y)).
  - by apply (proj1 (Forall_forall _ _) Hx (k', y)).
Qed.

(** ** Matching the queue against the cache and against itself *)

(** ** Routing keys *)

(** How many requests have the routing key [k]. *)
Definition key_count (k : string) (b : list SReq) : Z := zlen (List.filter (fun r => bool_decide (truthy_key (q_routing r) = Some k)) b).

(** Requests with a key that runs come first, the most frequent key before the others; then
    the requests by their key. *)
Definition running_key (b : list SReq) (r : SReq) : Z * Z * string :=
  match truthy_key (q_routing r) with
  | Some k => if key_count k b =? 0 then (1, 0, k) else (0, - key_count k b, k)
  | None => (1, 0, ""%string)
  end.

Lemma counts_spec b k : routing_key_counts b !! k = if key_count k b =? 0 then None else Some (key_count k b).
Proof.
  assert (forall m : gmap string Z, foldl (fun (m : gmap string Z) r => match truthy_key (q_routing r) with Some k => <[k := default 0 (m !! k) + 1]> m | None => m end) m b !! k
    = if (key_count k b =? 0)%Z then m !! k else Some (default 0 (m !! k) + key_count k b)) as Hf; [|unfold routing_key_counts; rewrite Hf, lookup_empty; cbn; by destruct (_ =? 0)].
  induction b as [|r b IH]; intros m; [done|]. cbn [foldl]. rewrite IH. unfold key_count. cbn [List.filter]. fold (key_count k b).
  assert (0 <= key_count k b) as Hn by (unfold key_count, zlen; lia). destruct (truthy_key (q_routing r)) as [k'|]; [|done].
  destruct (decide (k' = k)) as [->|Hne].
  - rewrite lookup_insert_eq, bool_decide_true by done. set (d := default 0 (m !! k)). unfold zlen at 1 2. cbn [length]. rewrite Nat2Z.inj_succ.
    change (Z.of_nat (length (List.filter (fun r => bool_decide (truthy_key (q_routing r) = Some k)) b))) with (key_count k b).
    rewrite (proj2 (Z.eqb_neq (Z.succ _) 0)) by lia. destruct (Z.eqb_spec (key_count k b) 0) as [E0|]; [rewrite E0|]; cbn; f_equal; lia.
  - rewrite lookup_insert_ne, bool_decide_false by congruence. done.
Qed.

Lemma running_key_eq b r : routing_sort_key (routing_key_counts b) r = running_key b r.
Proof. unfold routing_sort_key, running_key. destruct (truthy_key (q_routing r)) as [k|]; [|done]. rewrite counts_spec. by destruct (_ =? 0). Qed.

Lemma counts_none b : bool_decide (routing_key_counts b = ∅) = forallb (fun r => bool_decide (truthy_key (q_routing r) = None)) b.
Proof.
  apply eq_true_iff_eq. rewrite bool_decide_eq_true, forallb_forall. split.
  - intros E r Hr. apply bool_decide_eq_true. destruct (truthy_key (q_routing r)) as [k|] eqn:Ek; [|done]. exfalso.
    pose proof (counts_spec b k) as Hk. rewrite E, lookup_empty in Hk. destruct (Z.eqb_spec (key_count k b) 0) as [E0|]; [|done].
    assert (r ∈ List.filter (fun r => bool_decide (truthy_key (q_routing r) = Some k)) b) as Hin by (apply elem_of_filter_b; split; [by apply list_elem_of_In|by apply bool_decide_eq_true]).
    unfold key_count, zlen in E0. destruct (List.filter _ b); [by apply not_elem_of_nil in Hin|]. cbn in E0. lia.
  - intros Hall. apply map_eq. intros k. rewrite counts_spec, lookup_empty. destruct (Z.eqb_spec (key_count k b) 0) as [|Hne]; [done|]. exfalso. apply Hne. unfold key_count.
    assert (List.filter (fun r => bool_decide (truthy_key (q_routing r) = Some k)) b = []) as ->; [|done].
    induction b as [|r b IH]; [done|]. cbn. pose proof (Hall r ltac:(by left)) as Hr%bool_decide_eq_true. rewrite Hr, bool_decide_false by done. apply IH.
    + intros r' Hr'. apply Hall. by right.
    + unfold key_count in Hne |- *. cbn in Hne. rewrite Hr, bool_decide_false in Hne by done. done.
Qed.

Lemma sort_on_ext {A K} (lt : K -> K -> bool) (f g : A -> K) l : (forall x, f x = g x) -> sort_on lt f l = sort_on lt g l.
Proof.
  intros Hfg. unfold sort_on. induction l as [|x l IH]; [done|]. cbn. rewrite IH. generalize (foldr (insert_on lt g) [] l).
  induction l0 as [|y l0 IH0]; [done|]. cbn. by rewrite !Hfg, IH0.
Qed.

Section claims.
Context {C : Type} `{PrefixCacheLaws C}.
Context (env : SchedEnv) (is_chunk_cache : bool) (now : nat -> Z) (sha256 : list Z -> string).
Context (shuffle : list SReq -> list SReq) (Hshuffle : forall l, shuffle l ≡ₚ l).
Local Abbreviation PS := (C * Cache unit)%type.

(** The cache may have been refined by a match. *)
Definition refined (hs : list nat) (c c' : C) : Prop :=
  pc_ok hs c' /\ pc_budget c' = pc_budget c /\ forall i, pc_node c i -> pc_node c' i.

Lemma refined_trans hs c c1 c2 : refined hs c c1 -> refined hs c1 c2 -> refined hs c c2.
Proof. intros (_ & B1 & N1) (K2 & B2 & N2). split_and!; [done|congruence|auto]. Qed.

Lemma match_prefix_for_req_ok hs c r ids : pc_ok hs c ->
  exists m c', match_prefix_for_req env is_chunk_cache r ids c = (Ret (set_match m r), c') /\ refined hs c c' /\
    pc_node c' (last_device_node (hm_match m)) /\
    (length (device_indices (hm_match m)) + host_hit_length m <= length ids)%nat /\
    (host_hit_length m <> 0%nat ->
     pc_loadable c' (last_device_node (hm_match m)) (best_match_node (hm_match m)) (host_hit_length m)).
Proof.
  intros Hc. unfold match_prefix_for_req.
  destruct (law_match hs c (mkRadixKey ids (q_extra r) false) Hc eq_refl) as (m & c' & E & Hc' & Hb & Hn & Hm & Hl & Hh).
  erewrite py_bind_Ret by exact E. rewrite py_bind_get. unfold zero_match_result.
  destruct (radix_force_miss env), is_chunk_cache; (eexists _, c'; split; [reflexivity|]); split_and!; try done.
  - by apply (law_root hs).
  - simpl. lia.
Qed.

(** One request: it is deprioritized if it repeats one that was inserted before. *)
Lemma prefix_match_step_ok hs r dep seen c t : pc_ok hs c -> sim_has seen t ->
  exists m dep' seen' c' t', prefix_match_step env is_chunk_cache now sha256 r dep (c, t) = (Ret (set_match m r, dep'), (c', t')) /\
    refined hs c c' /\ sim_has seen' t' /\ pc_node c' (last_device_node (hm_match m)) /\
    forall q, dep' ∪ list_to_set (repeated env seen' q) = dep ∪ list_to_set (repeated env seen (set_match m r :: q)).
Proof.
  intros Hc Ht. unfold prefix_match_step.
  destruct (match_prefix_for_req_ok hs c r (q_origin r ++ q_output r) Hc) as (m & c' & E & HR & Hm & _).
  assert (on_cache (match_prefix_for_req env is_chunk_cache r (q_origin r ++ q_output r)) (c, t) = (Ret (set_match m r), (c', t))) as E1
    by (unfold on_cache; simpl; by rewrite E).
  erewrite py_bind_Ret by exact E1. destruct (zlen (q_prefix (set_match m r)) <=? in_batch_check_threshold env) eqn:Ec.
  2: { exists m, dep, seen, c', t. split; [done|]. split; [done|split; [done|split; [done|]]]. intros q. cbn [repeated]. by rewrite Ec. }
  destruct (sim_match now seen t (set_match m r) Ht) as (ms & t1 & E2 & Ht1 & Hlen).
  change (prompt (set_match m r)) with (q_origin r ++ q_output r) in E2.
  assert (on_sim (match_prefix sim_cfg now (mkRadixKey (q_origin r ++ q_output r) (q_extra (set_match m r)) false)) (c', t)
    = (Ret ms, (c', t1))) as E3 by (unfold on_sim; simpl; simpl in E2; by rewrite E2).
  erewrite py_bind_Ret by exact E3. cbv zeta.
  assert (zlen (if radix_force_miss env then take 0 (device_indices ms) else device_indices ms)
    = if radix_force_miss env then 0 else Z.of_nat (shared_with (set_match m r) seen)) as El by (unfold zlen; destruct (radix_force_miss env); [done|by rewrite Hlen]).
  rewrite El. destruct (in_batch_deprioritize_threshold env <=? _) eqn:Ed.
  { exists m, (dep ∪ {[rid r]}), seen, c', t1. split; [done|]. split; [done|split; [done|split; [done|]]]. intros q. cbn [repeated]. rewrite Ec, Ed.
    cbn [list_to_set]. by rewrite (assoc_L (∪)). }
  destruct (sim_insert now sha256 seen t1 (set_match m r) Ht1) as (mi & t2 & E4 & Ht2).
  change (prompt (set_match m r)) with (q_origin r ++ q_output r) in E4.
  exists m, dep, (set_match m r :: seen), c', t2. split.
  { erewrite py_bind_Ret; [done|]. unfold on_sim. simpl. simpl in E4. by rewrite E4. }
  split; [done|split; [done|split; [done|]]]. intros q. cbn [repeated]. by rewrite Ec, Ed.
Qed.

Lemma prefix_match_loop_ok hs q : forall dep seen c t, pc_ok hs c -> sim_has seen t ->
  exists q' c' t', prefix_match_loop env is_chunk_cache now sha256 q dep (c, t) = (Ret (q', dep ∪ list_to_set (repeated env seen q')), (c', t')) /\
    refined hs c c' /\ Forall2 same_request q q' /\ (forall r, r ∈ q' -> exists i, q_last r = Some i /\ pc_node c' i).
Proof.
  induction q as [|r q IH]; intros dep seen c t Hc Ht.
  { eexists [], c, t. split; [cbn; by rewrite (right_id_L ∅ (∪))|]. split; [by split|split; [constructor|]]. intros r Hr. by apply not_elem_of_nil in Hr. }
  destruct (prefix_match_step_ok hs r dep seen c t Hc Ht) as (m & dep1 & seen1 & c1 & t1 & E1 & HR1 & Ht1 & Hm & Hrep).
  destruct (IH dep1 seen1 c1 t1 (proj1 HR1) Ht1) as (q' & c2 & t2 & E2 & HR2 & Hq & Hn).
  exists (set_match m r :: q'), c2, t2. split; [|split; [by eapply refined_trans|split]].
  - rewrite <-Hrep. cbn [prefix_match_loop]. py_step E1. simpl snd. py_step E2. done.
  - constructor; [right; by eexists|done].
  - intros r' [->|Hr']%elem_of_cons; [|by apply Hn]. eexists. split; [done|]. by apply HR2.
Qed.

Lemma compute_prefix_matches_ok hs q c t : pc_ok hs c ->
  exists q' c' t', _compute_prefix_matches env is_chunk_cache now sha256 q (c, t) = (Ret (q', list_to_set (repeated env [] q')), (c', t')) /\
    refined hs c c' /\ Forall2 same_request q q' /\ (forall r, r ∈ q' -> exists i, q_last r = Some i /\ pc_node c' i).
Proof.
  intros Hc. unfold _compute_prefix_matches. destruct (sim_reset now t) as (t1 & E & Ht1).
  erewrite (py_bind_Ret _ _ _ tt (c, t1)); [|unfold on_sim; cbn [snd fst]; by rewrite E].
  destruct (prefix_match_loop_ok hs q ∅ [] c t1 Hc Ht1) as (q' & c' & t' & E' & Hr). rewrite (left_id_L ∅ (∪)) in E'. eauto.
Qed.

Lemma same_requests_refl q : Forall2 same_request q q.
Proof. induction q; constructor; [by left|done]. Qed.

(** The queue in the order the policy names, from the queue [q] and the queue [q1] with its
    match results: longest cached prefix first, with the requests that repeat an earlier one
    of the queue last; descendants before ancestors with heavier subtrees first; by priority
    and arrival; by longest output; as shuffled; by how many running requests have the same
    routing key. *)
Definition policy_order (sp : SchedulePolicy) (c : C) (running : option (list SReq)) (q q1 q' : list SReq) : Prop :=
  match _determine_active_policy (sp_policy sp) q with
  | LPM =>
      let key := longest_prefix_key (list_to_set (repeated env [] q1)) in
      StronglySorted (in_order lt_inf key) q' /\ (forall k, List.filter (tied lt_inf key k) q' = List.filter (tied lt_inf key k) q1)
  | DFS_WEIGHT => exists w,
      (forall i, pc_node c i -> weight_of w i = total c (fun k => zlen (group q_last (Some k) q1)) i) /\
      q' = concat ((fun i => group q_last (Some i) q1) <$> dfs (by_weight c w) (S (pc_count c)) (pc_root c))
  | FCFS => if bool_decide (sp_policy sp = FCFS) && enable_priority_scheduling sp
            then StronglySorted (fun x y => exists kx ky,
                   (p ← signed_priority (priority_sign sp) x; Ret (p, q_entry_time x)) = Ret kx /\
                   (p ← signed_priority (priority_sign sp) y; Ret (p, q_entry_time y)) = Ret ky /\
                   lt_pair Z.ltb Z.ltb ky kx = false) q'
            else q' = q
  | LOF => if enable_priority_scheduling sp
           then StronglySorted (fun x y => exists kx ky,
                  (p ← signed_priority (priority_sign sp) x; Ret (p, - q_max_new x)) = Ret kx /\
                  (p ← signed_priority (priority_sign sp) y; Ret (p, - q_max_new y)) = Ret ky /\
                  lt_pair Z.ltb Z.ltb ky kx = false) q'
           else StronglySorted (fun x y => q_max_new y <= q_max_new x) q'
  | RANDOM => q' = shuffle q
  | ROUTING_KEY =>
      match running with
      | None => q' = q
      | Some b =>
          if forallb (fun r => bool_decide (truthy_key (q_routing r) = None)) b then q' = q
          else
            let lt := lt_pair (lt_pair Z.ltb Z.ltb) String.ltb in
            let key := running_key b in
            StronglySorted (in_order lt key) q' /\ (forall k, List.filter (tied lt key k) q' = List.filter (tied lt key k) q)
      end
  end.

(** What the queue was matched against: the cache, for the policies that ask it. *)
Definition matched (sp : SchedulePolicy) (q q1 : list SReq) (s s' : C * Cache unit) : Prop :=
  if cache_aware (_determine_active_policy (sp_policy sp) q)
  then exists dep, _compute_prefix_matches env is_chunk_cache now sha256 q s = (Ret (q1, dep), s')
  else q1 = q /\ s' = s.

Lemma calc_priority_ok hs c t sp q running :
  pc_ok hs c -> (enable_priority_scheduling sp = true -> forall r, r ∈ q -> q_priority r <> None) ->
  exists b q1 q' c' t',
    calc_priority env is_chunk_cache now sha256 shuffle sp q running (c, t) = (Ret (b, q'), (c', t')) /\
    Forall2 same_request q q1 /\ q' ≡ₚ q1 /\ (matched sp q q1 (c, t) (c', t') /\ policy_order sp c' running q q1 q') /\ refined hs c c'.
Proof.
  intros Hc Hp. assert (refined hs c c) as Hrefl by by split_and!.
  assert (forall (f : SReq -> Z), enable_priority_scheduling sp = true -> forall x, x ∈ q ->
    exists k, (p ← signed_priority (priority_sign sp) x; Ret (p, f x)) = Ret k) as Hkeys.
  { intros f He x Hx. unfold signed_priority. specialize (Hp He x Hx). destruct (q_priority x); [by eexists|done]. }
  unfold calc_priority, matched, policy_order. case_bool_decide as Hfc.
  { rewrite Hfc. unfold _determine_active_policy. rewrite bool_decide_false by done. cbn [andb cache_aware].
    destruct (enable_priority_scheduling sp) eqn:He.
    - destruct (sort_keyed_perm (lt_pair Z.ltb Z.ltb) _ q (Hkeys q_entry_time eq_refl)) as (l' & E & Hl).
      unfold _sort_by_priority_and_fcfs. eexists false, q, l', c, t. rewrite E.
      split_and!; [done|apply same_requests_refl|done|done|done|exact (sort_keyed_sorted _ _ _ _ E)|done..].
    - eexists false, q, q, c, t. split_and!; try done. apply same_requests_refl. }
  destruct (_determine_active_policy (sp_policy sp) q) eqn:Ea; cbn [cache_aware].
  - destruct (compute_prefix_matches_ok hs q c t Hc) as (q1 & c1 & t1 & E & HR & Hq & _).
    eexists true, q1, _, c1, t1. py_step E. split; [done|]. split; [done|]. split; [apply sort_on_perm|]. split; [split; [by eexists|]|done].
    split; [apply sort_on_sorted, _|]. intros k. apply sort_on_stable, _.
  - destruct (compute_prefix_matches_ok hs q c t Hc) as (q1 & c1 & t1 & E & HR & Hq & Hn).
    destruct (law_tree hs c1 (proj1 HR)) as (par & d & HT).
    destruct (sort_by_dfs_weight_perm c1 HT q1 Hn) as (q' & w & E' & Hperm & Hw & Hq').
    eexists true, q1, q', c1, t1. split; [py_step E; rewrite py_bind_get; simpl fst; by rewrite E'|]. split; [done|]. split; [done|]. split; [|done].
    split; [by eexists|by exists w].
  - eexists false, q, q, c, t. split_and!; try done. apply same_requests_refl.
  - unfold _sort_by_longest_output. destruct (enable_priority_scheduling sp) eqn:He.
    + destruct (sort_keyed_perm (lt_pair Z.ltb Z.ltb) _ q (Hkeys (fun r => - q_max_new r) eq_refl)) as (l' & E & Hl).
      eexists false, q, l', c, t. rewrite E.
      split_and!; [done|apply same_requests_refl|done|done|done|exact (sort_keyed_sorted _ _ _ _ E)|done..].
    + eexists false, q, _, c, t. split_and!; [done|apply same_requests_refl|apply sort_on_perm|done|done| |done..].
      apply (sorted_impl (in_order Z.ltb (fun r => - q_max_new r))); [|apply sort_on_sorted, _].
      unfold in_order. intros x y Hxy%Z.ltb_ge. lia.
  - eexists false, q, _, c, t. split_and!; [done|apply same_requests_refl|apply Hshuffle|done..].
  - destruct running as [b|]; (eexists false, q, _, c, t); (split; [done|]); (split; [apply same_requests_refl|]); [|by split_and!].
    unfold _sort_by_routing_key. rewrite counts_none. destruct (forallb _ b); [by split_and!|].
    split; [apply sort_on_perm|]. split; [split; [done|]|done].
    rewrite (sort_on_ext _ _ (running_key b)) by (intros r; apply running_key_eq). split; [apply sort_on_sorted, _|]. intros k. apply sort_on_stable, _.
Qed.

(** C22. Whatever the policy, calc_priority succeeds and returns exactly the requests of the
    waiting queue: no request is lost, duplicated or changed in more than its match result
    (which only the cache-aware policies change), and the cache keeps its contents, its locks
    and its memory budget.  They are in the order the policy names.  Longest prefix first:
    sorted, stably, by the length of the cached prefix, behind them the requests with a short
    one that share at least the threshold of first tokens with an earlier such request.
    Depth first: the nodes of the tree in post-order, heavier subtrees first, each with its
    requests.  By priority and arrival, by longest output, as shuffled, or, stably, by the
    number of running requests with the same routing key.  With priority scheduling every
    request needs a priority. *)
Theorem calc_priority_permutes hs c t sp q running :
  pc_ok hs c -> (enable_priority_scheduling sp = true -> forall r, r ∈ q -> q_priority r <> None) ->
  exists b q1 q' c' t',
    calc_priority env is_chunk_cache now sha256 shuffle sp q running (c, t) = (Ret (b, q'), (c', t')) /\
    Forall2 same_request q q1 /\ q' ≡ₚ q1 /\ (matched sp q q1 (c, t) (c', t') /\ policy_order sp c' running q q1 q') /\ refined hs c c'.
Proof. apply calc_priority_ok. Qed.
End claims.

(** ** Witness *)

Definition demo_order (m : gmap ChildKey nat) : list nat := (map_to_list m).*2.
#[local] Instance sched_demo_alloc : KVAllocator Alloc := paged_KVAllocator false.
#[local] Instance sched_demo_cache : PrefixCache (Cache Alloc) :=
  radix_PrefixCache demo_cfg demo_now available_size demo_order.
#[local] Instance sched_demo_laws : PrefixCacheLaws (Cache Alloc) :=
  radix_laws demo_cfg demo_now available_size demo_order demo_ps eq_refl (fun _ => reflexivity _) 16.

Definition demo_req (name : string) (ids : list Z) : SReq :=
  mkSReq name ids [] [] None [] None None None 0 0 0 10 false None 0 None false (-1) 0 false false false.
Definition demo_env : SchedEnv := mkSchedEnv 32 32 4096 false.
Definition sim0 : Cache unit := mkCache ∅ 0 0 0 0 0 ∅ [] tt [].
Definition demo_queue : list SReq := [demo_req "a" [5; 6; 7]; demo_req "b" [7; 8; 9; 10; 11]].

Lemma sched_demo_ok : pc_ok [] demo2.
Proof. split; [exact demo2_inv|]. vm_compute. split; discriminate. Qed.

(** The second request has as much in the cache as the first but repeats three of its
    tokens: it waits behind the third, which has nothing. *)
Definition repeat_env : SchedEnv := mkSchedEnv 32 3 4096 false.
Definition repeat_queue : list SReq := [demo_req "a" [7; 8; 20; 21]; demo_req "b" [7; 8; 20; 22]; demo_req "c" [5]].

Lemma calc_priority_permutes_witness :
  exists b q1 q' st,
    calc_priority repeat_env false demo_now demo_sha (fun l => l) (mkSchedulePolicy LPM false false) repeat_queue None (demo2, sim0)
      = (Ret (b, q'), st) /\ q' ≡ₚ q1 /\ Forall2 same_request repeat_queue q1 /\
    StronglySorted (in_order lt_inf (longest_prefix_key (list_to_set (repeated repeat_env [] q1)))) q' /\ rid <$> q' = ["a"%string; "c"%string; "b"%string].
Proof.
  destruct (calc_priority_permutes repeat_env false demo_now demo_sha (fun l => l) (fun _ => reflexivity _) [] demo2 sim0
    (mkSchedulePolicy LPM false false) repeat_queue None sched_demo_ok) as (b & q1 & q' & c' & t' & E & H1 & H2 & [_ H3] & _); [done|].
  exists b, q1, q', (c', t'). split; [exact E|]. split; [exact H2|]. split; [exact H1|]. split; [exact (proj1 H3)|].
  vm_compute in E. injection E as _ <- _ _. reflexivity.
Defined.
