(* ===== verification/PrefillAdder.v ===== *)
(** * Admission of requests (managers/schedule_policy.py, class PrefillAdder)

    [PrefillAdder] decides, request by request, what joins the next prefill batch.  It keeps
    budgets: the free and evictable KV slots less what the running and the admitted requests
    are expected to need (an estimate with a [float] factor), the tokens of one batch and of
    one chunk.  A request is checked, its prefix is locked in the cache and loaded back from
    the host when needed, and it is admitted whole, cut to a chunk, or refused.

    The adder works on its own fields and on the prefix cache.  [round] rounds [float]
    results.  The answer of the delayer is computed once per pass and cached, so it is a
    value; [release] is the batch's [release_req].  Requests are compared by identity; the
    model compares their identifiers. *)

From stdpp Require Import base tactics list gmap strings.
From Stdlib Require Import ZArith Lia QArith.
From S2P Require Import Prelude PyStr RadixKey TreeNode EvictPolicy Allocator AllocatorProofs KVEvents.
From S2P Require Import RadixTree ReqPool HiController HiRadix PyNum PrefixCache SchedPolicy.

#[local] Open Scope Z_scope.

Inductive AddReqResult := CONTINUE | NO_TOKEN | OTHER.
#[global] Instance AddReqResult_eq_dec : EqDecision AddReqResult.
Proof. solve_decision. Defined.

Record DllmConfig := mkDllmConfig { dllm_block_size : Z; dllm_max_running_requests : Z }.

(** The fields that stay fixed during a pass. *)
Record AdderCfg := mkAdderCfg {
  page_size : Z;
  new_token_ratio : PyNum;
  is_hybrid_swa : bool;
  is_hybrid_ssm_cache : bool;
  sliding_window_size : Z;
  cache_has_disable : bool;
  dllm_config : option DllmConfig;
  preemption_threshold : Z;
  prefill_max_requests : option Z;
  context_parallel : bool;
  delayer_allows : option bool }.

Record Adder := mkAdder {
  rem_input_tokens : Z;
  rem_chunk_tokens : option Z;
  rem_dllm_tokens : Z;
  rem_total_token_offset : PyNum;
  cur_rem_token_offset : Z;
  rem_swa_token_offset : Z;
  req_states : option (list (PyNum * Z));
  can_run_list : list SReq;
  preempt_list : list SReq;
  new_chunked_req : option SReq;
  log_hit_tokens : Z;
  log_input_tokens : Z;
  running_reqs : option (list SReq) }.

Definition ad_states (l : list (PyNum * Z)) (a : Adder) : Adder :=
  mkAdder (rem_input_tokens a) (rem_chunk_tokens a) (rem_dllm_tokens a) (rem_total_token_offset a)
    (cur_rem_token_offset a) (rem_swa_token_offset a) (Some l) (can_run_list a) (preempt_list a)
    (new_chunked_req a) (log_hit_tokens a) (log_input_tokens a) (running_reqs a).
Definition ad_append (r : SReq) (a : Adder) : Adder :=
  mkAdder (rem_input_tokens a) (rem_chunk_tokens a) (rem_dllm_tokens a) (rem_total_token_offset a)
    (cur_rem_token_offset a) (rem_swa_token_offset a) (req_states a) (can_run_list a ++ [r]) (preempt_list a)
    (new_chunked_req a) (log_hit_tokens a) (log_input_tokens a) (running_reqs a).
Definition ad_chunked (r : SReq) (a : Adder) : Adder :=
  mkAdder (rem_input_tokens a) (rem_chunk_tokens a) (rem_dllm_tokens a) (rem_total_token_offset a)
    (cur_rem_token_offset a) (rem_swa_token_offset a) (req_states a) (can_run_list a) (preempt_list a)
    (Some r) (log_hit_tokens a) (log_input_tokens a) (running_reqs a).
Definition ad_preempt (off : PyNum) (keep : list SReq) (out : list SReq) (a : Adder) : Adder :=
  mkAdder (rem_input_tokens a) (rem_chunk_tokens a) (rem_dllm_tokens a) off
    (cur_rem_token_offset a) (rem_swa_token_offset a) (req_states a) (can_run_list a) (preempt_list a ++ out)
    (new_chunked_req a) (log_hit_tokens a) (log_input_tokens a) (Some keep).

(** Changes of a request. *)
Definition q_set_fill (l : list Z) (r : SReq) : SReq :=
  mkSReq (rid r) (q_origin r) (q_output r) l (q_extra r) (q_prefix r) (q_last r) (q_last_host r)
    (q_best r) (q_host_hit r) (q_extend r) (q_protected r) (q_max_new r) (q_ignore_eos r)
    (q_priority r) (q_entry_time r) (q_routing r) (q_finished r) (q_logprob_start r)
    (q_extend_logprob r) (q_return_logprob r) (q_streaming r) (q_overrides r).
Definition q_set_logprob_start (n : Z) (r : SReq) : SReq :=
  mkSReq (rid r) (q_origin r) (q_output r) (q_fill r) (q_extra r) (q_prefix r) (q_last r) (q_last_host r)
    (q_best r) (q_host_hit r) (q_extend r) (q_protected r) (q_max_new r) (q_ignore_eos r)
    (q_priority r) (q_entry_time r) (q_routing r) (q_finished r) n
    (q_extend_logprob r) (q_return_logprob r) (q_streaming r) (q_overrides r).
Definition q_set_prefix (p : list Z) (last : option nat) (protected : nat) (r : SReq) : SReq :=
  mkSReq (rid r) (q_origin r) (q_output r) (q_fill r) (q_extra r) p last (q_last_host r)
    (q_best r) (q_host_hit r) (q_extend r) protected (q_max_new r) (q_ignore_eos r)
    (q_priority r) (q_entry_time r) (q_routing r) (q_finished r) (q_logprob_start r)
    (q_extend_logprob r) (q_return_logprob r) (q_streaming r) (q_overrides r).

(** [l[:n]] *)
Definition slice_to {A} (n : Z) (l : list A) : list A :=
  take (Z.to_nat (if n <? 0 then zlen l + n else n)) l.

(** [try: m finally: f] *)
Definition py_finally {S A} (m : PyM S A) (f : PyM S unit) : PyM S A := fun s =>
  match m s with
  | (OutOfFuel, s1) => (OutOfFuel, s1)
  | (o, s1) => match f s1 with (Ret _, s2) => (o, s2) | (Raise e, s2) => (Raise e, s2) | (OutOfFuel, s2) => (OutOfFuel, s2) end
  end.

Section init.
Context {C : Type} `{!PrefixCache C}.
Context (env : SchedEnv) (is_chunk_cache : bool).

(** [Req.init_next_round_input] (managers/schedule_batch.py) for a request that is no
    diffusion request: the tokens to compute, and their cached prefix, which leaves out the
    last token; [with_cache] is whether a cache is given. *)
Definition init_next_round_input (with_cache : bool) (r : SReq) : PyM C SReq :=
  let r := q_set_fill (q_origin r ++ q_output r) r in
  let input_len := zlen (q_fill r) in
  let r := if q_streaming r && q_return_logprob r && (0 <=? q_logprob_start r)
           then q_set_logprob_start (-1) r else r in
  let max_prefix_len := input_len - 1 in
  let max_prefix_len := if q_return_logprob r && (0 <=? q_logprob_start r)
                        then Z.min max_prefix_len (q_logprob_start r) else max_prefix_len in
  let max_prefix_len := Z.max max_prefix_len 0 in
  let token_ids := if q_overrides r then [] else slice_to max_prefix_len (q_fill r) in
  r ← (if with_cache then
         r ← match_prefix_for_req env is_chunk_cache r token_ids;
         mret (q_set_prefix (q_prefix r) (q_last r) (length (q_prefix r)) r)
       else mret r);
  mret (set_extend_input_len (zlen (q_fill r) - zlen (q_prefix r)) r).
End init.

Section adder.
Context {C : Type} `{!PrefixCache C}.
Context (rnd : Q -> Q) (env : SchedEnv) (cf : AdderCfg).
Local Abbreviation ps := (page_size cf).
Local Abbreviation CLIP := (clip_max_new_tokens env).

Definition AdState : Type := Adder * C.
Local Abbreviation M := (PyM AdState).
Definition with_cache {A} (m : PyM C A) : M A := fun s => let '(r, c) := m s.2 in (r, (s.1, c)).
Definition modify_adder (f : Adder -> Adder) : M unit := py_modify (fun s => (f s.1, s.2)).

Definition _get_running_request_total_token_offset (r : SReq) : PyNum :=
  num_mul rnd (NInt (Z.min (q_max_new r - zlen (q_output r)) CLIP)) (new_token_ratio cf).

(** [__init__] *)
Definition new_PrefillAdder (rem_input : Z) (rem_chunk : option Z) (num_mixed_decode_tokens : Z)
    (running : option (list SReq)) : Adder :=
  mkAdder (rem_input - num_mixed_decode_tokens)
    ((fun c => c - num_mixed_decode_tokens) <$> rem_chunk)
    (match dllm_config cf with Some d => dllm_max_running_requests d * dllm_block_size d | None => 0 end)
    (match running with
     | Some rs => num_add rnd (NInt num_mixed_decode_tokens)
                    (num_sum rnd (_get_running_request_total_token_offset <$> rs))
     | None => NInt num_mixed_decode_tokens
     end)
    num_mixed_decode_tokens 0 None [] [] None 0 0 running.

(** *** Remaining tokens *)

Definition available_and_evictable (c : C) : Z :=
  let z := pc_sizes c in
  if is_hybrid_swa cf then sz_full_available z + sz_full_evictable z
  else if is_hybrid_ssm_cache cf then sz_available z + sz_full_evictable z
  else sz_available z + sz_evictable z.
Definition rem_total_tokens (s : AdState) : PyNum :=
  num_sub rnd (NInt (available_and_evictable s.2)) (rem_total_token_offset s.1).
Definition rem_swa_tokens (s : AdState) : Z :=
  sz_swa_available (pc_sizes s.2) + sz_swa_evictable (pc_sizes s.2) - rem_swa_token_offset s.1.
Definition cur_rem_tokens (s : AdState) : Z := available_and_evictable s.2 - cur_rem_token_offset s.1.

Definition _swa_budget_for_req (extend_input_len : Z) (a : Adder) : Z :=
  let alloc := match rem_chunk_tokens a with Some c => Z.min extend_input_len c | None => extend_input_len end in
  Z.max alloc (sliding_window_size cf) + ps.

Definition ceil_paged_tokens (tokens : Z) : Z := - (- tokens / ps) * ps.

Definition budget_state (s : AdState) : AddReqResult :=
  let no_token := num_leb (rem_total_tokens s) (NInt 0) || (cur_rem_tokens s <=? 0) in
  let no_token := if negb no_token && is_hybrid_swa cf then rem_swa_tokens s <=? 0 else no_token in
  if no_token then NO_TOKEN
  else if rem_input_tokens s.1 <=? 0 then OTHER
  else
    match dllm_config cf with
    | Some _ => if rem_dllm_tokens s.1 <=? 0 then OTHER else CONTINUE
    | None => match rem_chunk_tokens s.1 with
              | Some c => if c <=? 0 then OTHER else CONTINUE
              | None => CONTINUE
              end
    end.

Definition _update_prefill_budget (prefix_len extend_input_len max_new_tokens : Z) (a : Adder) : Adder :=
  let extend_input_len := ceil_paged_tokens extend_input_len in
  let page_overhead := ps in
  mkAdder (rem_input_tokens a - extend_input_len)
    (match dllm_config cf with
     | Some _ => rem_chunk_tokens a
     | None => (fun c => c - extend_input_len) <$> rem_chunk_tokens a
     end)
    (match dllm_config cf with Some _ => rem_dllm_tokens a - extend_input_len | None => rem_dllm_tokens a end)
    (num_add rnd (rem_total_token_offset a) (NInt (extend_input_len + max_new_tokens + page_overhead)))
    (cur_rem_token_offset a + (extend_input_len + page_overhead))
    (if is_hybrid_swa cf then rem_swa_token_offset a + _swa_budget_for_req extend_input_len a
     else rem_swa_token_offset a)
    (req_states a) (can_run_list a) (preempt_list a) (new_chunked_req a)
    (log_hit_tokens a + prefix_len) (log_input_tokens a + extend_input_len) (running_reqs a).

(** *** Diffusion requests *)

Definition _get_dllm_remain_tokens (d : DllmConfig) (s : AdState) : Z :=
  let rem := Z.min (Z.min (rem_dllm_tokens s.1) (dllm_block_size d)) (num_int (rem_total_tokens s)) in
  if rem <=? 0 then rem_dllm_tokens s.1 else rem.

Definition q_extend_only (n : Z) (r : SReq) : SReq := q_set_extend n (q_extend_logprob r) r.

Definition _add_dllm_req (d : DllmConfig) (r : SReq) (prefix_len : Z) : M SReq :=
  s ← py_get;
  let trunc_len := Z.min (rem_dllm_tokens s.1) (dllm_block_size d) / ps * ps in
  let r := q_extend_only trunc_len r in
  let r := q_set_fill (slice_to (prefix_len + trunc_len) (q_fill r)) r in
  _ ← modify_adder (ad_append r);
  _ ← modify_adder (_update_prefill_budget prefix_len trunc_len 0);
  mret r.

Definition add_dllm_staging_req (r : SReq) : M (SReq * AddReqResult) :=
  match dllm_config cf with
  | None => py_raise AssertionError
  | Some d =>
      s ← py_get;
      let rem := _get_dllm_remain_tokens d s in
      if rem <=? 0 then mret (r, NO_TOKEN)
      else
        let truncated := rem <? q_extend r in
        let r := q_extend_only (Z.min (q_extend r) rem) r in
        let r := q_set_fill (slice_to (zlen (q_prefix r) + q_extend r) (q_fill r)) r in
        _ ← modify_adder (ad_append r);
        let max_new_tokens := if truncated then 0 else Z.min (q_max_new r) CLIP in
        _ ← modify_adder (_update_prefill_budget 0 (q_extend r) max_new_tokens);
        s ← py_get;
        mret (r, if _get_dllm_remain_tokens d s <=? 0 then NO_TOKEN else CONTINUE)
  end.

(** *** The chunked request of the previous batch *)

(** The request as it is afterwards, and whether it is still unfinished. *)
Definition add_chunked_req (r : SReq) : M (SReq * bool) :=
  s ← py_get;
  rem ← (match dllm_config cf with
         | Some d => mret (Some (_get_dllm_remain_tokens d s))
         | None =>
             match rem_chunk_tokens s.1 with
             | None => py_raise TypeError
             | Some chunk =>
                 let rem := Z.min chunk (num_int (rem_total_tokens s)) in
                 let rem := if is_hybrid_swa cf then Z.min rem (rem_swa_tokens s - ps) else rem in
                 mret (if rem <=? 0 then if is_hybrid_swa cf then None else Some chunk else Some rem)
             end
         end);
  match rem with
  | None => mret (r, true)
  | Some rem =>
      let truncated := rem <? q_extend r in
      let r := set_extend_input_len (Z.min (q_extend r) rem) r in
      let r := q_set_fill (slice_to (zlen (q_prefix r) + q_extend r) (q_fill r)) r in
      _ ← modify_adder (ad_append r);
      _ ← modify_adder (_update_prefill_budget 0 (q_extend r) (if truncated then 0 else Z.min (q_max_new r) CLIP));
      mret (r, truncated)
  end.

(** *** Requests that ignore the end of sequence *)

(** The loop variable after [for i in range(len(l)): if x <= l[i][0]: break]. *)
Fixpoint insert_index (x : PyNum) (i : nat) (l : list (PyNum * Z)) : nat :=
  match l with
  | [] => i
  | [_] => i
  | y :: l' => if num_leb x y.1 then i else insert_index x (S i) l'
  end.

Definition add_req_state (r : SReq) (insert_sort : bool) (l : list (PyNum * Z)) : list (PyNum * Z) :=
  let ratio := if q_ignore_eos r then NFloat 1 else new_token_ratio cf in
  let tokens_left := num_sub rnd (num_mul rnd (NInt (q_max_new r)) ratio) (NInt (zlen (q_output r))) in
  let tokens_occupied := zlen (q_origin r) + zlen (q_output r) in
  if num_leb tokens_left (NInt 0) then l
  else if insert_sort then
    let i := insert_index tokens_left 0 l in
    take i l ++ (tokens_left, tokens_occupied) :: drop i l
  else l ++ [(tokens_left, tokens_occupied)].

Definition update_req_states (r : SReq) (a : Adder) : list (PyNum * Z) :=
  match req_states a with
  | None =>
      let l := add_req_state r false [] in
      let l := foldl (fun l r => add_req_state r false l) l (default [] (running_reqs a)) in
      let l := foldl (fun l r => add_req_state r false l) l (can_run_list a) in
      sort_on num_ltb fst l
  | Some l => add_req_state r true l
  end.

(** The simulated release of the requests in the order of their remaining tokens. *)
Fixpoint enough_tokens (cur_rem freed : Z) (l : list (PyNum * Z)) : bool :=
  match l with
  | [] => true
  | (tokens_left, tokens_occupied) :: l' =>
      let bs := zlen l in
      let min_free := num_sub rnd (NInt (cur_rem + freed)) (num_mul rnd tokens_left (NInt bs)) in
      if num_leb min_free (NInt (1 * bs)) then false
      else enough_tokens cur_rem (freed + tokens_occupied) l'
  end.

Definition delayed : bool := match delayer_allows cf with Some b => negb b | None => false end.

Definition add_one_req_ignore_eos (r : SReq) : M (SReq * AddReqResult) :=
  s ← py_get;
  let paged_input := ceil_paged_tokens (q_extend r) in
  if num_ltb (num_min (NInt (cur_rem_tokens s)) (rem_total_tokens s)) (NInt paged_input) then mret (r, NO_TOKEN)
  else if is_hybrid_swa cf && (rem_swa_tokens s <? _swa_budget_for_req (q_extend r) s.1) then mret (r, NO_TOKEN)
  else
    let states := update_req_states r s.1 in
    _ ← modify_adder (ad_states states);
    if negb (is_hybrid_swa cf) && negb (enough_tokens (cur_rem_tokens s - ceil_paged_tokens (q_extend r)) 0 states)
    then mret (r, NO_TOKEN)
    else if delayed then mret (r, OTHER)
    else
      r' ← (match dllm_config cf with
            | Some d =>
                if rem_dllm_tokens s.1 <=? 0 then mret None
                else r ← _add_dllm_req d r 0; mret (Some r)
            | None =>
                match rem_chunk_tokens s.1 with
                | Some chunk =>
                    if q_extend r <=? chunk then
                      _ ← modify_adder (ad_append r);
                      _ ← modify_adder (_update_prefill_budget 0 (q_extend r) (Z.min (q_max_new r) CLIP));
                      mret (Some r)
                    else if chunk <=? 0 then mret None
                    else
                      let r := set_extend_input_len chunk r in
                      let r := q_set_fill (slice_to chunk (q_fill r)) r in
                      _ ← modify_adder (ad_append r);
                      _ ← modify_adder (ad_chunked r);
                      _ ← modify_adder (_update_prefill_budget 0 chunk 0);
                      mret (Some r)
                | None =>
                    _ ← modify_adder (ad_append r);
                    _ ← modify_adder (_update_prefill_budget 0 (q_extend r) (Z.min (q_max_new r) CLIP));
                    mret (Some r)
                end
            end);
      match r' with
      | None => mret (r, OTHER)
      | Some r => s ← py_get; mret (r, budget_state s)
      end.

(** *** The general case *)

(** The context manager: the lock is released whatever happens inside. *)
Definition _lock_node {A} (last_node : option nat) (body : M A) : M A :=
  py_finally (_ ← with_cache (pc_inc_lock last_node); body) (with_cache (pc_dec_lock last_node)).

Definition swa_short (r : SReq) (s : AdState) : bool :=
  is_hybrid_swa cf && (rem_swa_tokens s <=? _swa_budget_for_req (q_extend r) s.1).
Definition batch_full (tokens : Z) (s : AdState) : bool :=
  (rem_input_tokens s.1 <=? tokens) && negb (zlen (can_run_list s.1) =? 0).

(** Loading the host part of the prefix back to the device. *)
Definition load_back_req (r : SReq) : M SReq :=
  if (0 <? q_host_hit r)%nat then
    match q_best r with
    | None => py_raise AttributeError
    | Some best =>
        x ← with_cache (pc_init_load_back best);
        let r := q_set_prefix (q_prefix r ++ x.1) (Some x.2) (q_protected r) r in
        let r := set_extend_input_len (zlen (q_fill r) - zlen (q_prefix r)) r in
        mret (q_set_prefix (q_prefix r) (q_last r) (length (q_prefix r)) r)
    end
  else mret r.

(** The length a request is cut to; [None] when not even a page fits. *)
Definition chunk_len (chunk : Z) (truncation_align_size : option Z) (r : SReq) : option Z :=
  let trunc_len := chunk / ps * ps in
  if trunc_len <=? 0 then None
  else
    let aligned :=
      match truncation_align_size with
      | Some a => if trunc_len <? a then None else Some (a * (trunc_len / a))
      | None => Some trunc_len
      end in
    match aligned with
    | None => None
    | Some trunc_len =>
        let now_input_len := (trunc_len + zlen (q_prefix r)) / ps * ps in
        let trunc_len := now_input_len - zlen (q_prefix r) in
        if trunc_len <=? 0 then None else Some trunc_len
    end.

(** The request added and locked, or [None] for an early return of [OTHER]. *)
Definition admit_req (truncation_align_size : option Z) (r : SReq) : M (option SReq) :=
  s ← py_get;
  let prefix_len := zlen (q_prefix r) in
  let input_tokens := ceil_paged_tokens (q_extend r) in
  if batch_full input_tokens s then mret None
  else
    match dllm_config cf with
    | Some d =>
        if rem_dllm_tokens s.1 <=? 0 then mret None
        else
          _ ← py_assert (bool_decide (truncation_align_size = None));
          r ← _add_dllm_req d r prefix_len;
          _ ← with_cache (pc_inc_lock (q_last r));
          mret (Some r)
    | None =>
        let whole : M (option SReq) :=
          _ ← modify_adder (ad_append r);
          _ ← with_cache (pc_inc_lock (q_last r));
          _ ← modify_adder (_update_prefill_budget prefix_len input_tokens (Z.min (q_max_new r) CLIP));
          mret (Some r) in
        match rem_chunk_tokens s.1 with
        | None => whole
        | Some chunk =>
            if input_tokens <=? chunk then whole
            else
              match chunk_len chunk truncation_align_size r with
              | None => mret None
              | Some trunc_len =>
                  let r := set_extend_input_len trunc_len r in
                  let r := q_set_fill (slice_to (zlen (q_prefix r) + trunc_len) (q_fill r)) r in
                  _ ← modify_adder (ad_append r);
                  _ ← modify_adder (ad_chunked r);
                  _ ← with_cache (pc_inc_lock (q_last r));
                  _ ← modify_adder (_update_prefill_budget prefix_len trunc_len 0);
                  mret (Some r)
              end
        end
    end.

Definition req_total_tokens (r : SReq) : Z :=
  q_extend r + Z.min (Z.max (q_max_new r - zlen (q_output r)) 0) CLIP + ps.

(** The body of [with self._lock_node(...)]: the request, and the result of an early return. *)
Definition add_locked (truncation_align_size : option Z) (r : SReq) : M (SReq * option AddReqResult) :=
  s ← py_get;
  if num_leb (rem_total_tokens s) (NInt (req_total_tokens r)) then mret (r, Some NO_TOKEN)
  else if swa_short r s then mret (r, Some NO_TOKEN)
  else
    r ← load_back_req r;
    o ← admit_req truncation_align_size r;
    mret (match o with Some r' => (r', None) | None => (r, Some OTHER) end).

Definition add_one_req (truncation_align_size : option Z) (r : SReq) : M (SReq * AddReqResult) :=
  s ← py_get;
  if delayed then mret (r, OTHER)
  else if context_parallel cf && (1 <=? zlen (can_run_list s.1)) then mret (r, OTHER)
  else if (match prefill_max_requests cf with Some x => x <=? zlen (can_run_list s.1) | None => false end)
  then mret (r, OTHER)
  else if q_ignore_eos r && (if cache_has_disable cf then pc_disable else true) then add_one_req_ignore_eos r
  else
    let real_input_tokens := ceil_paged_tokens (q_extend r - Z.of_nat (q_host_hit r)) in
    if num_leb (rem_total_tokens s) (NInt (req_total_tokens r)) then mret (r, NO_TOKEN)
    else if swa_short r s then mret (r, NO_TOKEN)
    else if batch_full real_input_tokens s then mret (r, OTHER)
    else
      x ← _lock_node (q_last r) (add_locked truncation_align_size r);
      match x.2 with
      | Some res => mret (x.1, res)
      | None => s ← py_get; mret (x.1, budget_state s)
      end.

(** *** Preemption *)

Definition same_req (r1 r2 : SReq) : bool := bool_decide (rid r1 = rid r2).
Definition is_in (r : SReq) (l : list SReq) : bool := existsb (same_req r) l.

Definition preempt_key (sign : Z) (r : SReq) : Outcome (Z * Z) :=
  match q_priority r with
  | Some p => Ret (p * - sign, - q_entry_time r)
  | None => Raise TypeError
  end.

(** Requests to preempt, the lowest priority first, and the tokens still missing. *)
Fixpoint collect_preemptible (sign : Z) (r : SReq) (l : list SReq) (acc : list SReq) (missing : PyNum) :
    Outcome (list SReq * PyNum) :=
  match l with
  | [] => Ret (acc, missing)
  | x :: l' =>
      match q_priority r, q_priority x with
      | Some pr, Some px =>
          if preemption_threshold cf <? (pr - px) * - sign then
            let missing := num_sub rnd missing (_get_running_request_total_token_offset x) in
            if num_leb missing (NInt 0) then Ret (acc ++ [x], missing)
            else collect_preemptible sign r l' (acc ++ [x]) missing
          else Ret (acc, missing)
      | _, _ => Raise TypeError
      end
  end.

Context (release : SReq -> Z -> PyM C SReq).

(** Releasing the chosen requests in the order of the batch: the offset, the requests kept and
    those released. *)
Fixpoint release_loop (total : Z) (chosen : list SReq) (counter : Z) (off : PyNum) (l : list SReq) :
    PyM C (PyNum * list SReq * list SReq) :=
  match l with
  | [] => mret (off, [], [])
  | x :: l' =>
      if is_in x chosen then
        let off := num_sub rnd off (_get_running_request_total_token_offset x) in
        x' ← release x (total - (counter + 1));
        y ← release_loop total chosen (counter + 1) off l';
        mret (y.1.1, y.1.2, x' :: y.2)
      else
        y ← release_loop total chosen counter off l';
        mret (y.1.1, x :: y.1.2, y.2)
  end.

Definition preempt_to_schedule (low_values_first : bool) (r : SReq) : M bool :=
  let sign := if low_values_first then 1 else -1 in
  s ← py_get;
  match running_reqs s.1 with
  | None => py_raise AttributeError
  | Some running =>
      let valid := List.filter (fun x => negb (is_in x (preempt_list s.1)) && negb (q_finished x)) running in
      sorted ← py_lift (sort_keyed (lt_pair Z.ltb Z.ltb) (preempt_key sign) valid);
      let missing := num_sub rnd (NInt (q_extend r + Z.min (q_max_new r) CLIP)) (rem_total_tokens s) in
      x ← py_lift (collect_preemptible sign r sorted [] missing);
      let '(preemptible, missing) := x in
      if (zlen preemptible =? 0) || num_ltb (NInt 0) missing then mret false
      else
        y ← with_cache (release_loop (zlen running) preemptible 0 (rem_total_token_offset s.1) running);
        _ ← modify_adder (ad_preempt y.1.1 y.1.2 y.2);
        mret true
  end.
End adder.
