(* ===== verification/PrefillProofs.v ===== *)
(** * Admission never promises more memory than there is

    The invariant of a pass over a standard pool: every admitted request holds its prefix in
    the cache, the estimate of the tokens in use is at least what the admitted requests will
    allocate, and what they will allocate fits into the free and evictable slots.  It is
    proved against the laws of the prefix cache, for any rounding of the estimate. *)

From stdpp Require Import base tactics list gmap strings sorting.
From Stdlib Require Import ZArith Lia QArith Lqa.
From S2P Require Import Prelude PyStr RadixKey TreeNode EvictPolicy Allocator AllocatorProofs KVEvents.
From S2P Require Import RadixTree RadixInv RadixPaths RadixSlots RadixWalk RadixProofs RadixLocks RadixClaims ReqPool.
From S2P Require Import HiController HiRadix PyNum PrefixCache CacheLaws SchedPolicy SchedProofs SchedClaims PrefillAdder.

#[local] Open Scope Z_scope.

Section adm.
Context {C : Type} `{PrefixCacheLaws C}.
Context (rnd : Q -> Q) `{!Rounding rnd} (env : SchedEnv) (cf : AdderCfg).
Local Abbreviation ps := (page_size cf).
Local Abbreviation ceil := (ceil_paged_tokens cf).
(** A standard pool, sizes below [2^50]. *)
Context (Hps : 0 < ps <= 2 ^ 50) (Hswa : is_hybrid_swa cf = false) (Hssm : is_hybrid_ssm_cache cf = false).
Context (Hdllm : dllm_config cf = None) (Hclip : 0 <= clip_max_new_tokens env <= 2 ^ 50).

Lemma ceil_bounds n : n <= ceil n < n + ps.
Proof.
  unfold ceil_paged_tokens. pose proof (Z_div_mod_eq_full (- n) ps) as H1. pose proof (Z.mod_pos_bound (- n) ps ltac:(lia)) as H2.
  revert H1 H2. generalize (- n / ps) ((- n) mod ps). intros q m H1 H2. nia.
Qed.

(** What the batch will allocate at most: one page per request more than its tokens. *)
Definition need (l : list SReq) : Z := sumZ ((fun r => q_extend r + ps) <$> l).
Definition reserved (l : list SReq) : Z := sumZ ((fun r => ceil (q_extend r) + ps) <$> l).

Lemma need_snoc l r : need (l ++ [r]) = need l + (q_extend r + ps).
Proof. unfold need. rewrite fmap_app, sumZ_app. simpl. lia. Qed.
Lemma reserved_snoc l r : reserved (l ++ [r]) = reserved l + (ceil (q_extend r) + ps).
Proof. unfold reserved. rewrite fmap_app, sumZ_app. simpl. lia. Qed.

Lemma need_le_reserved l : need l <= reserved l.
Proof.
  induction l as [|r l IH] using rev_ind; [done|]. rewrite need_snoc, reserved_snoc.
  pose proof (ceil_bounds (q_extend r)). lia.
Qed.

Definition held (l : list SReq) : list nat := omap q_last l.
Lemma held_snoc l r i : q_last r = Some i -> held (l ++ [r]) = held l ++ [i].
Proof. intros Hr. unfold held. rewrite omap_app. simpl. by rewrite Hr. Qed.

(** What no scheduling step changes of a request. *)
Definition Core : Type := string * list Z * list Z * option string * (Z * bool * option Z * Z).
Definition core (r : SReq) : Core :=
  (rid r, q_origin r, q_output r, q_extra r, (q_max_new r, q_ignore_eos r, q_priority r, q_entry_time r)).

Definition core_rid (k : Core) : string := k.1.1.1.1.

(** [mixed] are the tokens of the decoding requests in the same batch. *)
Record admitted (mixed : Z) (hs : list nat) (s : AdState (C := C)) : Prop := mkAdmitted {
  ad_locked : pc_ok (held (can_run_list s.1) ++ hs) s.2;
  ad_extend : Forall (fun r => 0 <= q_extend r) (can_run_list s.1);
  ad_offset : (inject_Z (mixed + reserved (can_run_list s.1)) <= num_val (rem_total_token_offset s.1))%Q;
  ad_fits : can_run_list s.1 <> [] -> mixed + need (can_run_list s.1) < pc_budget s.2;
  ad_small : 0 <= mixed + reserved (can_run_list s.1) <= 2 ^ 51 }.

(** A request as [init_next_round_input] leaves it. *)
Record fresh (c : C) (r : SReq) : Prop := mkFresh {
  fr_last : exists i, q_last r = Some i /\ pc_node c i /\
    (q_host_hit r <> 0%nat -> exists b, q_best r = Some b /\ pc_loadable c i b (q_host_hit r));
  fr_extend : q_extend r = zlen (q_fill r) - zlen (q_prefix r);
  fr_hit : Z.of_nat (q_host_hit r) <= q_extend r }.

Lemma with_cache_ok {A} (m : PyM C A) (a : Adder) c (x : A) c' :
  m c = (Ret x, c') -> with_cache m (a, c) = (Ret x, (a, c')).
Proof. intros E. unfold with_cache. simpl. by rewrite E. Qed.

Lemma available_standard (c : C) : available_and_evictable cf c = pc_budget c.
Proof. unfold available_and_evictable. by rewrite Hswa, Hssm. Qed.

(** The check before a request is admitted, in whole numbers. *)
Lemma check_passed a (c : C) n z :
  num_leb (rem_total_tokens rnd cf (a, c)) (NInt n) = false ->
  (inject_Z z <= num_val (rem_total_token_offset a))%Q -> 0 <= z <= 2 ^ 51 -> 0 <= pc_budget c <= 2 ^ 50 ->
  n < pc_budget c - z.
Proof.
  intros Hn Hz Hz' Hb. unfold rem_total_tokens in Hn. cbn [fst snd] in Hn. rewrite available_standard in Hn.
  assert (num_val (num_sub rnd (NInt (pc_budget c)) (rem_total_token_offset a)) <= inject_Z (pc_budget c - z))%Q as Hle
    by (apply num_sub_le; [done|done|lia|lia]).
  destruct (Z.lt_ge_cases n (pc_budget c - z)) as [|Hge]; [done|]. exfalso.
  assert (num_leb (num_sub rnd (NInt (pc_budget c)) (rem_total_token_offset a)) (NInt n) = true) as Ht; [|congruence].
  apply num_leb_le. eapply Qle_trans; [exact Hle|]. simpl. rewrite <-Zle_Qle. lia.
Qed.

(** Loading back: the request shrinks by at most what the budget loses. *)
Lemma load_back_req_ok hs a c c0 i r :
  pc_ok hs c -> i ∈ hs -> fresh c0 r -> pc_same c0 c -> q_last r = Some i ->
  exists r' c' i' k, load_back_req r (a, c) = (Ret r', (a, c')) /\ pc_ok hs c' /\ q_last r' = Some i' /\ pc_node c' i' /\
    q_extend r' = q_extend r - k /\ 0 <= k <= q_extend r /\ core r' = core r /\
    (forall c2, pc_inc_lock (Some i') c' = (Ret tt, c2) -> pc_budget c - k <= pc_budget c2).
Proof.
  intros Hc Hi [(i0 & Hl & Hn & Hh) Hext Hhit] HS Hi'. rewrite Hi' in Hl. injection Hl as <-. unfold load_back_req.
  destruct (Nat.ltb_spec 0 (q_host_hit r)) as [Hpos|Hz].
  - destruct Hh as (b & Hb & Hld); [lia|]. rewrite Hb.
    destruct (law_load hs c i b (q_host_hit r) Hc Hi (law_same_load _ _ _ _ _ HS Hld)) as (d & i' & c' & E & Hc' & Hn' & Hd & Hbud).
    eexists _, c', i', (Z.of_nat (length d)). py_step (with_cache_ok _ a _ _ _ E). split_and!; [reflexivity|done|done|done| |lia|lia|done|done].
    simpl. unfold zlen in *. rewrite length_app. lia.
  - exists r, c, i, 0. split_and!; try done; [|lia|lia|].
    + by apply (law_same_node c0).
    + intros c2 E. destruct (law_inc hs c i Hc (law_same_node _ _ _ HS Hn)) as (c2' & E' & Hc2 & HS2). rewrite E in E'.
      injection E' as <-. rewrite Z.sub_0_r. apply (law_budget hs (i :: hs)); [done..|]. set_solver.
Qed.

Lemma ceil_idem n : ceil (ceil n) = ceil n.
Proof.
  unfold ceil_paged_tokens. generalize (- n / ps) as q. intros q.
  replace (- (- q * ps)) with (q * ps) by lia. by rewrite Z.div_mul by lia.
Qed.

(** A chunk is shorter than the request. *)
Lemma chunk_len_le chunk align r t :
  chunk < ceil (q_extend r) -> (forall a, align = Some a -> 0 < a) -> chunk_len cf chunk align r = Some t -> 0 < t < q_extend r.
Proof.
  intros Hc Ha. unfold chunk_len. set (p := zlen (q_prefix r)).
  assert (chunk / ps * ps < q_extend r) as Hf.
  { unfold ceil_paged_tokens in Hc. assert (0 < ps) as Hp by apply Hps. pose proof (Z.mul_div_le (- q_extend r) ps Hp) as H1.
    pose proof (Z.mul_div_le chunk ps Hp) as H2. pose proof (Z.mul_succ_div_gt (- q_extend r) ps Hp) as H3.
    revert Hc H1 H2 H3. generalize (chunk / ps) (- q_extend r / ps). intros x y Hc H1 H2 H3.
    assert (x < - y) by nia. nia. }
  revert Hf. generalize (chunk / ps * ps). intros u Hu. destruct (Z.leb_spec u 0); [done|].
  assert (forall v, v <= u ->
    (if (v + p) / ps * ps - p <=? 0 then None else Some ((v + p) / ps * ps - p)) = Some t -> 0 < t < q_extend r) as Hlast.
  { intros v Hv. pose proof (Z.mul_div_le (v + p) ps (proj1 Hps)). case_match eqn:El; [done|]. intros [= <-].
    apply Z.leb_gt in El. lia. }
  destruct align as [a|]; [|by apply Hlast]. destruct (Z.ltb_spec u a); [done|]. apply Hlast.
  apply Z.mul_div_le. by apply Ha.
Qed.

(** Charging a request to the budgets. *)
Lemma update_offset mixed a p n e mn :
  (inject_Z (mixed + reserved (can_run_list a)) <= num_val (rem_total_token_offset a))%Q ->
  ceil n = ceil e -> 0 <= mn <= 2 ^ 50 -> 0 <= mixed + reserved (can_run_list a) <= 2 ^ 51 -> 0 <= e -> e + ps <= 2 ^ 50 ->
  (inject_Z (mixed + reserved (can_run_list a) + (ceil e + ps)) <= num_val (rem_total_token_offset (_update_prefill_budget rnd cf p n mn a)))%Q.
Proof.
  intros Ho Hn Hm Hs He Hb. simpl. rewrite Hn. pose proof (ceil_bounds e).
  eapply Qle_trans; [|apply (num_add_ge rnd _ _ _ Ho)]; [rewrite <-Zle_Qle; lia|lia|lia].
Qed.

(** What an admission leaves behind. *)
Record joined (mixed B : Z) (hs : list nat) (i' : nat) (r r' : SReq) (a a' : Adder) (c' : C) : Prop := mkJoined {
  jn_list : can_run_list a' = can_run_list a ++ [r'];
  jn_core : core r' = core r;
  jn_rest : preempt_list a' = preempt_list a /\ running_reqs a' = running_reqs a;
  jn_last : q_last r' = Some i';
  jn_extend : 0 <= q_extend r' <= q_extend r;
  jn_ok : pc_ok (i' :: hs) c';
  jn_budget : B <= pc_budget c';
  jn_offset : (inject_Z (mixed + reserved (can_run_list a')) <= num_val (rem_total_token_offset a'))%Q }.

(** The three ways of admitting a request share this step. *)
Lemma join_ok mixed B hs i' r r' a a0 c n mn p :
  pc_ok hs c -> core r' = core r -> q_last r' = Some i' -> pc_node c i' -> 0 <= q_extend r' <= q_extend r -> q_extend r + ps <= 2 ^ 50 ->
  (inject_Z (mixed + reserved (can_run_list a)) <= num_val (rem_total_token_offset a))%Q ->
  0 <= mixed + reserved (can_run_list a) <= 2 ^ 51 -> 0 <= mn <= 2 ^ 50 -> ceil n = ceil (q_extend r') ->
  (forall c2, pc_inc_lock (Some i') c = (Ret tt, c2) -> B <= pc_budget c2) ->
  can_run_list a0 = can_run_list a ++ [r'] -> rem_total_token_offset a0 = rem_total_token_offset a ->
  preempt_list a0 = preempt_list a -> running_reqs a0 = running_reqs a ->
  exists c', (_ ← with_cache (pc_inc_lock (q_last r')); _ ← modify_adder (_update_prefill_budget rnd cf p n mn); mret (Some r')) (a0, c)
      = (Ret (Some r'), (_update_prefill_budget rnd cf p n mn a0, c')) /\
    joined mixed B hs i' r r' a (_update_prefill_budget rnd cf p n mn a0) c'.
Proof.
  intros Hc Hcr Hl Hn He Hb Ho Hs Hm Hce HB Hl0 Ho0 Hp0 Hr0. destruct (law_inc hs c i' Hc Hn) as (c' & E & Hc' & _).
  exists c'. rewrite Hl. split; [by py_step (with_cache_ok _ a0 _ _ _ E)|]. constructor; [exact Hl0|exact Hcr|by split|exact Hl|exact He|exact Hc'|exact (HB _ E)|].
  cbn [can_run_list _update_prefill_budget]. rewrite Hl0, reserved_snoc. simpl. rewrite Ho0, Z.add_assoc.
  apply (update_offset mixed a p n (q_extend r') mn); [done|done|done|done|lia|lia].
Qed.

Lemma admit_req_ok mixed B hs a c r i' align :
  pc_ok hs c -> q_last r = Some i' -> pc_node c i' -> 0 <= q_extend r -> q_extend r + ps <= 2 ^ 50 -> 0 <= q_max_new r ->
  (inject_Z (mixed + reserved (can_run_list a)) <= num_val (rem_total_token_offset a))%Q ->
  0 <= mixed + reserved (can_run_list a) <= 2 ^ 51 -> (forall x, align = Some x -> 0 < x) ->
  (forall c2, pc_inc_lock (Some i') c = (Ret tt, c2) -> B <= pc_budget c2) ->
  exists o a' c', admit_req rnd env cf align r (a, c) = (Ret o, (a', c')) /\
    match o with
    | None => a' = a /\ c' = c
    | Some r' => joined mixed B hs i' r r' a a' c'
    end.
Proof.
  intros Hc Hl Hn He Hb Hm Ho Hs Ha HB. unfold admit_req. rewrite py_bind_get. cbv zeta. cbn [fst].
  destruct (batch_full _ _); [by eexists None, a, c|]. rewrite Hdllm.
  assert (exists o a' c', (_ ← modify_adder (ad_append r); _ ← with_cache (pc_inc_lock (q_last r));
      _ ← modify_adder (_update_prefill_budget rnd cf (zlen (q_prefix r)) (ceil (q_extend r)) (Z.min (q_max_new r) (clip_max_new_tokens env)));
      mret (Some r)) (a, c) = (Ret o, (a', c')) /\
    match o with None => a' = a /\ c' = c | Some r' => joined mixed B hs i' r r' a a' c' end) as Hwhole.
  { destruct (join_ok mixed B hs i' r r a (ad_append r a) c (ceil (q_extend r)) (Z.min (q_max_new r) (clip_max_new_tokens env)) (zlen (q_prefix r)))
      as (c' & E & HJ); try done; [lia|apply ceil_idem|]. by eexists (Some r), _, c'. }
  destruct (rem_chunk_tokens a) as [chunk|]; [|exact Hwhole].
  destruct (Z.leb_spec (ceil (q_extend r)) chunk) as [Hle|Hgt]; [exact Hwhole|].
  destruct (chunk_len cf chunk align r) as [t|] eqn:Et; [|by eexists None, a, c].
  destruct (chunk_len_le _ _ _ _ Hgt Ha Et) as [Ht1 Ht2].
  set (r' := q_set_fill _ _). destruct (join_ok mixed B hs i' r r' a (ad_chunked r' (ad_append r' a)) c t 0 (zlen (q_prefix r)))
    as (c' & E & HJ); try done; [simpl; lia|]. by eexists (Some r'), _, c'.
Qed.

Context (Hcap : pc_capacity <= 2 ^ 50).

Lemma py_finally_ok {S A} (m : PyM S A) f s (x : A) s1 s2 :
  m s = (Ret x, s1) -> f s1 = (Ret tt, s2) -> py_finally m f s = (Ret x, s2).
Proof. intros E1 E2. unfold py_finally. by rewrite E1, E2. Qed.

(** What happens under the lock of the prefix: nothing, or an admission. *)
Inductive locked_result (mixed : Z) (hs : list nat) (i : nat) (r0 : SReq) (a : Adder) (c : C) :
    SReq -> option AddReqResult -> Adder -> C -> Prop :=
  | lr_refused r res c2 :
      core r = core r0 -> pc_ok (i :: held (can_run_list a) ++ hs) c2 -> pc_same c c2 -> res <> CONTINUE ->
      locked_result mixed hs i r0 a c r (Some res) a c2
  | lr_loaded r res c2 :
      core r = core r0 -> pc_ok (i :: held (can_run_list a) ++ hs) c2 -> mixed + need (can_run_list a) < pc_budget c2 -> res <> CONTINUE ->
      locked_result mixed hs i r0 a c r (Some res) a c2
  | lr_joined r r' i' a' c2 B :
      core r = core r0 -> joined mixed B (i :: held (can_run_list a) ++ hs) i' r r' a a' c2 ->
      mixed + reserved (can_run_list a) + q_extend r + ps < B ->
      locked_result mixed hs i r0 a c r' None a' c2.

Lemma add_locked_ok mixed hs a c c1 r i align :
  admitted mixed hs (a, c) -> fresh c r -> q_last r = Some i -> pc_same c c1 -> pc_ok (i :: held (can_run_list a) ++ hs) c1 ->
  0 <= q_max_new r -> (forall x, align = Some x -> 0 < x) ->
  exists r' o a' c2, add_locked rnd env cf align r (a, c1) = (Ret (r', o), (a', c2)) /\ locked_result mixed hs i r a c r' o a' c2.
Proof.
  intros [Hok Hex Hoff Hfit Hsm] Hfr Hl HS Hc1 Hm Ha. cbn [fst snd] in *. unfold add_locked. rewrite py_bind_get.
  destruct (num_leb (rem_total_tokens rnd cf (a, c1)) (NInt (req_total_tokens env cf r))) eqn:Eck.
  { eexists r, _, a, c1. split; [done|]. by apply lr_refused. }
  pose proof (law_capacity _ _ Hc1) as Hcap1.
  assert (req_total_tokens env cf r < pc_budget c1 - (mixed + reserved (can_run_list a))) as Hck
    by (apply (check_passed a c1 _ _ Eck Hoff); lia).
  unfold req_total_tokens in Hck. unfold swa_short. rewrite Hswa. cbn [andb].
  destruct (load_back_req_ok _ a c1 c i r Hc1 ltac:(set_solver) Hfr HS Hl) as (r1 & c1' & i' & k & E1 & Hc1' & Hl1 & Hn1 & Hx1 & Hk & Hm1 & Hb1).
  py_step E1. assert (q_max_new r1 = q_max_new r) by (injection Hm1; congruence).
  destruct (admit_req_ok mixed (pc_budget c1 - k) _ a c1' r1 i' align Hc1' Hl1 Hn1) as (o & a' & c2 & E2 & HJ); [lia..|done|done|done|done|].
  py_step E2. destruct o as [r'|].
  - eexists r', None, a', c2. split; [done|]. eapply lr_joined; [exact Hm1|done|]. lia.
  - destruct HJ as [-> ->]. eexists r1, _, a, c1'. split; [done|]. apply lr_loaded; [done|done| |done].
    destruct (law_inc _ c1' i' Hc1' Hn1) as (c3 & E3 & Hc3 & HS3). specialize (Hb1 _ E3).
    assert (pc_budget c3 <= pc_budget c1') by (eapply (law_budget (i' :: i :: held (can_run_list a) ++ hs)); [by apply law_same_sym|exact Hc3|exact Hc1'|set_solver]).
    pose proof (need_le_reserved (can_run_list a)). lia.
Qed.

(** Releasing the temporary lock. *)
Lemma locked_result_ok mixed hs i r0 a c r o a' c2 :
  admitted mixed hs (a, c) -> locked_result mixed hs i r0 a c r o a' c2 -> 
  exists c3, pc_dec_lock (Some i) c2 = (Ret tt, c3) /\ admitted mixed hs (a', c3) /\ core r = core r0 /\
    preempt_list a' = preempt_list a /\ running_reqs a' = running_reqs a /\
    match o with Some res => a' = a /\ res <> CONTINUE | None => can_run_list a' = can_run_list a ++ [r] end.
Proof.
  intros [Hok Hex Hoff Hfit Hsm] HR. cbn [fst snd] in *. destruct HR as [r res c2 Hcr Hc HS Hres|r res c2 Hcr Hc Hb Hres|r r' i' a' c2 B Hcr [J1 J0 Jr J2 J3 J4 J5 J6] HB].
  - destruct (law_dec _ (held (can_run_list a) ++ hs) c2 i Hc) as (c3 & E & Hc3 & HS3); [done|]. exists c3. split_and!; [done| |done..].
    constructor; try done. simpl. intros Hne. specialize (Hfit Hne).
    enough (pc_budget c <= pc_budget c3) by lia. eapply same_budget; [|done..]. by eapply law_same_trans.
  - destruct (law_dec _ (held (can_run_list a) ++ hs) c2 i Hc) as (c3 & E & Hc3 & HS3); [done|]. exists c3. split_and!; [done| |done..].
    constructor; try done. simpl. intros _.
    enough (pc_budget c2 <= pc_budget c3) by lia. eapply law_budget; [done..|]. set_solver.
  - destruct (law_dec _ (i' :: held (can_run_list a) ++ hs) c2 i J4) as (c3 & E & Hc3 & HS3); [constructor|]. exists c3. split_and!; [done| |by rewrite J0|apply Jr|apply Jr|done].
    assert (B <= pc_budget c3).
    { etransitivity; [exact J5|]. eapply law_budget; [done..|]. set_solver. }
    pose proof (law_capacity _ _ Hc3). pose proof (need_le_reserved (can_run_list a)). pose proof (ceil_bounds (q_extend r')).
    constructor; cbn [fst snd]; rewrite ?J1 in *; try done.
    + rewrite (held_snoc _ _ i' J2). eapply law_perm; [|exact Hc3]. rewrite <-(assoc_L (++)). apply Permutation_middle.
    + apply Forall_app. split; [done|]. constructor; [lia|done].
    + intros _. rewrite need_snoc. lia.
    + rewrite reserved_snoc. lia.
Qed.

(** An offer: the request joins the batch, or nothing but the cache changes. *)
Lemma add_one_req_ok mixed hs a c r align :
  admitted mixed hs (a, c) -> fresh c r -> 0 <= q_max_new r -> (forall x, align = Some x -> 0 < x) ->
  q_ignore_eos r && (if cache_has_disable cf then pc_disable else true) = false ->
  exists r' res a' c', add_one_req rnd env cf align r (a, c) = (Ret (r', res), (a', c')) /\
    admitted mixed hs (a', c') /\ core r' = core r /\ preempt_list a' = preempt_list a /\ running_reqs a' = running_reqs a /\
    (can_run_list a' = can_run_list a ++ [r'] \/ (a' = a /\ res <> CONTINUE)).
Proof.
  intros Had Hfr Hm Ha Hig. unfold add_one_req. rewrite py_bind_get. rewrite Hig.
  assert (forall res, res <> CONTINUE -> exists r' res' a' c', (mret (r, res) : PyM AdState _) (a, c) = (Ret (r', res'), (a', c')) /\
    admitted mixed hs (a', c') /\ core r' = core r /\ preempt_list a' = preempt_list a /\ running_reqs a' = running_reqs a /\
    (can_run_list a' = can_run_list a ++ [r'] \/ (a' = a /\ res' <> CONTINUE))) as Hno
    by (intros res Hres; eexists r, res, a, c; split_and!; [done|done|done|done|done|by right]).
  destruct (delayed cf); [by apply Hno|]. destruct (context_parallel cf && _); [by apply Hno|].
  destruct (match prefill_max_requests cf with Some _ => _ | None => _ end); [by apply Hno|].
  cbv zeta. destruct (num_leb _ _); [by apply Hno|]. destruct (swa_short _ _ _); [by apply Hno|].
  destruct (batch_full _ _); [by apply Hno|].
  pose proof Hfr as [(i & Hl & Hn & _) _ _]. rewrite Hl.
  destruct (law_inc _ c i (ad_locked _ _ _ Had) Hn) as (c1 & E1 & Hc1 & HS1).
  destruct (add_locked_ok mixed hs a c c1 r i align Had Hfr Hl HS1 Hc1 Hm Ha) as (r' & o & a' & c2 & E2 & HR).
  destruct (locked_result_ok mixed hs i r a c r' o a' c2 Had HR) as (c3 & E3 & Had3 & Hcr & Hp' & Hr' & Hres).
  assert (_lock_node (Some i) (add_locked rnd env cf align r) (a, c) = (Ret (r', o), (a', c3))) as E.
  { unfold _lock_node. eapply py_finally_ok; [py_step (with_cache_ok _ a _ _ _ E1); exact E2|by apply with_cache_ok]. }
  py_step E. cbn [fst snd]. destruct o as [res|].
  - destruct Hres as [-> Hres]. eexists r', res, a, c3. split_and!; [done|done|done|done|done|by right].
  - eexists r', _, a', c3. split_and!; [done|done|done|done|done|by left].
Qed.
End adm.

(** ** The insertion of [add_req_state]

    The loop that looks for the place of a new request leaves its variable at the last index
    when no larger entry exists, so a request with the most tokens left is inserted before the
    last entry instead of after it, and the simulated release sees an unsorted list. *)
Lemma add_req_state_misplaces :
  let cf := mkAdderCfg 1 (NFloat 1) false false 0 true None 0 None false None in
  let r := mkSReq "r" [1] [] [] None [] None None None 0 1 0 20 true None 0 None false (-1) 0 false false false in
  let l := [(NInt 10, 30)] in
  let inserted := add_req_state (fun q => q) cf r true l in
  let sorted := sort_on num_ltb fst (add_req_state (fun q => q) cf r false l) in
  zlen inserted = 2 /\ num_ltb (default (NInt 0) (inserted.*1 !! 1%nat)) (default (NInt 0) (inserted.*1 !! 0%nat)) = true /\
  enough_tokens (fun q => q) 40 0 sorted = true /\ enough_tokens (fun q => q) 40 0 inserted = false.
Proof. vm_compute. split_and!; reflexivity. Qed.
