(* ===== verification/Scheduler.v ===== *)
(** * Building a prefill batch (managers/scheduler.py)

    [_get_new_batch_prefill_raw]: order the waiting queue, continue the request whose prompt
    is being computed in chunks, then offer the waiting requests to the adder until one is
    refused; the admitted requests leave the queue.  Without LoRA adapters, grammars,
    disaggregation, prefetching from storage and dynamic chunk sizes; preempted requests are
    appended to the queue. *)

From stdpp Require Import base tactics list gmap strings.
From Stdlib Require Import ZArith Lia QArith.
From S2P Require Import Prelude PyStr RadixKey TreeNode EvictPolicy Allocator AllocatorProofs KVEvents.
From S2P Require Import RadixTree ReqPool HiController HiRadix PyNum PrefixCache SchedPolicy PrefillAdder.

#[local] Open Scope Z_scope.

Record ServerCfg := mkServerCfg {
  sv_policy : SchedulePolicy;
  enable_priority_preemption : bool;
  enable_hierarchical_cache : bool;
  is_mixed_chunk : bool;
  max_prefill_tokens : Z;
  chunked_prefill_size : option Z;
  truncation_align_size : option Z;
  pp_max_micro_batch_size : Z }.

Record Sched (C : Type) := mkSched {
  sc_cache : C;
  sc_sim : Cache unit;
  waiting_queue : list SReq;
  running_batch : list SReq;
  batch_is_full : bool;
  chunked_req : option SReq;
  req_slots : Z }.
Arguments mkSched {C}.
Arguments sc_cache {C}.
Arguments sc_sim {C}.
Arguments waiting_queue {C}.
Arguments running_batch {C}.
Arguments batch_is_full {C}.
Arguments chunked_req {C}.
Arguments req_slots {C}.

Section scheduler.
Context {C : Type} `{!PrefixCache C}.
Context (rnd : Q -> Q) (env : SchedEnv) (is_chunk_cache : bool) (now : nat -> Z) (sha256 : list Z -> string).
Context (shuffle : list SReq -> list SReq) (release : SReq -> Z -> PyM C SReq).
Context (sv : ServerCfg) (cf : AdderCfg).

(** [req_slots] is the number of free rows of the request pool. *)
Definition get_num_allocatable_reqs (req_slots running_bs : Z) : Z :=
  Z.min (pp_max_micro_batch_size sv - running_bs) req_slots.

(** The loop over the waiting queue: the queue with the changes of the requests, and
    [batch_is_full]. *)
Fixpoint admit_loop (slots : Z) (q : list SReq) (full : bool) : PyM (AdState (C := C)) (list SReq * bool) :=
  match q with
  | [] => mret ([], full)
  | r :: q' =>
      s ← py_get;
      let running_bs := zlen (default [] (running_reqs s.1)) in
      let full := if get_num_allocatable_reqs slots running_bs <=? zlen (can_run_list s.1) then true else full in
      go ← (if full then
              if enable_priority_preemption sv
              then preempt_to_schedule rnd env cf release (schedule_low_priority_values_first (sv_policy sv)) r
              else mret false
            else mret true);
      if negb go then mret (r :: q', full)
      else
        r ← with_cache (init_next_round_input env is_chunk_cache true r);
        x ← add_one_req rnd env cf (truncation_align_size sv) r;
        match x.2 with
        | CONTINUE => y ← admit_loop slots q' full; mret (x.1 :: y.1, y.2)
        | NO_TOKEN =>
            s ← py_get;
            mret (x.1 :: q',
                  if enable_hierarchical_cache sv
                  then (0 <? zlen (can_run_list s.1)) || negb (zlen (default [] (running_reqs s.1)) =? 0)
                  else true)
        | OTHER => mret (x.1 :: q', full)
        end
  end.

(** The chunked request of the previous batch. *)
Definition continue_chunked (o : option SReq) : PyM (AdState (C := C)) (option SReq) :=
  match o with
  | None => mret None
  | Some r =>
      r ← with_cache (init_next_round_input env is_chunk_cache false r);
      x ← add_chunked_req rnd env cf r;
      mret (if (x : SReq * bool).2 then Some x.1 else None)
  end.

Definition run_adder {A} (m : PyM (AdState (C := C)) A) (a : Adder) : PyM (Sched C) (A * Adder) := fun s =>
  match m (a, sc_cache s) with
  | (Ret x, (a', c')) =>
      (Ret (x, a'), mkSched c' (sc_sim s) (waiting_queue s) (running_batch s) (batch_is_full s) (chunked_req s) (req_slots s))
  | (Raise e, (_, c')) =>
      (Raise e, mkSched c' (sc_sim s) (waiting_queue s) (running_batch s) (batch_is_full s) (chunked_req s) (req_slots s))
  | (OutOfFuel, (_, c')) =>
      (OutOfFuel, mkSched c' (sc_sim s) (waiting_queue s) (running_batch s) (batch_is_full s) (chunked_req s) (req_slots s))
  end.
Definition run_policy {A} (m : PyM (C * Cache unit) A) : PyM (Sched C) A := fun s =>
  let '(r, (c', t')) := m (sc_cache s, sc_sim s) in
  (r, mkSched c' t' (waiting_queue s) (running_batch s) (batch_is_full s) (chunked_req s) (req_slots s)).
Definition set_full (b : bool) : PyM (Sched C) unit :=
  py_modify (fun s => mkSched (sc_cache s) (sc_sim s) (waiting_queue s) (running_batch s) b (chunked_req s) (req_slots s)).
Definition set_queue_running (q running : list SReq) (chunked : option SReq) : PyM (Sched C) unit :=
  py_modify (fun s => mkSched (sc_cache s) (sc_sim s) q running (batch_is_full s) chunked (req_slots s)).

(** The requests of the new batch, or [None]. *)
Definition _get_new_batch_prefill_raw : PyM (Sched C) (option (list SReq)) :=
  _ ← (if enable_priority_preemption sv || is_hybrid_swa cf then set_full false else mret tt);
  s ← py_get;
  if (batch_is_full s || bool_decide (waiting_queue s = [])) && bool_decide (chunked_req s = None) then mret None
  else
    let running_bs := zlen (running_batch s) in
    if (get_num_allocatable_reqs (req_slots s) running_bs <=? 0) && bool_decide (chunked_req s = None)
       && negb (enable_priority_preemption sv)
    then _ ← set_full true; mret None
    else
      x ← run_policy (calc_priority env is_chunk_cache now sha256 shuffle (sv_policy sv) (waiting_queue s) (Some (running_batch s)));
      let queue := x.2 in
      let adder := new_PrefillAdder rnd env cf (max_prefill_tokens sv) (chunked_prefill_size sv)
                     (if is_mixed_chunk sv then running_bs else 0) (Some (running_batch s)) in
      y ← run_adder (continue_chunked (chunked_req s)) adder;
      z ← run_adder (admit_loop (req_slots s) queue (batch_is_full s)) y.2;
      let adder := z.2 in
      let running := default [] (running_reqs adder) in
      _ ← set_full z.1.2;
      if bool_decide (can_run_list adder = []) then
        _ ← set_queue_running z.1.1 running y.1; mret None
      else
        let waiting := List.filter (fun r => negb (is_in r (can_run_list adder))) z.1.1 ++ preempt_list adder in
        match new_chunked_req adder, y.1 with
        | Some _, Some _ => py_raise AssertionError
        | Some r, None => _ ← set_queue_running waiting running (Some r); mret (Some (can_run_list adder))
        | None, ch => _ ← set_queue_running waiting running ch; mret (Some (can_run_list adder))
        end.
End scheduler.
