(* ===== verification/SchedulerProofs.v ===== *)
(** * The scheduler never builds a batch that does not fit

    One pass of [_get_new_batch_prefill_raw] over a standard pool, composed of matching,
    ordering and admission: it succeeds, its batch fits into memory, and no request is lost. *)

From stdpp Require Import base tactics list gmap strings sorting.
From Stdlib Require Import ZArith Lia QArith Lqa.
From S2P Require Import Prelude PyStr RadixKey TreeNode EvictPolicy Allocator AllocatorProofs KVEvents.
From S2P Require Import RadixTree RadixInv RadixPaths RadixSlots RadixWalk RadixProofs RadixLocks RadixClaims ReqPool.
From S2P Require Import HiController HiRadix PyNum PrefixCache CacheLaws SchedPolicy SchedProofs SchedClaims.
From S2P Require Import PrefillAdder PrefillProofs Scheduler.

#[local] Open Scope Z_scope.

(** ** The estimate for the running requests *)

Section estimate.
Context (rnd : Q -> Q) `{!Rounding rnd}.

Lemma rnd_nonneg q : (0 <= q)%Q -> (0 <= rnd q)%Q.
Proof.
  intros Hq. eapply Qle_trans; [|by apply rnd_mono]. change 0%Q with (inject_Z 0). rewrite (rnd_int 0) by done. apply Qle_refl.
Qed.

Lemma to_float_nonneg x : (0 <= num_val x)%Q -> (0 <= to_float rnd x)%Q.
Proof. destruct x; [by apply rnd_nonneg|done]. Qed.

Lemma num_add_nonneg x y : (0 <= num_val x)%Q -> (0 <= num_val y)%Q -> (0 <= num_val (num_add rnd x y))%Q.
Proof.
  intros Hx Hy. pose proof (to_float_nonneg x Hx). pose proof (to_float_nonneg y Hy).
  destruct x as [a|p], y as [b|q]; simpl in *; try (apply rnd_nonneg; simpl in *; lra).
  change 0%Q with (inject_Z 0) in *. rewrite <-Zle_Qle in *. lia.
Qed.

Lemma num_sum_nonneg l : Forall (fun x => (0 <= num_val x)%Q) l -> (0 <= num_val (num_sum rnd l))%Q.
Proof.
  unfold num_sum. intros Hl. assert (0 <= num_val (NInt 0))%Q as H0 by apply Qle_refl. revert H0. generalize (NInt 0).
  induction Hl as [|x l Hx _ IH]; intros n Hn; [done|]. apply IH. by apply num_add_nonneg.
Qed.

(** A non-negative number added to an integer. *)
Lemma num_add_int_ge m x : (0 <= num_val x)%Q -> Z.abs m <= 2 ^ 53 -> (inject_Z m <= num_val (num_add rnd (NInt m) x))%Q.
Proof.
  intros Hx Hm. destruct x as [a|q]; simpl in *.
  - change 0%Q with (inject_Z 0) in *. rewrite <-Zle_Qle in *. lia.
  - rewrite <-(rnd_int m) at 1 by done. apply rnd_mono. rewrite (rnd_int m) by done. lra.
Qed.

Lemma num_mul_nonneg x y : (0 <= num_val x)%Q -> (0 <= num_val y)%Q -> (0 <= num_val (num_mul rnd x y))%Q.
Proof.
  intros Hx Hy. pose proof (to_float_nonneg x Hx). pose proof (to_float_nonneg y Hy).
  destruct x as [a|p], y as [b|q]; simpl in *; try (apply rnd_nonneg; by apply Qmult_le_0_compat).
  change 0%Q with (inject_Z 0) in *. rewrite <-Zle_Qle in *. lia.
Qed.
End estimate.

Section pass.
Context {C : Type} `{PrefixCacheLaws C}.
Context (rnd : Q -> Q) `{!Rounding rnd} (env : SchedEnv) (is_chunk_cache : bool) (now : nat -> Z) (sha256 : list Z -> string).
Context (shuffle : list SReq -> list SReq) (Hshuffle : forall l, shuffle l ≡ₚ l) (release : SReq -> Z -> PyM C SReq).
Context (sv : ServerCfg) (cf : AdderCfg).
Local Abbreviation ps := (page_size cf).
(** A standard pool, sizes below [2^50], no preemption. *)
Context (Hps : 0 < ps <= 2 ^ 50) (Hswa : is_hybrid_swa cf = false) (Hssm : is_hybrid_ssm_cache cf = false).
Context (Hdllm : dllm_config cf = None) (Hclip : 0 <= clip_max_new_tokens env <= 2 ^ 50) (Hcap : pc_capacity <= 2 ^ 50).
Context (Hpre : enable_priority_preemption sv = false) (Halign : forall x, truncation_align_size sv = Some x -> 0 < x).

(** Requests that can be scheduled here. *)
Definition plain (r : SReq) : Prop :=
  0 <= q_max_new r /\ q_ignore_eos r && (if cache_has_disable cf then pc_disable else true) = false.

Lemma core_plain r r' : core r' = core r -> plain r -> plain r'.
Proof. unfold core, plain. intros E. injection E. intros. by repeat match goal with X : _ r' = _ |- _ => rewrite X; clear X end. Qed.

Lemma slice_to_len {A} n (l : list A) : (length (slice_to n l) <= length l)%nat.
Proof. unfold slice_to. rewrite length_take. lia. Qed.

(** Matching a request before it is offered. *)
Lemma init_next_round_input_ok hs c r : pc_ok hs c ->
  exists r' c', init_next_round_input env is_chunk_cache true r c = (Ret r', c') /\ refined hs c c' /\ fresh c' r' /\ core r' = core r.
Proof.
  intros Hc. unfold init_next_round_input. cbv zeta.
  match goal with |- context [match_prefix_for_req env is_chunk_cache ?x _] => set (r1 := x) end.
  match goal with |- context [match_prefix_for_req env is_chunk_cache r1 ?ids] => set (tids := ids) end.
  destruct (match_prefix_for_req_ok env is_chunk_cache hs c r1 tids Hc) as (m & c' & E & HR & Hn & Hlen & Hld).
  assert (core r1 = core r) as Hcr by (unfold r1; by case_match).
  assert (zlen (q_fill r1) = zlen (q_origin r ++ q_output r)) as Hfill by (unfold r1; by case_match).
  assert (Z.of_nat (length tids) <= zlen (q_fill r1)) as Ht.
  { unfold tids, zlen. match goal with |- context [if ?b then [] else _] => destruct b end; [simpl; lia|].
    match goal with |- context [slice_to ?n ?l] => pose proof (slice_to_len n l) end. lia. }
  eexists _, c'. split; [|split; [exact HR|split]].
  - erewrite (py_bind_Ret _ _ _ _ c'); [done|]. py_step E. done.
  - constructor.
    + exists (last_device_node (hm_match m)). split_and!; [done|done|]. intros Hh. exists (best_match_node (hm_match m)). auto.
    + done.
    + simpl. unfold zlen in *. lia.
  - exact Hcr.
Qed.

Lemma admitted_refined mixed hs a c c' :
  admitted cf mixed hs (a, c) -> refined (held (can_run_list a) ++ hs) c c' -> admitted cf mixed hs (a, c').
Proof. intros [H1 H2 H3 H4 H5] (Hc & Hb & _). constructor; try done. simpl. rewrite Hb. exact H4. Qed.

(** The loop over the queue. *)
Record looped (mixed : Z) (hs : list nat) (a : Adder) (q q' l : list SReq) (a' : Adder) (c' : C) : Prop := mkLooped {
  lo_ok : admitted cf mixed hs (a', c');
  lo_queue : core <$> q' = core <$> q;
  lo_list : can_run_list a' = can_run_list a ++ l;
  lo_sub : (core <$> l) `sublist_of` (core <$> q);
  lo_rest : preempt_list a' = preempt_list a /\ running_reqs a' = running_reqs a }.

Lemma looped_stop mixed hs a q q' c : admitted cf mixed hs (a, c) -> core <$> q' = core <$> q -> looped mixed hs a q q' [] a c.
Proof. intros Ha Hq. constructor; [done|done|by rewrite app_nil_r|apply sublist_nil_l|done]. Qed.

Lemma admit_loop_ok mixed hs slots q : forall full a c, admitted cf mixed hs (a, c) -> Forall plain q ->
  exists q' full' l a' c', admit_loop rnd env is_chunk_cache release sv cf slots q full (a, c) = (Ret (q', full'), (a', c')) /\
    looped mixed hs a q q' l a' c'.
Proof.
  induction q as [|r q IH]; intros full a c Ha Hq.
  { eexists [], full, [], a, c. split; [done|]. by apply looped_stop. }
  apply Forall_cons in Hq as [Hr Hq]. cbn [admit_loop]. rewrite py_bind_get. cbv zeta. rewrite Hpre.
  match goal with |- context [if ?b then true else full] => generalize (if b then true else full) end. clear full. intros full.
  destruct full; [eexists (r :: q), true, [], a, c; split; [done|by apply looped_stop]|].
  destruct (init_next_round_input_ok _ c r (ad_locked _ _ _ _ Ha)) as (r1 & c1 & E1 & HR1 & Hf1 & Hc1). cbn [fst snd] in *.
  pose proof (core_plain _ _ Hc1 Hr) as [Hm1 Hi1].
  erewrite (py_bind_Ret (mret true)) by reflexivity. cbn [negb]. py_step (with_cache_ok _ a _ _ _ E1).
  destruct (add_one_req_ok rnd env cf Hps Hswa Hssm Hdllm Hclip Hcap mixed hs a c1 r1 (truncation_align_size sv))
    as (r2 & res & a2 & c2 & E2 & Ha2 & Hc2 & Hp2 & Hr2 & Hres); [by eapply admitted_refined|done|done|done|done|].
  py_step E2. cbn [fst snd].
  assert (exists l1, can_run_list a2 = can_run_list a ++ l1 /\ (l1 = [r2] \/ l1 = [] /\ res <> CONTINUE)) as (l1 & Hl1 & Hl1').
  { destruct Hres as [->|[-> Hne]]; [exists [r2]; auto|exists []; rewrite app_nil_r; auto]. }
  assert (looped mixed hs a (r :: q) (r2 :: q) l1 a2 c2) as Hstop.
  { constructor; [done|by rewrite !fmap_cons, Hc2, Hc1|done| |done].
    destruct Hl1' as [->|[-> _]]; [|apply sublist_nil_l]. simpl. rewrite Hc2, Hc1. apply sublist_skip, sublist_nil_l. }
  destruct res.
  - destruct (IH false a2 c2 Ha2 Hq) as (q' & full' & l & a' & c' & E3 & [L1 L2 L3 L4 [L5 L6]]).
    py_step E3. eexists (r2 :: q'), full', (l1 ++ l), a', c'. split; [done|]. constructor; [done| | | |].
    + by rewrite !fmap_cons, Hc2, Hc1, L2.
    + by rewrite L3, Hl1, <-(assoc_L (++)).
    + destruct Hl1' as [->|[_ Hne]]; [|done]. simpl. rewrite Hc2, Hc1. by apply sublist_skip.
    + split; congruence.
  - rewrite py_bind_get. eexists (r2 :: q), _, l1, a2, c2. split; [done|exact Hstop].
  - eexists (r2 :: q), false, l1, a2, c2. split; [done|exact Hstop].
Qed.

(** A fresh adder. *)
Lemma new_adder_ok hs c mixed running :
  pc_ok hs c -> 0 <= mixed <= 2 ^ 50 -> (0 <= num_val (new_token_ratio cf))%Q ->
  Forall (fun r => zlen (q_output r) <= q_max_new r) running ->
  admitted cf mixed hs (new_PrefillAdder rnd env cf (max_prefill_tokens sv) (chunked_prefill_size sv) mixed (Some running), c).
Proof.
  intros Hc Hm Hratio Hrun. assert (reserved cf [] = 0) as H0 by done. constructor; cbn [fst snd can_run_list new_PrefillAdder];
    [done|done| |done|lia].
  rewrite H0, Z.add_0_r. apply num_add_int_ge; [done| |lia]. apply num_sum_nonneg; [done|].
  apply Forall_fmap. eapply Forall_impl; [exact Hrun|]. intros r Hr. unfold compose, _get_running_request_total_token_offset.
  apply num_mul_nonneg; [done| |done]. simpl. change 0%Q with (inject_Z 0). rewrite <-Zle_Qle. cbv beta in Hr. lia.
Qed.

(** Elements of a part of a list, and those that are not in it. *)
Lemma sublist_filter_perm {A} (f : A -> string) (l q : list A) :
  NoDup (f <$> q) -> l `sublist_of` q -> l ++ List.filter (fun x => negb (bool_decide (f x ∈ f <$> l))) q ≡ₚ q.
Proof.
  intros Hnd Hs. induction Hs as [|x l q Hs IH|x l q Hs IH]; [done|..]; rewrite fmap_cons in Hnd; apply NoDup_cons in Hnd as [Hx Hnd]; cbn [List.filter].
  - rewrite bool_decide_true by (rewrite fmap_cons; left). cbn [negb app].
    rewrite (List.filter_ext_in _ (fun x => negb (bool_decide (f x ∈ f <$> l)))); [by rewrite IH|].
    intros y Hy%list_elem_of_In. f_equal. apply bool_decide_ext. rewrite fmap_cons, elem_of_cons. split; [|by right].
    intros [E|]; [|done]. destruct Hx. rewrite <-E. by apply list_elem_of_fmap_2.
  - rewrite bool_decide_false; [cbn [negb]; by rewrite <-Permutation_middle, IH|]. contradict Hx.
    eapply elem_of_submseteq; [exact Hx|]. by apply fmap_submseteq, sublist_submseteq.
Qed.

Lemma queue_conserved (q q' l : list SReq) :
  NoDup (rid <$> q) -> core <$> q' = core <$> q -> (core <$> l) `sublist_of` (core <$> q) ->
  core <$> (l ++ List.filter (fun r => negb (is_in r l)) q') ≡ₚ core <$> q.
Proof.
  intros Hnd Hq Hs.
  assert (forall x : list SReq, core_rid <$> (core <$> x) = rid <$> x) as Hf by (intros; by rewrite <-list_fmap_compose).
  rewrite fmap_app, <-Hq in *. rewrite <-(sublist_filter_perm core_rid (core <$> l) (core <$> q')); [|by rewrite Hq, Hf|done].
  f_equiv. rewrite Hf. clear. induction q' as [|r q' IH]; [done|]. cbn [List.filter fmap list_fmap].
  assert (is_in r l = bool_decide (core_rid (core r) ∈ rid <$> l)) as ->.
  { unfold is_in. simpl. apply eq_true_iff_eq. rewrite existsb_exists, bool_decide_eq_true, list_elem_of_fmap.
    unfold same_req. setoid_rewrite bool_decide_eq_true. setoid_rewrite list_elem_of_In. naive_solver. }
  case_bool_decide; cbn [negb]; [exact IH|]. cbn [fmap list_fmap]. by rewrite IH.
Qed.

Lemma same_request_core q q1 : Forall2 same_request q q1 -> core <$> q1 = core <$> q.
Proof. induction 1 as [|r r' q q' [->|[m ->]] _ IH]; [done|..]; rewrite !fmap_cons, IH; done. Qed.

Lemma core_rids (q q' : list SReq) : core <$> q' ≡ₚ core <$> q -> rid <$> q' ≡ₚ rid <$> q.
Proof. intros Hp%(fmap_Permutation core_rid). by rewrite <-!list_fmap_compose in Hp. Qed.

Lemma core_plains (q q' : list SReq) : core <$> q' ≡ₚ core <$> q -> Forall plain q -> Forall plain q'.
Proof.
  intros Hp Hq. apply Forall_forall. intros r Hr. assert (core r ∈ core <$> q) as Hin by (rewrite <-Hp; by apply list_elem_of_fmap_2).
  apply list_elem_of_fmap in Hin as (r0 & E & Hr0). eapply core_plain; [exact E|]. by apply (proj1 (Forall_forall _ _) Hq).
Qed.

(** Free request rows and a full batch only shorten the loop. *)
Lemma run_adder_ok {A} (m : PyM (AdState (C := C)) A) a s (x : A) a' c' :
  m (a, sc_cache s) = (Ret x, (a', c')) ->
  run_adder m a s = (Ret (x, a'), mkSched c' (sc_sim s) (waiting_queue s) (running_batch s) (batch_is_full s) (chunked_req s) (req_slots s)).
Proof. intros E. unfold run_adder. by rewrite E. Qed.

(** C5. A prefill batch built from the waiting queue fits into memory, and no request is lost.
    One pass of _get_new_batch_prefill_raw with no chunked request in progress
    ([chunked_req = None]) succeeds; the new tokens of its batch, one page of overhead per
    request and the decoding tokens of the running requests fit into the free and evictable
    slots; every request of the batch holds its cached prefix; batch and remaining queue
    together are the old queue; and when no batch is built, no lock is left behind.  This
    holds for every scheduling policy and however the fractional estimates are rounded, on a
    standard pool (no sliding window, state-space or diffusion model), without priority
    preemption, for waiting requests with distinct names that do not ignore the end of
    sequence on a disabled cache (and have a priority where priorities are used).  A chunked
    request in progress is added whether it fits or not: [chunked_req_over_commits]. *)
Theorem prefill_batch_fits hs s :
  pc_ok hs (sc_cache s) -> chunked_req s = None -> NoDup (rid <$> waiting_queue s) -> Forall plain (waiting_queue s) ->
  (enable_priority_scheduling (sv_policy sv) = true -> forall r, r ∈ waiting_queue s -> q_priority r <> None) ->
  Forall (fun r => zlen (q_output r) <= q_max_new r) (running_batch s) -> zlen (running_batch s) <= 2 ^ 50 ->
  (0 <= num_val (new_token_ratio cf))%Q ->
  let mixed := if is_mixed_chunk sv then zlen (running_batch s) else 0 in
  exists o s', _get_new_batch_prefill_raw rnd env is_chunk_cache now sha256 shuffle release sv cf s = (Ret o, s') /\
    core <$> (default [] o ++ waiting_queue s') ≡ₚ core <$> waiting_queue s /\ running_batch s' = running_batch s /\
    match o with
    | Some b => b <> [] /\ pc_ok (held b ++ hs) (sc_cache s') /\ mixed + need cf b < pc_budget (sc_cache s')
    | None => pc_ok hs (sc_cache s')
    end.
Proof.
  intros Hc Hch Hnd Hpl Hpr Hrun Hbs Hratio mixed. unfold _get_new_batch_prefill_raw. rewrite Hpre, Hswa. cbn [orb].
  erewrite py_bind_Ret by reflexivity. rewrite py_bind_get. rewrite Hch, (bool_decide_true (None = None)) by done.
  rewrite !andb_true_r. cbn [negb]. destruct (batch_is_full s || _); [by eexists None, s|].
  destruct (get_num_allocatable_reqs sv (req_slots s) (zlen (running_batch s)) <=? 0).
  { eexists None, _. split_and!; [reflexivity|done..]. }
  destruct (calc_priority_ok env is_chunk_cache now sha256 shuffle Hshuffle hs (sc_cache s) (sc_sim s) (sv_policy sv)
    (waiting_queue s) (Some (running_batch s)) Hc Hpr) as (b & q1 & q2 & c1 & t1 & E1 & Hq1 & Hq2 & _ & HR1).
  erewrite (py_bind_Ret (run_policy _)) by (unfold run_policy; rewrite E1; reflexivity). cbn [fst snd].
  assert (core <$> q2 ≡ₚ core <$> waiting_queue s) as Hq by (rewrite Hq2, (same_request_core _ _ Hq1); done).
  assert (0 <= mixed <= 2 ^ 50) as Hm by (unfold mixed, zlen in *; case_match; lia).
  pose proof (new_adder_ok hs c1 mixed (running_batch s) (proj1 HR1) Hm Hratio Hrun) as Ha.
  erewrite (py_bind_Ret (run_adder _ _)) by (apply run_adder_ok; reflexivity). cbn [fst snd].
  destruct (admit_loop_ok mixed hs (req_slots s) q2 (batch_is_full s) _ c1 Ha (core_plains _ _ Hq Hpl))
    as (q3 & full & l & a' & c' & E2 & [L1 L2 L3 L4 [L5 L6]]).
  erewrite (py_bind_Ret (run_adder _ _)) by (apply run_adder_ok; exact E2). cbn [fst snd].
  cbn [can_run_list new_PrefillAdder preempt_list running_reqs app] in L3, L5, L6. rewrite L6, L3, L5.
  erewrite (py_bind_Ret (set_full _)) by reflexivity.
  assert (core <$> (l ++ List.filter (fun r => negb (is_in r l)) q3) ≡ₚ core <$> waiting_queue s) as Hcons.
  { rewrite (queue_conserved q2 q3 l); [done| |done|done]. by rewrite (core_rids _ _ Hq). }
  pose proof L1 as [A1 _ _ A4 _]. cbn [fst snd] in A1, A4. rewrite L3 in A1, A4.
  case_bool_decide as Hl.
  - rewrite Hl in A1. eexists None, _. split_and!; [reflexivity| |done|exact A1]. simpl. rewrite L2. exact Hq.
  - rewrite app_nil_r. destruct (new_chunked_req a') as [rc|]; (eexists (Some l), _; split_and!; [reflexivity|exact Hcons|done|done|exact A1|by apply A4]).
Qed.
End pass.

(** ** Witness *)

#[local] Instance pass_demo_alloc : KVAllocator Alloc := paged_KVAllocator false.
#[local] Instance pass_demo_cache : PrefixCache (Cache Alloc) :=
  radix_PrefixCache demo_cfg demo_now available_size demo_order.
#[local] Instance pass_demo_laws : PrefixCacheLaws (Cache Alloc) :=
  radix_laws demo_cfg demo_now available_size demo_order demo_ps eq_refl (fun _ => reflexivity _) 16.

Definition demo_adder_cfg : AdderCfg :=
  mkAdderCfg 2 (NFloat (1 # 2)) false false 0 true None 0 None false None.
Definition demo_server : ServerCfg :=
  mkServerCfg (mkSchedulePolicy LPM false false) false false true 100 (Some 8) None 10.
Definition demo_running : SReq :=
  mkSReq "c" [1; 2; 3] [4] [] None [] None None None 0 0 0 2 false None 0 None false (-1) 0 false false false.
Definition demo_small (name : string) (ids : list Z) : SReq :=
  mkSReq name ids [] [] None [] None None None 0 0 0 1 false None 0 None false (-1) 0 false false false.
Definition demo_sched : Sched (Cache Alloc) :=
  mkSched demo2 sim0 [demo_small "a" [5; 6]; demo_small "b" [7; 8; 9; 10; 11]; demo_small "d" [1; 2; 3; 4; 5; 6; 7; 8; 9]]
    [demo_running] false None 5.

Lemma pass_demo_ok : pc_ok [] demo2.
Proof. split; [exact demo2_inv|]. vm_compute. split; discriminate. Qed.

(** Two of the three requests fit. *)
Lemma prefill_batch_fits_witness :
  exists b s', _get_new_batch_prefill_raw (fun q => q) demo_env false demo_now demo_sha (fun l => l) (fun r _ => mret r)
      demo_server demo_adder_cfg demo_sched = (Ret (Some b), s') /\
    rid <$> b = ["b"%string; "a"%string] /\ 1 + need demo_adder_cfg b < pc_budget (sc_cache s').
Proof.
  pose proof (prefill_batch_fits (fun q => q) demo_env false demo_now demo_sha (fun l => l) (fun _ => reflexivity _)
    (fun r _ => mret r) demo_server demo_adder_cfg) as W.
  specialize (W ltac:(simpl; lia) eq_refl eq_refl eq_refl ltac:(simpl; lia) ltac:(by vm_compute) eq_refl).
  specialize (W (fun x (Hx : None = Some x) => match Hx with end) [] demo_sched pass_demo_ok eq_refl).
  destruct W as (o & s' & E & _ & _ & Ho).
  - apply (bool_decide_eq_true_1 _). vm_compute. reflexivity.
  - repeat constructor; vm_compute; discriminate.
  - vm_compute. discriminate.
  - repeat constructor. vm_compute. discriminate.
  - vm_compute. discriminate.
  - vm_compute. discriminate.
  - destruct o as [b|]; [|vm_compute in E; discriminate].
    exists b, s'. split; [exact E|]. split; [|exact (proj2 (proj2 Ho))]. clear Ho.
    vm_compute in E. injection E as <- _. vm_compute. reflexivity.
Defined.

(** ** A chunked request in progress *)

(** Its chunk is added even when no budget is left: a pass that asks for more slots than are
    free or evictable. *)
Definition chunked_server : ServerCfg :=
  mkServerCfg (mkSchedulePolicy LPM false false) false false true 100 (Some 32) None 10.
Definition long_running : SReq :=
  mkSReq "c" [1; 2; 3] [4] [] None [] None None None 0 0 0 100 false None 0 None false (-1) 0 false false false.
Definition chunked_sched : Sched (Cache Alloc) :=
  mkSched demo2 sim0 [] [long_running] false (Some (demo_small "e" (seqZ 100 30))) 5.

Theorem chunked_req_over_commits :
  exists b s', _get_new_batch_prefill_raw (fun q => q) demo_env false demo_now demo_sha (fun l => l) (fun r _ => mret r)
      chunked_server demo_adder_cfg chunked_sched = (Ret (Some b), s') /\
    rid <$> b = ["e"%string] /\ q_extend <$> b = [30] /\ pc_budget (sc_cache s') = 16.
Proof. eexists _, _. split; [vm_compute; reflexivity|]. split_and!; vm_compute; reflexivity. Qed.
