(* ===== verification/Preemption.v ===== *)
(** * Preempting running requests

    [PrefillAdder.preempt_to_schedule] frees running requests for one of a higher priority.
    Either it changes nothing, or it releases the requests of the lowest priorities, each
    exactly once, no more than needed, and their estimated tokens suffice. *)

From stdpp Require Import base tactics list gmap strings sorting.
From Stdlib Require Import ZArith Lia QArith.
From S2P Require Import Prelude PyStr RadixKey TreeNode EvictPolicy Allocator AllocatorProofs KVEvents.
From S2P Require Import RadixTree ReqPool HiController HiRadix PyNum PrefixCache CacheLaws SchedPolicy SchedProofs SchedClaims.
From S2P Require Import RadixProofs PrefillAdder PrefillProofs.

#[local] Open Scope Z_scope.

Section preempt.
Context {C : Type} `{!PrefixCache C}.
Context (rnd : Q -> Q) (env : SchedEnv) (cf : AdderCfg) (release : SReq -> Z -> PyM C SReq).
(** Releasing a request succeeds and returns it. *)
Context (Hrelease : forall x n c, exists x' c', release x n c = (Ret x', c') /\ rid x' = rid x).

Local Abbreviation estimate := (_get_running_request_total_token_offset rnd env cf).

(** The tokens missing after preempting [l]. *)
Definition missing_after (missing : PyNum) (l : list SReq) : PyNum := foldl (fun m x => num_sub rnd m (estimate x)) missing l.

(** [x] may be preempted for [r]. *)
Definition preemptible (sign : Z) (r x : SReq) : Prop :=
  exists pr px, q_priority r = Some pr /\ q_priority x = Some px /\ preemption_threshold cf < (pr - px) * - sign.

(** The requests taken from a sorted list. *)
Record collected (sign : Z) (r : SReq) (l : list SReq) (missing : PyNum) (k : nat) : Prop := mkCollected {
  co_preemptible : Forall (preemptible sign r) (take k l);
  co_le : (k <= length l)%nat;
  co_minimal : forall j, (0 < j < k)%nat -> num_leb (missing_after missing (take j l)) (NInt 0) = false }.

Lemma collect_ok sign r l : forall acc missing, q_priority r <> None -> (forall x, x ∈ l -> q_priority x <> None) ->
  exists k, collect_preemptible rnd env cf sign r l acc missing = Ret (acc ++ take k l, missing_after missing (take k l)) /\
    collected sign r l missing k.
Proof.
  intros acc missing Hr. revert acc missing. induction l as [|x l IH]; intros acc missing Hl.
  { exists 0%nat. cbn. rewrite app_nil_r. split; [done|]. constructor; simpl; [done|lia|lia]. }
  cbn [collect_preemptible]. destruct (q_priority r) as [pr|] eqn:Er; [|done].
  destruct (q_priority x) as [px|] eqn:Ex; [|by destruct (Hl x); [left|]].
  destruct (Z.ltb_spec (preemption_threshold cf) ((pr - px) * - sign)) as [Hd|Hd].
  2: { exists 0%nat. cbn. rewrite app_nil_r. split; [done|]. constructor; simpl; [done|lia|lia]. }
  assert (preemptible sign r x) as Hx by (exists pr, px; auto).
  destruct (num_leb _ (NInt 0)) eqn:Em.
  - exists 1%nat. cbn [take]. rewrite take_0. split; [done|]. constructor; [cbn [take]; rewrite take_0; by repeat constructor|simpl; lia|lia].
  - destruct (IH (acc ++ [x]) (num_sub rnd missing (estimate x))) as (k & E & [K1 K2 K3]); [intros; apply Hl; by right|].
    exists (S k). rewrite E, <-(assoc_L (++)). split; [done|]. constructor; simpl; [by constructor|lia|].
    intros [|[|j]] Hj; [lia|exact Em|]. apply (K3 (S j)). lia.
Qed.

Lemma release_loop_ok total chosen l : forall counter off c,
  exists out c', release_loop rnd env cf release total chosen counter off l c
      = (Ret (missing_after off (List.filter (fun x => is_in x chosen) l), List.filter (fun x => negb (is_in x chosen)) l, out), c') /\
    rid <$> out = rid <$> List.filter (fun x => is_in x chosen) l.
Proof.
  induction l as [|x l IH]; intros counter off c; [by exists [], c|]. cbn [release_loop List.filter].
  destruct (is_in x chosen); cbn [negb].
  - destruct (Hrelease x (total - (counter + 1)) c) as (x' & c1 & E1 & Hx). py_step E1.
    destruct (IH (counter + 1) (num_sub rnd off (estimate x)) c1) as (out & c2 & E2 & Ho). py_step E2.
    exists (x' :: out), c2. split; [done|]. by rewrite !fmap_cons, Hx, Ho.
  - destruct (IH counter off c) as (out & c2 & E2 & Ho). py_step E2. by exists out, c2.
Qed.

(** C23. Preemption is all or nothing.  If preempt_to_schedule returns False, neither the adder
    nor the cache has changed.  If it returns True, the requests it released are running, not
    finished and not preempted before, their priority is lower than the new request's by more
    than the threshold, they are the first of the running requests in increasing priority
    (latest arrival first), their estimated tokens cover what is missing while those of fewer
    of them would not, each was released once, and exactly the others remain in the batch. *)
Theorem preempt_all_or_nothing (low : bool) r a c running :
  running_reqs a = Some running -> q_priority r <> None -> (forall x, x ∈ running -> q_priority x <> None) ->
  let sign := if low then 1 else -1 in
  let missing := num_sub rnd (NInt (q_extend r + Z.min (q_max_new r) (clip_max_new_tokens env))) (rem_total_tokens rnd cf (a, c)) in
  exists b a' c', preempt_to_schedule rnd env cf release low r (a, c) = (Ret b, (a', c')) /\
    if b then
      exists sorted k out, let chosen := take (S k) sorted in
        sorted ≡ₚ List.filter (fun x => negb (is_in x (preempt_list a)) && negb (q_finished x)) running /\
        StronglySorted (fun x y => exists kx ky, preempt_key sign x = Ret kx /\ preempt_key sign y = Ret ky /\
                          lt_pair Z.ltb Z.ltb ky kx = false) sorted /\
        Forall (preemptible sign r) chosen /\
        num_ltb (NInt 0) (missing_after missing chosen) = false /\
        (forall j, (0 < j < S k)%nat -> num_leb (missing_after missing (take j sorted)) (NInt 0) = false) /\
        running_reqs a' = Some (List.filter (fun x => negb (is_in x chosen)) running) /\
        preempt_list a' = preempt_list a ++ out /\ rid <$> out = rid <$> List.filter (fun x => is_in x chosen) running /\
        rem_total_token_offset a' = missing_after (rem_total_token_offset a) (List.filter (fun x => is_in x chosen) running) /\
        can_run_list a' = can_run_list a
    else a' = a /\ c' = c.
Proof.
  intros Hrun Hr Hl sign missing. unfold preempt_to_schedule. rewrite py_bind_get. cbn [fst snd]. rewrite Hrun. fold sign missing.
  set (valid := List.filter _ running). assert (forall x, x ∈ valid -> q_priority x <> None) as Hv.
  { intros x [Hx _]%elem_of_filter_b. auto. }
  destruct (sort_keyed_perm (lt_pair Z.ltb Z.ltb) (preempt_key sign) valid) as (sorted & Es & Hp).
  { intros x Hx. specialize (Hv x Hx). unfold preempt_key. destruct (q_priority x); [by eexists|done]. }
  rewrite Es. cbn [py_lift]. erewrite py_bind_Ret by reflexivity.
  destruct (collect_ok sign r sorted [] missing Hr) as (k & Ek & [K1 K2 K3]); [intros x Hx; apply Hv; by rewrite <-Hp|].
  rewrite Ek. cbn [py_lift app]. erewrite py_bind_Ret by reflexivity.
  cbv beta iota. destruct ((zlen (take k sorted) =? 0) || num_ltb (NInt 0) (missing_after missing (take k sorted))) eqn:E0;
    [eexists false, a, c; split; [reflexivity|split; reflexivity]|]. apply orb_false_iff in E0 as [E0 Em].
  destruct k as [|k]; [by rewrite take_0 in E0|].
  destruct (release_loop_ok (zlen running) (take (S k) sorted) running 0 (rem_total_token_offset a) c) as (out & c' & E & Ho).
  py_step (with_cache_ok _ a _ _ _ E). eexists true, _, c'. split; [done|].
  exists sorted, k, out. cbn zeta. split_and!; try done. exact (sort_keyed_sorted _ _ _ _ Es).
Qed.
End preempt.

(** ** Witness *)

#[local] Instance preempt_demo_cache : PrefixCache (list nat) := {|
  pc_match _ := py_raise NotImplementedError;
  pc_inc_lock _ := mret tt;
  pc_dec_lock _ := mret tt;
  pc_init_load_back _ := py_raise NotImplementedError;
  pc_root _ := 0%nat;
  pc_count _ := 1%nat;
  pc_children _ _ := [];
  pc_sizes c := mkSizes (zlen c) 0 0 0 0 0;
  pc_disable := false |}.

Definition preempt_cfg : AdderCfg := mkAdderCfg 1 (NFloat (1 # 2)) false false 0 true None 1 None false None.
Definition prio_req (name : string) (max_new p t : Z) : SReq :=
  mkSReq name [1] [] [] None [] None None None 0 3 0 max_new false (Some p) t None false (-1) 0 false false false.
Definition preempt_env : SchedEnv := mkSchedEnv 32 32 4096 false.
Definition preempt_running : list SReq := [prio_req "a" 4 9 0; prio_req "b" 8 1 1; prio_req "c" 8 2 2].
Definition preempt_adder : Adder := new_PrefillAdder (fun q => q) preempt_env preempt_cfg 100 None 0 (Some preempt_running).

(** Two of the three running requests make room. *)
Lemma preempt_all_or_nothing_witness :
  exists a', preempt_to_schedule (fun q => q) preempt_env preempt_cfg (fun r _ => mret r) false (prio_req "n" 4 10 3) (preempt_adder, [1; 2; 3; 4; 5; 6; 7; 8; 9]%nat)
      = (Ret true, (a', [1; 2; 3; 4; 5; 6; 7; 8; 9]%nat)) /\
    rid <$> preempt_list a' = ["b"%string; "c"%string] /\ (rid <$> default [] (running_reqs a')) = ["a"%string].
Proof.
  destruct (preempt_all_or_nothing (fun q => q) preempt_env preempt_cfg (fun (r : SReq) (_ : Z) => mret r : PyM (list nat) SReq)
    (fun x _ c => ex_intro _ x (ex_intro _ c (conj eq_refl eq_refl)))
    false (prio_req "n" 4 10 3) preempt_adder [1; 2; 3; 4; 5; 6; 7; 8; 9]%nat preempt_running eq_refl) as (b & a' & c' & E & _).
  - discriminate.
  - intros x Hx. unfold preempt_running in Hx. set_solver.
  - exists a'. vm_compute in E. injection E as <- <- <-. vm_compute. split; [reflexivity|split; reflexivity].
Defined.
