(* ===== verification/PrefillDelayer.v ===== *)
(** * Delaying prefill batches (managers/prefill_delayer.py)

    With data-parallel attention all ranks should prefill at the same time.  Before a prefill
    the ranks exchange whether they could prefill; [PrefillDelayer] lets a rank wait while
    only some of them can, for a bounded number of passes, or while a larger batch is worth
    waiting for.  The all-gather is a parameter that returns the information of every rank.
    Theorem: the ranks that can prefill never wait longer than the configured passes for the
    others. *)

From stdpp Require Import base tactics list strings.
From Stdlib Require Import ZArith Lia QArith.
From S2P Require Import Prelude PyNum.

#[local] Open Scope Z_scope.

(** [_State] *)
Record DelayState := mkDelayState { delayed_count : Z; start_time : Q }.
Definition bump_delayed_count (s : DelayState) : DelayState := mkDelayState (delayed_count s + 1) (start_time s).

Inductive Estimation := EstAll | EstNone | EstMixed.
Inductive Reason := RWatermark | RDelay | RWaitSuccess | RNoWait | RWaitTimeout | RNothing.
#[global] Instance Estimation_eq_dec : EqDecision Estimation.
Proof. solve_decision. Defined.

(** [_NegotiateOutput] *)
Record NegotiateOutput := mkNegotiate {
  next_state : option DelayState;
  input_estimation : Estimation;
  output_allow : bool;
  output_reason : Reason;
  num_prefillable : Z;
  num_token_watermark_force_allow : Z }.

(** The fields of one rank in the all-gather. *)
Record RankInfo := mkRankInfo {
  ri_prefillable : Z;
  ri_force_allow : Z;
  ri_running_batch : Z;
  ri_max_prefill_bs : Z;
  ri_waiting_queue_len : Z }.

Record PrefillDelayer := mkPrefillDelayer {
  max_delay_passes : Z;
  token_usage_low_watermark : option Q;
  queue_min_ratio : option PyNum;
  max_delay_ms : Q;
  dp_size : Z;
  enable_dp_attention : bool;
  curr_state : option DelayState;
  skip_first_delayer : bool }.

(** The arguments of a negotiation. *)
Record Local := mkLocal {
  local_prefillable : bool;
  token_usage : Q;
  lc_running_batch : Z;
  lc_max_prefill_bs : Z;
  lc_max_running_requests : Z;
  lc_waiting_queue_len : Z }.

Definition set_delayer (o : option DelayState) (skip : bool) (d : PrefillDelayer) : PrefillDelayer :=
  mkPrefillDelayer (max_delay_passes d) (token_usage_low_watermark d) (queue_min_ratio d) (max_delay_ms d)
    (dp_size d) (enable_dp_attention d) o skip.

(** [tensor.max()], [tensor.min()] and [tensor.sum()] of a nonempty tensor *)
Definition max_of (l : list Z) : Z := match l with [] => 0 | x :: l => foldl Z.max x l end.
Definition min_of (l : list Z) : Z := match l with [] => 0 | x :: l => foldl Z.min x l end.
Definition sum_of (l : list Z) : Z := foldr Z.add 0 l.
Definition bit (b : bool) : Z := if b then 1 else 0.

Section delayer.
(** Rounding, and the all-gather, which yields the row of every rank. *)
Context (rnd : Q -> Q) (gather : RankInfo -> list RankInfo).
Implicit Types d : PrefillDelayer.

Definition _gather_info (force : bool) (x : Local) : list RankInfo :=
  gather (mkRankInfo (bit (local_prefillable x)) (bit force) (lc_running_batch x) (lc_max_prefill_bs x)
            (lc_waiting_queue_len x)).

Definition prefillable_status (infos : list RankInfo) : Estimation :=
  let p := ri_prefillable <$> infos in
  if 0 <? min_of p then EstAll else if max_of p =? 0 then EstNone else EstMixed.

(** Waiting for a longer queue pays off. *)
Definition queue_condition d (infos : list RankInfo) (prev : option DelayState) (now : Q) : bool :=
  let running := max_of (ri_running_batch <$> infos) in
  match queue_min_ratio d with
  | Some ratio =>
      if 0 <? running then
        let queue_min := Z.min (num_int (num_mul rnd (NInt running) ratio)) (max_of (ri_max_prefill_bs <$> infos)) in
        let cond := (0 <? queue_min) && (max_of (ri_waiting_queue_len <$> infos) <? queue_min) in
        match prev with
        | Some s =>
            if cond && num_leb (NFloat (max_delay_ms d))
                         (num_mul rnd (num_sub rnd (NFloat now) (NFloat (start_time s))) (NFloat 1000))
            then false else cond
        | None => cond
        end
      else false
  | None => false
  end.

(** [_negotiate_should_allow_prefill_pure]: the output and [skip_first_delayer].  [now] and
    [created] are the readings of the clock for the elapsed time and for a new state. *)
Definition _negotiate_should_allow_prefill_pure d (prev : option DelayState) (x : Local) (now created : Q) :
    NegotiateOutput * bool :=
  let force := local_prefillable x &&
               match token_usage_low_watermark d with Some w => num_ltb (NFloat (token_usage x)) (NFloat w) | None => false end in
  let infos := _gather_info force x in
  let status := prefillable_status infos in
  let exists_force := 0 <? max_of (ri_force_allow <$> infos) in
  let out o allow reason :=
    mkNegotiate o status allow reason (sum_of (ri_prefillable <$> infos)) (sum_of (ri_force_allow <$> infos)) in
  let skip := skip_first_delayer d in
  match status with
  | EstAll =>
      if exists_force then (out None true RWatermark, skip)
      else
        let max_running :=
          if enable_dp_attention d then lc_max_running_requests x
          else (lc_max_running_requests x + dp_size d - 1) / dp_size d in
        let slot_condition :=
          max_running - max_of (ri_running_batch <$> infos) <? max_of (ri_max_prefill_bs <$> infos) in
        let allowed := out None true (match prev with Some _ => RWaitSuccess | None => RNoWait end) in
        if slot_condition || queue_condition d infos prev now then
          if skip then (allowed, false)
          else (out (Some (bump_delayed_count (default (mkDelayState 0 created) prev))) false RDelay, skip)
        else (allowed, skip)
  | EstNone => (out None true RNothing, skip)
  | EstMixed =>
      if exists_force then (out None true RWatermark, skip)
      else
        let prev_delayed_count := match prev with Some s => delayed_count s | None => 0 end in
        if prev_delayed_count <? max_delay_passes d - 1
        then (out (Some (bump_delayed_count (default (mkDelayState 0 created) prev))) false RDelay, skip)
        else (out None true RWaitTimeout, skip)
  end.

Definition _negotiate_should_allow_prefill (x : Local) (now created : Q) d : NegotiateOutput * PrefillDelayer :=
  let '(o, skip) := _negotiate_should_allow_prefill_pure d (curr_state d) x now created in
  (o, set_delayer (next_state o) skip d).

(** [PrefillDelayerSinglePassExecutor]: the first answer of a pass is kept. *)
Record SinglePass := mkSinglePass { sp_delayer : PrefillDelayer; sp_result : option NegotiateOutput }.

Definition negotiate_should_allow_prefill (x : Local) (now created : Q) (p : SinglePass) : bool * SinglePass :=
  match sp_result p with
  | Some o => (output_allow o, p)
  | None =>
      let '(o, d) := _negotiate_should_allow_prefill x now created (sp_delayer p) in
      (output_allow o, mkSinglePass d (Some o))
  end.

(** A pass that never asked tells the other ranks that it cannot prefill. *)
Definition finalize (x0 : Local) (now created : Q) (p : SinglePass) : SinglePass :=
  match sp_result p with
  | Some _ => p
  | None => (negotiate_should_allow_prefill x0 now created p).2
  end.

(** ** Bounded waiting *)

(** The answers of consecutive passes. *)
Fixpoint passes (l : list (Local * Q * Q)) d : list NegotiateOutput :=
  match l with
  | [] => []
  | (x, now, created) :: l' =>
      let '(o, d') := _negotiate_should_allow_prefill x now created d in o :: passes l' d'
  end.

Definition waited d : Z := match curr_state d with Some s => delayed_count s | None => 0 end.

(** What a pass without the agreement of all ranks does. *)
Lemma mixed_pass x now created d o d' :
  _negotiate_should_allow_prefill x now created d = (o, d') -> input_estimation o = EstMixed ->
  output_allow o = true \/ output_allow o = false /\ waited d < max_delay_passes d - 1 /\ waited d' = waited d + 1 /\
    max_delay_passes d' = max_delay_passes d.
Proof.
  unfold _negotiate_should_allow_prefill, _negotiate_should_allow_prefill_pure. intros E He.
  destruct (prefillable_status _); [repeat case_match; by simplify_eq/=|by simplify_eq/=|].
  destruct (0 <? max_of _); [injection E as <- _; by left|].
  destruct (Z.ltb_spec (match curr_state d with Some s => delayed_count s | None => 0 end) (max_delay_passes d - 1)) as [Hlt|_];
    [|injection E as <- _; by left].
  injection E as <- <-. right. unfold waited. simpl. split_and!; [done|done| |done]. by destruct (curr_state d).
Qed.

(** C24. No rank waits for ever for the others: among max_delay_passes consecutive passes in
    which some but not all ranks can prefill, at least one allows the prefill, whatever the
    load, the clock and the state before. *)
Theorem mixed_wait_bounded l d :
  0 <= waited d -> 1 <= max_delay_passes d <= Z.of_nat (length l) ->
  Forall (fun o => input_estimation o = EstMixed) (passes l d) ->
  exists o, o ∈ take (Z.to_nat (max_delay_passes d)) (passes l d) /\ output_allow o = true.
Proof.
  intros Hw Hm Hl.
  enough (forall l d, 0 <= waited d -> max_delay_passes d - waited d <= Z.of_nat (length l) -> waited d < max_delay_passes d ->
    Forall (fun o => input_estimation o = EstMixed) (passes l d) ->
    exists o, o ∈ take (Z.to_nat (max_delay_passes d - waited d)) (passes l d) /\ output_allow o = true) as Hgen.
  - destruct (decide (waited d < max_delay_passes d)) as [Hlt|Hge].
    + destruct (Hgen l d) as (o & Ho & Ha); [done|lia|done|done|]. exists o. split; [|done].
      apply elem_of_take in Ho as (i & Hi & Hlt'). apply elem_of_take. exists i. split; [done|lia].
    + destruct l as [|[[x now] created] l]; [simpl in Hm; lia|]. cbn [passes] in *.
      destruct (_negotiate_should_allow_prefill x now created d) as [o d'] eqn:E. apply Forall_cons in Hl as [Ho _].
      exists o. split; [|destruct (mixed_pass _ _ _ _ _ _ E Ho) as [|(_ & ? & _)]; [done|lia]].
      destruct (Z.to_nat (max_delay_passes d)) eqn:En; [lia|]. left.
  - clear. induction l as [|[[x now] created] l IH]; intros d Hw Hm Hlt Hl; [simpl in Hm; lia|]. cbn [passes] in *.
    destruct (_negotiate_should_allow_prefill x now created d) as [o d'] eqn:E. apply Forall_cons in Hl as [Ho Hl].
    destruct (Z.to_nat (max_delay_passes d - waited d)) as [|k] eqn:En; [lia|]. cbn [take].
    destruct (mixed_pass _ _ _ _ _ _ E Ho) as [Ha|(Ha & Hlt' & Hw' & Hm')]; [exists o; split; [left|done]|].
    destruct (IH d') as (o' & Ho' & Ha'); [lia|rewrite Hm', Hw'; simpl in Hm; lia|lia|done|].
    exists o'. split; [|done]. right. replace k with (Z.to_nat (max_delay_passes d' - waited d')) by lia. done.
Qed.
End delayer.

(** One rank of two cannot prefill. *)
Definition demo_delayer : PrefillDelayer := mkPrefillDelayer 3 None None 5000 2 true None false.
Definition demo_local : Local := mkLocal true (1 # 2) 1 1 8 2.
Definition demo_gather (i : RankInfo) : list RankInfo := [i; mkRankInfo 0 0 1 1 0].

Lemma mixed_wait_bounded_witness :
  exists o, o ∈ take 3 (passes (fun q => q) demo_gather (replicate 3 (demo_local, 0%Q, 0%Q)) demo_delayer) /\ output_allow o = true.
Proof.
  apply (mixed_wait_bounded (fun q => q) demo_gather (replicate 3 (demo_local, 0%Q, 0%Q)) demo_delayer).
  - done.
  - by vm_compute.
  - vm_compute. repeat constructor.
Defined.
