(* ===== verification/Detokenizer.v ===== *)
(** * The detokenizer (managers/detokenizer_manager.py)

    The scheduler sends the token ids of running requests in batches; the detokenizer keeps a
    decode status for each request and sends the text that each batch adds.  Texts are lists
    of code points.  The tokenizer is a parameter. *)

From stdpp Require Import base tactics list strings.
From Stdlib Require Import ZArith Lia.
From S2P Require Import Prelude.

#[local] Open Scope Z_scope.

Abbreviation text := (list Z).

(** U+FFFD, which stands for an incomplete character. *)
Definition REPL : Z := 65533.

(** ** Printable text (sglang/utils.py) *)

Definition _is_chinese_char (cp : Z) : bool :=
  let within a b := (a <=? cp) && (cp <=? b) in
  within 0x4E00 0x9FFF || within 0x3400 0x4DBF || within 0x20000 0x2A6DF || within 0x2A700 0x2B73F
  || within 0x2B740 0x2B81F || within 0x2B820 0x2CEAF || within 0xF900 0xFAFF || within 0x2F800 0x2FA1F.

(** [text[: text.rfind(" ") + 1]] *)
Fixpoint upto_space (s : text) : text :=
  match s with
  | [] => []
  | c :: s' => match upto_space s' with
               | [] => if c =? 32 then [c] else []
               | p => c :: p
               end
  end.

Definition ends_with (c : Z) (s : text) : bool := match last s with Some c' => c' =? c | None => false end.
Definition chinese_at (o : option Z) : bool := match o with Some c => _is_chinese_char c | None => false end.
Definition but_last {A} (s : list A) : list A := take (pred (length s)) s.

Definition find_printable_text (s : text) : text :=
  if ends_with 10 s then s
  else if chinese_at (last s) then s
  else if (1 <? length s)%nat && chinese_at (last (but_last s)) then but_last s
  else upto_space s.

(** ** Stop strings and stop tokens *)

(** The [matched] field of a finish reason. *)
Inductive Matched := MStr (s : text) | MTok (t : Z) | MToks (l : list Z).

Definition falsy (m : Matched) : bool :=
  match m with MStr [] | MTok 0 | MToks [] => true | _ => false end.

(** [str.find] *)
Fixpoint starts_with (p s : text) : bool :=
  match p, s with
  | [], _ => true
  | a :: p', c :: s' => (a =? c) && starts_with p' s'
  | _ :: _, [] => false
  end.
Fixpoint str_find (p s : text) : option nat :=
  if starts_with p s then Some 0%nat
  else match s with [] => None | _ :: s' => S <$> str_find p s' end.

(** A finished request has a reason, whose [matched] may be missing. *)
Definition FinishedReason : Type := option Matched.

Definition trim_str (finished_reason : option FinishedReason) (no_stop_trim : bool) (output : text) : text :=
  if no_stop_trim then output
  else match finished_reason with
       | Some (Some (MStr m)) =>
           if falsy (MStr m) then output
           else match str_find m output with Some pos => take pos output | None => output end
       | _ => output
       end.

Definition trim_ids (is_gpt_oss : bool) (finished_reason : option FinishedReason) (no_stop_trim : bool) (output : list Z) : Outcome (list Z) :=
  if no_stop_trim then Ret output
  else match finished_reason with
       | Some (Some (MTok m)) =>
           if falsy (MTok m) then Ret output
           else match last output with
                | None => Raise IndexError
                | Some t => if (t =? 200012) && is_gpt_oss then Ret output else Ret (but_last output)
                end
       | _ => Ret output
       end.

(** ** Requests *)

Record DecodeStatus := mkStatus {
  decoded_text : text;
  decode_ids : list Z;
  surr_offset : nat;
  read_offset : nat;
  sent_offset : nat }.

(** What a batch says of one request. *)
Record TokenOut := mkTokenOut {
  to_rid : string;
  to_decoded_text : text;
  to_decode_ids : list Z;
  to_read_offset : nat;
  to_finished : option FinishedReason;
  to_no_stop_trim : bool;
  to_skip_special : bool;
  to_spaces : bool }.

Abbreviation StatusDict := (list (string * DecodeStatus)).

Section detokenizer.
(** [tokenizer.batch_decode] and [tokenizer.decode]. *)
Context (batch_decode : list (list Z) -> bool -> bool -> list text) (decode : list Z -> bool -> bool -> text).
Context (capacity : nat) (is_gpt_oss disable_batch_decode : bool).

(** [LimitedCapacityDict.__setitem__] *)
Definition limited_set (rid : string) (s : DecodeStatus) (d : StatusDict) : Outcome StatusDict :=
  if (capacity <=? length d)%nat then match d with [] => Raise KeyError | _ :: d' => Ret (dict_set rid s d') end
  else Ret (dict_set rid s d).

(** [_grouped_batch_decode] *)
Local Abbreviation group_key := (bool * bool)%type.
Definition group_indices (flags : list group_key) : list (group_key * list nat) :=
  foldl (fun g (e : nat * group_key) => dict_set e.2 (default [] (dict_get e.2 g) ++ [e.1]) g) [] (imap pair flags).
Definition decode_group (ids_list : list (list Z)) (results : list text) (g : group_key * list nat) : list text :=
  let decoded := batch_decode ((fun i => default [] (ids_list !! i)) <$> g.2) g.1.1 g.1.2 in
  foldl (fun r (e : nat * text) => <[e.1 := e.2]> r) results (zip g.2 decoded).
Definition _grouped_batch_decode (ids_list : list (list Z)) (flags : list group_key) : Outcome (list text) :=
  match flags with
  | [] => Raise IndexError
  | (first_skip, first_space) :: _ =>
      if forallb (fun f => bool_decide (f = (first_skip, first_space))) flags then Ret (batch_decode ids_list first_skip first_space)
      else Ret (foldl (decode_group ids_list) (replicate (length ids_list) []) (group_indices flags))
  end.

(** The status after the new ids of a batch. *)
Definition feed_status (t : TokenOut) (o : option DecodeStatus) : DecodeStatus :=
  match o with
  | None => mkStatus (to_decoded_text t) (to_decode_ids t) 0 (to_read_offset t) 0
  | Some s => mkStatus (decoded_text s) (decode_ids s ++ to_decode_ids t) (surr_offset s) (read_offset s) (sent_offset s)
  end.

Definition init_status (t : TokenOut) : PyM StatusDict (list Z * list Z) :=
  d ← py_get;
  let s := feed_status t (dict_get (to_rid t) d) in
  d' ← py_lift (match dict_get (to_rid t) d with
                | None => limited_set (to_rid t) s d
                | Some _ => Ret (dict_set (to_rid t) s d)
                end);
  _ ← py_put d';
  read ← py_lift (trim_ids is_gpt_oss (to_finished t) (to_no_stop_trim t) (drop (surr_offset s) (decode_ids s)));
  mret (read, take (read_offset s - surr_offset s) (drop (surr_offset s) (decode_ids s))).

(** The text a request gets, and its status unless it has finished. *)
Definition incremental_text (t : TokenOut) (s : DecodeStatus) (surr_text read_text : text) : text * option DecodeStatus :=
  let new_text := drop (length surr_text) read_text in
  let advance := negb (bool_decide (new_text = [])) && negb (ends_with REPL new_text) in
  let s' := if advance then mkStatus (decoded_text s ++ new_text) (decode_ids s) (read_offset s) (length (decode_ids s)) (sent_offset s) else s in
  let '(s, new_text) :=
    match to_finished t with
    | None => if advance then (s', []) else (s, find_printable_text new_text)
    | Some _ => (s, new_text)
    end in
  let output_str := trim_str (to_finished t) (to_no_stop_trim t) (decoded_text s ++ new_text) in
  let incremental_output := drop (sent_offset s) output_str in
  (incremental_output,
   match to_finished t with
   | None => Some (mkStatus (decoded_text s) (decode_ids s) (surr_offset s) (read_offset s) (length output_str))
   | Some _ => None
   end).

Definition send_text (t : TokenOut) (surr_text read_text : text) : PyM StatusDict text :=
  d ← py_get;
  match dict_get (to_rid t) d with
  | None => py_raise RuntimeError
  | Some s =>
      let '(out, o) := incremental_text t s surr_text read_text in
      _ ← py_put (match o with Some s' => dict_set (to_rid t) s' d | None => dict_pop (to_rid t) d end);
      mret out
  end.

Fixpoint py_map {S A B} (f : A -> PyM S B) (l : list A) : PyM S (list B) :=
  match l with
  | [] => mret []
  | x :: l' => y ← f x; ys ← py_map f l'; mret (y :: ys)
  end.

Definition flags_of (t : TokenOut) : group_key := (to_skip_special t, to_spaces t).

Definition _decode_batch_token_id_output (ts : list TokenOut) : PyM StatusDict (list text) :=
  windows ← py_map init_status ts;
  let read_ids := windows.*1 in
  let surr_ids := windows.*2 in
  let one_by_one ids := zip_with (fun l f => decode l f.1 f.2) ids (flags_of <$> ts) in
  surr_texts ← (if negb disable_batch_decode then py_lift (_grouped_batch_decode surr_ids (flags_of <$> ts)) else mret (one_by_one surr_ids));
  read_texts ← (if negb disable_batch_decode then py_lift (_grouped_batch_decode read_ids (flags_of <$> ts)) else mret (one_by_one read_ids));
  py_map (fun e => send_text e.1 e.2.1 e.2.2) (zip ts (zip surr_texts read_texts)).

(** [handle_batch_token_id_out]: the texts of the answer. *)
Definition handle_batch_token_id_out (ts : list TokenOut) : PyM StatusDict (list text) :=
  match ts with
  | [] => mret []
  | _ => _decode_batch_token_id_output ts
  end.
End detokenizer.
