(* ===== verification/DetokProofs.v ===== *)
(** * Correctness of the detokenizer

    A batch decodes every request on its own, whatever is decoded together with it; and what
    a request is sent, over all batches, is the text of all its tokens. *)

From stdpp Require Import base tactics list strings.
From Stdlib Require Import ZArith Lia.
From S2P Require Import Prelude Detokenizer.

#[local] Open Scope Z_scope.

(** ** Grouping *)

Local Abbreviation group_key := (bool * bool)%type.

Section grouping.
Context (batch_decode : list (list Z) -> bool -> bool -> list text) (decode : list Z -> bool -> bool -> text).
(** [batch_decode] decodes each sequence (the documented behaviour of tokenizers). *)
Context (Hbatch : forall l sk sp, batch_decode l sk sp = (fun x => decode x sk sp) <$> l).

Definition decode_each (ids : list (list Z)) (flags : list group_key) : list text := zip_with (fun l f => decode l f.1 f.2) ids flags.

Definition grouped (flags : list group_key) (n : nat) (g : list (group_key * list nat)) : Prop :=
  NoDup (dict_keys g) /\
  (forall k js i, dict_get k g = Some js -> i ∈ js -> flags !! i = Some k) /\
  (forall i k, (i < n)%nat -> flags !! i = Some k -> exists js, dict_get k g = Some js /\ i ∈ js).

Lemma group_step flags n k g : flags !! n = Some k -> grouped flags n g -> grouped flags (S n) (dict_set k (default [] (dict_get k g) ++ [n]) g).
Proof.
  intros Hk (G0 & G1 & G2). split_and!; [by apply dict_set_NoDup| |].
  - intros k' js i. destruct (decide (k' = k)) as [->|Hne].
    + rewrite dict_get_set_eq. intros [= <-] [Hi| ->%list_elem_of_singleton]%elem_of_app; [|done].
      destruct (dict_get k g) as [js|] eqn:E; [by eapply G1|by apply elem_of_nil in Hi].
    + rewrite dict_get_set_ne by done. apply G1.
  - intros i k' Hi Hf. destruct (decide (k' = k)) as [->|Hne].
    + exists (default [] (dict_get k g) ++ [n]). rewrite dict_get_set_eq. split; [done|]. apply elem_of_app.
      destruct (decide (i = n)) as [->|Hin]; [right; by apply list_elem_of_singleton|]. left. destruct (G2 i k ltac:(lia) Hf) as (js & -> & Hjs). done.
    + rewrite dict_get_set_ne by done. apply G2; [|done]. destruct (decide (i = n)) as [->|]; [congruence|lia].
Qed.

Lemma group_indices_ok flags : grouped flags (length flags) (group_indices flags).
Proof.
  unfold group_indices. assert (forall k, (k <= length flags)%nat ->
    grouped flags k (foldl (fun g (e : nat * group_key) => dict_set e.2 (default [] (dict_get e.2 g) ++ [e.1]) g) [] (imap pair (take k flags)))) as Hk.
  { induction k as [|k IH]; intros Hlen; [split_and!; [constructor|by intros|lia]|].
    destruct (lookup_lt_is_Some_2 flags k Hlen) as [f Hf]. rewrite (take_S_r _ _ _ Hf), imap_app, foldl_app. cbn.
    rewrite length_take, Nat.min_l, Nat.add_0_r by lia. apply group_step; [done|]. apply IH. lia. }
  specialize (Hk (length flags) (le_n _)). by rewrite take_ge in Hk.
Qed.

(** Every write puts the decoded text of its index. *)
Lemma write_all (target : nat -> text) n (es : list (nat * text)) : Forall (fun e => (e.1 < n)%nat /\ e.2 = target e.1) es -> forall r, length r = n ->
  length (foldl (fun r (e : nat * text) => <[e.1 := e.2]> r) r es) = n /\
  forall i, (i < n)%nat -> foldl (fun r (e : nat * text) => <[e.1 := e.2]> r) r es !! i = if decide (i ∈ es.*1) then Some (target i) else r !! i.
Proof.
  induction 1 as [|[j x] es [Hj Hx] _ IH]; intros r Hr; [split; [done|]; intros i _; by rewrite decide_False by apply not_elem_of_nil|].
  cbn [fst snd] in *. cbn [foldl fst snd]. destruct (IH (<[j := x]> r)) as [H1 H2]; [by rewrite length_insert|]. split; [done|]. intros i Hi. rewrite H2 by done.
  rewrite fmap_cons. cbn [fst]. destruct (decide (i ∈ es.*1)) as [Hin|Hnin]; [by rewrite decide_True by (by right)|].
  destruct (decide (i = j)) as [->|Hne].
  - rewrite decide_True by left. rewrite list_lookup_insert_eq by lia. by rewrite Hx.
  - rewrite decide_False by (rewrite elem_of_cons; naive_solver). by rewrite list_lookup_insert_ne.
Qed.

(** The text of the sequence at an index. *)
Definition target (ids : list (list Z)) (flags : list group_key) (i : nat) : text :=
  let f := default (false, false) (flags !! i) in decode (default [] (ids !! i)) f.1 f.2.

Lemma decode_group_ok ids flags r k js :
  length r = length flags -> (forall i, i ∈ js -> flags !! i = Some k) ->
  length (decode_group batch_decode ids r (k, js)) = length flags /\
  forall i, (i < length flags)%nat -> decode_group batch_decode ids r (k, js) !! i = if decide (i ∈ js) then Some (target ids flags i) else r !! i.
Proof.
  intros Hr Hjs. unfold decode_group. cbn [fst snd]. rewrite Hbatch, <-list_fmap_compose.
  set (es := zip js _). assert (es.*1 = js) as Ez by (apply fst_zip; by rewrite length_fmap). pose proof (write_all (target ids flags) (length flags) es) as Hw. rewrite Ez in Hw. apply Hw; [|done].
  apply Forall_lookup. intros m [i x] Hm. apply lookup_zip_with_Some in Hm as (i' & x' & [= -> ->] & Hi & Hx).
  rewrite list_lookup_fmap, Hi in Hx. injection Hx as <-. assert (flags !! i' = Some k) as Hf by (apply Hjs; by eapply list_elem_of_lookup_2).
  cbn [fst snd]. split; [by eapply lookup_lt_Some|]. unfold target. by rewrite Hf.
Qed.

Lemma decode_groups_ok ids flags (g : list (group_key * list nat)) :
  (forall k js i, (k, js) ∈ g -> i ∈ js -> flags !! i = Some k) -> forall r, length r = length flags ->
  length (foldl (decode_group batch_decode ids) r g) = length flags /\
  forall i, (i < length flags)%nat ->
    ((exists k js, (k, js) ∈ g /\ i ∈ js) -> foldl (decode_group batch_decode ids) r g !! i = Some (target ids flags i)) /\
    (r !! i = Some (target ids flags i) -> foldl (decode_group batch_decode ids) r g !! i = Some (target ids flags i)).
Proof.
  induction g as [|[k js] g IH]; intros Hg r Hr.
  { split; [done|]. intros i _. split; [|done]. intros (? & ? & Hin & _). by apply elem_of_nil in Hin. }
  cbn [foldl]. destruct (decode_group_ok ids flags r k js Hr) as [W1 W2]; [intros i; apply (Hg k js i); left|].
  destruct (IH ltac:(intros k' js' i' Hk; apply (Hg k' js' i'); by right) _ W1) as [I1 I2]. split; [done|]. intros i Hi. destruct (I2 i Hi) as [A1 A2]. split.
  - intros (k' & js' & [[= -> ->]|Hin]%elem_of_cons & Hj); [|apply A1; by exists k', js']. apply A2. rewrite W2 by done. by rewrite decide_True.
  - intros Hri. apply A2. rewrite W2 by done. by destruct (decide (i ∈ js)).
Qed.

Lemma grouped_batch_decode_each ids flags :
  length ids = length flags -> flags <> [] -> _grouped_batch_decode batch_decode ids flags = Ret (decode_each ids flags).
Proof.
  intros El Hne. unfold _grouped_batch_decode. destruct flags as [|[sk spc] fs] eqn:Ef; [done|]. cbv beta iota zeta. rewrite <-Ef in *. clear Hne.
  match goal with |- context [forallb ?f flags] => destruct (forallb f flags) eqn:Eall end; f_equal.
  - rewrite Hbatch. unfold decode_each. clear Ef. revert ids El. induction flags as [|f fl IH]; intros [|l ids] El; try done.
    cbn in Eall. apply andb_true_iff in Eall as [Hf Hrest]. apply bool_decide_eq_true in Hf as ->. cbn. f_equal. apply IH; [done|cbn in El; lia].
  - clear Ef Eall fs. destruct (group_indices_ok flags) as (G0 & G1 & G2).
    destruct (decode_groups_ok ids flags (group_indices flags)) with (r := replicate (length ids) ([] : text)) as [F1 F2].
    { intros k js i Hin Hi. eapply G1; [|exact Hi]. by apply dict_in_get. }
    { by rewrite length_replicate. }
    apply list_eq_same_length with (length flags); [unfold decode_each; rewrite length_zip_with; lia|done|]. intros i x y Hi Hx Hy.
    destruct (lookup_lt_is_Some_2 flags i Hi) as [k Hk]. destruct (G2 i k Hi Hk) as (js & Hjs & Hin).
    destruct (F2 i Hi) as [F3 _]. rewrite F3 in Hx by (exists k, js; split; [by apply dict_get_Some_in|done]). injection Hx as <-.
    unfold decode_each in Hy. apply lookup_zip_with_Some in Hy as (l & f & -> & Hl & Hf). unfold target. by rewrite Hl, Hf.
Qed.
End grouping.

(** ** Each request on its own *)

Section batches.
Context (batch_decode : list (list Z) -> bool -> bool -> list text) (decode : list Z -> bool -> bool -> text).
Context (Hbatch : forall l sk sp, batch_decode l sk sp = (fun x => decode x sk sp) <$> l).
Context (capacity : nat) (is_gpt_oss disable_batch_decode : bool).
Implicit Types (t : TokenOut) (d : StatusDict) (o : option DecodeStatus).

(** What a message does to the status of its request alone: the tokens decoded with their
    surroundings and those alone, then the text sent and the status kept. *)
Definition read_window t (s : DecodeStatus) : Outcome (list Z) :=
  trim_ids is_gpt_oss (to_finished t) (to_no_stop_trim t) (drop (surr_offset s) (decode_ids s)).
Definition surr_window (s : DecodeStatus) : list Z := take (read_offset s - surr_offset s) (drop (surr_offset s) (decode_ids s)).
Definition request_step t o : Outcome (text * option DecodeStatus) :=
  let s := feed_status t o in
  let dec l := decode l (to_skip_special t) (to_spaces t) in
  read ← read_window t s;
  Ret (incremental_text t s (dec (surr_window s)) (dec read)).

Lemma limited_set_room rid s d : (length d < capacity)%nat -> limited_set capacity rid s d = Ret (dict_set rid s d).
Proof. intros Hl. unfold limited_set. by rewrite (proj2 (Nat.leb_gt _ _) Hl). Qed.

Lemma dict_set_length rid (s : DecodeStatus) d : (length (dict_set rid s d) <= S (length d))%nat.
Proof. induction d as [|[k v] d IH]; cbn; [lia|]. case_decide; cbn; lia. Qed.

Lemma init_status_ok t d read :
  (length d < capacity)%nat -> read_window t (feed_status t (dict_get (to_rid t) d)) = Ret read ->
  let s := feed_status t (dict_get (to_rid t) d) in
  init_status capacity is_gpt_oss t d = (Ret (read, surr_window s), dict_set (to_rid t) s d).
Proof.
  intros Hl Hr s. fold s in Hr. unfold init_status. erewrite py_bind_Ret by reflexivity. fold s.
  erewrite (py_bind_Ret _ _ _ (dict_set (to_rid t) s d)).
  2: { unfold py_lift. destruct (dict_get (to_rid t) d); [reflexivity|]. by rewrite limited_set_room. }
  erewrite py_bind_Ret by reflexivity. erewrite py_bind_Ret by (unfold py_lift; fold (read_window t s); rewrite Hr; reflexivity). done.
Qed.

(** All requests of a batch are fed before any text is sent. *)
Lemma init_all_ok ts : forall d,
  NoDup (to_rid <$> ts) -> (length d + length ts <= capacity)%nat ->
  (forall t, t ∈ ts -> exists read, read_window t (feed_status t (dict_get (to_rid t) d)) = Ret read) ->
  exists d1 reads, py_map (init_status capacity is_gpt_oss) ts d
      = (Ret (zip reads ((fun t => surr_window (feed_status t (dict_get (to_rid t) d))) <$> ts)), d1) /\
    Forall2 (fun t read => read_window t (feed_status t (dict_get (to_rid t) d)) = Ret read) ts reads /\
    (forall t, t ∈ ts -> dict_get (to_rid t) d1 = Some (feed_status t (dict_get (to_rid t) d))) /\
    (forall r, (r ∉ to_rid <$> ts) -> dict_get r d1 = dict_get r d) /\ (NoDup (dict_keys d) -> NoDup (dict_keys d1)).
Proof.
  induction ts as [|t ts IH]; intros d Hnd Hcap Hread.
  { exists d, []. split_and!; [done|constructor|intros t Ht; by apply elem_of_nil in Ht|done|done]. }
  rewrite fmap_cons in Hnd. apply NoDup_cons in Hnd as [Ht Hnd]. cbn [length] in Hcap.
  destruct (Hread t ltac:(left)) as [read Hr]. set (s := feed_status t (dict_get (to_rid t) d)) in *. set (d0 := dict_set (to_rid t) s d).
  assert (forall t', t' ∈ ts -> dict_get (to_rid t') d0 = dict_get (to_rid t') d) as Hsame.
  { intros t' Ht'. apply dict_get_set_ne. intros E. apply Ht. rewrite E. by apply list_elem_of_fmap_2. }
  destruct (IH d0 Hnd) as (d1 & reads & E1 & R1 & G1 & G2 & G3).
  { pose proof (dict_set_length (to_rid t) s d). unfold d0. lia. }
  { intros t' Ht'. rewrite Hsame by done. apply Hread. by right. }
  exists d1, (read :: reads). split_and!.
  - cbn [py_map]. erewrite py_bind_Ret by (apply init_status_ok; [lia|exact Hr]). fold s d0. erewrite py_bind_Ret by exact E1.
    rewrite fmap_cons. cbn [zip zip_with]. unfold mret, PyM_ret. do 4 f_equal. apply list_fmap_ext. intros i t' Ht'. rewrite Hsame; [done|by eapply list_elem_of_lookup_2].
  - constructor; [done|]. apply Forall2_same_length_lookup_2; [by eapply Forall2_length|]. intros i t' read' Hi Hi'.
    rewrite <-(Hsame t') by (by eapply list_elem_of_lookup_2). exact (Forall2_lookup_lr _ _ _ _ _ _ R1 Hi Hi').
  - intros t' [->|Ht']%elem_of_cons.
    + rewrite G2 by done. unfold d0. by rewrite dict_get_set_eq.
    + rewrite G1 by done. by rewrite Hsame.
  - intros r Hr'. rewrite fmap_cons in Hr'. apply not_elem_of_cons in Hr' as [H1 H2]. rewrite G2 by done. by apply dict_get_set_ne.
  - intros Hk. apply G3. unfold d0. by apply dict_set_NoDup.
Qed.

(** The texts are sent one request after the other. *)
Lemma send_all_ok (es : list (TokenOut * (text * text))) : forall d (sts : list DecodeStatus),
  NoDup (to_rid <$> es.*1) -> NoDup (dict_keys d) -> Forall2 (fun e s => dict_get (to_rid e.1) d = Some s) es sts ->
  exists d', py_map (fun e => send_text e.1 e.2.1 e.2.2) es d
      = (Ret (zip_with (fun e s => (incremental_text e.1 s e.2.1 e.2.2).1) es sts), d') /\
    Forall2 (fun e s => dict_get (to_rid e.1) d' = (incremental_text e.1 s e.2.1 e.2.2).2) es sts /\
    (forall r, (r ∉ to_rid <$> es.*1) -> dict_get r d' = dict_get r d) /\ NoDup (dict_keys d').
Proof.
  induction es as [|[t [su re]] es IH]; intros d sts Hnd Hk Hf; inversion Hf as [|? s ? sts' Hs Hf']; subst.
  { exists d. split_and!; [done|constructor|done|done]. }
  rewrite fmap_cons, fmap_cons in Hnd. cbn [fst snd] in *. apply NoDup_cons in Hnd as [Ht Hnd].
  destruct (incremental_text t s su re) as [out o] eqn:Ee.
  set (d1 := match o with Some s' => dict_set (to_rid t) s' d | None => dict_pop (to_rid t) d end).
  assert (forall r, r <> to_rid t -> dict_get r d1 = dict_get r d) as Hsame.
  { intros r Hr. unfold d1. destruct o; [by apply dict_get_set_ne|by apply dict_get_pop_ne]. }
  assert (NoDup (dict_keys d1)) as Hk1 by (unfold d1; destruct o; [by apply dict_set_NoDup|by apply dict_pop_NoDup]).
  assert (dict_get (to_rid t) d1 = o) as Hd1 by (unfold d1; destruct o; [apply dict_get_set_eq|by apply dict_get_pop_eq]).
  destruct (IH d1 sts' Hnd Hk1) as (d' & E1 & R1 & G1 & G2).
  { apply Forall2_same_length_lookup_2; [by eapply Forall2_length|]. intros i e s' Hi Hi'. rewrite Hsame; [exact (Forall2_lookup_lr _ _ _ _ _ _ Hf' Hi Hi')|].
    intros E. apply Ht. rewrite <-E, <-list_fmap_compose. apply (list_elem_of_fmap_2 (to_rid ∘ fst)). by eapply list_elem_of_lookup_2. }
  exists d'. split_and!.
  - cbn [py_map]. erewrite py_bind_Ret. 2: { unfold send_text. erewrite py_bind_Ret by reflexivity. cbn [fst snd]. rewrite Hs, Ee. reflexivity. }
    fold d1. erewrite py_bind_Ret by exact E1. cbn [zip_with fst snd]. by rewrite Ee.
  - constructor; [|done]. cbn [fst snd]. rewrite Ee, G1 by done. done.
  - intros r Hr. rewrite fmap_cons, fmap_cons in Hr. apply not_elem_of_cons in Hr as [H1 H2]. rewrite G1 by done. by apply Hsame.
  - done.
Qed.

Lemma decode_texts (ids : list (list Z)) ts d :
  length ids = length ts -> ts <> [] ->
  (if negb disable_batch_decode then py_lift (_grouped_batch_decode batch_decode ids (flags_of <$> ts))
   else mret (zip_with (fun l f => decode l f.1 f.2) ids (flags_of <$> ts))) d = (Ret (decode_each decode ids (flags_of <$> ts)), d).
Proof.
  intros El Hne. destruct disable_batch_decode; [done|]. cbn [negb]. unfold py_lift.
  rewrite (grouped_batch_decode_each batch_decode decode Hbatch); [done|by rewrite length_fmap|]. by destruct ts.
Qed.

(** C10. A batch decodes every request on its own.  For distinct requests and room for their
    statuses, [handle_batch_token_id_out] sends each request exactly the text that decoding
    it alone gives and leaves the status that gives, whether sequences are decoded one by one
    or grouped by their options, and whatever else is in the batch; the statuses of requests
    that are not in the batch stay. *)
Theorem batch_decodes_each ts d :
  NoDup (to_rid <$> ts) -> NoDup (dict_keys d) -> (length d + length ts <= capacity)%nat ->
  (forall t, t ∈ ts -> exists r, request_step t (dict_get (to_rid t) d) = Ret r) ->
  exists outs d', handle_batch_token_id_out batch_decode decode capacity is_gpt_oss disable_batch_decode ts d = (Ret outs, d') /\
    Forall2 (fun t out => request_step t (dict_get (to_rid t) d) = Ret (out, dict_get (to_rid t) d')) ts outs /\
    (forall r, (r ∉ to_rid <$> ts) -> dict_get r d' = dict_get r d) /\ NoDup (dict_keys d').
Proof.
  intros Hnd Hk Hcap Hstep. unfold handle_batch_token_id_out. destruct ts as [|t0 ts0] eqn:Et; [exists [], d; split_and!; [done|constructor|done|done]|].
  rewrite <-Et in *. assert (ts <> []) as Hne by (by rewrite Et). cbv beta iota. rewrite Et. cbv beta iota. rewrite <-Et. clear t0 ts0 Et.
  set (st := fun t => feed_status t (dict_get (to_rid t) d)).
  destruct (init_all_ok ts d Hnd Hcap) as (d1 & reads & E1 & R1 & G1 & G2 & G3).
  { intros t Ht. destruct (Hstep t Ht) as [r Hr]. unfold request_step in Hr. destruct (read_window t _) as [read| |] eqn:Er; [by exists read|done|done]. }
  pose proof (Forall2_length _ _ _ R1) as El. set (surrs := (fun t => surr_window (feed_status t (dict_get (to_rid t) d))) <$> ts) in *.
  assert (length surrs = length ts) as Es by apply length_fmap.
  set (stexts := decode_each decode surrs (flags_of <$> ts)). set (rtexts := decode_each decode reads (flags_of <$> ts)).
  assert (length stexts = length ts /\ length rtexts = length ts) as [Els Elr] by (unfold stexts, rtexts, decode_each; rewrite !length_zip_with, length_fmap; lia).
  set (es := zip ts (zip stexts rtexts)).
  assert (es.*1 = ts) as Efst by (apply fst_zip; rewrite length_zip_with; lia).
  assert (Forall2 (fun e s => dict_get (to_rid e.1) d1 = Some s) es (st <$> ts)) as Hes.
  { apply Forall2_same_length_lookup_2; [unfold es; rewrite length_fmap, !length_zip_with; lia|]. intros i e s Hi Hs.
    rewrite list_lookup_fmap in Hs. destruct (ts !! i) as [t|] eqn:Hti; [|done]. injection Hs as <-.
    apply lookup_zip_with_Some in Hi as (t' & p & -> & Ht' & _). cbn. assert (t' = t) as -> by congruence. apply G1. by eapply list_elem_of_lookup_2. }
  destruct (send_all_ok es d1 (st <$> ts)) as (d' & E2 & R2 & G4 & G5); [by rewrite Efst|by apply G3|done|].
  eexists _, d'. split_and!; [| | |done].
  - unfold _decode_batch_token_id_output. erewrite py_bind_Ret by exact E1.
    assert (length reads = length surrs) as Ers by lia. rewrite (fst_zip reads surrs) by lia. rewrite (snd_zip reads surrs) by lia. erewrite py_bind_Ret by (apply decode_texts; [lia|done]). erewrite py_bind_Ret by (apply decode_texts; [lia|done]). exact E2.
  - apply Forall2_same_length_lookup_2; [unfold es; rewrite length_zip_with, length_fmap, !length_zip_with; lia|]. intros i t out Ht Hout.
    apply lookup_zip_with_Some in Hout as (e & s & -> & He & Hs). rewrite list_lookup_fmap, Ht in Hs. injection Hs as <-.
    pose proof (Forall2_lookup_lr _ _ _ _ _ _ R2 He ltac:(by rewrite list_lookup_fmap, Ht)) as Hd'.
    apply lookup_zip_with_Some in He as (t' & p & -> & Ht' & Hp). assert (t' = t) as -> by congruence. cbn [fst snd] in *. rewrite Hd'.
    apply lookup_zip_with_Some in Hp as (su & re & -> & Hsu & Hre). unfold stexts, rtexts, decode_each in Hsu, Hre.
    apply lookup_zip_with_Some in Hsu as (l1 & f1 & -> & Hl1 & Hf1). apply lookup_zip_with_Some in Hre as (l2 & f2 & -> & Hl2 & Hf2).
    rewrite list_lookup_fmap, Ht in Hf1, Hf2. injection Hf1 as <-. injection Hf2 as <-. unfold surrs in Hl1. rewrite list_lookup_fmap, Ht in Hl1. injection Hl1 as <-.
    unfold request_step. pose proof (Forall2_lookup_lr _ _ _ _ _ _ R1 Ht Hl2) as Hr. cbv beta in Hr. cbv zeta. rewrite Hr.
    unfold mbind, Outcome_bind. cbn [fst snd flags_of]. by destruct (incremental_text _ _ _ _).
  - intros r Hr. rewrite G4 by (by rewrite Efst). by apply G2.
Qed.
End batches.

(** Two requests with different options in a batch: one begins, and one finishes at a stop
    token, beside a third that is not in the batch. *)
Definition shift_decode (l : list Z) (skip spaces : bool) : text :=
  (fun t => if skip then t else t + 1) <$> l.
Definition shift_batch (ids : list (list Z)) (skip spaces : bool) : list text := (fun l => shift_decode l skip spaces) <$> ids.
Definition two_requests : list TokenOut :=
  [mkTokenOut "a" [] [65; 66; 67] 1 None false true true; mkTokenOut "b" [] [68; 2] 1 (Some (Some (MTok 2))) false false true].
Definition kept_statuses : list (string * DecodeStatus) := [("b", mkStatus [70] [69; 70] 0 2 1); ("c", mkStatus [] [71] 0 1 0)].

Lemma batch_decodes_each_witness :
  exists outs d', handle_batch_token_id_out shift_batch shift_decode 8 false false two_requests kept_statuses = (Ret outs, d') /\
    outs = [[66; 67]; [69]] /\ dict_get "c" d' = Some (mkStatus [] [71] 0 1 0) /\ dict_get "b" d' = None.
Proof.
  destruct (batch_decodes_each shift_batch shift_decode (fun ids sk sp => eq_refl) 8 false false two_requests kept_statuses) as (outs & d' & E & Hr & Hs & _).
  - apply (bool_decide_unpack _). vm_compute. exact I.
  - apply (bool_decide_unpack _). vm_compute. exact I.
  - cbn. lia.
  - intros t Ht. apply list_elem_of_In in Ht. destruct Ht as [<-|[<-|[]]]; eexists; reflexivity.
  - exists outs, d'. split; [exact E|].
    inversion Hr as [|t1 o1 ts1 os1 H1 Hr1]; subst. inversion Hr1 as [|t2 o2 ts2 os2 H2 Hr2]; subst. inversion Hr2; subst.
    vm_compute in H1, H2. injection H1 as <- _. injection H2 as <- Hb. split; [reflexivity|]. split; [|by symmetry].
    rewrite Hs; [reflexivity|]. apply (bool_decide_unpack _). vm_compute. exact I.
Defined.
