(* ===== verification/DetokStream.v ===== *)
(** * What a request is sent over time

    The texts of all messages of a request, put together, are the text of all its tokens:
    incremental detokenization agrees with decoding once.  Stated for tokenizers whose
    decoding can be cut between characters, and for texts without CJK characters; with them a
    character may be sent twice. *)

From stdpp Require Import base tactics list strings.
From Stdlib Require Import ZArith Lia.
From S2P Require Import Prelude Detokenizer DetokProofs.

#[local] Open Scope Z_scope.

(** ** Lists *)

Lemma but_last_snoc {A} (l : list A) x : but_last (l ++ [x]) = l.
Proof. unfold but_last. rewrite length_app. cbn [length]. replace (pred (length l + 1)) with (length l) by lia. apply take_app_length. Qed.

Lemma but_last_app {A} (l k : list A) : k <> [] -> but_last (l ++ k) = l ++ but_last k.
Proof. intros Hk. destruct k as [|x k _] using rev_ind; [done|]. by rewrite (assoc_L (++)), !but_last_snoc. Qed.

Lemma last_app_ne {A} (l k : list A) : k <> [] -> last (l ++ k) = last k.
Proof. intros Hk. destruct k as [|x k _] using rev_ind; [done|]. by rewrite (assoc_L (++)), !last_snoc. Qed.

Lemma ends_with_last c s : ends_with c s = true <-> last s = Some c.
Proof. unfold ends_with. destruct (last s) as [c'|]; [|done]. rewrite Z.eqb_eq. split; congruence. Qed.

Lemma prefix_extend {A} (E out : list A) : E `prefix_of` out -> E ++ drop (length E) out = out.
Proof. intros [k ->]. by rewrite drop_app_length. Qed.

Lemma prefix_shorter {A} (l k1 k2 : list A) : l `prefix_of` k1 ++ k2 -> (length l <= length k1)%nat -> l `prefix_of` k1.
Proof.
  intros [j E] Hl. exists (drop (length l) k1). apply (f_equal (take (length l))) in E. rewrite take_app_le, take_app_length in E by done.
  by rewrite <-E at 1; rewrite take_drop.
Qed.

(** *** Up to the last space *)

Lemma upto_space_prefix s : upto_space s `prefix_of` s.
Proof.
  induction s as [|c s IH]; [done|]. cbn. destruct (upto_space s) as [|c' p] eqn:E.
  - destruct (c =? 32); [exists s|eexists]; reflexivity.
  - by apply prefix_cons.
Qed.

Lemma upto_space_last s : upto_space s = [] \/ last (upto_space s) = Some 32.
Proof.
  induction s as [|c s IH]; [by left|]. cbn. destruct (upto_space s) as [|c' p] eqn:E.
  - destruct (Z.eqb_spec c 32) as [->|]; [by right|by left].
  - right. destruct IH as [|IH]; [done|]. exact IH.
Qed.

Lemma upto_space_max P s : P `prefix_of` s -> last P = Some 32 -> P `prefix_of` upto_space s.
Proof.
  revert P. induction s as [|c s IH]; intros P HP Hl; [by apply prefix_nil_inv in HP as ->|].
  destruct P as [|c' P]; [done|]. apply prefix_cons_inv_1 in HP as Hc. apply prefix_cons_inv_2 in HP. subst c'. cbn.
  destruct P as [|c' P].
  - injection Hl as ->. destruct (upto_space s); apply prefix_cons, prefix_nil.
  - specialize (IH _ HP Hl). destruct (upto_space s) as [|a p]; [by apply prefix_nil_inv in IH|]. by apply prefix_cons.
Qed.

(** ** Tokenizers *)

Definition but_repl (s : text) : text := if ends_with REPL s then but_last s else s.

(** Decoding can be cut after the token sequences [cut]: what tokens add there does not depend
    on what came before their surroundings; text that does not end in a replacement character
    ends at such a cut; and only such a last character can change when tokens follow. *)
Class Tokenizer (dec : list Z -> text) (cut : list Z -> Prop) : Prop := {
  cut_nil : cut [];
  dec_window a b c : cut a -> cut (a ++ b) -> b <> [] \/ a = [] ->
    exists t, dec (b ++ c) = dec b ++ t /\ dec (a ++ b ++ c) = dec (a ++ b) ++ t;
  dec_complete a b c t : cut a -> cut (a ++ b) -> b <> [] \/ a = [] -> dec (b ++ c) = dec b ++ t ->
    t <> [] -> last t <> Some REPL -> cut (a ++ b ++ c);
  dec_stable x y : but_repl (dec x) `prefix_of` dec (x ++ y) }.

Section stream.
Context (decode : list Z -> bool -> bool -> text) (skip_special spaces : bool).
Local Abbreviation dec := (fun l => decode l skip_special spaces).
Context (cut : list Z -> Prop) `{!Tokenizer dec cut}.
Context (is_gpt_oss : bool).
Context (r0 : nat) (D0 : text).
Implicit Types (L c : list Z) (E P : text) (s : DecodeStatus) (t : TokenOut) (o : option DecodeStatus).

(** ** One request *)

Definition latin (u : text) : Prop := Forall (fun ch => _is_chinese_char ch = false) u.

Definition with_ids L s : DecodeStatus := mkStatus (decoded_text s) L (surr_offset s) (read_offset s) (sent_offset s).

(** A request that has the tokens [L] and was sent [E]. *)
Record fed L E s : Prop := mkFed {
  fd_ids : decode_ids s = L;
  fd_off : (surr_offset s <= read_offset s <= length L)%nat /\ (r0 <= read_offset s)%nat;
  fd_cut : cut (take (surr_offset s) L) /\ cut (take (read_offset s) L);
  fd_win : (surr_offset s < read_offset s)%nat \/ surr_offset s = 0%nat;
  fd_text : exists u, dec (take (read_offset s) L) = dec (take r0 L) ++ u /\ decoded_text s = D0 ++ u;
  fd_sent : sent_offset s = length E;
  fd_printed : exists P, E `prefix_of` decoded_text s ++ P /\
    (P = [] \/ last P = Some 32 /\ dec (surr_window s) ++ P `prefix_of` dec (drop (surr_offset s) L)) }.

(** The text the tokens after the read offset add. *)
Lemma fed_window L E s : fed L E s ->
  exists u, dec (drop (surr_offset s) L) = dec (surr_window s) ++ u /\ dec L = dec (take (read_offset s) L) ++ u /\
    (u <> [] -> (read_offset s < length L)%nat) /\ (u <> [] -> last u <> Some REPL -> cut L).
Proof.
  intros [F1 (F2 & F2') (F3 & F4) F5 _ _ _]. set (i := surr_offset s) in *. set (r := read_offset s) in *.
  set (b := surr_window s). assert (b = take (r - i) (drop i L)) as Eb by (unfold b, surr_window; by rewrite F1).
  assert (take r L = take i L ++ b) as Er.
  { rewrite Eb. rewrite <-(take_drop i (take r L)), take_take, Nat.min_l by lia. f_equal. by rewrite skipn_firstn_comm. }
  assert (drop i L = b ++ drop r L) as Ed.
  { rewrite Eb. rewrite <-(take_drop (r - i) (drop i L)) at 1. f_equal. rewrite drop_drop. f_equal. lia. }
  assert (b <> [] \/ take i L = []) as Hw.
  { destruct F5 as [F5| ->]; [left|by right]. intros Hb. apply (f_equal length) in Hb. rewrite Eb, length_take, length_drop in Hb. cbn in Hb. lia. }
  rewrite Er in F4. destruct (dec_window (take i L) b (drop r L) F3 F4 Hw) as (u & U1 & U2). exists u.
  assert (take i L ++ b ++ drop r L = L) as EL by (by rewrite <-Ed, take_drop). rewrite EL in U2.
  split_and!; [by rewrite Ed|by rewrite Er| |].
  - intros Hu. destruct (decide (r < length L)%nat) as [|Hge]; [done|]. exfalso. apply Hu. rewrite (drop_ge L r), app_nil_r in U1 by lia.
    apply (f_equal length) in U1. rewrite length_app in U1. destruct u; [done|cbn in U1; lia].
  - intros Hu Hl. rewrite <-EL. by eapply dec_complete.
Qed.

(** What was printed stays a prefix of the text. *)
Lemma printed_prefix L E s u P :
  dec (drop (surr_offset s) L) = dec (surr_window s) ++ u -> E `prefix_of` decoded_text s ++ P ->
  P = [] \/ last P = Some 32 /\ dec (surr_window s) ++ P `prefix_of` dec (drop (surr_offset s) L) ->
  P `prefix_of` u /\ E `prefix_of` decoded_text s ++ u.
Proof.
  intros Hu HE HP. assert (P `prefix_of` u) as Hpu.
  { destruct HP as [->|[_ HP]]; [apply prefix_nil|]. rewrite Hu in HP. by apply prefix_app_inv in HP. }
  split; [done|]. etrans; [exact HE|]. by apply prefix_app.
Qed.

Lemma printable_latin u : latin u -> ends_with 10 u = false -> find_printable_text u = upto_space u.
Proof.
  intros Hl H10. unfold find_printable_text. rewrite H10.
  assert (forall v, latin v -> chinese_at (last v) = false) as Hc.
  { intros v Hv. unfold chinese_at. destruct (last v) as [ch|] eqn:E; [|done]. apply last_Some_elem_of in E. unfold latin in Hv. rewrite Forall_forall in Hv. auto. }
  rewrite Hc by done. rewrite Hc; [by rewrite andb_false_r|]. unfold but_last. by apply Forall_take.
Qed.

(** More tokens. *)
Lemma fed_more L c E s P u :
  decode_ids s = L -> (surr_offset s <= read_offset s <= length L)%nat -> (r0 <= read_offset s)%nat ->
  cut (take (surr_offset s) L) -> cut (take (read_offset s) L) -> (surr_offset s < read_offset s)%nat \/ surr_offset s = 0%nat ->
  dec (take (read_offset s) L) = dec (take r0 L) ++ u -> decoded_text s = D0 ++ u -> sent_offset s = length E ->
  E `prefix_of` decoded_text s ++ P ->
  P = [] \/ last P = Some 32 /\ dec (surr_window s) ++ P `prefix_of` dec (drop (surr_offset s) (L ++ c)) ->
  fed (L ++ c) E (with_ids (L ++ c) s).
Proof.
  intros H1 (H2 & H3) H4 H5 H6 H7 H8 H9 H10 H11 H12.
  assert (surr_window (with_ids (L ++ c) s) = surr_window s) as Hw.
  { unfold surr_window. cbn [with_ids read_offset surr_offset decode_ids]. rewrite H1, drop_app_le by lia. rewrite take_app_le; [done|]. rewrite length_drop. lia. }
  constructor; rewrite ?Hw; cbn [with_ids read_offset surr_offset decode_ids decoded_text sent_offset]; rewrite ?take_app_le by lia; try done.
  - rewrite length_app. lia.
  - by exists u.
  - by exists P.
Qed.

(** The printed part of a text that ends in an incomplete character stays. *)
Lemma printed_stable x w u c :
  dec x = dec w ++ u -> u = [] \/ last u = Some REPL -> last (upto_space u) = Some 32 -> dec w ++ upto_space u `prefix_of` dec (x ++ c).
Proof.
  intros U1 Hu E0. etrans; [|exact (dec_stable x c)]. cbv beta in U1 |- *. unfold but_repl. rewrite U1.
  destruct Hu as [->|Hu]; [done|]. assert (u <> []) as Hne by (by intros ->).
  assert (ends_with REPL (decode w skip_special spaces ++ u) = true) as -> by (apply ends_with_last; by rewrite last_app_ne).
  rewrite but_last_app by done. apply prefix_app. destruct (upto_space_prefix u) as [k Hk].
  destruct k as [|y k _] using rev_ind; [rewrite app_nil_r in Hk; rewrite <-Hk, Hu in E0; discriminate E0|].
  rewrite Hk at 2. rewrite (assoc_L (++)), but_last_snoc. by eexists.
Qed.

Lemma step_open L E s t :
  fed L E s -> to_finished t = None -> latin (dec (drop (surr_offset s) L)) ->
  exists out s', incremental_text t s (dec (surr_window s)) (dec (drop (surr_offset s) L)) = (out, Some s') /\ (read_offset s' <= length L)%nat /\
    forall c, fed (L ++ c) (E ++ out) (with_ids (L ++ c) s').
Proof.
  intros HF Ht Hlat. destruct (fed_window L E s HF) as (u & U1 & U2 & U3 & U4).
  pose proof HF as [F1 (F2 & F2') (F3 & F4) F5 (v & V1 & V2) F7 (P & P1 & P2)].
  destruct (printed_prefix L E s u P U1 P1 P2) as [Hpu HEu].
  unfold incremental_text. rewrite U1, drop_app_length, Ht. cbn [trim_str].
  destruct (negb (bool_decide (u = [])) && negb (ends_with REPL u)) eqn:Eadv.
  - apply andb_true_iff in Eadv as [Hu Hr]. apply negb_true_iff, bool_decide_eq_false in Hu. apply negb_true_iff in Hr.
    assert (last u <> Some REPL) as Hl by (intros E0; apply ends_with_last in E0; congruence).
    cbn [decoded_text sent_offset decode_ids surr_offset read_offset]. rewrite app_nil_r. unfold trim_str at 1 2. 
    assert ((if to_no_stop_trim t then decoded_text s ++ u else decoded_text s ++ u) = decoded_text s ++ u) as -> by (by destruct (to_no_stop_trim t)).
    eexists _, _. split; [reflexivity|]. cbn [read_offset]. rewrite F1. split; [lia|]. intros c. rewrite F7, prefix_extend by done.
    apply (fed_more _ _ _ _ [] (v ++ u)); cbn [decode_ids surr_offset read_offset decoded_text sent_offset]; try done.
    + specialize (U3 Hu). lia.
    + lia.
    + rewrite take_ge by lia. by apply U4.
    + left. by apply U3.
    + rewrite take_ge by lia. by rewrite U2, V1, (assoc_L (++)).
    + by rewrite V2, (assoc_L (++)).
    + by rewrite app_nil_r.
    + by left.
  - assert (u = [] \/ last u = Some REPL) as Hu.
    { apply andb_false_iff in Eadv as [E0|E0]; apply negb_false_iff in E0; [left; by apply bool_decide_eq_true in E0|right; by apply ends_with_last]. }
    assert (ends_with 10 u = false) as H10.
    { destruct (ends_with 10 u) eqn:E10; [|done]. apply ends_with_last in E10. destruct Hu as [->|Hu]; [done|]. rewrite Hu in E10. discriminate E10. }
    rewrite printable_latin; [|cbv beta in Hlat, U1; rewrite U1 in Hlat; by apply Forall_app in Hlat as [_ ?]|done]. set (P' := upto_space u).
    assert (trim_str None (to_no_stop_trim t) (decoded_text s ++ P') = decoded_text s ++ P') as Etr by (unfold trim_str; by destruct (to_no_stop_trim t)).
    rewrite Etr. eexists _, _. split; [reflexivity|]. cbn [read_offset]. rewrite F1. split; [lia|]. intros c. rewrite F7.
    assert (P `prefix_of` P') as HPP by (destruct P2 as [->|[P2 _]]; [apply prefix_nil|by apply upto_space_max]).
    rewrite prefix_extend by (etrans; [exact P1|by apply prefix_app]).
    apply (fed_more _ _ _ _ P' v); cbn [decode_ids surr_offset read_offset decoded_text sent_offset]; try done.
    destruct (upto_space_last u) as [E0|E0]; [by left|right]. split; [done|]. change (surr_window (mkStatus _ _ _ _ _)) with (surr_window (with_ids L s)).
    assert (surr_window (with_ids L s) = surr_window s) as -> by (unfold surr_window; cbn; by rewrite F1).
    rewrite drop_app_le by lia. by apply printed_stable.
Qed.
(** ** A whole request *)

Fixpoint request_run (ts : list TokenOut) o : Outcome (list text * option DecodeStatus) :=
  match ts with
  | [] => Ret ([], o)
  | t :: ts => r ← request_step decode is_gpt_oss t o; rs ← request_run ts r.2; Ret (r.1 :: rs.1, rs.2)
  end.

(** A request between two messages. *)
Definition awaits L E o : Prop :=
  match o with
  | None => L = [] /\ E = []
  | Some s => decode_ids s = L /\ (surr_offset s <= read_offset s <= length L)%nat /\ forall c, fed (L ++ c) E (with_ids (L ++ c) s)
  end.

(** What the first message must say. *)
Definition opens t c : Prop := to_read_offset t = r0 /\ to_decoded_text t = D0 /\ (r0 <= length c)%nat /\ cut (take r0 c).

Lemma awaits_fed L E o t c :
  awaits L E o -> (o = None -> opens t c) ->
  fed (L ++ c) E (with_ids (L ++ c) (feed_status t o)) /\ (surr_offset (feed_status t o) <= length L)%nat /\
  (o <> None -> (read_offset (feed_status t o) <= length L)%nat).
Proof.
  destruct o as [s|]; cbn [awaits].
  - intros (H1 & H2 & H3) _. specialize (H3 c). cbn [feed_status surr_offset read_offset]. split_and!; [exact H3|lia|intros _; lia].
  - intros [-> ->] Ho. destruct (Ho eq_refl) as (E1 & E2 & H1 & H2). cbn [app feed_status surr_offset length]. split_and!; [|lia|done]. unfold with_ids. cbn. rewrite E1, E2.
    constructor; cbn; try done.
    + lia.
    + split; [exact cut_nil|done].
    + by right.
    + exists []. by rewrite !app_nil_r.
    + exists []. split; [by apply prefix_nil|by left].
Qed.

Lemma decode_flags t : to_skip_special t = skip_special -> to_spaces t = spaces ->
  (fun l => decode l (to_skip_special t) (to_spaces t)) = dec.
Proof. by intros -> ->. Qed.

Lemma run_open t o L E :
  awaits L E o -> (o = None -> opens t (to_decode_ids t)) -> to_finished t = None -> to_skip_special t = skip_special -> to_spaces t = spaces ->
  (forall i, latin (dec (drop i (L ++ to_decode_ids t)))) ->
  exists out s', request_step decode is_gpt_oss t o = Ret (out, Some s') /\ awaits (L ++ to_decode_ids t) (E ++ out) (Some s').
Proof.
  intros HA Ho Ht Hsk Hsp Hlat. set (c := to_decode_ids t) in *. destruct (awaits_fed L E o t c HA Ho) as (HF & _ & _).
  assert (decode_ids (feed_status t o) = L ++ c) as Eids.
  { destruct o as [s|]; cbn; [by destruct HA as (-> & _)|by destruct HA as [-> _]]. }
  assert (with_ids (L ++ c) (feed_status t o) = feed_status t o) as Ew by (rewrite <-Eids; by destruct (feed_status t o)). rewrite Ew in HF.
  destruct (step_open (L ++ c) E _ t HF Ht (Hlat _)) as (out & s' & E1 & H1 & H2). exists out, s'. split.
  - unfold request_step, read_window. rewrite Ht, Hsk, Hsp. unfold trim_ids. rewrite Eids.
    destruct (to_no_stop_trim t); unfold mbind, Outcome_bind; by rewrite <-E1.
  - cbn [awaits]. pose proof (H2 []) as HF'. rewrite app_nil_r in HF'. pose proof (fd_off _ _ _ HF') as [Hoff _]. cbn in Hoff.
    split_and!; [|lia|lia|exact H2]. unfold incremental_text in E1. rewrite Ht in E1. cbv zeta in E1.
    destruct (negb _ && negb _) in E1; cbn in E1; injection E1 as _ <-; cbn; exact Eids.
Qed.

Lemma run_all_open ts : forall o L E,
  awaits L E o -> (o = None -> forall t, head ts = Some t -> opens t (to_decode_ids t)) ->
  Forall (fun t => to_finished t = None /\ to_skip_special t = skip_special /\ to_spaces t = spaces) ts ->
  (forall i x, x `prefix_of` L ++ concat (to_decode_ids <$> ts) -> latin (dec (drop i x))) ->
  exists outs o', request_run ts o = Ret (outs, o') /\ awaits (L ++ concat (to_decode_ids <$> ts)) (E ++ concat outs) o' /\ (ts <> [] \/ o <> None -> o' <> None).
Proof.
  induction ts as [|t ts IH]; intros o L E HA Ho Hts Hlat.
  { exists [], o. cbn. rewrite !app_nil_r. split_and!; [done|done|naive_solver]. }
  apply Forall_cons in Hts as [(T1 & T2 & T3) Hts]. rewrite fmap_cons in Hlat |- *. cbn [concat] in *.
  destruct (run_open t o L E HA) as (out & s' & E1 & HA'); [intros E0; by apply Ho|done|done|done| |].
  { intros i. apply Hlat. rewrite (assoc_L (++)). by eexists. }
  destruct (IH (Some s') _ _ HA') as (outs & o' & E2 & HA2 & Hne); [done|done|by rewrite <-(assoc_L (++))|].
  exists (out :: outs), o'. cbn [request_run]. rewrite E1. unfold mbind, Outcome_bind. cbn [fst snd]. rewrite E2. cbn [fst snd concat].
  rewrite !(assoc_L (++)). split_and!; [done|done|]. intros _. apply Hne. by right.
Qed.
Lemma run_snoc ts t : forall o outs o' out o'',
  request_run ts o = Ret (outs, o') -> request_step decode is_gpt_oss t o' = Ret (out, o'') -> request_run (ts ++ [t]) o = Ret (outs ++ [out], o'').
Proof.
  induction ts as [|t1 ts IH]; intros o outs o' out o'' E1 E2; cbn [request_run app] in *.
  - injection E1 as <- <-. rewrite E2. done.
  - destruct (request_step decode is_gpt_oss t1 o) as [[out1 o1]| |]; try discriminate E1. unfold mbind, Outcome_bind in *. cbn [fst snd] in *.
    destruct (request_run ts o1) as [[outs1 o2]| |] eqn:E3; try discriminate E1. injection E1 as <- <-. by rewrite (IH _ _ _ _ _ E3 E2).
Qed.

(** Trimming a stop token looks at the end only. *)
Lemma trim_ids_end fr nst c : c <> [] ->
  exists c', (c' = c \/ c' = but_last c) /\ forall k, trim_ids is_gpt_oss fr nst (k ++ c) = Ret (k ++ c').
Proof.
  intros Hc. unfold trim_ids. destruct nst; [exists c; split; [by left|done]|].
  destruct fr as [[[m|m|m]|]|]; try (exists c; split; [by left|done]).
  destruct (falsy (MTok m)); [exists c; split; [by left|done]|].
  destruct (last c) as [x|] eqn:Hl; [|by apply last_None in Hl].
  destruct ((x =? 200012) && is_gpt_oss) eqn:Eg.
  - exists c. split; [by left|]. intros k. by rewrite last_app_ne, Hl, Eg.
  - exists (but_last c). split; [by right|]. intros k. by rewrite last_app_ne, Hl, Eg, but_last_app.
Qed.

Lemma trim_str_prefix fr nst u : trim_str fr nst u `prefix_of` u.
Proof.
  unfold trim_str. destruct nst; [done|]. destruct fr as [[[m|m|m]|]|]; try done. destruct (falsy _); [done|].
  destruct (str_find m u) as [pos|]; [|done]. exists (drop pos u). by rewrite take_drop.
Qed.

(** The last message. *)
Lemma step_final L E s t fr :
  fed L E (with_ids L s) -> surr_window s = surr_window (with_ids L s) -> to_finished t = Some fr ->
  let full := D0 ++ drop (length (dec (take r0 L))) (dec L) in
  E `prefix_of` full /\
  incremental_text t s (dec (surr_window s)) (dec (drop (surr_offset s) L)) = (drop (length E) (trim_str (Some fr) (to_no_stop_trim t) full), None).
Proof.
  intros HF Hw Ht full. destruct (fed_window L E _ HF) as (u & U1 & U2 & _ & _). rewrite <-Hw in U1.
  pose proof HF as [F1 (F2 & F2') (F3 & F4) F5 (v & V1 & V2) F7 (P & P1 & P2)].
  destruct (printed_prefix L E (with_ids L s) u P) as [_ HEu]; [by rewrite <-Hw|done|done|]. cbn in HEu, V2, U1.
  assert (decoded_text s ++ u = full) as Efull.
  { unfold full. cbv beta in U2, V1 |- *. rewrite U2, V1, V2. by rewrite <-!(assoc_L (++)), drop_app_length. }
  rewrite Efull in HEu. split; [done|]. unfold incremental_text. cbv beta. cbv beta in U1. rewrite U1, drop_app_length, Ht, Efull. cbn in F7. by rewrite F7.
Qed.

(** What a request is sent is the text of its tokens.  For a request that gets the
    messages [ts] and a last one [tn], whose texts have no CJK characters, over a tokenizer
    that can be cut between characters: the texts sent before the last message are a prefix
    of the text of all tokens after the prompt (without a matched stop token), decoded at
    once; with the last one they are all of it up to a matched stop string, or, if more than
    that had been sent already, the last one is empty.  The status is dropped at the end. *)
Lemma detokenized_stream ts tn fr t0 L L' :
  let L0 := concat (to_decode_ids <$> ts) in
  L = L0 ++ to_decode_ids tn -> head (ts ++ [tn]) = Some t0 ->
  to_read_offset t0 = r0 -> to_decoded_text t0 = D0 -> (r0 <= length (to_decode_ids t0))%nat -> cut (take r0 (to_decode_ids t0)) ->
  to_decode_ids tn <> [] -> (ts = [] -> (r0 < length (to_decode_ids tn))%nat) ->
  Forall (fun t => to_finished t = None) ts -> to_finished tn = Some fr ->
  Forall (fun t => to_skip_special t = skip_special /\ to_spaces t = spaces) (ts ++ [tn]) ->
  (forall i x, x `prefix_of` L -> latin (dec (drop i x))) ->
  trim_ids is_gpt_oss (Some fr) (to_no_stop_trim tn) L = Ret L' ->
  let full := D0 ++ drop (length (dec (take r0 L))) (dec L') in
  let final := trim_str (Some fr) (to_no_stop_trim tn) full in
  exists outs out, request_run (ts ++ [tn]) None = Ret (outs ++ [out], None) /\ concat outs `prefix_of` full /\
    (concat outs ++ out = final \/ final `prefix_of` concat outs /\ out = []).
Proof.
  intros L0 HL Hhd Hr HD Hlen Hcut Hne Hsingle Hopen Hfin Hflags Hlat Htrim full final. apply Forall_app in Hflags as [Hf1 Hf2].
  apply Forall_cons in Hf2 as [[Hsk Hsp] _].
  destruct (run_all_open ts None [] []) as (outs & o & E1 & HA & Hsome); [by split| | | |].
  { intros _ t Ht. assert (t = t0) as -> by (destruct ts; [done|cbn in *; congruence]). by split_and!. }
  { apply Forall_and. by split. }
  { intros i x Hx. apply Hlat. rewrite HL. etrans; [exact Hx|]. by eexists. }
  cbn [app] in HA. fold L0 in HA. set (E := concat outs) in *.
  destruct (trim_ids_end (Some fr) (to_no_stop_trim tn) (to_decode_ids tn) Hne) as (c' & Hc' & Htr).
  assert (L' = L0 ++ c') as -> by (rewrite HL, Htr in Htrim; congruence).
  assert (o = None -> opens tn c') as Ho.
  { intros ->. destruct ts as [|t1 ts1]; [|exfalso; by apply Hsome; [left|]]. injection Hhd as ->. specialize (Hsingle eq_refl).
    assert (take r0 c' = take r0 (to_decode_ids t0) /\ (r0 <= length c')%nat) as [H1 H2]; [|split_and!; [done|done|done|by rewrite H1]].
    destruct Hc' as [->| ->]; [by split; [|lia]|]. unfold but_last. rewrite take_take, length_take. split; [f_equal|]; lia. }
  destruct (awaits_fed L0 E o tn c' HA Ho) as (HF & Hsurr & Hread).
  assert (decode_ids (feed_status tn o) = L0 ++ to_decode_ids tn) as Eids.
  { destruct o as [s|]; cbn; [by destruct HA as (-> & _)|by destruct HA as [-> _]]. }
  assert (take r0 L = take r0 (L0 ++ c')) as Etk.
  { destruct o as [s|].
    - pose proof (fd_off _ _ _ HF) as [_ Hr0]. specialize (Hread ltac:(done)). cbn in Hr0, Hread. rewrite HL, !take_app_le by lia. done.
    - destruct (Ho eq_refl) as (_ & _ & H1 & _). destruct HA as [-> _]. cbn [app]. rewrite HL. cbn [app]. destruct Hc' as [->| ->]; [done|].
      unfold but_last in *. rewrite take_take. rewrite length_take in H1. f_equal. lia. }
  assert (surr_window (feed_status tn o) = surr_window (with_ids (L0 ++ c') (feed_status tn o))) as Hw.
  { unfold surr_window. cbn [with_ids read_offset surr_offset decode_ids]. rewrite Eids, !(drop_app_le L0) by lia. destruct o as [s|].
    - specialize (Hread ltac:(done)). rewrite !take_app_le by (rewrite length_drop; lia). done.
    - destruct HA as [-> _]. destruct (Ho eq_refl) as (Er & _ & H1 & _). cbn [feed_status read_offset surr_offset drop]. rewrite Er, Nat.sub_0_r. cbn [app] in *. by rewrite <-HL. }
  destruct (step_final (L0 ++ c') E (feed_status tn o) tn fr HF Hw Hfin) as [HEp Hemit]. rewrite <-Etk in HEp, Hemit. fold full in HEp, Hemit. fold final in Hemit.
  exists outs, (drop (length E) final). split_and!; [|exact HEp|].
  - eapply run_snoc; [exact E1|]. unfold request_step, read_window. rewrite Hfin, Hsk, Hsp, Eids, drop_app_le, Htr by lia.
    unfold mbind, Outcome_bind. cbn [with_ids surr_offset] in Hemit. rewrite drop_app_le in Hemit by lia. by rewrite <-Hemit.
  - assert (final `prefix_of` full) as Hpre by apply trim_str_prefix.
    destruct (prefix_weak_total _ _ _ HEp Hpre) as [Hle|Hge]; [left; by apply prefix_extend|right; split; [done|]]. apply drop_ge. by apply prefix_length.
Qed.
End stream.

(** ** A tokenizer with incomplete characters *)

(** A token is a character, or (from 1000 to 1999) the first half of one that the next token
    completes. *)
Definition lead (t : Z) : bool := (1000 <=? t) && (t <? 2000).
Fixpoint pair_dec (l : list Z) : text :=
  match l with
  | [] => []
  | t :: l' => if lead t then match l' with [] => [REPL] | u :: l'' => (u + t - 1000) :: pair_dec l'' end else t :: pair_dec l'
  end.
Fixpoint whole (l : list Z) : bool :=
  match l with
  | [] => true
  | t :: l' => if lead t then match l' with [] => false | _ :: l'' => whole l'' end else whole l'
  end.

Lemma pair_ind (P : list Z -> Prop) :
  P [] -> (forall t, lead t = true -> P [t]) -> (forall t u l, lead t = true -> P l -> P (t :: u :: l)) -> (forall t l, lead t = false -> P l -> P (t :: l)) -> forall l, P l.
Proof.
  intros H1 H2 H3 H4. assert (forall n l, (length l <= n)%nat -> P l) as Hn; [|intros l; by apply (Hn (length l))].
  induction n as [|n IH]; intros [|t l] Hl; try done; [cbn in Hl; lia|]. cbn in Hl.
  destruct (lead t) eqn:Ht; [|apply H4; [done|apply IH; lia]]. destruct l as [|u l]; [by apply H2|]. apply H3; [done|]. apply IH. cbn in Hl. lia.
Qed.

Lemma pair_dec_app a b : whole a = true -> pair_dec (a ++ b) = pair_dec a ++ pair_dec b /\ whole (a ++ b) = whole b.
Proof.
  induction a as [|t Ht|t u a Ht IH|t a Ht IH] using pair_ind; intros Hw; [done| | |]; cbn in *.
  - by rewrite Ht in Hw.
  - rewrite Ht in *. destruct (IH Hw) as [-> ->]. done.
  - rewrite Ht in *. destruct (IH Hw) as [-> ->]. done.
Qed.

Lemma pair_dec_half a : whole a = false -> exists v, pair_dec a = v ++ [REPL] /\ forall y, v `prefix_of` pair_dec (a ++ y).
Proof.
  induction a as [|t Ht|t u a Ht IH|t a Ht IH] using pair_ind; intros Hw; [done| | |]; cbn in *.
  - exists []. rewrite Ht. split; [done|]. intros y. apply prefix_nil.
  - rewrite Ht in *. destruct (IH Hw) as (v & -> & Hv). exists ((u + t - 1000) :: v). split; [done|]. intros y. by apply prefix_cons.
  - rewrite Ht in *. destruct (IH Hw) as (v & -> & Hv). exists (t :: v). split; [done|]. intros y. by apply prefix_cons.
Qed.

#[global] Instance pair_tokenizer : Tokenizer pair_dec (fun l => whole l = true).
Proof.
  split.
  - done.
  - intros a b c Ha Hab _. destruct (pair_dec_app a b Ha) as [_ Eb]. rewrite Hab in Eb. symmetry in Eb.
    exists (pair_dec c). split; [by apply pair_dec_app|]. rewrite (assoc_L (++)). by apply pair_dec_app.
  - intros a b c t Ha Hab _ Ht Hne Hl. rewrite (assoc_L (++)). destruct (pair_dec_app a b Ha) as [_ Eb]. rewrite Hab in Eb. symmetry in Eb.
    rewrite (proj2 (pair_dec_app (a ++ b) c Hab)). rewrite (proj1 (pair_dec_app b c Eb)) in Ht. apply (inj (pair_dec b ++.)) in Ht as <-.
    destruct (whole c) eqn:Ec; [done|]. destruct (pair_dec_half c Ec) as (v & Ev & _). rewrite Ev, last_snoc in Hl. done.
  - intros x y. unfold but_repl. destruct (whole x) eqn:Ex.
    + rewrite (proj1 (pair_dec_app x y Ex)). destruct (ends_with REPL (pair_dec x)); [|by eexists].
      unfold but_last. apply prefix_app_r. eexists. by rewrite take_drop.
    + destruct (pair_dec_half x Ex) as (v & Ev & Hv). rewrite Ev. assert (ends_with REPL (v ++ [REPL]) = true) as -> by (apply ends_with_last; apply last_snoc).
      rewrite but_last_snoc. apply Hv.
Qed.

(** A message with the tokens [ids]; the prompt ends with token 65. *)
Definition msg (ids : list Z) (fr : option FinishedReason) : TokenOut := mkTokenOut "r" [] ids 1 fr false true true.
Definition plain_decode (l : list Z) (_ _ : bool) : text := pair_dec l.

(** "Hello " with an incomplete character, its end, and a stop string. *)
Definition st_ts : list TokenOut := [msg [65; 72; 105; 32; 1200] None; msg [33; 32; 98] None].
Definition st_tn : TokenOut := msg [99; 69; 78; 68] (Some (Some (MStr [69; 78; 68]))).

Lemma st_latin i x : x `prefix_of` [65; 72; 105; 32; 1200; 33; 32; 98; 99; 69; 78; 68] -> latin (pair_dec (drop i x)).
Proof.
  intros [k Hk]. assert (x = take (length x) [65; 72; 105; 32; 1200; 33; 32; 98; 99; 69; 78; 68]) as -> by (rewrite Hk; by rewrite take_app_length).
  set (n := length x). clearbody n. clear Hk.
  assert (forall n i, (n <= 12)%nat -> (i <= 12)%nat -> latin (pair_dec (drop i (take n [65; 72; 105; 32; 1200; 33; 32; 98; 99; 69; 78; 68])))) as Hall.
  { assert (forallb (fun n => forallb (fun i => forallb (fun c => negb (_is_chinese_char c)) (pair_dec (drop i (take n [65; 72; 105; 32; 1200; 33; 32; 98; 99; 69; 78; 68]))))
      (seq 0 13)) (seq 0 13) = true) as Hb by (vm_compute; reflexivity).
    intros m j Hm Hj. rewrite forallb_forall in Hb. specialize (Hb m ltac:(apply in_seq; lia)). rewrite forallb_forall in Hb. specialize (Hb j ltac:(apply in_seq; lia)).
    apply Forall_forall. intros c Hc%list_elem_of_In. rewrite forallb_forall in Hb. by apply negb_true_iff, Hb. }
  destruct (decide (n <= 12)%nat) as [Hn|Hn].
  - destruct (decide (i <= 12)%nat) as [Hi|Hi]; [by apply Hall|]. rewrite drop_ge; [constructor|]. rewrite length_take. cbn. lia.
  - rewrite take_ge by (cbn; lia). rewrite <-(take_ge [65; 72; 105; 32; 1200; 33; 32; 98; 99; 69; 78; 68] 12) by (cbn; lia).
    destruct (decide (i <= 12)%nat) as [Hi|Hi]; [by apply Hall|]. rewrite drop_ge; [constructor|]. rewrite length_take. cbn. lia.
Qed.

(** ... is sent as "Hi ", then a character with an accent and "b", and "c" before the stop string. *)
Lemma pair_stream :
  exists outs out, request_run plain_decode false (st_ts ++ [st_tn]) None = Ret (outs ++ [out], None) /\
    concat outs ++ out = [72; 105; 32; 233; 32; 98; 99].
Proof.
  destruct (detokenized_stream plain_decode true true (fun l => whole l = true) (Tokenizer0 := pair_tokenizer) false 1 [] st_ts st_tn (Some (MStr [69; 78; 68]))
    (msg [65; 72; 105; 32; 1200] None) [65; 72; 105; 32; 1200; 33; 32; 98; 99; 69; 78; 68] [65; 72; 105; 32; 1200; 33; 32; 98; 99; 69; 78; 68])
    as (outs & out & E & Hp & Hf); try reflexivity.
  - cbn. lia.
  - discriminate.
  - discriminate.
  - repeat constructor.
  - repeat constructor.
  - exact st_latin.
  - exists outs, out. split; [exact E|].
    assert (request_run plain_decode false (st_ts ++ [st_tn]) None = Ret ([[72; 105; 32]; [233; 32; 98]; [99]], None)) as Ec by reflexivity.
    rewrite Ec in E. injection E as Eo. assert (out = [99]) as Hout by (apply (f_equal last) in Eo; rewrite last_snoc in Eo; by injection Eo).
    destruct Hf as [->|[_ E0]]; [reflexivity|congruence].
Defined.

(** A CJK character before an incomplete one is sent; when the next message ends in an
    incomplete character too, the text to print is cut at the last space, the offset of what
    was sent goes back, and the character is sent again. *)
Theorem chinese_text_sent_twice :
  request_run plain_decode false [msg [65; 22909; 1200] None; msg [33; 65292; 1200] None; msg [33] (Some None)] None
    = Ret ([[22909]; []; [22909; 233; 65292; 233]], None).
Proof. reflexivity. Qed.
