(* ===== verification/FinishCheck.v ===== *)
(** * When a request stops, and what it streams (managers/schedule_batch.py)

    The scheduler appends the tokens that a step accepts to a request, checks whether the
    request has finished, and streams the tokens that have not been sent.  The tokenizer, the
    regex search and the state of the grammar are parameters; token sets are lists in their
    iteration order. *)

From stdpp Require Import base tactics list strings.
From Stdlib Require Import ZArith Lia.
From S2P Require Import Prelude Detokenizer.

#[local] Open Scope Z_scope.

(** ** Finish reasons *)

Inductive FinishReason :=
  | FINISH_MATCHED_TOKEN (matched : Z)
  | FINISH_MATCHED_STR (matched : text)
  | FINISHED_MATCHED_REGEX (matched : text)
  | FINISH_LENGTH (len : nat)
  | FINISH_ABORT.

(** [to_json]: what the detokenizer reads of it is the field [matched]. *)
Definition to_json (fr : FinishReason) : FinishedReason :=
  match fr with
  | FINISH_MATCHED_TOKEN t => Some (MTok t)
  | FINISH_MATCHED_STR s | FINISHED_MATCHED_REGEX s => Some (MStr s)
  | FINISH_LENGTH _ | FINISH_ABORT => None
  end.

(** ** Parameters and state of a request *)

(** The sampling parameters after [normalize]; [max_new_tokens] has been checked not to be
    negative. *)
Record SamplingParams := mkSampling {
  max_new_tokens : nat;
  stop_strs : list text;
  stop_str_max_len : Z;
  stop_regex_strs : list text;
  stop_regex_max_len : Z;
  stop_token_ids : list Z;
  ignore_eos : bool;
  skip_special_tokens : bool;
  spaces_between_special_tokens : bool;
  no_stop_trim : bool;
  sp_stream_interval : option nat }.

Record TokenizerInfo := mkTokenizer {
  eos_token_id : option Z;
  additional_stop_token_ids : list Z;
  tok_decode : list Z -> text }.

Record GenReq := mkReq {
  origin_input_ids_unpadded : list Z;
  output_ids : list Z;
  finished_reason : option FinishReason;
  finished_len : option nat;
  to_finish : option FinishReason;
  finished_output : bool;
  req_offsets : option (nat * nat);   (* surr_offset and read_offset, both set or both None *)
  surr_and_decode_ids : list Z;
  cur_decode_ids_len : nat;
  send_decode_id_offset : nat;
  send_token_offset : nat }.

(** A request as [Req.__init__] makes it. *)
Definition new_req (input : list Z) : GenReq := mkReq input [] None None None false None [] 0 0 0.

Definition with_output (ids : list Z) (r : GenReq) : GenReq :=
  mkReq (origin_input_ids_unpadded r) ids (finished_reason r) (finished_len r) (to_finish r) (finished_output r)
    (req_offsets r) (surr_and_decode_ids r) (cur_decode_ids_len r) (send_decode_id_offset r) (send_token_offset r).
Definition with_finish (fr : option FinishReason) (n : option nat) (tf : option FinishReason) (r : GenReq) : GenReq :=
  mkReq (origin_input_ids_unpadded r) (output_ids r) fr n tf (finished_output r)
    (req_offsets r) (surr_and_decode_ids r) (cur_decode_ids_len r) (send_decode_id_offset r) (send_token_offset r).
Definition with_finished_output (n : option nat) (r : GenReq) : GenReq :=
  mkReq (origin_input_ids_unpadded r) (output_ids r) (finished_reason r) n (to_finish r) true
    (req_offsets r) (surr_and_decode_ids r) (cur_decode_ids_len r) (send_decode_id_offset r) (send_token_offset r).
Definition with_decode (o : nat * nat) (ids : list Z) (n : nat) (r : GenReq) : GenReq :=
  mkReq (origin_input_ids_unpadded r) (output_ids r) (finished_reason r) (finished_len r) (to_finish r) (finished_output r)
    (Some o) ids n (send_decode_id_offset r) (send_token_offset r).
Definition with_sent (d t : nat) (r : GenReq) : GenReq :=
  mkReq (origin_input_ids_unpadded r) (output_ids r) (finished_reason r) (finished_len r) (to_finish r) (finished_output r)
    (req_offsets r) (surr_and_decode_ids r) (cur_decode_ids_len r) d t.

Definition finished (r : GenReq) : bool := bool_decide (finished_reason r <> None).

Definition output_ids_through_stop (r : GenReq) : list Z :=
  match finished_len r with Some n => take n (output_ids r) | None => output_ids r end.

(** [l[-n:]]; for [n = 0] it is all of [l]. *)
Definition last_n {A} (n : nat) (l : list A) : list A :=
  match n with O => l | S _ => drop (length l - n) l end.

(** [s in t] *)
Definition contains_text (s t : text) : bool := match str_find s t with Some _ => true | None => false end.

Definition INIT_INCREMENTAL_DETOKENIZATION_OFFSET : nat := 5.

Section request.
Context (re_search : text -> text -> bool).
Context (sp : SamplingParams) (tokenizer : option TokenizerInfo) (eos_token_ids : list Z) (vocab_size : Z).

(** ** Stop conditions *)

Definition tail_str (r : GenReq) : Outcome text :=
  match stop_strs sp, stop_regex_strs sp with
  | [], [] => Ret []
  | _, _ =>
      let max_len_tail_str := Z.max (stop_str_max_len sp + 1) (stop_regex_max_len sp + 1) in
      let tail_len := Z.to_nat (Z.min max_len_tail_str (Z.of_nat (length (output_ids r)))) in
      match tokenizer with
      | None => Raise AttributeError
      | Some tk => Ret (tok_decode tk (last_n tail_len (output_ids r)))
      end
  end.

(** A suffix of [tail] of 1 to [n] characters is a prefix of [stop]. *)
Fixpoint overlap (tail stop : text) (n : nat) : bool :=
  match n with
  | O => false
  | S m => overlap tail stop m || bool_decide (last_n n tail = take n stop)
  end.

Definition check_match_stop_str_prefix (r : GenReq) : Outcome bool :=
  match stop_strs sp with
  | [] => Ret false
  | _ =>
      tail ← tail_str r;
      match tail with
      | [] => Ret false
      | _ => Ret (existsb (fun stop => match stop with
                                       | [] => false
                                       | _ => contains_text stop tail || overlap tail stop (Nat.min (length tail) (length stop))
                                       end) (stop_strs sp))
      end
  end.

Definition in_list (t : Z) (l : list Z) : bool := existsb (Z.eqb t) l.

Definition matched_eos (t : Z) : bool :=
  in_list t (stop_token_ids sp) || in_list t eos_token_ids
  || match tokenizer with
     | None => false
     | Some tk => match eos_token_id tk with Some e => t =? e | None => false end || in_list t (additional_stop_token_ids tk)
     end.

(** The loop of [_check_token_based_finish] over the new tokens; the first of [new] is at
    [pos] in [output_ids]. *)
Fixpoint token_loop (pos : nat) (new : list Z) : PyM GenReq bool :=
  match new with
  | [] => mret false
  | t :: new' =>
      if matched_eos t then
        _ ← py_modify (fun r => with_finish (Some (FINISH_MATCHED_TOKEN t)) (Some (pos + 1)%nat) (to_finish r) r);
        mret true
      else token_loop (S pos) new'
  end.
Definition _check_token_based_finish (new : list Z) : PyM GenReq bool :=
  if ignore_eos sp then mret false
  else r ← py_get; token_loop (length (output_ids r) - length new) new.

(** "NaN happened" *)
Definition NaN_happened : text := [78; 97; 78; 32; 104; 97; 112; 112; 101; 110; 101; 100].

Fixpoint vocab_loop (pos : nat) (new : list Z) : PyM GenReq bool :=
  match new with
  | [] => mret false
  | t :: new' =>
      if (vocab_size <? t) || (t <? 0) then
        _ ← py_modify (fun r => match stop_token_ids sp with s :: _ => with_output (<[pos := s]> (output_ids r)) r | [] => r end);
        _ ← py_modify (fun r => match eos_token_ids with e :: _ => with_output (<[pos := e]> (output_ids r)) r | [] => r end);
        _ ← py_modify (fun r => with_finish (Some (FINISH_MATCHED_STR NaN_happened)) (Some (pos + 1)%nat) (to_finish r) r);
        mret true
      else vocab_loop (S pos) new'
  end.
Definition _check_vocab_boundary_finish (new : list Z) : PyM GenReq bool :=
  r ← py_get; vocab_loop (length (output_ids r) - length new) new.

(** [Req.decoded_text] is the empty string that [__init__] sets: a stop string is in it only
    if it is empty. *)
Definition _check_str_based_finish : PyM GenReq bool :=
  match stop_strs sp, stop_regex_strs sp with
  | [], [] => mret false
  | _, _ =>
      r ← py_get;
      tail ← py_lift (tail_str r);
      match list_find (fun s => contains_text s tail || contains_text s [] = true) (stop_strs sp) with
      | Some (_, s) => _ ← py_modify (fun r => with_finish (Some (FINISH_MATCHED_STR s)) (finished_len r) (to_finish r) r); mret true
      | None =>
          match list_find (fun p => re_search p tail = true) (stop_regex_strs sp) with
          | Some (_, p) => _ ← py_modify (fun r => with_finish (Some (FINISHED_MATCHED_REGEX p)) (finished_len r) (to_finish r) r); mret true
          | None => mret false
          end
      end
  end.

(** The end of [check_finished]: the conditions on the new tokens, in their order. *)
Definition check_new_tokens (new_accepted_tokens : list Z) : PyM GenReq unit :=
  b ← _check_token_based_finish new_accepted_tokens;
  if b : bool then mret tt else
  b ← _check_vocab_boundary_finish new_accepted_tokens;
  if b : bool then mret tt else
  _ ← _check_str_based_finish; mret tt.

(** [check_finished]; [grammar] is [grammar.is_terminated()], if the request has a grammar. *)
Definition check_finished (grammar : option bool) (new_accepted_len : nat) : PyM GenReq unit :=
  r ← py_get;
  if finished r then mret tt
  else match to_finish r with
  | Some fr => py_modify (with_finish (Some fr) (finished_len r) None)
  | None =>
      if (max_new_tokens sp <=? length (output_ids r))%nat then
        py_modify (with_finish (Some (FINISH_LENGTH (max_new_tokens sp))) (Some (max_new_tokens sp)) None)
      else match grammar with
      | Some true =>
          match last (output_ids r) with
          | None => py_raise IndexError
          | Some t => py_modify (with_finish (Some (FINISH_MATCHED_TOKEN t)) (finished_len r) None)
          end
      | _ =>
          check_new_tokens (last_n new_accepted_len (output_ids r))
      end
  end.

(** ** Streaming *)

Definition init_incremental_detokenize : PyM GenReq (list Z * nat) :=
  r ← py_get;
  let out := output_ids_through_stop r in
  match req_offsets r with
  | None =>
      let read := length (origin_input_ids_unpadded r) in
      let surr := (read - INIT_INCREMENTAL_DETOKENIZATION_OFFSET)%nat in
      let ids := drop surr (origin_input_ids_unpadded r) ++ out in
      _ ← py_modify (with_decode (surr, read) ids (length out));
      mret (ids, (read - surr)%nat)
  | Some (surr, read) =>
      let ids := surr_and_decode_ids r ++ drop (cur_decode_ids_len r) out in
      _ ← py_modify (with_decode (surr, read) ids (length out));
      mret (ids, (read - surr)%nat)
  end.

Context (rid : string) (stream : bool) (stream_interval DEFAULT_FORCE_STREAM_INTERVAL : nat).

(** Whether [stream_output_generation] sends something for a request now. *)
Definition should_output : PyM GenReq bool :=
  r ← py_get;
  if finished r then
    if finished_output r then mret false
    else
      _ ← py_modify (with_finished_output (Some (match finished_len r with Some n => n | None => length (output_ids r) end)));
      mret true
  else if stream then
    let interval := match sp_stream_interval sp with Some (S n) => S n | _ => stream_interval end in
    if bool_decide (interval = 0%nat) then py_raise ZeroDivisionError
    else if bool_decide (length (output_ids r) mod interval = (if (1 <? interval)%nat then 1 else 0))%nat then
      b ← py_lift (check_match_stop_str_prefix r); mret (negb b)
    else mret false
  else if bool_decide (DEFAULT_FORCE_STREAM_INTERVAL = 0%nat) then py_raise ZeroDivisionError
  else mret (bool_decide (length (output_ids r) mod DEFAULT_FORCE_STREAM_INTERVAL = 0)%nat).

(** What is sent: the message for the detokenizer, and the new output ids. *)
Definition stream_output_generation : PyM GenReq (option (TokenOut * list Z)) :=
  b ← should_output;
  if b : bool then
    r ← py_get;
    d ← init_incremental_detokenize;
    let out := output_ids_through_stop r in
    let m := mkTokenOut rid [] (drop (send_decode_id_offset r) d.1) d.2 (to_json <$> finished_reason r)
               (no_stop_trim sp) (skip_special_tokens sp) (spaces_between_special_tokens sp) in
    _ ← py_modify (with_sent (length d.1) (length out));
    mret (Some (m, drop (send_token_offset r) out))
  else mret None.

(** ** A step: the tokens the model accepted, and the state of the grammar after them *)

(** What [process_batch_result_decode] does to a request; a finished one is skipped. *)
Definition process_result (toks : list Z) (grammar : option bool) : PyM GenReq unit :=
  r ← py_get;
  if finished r then mret tt
  else
    _ ← py_modify (with_output (output_ids r ++ toks));
    check_finished grammar (length toks).

Definition step (e : list Z * option bool) : PyM GenReq (option (TokenOut * list Z)) :=
  _ ← process_result e.1 e.2; stream_output_generation.

Definition run (es : list (list Z * option bool)) : PyM GenReq (list (TokenOut * list Z)) :=
  ms ← py_map step es; mret (omap id ms).
End request.
