(* ===== verification/FinishProofs.v ===== *)
(** * Requests stop in time, and everything they generate is streamed

    The stop conditions over whole runs of a request, what its messages add up to, and the
    text that the detokenizer makes of them. *)

From stdpp Require Import base tactics list strings sets.
From Stdlib Require Import ZArith Lia.
From S2P Require Import Prelude Detokenizer DetokProofs DetokStream FinishCheck.

#[local] Open Scope Z_scope.

(** What [check_finished] leaves alone. *)
Definition same_stream (r r' : GenReq) : Prop :=
  origin_input_ids_unpadded r' = origin_input_ids_unpadded r /\ finished_output r' = finished_output r /\
  req_offsets r' = req_offsets r /\ surr_and_decode_ids r' = surr_and_decode_ids r /\
  cur_decode_ids_len r' = cur_decode_ids_len r /\ send_decode_id_offset r' = send_decode_id_offset r /\
  send_token_offset r' = send_token_offset r.

(** A request that goes on. *)
Definition alive (r : GenReq) : Prop := finished_reason r = None /\ finished_len r = None /\ to_finish r = None.

Lemma last_n_app {A} (l k : list A) : k <> [] -> last_n (length k) (l ++ k) = k.
Proof.
  intros Hk. unfold last_n. destruct (length k) eqn:E; [by destruct k|]. rewrite <-E, length_app.
  replace (length l + length k - length k)%nat with (length l) by lia. apply drop_app_length.
Qed.

Lemma take_prefix {A} n (l : list A) : take n l `prefix_of` l.
Proof. exists (drop n l). by rewrite take_drop. Qed.

Lemma last_take {A} (l : list A) i x : l !! i = Some x -> last (take (i + 1) l) = Some x.
Proof. intros H. rewrite Nat.add_1_r, (take_S_r _ _ x H). apply last_snoc. Qed.

Lemma but_last_take {A} (l : list A) i : (i < length l)%nat -> but_last (take (i + 1) l) = take i l.
Proof. intros H. unfold but_last. rewrite length_take, take_take. f_equal. lia. Qed.

Section requests.
Context (re_search : text -> text -> bool).
Context (sp : SamplingParams) (tokenizer : option TokenizerInfo) (eos_token_ids : list Z) (vocab_size : Z).
Context (rid : string) (stream : bool) (stream_interval force_interval : nat).
Local Abbreviation check_finished := (check_finished re_search sp tokenizer eos_token_ids vocab_size).
Local Abbreviation matched_eos := (matched_eos sp tokenizer eos_token_ids).
Implicit Types (r : GenReq) (new out gen : list Z).

Definition stops (t : Z) : bool := negb (ignore_eos sp) && matched_eos t.
Definition in_vocab (t : Z) : Prop := 0 <= t <= vocab_size.

(** ** The stop conditions *)

(** A request that stops among its new tokens [new], which follow [gen]: the tokens through
    the stop are some of the new ones after [gen], only the last may have been changed, and a
    matched stop token is the last. *)
Record stopped (gen new : list Z) (r r' : GenReq) : Prop := mkStopped {
  st_reason : finished_reason r' <> None;
  st_same : same_stream r r';
  st_len : (length gen < length (output_ids_through_stop r') <= length gen + length new)%nat;
  st_max : (length (output_ids_through_stop r') <= max_new_tokens sp)%nat;
  st_kept : but_last (output_ids_through_stop r') `prefix_of` gen ++ new;
  st_tok : forall t, finished_reason r' = Some (FINISH_MATCHED_TOKEN t) -> last (output_ids_through_stop r') = Some t;
  st_out : length (output_ids r') = length (gen ++ new) }.

Lemma token_loop_spec new : forall pos r,
  (exists i t, new !! i = Some t /\ matched_eos t = true /\
     token_loop sp tokenizer eos_token_ids pos new r
       = (Ret true, with_finish (Some (FINISH_MATCHED_TOKEN t)) (Some (pos + i + 1)%nat) (to_finish r) r)) \/
  (Forall (fun t => matched_eos t = false) new /\ token_loop sp tokenizer eos_token_ids pos new r = (Ret false, r)).
Proof.
  induction new as [|t new IH]; intros pos r; [right; by split|]. cbn [token_loop]. destruct (matched_eos t) eqn:Et.
  - left. exists 0%nat, t. split_and!; [done|done|]. by rewrite Nat.add_0_r.
  - destruct (IH (S pos) r) as [(i & t' & Hi & Ht' & E)|[Hf E]].
    + left. exists (S i), t'. split_and!; [done|done|]. replace (pos + S i)%nat with (S pos + i)%nat by lia. exact E.
    + right. split; [by constructor|done].
Qed.

Lemma vocab_loop_spec new : forall pos r,
  (exists i r', (i < length new)%nat /\ vocab_loop sp eos_token_ids vocab_size pos new r = (Ret true, r') /\
     finished_reason r' = Some (FINISH_MATCHED_STR NaN_happened) /\ finished_len r' = Some (pos + i + 1)%nat /\ same_stream r r' /\
     (output_ids r' = output_ids r \/ exists t, output_ids r' = <[(pos + i)%nat := t]> (output_ids r))) \/
  (Forall in_vocab new /\ vocab_loop sp eos_token_ids vocab_size pos new r = (Ret false, r)).
Proof.
  induction new as [|t new IH]; intros pos r; [right; by split|]. cbn [vocab_loop]. destruct ((vocab_size <? t) || (t <? 0)) eqn:Et.
  - left. eexists 0%nat, _. split; [cbn; lia|]. split; [reflexivity|]. rewrite Nat.add_0_r.
    split_and!; [done|done|by repeat case_match|]. destruct (stop_token_ids sp) as [|s ss], eos_token_ids as [|e es]; cbn; [by left|right; by eexists..|].
    right. exists e. by rewrite list_insert_insert_eq.
  - destruct (IH (S pos) r) as [(i & r' & Hi & E & H)|[Hf E]].
    + left. exists (S i), r'. replace (pos + S i)%nat with (S pos + i)%nat by lia. split; [cbn; lia|done].
    + right. split; [|done]. constructor; [|done]. unfold in_vocab. apply orb_false_iff in Et as [H1%Z.ltb_ge H2%Z.ltb_ge]. lia.
Qed.

(** The tokenizer is there when stop strings or regexes need it. *)
Definition can_decode : Prop := tokenizer <> None \/ stop_strs sp = [] /\ stop_regex_strs sp = [].

Lemma tail_str_ok r : can_decode -> exists s, tail_str sp tokenizer r = Ret s.
Proof.
  unfold tail_str. intros [Ht|[-> ->]]; [|by eexists]. destruct tokenizer; [|done].
  destruct (stop_strs sp), (stop_regex_strs sp); by eexists.
Qed.

Lemma str_based_spec r : can_decode ->
  exists b r', _check_str_based_finish re_search sp tokenizer r = (Ret b, r') /\
    if b then exists fr, r' = with_finish (Some fr) (finished_len r) (to_finish r) r /\ forall t, fr <> FINISH_MATCHED_TOKEN t else r' = r.
Proof.
  intros Hd. destruct (tail_str_ok r Hd) as [s Es]. unfold _check_str_based_finish.
  destruct (stop_strs sp) as [|s0 ss], (stop_regex_strs sp) as [|p0 ps]; [by exists false, r|..];
    (erewrite py_bind_Ret by reflexivity; erewrite py_bind_Ret by (unfold py_lift; by rewrite Es);
     match goal with |- context [list_find ?P ?l] => destruct (list_find P l) as [[? ?]|] end;
     [eexists true, _; split; [reflexivity|]; eexists; split; [reflexivity|done]|];
     match goal with |- context [list_find ?P ?l] => destruct (list_find P l) as [[? ?]|] end;
     [eexists true, _; split; [reflexivity|]; eexists; split; [reflexivity|done]|by exists false, r]).
Qed.

Lemma same_stream_finish r fr n tf : same_stream r (with_finish fr n tf r).
Proof. done. Qed.
Hint Resolve same_stream_finish : core.

(** A request that stops with the tokens it has. *)
Lemma stopped_all gen new r r' fr n :
  output_ids r = gen ++ new -> new <> [] -> (length (gen ++ new) <= max_new_tokens sp)%nat ->
  r' = with_finish (Some fr) n None r -> n = None \/ n = Some (length (gen ++ new)) -> (forall t, fr = FINISH_MATCHED_TOKEN t -> last (gen ++ new) = Some t) ->
  stopped gen new r r'.
Proof.
  intros Eo Hne Hmax -> Hn Ht. assert (output_ids_through_stop (with_finish (Some fr) n None r) = gen ++ new) as Eth.
  { unfold output_ids_through_stop. cbn. rewrite Eo. destruct Hn as [->| ->]; [done|by rewrite take_ge]. }
  constructor; rewrite ?Eth; try done.
  - rewrite length_app. destruct new; [done|cbn; lia].
  - apply take_prefix.
  - intros t [= ->]. by apply Ht.
  - cbn. by rewrite Eo.
Qed.

(** A request that stops at the new token number [i]. *)
Lemma stopped_at gen new r r' i t :
  output_ids r = gen ++ new -> new !! i = Some t -> (length (gen ++ new) <= max_new_tokens sp)%nat -> same_stream r r' ->
  finished_reason r' <> None -> finished_len r' = Some (length gen + i + 1)%nat ->
  (output_ids r' = output_ids r \/ exists t', output_ids r' = <[(length gen + i)%nat := t']> (output_ids r)) ->
  (forall t', finished_reason r' = Some (FINISH_MATCHED_TOKEN t') -> output_ids r' = output_ids r /\ t' = t) ->
  stopped gen new r r'.
Proof.
  intros Eo Hi Hmax Hs Hr Hl Ho Ht. pose proof (lookup_lt_Some _ _ _ Hi) as Hlt.
  assert (length (output_ids r') = length (gen ++ new)) as El.
  { destruct Ho as [->|[t' ->]]; [by rewrite Eo|by rewrite length_insert, Eo]. }
  rewrite length_app in El, Hmax.
  assert (length (output_ids_through_stop r') = length gen + i + 1)%nat as Elen by (unfold output_ids_through_stop; rewrite Hl, length_take; lia).
  constructor; rewrite ?Elen; try done; try lia.
  - unfold output_ids_through_stop. rewrite Hl, but_last_take by lia.
    assert (take (length gen + i) (output_ids r') = take (length gen + i) (gen ++ new)) as ->.
    { destruct Ho as [->|[t' ->]]; [by rewrite Eo|]. by rewrite take_insert_ge, Eo by lia. }
    apply take_prefix.
  - intros t' Hf. destruct (Ht t' Hf) as [E ->]. unfold output_ids_through_stop. rewrite Hl, E, Eo. apply last_take.
    rewrite lookup_app_r by lia. by replace (length gen + i - length gen)%nat with i by lia.
  - rewrite length_app. lia.
Qed.

(** What the conditions on the new tokens can do. *)
Definition checked (gen new : list Z) (r r' : GenReq) : Prop :=
  r' = r /\ (length (gen ++ new) < max_new_tokens sp)%nat /\ Forall (fun t => stops t = false) new /\ Forall in_vocab new \/ stopped gen new r r'.

Lemma token_based_spec gen new r :
  output_ids r = gen ++ new -> (length (gen ++ new) < max_new_tokens sp)%nat ->
  (exists r', _check_token_based_finish sp tokenizer eos_token_ids new r = (Ret true, r') /\ stopped gen new r r') \/
  (_check_token_based_finish sp tokenizer eos_token_ids new r = (Ret false, r) /\ Forall (fun t => stops t = false) new).
Proof.
  intros Eo Hm. unfold _check_token_based_finish, stops. destruct (ignore_eos sp); [right; split; [done|by apply Forall_true]|].
  erewrite py_bind_Ret by reflexivity. rewrite Eo. replace (length (gen ++ new) - length new)%nat with (length gen) by (rewrite length_app; lia).
  destruct (token_loop_spec new (length gen) r) as [(i & t & Hi & Ht & E)|[Hf E]]; [left|right; by split].
  eexists. split; [exact E|]. eapply stopped_at; [exact Eo|exact Hi|lia|done|done|done|by left|]. by intros t' [= ->].
Qed.

Lemma check_new_tokens_cases gen new r :
  can_decode -> alive r -> output_ids r = gen ++ new -> new <> [] -> (length (gen ++ new) < max_new_tokens sp)%nat ->
  exists r', check_new_tokens re_search sp tokenizer eos_token_ids vocab_size new r = (Ret tt, r') /\ checked gen new r r'.
Proof.
  intros Hd (A1 & A2 & A3) Eo Hne Hm. unfold check_new_tokens.
  destruct (token_based_spec gen new r Eo Hm) as [(r' & E & Hs)|[E Hs]]; erewrite py_bind_Ret by exact E; [exists r'; split; [done|by right]|].
  assert (_check_vocab_boundary_finish sp eos_token_ids vocab_size new r = vocab_loop sp eos_token_ids vocab_size (length gen) new r) as Ev.
  { unfold _check_vocab_boundary_finish. erewrite py_bind_Ret by reflexivity. rewrite Eo. f_equal. rewrite length_app. f_equal. lia. }
  destruct (vocab_loop_spec new (length gen) r) as [(i & r' & Hi & E' & V1 & V2 & V3 & V4)|[Hf E']]; rewrite <-Ev in E'; erewrite py_bind_Ret by exact E'.
  - exists r'. split; [done|]. right. destruct (lookup_lt_is_Some_2 new i Hi) as [t Ht].
    eapply stopped_at; [exact Eo|exact Ht|lia|done|by rewrite V1|done|done|]. intros t'. by rewrite V1.
  - destruct (str_based_spec r Hd) as (b & r' & Eb & Hb). erewrite py_bind_Ret by exact Eb. exists r'. split; [done|].
    destruct b; [right|left; by subst]. destruct Hb as (fr & -> & Hfr). rewrite A3. eapply stopped_all; [done|done|lia|done|by left|].
    intros t ->. by destruct (Hfr t).
Qed.

(** [check_finished] on a request that goes on either leaves it as it is, when no condition
    holds, or stops it. *)
Lemma check_finished_cases gen new g r :
  can_decode -> alive r -> output_ids r = gen ++ new -> new <> [] -> (length gen < max_new_tokens sp)%nat ->
  exists r', check_finished g (length new) r = (Ret tt, r') /\ checked gen new r r'.
Proof.
  intros Hd HA Eo Hne Hgen. pose proof HA as (A1 & A2 & A3). unfold FinishCheck.check_finished. erewrite py_bind_Ret by reflexivity.
  unfold finished. rewrite A1, bool_decide_eq_false_2, A3, Eo by naive_solver. destruct (Nat.leb_spec (max_new_tokens sp) (length (gen ++ new))) as [Hm|Hm].
  { eexists. split; [reflexivity|]. right. rewrite length_app in Hm.
    assert (output_ids_through_stop (with_finish (Some (FINISH_LENGTH (max_new_tokens sp))) (Some (max_new_tokens sp)) None r) = take (max_new_tokens sp) (gen ++ new)) as Eth
      by (unfold output_ids_through_stop; cbn; by rewrite Eo).
    constructor; rewrite ?Eth, ?length_take, ?length_app; try done; try lia.
    - unfold but_last. rewrite take_take. apply take_prefix.
    - cbn. by rewrite Eo, length_app. }
  rewrite last_n_app by done. destruct g as [[]|]; try by apply check_new_tokens_cases.
  destruct (last (gen ++ new)) as [t|] eqn:Ht; [|apply last_None in Ht; by apply app_eq_nil in Ht as [_ ->]].
  eexists. split; [reflexivity|]. right. eapply stopped_all; [done|done|lia|done|left; by rewrite A2|]. by intros t' [= ->].
Qed.
(** ** What is streamed *)

Context (Hdecode : can_decode) (Hinterval : (0 < stream_interval)%nat) (Hforce : (0 < force_interval)%nat).
Local Abbreviation stream_output := (stream_output_generation sp tokenizer rid stream stream_interval force_interval).
Implicit Types (input sid sout : list Z) (m : TokenOut).

Definition prompt_tail input : list Z := drop (length input - INIT_INCREMENTAL_DETOKENIZATION_OFFSET) input.

(** A request that has sent [sid] to the detokenizer and the output ids [sout]. *)
Definition streamed input r sid sout : Prop :=
  origin_input_ids_unpadded r = input /\ sout `prefix_of` output_ids_through_stop r /\
  send_decode_id_offset r = length sid /\ send_token_offset r = length sout /\
  match req_offsets r with
  | None => sid = [] /\ sout = []
  | Some o => o = ((length input - INIT_INCREMENTAL_DETOKENIZATION_OFFSET)%nat, length input) /\ surr_and_decode_ids r = sid /\
      sid = prompt_tail input ++ sout /\ cur_decode_ids_len r = length sout
  end.

(** A message for the request. *)
Definition message input r m : Prop :=
  to_rid m = rid /\ to_decoded_text m = [] /\ to_read_offset m = length (prompt_tail input) /\ to_finished m = to_json <$> finished_reason r /\
  to_no_stop_trim m = no_stop_trim sp /\ to_skip_special m = skip_special_tokens sp /\ to_spaces m = spaces_between_special_tokens sp.

Lemma detokenize_all input r sid sout :
  streamed input r sid sout ->
  exists o, init_incremental_detokenize r
    = (Ret (prompt_tail input ++ output_ids_through_stop r, length (prompt_tail input)),
       with_decode o (prompt_tail input ++ output_ids_through_stop r) (length (output_ids_through_stop r)) r) /\
    o = ((length input - INIT_INCREMENTAL_DETOKENIZATION_OFFSET)%nat, length input) /\
    sid `prefix_of` prompt_tail input ++ output_ids_through_stop r.
Proof.
  intros (S1 & S2 & S3 & S4 & S5). eexists. unfold init_incremental_detokenize. erewrite py_bind_Ret by reflexivity.
  assert (length (prompt_tail input) = length input - (length input - INIT_INCREMENTAL_DETOKENIZATION_OFFSET))%nat as El by (unfold prompt_tail; by rewrite length_drop).
  destruct (req_offsets r) as [[su re]|]; cbv zeta; erewrite py_bind_Ret by reflexivity.
  - destruct S5 as (E & S5 & S6 & S7). injection E as -> ->. rewrite S5, S6, S7, <-El, <-(assoc_L (++)), (prefix_extend _ _ S2).
    split_and!; [reflexivity|done|]. by apply prefix_app.
  - destruct S5 as [-> ->]. rewrite S1, <-El. split_and!; [reflexivity|done|apply prefix_nil].
Qed.

(** Whether a message is due. *)
Lemma should_output_spec input r sid sout :
  streamed input r sid sout ->
  exists b r1, should_output sp tokenizer stream stream_interval force_interval r = (Ret b, r1) /\
    if b : bool then streamed input r1 sid sout /\ output_ids r1 = output_ids r /\ finished_reason r1 = finished_reason r /\ to_finish r1 = to_finish r /\
      output_ids_through_stop r1 = output_ids_through_stop r /\
      (finished_reason r = None /\ finished_len r1 = finished_len r /\ finished_output r1 = finished_output r \/ finished_reason r <> None /\ finished_output r = false /\ finished_output r1 = true)
    else r1 = r /\ (finished_reason r = None \/ finished_output r = true).
Proof.
  intros HS. unfold should_output. erewrite py_bind_Ret by reflexivity. unfold finished. case_bool_decide as Hf.
  - destruct (finished_output r) eqn:Efo; [by exists false, r; split; [|split; [|right]]|]. eexists true, _. split; [reflexivity|].
    assert (output_ids_through_stop (with_finished_output (Some (match finished_len r with Some n => n | None => length (output_ids r) end)) r) = output_ids_through_stop r) as Eth.
    { unfold output_ids_through_stop. cbn. destruct (finished_len r); [done|by rewrite take_ge]. }
    split_and!; [|done|done|done|done|by right]. destruct HS as (S1 & S2 & S3 & S4 & S5). unfold streamed. rewrite Eth. done.
  - destruct stream.
    + set (iv := match sp_stream_interval sp with Some (S n) => S n | _ => stream_interval end).
      assert (iv <> 0%nat) as Hiv by (unfold iv; destruct (sp_stream_interval sp) as [[|]|]; lia).
      rewrite bool_decide_eq_false_2 by done. case_bool_decide; [|exists false, r; split_and!; [done|done|by left]].
      assert (exists v, check_match_stop_str_prefix sp tokenizer r = Ret v) as [v Ev].
      { unfold check_match_stop_str_prefix. destruct (stop_strs sp) eqn:Es; [by eexists|]. destruct (tail_str_ok r Hdecode) as [tl ->].
        unfold mbind, Outcome_bind. destruct tl; by eexists. }
      erewrite py_bind_Ret by (unfold py_lift; by rewrite Ev). destruct v; [exists false, r; split_and!; [done|done|by left]|].
      exists true, r. split_and!; try done. by left.
    + rewrite bool_decide_eq_false_2 by lia. case_bool_decide; [exists true, r; split_and!; try done; by left|exists false, r; split_and!; [done|done|by left]].
Qed.

(** A message brings everything that is new. *)
Lemma stream_step input r sid sout :
  streamed input r sid sout ->
  exists o r', stream_output r = (Ret o, r') /\ output_ids r' = output_ids r /\ finished_reason r' = finished_reason r /\ to_finish r' = to_finish r /\
    output_ids_through_stop r' = output_ids_through_stop r /\
    match o with
    | None => r' = r /\ (finished_reason r = None \/ finished_output r = true)
    | Some (m, ids) => message input r m /\ (finished_reason r = None /\ finished_len r' = finished_len r /\ finished_output r' = finished_output r \/
          finished_reason r <> None /\ finished_output r = false /\ finished_output r' = true) /\
        sid ++ to_decode_ids m = prompt_tail input ++ output_ids_through_stop r /\ sout ++ ids = output_ids_through_stop r /\
        streamed input r' (sid ++ to_decode_ids m) (sout ++ ids)
    end.
Proof.
  intros HS. unfold stream_output_generation.
  destruct (should_output_spec input r sid sout HS) as (b & r1 & Eb & Hb).
  erewrite py_bind_Ret by exact Eb. destruct b; [|destruct Hb as [-> Hb]; exists None, r; split_and!; done].
  destruct Hb as (HS1 & H1 & H2 & H3 & H4 & H5). erewrite py_bind_Ret by reflexivity.
  destruct (detokenize_all input r1 sid sout HS1) as (o & Ed & Eo & Hp). erewrite py_bind_Ret by exact Ed. cbn [fst snd]. cbv zeta.
  erewrite py_bind_Ret by reflexivity. pose proof HS1 as (S1 & S2 & S3 & S4 & S5).
  assert (output_ids_through_stop (with_sent (length (prompt_tail input ++ output_ids_through_stop r1)) (length (output_ids_through_stop r1))
    (with_decode o (prompt_tail input ++ output_ids_through_stop r1) (length (output_ids_through_stop r1)) r1)) = output_ids_through_stop r1) as Eth by done.
  eexists _, _. split; [reflexivity|]. rewrite Eth. do 4 (split; [done|]). rewrite S3, S4. cbn [to_decode_ids]. rewrite (prefix_extend _ _ Hp), (prefix_extend _ _ S2).
  split_and!; [|exact H5|by rewrite H4|done|].
  - unfold message. cbn. by rewrite H2.
  - unfold streamed. rewrite Eth. cbn. split_and!; try done.
Qed.
(** ** Whole runs *)

Local Abbreviation step := (step re_search sp tokenizer eos_token_ids vocab_size rid stream stream_interval force_interval).
Local Abbreviation run := (run re_search sp tokenizer eos_token_ids vocab_size rid stream stream_interval force_interval).
Local Abbreviation event := (list Z * option bool)%type.
Local Abbreviation sent := (TokenOut * list Z)%type.

(** A request that generated [gen] and goes on. *)
Record going input gen r sid sout : Prop := mkGoing {
  go_alive : alive r;
  go_out : output_ids r = gen;
  go_max : (length gen < max_new_tokens sp)%nat;
  go_open : finished_output r = false;
  go_stops : Forall (fun t => stops t = false) gen;
  go_vocab : Forall in_vocab gen;
  go_sent : streamed input r sid sout }.

(** A request that stopped among one of the chunks [news] of the tokens [all]. *)
Record ended (all : list Z) (news : list (list Z)) r : Prop := mkEnded {
  en_reason : finished_reason r <> None;
  en_output : finished_output r = true;
  en_max : (length (output_ids_through_stop r) <= max_new_tokens sp)%nat;
  en_kept : but_last (output_ids_through_stop r) `prefix_of` all;
  en_tok : forall t, finished_reason r = Some (FINISH_MATCHED_TOKEN t) -> last (output_ids_through_stop r) = Some t;
  en_chunk : exists g new, new ∈ news /\ g `prefix_of` all /\ Forall (fun t => stops t = false) g /\
    (length g < length (output_ids_through_stop r) <= length g + length new)%nat }.

Lemma through_alive r : alive r -> output_ids_through_stop r = output_ids r.
Proof. intros (_ & E & _). unfold output_ids_through_stop. by rewrite E. Qed.

Lemma process_going input gen r sid sout (e : event) :
  going input gen r sid sout -> e.1 <> [] ->
  exists r', process_result re_search sp tokenizer eos_token_ids vocab_size e.1 e.2 r = (Ret tt, r') /\
    (going input (gen ++ e.1) r' sid sout \/
     stopped gen e.1 r r' /\ finished_output r' = false /\ streamed input r' sid sout).
Proof.
  intros [HA Ho Hm Hf Hs Hv HS] Hne. unfold process_result. erewrite py_bind_Ret by reflexivity. pose proof HA as (A1 & A2 & A3).
  unfold finished. rewrite A1, bool_decide_eq_false_2 by naive_solver. erewrite py_bind_Ret by reflexivity. rewrite Ho.
  set (r1 := with_output (gen ++ e.1) r). assert (alive r1) as HA1 by done.
  destruct HS as (S1 & S2 & S3 & S4 & S5). rewrite through_alive, Ho in S2 by done.
  destruct (check_finished_cases gen e.1 e.2 r1 Hdecode HA1 eq_refl Hne Hm) as (r' & E & [(-> & H1 & H2 & H3)|Hst]); eexists; (split; [exact E|]).
  - left. constructor; try done; [by apply Forall_app|by apply Forall_app|]. split_and!; try done. rewrite through_alive by done. by apply prefix_app_r.
  - right. destruct Hst as [T1 T2 T3 T4 T5 T6 T7]. split; [by constructor|]. pose proof T2 as (E1 & E2 & E3 & E4 & E5 & E6 & E7). split; [by rewrite E2|].
    unfold streamed. rewrite E1, E3, E4, E5, E6, E7. split_and!; try done.
    transitivity (but_last (output_ids_through_stop r')); [|apply take_prefix].
    destruct T5 as [k Hk]. apply prefix_length in S2 as L1. eapply prefix_shorter; [rewrite <-Hk; by apply prefix_app_r|].
    unfold but_last. rewrite length_take. lia.
Qed.
(** The messages of a run: the ids for the detokenizer, and the output ids. *)
Definition all_ids (ms : list sent) : list Z := concat (to_decode_ids <$> ms.*1).
Definition all_out (ms : list sent) : list Z := concat ms.*2.

Lemma sent_short input gen r sid sout : going input gen r sid sout -> (length sid <= length (prompt_tail input) + length gen)%nat.
Proof.
  intros [HA <- _ _ _ _ (_ & S2 & _ & _ & S5)]. rewrite through_alive in S2 by done. apply prefix_length in S2.
  destruct (req_offsets r); [destruct S5 as (_ & _ & -> & _); rewrite length_app; lia|destruct S5 as [-> _]; cbn; lia].
Qed.

(** The last message of a request. *)
Definition final input r sid (x : sent) : Prop :=
  message input r x.1 /\ to_decode_ids x.1 <> [] /\ (sid = [] -> (length (prompt_tail input) < length (to_decode_ids x.1))%nat) /\
  sid ++ to_decode_ids x.1 = prompt_tail input ++ output_ids_through_stop r.

Lemma step_going input gen r sid sout (e : event) :
  going input gen r sid sout -> e.1 <> [] ->
  exists o r', step e r = (Ret o, r') /\
    match o with
    | None => going input (gen ++ e.1) r' sid sout
    | Some x => prompt_tail input `prefix_of` sid ++ to_decode_ids x.1 /\
       (to_finished x.1 = None /\ message input r' x.1 /\ going input (gen ++ e.1) r' (sid ++ to_decode_ids x.1) (sout ++ x.2) \/
        ended (gen ++ e.1) [e.1] r' /\ final input r' sid x /\ sout ++ x.2 = output_ids_through_stop r')
    end.
Proof.
  intros HG Hne. unfold FinishCheck.step. destruct (process_going input gen r sid sout e HG Hne) as (r1 & E1 & H1). erewrite py_bind_Ret by exact E1.
  assert (streamed input r1 sid sout) as HS by (destruct H1 as [H1|(_ & _ & H1)]; [apply H1|done]).
  destruct (stream_step input r1 sid sout HS) as (o & r' & E2 & F1 & F2 & F3 & F4 & F5). exists o, r'. split; [exact E2|].
  destruct H1 as [[(A1 & A2 & A3) Go Gm Gf Gs Gv _]|(Hst & Hfo & _)].
  - destruct o as [[m ids]|]; [|by destruct F5 as [-> _]; constructor]. destruct F5 as (M & [(_ & L1 & L2)|(? & _)] & Q1 & _ & HS'); [|done].
    split; [cbn [fst]; rewrite Q1; by eexists|left].
    pose proof M as (M1 & M2 & M3 & M4 & M5). split_and!; cbn [fst]; [by rewrite M4, A1|unfold message; rewrite F2; done|]. constructor; try done; [|by rewrite F1|by rewrite L2].
    unfold alive. rewrite F2, L1, F3. done.
  - destruct Hst as [T1 T2 T3 T4 T5 T6 T7]. destruct o as [[m ids]|]; [|destruct F5 as [_ [?|?]]; congruence].
    destruct F5 as (M & [(? & _)|(_ & _ & L2)] & Q1 & Q2 & _); [done|]. cbn [fst snd]. rewrite F4. split; [rewrite Q1; by eexists|right]. split_and!; [|unfold final; cbn [fst snd]; rewrite F4; split_and!; [by unfold message; rewrite F2| | |exact Q1]|exact Q2].
    + constructor; rewrite ?F4, ?F2; try done. exists gen, e.1. split_and!; [by left|by eexists|apply HG|lia|lia].
    + intros Em. rewrite Em, app_nil_r in Q1. apply (f_equal length) in Q1. pose proof (sent_short _ _ _ _ _ HG) as L. rewrite length_app in Q1. lia.
    + intros ->. cbn in Q1. rewrite Q1, length_app. lia.
Qed.
Lemma step_ended all news r (e : event) : ended all news r -> step e r = (Ret None, r).
Proof.
  intros [H1 H2 _ _ _ _]. assert (finished r = true) as Hf by (unfold finished; by apply bool_decide_eq_true_2).
  unfold FinishCheck.step. erewrite py_bind_Ret. 2: { unfold process_result. erewrite py_bind_Ret by reflexivity. by rewrite Hf. }
  unfold stream_output_generation. rewrite (py_bind_Ret _ _ r false r); [reflexivity|]. unfold should_output. erewrite py_bind_Ret by reflexivity. by rewrite Hf, H2.
Qed.

Lemma run_ended all news r (es : list event) : ended all news r -> run es r = (Ret [], r).
Proof.
  intros HE. unfold FinishCheck.run. assert (py_map step es r = (Ret (replicate (length es) None), r)) as E.
  { induction es as [|e es IH]; [done|]. cbn [py_map]. erewrite py_bind_Ret by (by eapply step_ended). erewrite py_bind_Ret by exact IH. done. }
  erewrite py_bind_Ret by exact E. clear E. unfold mret, PyM_ret. do 2 f_equal. induction es; [done|by cbn].
Qed.

Lemma ended_more all news all' news' r : ended all news r -> all `prefix_of` all' -> news ⊆ news' -> ended all' news' r.
Proof.
  intros [H1 H2 H3 H4 H5 (g & new & G1 & G2 & G3 & G4)] Ha Hn. constructor; try done; [by etrans|].
  exists g, new. split_and!; [by apply Hn|by etrans|done|lia|lia].
Qed.

Lemma run_cons (e : event) es r o r1 ms r2 :
  step e r = (Ret o, r1) -> run es r1 = (Ret ms, r2) -> run (e :: es) r = (Ret (match o with Some x => x :: ms | None => ms end), r2).
Proof.
  intros E1 E2. unfold FinishCheck.run in *. apply py_bind_ret_inv in E2 as (os & r3 & E2 & E3). cbn [py_map].
  unfold mbind, PyM_bind. rewrite E1, E2. cbn. unfold mret, PyM_ret in *. injection E3 as <- <-. by destruct o.
Qed.

(** A run returns.  Either the request goes on, or it has stopped and all it generated
    through the stop is sent, the last message with the reason. *)
Lemma run_spec input es : forall gen r sid sout,
  going input gen r sid sout -> Forall (fun e : event => e.1 <> []) es ->
  exists ms r', run es r = (Ret ms, r') /\ (sid = [] -> forall x, head ms = Some x -> prompt_tail input `prefix_of` to_decode_ids x.1) /\
    (going input (gen ++ concat es.*1) r' (sid ++ all_ids ms) (sout ++ all_out ms) /\
       Forall (fun x => to_finished x.1 = None /\ message input (new_req input) x.1) ms \/
     ended (gen ++ concat es.*1) es.*1 r' /\ sout ++ all_out ms = output_ids_through_stop r' /\
       exists ts x, ms = ts ++ [x] /\ Forall (fun x => to_finished x.1 = None /\ message input (new_req input) x.1) ts /\ final input r' (sid ++ all_ids ts) x).
Proof.
  induction es as [|e es IH]; intros gen r sid sout HG Hes.
  { exists [], r. split; [done|]. split; [done|]. left. cbn. by rewrite !app_nil_r. }
  apply Forall_cons in Hes as [He Hes]. destruct (step_going input gen r sid sout e HG He) as (o & r1 & E1 & H1). cbn [fmap list_fmap concat].
  destruct o as [x|].
  - destruct H1 as [Hp H1]. assert (forall ms, sid = [] -> forall y, head (x :: ms) = Some y -> prompt_tail input `prefix_of` to_decode_ids y.1) as Hh by (by intros ms -> y [= <-]).
    destruct H1 as [(Hx & M & HG1)|(HE & HF & Hout)].
    + destruct (IH _ _ _ _ HG1 Hes) as (ms & r' & E2 & _ & H2). exists (x :: ms), r'. split; [by rewrite (run_cons _ _ _ _ _ _ _ E1 E2)|]. split; [apply Hh|].
      assert (message input (new_req input) x.1) as Mx by (destruct M as (M1 & M2 & M3 & M4 & M5); unfold message; by rewrite Hx).
      unfold all_ids, all_out in *. cbn [fmap list_fmap concat fst snd]. rewrite !(assoc_L (++)). destruct H2 as [[H2 H3]|(H2 & H3 & ts & y & -> & H4 & H5)].
      * left. split; [done|by constructor].
      * right. split; [eapply ended_more; [exact H2|done|set_solver]|]. split; [done|]. exists (x :: ts), y. split_and!; [done|by constructor|].
        cbn [fmap list_fmap concat]. by rewrite (assoc_L (++)).
    + exists [x], r1. split; [by rewrite (run_cons _ _ _ _ _ _ _ E1 (run_ended _ _ _ es HE))|]. split; [apply Hh|]. right. split_and!.
      * eapply ended_more; [exact HE|rewrite (assoc_L (++)); by eexists|set_solver].
      * unfold all_out. cbn. by rewrite app_nil_r.
      * exists [], x. split_and!; [done|constructor|]. unfold all_ids. cbn. by rewrite app_nil_r.
  - destruct (IH _ _ _ _ H1 Hes) as (ms & r' & E2 & Hh & H2). exists ms, r'. split; [by rewrite (run_cons _ _ _ _ _ _ _ E1 E2)|]. split; [exact Hh|].
    rewrite !(assoc_L (++)). destruct H2 as [H2|(H2 & H3 & H4)]; [by left|right]. split_and!; [|done|done]. eapply ended_more; [exact H2|done|set_solver].
Qed.
Lemma new_going input : (0 < max_new_tokens sp)%nat -> going input [] (new_req input) [] [].
Proof. intros Hm. by constructor. Qed.

(** C8. A request stops in time.  Whatever tokens the model accepts, one or several at a
    time, processing and streaming them never fails; at most [max_new_tokens] tokens go
    through the stop, and once that many are generated the request has finished.  While it
    has not, it has all tokens, none of them a stop token, negative or above [vocab_size].
    When it has, what goes through the stop is what was generated up to its last token; a
    matched token is that last token; and with one token per step no stop token comes before. *)
Theorem request_stops input (es : list event) :
  (0 < max_new_tokens sp)%nat -> Forall (fun e => e.1 <> []) es ->
  exists ms r', run es (new_req input) = (Ret ms, r') /\ (length (output_ids_through_stop r') <= max_new_tokens sp)%nat /\
    ((max_new_tokens sp <= length (concat es.*1))%nat -> finished r' = true) /\
    (finished r' = false -> output_ids r' = concat es.*1 /\ Forall (fun t => stops t = false) (output_ids r') /\ Forall in_vocab (output_ids r')) /\
    (finished r' = true -> but_last (output_ids_through_stop r') `prefix_of` concat es.*1 /\
       (forall t, finished_reason r' = Some (FINISH_MATCHED_TOKEN t) -> last (output_ids_through_stop r') = Some t) /\
       (Forall (fun e => length e.1 = 1%nat) es -> Forall (fun t => stops t = false) (but_last (output_ids_through_stop r')))).
Proof.
  intros Hm Hes. destruct (run_spec input es _ _ _ _ (new_going input Hm) Hes) as (ms & r' & E & _ & H). cbn [app] in H. exists ms, r'. split; [done|]. unfold finished.
  destruct H as [[[HA Ho Hlen _ Hs Hv _] _]|([H1 _ H3 H4 H5 (g & new & G1 & G2 & G3 & G4)] & _)].
  - rewrite through_alive, Ho by done. destruct HA as (-> & _). rewrite bool_decide_eq_false_2 by naive_solver. split_and!; [lia|lia|done|done].
  - rewrite bool_decide_eq_true_2 by done. split_and!; [done|done|done|]. intros _. split_and!; [done|done|]. intros Hone.
    apply list_elem_of_fmap in G1 as (e & -> & He). rewrite Forall_forall in Hone. rewrite (Hone e He) in G4.
    assert (length (but_last (output_ids_through_stop r')) = length g) as El by (unfold but_last; rewrite length_take; lia).
    destruct G2 as [k Hk]. rewrite Hk in H4. eapply prefix_shorter in H4; [|lia]. apply prefix_length_eq in H4; [|lia]. by rewrite H4.
Qed.

(** C6. The user gets the text of what was generated, for texts without CJK characters
    ([latin]) over a tokenizer that keeps the laws of [Tokenizer] and can be cut after the
    prompt.  For a request that has finished, the detokenizer, given the messages that the
    scheduler streamed, sends texts that put together are the text of the tokens through the
    stop, decoded at once after the end of the prompt, as [trim_ids] and [trim_str] trim it:
    without a matched stop token (but for id 0, which they keep, and the tool call token of
    gpt-oss) and up to a matched stop string.  If more than that was sent before the stop
    string was complete, the last text is empty and nothing but text of the generated tokens
    was sent.  This holds whatever the stream intervals and however many tokens a step
    accepts.  With CJK characters text can be sent twice ([chinese_text_sent_twice]). *)
Theorem served_text (decode : list Z -> bool -> bool -> text) (cut : list Z -> Prop) (is_gpt_oss : bool) input (es : list event) fr :
  let dec l := decode l (skip_special_tokens sp) (spaces_between_special_tokens sp) in
  Tokenizer dec cut -> (0 < max_new_tokens sp)%nat -> Forall (fun e => e.1 <> []) es -> cut (prompt_tail input) ->
  finished_reason (py_exec (run es) (new_req input)) = Some fr ->
  let L := prompt_tail input ++ output_ids_through_stop (py_exec (run es) (new_req input)) in
  (forall i x, x `prefix_of` L -> latin (dec (drop i x))) ->
  exists ms L' outs out, run es (new_req input) = (Ret ms, py_exec (run es) (new_req input)) /\
    trim_ids is_gpt_oss (Some (to_json fr)) (no_stop_trim sp) L = Ret L' /\
    request_run decode is_gpt_oss ms.*1 None = Ret (outs ++ [out], None) /\
    let full := drop (length (dec (prompt_tail input))) (dec L') in
    let final := trim_str (Some (to_json fr)) (no_stop_trim sp) full in
    concat outs `prefix_of` full /\ (concat outs ++ out = final \/ final `prefix_of` concat outs /\ out = []).
Proof.
  intros dec HT Hm Hes Hcut Hfr L Hlat. destruct (run_spec input es _ _ _ _ (new_going input Hm) Hes) as (ms & r' & E & Hh & H).
  assert (py_exec (run es) (new_req input) = r') as Er by (unfold py_exec; by rewrite E). unfold L in *. rewrite Er in *. clear L. exists ms.
  destruct H as [[[(HA & _) _ _ _ _ _ _] _]|([H1 _ H3 H4 H5 (g & new & G1 & G2 & G3 & G4)] & _ & ts & x & -> & Hts & (M & F1 & F2 & F3))]; [congruence|].
  cbn [app] in F2, F3. pose proof M as (M1 & M2 & M3 & M4 & M5 & M6 & M7). rewrite Hfr in M4. cbn in M4.
  destruct (trim_ids_end is_gpt_oss (Some (to_json fr)) (no_stop_trim sp) (output_ids_through_stop r')) as (c' & Hc & Htr).
  { intros E0. rewrite E0 in G4. cbn in G4. lia. }
  exists (prompt_tail input ++ c').
  assert (exists t0, head (ts.*1 ++ [x.1]) = Some t0 /\ to_read_offset t0 = length (prompt_tail input) /\ to_decoded_text t0 = [] /\
    exists k, to_decode_ids t0 = prompt_tail input ++ k) as (t0 & T1 & T2 & T3 & k & T4).
  { destruct ts as [|y ts]; [exists x.1|exists y.1]; (split; [done|]).
    - destruct (Hh eq_refl x eq_refl) as [k Hk]. eauto.
    - apply Forall_cons in Hts as [[_ (_ & Y2 & Y3 & _)] _]. destruct (Hh eq_refl y eq_refl) as [k Hk]. eauto. }
  destruct (detokenized_stream decode (skip_special_tokens sp) (spaces_between_special_tokens sp) cut is_gpt_oss (length (prompt_tail input)) []
    (ts.*1) x.1 (to_json fr) t0 (prompt_tail input ++ output_ids_through_stop r') (prompt_tail input ++ c')) as (outs & out & R1 & R2 & R3); try done.
  - rewrite T4, length_app. lia.
  - by rewrite T4, take_app_length.
  - intros Ets. apply F2. unfold all_ids. by rewrite Ets.
  - apply Forall_fmap. eapply Forall_impl; [exact Hts|]. by intros y [? _].
  - apply Forall_app. split; [|by constructor]. apply Forall_fmap. eapply Forall_impl; [exact Hts|]. intros y [_ (_ & _ & _ & _ & _ & ? & ?)]. done.
  - by rewrite M5.
  - rewrite take_app_length in R2, R3. cbn [app] in R2, R3. exists outs, out. rewrite fmap_app. rewrite M5 in R3. done.
Qed.
End requests.
