(* ===== verification/FinishRuns.v ===== *)
(** * Runs of requests

    Concrete runs: the properties of FinishProofs at work, and stop conditions that are
    missed. *)

From stdpp Require Import base tactics list strings sets.
From Stdlib Require Import ZArith Lia.
From S2P Require Import Prelude Detokenizer DetokProofs DetokStream FinishCheck FinishProofs.

#[local] Open Scope Z_scope.

Definition no_search (_ _ : text) : bool := false.

(** At most 20 tokens, the stop string "END", which is up to 3 tokens, and the stop token 2. *)
Definition run_sp : SamplingParams := mkSampling 20 [[69; 78; 68]] 3 [] 0 [2] false true true false None.
Definition run_tk : option TokenizerInfo := Some (mkTokenizer (Some 3) [] pair_dec).
Definition one_by_one (l : list Z) : list (list Z * option bool) := (fun t => ([t], None)) <$> l.

(** "Hi é bcEND", a token at a time. *)
Definition run_es : list (list Z * option bool) := one_by_one [72; 105; 32; 1200; 33; 32; 98; 99; 69; 78; 68].

Lemma served_text_witness :
  exists ms outs out, run no_search run_sp run_tk [] 70000 "r" true 1 50 run_es (new_req [65]) = (Ret ms, py_exec (run no_search run_sp run_tk [] 70000 "r" true 1 50 run_es) (new_req [65])) /\
    request_run plain_decode false ms.*1 None = Ret (outs ++ [out], None) /\ concat outs ++ out = [72; 105; 32; 233; 32; 98; 99].
Proof.
  destruct (served_text no_search run_sp run_tk [] 70000 "r" true 1 50 ltac:(by left) ltac:(lia) ltac:(lia)
    plain_decode (fun l => whole l = true) false [65] run_es (FINISH_MATCHED_STR [69; 78; 68])) as (ms & L' & outs & out & E & Ht & Hr & Hp & Hf).
  - exact pair_tokenizer.
  - cbn. lia.
  - apply (bool_decide_unpack _). vm_compute. exact I.
  - reflexivity.
  - reflexivity.
  - intros i x Hx. apply (st_latin i x Hx).
  - exists ms, outs, out. split; [exact E|]. split; [exact Hr|]. vm_compute in Ht. injection Ht as <-.
    assert (run no_search run_sp run_tk [] 70000 "r" true 1 50 run_es (new_req [65]) = run no_search run_sp run_tk [] 70000 "r" true 1 50 run_es (new_req [65])) as E' by reflexivity.
    rewrite E in E' at 1. vm_compute in E'. injection E' as ->.
    apply (f_equal (fun o => match o with Ret (l, _) => but_last l | _ => [] end)) in Hr as Ho. cbv beta iota in Ho. rewrite but_last_snoc in Ho.
    destruct Hf as [->|[_ ->]]; [reflexivity|]. rewrite <-Ho. vm_compute. reflexivity.
Defined.

Lemma request_stops_witness :
  exists ms r', run no_search run_sp run_tk [] 70000 "r" true 1 50 (one_by_one [72; 105; 2; 99]) (new_req [65]) = (Ret ms, r') /\
    finished r' = true /\ output_ids_through_stop r' = [72; 105; 2] /\ Forall (fun t => stops run_sp run_tk [] t = false) [72; 105].
Proof.
  destruct (request_stops no_search run_sp run_tk [] 70000 "r" true 1 50 ltac:(by left) ltac:(lia) ltac:(lia) [65] (one_by_one [72; 105; 2; 99]))
    as (ms & r' & E & _ & _ & _ & Hf).
  - cbn. lia.
  - apply (bool_decide_unpack _). vm_compute. exact I.
  - exists ms, r'. split; [exact E|]. assert (r' = py_exec (run no_search run_sp run_tk [] 70000 "r" true 1 50 (one_by_one [72; 105; 2; 99])) (new_req [65])) as -> by (unfold py_exec; by rewrite E).
    split; [reflexivity|]. split; [reflexivity|]. apply (proj2 (proj2 (Hf eq_refl))). apply (bool_decide_unpack _). vm_compute. exact I.
Defined.

(** ** Stop conditions that are missed *)

(** The limit is checked before the stop tokens.  When a step accepts several tokens and
    reaches the limit, a stop token among them is not seen: it is output, with the tokens
    after it, and the reason is the length. *)
Theorem stop_token_missed_at_limit :
  let sp := mkSampling 4 [] 0 [] 0 [2] false true true false None in
  let r := py_exec (run no_search sp run_tk [] 70000 "r" true 1 50 [([72], None); ([2; 105; 106], None)]) (new_req [65]) in
  finished_reason r = Some (FINISH_LENGTH 4) /\ output_ids_through_stop r = [72; 2; 105; 106] /\
  finished_reason (py_exec (run no_search sp run_tk [] 70000 "r" true 1 50 (one_by_one [72; 2; 105; 106])) (new_req [65])) = Some (FINISH_MATCHED_TOKEN 2).
Proof. vm_compute. split_and!; reflexivity. Qed.

(** [normalize] takes the length of a stop string from its encoding: "END", if that is one
    token, gives 1, and two tokens are searched.  When the model writes the same text with
    one token for each character, the stop string is generated and the request goes on. *)
Theorem stop_string_missed :
  let sp := mkSampling 20 [[69; 78; 68]] 1 [] 0 [] false true true false None in
  let r := py_exec (run no_search sp run_tk [] 70000 "r" true 1 50 (one_by_one [72; 69; 78; 68; 99])) (new_req [65]) in
  finished r = false /\ contains_text [69; 78; 68] (pair_dec (output_ids r)) = true.
Proof. vm_compute. split; reflexivity. Qed.

(** A token id equal to the size of the vocabulary, one past the last id, is accepted. *)
Theorem vocab_size_accepted :
  let r := py_exec (run no_search run_sp run_tk [] 70000 "r" true 1 50 (one_by_one [72; 70000])) (new_req [65]) in
  finished r = false /\ output_ids r = [72; 70000].
Proof. vm_compute. split; reflexivity. Qed.

(** The stop token 0 ends a request, and its text stays in the answer. *)
Theorem stop_token_zero_kept :
  let sp := mkSampling 20 [] 0 [] 0 [0] false true true false None in
  exists ms r, run no_search sp run_tk [] 70000 "r" true 1 50 (one_by_one [72; 0]) (new_req [65]) = (Ret ms, r) /\
    finished_reason r = Some (FINISH_MATCHED_TOKEN 0) /\ request_run plain_decode false ms.*1 None = Ret ([[72]; [0]], None).
Proof. eexists _, _. split; [vm_compute; reflexivity|]. split; reflexivity. Qed.
