(* ===== verification/StopRegex.v ===== *)
(** * How much text stop strings and stop regexes need (sampling/sampling_params.py)

    [normalize] computes how many tokens the scheduler must look back at to find a stop
    string or a match of a stop regex.  Patterns are what [sre_parse] makes of the regex. *)

From stdpp Require Import base tactics list strings.
From Stdlib Require Import ZArith Lia.
From S2P Require Import Prelude Detokenizer DetokStream FinishCheck.

#[local] Open Scope Z_scope.

(** ** Patterns *)

(** The tokens of a pattern that the code tells apart; [IN] with the characters it accepts,
    and [OTHER] for all others (back references, lookaround, ...). *)
Inductive Tok :=
  | LITERAL (c : Z) | IN (accepts : Z -> bool) | ANY
  | SUBPATTERN (p : list Tok)
  | BRANCH (branches : list (list Tok))
  | MAX_REPEAT (min : nat) (max : option nat) (p : list Tok)
  | MIN_REPEAT (min : nat) (max : option nat) (p : list Tok)
  | AT
  | OTHER.

Definition MAX_LEN : Z := 2 ^ 30.

(** What a token of a pattern adds, and [_max_length_from_subpattern]. *)
Fixpoint tok_length (t : Tok) : Z :=
  let fix sub (p : list Tok) : Z := match p with [] => 0 | t :: p' => tok_length t + sub p' end in
  match t with
  | LITERAL _ | IN _ | ANY => 1
  | SUBPATTERN p => sub p
  | BRANCH bs => (fix most (bs : list (list Tok)) : Z := match bs with [] => 0 | b :: bs' => Z.max (sub b) (most bs') end) bs
  | MAX_REPEAT _ n p | MIN_REPEAT _ n p => match n with None => MAX_LEN | Some n => Z.of_nat n * sub p end
  | AT => 0
  | OTHER => MAX_LEN
  end.
Fixpoint _max_length_from_subpattern (p : list Tok) : Z :=
  match p with [] => 0 | t :: p' => tok_length t + _max_length_from_subpattern p' end.

(** ** Normalization *)

Section normalize.
Context (encode : option (text -> list Z)) (sre_parse : text -> list Tok).

Definition get_max_seq_length (regex : text) : Z := _max_length_from_subpattern (sre_parse regex).

(** [stop] and [stop_regex]: [None], a string or a list of strings. *)
Inductive Stop := StopNone | StopOne (s : text) | StopList (l : list text).
Definition stop_list (s : Stop) : list text := match s with StopNone => [] | StopOne s => [s] | StopList l => l end.

Definition stop_str_length (s : text) : Z := Z.of_nat (match encode with Some enc => length (enc s) | None => length s end).
Definition longest (f : text -> Z) (l : list text) : Z := foldl (fun n s => Z.max n (f s)) 0 l.

(** [SamplingParams.normalize]: the lists and lengths of the stop strings and regexes. *)
Definition normalize (stop stop_regex : Stop) (sp : SamplingParams) : SamplingParams :=
  mkSampling (max_new_tokens sp) (stop_list stop) (longest stop_str_length (stop_list stop))
    (stop_list stop_regex) (longest get_max_seq_length (stop_list stop_regex))
    (stop_token_ids sp) (ignore_eos sp) (skip_special_tokens sp) (spaces_between_special_tokens sp) (no_stop_trim sp) (sp_stream_interval sp).
End normalize.

(** ** What a pattern matches *)

(** Zero-width assertions look at the text around; without that they match more. *)
Inductive tok_match : Tok -> text -> Prop :=
  | m_literal c : tok_match (LITERAL c) [c]
  | m_in f c : f c = true -> tok_match (IN f) [c]
  | m_any c : tok_match ANY [c]
  | m_sub p s : pat_match p s -> tok_match (SUBPATTERN p) s
  | m_branch bs b s : In b bs -> pat_match b s -> tok_match (BRANCH bs) s
  | m_max lo n p k s : (lo <= k)%nat -> (forall m, n = Some m -> (k <= m)%nat) -> times_match p k s -> tok_match (MAX_REPEAT lo n p) s
  | m_min lo n p k s : (lo <= k)%nat -> (forall m, n = Some m -> (k <= m)%nat) -> times_match p k s -> tok_match (MIN_REPEAT lo n p) s
  | m_at : tok_match AT []
  | m_other s : tok_match OTHER s
with pat_match : list Tok -> text -> Prop :=
  | m_nil : pat_match [] []
  | m_cons t p s1 s2 : tok_match t s1 -> pat_match p s2 -> pat_match (t :: p) (s1 ++ s2)
with times_match : list Tok -> nat -> text -> Prop :=
  | m_zero p : times_match p 0 []
  | m_more p k s1 s2 : pat_match p s1 -> times_match p k s2 -> times_match p (S k) (s1 ++ s2).

Scheme tok_match_mind := Induction for tok_match Sort Prop
  with pat_match_mind := Induction for pat_match Sort Prop
  with times_match_mind := Induction for times_match Sort Prop.

(** A length that bounds a text, or says that there is no bound. *)
Definition bounded (n : Z) (s : text) : Prop := Z.of_nat (length s) <= n \/ MAX_LEN <= n.

Local Abbreviation sub := _max_length_from_subpattern.

Lemma lengths_nonneg : (forall t, 0 <= tok_length t) /\ (forall p, 0 <= sub p).
Proof.
  assert (0 < MAX_LEN) as HM by done.
  assert (forall t, 0 <= tok_length t) as Ht; [|split; [done|]; induction p as [|t p IH]; cbn; [lia|specialize (Ht t); lia]].
  fix IH 1. intros [c|f| |p|bs|lo n p|lo n p| |]; cbn; try lia.
  - induction p as [|t p IHp]; [done|]. specialize (IH t). lia.
  - induction bs as [|b bs IHb]; [done|]. lia.
  - destruct n as [n|]; [|lia]. apply Z.mul_nonneg_nonneg; [lia|]. induction p as [|t p IHp]; [done|]. specialize (IH t). lia.
  - destruct n as [n|]; [|lia]. apply Z.mul_nonneg_nonneg; [lia|]. induction p as [|t p IHp]; [done|]. specialize (IH t). lia.
Qed.

Lemma bounded_app a b s1 s2 : 0 <= a -> 0 <= b -> bounded a s1 -> bounded b s2 -> bounded (a + b) (s1 ++ s2).
Proof. unfold bounded. rewrite length_app. lia. Qed.

Lemma branch_most bs b : In b bs ->
  sub b <= (fix most (bs : list (list Tok)) : Z := match bs with [] => 0 | b :: bs' => Z.max (sub b) (most bs') end) bs.
Proof. induction bs as [|b' bs IH]; intros []; [subst; lia|]. specialize (IH H). lia. Qed.

Lemma repeat_bounded p k n s : (forall m, n = Some m -> (k <= m)%nat) ->
  bounded (Z.of_nat k * sub p) s -> bounded (match n with None => MAX_LEN | Some m => Z.of_nat m * sub p end) s.
Proof.
  intros Hk Hs. destruct n as [m|]; [|right; lia]. specialize (Hk m eq_refl). pose proof (proj2 lengths_nonneg p) as Hp.
  assert (Z.of_nat k * sub p <= Z.of_nat m * sub p) by nia. unfold bounded in *. lia.
Qed.

Lemma pat_length p s : pat_match p s -> bounded (sub p) s.
Proof.
  destruct lengths_nonneg as [Ht Hp].
  apply (pat_match_mind (fun t s _ => bounded (tok_length t) s) (fun p s _ => bounded (sub p) s) (fun p k s _ => bounded (Z.of_nat k * sub p) s)); intros.
  - left. cbn. lia.
  - left. cbn. lia.
  - left. cbn. lia.
  - done.
  - pose proof (branch_most bs b i) as Hb. unfold bounded in *. cbn. change ((fix sub (p : list Tok) := _)) with sub. lia.
  - by apply (repeat_bounded _ k).
  - by apply (repeat_bounded _ k).
  - left. cbn. lia.
  - right. cbn. lia.
  - left. cbn. lia.
  - cbn. by apply bounded_app.
  - left. cbn. lia.
  - replace (Z.of_nat (S k) * sub p0) with (sub p0 + Z.of_nat k * sub p0) by lia. apply bounded_app; try done. specialize (Hp p0). lia.
Qed.

(** ** Looking back far enough *)

Section tail.
Context (sre_parse : text -> list Tok) (encode : option (text -> list Z)).

Lemma max_of_ge f l x : x ∈ l -> f x <= longest f l.
Proof.
  unfold longest. assert (forall n, n <= foldl (fun n s => Z.max n (f s)) n l /\ (x ∈ l -> f x <= foldl (fun n s => Z.max n (f s)) n l)) as H; [|apply H].
  induction l as [|y l IH]; intros n; cbn; [split; [lia|by intros ?%not_elem_of_nil]|]. destruct (IH (Z.max n (f y))) as [H1 H2].
  split; [lia|]. intros [->|Hx]%elem_of_cons; [lia|by apply H2].
Qed.

(** C25. The scheduler looks back at more tokens than a match of a stop regex has
    characters.  For a request with a tokenizer and any text [s] that one of its stop regexes
    matches, [tail_str], with the length that [normalize] computed from the patterns, decodes
    the last [n] tokens of the output (of at most 2^30 tokens), where [n] is greater than the
    length of [s] unless it is all there are.  (A character can take several tokens, so that
    the match need not be in that text: [accented_match_missed].) *)
Theorem stop_regex_window tk stop stop_regex sp r pat s :
  pat ∈ stop_list stop_regex -> pat_match (sre_parse pat) s -> Z.of_nat (length (output_ids r)) <= MAX_LEN ->
  exists n, tail_str (normalize encode sre_parse stop stop_regex sp) (Some tk) r = Ret (tok_decode tk (last_n n (output_ids r))) /\
    (n <= length (output_ids r))%nat /\ (n = length (output_ids r) \/ (length s < n)%nat).
Proof.
  intros Hpat Hm HM. set (sp' := normalize encode sre_parse stop stop_regex sp).
  assert (bounded (stop_regex_max_len sp') s) as Hb.
  { pose proof (pat_length _ _ Hm) as Hl. pose proof (max_of_ge (get_max_seq_length sre_parse) _ _ Hpat) as Hge. unfold bounded in *. cbn. unfold get_max_seq_length in *. lia. }
  set (k := Z.to_nat (Z.min (Z.max (stop_str_max_len sp' + 1) (stop_regex_max_len sp' + 1)) (Z.of_nat (length (output_ids r))))).
  exists k. split; [|unfold bounded in Hb; subst k; lia].
  unfold tail_str. fold k. assert (stop_regex_strs sp' <> []) as Hne by (intros E; change (stop_list stop_regex = []) in E; rewrite E in Hpat; by apply not_elem_of_nil in Hpat).
  destruct (stop_strs sp'), (stop_regex_strs sp'); done.
Qed.
End tail.

(** ** Two regexes *)

(** "a{2,3}|b": a match has at most three characters. *)
Definition a_twice (_ : text) : list Tok := [BRANCH [[MAX_REPEAT 2 (Some 3%nat) [LITERAL 97]]; [LITERAL 98]]].
Definition re_sp (parse : text -> list Tok) : SamplingParams := normalize None parse StopNone (StopOne [46]) (mkSampling 20 [] 0 [] 0 [] false true true false None).

Lemma aa_match : pat_match (a_twice [46]) [97; 97].
Proof.
  change [97; 97] with ([97; 97] ++ [] : text). apply m_cons; [|constructor]. eapply m_branch; [by left|].
  change [97; 97] with ([97; 97] ++ [] : text). apply m_cons; [|constructor]. apply m_max with (k := 2%nat); [lia|intros m [= <-]; lia|].
  change [97; 97] with (([97] ++ []) ++ ([97] ++ []) ++ [] : text).
  apply m_more; [apply m_cons; [apply m_literal|constructor]|]. apply m_more; [apply m_cons; [apply m_literal|constructor]|constructor].
Qed.

Lemma stop_regex_window_witness :
  exists n, tail_str (re_sp a_twice) (Some (mkTokenizer None [] (fun l => l))) (with_output [98; 98; 98; 98; 97; 97] (new_req [1]))
      = Ret (last_n n [98; 98; 98; 98; 97; 97]) /\ (2 < n)%nat.
Proof.
  destruct (stop_regex_window a_twice None (mkTokenizer None [] (fun l => l)) StopNone (StopOne [46]) (mkSampling 20 [] 0 [] 0 [] false true true false None)
    (with_output [98; 98; 98; 98; 97; 97] (new_req [1])) [46] [97; 97]) as (n & E & _ & [->|Hn]).
  - by left.
  - exact aa_match.
  - vm_compute. discriminate.
  - eexists. split; [exact E|]. cbn. lia.
  - exists n. split; [exact E|exact Hn].
Defined.

(** The length is one of characters.  With a tokenizer that has two tokens for a character
    with an accent, the output "éééé" is a match of the regex that asks for it, and the text
    that is searched begins in the middle of its second character. *)
Definition accents (_ : text) : list Tok := [LITERAL 233; LITERAL 233; LITERAL 233; LITERAL 233].

Theorem accented_match_missed :
  let ids := [1200; 33; 1200; 33; 1200; 33; 1200; 33] in
  pat_match (accents [46]) (pair_dec ids) /\ get_max_seq_length accents [46] = 4 /\
  tail_str (re_sp accents) (Some (mkTokenizer None [] pair_dec)) (with_output ids (new_req [1])) = Ret [33; 233; 233].
Proof.
  split_and!; [|reflexivity|reflexivity].
  do 4 (apply (m_cons (LITERAL 233) _ [233]); [apply m_literal|]). constructor.
Qed.
