(* ===== verification/Responses.v ===== *)
(** * How responses reach their requests (managers/tokenizer_manager.py)

    Two kinds of coroutines share the state of a request: the loop that receives the batches
    of the detokenizer and appends to the state, and a waiter for each request that drains
    what was appended and yields it to the client.  They switch only where the code awaits.
    States are objects: a waiter keeps its own although the manager may have forgotten it.
    Of the meta information only the finish reason is kept. *)

From stdpp Require Import base tactics list strings.
From Stdlib Require Import ZArith Lia.
From S2P Require Import Prelude Detokenizer.

#[local] Open Scope Z_scope.

(** ** The state of a request *)

(** A finish reason: not an abort, or an abort with its status code and message. *)
Inductive FinishJson := Stopped | Aborted (status_code : option Z) (message : string).

(** The output ids of a chunk: a list of its own, or the list of the state itself. *)
Inductive IdsVal := OwnIds (l : list Z) | SharedIds.

(** What is queued for a request; a missing text is filled in by the waiter. *)
Record Chunk := mkChunk { ch_text : option text; ch_ids : IdsVal; ch_reason : option FinishJson }.

(** What a waiter yields, as the client reads it then. *)
Record Resp := mkResp { rp_text : text; rp_ids : list Z; rp_reason : option FinishJson }.

(** [ReqState], with its waiter: what it has yielded, and how it ended. *)
Record ReqState := mkState {
  obj_rid : string;
  obj_stream : bool;
  out_list : list Chunk;
  rs_finished : bool;
  event : bool;
  rs_text : text;
  text_chunks : list text;
  rs_output_ids : list Z;
  w_yields : list Resp;
  w_end : option (Outcome unit) }.

Definition append_text (chunk : text) (s : ReqState) : ReqState :=
  match chunk with
  | [] => s
  | _ => mkState (obj_rid s) (obj_stream s) (out_list s) (rs_finished s) (event s) (rs_text s) (text_chunks s ++ [chunk]) (rs_output_ids s) (w_yields s) (w_end s)
  end.

Definition get_text (s : ReqState) : text * ReqState :=
  match text_chunks s with
  | [] => (rs_text s, s)
  | cs => let t := rs_text s ++ concat cs in
          (t, mkState (obj_rid s) (obj_stream s) (out_list s) (rs_finished s) (event s) t [] (rs_output_ids s) (w_yields s) (w_end s))
  end.

Definition extend_ids (ids : list Z) (s : ReqState) : ReqState :=
  mkState (obj_rid s) (obj_stream s) (out_list s) (rs_finished s) (event s) (rs_text s) (text_chunks s) (rs_output_ids s ++ ids) (w_yields s) (w_end s).
Definition set_finished (b : bool) (s : ReqState) : ReqState :=
  mkState (obj_rid s) (obj_stream s) (out_list s) b (event s) (rs_text s) (text_chunks s) (rs_output_ids s) (w_yields s) (w_end s).
Definition set_event (b : bool) (s : ReqState) : ReqState :=
  mkState (obj_rid s) (obj_stream s) (out_list s) (rs_finished s) b (rs_text s) (text_chunks s) (rs_output_ids s) (w_yields s) (w_end s).
Definition set_out (l : list Chunk) (s : ReqState) : ReqState :=
  mkState (obj_rid s) (obj_stream s) l (rs_finished s) (event s) (rs_text s) (text_chunks s) (rs_output_ids s) (w_yields s) (w_end s).
Definition set_waiter (ys : list Resp) (e : option (Outcome unit)) (s : ReqState) : ReqState :=
  mkState (obj_rid s) (obj_stream s) (out_list s) (rs_finished s) (event s) (rs_text s) (text_chunks s) (rs_output_ids s) ys e.

Definition new_state (rid : string) (stream : bool) : ReqState := mkState rid stream [] false false [] [] [] [] None.

(** ** Receiving *)

(** What a batch of the detokenizer says of one request. *)
Record StrOut := mkStrOut { so_rid : string; so_text : text; so_ids : list Z; so_reason : option FinishJson }.

(** Where the receiving loop is: waiting for a message, inside a batch, or giving way to
    other coroutines inside a batch. *)
Inductive Loop :=
  | Receiving
  | InBatch (pending_notify : list (string * nat)) (rest : list StrOut)
  | Sleeping (rest : list StrOut).

Record Manager := mkManager {
  objects : list ReqState;
  rid_to_state : list (string * nat);
  loop : Loop }.

Definition awaits_other (l : Loop) : bool := match l with Receiving | Sleeping _ => true | InBatch _ _ => false end.

Definition update_obj (k : nat) (f : ReqState -> ReqState) (m : Manager) : Manager :=
  mkManager (alter f k (objects m)) (rid_to_state m) (loop m).
Definition goto (l : Loop) (m : Manager) : Manager := mkManager (objects m) (rid_to_state m) l.

(** What the receiving loop did to which object: it brought text and ids, or an abort. *)
Abbreviation history := (list (nat * option (text * list Z))).

Section manager.
Context (incremental_streaming_output : bool) (batch_notify_size : nat).

(** The body of [_handle_batch_output] for one request: its new state, and what is queued. *)
Definition deliver (i : StrOut) (s : ReqState) : ReqState * option Chunk :=
  let s := set_finished (match so_reason i with Some _ => true | None => false end) s in
  let s := extend_ids (so_ids i) (append_text (so_text i) s) in
  let full := let '(t, s) := get_text s in (s, Some (mkChunk (Some t) (OwnIds (rs_output_ids s)) (so_reason i))) in
  if obj_stream s then
    if incremental_streaming_output then (s, Some (mkChunk (Some (so_text i)) (OwnIds (so_ids i)) (so_reason i)))
    else if rs_finished s then full
    else (s, Some (mkChunk None SharedIds (so_reason i)))
  else if rs_finished s then full
  else (s, None).

Definition notify (pending : list (string * nat)) (m : Manager) : Manager :=
  foldl (fun m e => update_obj e.2 (set_event true) m) m pending.

(** The loop goes on until its next state; with the object that got something. *)
Definition loop_step (m : Manager) : Manager :=
  match loop m with
  | Receiving => m
  | Sleeping rest => goto (InBatch [] rest) m
  | InBatch pending [] => goto Receiving (notify pending m)
  | InBatch pending (i :: rest) =>
      match dict_get (so_rid i) (rid_to_state m) with
      | None => goto (InBatch pending rest) m
      | Some k =>
          match objects m !! k with
          | None => goto (InBatch pending rest) m
          | Some s =>
              let '(s', out) := deliver i s in
              let live := if rs_finished s' then dict_pop (so_rid i) (rid_to_state m) else rid_to_state m in
              match out with
              | None => mkManager (<[k := s']> (objects m)) live (InBatch pending rest)
              | Some c =>
                  let m' := mkManager (<[k := set_out (out_list s' ++ [c]) s']> (objects m)) live (loop m) in
                  let pending' := dict_set (so_rid i) k pending in
                  if (batch_notify_size <=? length pending')%nat then goto (Sleeping rest) (notify pending' m')
                  else goto (InBatch pending' rest) m'
              end
          end
      end
  end.

(** ** Requests *)

(** [_init_req_state] for one request. *)
Definition _init_req_state (rid : string) (stream : bool) (m : Manager) : Outcome Manager :=
  match dict_get rid (rid_to_state m) with
  | Some _ => Raise ValueError
  | None => Ret (mkManager (objects m ++ [new_state rid stream]) (dict_set rid (length (objects m)) (rid_to_state m)) (loop m))
  end.

(** [_handle_abort_req]; the reason is the one of the message, or an abort without a code. *)
Definition _handle_abort_req (rid : string) (reason : option FinishJson) (m : Manager) : Outcome Manager :=
  match dict_get rid (rid_to_state m) with
  | None => Raise KeyError
  | Some k =>
      Ret (update_obj k (fun s =>
        let s := set_finished true s in
        let '(t, s) := get_text s in
        let ids := if obj_stream s then OwnIds (match last (rs_output_ids s) with Some i => [i] | None => [] end) else SharedIds in
        set_event true (set_out (out_list s ++ [mkChunk (Some t) ids (Some (default (Aborted None "Abort in waiting queue") reason))]) s)) m)
  end.

(** ** Waiting *)

Definition ids_of (s : ReqState) (v : IdsVal) : list Z := match v with OwnIds l => l | SharedIds => rs_output_ids s end.

Definition _coalesce_streaming_chunks (s : ReqState) (l : list Chunk) (final : Chunk) : Chunk :=
  mkChunk (Some (concat ((fun c => default [] (ch_text c)) <$> l))) (OwnIds (concat ((fun c => ids_of s (ch_ids c)) <$> l))) (ch_reason final).

(** [_handle_abort_finish_reason]: whether the state is forgotten, and how a request that
    does not stream ends. *)
Definition _handle_abort_finish_reason (r : option FinishJson) (is_stream : bool) : bool * Outcome unit :=
  match r with
  | Some (Aborted (Some 400) msg) => (false, if is_stream then Ret tt else Raise ValueError)
  | Some (Aborted (Some c) msg) =>
      if (c =? 503) || (c =? 500) then (true, if is_stream then Ret tt else Raise (HTTPException c msg)) else (false, Ret tt)
  | _ => (false, Ret tt)
  end.

(** [_wait_one_response] after its event was set: the state, and whether the manager is to
    forget it. *)
Definition wait_step (s : ReqState) : ReqState * bool :=
  let out := out_list s in
  let s := set_event false (set_out [] s) in
  match last out with
  | None => (set_waiter (w_yields s) (Some (Raise IndexError)) s, false)
  | Some c =>
      let incremental := obj_stream s && incremental_streaming_output in
      let c := if incremental && (1 <? length out)%nat then _coalesce_streaming_chunks s out c else c in
      let '(t, s) := match ch_text c with
                     | Some t => (t, s)
                     | None => if obj_stream s && negb incremental then get_text s else ([], s)
                     end in
      let resp := mkResp t (ids_of s (ch_ids c)) (ch_reason c) in
      if rs_finished s then
        let '(forget, o) := _handle_abort_finish_reason (ch_reason c) (obj_stream s) in
        (set_waiter (match o with Ret _ => w_yields s ++ [resp] | _ => w_yields s end) (Some o) s, forget)
      else if obj_stream s then (set_waiter (w_yields s ++ [resp]) None s, false)
      else (s, false)
  end.

(** [del self.rid_to_state[state.obj.rid]], if it is there. *)
Definition forget_rid (rid : string) (m : Manager) : Manager :=
  mkManager (objects m) (dict_pop rid (rid_to_state m)) (loop m).

(** ** Interleavings *)

(** A step of the system; the label says what the detokenizer brought to which object
    ([Some]), or that the object was aborted ([None]).  An abort message for an unknown
    request raises, which ends the receiving loop; the abort of a health check changes
    nothing. *)
Inductive manager_step : Manager -> history -> Manager -> Prop :=
  | step_init m rid stream m' :
      awaits_other (loop m) = true -> _init_req_state rid stream m = Ret m' -> manager_step m [] m'
  | step_recv m batch : loop m = Receiving -> manager_step m [] (goto (InBatch [] batch) m)
  | step_abort m rid reason k m' :
      loop m = Receiving -> dict_get rid (rid_to_state m) = Some k -> _handle_abort_req rid reason m = Ret m' -> manager_step m [(k, None)] m'
  | step_loop m : loop m <> Receiving ->
      manager_step m (match loop m with
                      | InBatch _ (i :: _) => match dict_get (so_rid i) (rid_to_state m) with Some k => [(k, Some (so_text i, so_ids i))] | None => [] end
                      | _ => []
                      end) (loop_step m)
  | step_wait m k s :
      awaits_other (loop m) = true -> objects m !! k = Some s -> w_end s = None -> event s = true ->
      manager_step m [] (let m' := update_obj k (fun s => (wait_step s).1) m in if (wait_step s).2 then forget_rid (obj_rid s) m' else m')
  | step_disconnect m k s :
      awaits_other (loop m) = true -> objects m !! k = Some s -> w_end s = None -> event s = false ->
      manager_step m [] (update_obj k (fun s => set_waiter (w_yields s) (Some (Raise ValueError)) s) m).

Inductive manager_run : history -> Manager -> Prop :=
  | run_start : manager_run [] (mkManager [] [] Receiving)
  | run_step h m l m' : manager_run h m -> manager_step m l m' -> manager_run (h ++ l) m'.

(** What object [k] got, and whether it was aborted. *)
Definition got (k : nat) (h : history) : list (text * list Z) := omap (fun e => if decide (e.1 = k) then e.2 else None) h.
Definition aborted (k : nat) (h : history) : Prop := (k, None) ∈ h.
#[global] Instance aborted_dec k h : Decision (aborted k h).
Proof. unfold aborted. apply _. Defined.
End manager.
