(* ===== verification/ResponsesProofs.v ===== *)
(** * Nothing is lost between the detokenizer and the client

    The invariant of the receiving loop and the waiters, over every interleaving. *)

From stdpp Require Import base tactics list strings sets.
From Stdlib Require Import ZArith Lia.
From S2P Require Import Prelude Detokenizer DetokStream Responses.

#[local] Open Scope Z_scope.

Lemma got_app k (h l : history) : got k (h ++ l) = got k h ++ got k l.
Proof. apply omap_app. Qed.

Lemma got_one k j x : got k [(j, Some x)] = if decide (j = k) then [x] else [].
Proof. unfold got. cbn. by destruct (decide (j = k)). Qed.

Lemma got_abort k j (h : history) : got k (h ++ [(j, None)]) = got k h.
Proof. rewrite got_app. unfold got at 2. cbn. destruct (decide (j = k)); by rewrite app_nil_r. Qed.

Lemma aborted_more k (h : history) j x : aborted k (h ++ [(j, Some x)]) <-> aborted k h.
Proof. unfold aborted. rewrite elem_of_app, list_elem_of_singleton. naive_solver. Qed.

Lemma aborted_abort k (h : history) j : aborted k (h ++ [(j, None)]) <-> aborted k h \/ j = k.
Proof. unfold aborted. rewrite elem_of_app, list_elem_of_singleton. naive_solver. Qed.

Section manager.
Context (inc : bool) (batch_notify_size : nat).
Implicit Types (d : list (text * list Z)) (s : ReqState) (m : Manager).

Definition all_text d : text := concat d.*1.
Definition all_got_ids d : list Z := concat d.*2.

Definition is_incremental s : bool := obj_stream s && inc.

(** The queue of a request that got [d]. *)
Definition queue_ok d s : Prop :=
  if is_incremental s then
    Forall (fun c => ch_text c <> None /\ ch_ids c <> SharedIds) (out_list s) /\
    concat (rp_text <$> w_yields s) ++ concat ((fun c => default [] (ch_text c)) <$> out_list s) = all_text d /\
    concat (rp_ids <$> w_yields s) ++ concat ((fun c => ids_of s (ch_ids c)) <$> out_list s) = all_got_ids d
  else
    (if rs_finished s then exists r, last (out_list s) = Some (mkChunk (Some (all_text d)) (OwnIds (all_got_ids d)) r)
     else Forall (fun c => ch_text c = None /\ ch_ids c = SharedIds) (out_list s) /\ (obj_stream s = false -> out_list s = [])) /\
    Forall (fun y => rp_text y `prefix_of` all_text d /\ rp_ids y `prefix_of` all_got_ids d) (w_yields s).

(** What a waiter that ended well has yielded. *)
Definition all_yielded d s : Prop :=
  if is_incremental s then concat (rp_text <$> w_yields s) = all_text d /\ concat (rp_ids <$> w_yields s) = all_got_ids d
  else exists ys r, w_yields s = ys ++ [mkResp (all_text d) (all_got_ids d) r] /\
    Forall (fun y => rp_text y `prefix_of` all_text d /\ rp_ids y `prefix_of` all_got_ids d) ys.

(** Without incremental streaming, whatever is queued or was yielded is a beginning of the
    text. *)
Definition beginnings d s : Prop :=
  is_incremental s = false ->
    Forall (fun c => default [] (ch_text c) `prefix_of` all_text d) (out_list s) /\ Forall (fun y => rp_text y `prefix_of` all_text d) (w_yields s).

(** An object that got [d] and was aborted or not; [pend] says that the loop is about to
    notify it. *)
Record obj_ok d (ab pend : Prop) s : Prop := mkObjOk {
  ob_text : rs_text s ++ concat (text_chunks s) = all_text d;
  ob_ids : rs_output_ids s = all_got_ids d;
  ob_wake : w_end s = None -> (out_list s <> [] <-> event s = true \/ pend);
  ob_done : w_end s = None -> rs_finished s = true -> out_list s <> [];
  ob_begin : beginnings d s;
  ob_queue : ~ ab -> w_end s = None -> queue_ok d s;
  ob_served : ~ ab -> w_end s = Some (Ret tt) -> rs_finished s = true /\ all_yielded d s;
  ob_err : w_end s <> Some (Raise IndexError) }.

Definition pending_of (l : Loop) : list (string * nat) := match l with InBatch p _ => p | _ => [] end.
Local Abbreviation pending l := (pending_of l).*2.

Record mgr_ok (h : history) m : Prop := mkMgrOk {
  mg_objs : forall k s, objects m !! k = Some s -> obj_ok (got k h) (aborted k h) (k ∈ pending (loop m)) s;
  mg_new : forall k, (length (objects m) <= k)%nat -> got k h = [] /\ ~ aborted k h;
  mg_live : forall rid k, dict_get rid (rid_to_state m) = Some k ->
    exists s, objects m !! k = Some s /\ (rs_finished s = false \/ aborted k h) /\ obj_rid s = rid;
  mg_keys : NoDup (dict_keys (rid_to_state m));
  mg_pend : forall rid j k, dict_get rid (pending_of (loop m)) = Some j -> dict_get rid (rid_to_state m) = Some k -> j = k }.

(** ** Delivering *)

Lemma get_text_spec s : exists s', get_text s = (rs_text s ++ concat (text_chunks s), s') /\
  rs_text s' ++ concat (text_chunks s') = rs_text s ++ concat (text_chunks s) /\ out_list s' = out_list s /\ rs_finished s' = rs_finished s /\
  rs_output_ids s' = rs_output_ids s /\ obj_stream s' = obj_stream s /\ event s' = event s /\ w_yields s' = w_yields s /\ w_end s' = w_end s /\ obj_rid s' = obj_rid s.
Proof.
  unfold get_text. destruct (text_chunks s) as [|c cs] eqn:E.
  - exists s. cbn. rewrite app_nil_r, E. cbn. by rewrite app_nil_r.
  - eexists. split; [reflexivity|]. cbn [rs_text text_chunks out_list rs_finished rs_output_ids obj_stream event w_yields w_end obj_rid concat]. by rewrite app_nil_r.
Qed.

Lemma append_text_spec t s : exists s', append_text t s = s' /\
  rs_text s' ++ concat (text_chunks s') = (rs_text s ++ concat (text_chunks s)) ++ t /\ out_list s' = out_list s /\ rs_finished s' = rs_finished s /\
  rs_output_ids s' = rs_output_ids s /\ obj_stream s' = obj_stream s /\ event s' = event s /\ w_yields s' = w_yields s /\ w_end s' = w_end s /\ obj_rid s' = obj_rid s.
Proof.
  eexists. split; [reflexivity|]. destruct t as [|c t]; [by rewrite app_nil_r|]. cbn. rewrite concat_app. cbn. by rewrite app_nil_r, (assoc_L (++)).
Qed.

Local Abbreviation deliver := (deliver inc).
Local Abbreviation stops_at i := (match so_reason i with Some _ => true | None => false end).

(** What is queued when a request that has [t] and [ids] gets [i]. *)
Definition queued (i : StrOut) (stream : bool) (t : text) (ids : list Z) : option Chunk :=
  if stream && inc then Some (mkChunk (Some (so_text i)) (OwnIds (so_ids i)) (so_reason i))
  else if stops_at i then Some (mkChunk (Some t) (OwnIds ids) (so_reason i))
  else if stream then Some (mkChunk None SharedIds (so_reason i)) else None.

Lemma deliver_spec i s : exists s', deliver i s = (s', queued i (obj_stream s) ((rs_text s ++ concat (text_chunks s)) ++ so_text i) (rs_output_ids s ++ so_ids i)) /\
  rs_text s' ++ concat (text_chunks s') = (rs_text s ++ concat (text_chunks s)) ++ so_text i /\ rs_output_ids s' = rs_output_ids s ++ so_ids i /\
  out_list s' = out_list s /\ rs_finished s' = stops_at i /\ obj_stream s' = obj_stream s /\ event s' = event s /\ w_yields s' = w_yields s /\ w_end s' = w_end s /\ obj_rid s' = obj_rid s.
Proof.
  unfold Responses.deliver, queued. destruct (append_text_spec (so_text i) (set_finished (stops_at i) s)) as (s1 & -> & A1 & A2 & A3 & A4 & A5 & A6 & A7 & A8 & A9). cbn in A1, A2, A3, A4, A5, A6, A7, A8, A9.
  destruct (get_text_spec (extend_ids (so_ids i) s1)) as (s2 & E & B1 & B2 & B3 & B4 & B5 & B6 & B7 & B8 & B9). cbn in E, B1, B2, B3, B4, B5, B6, B7, B8, B9.
  cbv zeta. rewrite E. cbn [extend_ids obj_stream rs_finished]. rewrite A3, A5. 
  assert (rs_output_ids s2 = rs_output_ids s ++ so_ids i) as E2 by (by rewrite B4, A4).
  destruct (obj_stream s) eqn:Es; cbn [andb]; destruct inc; destruct (so_reason i) eqn:Er; cbn [andb]; eexists; (split; [rewrite ?E2, ?A1; reflexivity|]); cbn; split_and!; congruence.
Qed.

Lemma all_text_snoc d t ids : all_text (d ++ [(t, ids)]) = all_text d ++ t.
Proof. unfold all_text. rewrite fmap_app, concat_app. cbn. by rewrite app_nil_r. Qed.
Lemma all_ids_snoc d t ids : all_got_ids (d ++ [(t, ids)]) = all_got_ids d ++ ids.
Proof. unfold all_got_ids. rewrite fmap_app, concat_app. cbn. by rewrite app_nil_r. Qed.

Lemma yields_grow d x ys :
  Forall (fun y => rp_text y `prefix_of` all_text d /\ rp_ids y `prefix_of` all_got_ids d) ys ->
  Forall (fun y => rp_text y `prefix_of` all_text (d ++ [x]) /\ rp_ids y `prefix_of` all_got_ids (d ++ [x])) ys.
Proof.
  intros H. eapply Forall_impl; [exact H|]. intros y [H1 H2]. destruct x. rewrite all_text_snoc, all_ids_snoc. split; by apply prefix_app_r.
Qed.

Definition push (o : option Chunk) s : ReqState := match o with Some c => set_out (out_list s ++ [c]) s | None => s end.

Lemma begin_grow d x s : beginnings d s -> beginnings (d ++ [x]) s.
Proof.
  intros H Hi. destruct (H Hi) as [H1 H2]. destruct x as [t ids].
  split; [eapply Forall_impl; [exact H1|]|eapply Forall_impl; [exact H2|]]; intros c Hc; cbv beta in *; rewrite all_text_snoc; by apply prefix_app_r.
Qed.

(** A delivery keeps the object in order and makes it ready for its notification. *)
Lemma deliver_ok d (ab P : Prop) i s :
  obj_ok d ab P s -> rs_finished s = false \/ ab ->
  exists s' out, deliver i s = (s', out) /\ obj_ok (d ++ [(so_text i, so_ids i)]) ab (P \/ out <> None) (push out s') /\
    rs_finished (push out s') = stops_at i /\ obj_rid (push out s') = obj_rid s.
Proof.
  intros [H1 H2 H3 H4 HB H5 H6 H7] Hf. destruct (deliver_spec i s) as (s' & E & D1 & D2 & D3 & D4 & D5 & D6 & D7 & D8 & D9). rewrite H1, <-(all_text_snoc _ _ (so_ids i)) in E. rewrite H2, <-(all_ids_snoc _ (so_text i)) in E.
  eexists s', _. split; [exact E|]. rewrite H1, <-(all_text_snoc _ _ (so_ids i)) in D1. rewrite H2, <-(all_ids_snoc _ (so_text i)) in D2. set (d' := d ++ _) in *. set (out := queued _ _ _ _) in *.
  assert (forall A (f : ReqState -> A), (forall l s, f (set_out l s) = f s) -> f (push out s') = f s') as Hp by (intros A f Hl; unfold push; by destruct out).
  assert (out_list (push out s') = out_list s ++ option_list out) as Eo by (unfold push; destruct out; cbn; rewrite D3; [done|by rewrite app_nil_r]).
  split_and!; [|by rewrite (Hp _ rs_finished)|by rewrite (Hp _ obj_rid)]. constructor.
  - by rewrite (Hp _ (fun s => rs_text s ++ concat (text_chunks s))).
  - by rewrite (Hp _ rs_output_ids).
  - rewrite (Hp _ w_end), (Hp _ event), D8, D6, Eo by done. intros Hw. specialize (H3 Hw). destruct out as [c|]; cbn; [|rewrite app_nil_r; naive_solver].
    split; [intros _; right; by right|intros _ E0; by apply app_eq_nil in E0 as [_ ?]].
  - rewrite (Hp _ w_end), (Hp _ rs_finished), D4, Eo by done. intros _ Hs E0. apply app_eq_nil in E0 as [_ E0]. unfold out, queued in E0.
    destruct (so_reason i); [|done]. by destruct (obj_stream s && inc).
  - apply (begin_grow _ (so_text i, so_ids i)) in HB. fold d' in HB. unfold beginnings, is_incremental in *. rewrite (Hp _ obj_stream), D5, Eo, (Hp _ w_yields), D7 by done.
    intros Hi. destruct (HB Hi) as [B1 B2]. split; [|done]. apply Forall_app. split; [done|]. unfold out, queued. rewrite Hi.
    destruct (so_reason i); [by repeat constructor|]. destruct (obj_stream s); [|constructor]. repeat constructor. apply prefix_nil.
  - rewrite (Hp _ w_end), D8 by done. intros Hab Hw. specialize (H5 Hab Hw). destruct Hf as [Hf|]; [|done]. unfold queue_ok, is_incremental in *. rewrite (Hp _ obj_stream), D5, Eo, (Hp _ w_yields), D7, (Hp _ rs_finished), D4 by done. unfold out, queued. rewrite Hf in H5.
    destruct (obj_stream s && inc) eqn:Ei.
    + destruct H5 as (Q1 & Q2 & Q3). cbn [option_list]. split_and!.
      * apply Forall_app. split; [done|]. by repeat constructor.
      * rewrite fmap_app, concat_app. cbn. by rewrite app_nil_r, (assoc_L (++)), Q2, <-(all_text_snoc _ _ (so_ids i)).
      * rewrite fmap_app, concat_app. cbn. rewrite app_nil_r, (assoc_L (++)). unfold d'. rewrite (all_ids_snoc d (so_text i)), <-Q3. do 3 f_equal.
        apply list_fmap_ext. intros j c Hc. apply (Forall_lookup_1 _ _ _ _ Q1) in Hc as [_ Hc]. by destruct (ch_ids c).
    + destruct H5 as ((Q1 & Q2) & Q3). split; [|by apply yields_grow]. destruct (so_reason i) as [r|] eqn:Er; cbn [option_list].
      * exists (Some r). cbn. by rewrite last_snoc.
      * destruct (obj_stream s) eqn:Es; cbn [option_list].
        -- split; [|done]. apply Forall_app. split; [done|]. by repeat constructor.
        -- rewrite app_nil_r. by split.
  - rewrite (Hp _ w_end), D8 by done. intros Hab Hw. destruct (H6 Hab Hw) as [H6' _]. destruct Hf; [congruence|done].
  - by rewrite (Hp _ w_end), D8.
Qed.

(** ** Notifying *)

Lemma notified d (ab P : Prop) `{!Decision P} s : obj_ok d ab P s -> obj_ok d ab False (if decide P then set_event true s else s).
Proof.
  intros [H1 H2 H3 H4 HB H5 H6 H7]. destruct (decide P) as [HP|HP]; constructor; cbn; try done.
  - intros Hw. rewrite (H3 Hw). naive_solver.
  - intros Hw. rewrite (H3 Hw). naive_solver.
Qed.

Lemma notify_lookup ps m k : objects (notify ps m) !! k = (if decide (k ∈ ps.*2) then set_event true <$> objects m !! k else objects m !! k) /\
  rid_to_state (notify ps m) = rid_to_state m /\ length (objects (notify ps m)) = length (objects m).
Proof.
  revert m. induction ps as [|[r j] ps IH]; intros m; [by destruct (decide _) as [H|]; [apply not_elem_of_nil in H|]|].
  change (notify ((r, j) :: ps) m) with (notify ps (update_obj j (set_event true) m)). destruct (IH (update_obj j (set_event true) m)) as (E1 & E2 & E3).
  rewrite E1, E2, E3. cbn [update_obj objects rid_to_state fmap list_fmap snd]. rewrite length_alter. split_and!; [|done|done].
  destruct (decide (j = k)) as [->|Hne].
  - rewrite list_lookup_alter_eq. rewrite (decide_True (P := k ∈ k :: ps.*2)) by (by left). destruct (decide (k ∈ ps.*2)); [|done].
    by destruct (objects m !! k).
  - rewrite list_lookup_alter_ne by done. destruct (decide (k ∈ ps.*2)) as [H|H].
    + by rewrite decide_True by (by right).
    + rewrite decide_False; [done|]. by intros [->|?]%elem_of_cons.
Qed.

(** ** Waiting *)

Local Abbreviation wait_step := (wait_step inc).

Lemma concat_ids_same s s' (l : list Chunk) :
  Forall (fun c => ch_text c <> None /\ ch_ids c <> SharedIds) l ->
  concat ((fun c => ids_of s (ch_ids c)) <$> l) = concat ((fun c => ids_of s' (ch_ids c)) <$> l).
Proof.
  intros H. f_equal. apply list_fmap_ext. intros j c Hc. apply (Forall_lookup_1 _ _ _ _ H) in Hc as [_ Hc]. by destruct (ch_ids c).
Qed.

(** What a waiter takes from its queue: a chunk with the last reason. *)
Lemma coalesced s (l : list Chunk) c : last l = Some c -> Forall (fun c => ch_text c <> None /\ ch_ids c <> SharedIds) l ->
  let cc := if (1 <? length l)%nat then _coalesce_streaming_chunks s l c else c in
  ch_text cc = Some (concat ((fun c => default [] (ch_text c)) <$> l)) /\ ids_of s (ch_ids cc) = concat ((fun c => ids_of s (ch_ids c)) <$> l).
Proof.
  intros El Hl. destruct l as [|c1 [|c2 l]]; [done| |done]. injection El as ->. apply Forall_cons in Hl as [[Q1 Q2] _]. cbn. rewrite !app_nil_r.
  by destruct (ch_text c).
Qed.

(** What a waiter reads: for a request that was not aborted the deltas put together, or
    everything there is. *)
Lemma wait_reads d (ab : Prop) s :
  obj_ok d ab False s -> w_end s = None -> out_list s <> [] ->
  exists t ids r s1, rs_text s1 ++ concat (text_chunks s1) = all_text d /\ rs_output_ids s1 = all_got_ids d /\
    out_list s1 = [] /\ event s1 = false /\ rs_finished s1 = rs_finished s /\ obj_stream s1 = obj_stream s /\ w_yields s1 = w_yields s /\ w_end s1 = None /\ obj_rid s1 = obj_rid s /\
    wait_step s = (if rs_finished s1 then let '(forget, o) := _handle_abort_finish_reason r (obj_stream s1) in
        (set_waiter (match o with Ret _ => w_yields s1 ++ [mkResp t ids r] | _ => w_yields s1 end) (Some o) s1, forget)
      else if obj_stream s1 then (set_waiter (w_yields s1 ++ [mkResp t ids r]) None s1, false) else (s1, false)) /\
    (is_incremental s = false -> t `prefix_of` all_text d) /\
    (~ ab -> if is_incremental s then t = concat ((fun c => default [] (ch_text c)) <$> out_list s) /\ ids = concat ((fun c => ids_of s (ch_ids c)) <$> out_list s)
     else t = all_text d /\ ids = all_got_ids d).
Proof.
  intros [H1 H2 H3 H4 HB H5 H6 H7] Hw Hne. unfold Responses.wait_step. destruct (last (out_list s)) as [c|] eqn:El; [|by apply last_None in El]. cbv zeta.
  unfold beginnings, queue_ok, is_incremental in *. cbn [set_event set_out obj_stream]. set (s0 := set_event false (set_out [] s)).
  assert (get_text s0 = (all_text d, (get_text s0).2)) as Eg by (destruct (get_text_spec s0) as (s1 & E & _); rewrite E; cbn [fst snd]; by rewrite <-H1).
  set (cc := if obj_stream s && inc && (1 <? length (out_list s))%nat then _coalesce_streaming_chunks s0 (out_list s) c else c).
  assert (~ ab -> if obj_stream s && inc then ch_text cc = Some (concat ((fun c => default [] (ch_text c)) <$> out_list s)) /\ ids_of s0 (ch_ids cc) = concat ((fun c => ids_of s (ch_ids c)) <$> out_list s)
    else if rs_finished s then ch_text cc = Some (all_text d) /\ ch_ids cc = OwnIds (all_got_ids d) else obj_stream s = true /\ ch_text cc = None /\ ch_ids cc = SharedIds) as Hcc.
  { intros Hab. specialize (H5 Hab Hw). unfold cc. destruct (obj_stream s && inc) eqn:Ei; cbn [andb].
    - destruct H5 as (Q1 & _). destruct (coalesced s0 (out_list s) c El Q1) as [C1 C2]. rewrite C2. split; [done|]. by apply concat_ids_same.
    - destruct H5 as [Q1 _]. destruct (rs_finished s).
      + destruct Q1 as [r Er]. rewrite Er in El. by injection El as <-.
      + destruct Q1 as [Q1 Q3]. split; [destruct (obj_stream s); [done|]; by rewrite Q3 in Hne|]. rewrite Forall_forall in Q1. apply Q1. by apply last_Some_elem_of. }
  assert (obj_stream s && inc = false -> default [] (ch_text cc) `prefix_of` all_text d) as Hbeg.
  { intros Hi. unfold cc. rewrite Hi. cbn [andb]. destruct (HB Hi) as [B1 _]. rewrite Forall_forall in B1. apply B1. by apply last_Some_elem_of. }
  destruct (ch_text cc) as [t|] eqn:Et.
  - exists t, (ids_of s0 (ch_ids cc)), (ch_reason cc), s0. split_and!; try done. intros Hab. specialize (Hcc Hab). destruct (obj_stream s && inc).
    + destruct Hcc as [[= ->] Hc]. done.
    + destruct (rs_finished s); [|by destruct Hcc as (_ & ? & _)]. destruct Hcc as [[= ->] ->]. done.
  - change (obj_stream s0) with (obj_stream s). destruct (obj_stream s && negb (obj_stream s && inc)) eqn:En.
    + rewrite Eg. destruct (get_text_spec s0) as (s1 & E & B1 & B2 & B3 & B4 & B5 & B6 & B7 & B8 & B9). rewrite E in Eg |- *. cbn [fst snd] in *.
      exists (all_text d), (ids_of s1 (ch_ids cc)), (ch_reason cc), s1. change (rs_text s0 ++ concat (text_chunks s0)) with (rs_text s ++ concat (text_chunks s)) in B1.
      split_and!; try done; rewrite ?B1, ?B2, ?B3, ?B4, ?B5, ?B6, ?B7, ?B8, ?B9; try done. intros Hab. specialize (Hcc Hab). destruct (obj_stream s && inc); [by destruct Hcc|].
      destruct (rs_finished s); [by destruct Hcc|]. destruct Hcc as (_ & _ & ->). split; [done|]. cbn [ids_of]. by rewrite B4.
    + exists [], (ids_of s0 (ch_ids cc)), (ch_reason cc), s0. split_and!; try done. intros Hab. specialize (Hcc Hab).
      destruct (obj_stream s && inc); [by destruct Hcc|]. destruct (rs_finished s); [by destruct Hcc|]. destruct Hcc as (Es & _). by rewrite Es in En.
Qed.

Lemma wait_ok d (ab : Prop) s :
  obj_ok d ab False s -> w_end s = None -> event s = true ->
  obj_ok d ab False (wait_step s).1 /\ rs_finished (wait_step s).1 = rs_finished s /\ obj_rid (wait_step s).1 = obj_rid s.
Proof.
  intros HO Hw Hev. pose proof HO as [H1 H2 H3 H4 HB H5 H6 H7]. assert (out_list s <> []) as Hne by (apply H3; [done|by left]).
  destruct (wait_reads d ab s HO Hw Hne) as (t & ids & r & s1 & R1 & R2 & R3 & R4 & R5 & R6 & R7 & R8 & R9 & -> & Ht & Hr). rewrite R5, R6, R7.
  assert (forall ys e, ys = w_yields s \/ ys = w_yields s ++ [mkResp t ids r] -> beginnings d (set_waiter ys e s1)) as Hbeg.
  { intros ys e Hys. unfold beginnings, is_incremental in *. cbn. rewrite R6, R3. intros Hi. destruct (HB Hi) as [_ B2]. split; [constructor|].
    destruct Hys as [->| ->]; [done|]. apply Forall_app. split; [done|]. repeat constructor. by apply Ht. }
  assert (rs_finished s = true -> obj_ok d ab False (set_waiter (w_yields s ++ [mkResp t ids r]) (Some (Ret tt)) s1)) as Hend.
  { intros Hf. constructor; try done; [by apply Hbeg; right|]. intros Hab _. specialize (H5 Hab Hw). specialize (Hr Hab). cbn. split; [congruence|]. unfold all_yielded, queue_ok, is_incremental in *. cbn. rewrite R6. destruct (obj_stream s && inc).
    - destruct H5 as (_ & Q2 & Q3). destruct Hr as [-> ->]. rewrite !fmap_app, !concat_app. cbn. by rewrite !app_nil_r.
    - destruct H5 as (_ & Q2). destruct Hr as [-> ->]. eauto. }
  destruct (rs_finished s) eqn:Ef.
  - destruct (_handle_abort_finish_reason r (obj_stream s)) as [forget o] eqn:Ea. cbn [fst].
    assert (o = Ret tt \/ exists e, o = Raise e /\ e <> IndexError) as Ho.
    { unfold _handle_abort_finish_reason in Ea. destruct r as [[|[c|] msg]|]; try (injection Ea as _ <-; by left).
      repeat case_match; injection Ea as _ <-; try (by left); right; by eexists. }
    destruct Ho as [->|(e & -> & He)]; [split_and!; [by apply Hend|cbn; congruence|done]|].
    split_and!; [|cbn; congruence|done]. constructor; try done; [by apply Hbeg; left|]. cbn. congruence.
  - destruct (obj_stream s) eqn:Es; cbn [fst].
    + split_and!; [|cbn; congruence|done]. constructor; cbn; try done; [|congruence|by apply Hbeg; right|].
      * intros _. rewrite R3, R4. naive_solver.
      * intros Hab _. specialize (H5 Hab Hw). specialize (Hr Hab). unfold queue_ok, is_incremental in *. cbn. rewrite R3, R5, R6, Es in *. cbn [andb] in *. destruct inc.
        -- destruct H5 as (_ & Q2 & Q3). destruct Hr as [-> ->]. rewrite !fmap_app, !concat_app. cbn. rewrite !app_nil_r. by split_and!.
        -- destruct H5 as (_ & Q2). destruct Hr as [-> ->]. split; [by split|]. apply Forall_app. by split; [|repeat constructor].
    + split_and!; [|done|done]. constructor; try done.
      * intros _. rewrite R3, R4. naive_solver.
      * intros _ Hf. congruence.
      * assert (set_waiter (w_yields s) (w_end s1) s1 = s1) as <- by (rewrite <-R7; by destruct s1). apply Hbeg. by left.
      * intros Hab _. specialize (H5 Hab Hw). exfalso. unfold queue_ok, is_incremental in H5. rewrite Es, Ef in H5. cbn in H5. destruct H5 as [[_ H5] _]. by rewrite H5 in Hne.
      * intros _ Hs. rewrite R8 in Hs. done.
      * rewrite R8. done.
Qed.

(** ** Every step *)

Lemma obj_ok_iff d (A P Q : Prop) s : (P <-> Q) -> obj_ok d A P s -> obj_ok d A Q s.
Proof. intros HPQ [H1 H2 H3 H4 HB H5 H6 H7]. constructor; try done. intros Hw. rewrite (H3 Hw), HPQ. done. Qed.

Lemma obj_ok_aborted d (A B P : Prop) s : (A -> B) -> obj_ok d A P s -> obj_ok d B P s.
Proof. intros HAB [H1 H2 H3 H4 HB H5 H6 H7]. constructor; try done; auto. Qed.

Lemma awaits_pending l : awaits_other l = true -> pending_of l = [].
Proof. by destruct l. Qed.

Lemma await_obj h m k s : mgr_ok h m -> awaits_other (loop m) = true -> objects m !! k = Some s -> obj_ok (got k h) (aborted k h) False s.
Proof.
  intros HM Ha Hk. eapply obj_ok_iff; [|by apply (mg_objs _ _ HM)]. rewrite awaits_pending by done. split; [by intros ?%not_elem_of_nil|done].
Qed.

(** One object changes, at an await; it may be by an abort. *)
Lemma update_ok h l m k f s :
  mgr_ok h m -> awaits_other (loop m) = true -> objects m !! k = Some s -> l = [] \/ l = [(k, None)] ->
  obj_ok (got k h) (aborted k (h ++ l)) False (f s) -> rs_finished (f s) = rs_finished s \/ aborted k (h ++ l) -> obj_rid (f s) = obj_rid s ->
  mgr_ok (h ++ l) (update_obj k f m).
Proof.
  intros HM Ha Hk Hl Hf Hfin Hrid. pose proof HM as [M1 M2 M3 M4 M5].
  assert (forall j, got j (h ++ l) = got j h) as Hgot by (intros j; destruct Hl as [->| ->]; [by rewrite app_nil_r|apply got_abort]).
  assert (forall j, aborted j h -> aborted j (h ++ l)) as Hab by (intros j Hj; unfold aborted; apply elem_of_app; by left).
  constructor; cbn [update_obj objects rid_to_state loop].
  - intros j sj Hj. rewrite Hgot. destruct (decide (k = j)) as [<-|Hne].
    + rewrite list_lookup_alter_eq, Hk in Hj. injection Hj as <-. rewrite awaits_pending by done. eapply obj_ok_iff; [|exact Hf]. split; [done|by intros ?%not_elem_of_nil].
    + rewrite list_lookup_alter_ne in Hj by done. eapply obj_ok_aborted; [apply Hab|by apply M1].
  - intros j. rewrite length_alter, Hgot. intros Hj. destruct (M2 j Hj) as [G1 G2]. split; [done|]. destruct Hl as [->| ->]; [by rewrite app_nil_r|].
    rewrite aborted_abort. intros [?|<-]; [done|]. apply lookup_lt_Some in Hk. lia.
  - intros rid j Hj. destruct (M3 rid j Hj) as (sj & E & F1 & F2). destruct (decide (k = j)) as [<-|Hne].
    + exists (f s). rewrite list_lookup_alter_eq, Hk. assert (s = sj) as -> by congruence. split_and!; [done| |congruence].
      destruct Hfin as [->|]; [|by right]. destruct F1; [by left|right; by apply Hab].
    + exists sj. rewrite list_lookup_alter_ne by done. split_and!; [done| |done]. destruct F1; [by left|right; by apply Hab].
  - done.
  - done.
Qed.

Lemma init_ok h m rid stream m' : mgr_ok h m -> awaits_other (loop m) = true -> _init_req_state rid stream m = Ret m' -> mgr_ok h m'.
Proof.
  intros HM Ha E. unfold _init_req_state in E. destruct (dict_get rid (rid_to_state m)) eqn:Eg; [done|]. injection E as <-. pose proof HM as [M1 M2 M3 M4 M5].
  constructor; cbn [objects rid_to_state loop].
  - intros k s Hk. apply lookup_app_Some in Hk as [Hk|[Hl Hk]]; [by apply M1|].
    rewrite (proj1 (M2 k Hl)). destruct (k - length (objects m))%nat; [|done]. injection Hk as <-. rewrite awaits_pending by done.
    constructor; cbn; try done.
    + intros _. split; [done|]. by intros [?|?%not_elem_of_nil].
    + intros _ _. unfold queue_ok. cbn. by destruct (is_incremental _).
  - intros k. rewrite length_app. intros Hk. apply M2. lia.
  - intros r k Hr. destruct (decide (rid = r)) as [<-|Hne].
    + rewrite dict_get_set_eq in Hr. injection Hr as <-. exists (new_state rid stream). rewrite lookup_app_r, Nat.sub_diag by done. split_and!; [done|by left|done].
    + rewrite dict_get_set_ne in Hr by done. destruct (M3 r k Hr) as (s & E & F). exists s. by rewrite (lookup_app_l_Some _ _ _ _ E).
  - by apply dict_set_NoDup.
  - by rewrite awaits_pending.
Qed.

(** An abort queues a last chunk and wakes the waiter. *)
Lemma abort_ok h m rid reason k m' :
  mgr_ok h m -> awaits_other (loop m) = true -> dict_get rid (rid_to_state m) = Some k -> _handle_abort_req rid reason m = Ret m' -> mgr_ok (h ++ [(k, None)]) m'.
Proof.
  intros HM Ha Eg E. unfold _handle_abort_req in E. rewrite Eg in E. injection E as <-. destruct (mg_live _ _ HM _ _ Eg) as (s & Hk & _ & _).
  pose proof (await_obj h m k s HM Ha Hk) as [H1 H2 H3 H4 HB H5 H6 H7].
  assert (aborted k (h ++ [(k, None)])) as Hab by (apply aborted_abort; by right).
  destruct (get_text_spec (set_finished true s)) as (s1 & Eg1 & B1 & B2 & B3 & B4 & B5 & B6 & B7 & B8 & B9). cbn in B1, B2, B3, B4, B5, B6, B7, B8, B9.
  change (rs_text (set_finished true s) ++ concat (text_chunks (set_finished true s))) with (rs_text s ++ concat (text_chunks s)) in Eg1. rewrite H1 in Eg1, B1.
  apply (update_ok h _ m k _ s HM Ha Hk (or_intror eq_refl)); [|by right|by rewrite Eg1].
  rewrite Eg1. constructor; cbn [set_event set_out rs_text text_chunks rs_output_ids w_end out_list event rs_finished]; try done.
  - by rewrite B4.
  - intros _. split; [by left|]. intros _ E0. by apply app_eq_nil in E0 as [_ ?].
  - intros _ _ E0. by apply app_eq_nil in E0 as [_ ?].
  - unfold beginnings, is_incremental in *. cbn. rewrite B2, B5, B7. intros Hi. destruct (HB Hi) as [Q1 Q2]. split; [|done]. apply Forall_app. split; [done|]. by repeat constructor.
  - by rewrite B8.
Qed.

Lemma notify_ok h m p l : pending_of l = [] -> mgr_ok h (goto (InBatch p []) m) -> mgr_ok h (goto l (notify p m)).
Proof.
  intros Hl [M1 M2 M3 M4 M5]. cbn [goto objects rid_to_state loop pending_of] in *. constructor; cbn [goto objects rid_to_state loop]; rewrite ?Hl.
  - intros k s Hk. destruct (notify_lookup p m k) as (E & _ & _). rewrite E in Hk. destruct (objects m !! k) as [s0|] eqn:E0; [|by destruct (decide _)].
    pose proof (notified _ _ _ _ (M1 k s0 E0)) as HN. assert (s = if decide (k ∈ p.*2) then set_event true s0 else s0) as ->.
    { destruct (decide (k ∈ p.*2)); by injection Hk as <-. }
    eapply obj_ok_iff; [|exact HN]. split; [done|by intros ?%not_elem_of_nil].
  - intros k. destruct (notify_lookup p m k) as (_ & _ & ->). apply M2.
  - intros r k Hr. destruct (notify_lookup p m k) as (E & E2 & _). rewrite E2 in Hr. destruct (M3 r k Hr) as (s & Es & F1 & F2). rewrite E, Es.
    destruct (decide (k ∈ p.*2)); eexists; done.
  - destruct (notify_lookup p m 0%nat) as (_ & -> & _). done.
  - done.
Qed.

Lemma dict_set_vals (r : string) (k : nat) p j :
  (forall k0, dict_get r p = Some k0 -> k0 = k) -> j ∈ (dict_set r k p).*2 <-> j = k \/ j ∈ p.*2.
Proof.
  induction p as [|[r' k'] p IH]; cbn; intros Hk; [by rewrite list_elem_of_singleton, elem_of_nil; naive_solver|].
  destruct (decide (r = r')) as [->|Hne]; cbn.
  - specialize (Hk k' eq_refl) as ->. rewrite elem_of_cons. naive_solver.
  - rewrite !elem_of_cons, IH by done. naive_solver.
Qed.

Lemma goto_ok h m l : pending_of l = pending_of (loop m) -> mgr_ok h m -> mgr_ok h (goto l m).
Proof. intros E [M1 M2 M3 M4 M5]. constructor; cbn [goto objects rid_to_state loop]; rewrite ?E; done. Qed.

(** The body of the loop for one request. *)
Lemma item_ok h m p i rest k s s' out :
  mgr_ok h m -> pending_of (loop m) = p -> dict_get (so_rid i) (rid_to_state m) = Some k -> objects m !! k = Some s -> deliver i s = (s', out) ->
  mgr_ok (h ++ [(k, Some (so_text i, so_ids i))])
    (mkManager (<[k := push out s']> (objects m)) (if rs_finished s' then dict_pop (so_rid i) (rid_to_state m) else rid_to_state m)
       (InBatch (match out with Some _ => dict_set (so_rid i) k p | None => p end) rest)).
Proof.
  intros [M1 M2 M3 M4 M5] Hp Hg Hk Hd. rewrite Hp in *. destruct (M3 _ _ Hg) as (s0 & E0 & Hf & Hrid). assert (s0 = s) as -> by congruence.
  destruct (deliver_ok _ _ _ i s (M1 k s Hk) Hf) as (s'' & out' & E & HO & Hfin & Hr). rewrite Hd in E. injection E as <- <-.
  assert (rs_finished (push out s') = rs_finished s') as Efin by (by destruct out).
  assert (k < length (objects m))%nat as Hlt by (by eapply lookup_lt_Some).
  assert (forall j, j ∈ (match out with Some _ => dict_set (so_rid i) k p | None => p end).*2 <-> j ∈ p.*2 \/ j = k /\ out <> None) as Hpend.
  { intros j. destruct out; [|naive_solver]. rewrite dict_set_vals; [naive_solver|]. intros k0 Hk0. by eapply M5. }
  assert (forall r j, dict_get r (if rs_finished s' then dict_pop (so_rid i) (rid_to_state m) else rid_to_state m) = Some j ->
    dict_get r (rid_to_state m) = Some j /\ (r = so_rid i -> rs_finished s' = false)) as Hlive.
  { intros r j Hj. destruct (rs_finished s'); [|done]. destruct (decide (so_rid i = r)) as [<-|Hne]; [by rewrite dict_get_pop_eq in Hj|].
    rewrite dict_get_pop_ne in Hj by done. naive_solver. }
  constructor; cbn [objects rid_to_state loop pending_of].
  - intros j sj Hj. rewrite got_app, got_one. destruct (decide (k = j)) as [<-|Hne].
    + rewrite list_lookup_insert_eq in Hj by done. injection Hj as <-. eapply obj_ok_iff; [|eapply obj_ok_aborted; [|exact HO]]; [rewrite Hpend; naive_solver|by rewrite aborted_more].
    + rewrite list_lookup_insert_ne in Hj by done. rewrite app_nil_r. eapply obj_ok_iff; [|eapply obj_ok_aborted; [|exact (M1 j sj Hj)]]; [rewrite Hpend; naive_solver|by rewrite aborted_more].
  - intros j. rewrite length_insert. intros Hj. rewrite got_app, got_one, aborted_more, (proj1 (M2 j Hj)). rewrite decide_False by lia. split; [done|by apply M2].
  - intros r j Hj. destruct (Hlive r j Hj) as [Hj' Hj'']. destruct (M3 r j Hj') as (sj & Ej & Fj & Rj). destruct (decide (k = j)) as [<-|Hne].
    + exists (push out s'). rewrite list_lookup_insert_eq by done. assert (sj = s) as -> by congruence. split_and!; [done| |congruence].
      left. rewrite Efin. apply Hj''. congruence.
    + exists sj. rewrite list_lookup_insert_ne, aborted_more by done. done.
  - destruct (rs_finished s'); [by apply dict_pop_NoDup|done].
  - intros r j k' Hj Hk'. destruct (Hlive r k' Hk') as [Hk'' _]. destruct out; [|by eapply M5]. destruct (decide (so_rid i = r)) as [<-|Hne].
    + rewrite dict_get_set_eq in Hj. congruence.
    + rewrite dict_get_set_ne in Hj by done. by eapply M5.
Qed.

Local Abbreviation loop_step := (loop_step inc batch_notify_size).
Local Abbreviation manager_step := (manager_step inc batch_notify_size).
Local Abbreviation manager_run := (manager_run inc batch_notify_size).

Lemma loop_ok h m : mgr_ok h m -> loop m <> Receiving ->
  mgr_ok (h ++ match loop m with
               | InBatch _ (i :: _) => match dict_get (so_rid i) (rid_to_state m) with Some k => [(k, Some (so_text i, so_ids i))] | None => [] end
               | _ => []
               end) (loop_step m).
Proof.
  intros HM Hl. unfold Responses.loop_step. destruct (loop m) as [|p [|i rest]|rest] eqn:El; [done| | |].
  - rewrite app_nil_r. apply notify_ok; [done|]. apply goto_ok; [by rewrite El|done].
  - destruct (dict_get (so_rid i) (rid_to_state m)) as [k|] eqn:Eg; [|rewrite app_nil_r; apply goto_ok; [by rewrite El|done]].
    destruct (mg_live _ _ HM _ _ Eg) as (s & Hk & _). rewrite Hk. destruct (deliver i s) as [s' out] eqn:Ed.
    pose proof (item_ok h m p i rest k s s' out HM ltac:(by rewrite El) Eg Hk Ed) as HI. destruct out as [c|]; [|exact HI]. cbn [push] in HI.
    destruct (_ <=? _)%nat; [|exact HI]. apply notify_ok; [done|]. eapply (goto_ok _ _ (InBatch (dict_set (so_rid i) k p) [])) in HI; [exact HI|done].
  - rewrite app_nil_r. apply goto_ok; [by rewrite El|done].
Qed.

Lemma step_ok h m l m' : mgr_ok h m -> manager_step m l m' -> mgr_ok (h ++ l) m'.
Proof.
  intros HM Hs. destruct Hs as [m rid stream m' Ha E|m batch El|m rid reason k m' El Eg E|m Hl|m k s Ha Hk Hw He|m k s Ha Hk Hw He].
  - rewrite app_nil_r. by eapply init_ok.
  - rewrite app_nil_r. apply goto_ok; [by rewrite El|done].
  - eapply abort_ok; [done|by rewrite El|done|done].
  - by apply loop_ok.
  - pose proof (await_obj h m k s HM Ha Hk) as HO. destruct (wait_ok _ _ s HO Hw He) as (H1 & H2 & H3).
    assert (mgr_ok (h ++ []) (update_obj k (fun s => (wait_step s).1) m)) as HU.
    { apply (update_ok h [] m k _ s); [done|done|done|by left|by rewrite app_nil_r|by left|done]. }
    cbv zeta. destruct (wait_step s).2; [|exact HU].
    destruct HU as [M1 M2 M3 M4 M5]. constructor; cbn [forget_rid objects rid_to_state loop] in *; try done.
    + intros r j Hj. destruct (decide (obj_rid s = r)) as [<-|Hne]; [by rewrite dict_get_pop_eq in Hj|]. rewrite dict_get_pop_ne in Hj by done. by apply M3.
    + by apply dict_pop_NoDup.
    + intros r j k' Hj Hk'. apply (M5 r j k' Hj). destruct (decide (obj_rid s = r)) as [<-|Hne]; [by rewrite dict_get_pop_eq in Hk'|]. by rewrite dict_get_pop_ne in Hk'.
  - apply (update_ok h [] m k _ s); [done|done|done|by left| |by left|done]. rewrite app_nil_r. pose proof (await_obj h m k s HM Ha Hk) as [H1 H2 H3 H4 HB H5 H6 H7]. by constructor.
Qed.

Lemma run_ok h m : manager_run h m -> mgr_ok h m.
Proof.
  induction 1 as [|h m l m' _ IH Hs]; [|by eapply step_ok]. constructor; cbn; try done; [|constructor].
  intros k _. split; [done|]. apply not_elem_of_nil.
Qed.

Lemma wait_ends d (ab : Prop) s : obj_ok d ab False s -> w_end s = None -> rs_finished s = true -> w_end (wait_step s).1 <> None.
Proof.
  intros HO Hw Hf. destruct (wait_reads d ab s HO Hw (ob_done _ _ _ _ HO Hw Hf)) as (t & ids & r & s1 & _ & _ & _ & _ & R5 & _ & _ & _ & _ & -> & _).
  rewrite R5, Hf. by destruct (_handle_abort_finish_reason r (obj_stream s1)).
Qed.

(** C7. Every request that is not aborted gets all its text, under every interleaving of the
    receiving loop, abort messages included, and the waiters.  A waiter that ends well has
    yielded everything the detokenizer sent for its request: in incremental streaming the
    deltas put together, otherwise all of it in its last response; until then what was
    yielded and what is queued is all there is.  For every request, aborted or not: its
    waiter never finds its queue empty; whenever the loop gives way, its event is set exactly
    if something is queued, and once it is finished the event is set and waking up ends the
    waiter; and without incremental streaming every text it yielded is a beginning of what
    the detokenizer sent.  (With incremental streaming, an abort sends the text again:
    [abort_sends_text_again].) *)
Theorem responses_complete h m k s :
  manager_run h m -> objects m !! k = Some s ->
  (~ aborted k h ->
     (w_end s = Some (Ret tt) -> rs_finished s = true /\ all_yielded (got k h) s) /\ (w_end s = None -> queue_ok (got k h) s)) /\
  w_end s <> Some (Raise IndexError) /\
  (is_incremental s = false -> Forall (fun y => rp_text y `prefix_of` all_text (got k h)) (w_yields s)) /\
  (awaits_other (loop m) = true -> w_end s = None ->
     (event s = true <-> out_list s <> []) /\ (rs_finished s = true -> event s = true /\ w_end (wait_step s).1 <> None)).
Proof.
  intros HR Hk. pose proof (run_ok h m HR) as HM. destruct (mg_objs _ _ HM k s Hk) as [H1 H2 H3 H4 HB H5 H6 H7].
  split; [by intros Hab; split; auto|]. split_and!; [done|by intros Hi; apply HB|]. intros Ha Hw. pose proof (await_obj h m k s HM Ha Hk) as HO.
  assert (event s = true <-> out_list s <> []) as Hev by (rewrite (ob_wake _ _ _ _ HO Hw); naive_solver).
  split; [done|]. intros Hf. split; [by apply Hev, H4|by eapply wait_ends].
Qed.
End manager.

(** ** Runs *)

(** Two messages for a streaming request, with incremental output; the second is the last. *)
Definition rm1 : Manager := mkManager [new_state "a" true] [("a", 0%nat)] Receiving.
Definition rloop (b : StrOut) (m : Manager) : Manager :=
  loop_step true 1 (loop_step true 1 (loop_step true 1 (goto (InBatch [] [b]) m))).
Definition rwait (m : Manager) : Manager := update_obj 0 (fun s => (wait_step true s).1) m.
Definition msg_a : StrOut := mkStrOut "a" [72; 105] [1] None.
Definition msg_b : StrOut := mkStrOut "a" [33] [2] (Some Stopped).

Lemma run_rloop h b m m' :
  manager_run true 1 h m -> loop m = Receiving -> loop (loop_step true 1 (goto (InBatch [] [b]) m)) = Sleeping [] ->
  dict_get (so_rid b) (rid_to_state m) = Some 0%nat -> rloop b m = m' -> manager_run true 1 (h ++ [(0%nat, Some (so_text b, so_ids b))]) m'.
Proof.
  intros HR El E1 Eg <-. unfold rloop. set (m1 := loop_step true 1 (goto (InBatch [] [b]) m)) in *.
  assert (manager_run true 1 (h ++ [(0%nat, Some (so_text b, so_ids b))]) m1) as H1.
  { assert (manager_run true 1 (h ++ []) (goto (InBatch [] [b]) m)) as H0 by (eapply run_step; [exact HR|by apply step_recv]). rewrite app_nil_r in H0.
    pose proof (run_step true 1 _ _ _ _ H0 (step_loop true 1 (goto (InBatch [] [b]) m) ltac:(done))) as H1. cbn [goto loop rid_to_state] in H1. rewrite Eg in H1. exact H1. }
  assert (manager_run true 1 (h ++ [(0%nat, Some (so_text b, so_ids b))]) (loop_step true 1 m1)) as H2.
  { pose proof (run_step true 1 _ _ _ _ H1 (step_loop true 1 m1 ltac:(by rewrite E1))) as H2. rewrite E1, app_nil_r in H2. exact H2. }
  assert (loop (loop_step true 1 m1) = InBatch [] []) as E2 by (unfold loop_step at 1; by rewrite E1).
  pose proof (run_step true 1 _ _ _ _ H2 (step_loop true 1 (loop_step true 1 m1) ltac:(by rewrite E2))) as H3. rewrite E2, app_nil_r in H3. exact H3.
Qed.

Lemma run_rwait h m s m' :
  manager_run true 1 h m -> loop m = Receiving -> objects m !! 0%nat = Some s -> w_end s = None -> event s = true -> (wait_step true s).2 = false ->
  rwait m = m' -> manager_run true 1 h m'.
Proof.
  intros HR El Eo Hw He Hf <-. pose proof (run_step true 1 _ _ _ _ HR (step_wait true 1 m 0 s ltac:(by rewrite El) Eo Hw He)) as H1.
  cbv zeta in H1. rewrite Hf, app_nil_r in H1. exact H1.
Qed.

Definition resp_a : Resp := mkResp [72; 105] [1] None.
Definition resp_b : Resp := mkResp [33] [2] (Some Stopped).
Definition rs_end : ReqState := mkState "a" true [] true false [] [[72; 105]; [33]] [1; 2] [resp_a; resp_b] (Some (Ret tt)).

Lemma responses_complete_witness :
  manager_run true 1 [(0%nat, Some ([72; 105], [1])); (0%nat, Some ([33], [2]))] (mkManager [rs_end] [] Receiving) /\
  all_yielded true [([72; 105], [1]); ([33], [2])] rs_end.
Proof.
  assert (manager_run true 1 [] rm1) as R1 by (apply (run_step true 1 [] _ [] _ (run_start true 1)); by apply (step_init true 1 _ "a" true)).
  apply (run_rloop _ msg_a _ (mkManager [mkState "a" true [mkChunk (Some [72; 105]) (OwnIds [1]) None] false true [] [[72; 105]] [1] [] None] [("a", 0%nat)] Receiving)) in R1; try reflexivity.
  eapply (run_rwait _ _ _ (mkManager [mkState "a" true [] false false [] [[72; 105]] [1] [resp_a] None] [("a", 0%nat)] Receiving)) in R1; try reflexivity.
  apply (run_rloop _ msg_b _ (mkManager [mkState "a" true [mkChunk (Some [33]) (OwnIds [2]) (Some Stopped)] true true [] [[72; 105]; [33]] [1; 2] [resp_a] None] [] Receiving)) in R1; try reflexivity.
  eapply (run_rwait _ _ _ (mkManager [rs_end] [] Receiving)) in R1; try reflexivity. split; [exact R1|].
  exact (proj2 (proj1 (proj1 (responses_complete true 1 _ _ 0%nat rs_end R1 eq_refl) ltac:(by apply (bool_decide_unpack _))) eq_refl)).
Defined.

(** ** Aborts from the waiting queue *)

(** [_handle_abort_req] leaves the request in [rid_to_state]: after the waiter has ended, the
    same request id is refused as a duplicate. *)
Theorem abort_keeps_request_id :
  exists m, _handle_abort_req "a" None rm1 = Ret m /\
    w_end <$> objects (rwait m) !! 0%nat = Some (Some (Ret tt)) /\ _init_req_state "a" true (rwait m) = Raise ValueError.
Proof. eexists. split; [reflexivity|]. split; reflexivity. Qed.

(** With incremental streaming, the abort of a request that has streamed (one that was
    retracted to the waiting queue) sends all its text again. *)
Theorem abort_sends_text_again :
  exists m, manager_run true 1 [(0%nat, Some ([72; 105], [1])); (0%nat, None)] m /\
    (fun s => (rp_text <$> w_yields s, w_end s)) <$> objects m !! 0%nat = Some ([[72; 105]; [72; 105]], Some (Ret tt)).
Proof.
  assert (manager_run true 1 [] rm1) as R1 by (apply (run_step true 1 [] _ [] _ (run_start true 1)); by apply (step_init true 1 _ "a" true)).
  apply (run_rloop _ msg_a _ (mkManager [mkState "a" true [mkChunk (Some [72; 105]) (OwnIds [1]) None] false true [] [[72; 105]] [1] [] None] [("a", 0%nat)] Receiving)) in R1; try reflexivity.
  eapply (run_rwait _ _ _ (mkManager [mkState "a" true [] false false [] [[72; 105]] [1] [resp_a] None] [("a", 0%nat)] Receiving)) in R1; try reflexivity.
  eapply (run_step true 1 _ _ [(0%nat, None)]) in R1; [|eapply (step_abort true 1 _ "a" None 0%nat); reflexivity].
  eexists. split; [eapply run_rwait; [exact R1|reflexivity..]|reflexivity].
Qed.
